(* ===== verification/_CoqProject ===== *)
-Q . S2P
Prelude.v
GoText.v
TextFacts.v
Cond.v
CondSyntax.v
CondSyntaxFacts.v
Evidence.v
Journal.v
Identity.v
Country.v
Profile.v
Policy.v
Library.v
LibraryFacts.v
Decide.v
Merge.v
MergeFacts.v
YamlStore.v
ProfileBase.v
InlineFacts.v
ProfileBaseFacts.v
Goroutines.v
Coalesce.v
RequestTraffic.v
SpeedBudget.v
PolicyFacts.v
PoolFacts.v
DecideFacts.v
ProviderPolicy.v
ProviderPolicyFacts.v
Budget.v
Route.v
RouteFacts.v
Scenario.v
Layers.v
Machine.v
Flatten.v
Host.v
RouteWatch.v
Float64.v
SpeedTest.v
SpeedTestFacts.v
SpeedMeter.v
Region.v
UrlText.v
ServiceCheck.v
ShareLink.v
Messages.v
RouteInject.v
Bundle.v
BundleFacts.v
BundleExchange.v
Builder.v
BuilderText.v
BuilderFacts.v
BuilderForms.v
Studio.v
StudioHost.v
LintFacts.v
StudioFacts.v
StudioHostFacts.v
FlattenFacts.v
Rebuild.v
Settle.v
Events.v
Planner.v
Samples.v
MachineFacts.v
SettleFacts.v
EventFacts.v
PlannerFacts.v
RebuildFacts.v
StudioEffects.v
Engine.v
Drain.v
DrainFacts.v
EngineFacts.v
Status.v
StatusFacts.v
Witnesses.v
