(* ===== verification/Prelude.v ===== *)
(** * ReClash core: a verification library for the routing engine

    ReClash is a proxy client built on the mihomo core. Its own logic is the
    Go package [core/rcx], the smart-routing engine that decides which server
    every select group of a config uses, and the parts of the package [core]
    that feed it and carry out what it asks. This library translates that
    code, operation by operation, and proves what makes it correct. File and
    function names below are those under src/core.

    ** How the program works

    A subscription brings a config: select groups and their servers. The host
    (rcx_runtime.go) reports the groups as a topology. The user, the provider
    of the subscription and an embedded library write profiles: tiers of
    conditions over what is known of a server, checks, exclusions, anti-flap
    settings. A binding attaches a profile to a group. The engine compiles
    each binding into a policy, keeps evidence per network and server (checks,
    traffic, failed dials, countries voted for), decides every group from the
    evidence by its policy, asks the host to select servers, close connections
    and run checks, and arms one timer for the next moment it must look again.

    ** The files

    The language and its libraries:
    - [Prelude]: 64-bit integers, lists, comparison chains, times, tactics and
      hints. [GoText], [TextFacts]: Go strings, UTF-8 and its round trip,
      trimming, splitting, numbers in decimal. [UrlText]: percent encoding,
      base64 and JSON strings.

    What is written by users (each the file of the same name in rcx/):
    - [Cond], [CondSyntax], [CondSyntaxFacts]: the condition language of
      rcx/cond.go: three-valued evaluation, lexer, parser.
    - [Profile], [Policy], [Library], [Layers]: rcx/profile.go, rcx/policy.go
      and rcx/trust.go: the document and its validation, the chain of profiles
      a profile extends, consent for contacting hosts, compilation. Facts in
      [LibraryFacts], [PolicyFacts] and [PoolFacts].
    - [Merge], [MergeFacts]: rcx/merge.go, the three-way merge of a forked
      profile.
    - [Route], [RouteFacts], [Scenario]: rcx/route.go and rcx/scenario.go.
    - [Bundle], [BundleFacts], [BundleExchange]: rcx/bundle.go, documents that
      travel with the profiles they name.
    - [Builder], [BuilderText], [BuilderFacts], [BuilderForms]: rcx/builder.go,
      a condition as a form and back.
    - [Studio], [StudioHost]: rcx/studio.go, the lint of documents, their
      canonical layout, the country picker and the requests of the editor.
      Facts in [LintFacts], [StudioFacts], [StudioHostFacts] and, beside a
      running machine, [StudioEffects].

    What is known, and the decision:
    - [Evidence], [Journal], [Identity], [Country]: rcx/evidence.go,
      rcx/journal.go, rcx/identity.go, rcx/country.go.
    - [Decide], [DecideFacts]: rcx/decide.go, a pure function from the members
      of a group, the evidence and the policy to one action.
    - [Budget]: rcx/plan.go, token buckets and orders of probing.

    The engine:
    - [Machine] is the state of rcx/machine.go as a record; every method that
      changes it is a function from machine to machine, in [Rebuild] (new
      topology or profiles), [Settle] (the pass over the groups), [Events]
      (what reaches it) and [Planner] (checks to buy, next wake-up). What a
      method asks of the core is appended to a list of calls; a panic of the
      code is [None]. [Samples] is a machine to compute with.
    - [Engine] is rcx/engine.go: each operation is one critical section of
      the engine's lock around the machine. [Drain] is its lock-free part:
      atomic counters bumped on the hot path, drained into the machine.
      [Status] is what the host reads: rcx/status.go, the queries of the
      engine and the run of one check; facts in [StatusFacts].
    - Facts in [MachineFacts], [RebuildFacts], [SettleFacts], [EventFacts],
      [PlannerFacts], [EngineFacts] and [DrainFacts]; [Witnesses] applies them
      to concrete machines.

    Around the engine:
    - [Flatten], [FlattenFacts]: how rcx_runtime.go and proxy.go turn the
      groups of the core into the engine's topology. [Host]: how
      rcx_runtime.go carries out what the engine asks, the tunnel mode and
      the user layer on their way, destinations that stay local.
    - [YamlStore], [ProfileBase]: profile_base.go and short_id.go, the host's
      overlay laid over a profile, on nodes in a store, since aliases share
      them. Facts in [InlineFacts] and [ProfileBaseFacts].
    - [Goroutines]: interleavings of goroutines over a shared state, and a
      token one of them holds; [Coalesce]: coalesced background runs and own
      probes; [RequestTraffic]: request_traffic.go, the goroutines that watch
      the traffic of a request.
    - [RouteWatch]: route.go, the numbered route the host watches.
    - [Messages]: message.go, the channels and the batcher of events.
    - [RouteInject]: rcx_routes.go, the scenario's routes in front of the
      config's rules.
    - [ProviderPolicy], [ProviderPolicyFacts]: provider_policy.go, limits the
      provider of a subscription sets.
    - [SpeedBudget]: speed_test_budget.go; [SpeedTest], [SpeedTestFacts]:
      speed_test_run.go, the manager of speed tests, its worker and the life
      of a run; [SpeedMeter]: the meter and the figures of
      speed_test_measurements.go. [Float64]: conversions of float64, and how
      large a rounded product or quotient can be.
    - [ShareLink]: share_link.go, the links of proxies. [ServiceCheck],
      [Region]: service_check.go, service_rules.go and region.go, a check as a
      tree of requests with what follows from each answer.

    ** How the code is rendered

    A Go [int] or [int64] is a [Z] whose operations wrap at 64 bits; a
    [float64] is a binary64 of SpecFloat. A string is its bytes. A map is a
    [gmap] where the code does not depend on an order; where it ranges over
    one, the order is a parameter ([RangeOrder]), so that a theorem holds of all
    of them. A pointer that is shared and changed is a key into a shared
    store. A time is a [Z] of nanoseconds with the zero time apart. A mutex
    makes each locked section one step; where the code uses atomics instead
    ([Drain], [Coalesce], [Host], [Messages],
    [RequestTraffic]) the goroutines are a step relation that interleaves
    single atomic operations, and theorems are by induction on its runs.

    Code outside this repository is a parameter: regular expressions, the
    Unicode tables, the public suffix list, URL parsing, YAML, HMAC, the
    proxies and the selection of mihomo, the clock and the files. They are
    classes, each with the operations the code uses and, where a theorem needs
    one, the documented law. Witnesses instantiate them.

    ** What the theorems show

    - Decisions ([DecideFacts]): a working server is left only for a reason;
      a switch only ever names an eligible member, a fixed one or the stranded
      fallback; a dead server is left when an eligible one exists; the ranking
      is a sorted permutation whose first eligible row is optimal; the order
      of the members does not matter.
    - The engine ([EngineFacts], [SettleFacts], [EventFacts], [PlannerFacts],
      [MachineFacts]): an invariant of every sequence of inputs; what a pass
      over the groups may ask of the core; that checks stay within the
      concurrency limit, and a failed check condemns a server only when the
      link is proven; that the engine wakes no later than anything it waits
      for, but for the dwell of a policy the network overrides; and exactly
      when planning panics.
    - Interleavings ([DrainFacts], [Coalesce], [RequestTraffic],
      [SpeedTestFacts]): no note of a server the topology keeps is lost, none
      is drained twice, no requested
      run is left behind; a closed request is let go once the host has its
      last totals; a speed test ends, ends once, and does not come back when
      it was cancelled.
    - Profiles ([LibraryFacts], [PolicyFacts], [PoolFacts], [MergeFacts],
      [CondSyntaxFacts]): the extends loop refines the inheritance relation;
      a compiled policy is closed and contacts no host nobody agreed to;
      narrowing a pool means conjunction; a merge is three-way key by key;
      parsing ends and yields well-scoped conditions.
    - The editor ([BuilderForms], [LintFacts], [StudioFacts],
      [StudioEffects], [BundleExchange]): a form says what its condition says;
      a lint gives the verdict saving will have; what it calls unused is read
      by no condition; the editor changes nothing of the engine but when a
      network was last seen, and the one request that panics; what a bundle
      carries arrives whole, through a codec whose texts read as the trees
      they were written from, up to looks ([YamlReads]).
    - Routes and scenarios ([RouteFacts], [Scenario], [RouteInject]):
      validation is a round trip; which program drives a group; injected
      routes leave the config as it was, never make it fail, and put in front
      exactly the rules that their matches spell.
    - The host ([FlattenFacts], [Host], [ProviderPolicyFacts], [RouteWatch],
      [Messages], [SpeedBudget], [SpeedMeter]): the reported topology is the core's; a
      selection reaches its node or leaves the group alone; which races may
      leave the tunnel mode or the user layer behind; what the provider's
      limits let through; a route version stands for one route; messages
      arrive in order and bulk messages get their turn; the bytes a test moves
      stay within its budget and its meter accounts for every byte.
    - Configs ([InlineFacts], [ProfileBaseFacts]): writing out aliases ends
      and changes no meaning, or tells of an alias to itself; what the merged
      config holds of the profile and of the overlay, key by key, and which
      numbers it keeps as text.
    - Checks of services ([ServiceCheck]): whatever the network answers, a
      check ends after few requests with the verdict that a table of the
      services ([bears]) gives to the answers; a
      newer check of a service cancels the older one and no other.
    - Links ([ShareLink]): which proxies have none, and that a link reads back,
      key by key, to the fields its type says ([url_table], [json_table]).
    - Components ([Evidence], [Journal], [Identity], [Budget]): verdicts as
      functions of history, bounds of every store, stable and distinct keys,
      what the host reads from the journal, the daily cap.

    ** Fuel and bounds

    Loops that are not structural take fuel, and a theorem says it is enough:
    [parse_fuel] grows with the number of tokens (the error [OutOfFuel] is never returned);
    [chain_fuel] is two more than the longest chain the code accepts, five;
    routes are walked through at most 65 proxies by a fuel of the code itself
    ([route_fuel]); flattened paths are at most five selectors deep, again the
    code's own bound ([walk_fuel]); a merge recurses by the height of its
    trees; reading an upload's payload copies a byte a turn. An export follows
    at most one reference for each profile and each queued one ([export_fuel]).
    A confirmed upload is spread over one interval a turn ([confirm_fuel]).
    The nodes of a YAML document may refer to each other without end; what
    walks them takes the depth of the stack left to it, and running out of it
    is a fault of its own, as it is in Go. The theorems say when the depth of
    the document is enough, and when none is.
    Fresh keys, ids and names are searched among one more candidate than there
    are taken ones.

    ** Not modelled

    Network I/O (probes, the transfers of speed tests, fetching,
    DNS, the doctor), process and platform code (cmd, platform, tun, mobile, certificates), the
    JSON protocol and the calls that only pass through to mihomo. They hold no
    state the engine decides by. *)

From stdpp Require Export base gmap sets list strings.
From Stdlib Require Export ZArith Lia.

#[export] Set Default Goal Selector "!".
#[export] Set Warnings "-register-all".
#[global] Open Scope Z_scope.

(** ** Go integers

    [int], [int64] and [time.Duration] are 64-bit two's complement on every
    platform the app ships; arithmetic on them wraps. *)

Declare Scope go_scope.
Delimit Scope go_scope with go.

Definition min64 : Z := - 2 ^ 63.
Definition max64 : Z := 2 ^ 63 - 1.

(** The value an overflowing Go [int64] operation leaves. *)
Definition wrap64 (z : Z) : Z := (z + 2 ^ 63) mod 2 ^ 64 - 2 ^ 63.

Definition in64 (z : Z) : Prop := min64 <= z <= max64.

Notation "a +i b" := (wrap64 (a + b)) (at level 50, left associativity) : go_scope.
Notation "a -i b" := (wrap64 (a - b)) (at level 50, left associativity) : go_scope.
Notation "a *i b" := (wrap64 (a * b)) (at level 40, left associativity) : go_scope.
(** Go's [/] truncates toward zero. *)
Notation "a /i b" := (wrap64 (Z.quot a b)) (at level 40, left associativity) : go_scope.
#[global] Open Scope go_scope.

Lemma wrap64_small z : in64 z → wrap64 z = z.
Proof. unfold in64, min64, max64, wrap64. intros H. rewrite Z.mod_small; lia. Qed.

Lemma wrap64_range z : in64 (wrap64 z).
Proof.
  unfold in64, min64, max64, wrap64.
  pose proof (Z.mod_pos_bound (z + 2 ^ 63) (2 ^ 64) ltac:(lia)). lia.
Qed.

(** ** time.Time and time.Duration

    A [time.Time] is its distance in nanoseconds from the zero [time.Time]
    (year 1), so [IsZero] is [= 0]; [Sub] saturates at the range of
    [time.Duration] as Go's does. *)

Abbreviation time := Z (only parsing).
Abbreviation duration := Z (only parsing).

Definition zero_time : time := 0.
Definition is_zero (t : time) : bool := t =? 0.
Definition after (t u : time) : bool := u <? t.
Definition before (t u : time) : bool := t <? u.
Definition clamp64 (z : Z) : Z := Z.max min64 (Z.min z max64).
Definition time_sub (t u : time) : duration := clamp64 (t - u).
Definition time_add (t : time) (d : duration) : time := t + d.

Definition Nanosecond : duration := 1.
Definition Millisecond : duration := 1000000.
Definition Second : duration := 1000000000.
Definition Minute : duration := 60 * Second.
Definition Hour : duration := 60 * Minute.

(** Below the saturation point a comparison of [Sub] with a window is the
    comparison of the exact difference. *)
Lemma time_sub_lt t u d : min64 < d <= max64 → (time_sub t u <? d) = (t - u <? d).
Proof.
  unfold time_sub, clamp64, min64, max64. intros H.
  destruct (Z.ltb_spec (t - u) d); [apply Z.ltb_lt | apply Z.ltb_ge]; lia.
Qed.

Lemma time_sub_gt t u d : min64 <= d < max64 → (d <? time_sub t u) = (d <? t - u).
Proof.
  unfold time_sub, clamp64, min64, max64. intros H.
  destruct (Z.ltb_spec d (t - u)); [apply Z.ltb_lt | apply Z.ltb_ge]; lia.
Qed.

Lemma time_sub_le t u d : min64 <= d < max64 → (time_sub t u <=? d) = (t - u <=? d).
Proof.
  unfold time_sub, clamp64, min64, max64. intros H.
  destruct (Z.leb_spec (t - u) d); [apply Z.leb_le | apply Z.leb_gt]; lia.
Qed.

(** ** Results of fallible code *)

Inductive result (E A : Type) : Type :=
  | Ok (a : A)
  | Err (e : E).
Arguments Ok {E A} _.
Arguments Err {E A} _.

#[export] Instance result_ret E : MRet (result E) := λ A a, Ok a.
#[export] Instance result_bind E : MBind (result E) := λ A B f r,
  match r with Ok a => f a | Err e => Err e end.
#[export] Instance result_fmap E : FMap (result E) := λ A B f r,
  match r with Ok a => Ok (f a) | Err e => Err e end.

Definition is_ok {E A} (r : result E A) : bool :=
  match r with Ok _ => true | Err _ => false end.

Lemma result_bind_Ok {E A B} (f : A → result E B) r b :
  r ≫= f = Ok b ↔ ∃ a, r = Ok a ∧ f a = Ok b.
Proof. destruct r; cbn; naive_solver. Qed.

(** ** Comparison functions, as [cmp.Compare] and [slices.SortStableFunc] use them *)

Definition compareZ (a b : Z) : Z := if a <? b then -1 else if b <? a then 1 else 0.

Definition sign_of (c : comparison) : Z :=
  match c with Lt => -1 | Eq => 0 | Gt => 1 end.

(** [strings.Compare]: bytewise, lexicographic. *)
Definition compareS (a b : string) : Z := sign_of (String.compare a b).

(** [cmp.Or] on the results of comparisons: the first that is not zero. *)
Definition cmp_or (c d : Z) : Z := if c =? 0 then d else c.

(** A comparison function a sort may be given: a total preorder. *)
Record total_preorder {A} (cmp : A → A → Z) : Prop := {
  cmp_flip : ∀ a b, cmp a b <= 0 ∨ cmp b a <= 0;
  cmp_opp : ∀ a b, cmp a b = - cmp b a;
  cmp_trans : ∀ a b c, cmp a b <= 0 → cmp b c <= 0 → cmp a c <= 0;
}.

Lemma compareZ_le a b : compareZ a b <= 0 ↔ a <= b.
Proof. unfold compareZ. repeat case_match; lia. Qed.

Lemma compareZ_lt a b : compareZ a b < 0 ↔ a < b.
Proof. unfold compareZ. repeat case_match; lia. Qed.

Lemma compareZ_0 a b : compareZ a b = 0 ↔ a = b.
Proof. unfold compareZ. repeat case_match; lia. Qed.

Lemma compareZ_opp a b : compareZ a b = - compareZ b a.
Proof. unfold compareZ. repeat case_match; lia. Qed.

Lemma compareZ_preorder {A} (f : A → Z) : total_preorder (λ a b, compareZ (f a) (f b)).
Proof.
  split; intros.
  - rewrite !compareZ_le. lia.
  - apply compareZ_opp.
  - rewrite !compareZ_le in *. lia.
Qed.

Lemma compareS_opp a b : compareS a b = - compareS b a.
Proof. unfold compareS. rewrite String.compare_antisym. by destruct (String.compare b a). Qed.

Lemma compareS_0 a b : compareS a b = 0 ↔ a = b.
Proof.
  unfold compareS. split.
  - destruct (String.compare a b) eqn:E; cbn; intros; try lia.
    by apply String.compare_eq_iff.
  - intros ->. pose proof (String.compare_antisym b b) as H.
    by destruct (String.compare b b).
Qed.

Lemma ascii_compare_spec a b :
  Ascii.compare a b = (Ascii.N_of_ascii a ?= Ascii.N_of_ascii b)%N.
Proof. reflexivity. Qed.

Lemma compareS_trans a b c : compareS a b <= 0 → compareS b c <= 0 → compareS a c <= 0.
Proof.
  unfold compareS. revert b c. induction a as [|x a IH]; intros [|y b] [|z c]; cbn; try lia.
  rewrite !ascii_compare_spec.
  destruct (N.compare_spec (Ascii.N_of_ascii x) (Ascii.N_of_ascii y)) as [E1|E1|E1]; cbn; try lia;
  destruct (N.compare_spec (Ascii.N_of_ascii y) (Ascii.N_of_ascii z)) as [E2|E2|E2]; cbn; try lia;
  destruct (N.compare_spec (Ascii.N_of_ascii x) (Ascii.N_of_ascii z)) as [E3|E3|E3]; cbn; try lia.
  apply IH.
Qed.

Lemma compareS_preorder {A} (f : A → string) : total_preorder (λ a b, compareS (f a) (f b)).
Proof.
  split; intros.
  - rewrite (compareS_opp (f a)). lia.
  - apply compareS_opp.
  - by eapply compareS_trans.
Qed.

(** Lexicographic combination keeps a total preorder: the pattern
    [if c := f(a, b); c != 0 { return c }; return g(a, b)]. *)
Lemma cmp_or_preorder {A} (f g : A → A → Z) :
  total_preorder f → total_preorder g → total_preorder (λ a b, cmp_or (f a b) (g a b)).
Proof.
  intros [Ff Fo Ft] [Gf Go Gt]. unfold cmp_or. split.
  - intros a b. specialize (Ff a b). specialize (Gf a b). specialize (Fo a b).
    repeat case_match; lia.
  - intros a b. rewrite (Fo a b), (Go a b). repeat case_match; lia.
  - intros a b c. pose proof (Ft a b c) as F1. pose proof (Ft b c a) as F2.
    pose proof (Ft c a b) as F3. pose proof (Gt a b c) as G1.
    rewrite (Fo c a) in F2, F3. rewrite (Fo c b) in F3. rewrite (Fo b a) in F2.
    repeat case_match; lia.
Qed.

(** ** Stable sorting

    [slices.SortStableFunc] leaves the one stable arrangement its comparison
    allows; inserting from the right into a sorted tail computes it. *)

Section stable_sort.
Context {A : Type} (cmp : A → A → Z).

Fixpoint insert_stable (x : A) (l : list A) : list A :=
  match l with
  | [] => [x]
  | y :: l' => if 0 <? cmp x y then y :: insert_stable x l' else x :: l
  end.

Definition sort_stable (l : list A) : list A := foldr insert_stable [] l.

(** Every element is at most every later one. *)
Inductive sorted_by : list A → Prop :=
  | sorted_nil : sorted_by []
  | sorted_cons x l : (∀ y, y ∈ l → cmp x y <= 0) → sorted_by l → sorted_by (x :: l).

Lemma insert_stable_perm x l : insert_stable x l ≡ₚ x :: l.
Proof.
  induction l as [|y l IH]; [done|]. cbn. case_match; [|done].
  rewrite IH. apply Permutation_swap.
Qed.

Lemma sort_stable_perm l : sort_stable l ≡ₚ l.
Proof. induction l as [|x l IH]; [done|]. cbn. by rewrite insert_stable_perm, IH. Qed.

Lemma elem_of_sort_stable x l : x ∈ sort_stable l ↔ x ∈ l.
Proof. by rewrite sort_stable_perm. Qed.

Lemma length_sort_stable l : length (sort_stable l) = length l.
Proof. by rewrite sort_stable_perm. Qed.

Context (Hcmp : total_preorder cmp).

Lemma insert_stable_sorted x l : sorted_by l → sorted_by (insert_stable x l).
Proof using Hcmp.
  induction 1 as [|y l Hy Hl IH]; cbn; [constructor; set_solver by constructor|].
  destruct (Z.ltb_spec 0 (cmp x y)) as [Hlt|Hle]; constructor; [|done| |].
  - intros z. rewrite insert_stable_perm, elem_of_cons.
    intros [->|Hz]; [rewrite (cmp_opp _ Hcmp) in Hlt; lia | auto].
  - intros z. rewrite elem_of_cons. intros [->|Hz]; [lia|].
    eapply (cmp_trans _ Hcmp); [|by apply Hy]. lia.
  - by constructor.
Qed.

Lemma sort_stable_sorted l : sorted_by (sort_stable l).
Proof using Hcmp. induction l; cbn; [constructor | by apply insert_stable_sorted]. Qed.

(** Stability: among elements the comparison does not separate from [z],
    the order is the original one. *)
Lemma insert_stable_class z x l :
  filter (λ y, cmp y z = 0) (insert_stable x l) = filter (λ y, cmp y z = 0) (x :: l).
Proof using Hcmp.
  induction l as [|y l IH]; [done|]. cbn [insert_stable].
  destruct (Z.ltb_spec 0 (cmp x y)) as [Hlt|Hle]; [|done].
  rewrite filter_cons, IH, !filter_cons.
  repeat case_decide; try done. exfalso.
  pose proof (cmp_trans _ Hcmp x z y) as H1. rewrite (cmp_opp _ Hcmp z y) in H1. lia.
Qed.

Lemma sort_stable_class z l :
  filter (λ y, cmp y z = 0) (sort_stable l) = filter (λ y, cmp y z = 0) l.
Proof using Hcmp.
  induction l as [|x l IH]; [done|]. cbn [sort_stable foldr].
  rewrite insert_stable_class, !filter_cons. unfold sort_stable in IH. by rewrite IH.
Qed.
End stable_sort.

Lemma sorted_by_at {A} (cmp : A → A → Z) l : sorted_by cmp l → ∀ i j a b, (i < j)%nat →
  l !! i = Some a → l !! j = Some b → cmp a b <= 0.
Proof.
  induction 1 as [|x l Hx _ IH]; intros i j a b Hij Ha Hb; [done|].
  destruct j as [|j]; [lia|]. destruct i as [|i]; cbn in *.
  - simplify_eq. by apply Hx, (list_elem_of_lookup_2 _ j).
  - by apply (IH i j); [lia|..].
Qed.

(** The first element of a sorted list satisfying [P] is a least one. *)
Lemma sorted_find_least {A} (cmp : A → A → Z) (P : A → bool) l x y :
  total_preorder cmp → sorted_by cmp l →
  List.find P l = Some x → y ∈ l → P y = true → cmp x y <= 0.
Proof.
  intros Hc. induction 1 as [|z l Hz Hl IH]; cbn; [done|].
  destruct (P z) eqn:E; intros Hf Hy HP.
  - simplify_eq. apply elem_of_cons in Hy as [->|Hy]; [|by apply Hz].
    pose proof (cmp_opp _ Hc x x). lia.
  - apply elem_of_cons in Hy as [->|Hy]; [congruence|]. by apply IH.
Qed.

Lemma sorted_lookup {A} (cmp : A → A → Z) l i j x y :
  total_preorder cmp → sorted_by cmp l → (i <= j)%nat →
  l !! i = Some x → l !! j = Some y → cmp x y <= 0.
Proof.
  intros Hc Hs. revert i j. induction Hs as [|z l Hz Hl IH]; [done|].
  intros [|i] [|j] Hij; cbn; intros Hx Hy; simplify_eq; try lia.
  - match goal with |- cmp ?a ?a <= 0 => pose proof (cmp_opp _ Hc a a) end. lia.
  - apply Hz. by eapply list_elem_of_lookup_2.
  - eapply (IH i j); [lia | done..].
Qed.

Lemma list_filter_all {A} (P : A → Prop) `{∀ x, Decision (P x)} l :
  Forall P l → filter P l = l.
Proof. induction 1 as [|x l Hx Hl IH]; [done|]. by rewrite filter_cons_True, IH. Qed.

Lemma list_filter_none {A} (P : A → Prop) `{∀ x, Decision (P x)} l : (∀ x, x ∈ l → ¬ P x) → filter P l = [].
Proof.
  induction l as [|x l IH]; intros Hl; [done|]. rewrite filter_cons_False by (apply Hl; by left). apply IH. intros y Hy. apply Hl. by right.
Qed.

(** The ranks of a sorted list: at least [i + 1] elements are at most the one
    at index [i], and at least [length l - i] are at least it. *)
Lemma sorted_rank {A} (cmp : A → A → Z) l i x :
  total_preorder cmp → sorted_by cmp l → l !! i = Some x →
  (i + 1 <= length (filter (λ y, (cmp y x <= 0)%Z) l))%nat ∧
  (length l - i <= length (filter (λ y, (cmp x y <= 0)%Z) l))%nat.
Proof.
  intros Hc Hs Hx. pose proof (lookup_lt_Some _ _ _ Hx) as Hi. split.
  - rewrite <- (take_drop (S i) l), filter_app, length_app.
    rewrite (list_filter_all _ (take (S i) l)); [rewrite length_take; lia|].
    apply Forall_lookup. intros j y [Hj ?]%lookup_take_Some.
    eapply (sorted_lookup cmp l j i); eauto; lia.
  - rewrite <- (take_drop i l) at 2. rewrite filter_app, length_app.
    rewrite (list_filter_all _ (drop i l)); [rewrite length_drop; lia|].
    apply Forall_lookup. intros j y Hj. rewrite lookup_drop in Hj.
    eapply (sorted_lookup cmp l i (i + j)); eauto; lia.
Qed.

(** A sorted arrangement is unique when the order tells its elements apart. *)
Lemma sorted_unique_on {A} (cmp : A → A → Z) l l' :
  total_preorder cmp → (∀ x y, x ∈ l → y ∈ l' → cmp x y = 0 → x = y) →
  sorted_by cmp l → sorted_by cmp l' → l ≡ₚ l' → l = l'.
Proof.
  intros Hc Ha Hl. revert l' Ha. induction Hl as [|x l Hx Hl IH]; intros l' Ha Hl' Hp.
  { by apply (proj1 (Permutation_nil_l _)). }
  destruct Hl' as [|y l' Hy Hl']; [by apply Permutation_nil_r in Hp|].
  assert (x = y) as <-.
  { apply Ha; [left..|]. pose proof (cmp_opp _ Hc x y).
    assert (x ∈ y :: l') as Ex by (rewrite <- Hp; left).
    assert (y ∈ x :: l) as Ey by (rewrite Hp; left).
    apply elem_of_cons in Ex, Ey. specialize (Hx y). specialize (Hy x).
    destruct Ex as [->|?], Ey as [?|?]; subst; intuition lia. }
  f_equal. apply IH; [|done|by eapply Permutation_cons_inv].
  intros. apply Ha; [by right..|done].
Qed.

Lemma sort_stable_unique {A} (cmp : A → A → Z) l l' :
  total_preorder cmp → (∀ x y, cmp x y = 0 → x = y) → l ≡ₚ l' → sort_stable cmp l = sort_stable cmp l'.
Proof.
  intros Hc Ha Hp. apply (sorted_unique_on cmp); auto using sort_stable_sorted.
  by rewrite !sort_stable_perm.
Qed.

(** Ascending order of [int]s, as [slices.Sort] gives it. *)
Definition sort_ints (l : list Z) : list Z := sort_stable compareZ l.

Lemma compareZ_total : total_preorder compareZ.
Proof. exact (compareZ_preorder id). Qed.

Lemma sort_ints_sorted l : sorted_by compareZ (sort_ints l).
Proof. apply sort_stable_sorted, compareZ_total. Qed.

Lemma sort_ints_perm l l' : l ≡ₚ l' → sort_ints l = sort_ints l'.
Proof. apply sort_stable_unique; [apply compareZ_total | intros; by apply compareZ_0]. Qed.

(** [slices.Sorted(maps.Keys(m))]. *)
Definition sorted_strings (l : list string) : list string := sort_stable compareS l.
Definition sorted_keys {A} (m : gmap string A) : list string :=
  sorted_strings (map_to_list m).*1.

Lemma elem_of_sorted_keys {A} (m : gmap string A) k : k ∈ sorted_keys m ↔ is_Some (m !! k).
Proof.
  unfold sorted_keys, sorted_strings. rewrite elem_of_sort_stable, list_elem_of_fmap. split.
  - intros ([k' v] & -> & H%elem_of_map_to_list). eauto.
  - intros [v H]. exists (k, v). by rewrite elem_of_map_to_list.
Qed.

Lemma NoDup_sorted_keys {A} (m : gmap string A) : NoDup (sorted_keys m).
Proof.
  unfold sorted_keys, sorted_strings. rewrite sort_stable_perm. apply NoDup_fst_map_to_list.
Qed.

(** ** Slices *)

(** A list that alternates keys and values, as the content of a YAML mapping:
    an odd last element is left out. *)
Fixpoint pairs {A} (l : list A) : list (A * A) :=
  match l with
  | key :: value :: l => (key, value) :: pairs l
  | _ => []
  end.

Lemma pairs_ind {A} (P : list A → Prop) : P [] → (∀ x, P [x]) → (∀ k v l, P l → P (k :: v :: l)) → ∀ l, P l.
Proof. intros H0 H1 H2. fix IH 1. intros [|k [|v l]]; [done | apply H1 | apply H2, IH]. Qed.

Lemma elem_of_pairs {A} (l : list A) k v : (k, v) ∈ pairs l → k ∈ l ∧ v ∈ l.
Proof.
  induction l as [|x|x y l IH] using pairs_ind; cbn; [by intros ?%elem_of_nil..|].
  intros [[= -> ->]|H]%elem_of_cons; [set_solver|]. destruct (IH H). set_solver.
Qed.

Lemma pairs_snoc {A} (l : list A) k v : Nat.Even (length l) → pairs (l ++ [k; v]) = pairs l ++ [(k, v)].
Proof.
  induction l as [|x|x y l IH] using pairs_ind; cbn.
  - done.
  - intros [m Hm]. lia.
  - intros [[|m] Hm]; [lia|]. rewrite IH; [done|]. exists m. lia.
Qed.

Lemma find_elem {A} (p : A → bool) l x : List.find p l = Some x → x ∈ l ∧ p x = true.
Proof. intros [Hin Hp]%find_some. split; [by apply list_elem_of_In | done]. Qed.

(** [s[len(s)-n:]], the last [n] elements (all when there are fewer). *)
Definition last_n {A} (n : nat) (l : list A) : list A := drop (length l - n) l.
#[global] Arguments last_n : simpl never.

Lemma length_last_n {A} n (l : list A) : length (last_n n l) = (length l `min` n)%nat.
Proof. unfold last_n. rewrite length_drop. lia. Qed.

Lemma last_n_all {A} n (l : list A) : (length l <= n)%nat → last_n n l = l.
Proof. unfold last_n. intros. by replace (length l - n)%nat with 0%nat by lia. Qed.

Lemma last_last_n {A} n (l : list A) : (0 < n)%nat → last (last_n n l) = last l.
Proof.
  intros Hn. unfold last_n. destruct l as [|x l _] using rev_ind; [by rewrite drop_nil|].
  rewrite drop_app_le by (rewrite length_app; cbn; lia). by rewrite !last_snoc.
Qed.

Lemma Forall2_impl_in {A B} (P Q : A → B → Prop) l k :
  Forall2 P l k → (∀ x y, x ∈ l → P x y → Q x y) → Forall2 Q l k.
Proof.
  induction 1 as [|x y l k Hxy Hlk IH]; intros HPQ; constructor; [apply HPQ; [left | done]|].
  apply IH. intros. apply HPQ; [by right | done].
Qed.

Lemma elem_of_last_n {A} n (l : list A) x : x ∈ last_n n l → x ∈ l.
Proof. unfold last_n. intros H. rewrite <- (take_drop (length l - n) l). set_solver. Qed.

(** [v != ""] and [v == ""] on strings. *)
Definition empty (s : string) : bool := bool_decide (s = EmptyString).
Definition eqs (a b : string) : bool := bool_decide (a = b).
(** [cmp.Or] on strings: the first that is not empty. *)
Definition or_string (a b : string) : string := if empty a then b else a.

Lemma eqs_true a b : eqs a b = true ↔ a = b.
Proof. apply bool_decide_eq_true. Qed.
Lemma eqs_false a b : eqs a b = false ↔ a ≠ b.
Proof. apply bool_decide_eq_false. Qed.
Lemma eqs_refl a : eqs a a = true.
Proof. by apply eqs_true. Qed.
Lemma empty_true a : empty a = true ↔ a = EmptyString.
Proof. apply bool_decide_eq_true. Qed.
Lemma empty_false a : empty a = false ↔ a ≠ EmptyString.
Proof. apply bool_decide_eq_false. Qed.

Definition mem_string (s : string) (l : list string) : bool := bool_decide (s ∈ l).

Lemma mem_string_cons s x l : mem_string s (x :: l) = eqs s x || mem_string s l.
Proof.
  unfold mem_string, eqs. destruct (decide (s = x)) as [->|Hn].
  - rewrite (bool_decide_eq_true_2 (x = x)), bool_decide_eq_true_2 by (left || done). done.
  - rewrite (bool_decide_eq_false_2 _ Hn). apply bool_decide_ext. rewrite elem_of_cons. naive_solver.
Qed.

(** ** Iterating a Go map

    [range] over a map visits every entry once, in an order the language
    leaves open: code whose outcome depends on it takes the order from this
    interface, and its theorems hold for every implementation. *)

Class RangeOrder := {
  range_map : ∀ {A : Type}, gmap string A → list (string * A);
  range_map_perm : ∀ {A : Type} (m : gmap string A), range_map m ≡ₚ map_to_list m;
}.

Definition natural_order : RangeOrder :=
  {| range_map A m := map_to_list m; range_map_perm A m := reflexivity _ |}.

Lemma elem_of_range_map `{RangeOrder} {A} (m : gmap string A) k v :
  (k, v) ∈ range_map m ↔ m !! k = Some v.
Proof. by rewrite range_map_perm, elem_of_map_to_list. Qed.

Lemma alter_Some {A} (f : A → A) k (m : gmap string A) x :
  m !! k = Some x → alter f k m = <[k := f x]> m.
Proof.
  intros E. apply map_eq. intros i. destruct (decide (i = k)) as [->|].
  - by rewrite lookup_alter_eq, lookup_insert_eq, E.
  - by rewrite lookup_alter_ne, lookup_insert_ne.
Qed.

Lemma alter_None {A} (f : A → A) k (m : gmap string A) : m !! k = None → alter f k m = m.
Proof.
  intros E. apply map_eq. intros i. destruct (decide (i = k)) as [->|].
  - by rewrite lookup_alter_eq, E.
  - by rewrite lookup_alter_ne.
Qed.

Lemma size_alter {A} (f : A → A) k (m : gmap string A) : size (alter f k m) = size m.
Proof. by rewrite <- !size_dom, dom_alter_L. Qed.

(** ** Proof automation *)

Create HintDb rcx.
Create Rewrite HintDb rcx.
Create Rewrite HintDb rcx_bool.
#[export] Hint Rewrite @length_app @length_drop @length_take @length_last_n @length_fmap : rcx.
#[export] Hint Resolve compareZ_preorder compareS_preorder cmp_or_preorder : rcx.
#[export] Hint Rewrite eqs_true eqs_false empty_true empty_false
  Z.ltb_lt Z.ltb_ge Z.leb_le Z.leb_gt Z.eqb_eq Z.eqb_neq
  andb_true_iff andb_false_iff orb_true_iff orb_false_iff negb_true_iff negb_false_iff : rcx_bool.

(** Turn boolean tests in the context into propositions. *)
Ltac bools :=
  repeat match goal with
  | H : bool_decide _ = true |- _ => apply bool_decide_eq_true_1 in H
  | H : bool_decide _ = false |- _ => apply bool_decide_eq_false_1 in H
  end;
  autorewrite with rcx_bool in *.

(** Case analysis on the first boolean test of the goal. *)
Ltac case_if :=
  match goal with
  | |- context [if ?b then _ else _] =>
      let E := fresh "E" in
      lazymatch type of b with bool => destruct b eqn:E end
  end.
Ltac case_if_in H :=
  match type of H with
  | context [if ?b then _ else _] =>
      let E := fresh "E" in
      lazymatch type of b with bool => destruct b eqn:E end
  end.
