(* ===== verification/GoText.v ===== *)
(** * Go strings

    A Go [string] is a sequence of bytes, here [string] with one [ascii] per
    byte; a rune is a [Z]. This file holds what the engine uses of the
    packages [strings], [strconv], [unicode/utf8] and [unicode]: UTF-8 is
    written out, the Unicode property tables are the interface [Unicode]. *)

From Stdlib Require Export Ascii.
From stdpp Require Export pretty.
From S2P Require Export Prelude.

#[global] Open Scope string_scope.
#[global] Open Scope list_scope.
#[global] Open Scope Z_scope.
#[global] Open Scope go_scope.

Abbreviation rune := Z (only parsing).

Definition byteZ (c : ascii) : Z := Z.of_N (Ascii.N_of_ascii c).
Definition Zbyte (z : Z) : ascii := Ascii.ascii_of_N (Z.to_N z).
Definition slen (s : string) : Z := Z.of_nat (String.length s).
Definition str1 (c : ascii) : string := String c EmptyString.

Lemma byteZ_range c : 0 <= byteZ c < 256.
Proof. unfold byteZ. pose proof (Ascii.N_ascii_bounded c). lia. Qed.

Lemma Zbyte_byteZ c : Zbyte (byteZ c) = c.
Proof. unfold Zbyte, byteZ. by rewrite N2Z.id, Ascii.ascii_N_embedding. Qed.

Lemma byteZ_Zbyte z : 0 <= z < 256 → byteZ (Zbyte z) = z.
Proof. intros. unfold Zbyte, byteZ. rewrite Ascii.N_ascii_embedding; lia. Qed.

#[export] Hint Rewrite Zbyte_byteZ : rcx.

(** ** UTF-8, as [unicode/utf8] decodes and encodes it *)

Definition RuneError : rune := 65533.

Definition in_range (lo hi b : Z) : bool := (lo <=? b) && (b <=? hi).
Definition continuation (b : Z) : bool := in_range 128 191 b.

(** The range a second byte must lie in after the lead byte [b0]. *)
Definition second_range (b0 : Z) : Z * Z :=
  if b0 =? 224 then (160, 191) else if b0 =? 237 then (128, 159)
  else if b0 =? 240 then (144, 191) else if b0 =? 244 then (128, 143) else (128, 191).

(** [utf8.DecodeRuneInString]: a rune and its width; a byte that starts no
    valid sequence is [RuneError] of width 1, the empty string has width 0. *)
Definition decode1 (s : string) : rune * nat :=
  match s with
  | EmptyString => (RuneError, 0%nat)
  | String c0 s1 =>
      let b0 := byteZ c0 in
      if b0 <? 128 then (b0, 1%nat)
      else let '(lo, hi) := second_range b0 in match s1 with
      | EmptyString => (RuneError, 1%nat)
      | String c1 s2 =>
          let b1 := byteZ c1 in
          if negb (in_range 194 244 b0 && in_range lo hi b1) then (RuneError, 1%nat)
          else if b0 <? 224 then ((b0 - 192) * 64 + (b1 - 128), 2%nat)
          else match s2 with
          | EmptyString => (RuneError, 1%nat)
          | String c2 s3 =>
              let b2 := byteZ c2 in
              if negb (continuation b2) then (RuneError, 1%nat)
              else if b0 <? 240 then ((b0 - 224) * 4096 + (b1 - 128) * 64 + (b2 - 128), 3%nat)
              else match s3 with
              | EmptyString => (RuneError, 1%nat)
              | String c3 _ =>
                  let b3 := byteZ c3 in
                  if negb (continuation b3) then (RuneError, 1%nat)
                  else ((b0 - 240) * 262144 + (b1 - 128) * 4096 + (b2 - 128) * 64 + (b3 - 128), 4%nat)
              end
          end
      end
  end.

(** Each rune of [for _, r := range s] with the bytes it was read from;
    [skip] counts the bytes of the current rune still to pass over. *)
Fixpoint rune_chunks (s : string) (skip : nat) : list (rune * string) :=
  match s with
  | EmptyString => []
  | String c s' =>
      match skip with
      | S k => rune_chunks s' k
      | O => let '(r, w) := decode1 s in (r, String.substring 0 w s) :: rune_chunks s' (pred w)
      end
  end.

(** [[]rune(s)]. *)
Definition decode (s : string) : list rune := (rune_chunks s 0).*1.

(** [string(r)]: a surrogate or a value past the last code point is U+FFFD. *)
Definition encode1 (r : rune) : string :=
  let r := if (r <? 0) || (1114111 <? r) || in_range 55296 57343 r then RuneError else r in
  if r <? 128 then str1 (Zbyte r)
  else if r <? 2048 then String (Zbyte (192 + r / 64)) (str1 (Zbyte (128 + r mod 64)))
  else if r <? 65536 then
    String (Zbyte (224 + r / 4096)) (String (Zbyte (128 + r / 64 mod 64)) (str1 (Zbyte (128 + r mod 64))))
  else
    String (Zbyte (240 + r / 262144)) (String (Zbyte (128 + r / 4096 mod 64))
      (String (Zbyte (128 + r / 64 mod 64)) (str1 (Zbyte (128 + r mod 64))))).

Definition concat_strings (l : list string) : string := foldr String.append EmptyString l.

(** [string(runes)]. *)
Definition encode (l : list rune) : string := concat_strings (encode1 <$> l).

Fixpoint all_ascii (s : string) : bool :=
  match s with
  | EmptyString => true
  | String c s' => (byteZ c <? 128) && all_ascii s'
  end.

Fixpoint bytes_of (s : string) : list Z :=
  match s with EmptyString => [] | String c s' => byteZ c :: bytes_of s' end.

Lemma decode_ascii s : all_ascii s = true → decode s = bytes_of s.
Proof.
  unfold decode. induction s as [|c s IH]; [done|]. cbn [all_ascii bytes_of rune_chunks].
  intros [Hc Hs]%andb_true_iff. cbn [decode1]. rewrite Hc. cbn. f_equal. by apply IH.
Qed.

Lemma encode1_ascii r : 0 <= r < 128 → encode1 r = str1 (Zbyte r).
Proof.
  intros Hr. unfold encode1, in_range.
  rewrite (proj2 (Z.ltb_ge r 0)), (proj2 (Z.ltb_ge 1114111 r)), (proj2 (Z.leb_gt 55296 r)) by lia.
  cbn [orb andb]. by rewrite (proj2 (Z.ltb_lt r 128)) by lia.
Qed.

Lemma encode_cons r l : encode (r :: l) = encode1 r +:+ encode l.
Proof. reflexivity. Qed.

Lemma encode_bytes s : all_ascii s = true → encode (bytes_of s) = s.
Proof.
  induction s as [|c s IH]; [done|]. cbn [all_ascii bytes_of]. intros [Hc Hs]%andb_true_iff.
  pose proof (byteZ_range c). apply Z.ltb_lt in Hc.
  rewrite encode_cons, encode1_ascii, Zbyte_byteZ, IH by (done || lia). done.
Qed.

Lemma append_cons c s t : String c s +:+ t = String c (s +:+ t).
Proof. reflexivity. Qed.

Lemma append_nil_l s : EmptyString +:+ s = s.
Proof. reflexivity. Qed.

Lemma append_nil_r s : s +:+ EmptyString = s.
Proof. induction s as [|c s IH]; [done|]. by rewrite append_cons, IH. Qed.

Lemma append_assoc s t u : (s +:+ t) +:+ u = s +:+ (t +:+ u).
Proof. induction s as [|c s IH]; [done|]. by rewrite !append_cons, IH. Qed.

Lemma length_append s t : String.length (s +:+ t) = (String.length s + String.length t)%nat.
Proof. induction s as [|c s IH]; [done|]. rewrite append_cons. cbn. by rewrite IH. Qed.

Lemma all_ascii_app s t : all_ascii (s +:+ t) = all_ascii s && all_ascii t.
Proof. induction s as [|c s IH]; [done|]. rewrite append_cons. cbn [all_ascii]. rewrite IH. by rewrite andb_assoc. Qed.

Lemma bytes_of_app s t : bytes_of (s +:+ t) = bytes_of s ++ bytes_of t.
Proof. induction s as [|c s IH]; [done|]. rewrite append_cons. cbn [bytes_of]. by rewrite IH. Qed.

(** ** The Unicode tables

    [unicode.IsLetter], [IsDigit], [IsSpace], [IsControl], [ToUpper] and
    [ToLower], and the orbit of [unicode.SimpleFold], by a representative. *)

Class Unicode := {
  is_letter : rune → bool;
  is_digit : rune → bool;
  is_space : rune → bool;
  is_control : rune → bool;
  to_upper : rune → rune;
  to_lower : rune → rune;
  fold_rune : rune → rune;
}.

Definition ascii_upper (r : rune) : bool := in_range 65 90 r.
Definition ascii_lower (r : rune) : bool := in_range 97 122 r.
Definition ascii_digit (r : rune) : bool := in_range 48 57 r.
Definition ascii_space (r : rune) : bool := in_range 9 13 r || (r =? 32).

(** What the tables say below U+0080: the ASCII letters, digits, white space
    and control characters, and the ASCII case mapping. *)
Class UnicodeAscii `{U : Unicode} : Prop := {
  letter_ascii r : 0 <= r < 128 → is_letter r = ascii_upper r || ascii_lower r;
  digit_ascii r : 0 <= r < 128 → is_digit r = ascii_digit r;
  space_ascii r : 0 <= r < 128 → is_space r = ascii_space r;
  control_ascii r : 0 <= r < 128 → is_control r = (r <? 32) || (r =? 127);
  upper_ascii r : 0 <= r < 128 → to_upper r = if ascii_lower r then r - 32 else r;
  lower_ascii r : 0 <= r < 128 → to_lower r = if ascii_upper r then r + 32 else r;
  fold_ascii r : 0 <= r < 128 → fold_rune r = if ascii_upper r then r + 32 else r;
}.

(** White space is neither a letter nor a digit: the categories are disjoint. *)
Class UnicodeSpaces `{U : Unicode} : Prop := {
  space_apart r : is_space r = true → is_letter r = false ∧ is_digit r = false;
}.

(** Tables that know the ASCII characters only: what a witness computes with. *)
Definition ascii_tables : Unicode := {|
  is_letter r := ascii_upper r || ascii_lower r;
  is_digit := ascii_digit;
  is_space := ascii_space;
  is_control r := in_range 0 31 r || (r =? 127);
  to_upper r := if ascii_lower r then r - 32 else r;
  to_lower r := if ascii_upper r then r + 32 else r;
  fold_rune r := if ascii_upper r then r + 32 else r;
|}.

Lemma ascii_tables_ok : @UnicodeAscii ascii_tables.
Proof.
  split; intros; try done. cbn. unfold in_range. f_equal.
  destruct (Z.leb_spec 0 r), (Z.leb_spec r 31), (Z.ltb_spec r 32); cbn; lia || done.
Qed.

Lemma ascii_tables_spaces : @UnicodeSpaces ascii_tables.
Proof. split. intros r. cbn. unfold ascii_space, ascii_upper, ascii_lower, ascii_digit, in_range. lia. Qed.

Section text.
Context `{Unicode}.

(** [strings.Map] with a mapping that drops nothing. *)
Definition map_runes (f : rune → rune) (s : string) : string := encode (f <$> decode s).
Definition ToUpper (s : string) : string := map_runes to_upper s.
Definition ToLower (s : string) : string := map_runes to_lower s.

Definition EqualFold (s t : string) : bool :=
  bool_decide (fold_rune <$> decode s = fold_rune <$> decode t).

Fixpoint drop_while {A} (p : A → bool) (l : list A) : list A :=
  match l with [] => [] | x :: l' => if p x then drop_while p l' else l end.

(** [strings.TrimSpace]. *)
Definition TrimSpace (s : string) : string :=
  let space c := is_space c.1 in
  concat_strings (reverse (drop_while space (reverse (drop_while space (rune_chunks s 0))))).*2.

(** [strings.FieldsFunc(s, f)]: the maximal runs of runes [f] rejects. *)
Fixpoint fields_go (f : rune → bool) (cs : list (rune * string)) (cur : string) : list string :=
  match cs with
  | [] => if empty cur then [] else [cur]
  | (r, b) :: cs' =>
      if f r then (if empty cur then fields_go f cs' EmptyString else cur :: fields_go f cs' EmptyString)
      else fields_go f cs' (cur +:+ b)
  end.
Definition FieldsFunc (s : string) (f : rune → bool) : list string :=
  fields_go f (rune_chunks s 0) EmptyString.

Lemma EqualFold_refl s : EqualFold s s = true.
Proof. by apply bool_decide_eq_true. Qed.
Lemma EqualFold_sym s t : EqualFold s t = EqualFold t s.
Proof. apply bool_decide_ext. naive_solver. Qed.
End text.

(** ** Searching and cutting *)

Definition HasPrefix (s p : string) : bool := String.prefix p s.
Definition TrimSuffix (s suffix : string) : string :=
  let n := (String.length s - String.length suffix)%nat in
  if (String.length suffix <=? String.length s)%nat && eqs (String.substring n (String.length suffix) s) suffix
  then String.substring 0 n s else s.
Definition string_drop (n : nat) (s : string) : string := String.substring n (String.length s - n) s.

(** [strings.Index] from the start of [s]. *)
Definition Index (s sub : string) : option nat := String.index 0 sub s.
Definition Contains (s sub : string) : bool := bool_decide (is_Some (Index s sub)).

(** [strings.Cut] and [strings.Split] at a one-byte separator. *)
Fixpoint Cut (s : string) (sep : ascii) : string * string * bool :=
  match s with
  | EmptyString => (EmptyString, EmptyString, false)
  | String c s' =>
      if bool_decide (c = sep) then (EmptyString, s', true)
      else let '(before, rest, found) := Cut s' sep in (String c before, rest, found)
  end.

Fixpoint Split (s : string) (sep : ascii) : list string :=
  match s with
  | EmptyString => [EmptyString]
  | String c s' =>
      if bool_decide (c = sep) then EmptyString :: Split s' sep
      else match Split s' sep with
           | [] => [str1 c]
           | p :: ps => String c p :: ps
           end
  end.

Fixpoint Join (l : list string) (sep : string) : string :=
  match l with
  | [] => EmptyString
  | [s] => s
  | s :: l' => s +:+ sep +:+ Join l' sep
  end.

Fixpoint has_byte (c : ascii) (s : string) : bool :=
  match s with
  | EmptyString => false
  | String d s' => bool_decide (d = c) || has_byte c s'
  end.

Lemma Split_none s sep : has_byte sep s = false → Split s sep = [s].
Proof.
  induction s as [|c s IH]; [done|]. cbn [has_byte Split]. intros [Hc Hs]%orb_false_iff.
  rewrite bool_decide_eq_false in Hc. rewrite bool_decide_eq_false_2 by done.
  by rewrite (IH Hs).
Qed.

Lemma Cut_app s t sep : has_byte sep s = false →
  Cut (s +:+ String sep t) sep = (s, t, true).
Proof.
  induction s as [|c s IH];
    [rewrite append_nil_l | rewrite append_cons]; cbn [has_byte Cut Split];
    [by rewrite bool_decide_eq_true_2|].
  intros [Hc Hs]%orb_false_iff. rewrite bool_decide_eq_false in Hc.
  rewrite bool_decide_eq_false_2 by done. by rewrite (IH Hs).
Qed.

Lemma Split_app s t sep : has_byte sep s = false →
  Split (s +:+ String sep t) sep = s :: Split t sep.
Proof.
  induction s as [|c s IH];
    [rewrite append_nil_l | rewrite append_cons]; cbn [has_byte Cut Split];
    [by rewrite bool_decide_eq_true_2|].
  intros [Hc Hs]%orb_false_iff. rewrite bool_decide_eq_false in Hc.
  rewrite bool_decide_eq_false_2 by done. by rewrite (IH Hs).
Qed.

(** ** Numbers *)

(** The decimal value of a run of digits; [None] for an empty run or another
    byte. *)
Fixpoint digits_go (s : string) (acc : Z) : option Z :=
  match s with
  | EmptyString => Some acc
  | String c s' => if ascii_digit (byteZ c) then digits_go s' (acc * 10 + (byteZ c - 48)) else None
  end.
Definition digits (s : string) : option Z := if empty s then None else digits_go s 0.

(** [strconv.Atoi]: an optional sign and digits, within [int]. *)
Definition Atoi (s : string) : option Z :=
  let '(neg, body) :=
    match s with
    | String c s' =>
        if bool_decide (c = "-"%char) then (true, s')
        else if bool_decide (c = "+"%char) then (false, s') else (false, s)
    | EmptyString => (false, s)
    end in
  match digits body with
  | None => None
  | Some n => let n := if (neg : bool) then - n else n in
      if (min64 <=? n) && (n <=? max64) then Some n else None
  end.

(** [strconv.ParseUint(s, 10, bits)]. *)
Definition ParseUint (s : string) (bits : Z) : option Z :=
  match digits s with
  | Some n => if n <? 2 ^ bits then Some n else None
  | None => None
  end.

Definition Itoa (z : Z) : string := pretty z.
