(* ===== verification/TextFacts.v ===== *)
(** * Facts about Go strings

    How UTF-8 decoding splits over concatenation, and what trimming leaves:
    the lemmas behind every claim that a text reads back as what wrote it. *)

From S2P Require Import Prelude GoText.

(** ** Taking and dropping bytes *)

Fixpoint stake (n : nat) (s : string) : string :=
  match n, s with
  | S n, String c s => String c (stake n s)
  | _, _ => EmptyString
  end.

Fixpoint sdrop (n : nat) (s : string) : string :=
  match n, s with
  | O, _ => s
  | S n, String _ s => sdrop n s
  | S _, EmptyString => EmptyString
  end.

Lemma substring_stake n s : String.substring 0 n s = stake n s.
Proof. revert n. induction s as [|c s IH]; intros [|n]; [done..|]. cbn. by rewrite IH. Qed.

Lemma stake_sdrop n s : stake n s +:+ sdrop n s = s.
Proof. revert n. induction s as [|c s IH]; intros [|n]; [done..|]. cbn [stake sdrop]. by rewrite append_cons, IH. Qed.

Lemma stake_app n s t : (n <= String.length s)%nat → stake n (s +:+ t) = stake n s.
Proof.
  revert n. induction s as [|c s IH]; intros [|n] Hn; cbn in Hn; try lia; [by destruct t | done|].
  rewrite append_cons. cbn [stake]. by rewrite IH by lia.
Qed.

Lemma sdrop_app n s t : (n <= String.length s)%nat → sdrop n (s +:+ t) = sdrop n s +:+ t.
Proof.
  revert n. induction s as [|c s IH]; intros [|n] Hn; cbn in Hn; try lia; [done | done|].
  rewrite append_cons. cbn [sdrop]. by rewrite IH by lia.
Qed.

Lemma length_stake n s : (n <= String.length s)%nat → String.length (stake n s) = n.
Proof.
  revert n. induction s as [|c s IH]; intros [|n] Hn; cbn in Hn; try lia; [done | done|]. cbn. by rewrite IH by lia.
Qed.

Lemma length_sdrop n s : String.length (sdrop n s) = (String.length s - n)%nat.
Proof. revert n. induction s as [|c s IH]; intros [|n]; [done..|]. apply IH. Qed.

Lemma sdrop_all s : sdrop (String.length s) s = EmptyString.
Proof. by induction s. Qed.

Lemma stake_all s : stake (String.length s) s = s.
Proof. rewrite <- (stake_sdrop (String.length s) s) at 3. by rewrite sdrop_all, append_nil_r. Qed.

Lemma concat_app l1 l2 : concat_strings (l1 ++ l2) = concat_strings l1 +:+ concat_strings l2.
Proof. induction l1 as [|s l IH]; [done|]. cbn. fold (concat_strings (l ++ l2)). by rewrite IH, append_assoc. Qed.

(** ** One rune *)

(** A text that does not start inside a rune. *)
Definition ascii_head (t : string) : Prop :=
  match t with EmptyString => True | String c _ => byteZ c < 128 end.

Lemma decode1_width s : s ≠ EmptyString → (1 <= (decode1 s).2 <= String.length s)%nat.
Proof.
  destruct s as [|c0 s]; [done|]. intros _. cbn [decode1]. case_if; [cbn; lia|].
  destruct (second_range _) as [lo hi].
  destruct s as [|c1 s]; [cbn; lia|]. case_if; [cbn; lia|]. case_if; [cbn; lia|].
  destruct s as [|c2 s]; [cbn; lia|]. case_if; [cbn; lia|]. case_if; [cbn; lia|].
  destruct s as [|c3 s]; [cbn; lia|]. case_if; cbn; lia.
Qed.

(** The rune at the head depends only on the bytes it takes. *)
Lemma decode1_prefix a b : a ≠ EmptyString → ((decode1 (a +:+ b)).2 <= String.length a)%nat →
  decode1 (a +:+ b) = decode1 a.
Proof.
  destruct a as [|c0 a]; [done|]. intros _. rewrite append_cons. cbn [decode1 String.length]. case_if; [done|].
  destruct (second_range _) as [lo hi].
  destruct a as [|c1 a]; [rewrite append_nil_l; cbn [String.length]|rewrite append_cons; cbn [String.length]].
  { destruct b as [|c1 b]; [done|]. case_if; [done|]. case_if; [cbn; lia|].
    destruct b as [|c2 b]; [done|]. case_if; [done|]. case_if; [cbn; lia|].
    destruct b as [|c3 b]; [done|]. case_if; [done | cbn; lia]. }
  case_if; [done|]. case_if; [done|].
  destruct a as [|c2 a]; [rewrite append_nil_l; cbn [String.length]|rewrite append_cons; cbn [String.length]].
  { destruct b as [|c2 b]; [done|]. case_if; [done|]. case_if; [cbn; lia|].
    destruct b as [|c3 b]; [done|]. case_if; [done | cbn; lia]. }
  case_if; [done|]. case_if; [done|].
  destruct a as [|c3 a]; [rewrite append_nil_l; cbn [String.length]|done].
  destruct b as [|c3 b]; [done|]. case_if; [done | cbn; lia].
Qed.

Lemma not_continuation b : b < 128 → continuation b = false.
Proof. intros Hb. unfold continuation, in_range. apply andb_false_iff. left. apply Z.leb_gt. lia. Qed.

Lemma second_not lo hi b0 b1 : second_range b0 = (lo, hi) → b1 < 128 → in_range lo hi b1 = false.
Proof.
  unfold second_range, in_range. intros Hs Hb. apply andb_false_iff. left. apply Z.leb_gt.
  repeat case_if_in Hs; injection Hs as <- <-; lia.
Qed.

(** An ASCII byte ends the rune before it. *)
Lemma decode1_app s t : s ≠ EmptyString → ascii_head t → decode1 (s +:+ t) = decode1 s.
Proof.
  destruct s as [|c0 s]; [done|]. intros _ Ht. rewrite append_cons. cbn [decode1]. case_if; [done|].
  destruct (second_range _) as [lo hi] eqn:Es.
  destruct s as [|c1 s]; [rewrite append_nil_l|rewrite append_cons].
  { destruct t as [|c1 t]; [done|]. cbn in Ht. by rewrite (second_not _ _ _ _ Es Ht), andb_false_r. }
  case_if; [done|]. case_if; [done|]. destruct s as [|c2 s]; [rewrite append_nil_l|rewrite append_cons].
  { destruct t as [|c2 t]; [done|]. cbn in Ht. by rewrite (not_continuation _ Ht). }
  case_if; [done|]. case_if; [done|]. destruct s as [|c3 s]; [rewrite append_nil_l|done].
  destruct t as [|c3 t]; [done|]. cbn in Ht. by rewrite (not_continuation _ Ht).
Qed.

(** ** The runes of a text *)

Lemma chunks_skip k s : rune_chunks s k = rune_chunks (sdrop k s) 0.
Proof. revert k. induction s as [|c s IH]; intros [|k]; [done..|]. apply IH. Qed.

Lemma chunks_step s : s ≠ EmptyString →
  rune_chunks s 0 = ((decode1 s).1, stake (decode1 s).2 s) :: rune_chunks (sdrop (decode1 s).2 s) 0.
Proof.
  intros Hs. pose proof (decode1_width s Hs) as Hw. destruct s as [|c s]; [done|]. cbn [rune_chunks].
  destruct (decode1 (String c s)) as [r w]. cbn [fst snd] in *. rewrite substring_stake.
  destruct w as [|w]; [lia|]. f_equal. cbn [pred sdrop]. apply chunks_skip.
Qed.

(** Induction on the runes of a text. *)
Lemma chunks_ind (P : string → Prop) : P EmptyString →
  (∀ s, s ≠ EmptyString → P (sdrop (decode1 s).2 s) → P s) → ∀ s, P s.
Proof.
  intros H0 Hs s. remember (String.length s) as n eqn:Hn. revert s Hn.
  induction n as [n IH] using (well_founded_induction lt_wf). intros s ->.
  destruct (decide (s = EmptyString)) as [->|Hne]; [done|]. apply Hs; [done|].
  pose proof (decode1_width s Hne). eapply IH; [|done]. rewrite length_sdrop. lia.
Qed.

Lemma chunks_concat s : concat_strings (rune_chunks s 0).*2 = s.
Proof.
  induction s as [|s Hs IH] using chunks_ind; [done|]. rewrite chunks_step by done.
  cbn [fmap list_fmap snd concat_strings foldr]. fold (concat_strings (rune_chunks (sdrop (decode1 s).2 s) 0).*2).
  by rewrite IH, stake_sdrop.
Qed.

Lemma chunks_nil s : rune_chunks s 0 = [] → s = EmptyString.
Proof. intros E. rewrite <- (chunks_concat s). by rewrite E. Qed.

(** Text split between runes: both parts read as before. *)
Lemma chunks_split l1 : ∀ s l2, rune_chunks s 0 = l1 ++ l2 →
  s = concat_strings l1.*2 +:+ concat_strings l2.*2 ∧
  rune_chunks (concat_strings l1.*2) 0 = l1 ∧ rune_chunks (concat_strings l2.*2) 0 = l2.
Proof.
  induction l1 as [|[r b] l1 IH]; intros s l2 E.
  { cbn [app] in E. subst. rewrite chunks_concat. done. }
  assert (Hne : s ≠ EmptyString) by (by intros ->). pose proof (decode1_width s Hne) as Hw.
  rewrite chunks_step in E by done. cbn [app] in E. injection E as Er Eb E.
  destruct (IH _ _ E) as (Es & E1 & E2). cbn [fmap list_fmap snd concat_strings foldr].
  fold (concat_strings l1.*2). set (s1 := concat_strings l1.*2) in *. set (s2 := concat_strings l2.*2) in *.
  assert (Hs : s = (b +:+ s1) +:+ s2) by (by rewrite append_assoc, <- Es, <- Eb, stake_sdrop).
  assert (Hb : String.length b = (decode1 s).2) by (by rewrite <- Eb, length_stake by lia).
  assert (Hd : decode1 (b +:+ s1) = decode1 s).
  { rewrite Hs. symmetry. apply decode1_prefix; rewrite <- ?Hs; [|rewrite length_append; lia].
    destruct b; [cbn in Hb; lia | done]. }
  split_and!; [done| |done]. rewrite chunks_step by (destruct b; [cbn in Hb; lia | done]).
  rewrite Hd, Er, <- Hb, stake_app, sdrop_app by lia. f_equal.
  - by rewrite stake_all.
  - by rewrite sdrop_all, append_nil_l.
Qed.

Lemma chunks_app s t : ascii_head t → rune_chunks (s +:+ t) 0 = rune_chunks s 0 ++ rune_chunks t 0.
Proof.
  intros Ht. induction s as [|s Hs IH] using chunks_ind; [done|]. pose proof (decode1_width s Hs).
  rewrite chunks_step by (by destruct s). rewrite (decode1_app s t Hs Ht), (chunks_step s Hs).
  rewrite stake_app, sdrop_app, IH by lia. done.
Qed.

Lemma decode_app s t : ascii_head t → decode (s +:+ t) = decode s ++ decode t.
Proof. intros Ht. unfold decode. by rewrite chunks_app, fmap_app. Qed.

(** ** Trimming *)

Section drop_while.
Context {A : Type} (p : A → bool).

Lemma drop_while_split l : ∃ pre, l = pre ++ drop_while p l ∧ Forall (λ x, p x = true) pre.
Proof.
  induction l as [|x l (pre & E & Hp)]; [by exists []|]. cbn [drop_while]. destruct (p x) eqn:Ex.
  - exists (x :: pre). split; [cbn; by f_equal | by constructor].
  - by exists [].
Qed.

Lemma drop_while_head l x : head (drop_while p l) = Some x → p x = false.
Proof. induction l as [|y l IH]; [done|]. cbn [drop_while]. case_if; [done|]. by intros [= <-]. Qed.

Lemma drop_while_id l : (∀ x, head l = Some x → p x = false) → drop_while p l = l.
Proof. destruct l as [|x l]; [done|]. intros Hx. cbn. by rewrite (Hx x eq_refl). Qed.

(** Both ends trimmed. *)
Definition trim (l : list A) : list A := reverse (drop_while p (reverse (drop_while p l))).

Lemma trim_split l : ∃ pre post, l = pre ++ trim l ++ post ∧
  Forall (λ x, p x = true) pre ∧ Forall (λ x, p x = true) post.
Proof.
  destruct (drop_while_split l) as (pre & E & Hpre).
  destruct (drop_while_split (reverse (drop_while p l))) as (post & E' & Hpost).
  exists pre, (reverse post). split_and!; [|done | by apply Forall_reverse].
  rewrite E at 1. f_equal. unfold trim. rewrite <- reverse_app, <- E'. by rewrite reverse_involutive.
Qed.

Lemma trim_ends l x : head (trim l) = Some x ∨ last (trim l) = Some x → p x = false.
Proof.
  unfold trim. rewrite last_reverse. intros [Hh|Hl]; [|by apply drop_while_head in Hl].
  destruct (drop_while_split (reverse (drop_while p l))) as (post & E & _).
  apply (drop_while_head l). assert (E' : drop_while p l = trim l ++ reverse post).
  { unfold trim. by rewrite <- reverse_app, <- E, reverse_involutive. }
  rewrite E'. unfold trim. by destruct (reverse (drop_while p (reverse _))).
Qed.

Lemma trim_plain l : (∀ x, head l = Some x ∨ last l = Some x → p x = false) → trim l = l.
Proof.
  intros He. unfold trim. rewrite (drop_while_id l) by auto.
  rewrite drop_while_id, reverse_involutive; [done|]. intros x. rewrite head_reverse. auto.
Qed.
End drop_while.

Section space.
Context `{U : Unicode}.

Definition spacy (c : rune * string) : bool := is_space c.1.

Lemma TrimSpace_trim s : TrimSpace s = concat_strings (trim spacy (rune_chunks s 0)).*2.
Proof. reflexivity. Qed.

(** What is left reads as the runes between the spaces. *)
Lemma chunks_TrimSpace s : rune_chunks (TrimSpace s) 0 = trim spacy (rune_chunks s 0).
Proof.
  destruct (trim_split spacy (rune_chunks s 0)) as (pre & post & E & _ & _).
  destruct (chunks_split _ _ _ E) as (_ & _ & E2). apply chunks_split in E2 as (_ & E3 & _). exact E3.
Qed.

Lemma TrimSpace_id s : (∀ c, head (rune_chunks s 0) = Some c ∨ last (rune_chunks s 0) = Some c → is_space c.1 = false) →
  TrimSpace s = s.
Proof. intros He. rewrite TrimSpace_trim, trim_plain by exact He. apply chunks_concat. Qed.

(** [TrimSpace] is idempotent. *)
Lemma TrimSpace_idem s : TrimSpace (TrimSpace s) = TrimSpace s.
Proof. apply TrimSpace_id. intros c. rewrite chunks_TrimSpace. exact (trim_ends spacy _ c). Qed.

(** The runes of a text are those of the trimmed text with spaces around. *)
Lemma decode_TrimSpace s : ∃ pre post, decode s = pre ++ decode (TrimSpace s) ++ post ∧
  Forall (λ r, is_space r = true) pre ∧ Forall (λ r, is_space r = true) post.
Proof.
  destruct (trim_split spacy (rune_chunks s 0)) as (pre & post & E & Hpre & Hpost).
  exists pre.*1, post.*1. unfold decode. rewrite chunks_TrimSpace, <- !fmap_app, <- E. split; [done|].
  split; by apply Forall_fmap.
Qed.
End space.

(** ** Plain text: ASCII, with nothing to trim or to change the case of *)

Section plain.
Context `{U : Unicode} {UA : UnicodeAscii}.

Lemma chunks_ascii s : all_ascii s = true → ∀ c, c ∈ rune_chunks s 0 → 0 <= c.1 < 128 ∧ c.1 ∈ bytes_of s.
Proof.
  induction s as [|a s IH]; [by intros _ c ?%elem_of_nil|]. cbn [all_ascii]. intros [Ha Hs]%andb_true_iff c.
  cbn [rune_chunks decode1 bytes_of]. rewrite Ha. cbn [pred]. intros [->|Hin]%elem_of_cons.
  - cbn. pose proof (byteZ_range a). apply Z.ltb_lt in Ha. split; [lia | by left].
  - destruct (IH Hs c Hin). split; [done | by right].
Qed.

Lemma TrimSpace_plain s : all_ascii s = true → (∀ b, b ∈ bytes_of s → ascii_space b = false) → TrimSpace s = s.
Proof.
  intros Ha Hb. apply TrimSpace_id. intros c Hc.
  assert (Hin : c ∈ rune_chunks s 0).
  { destruct Hc as [Hc|Hc]; [by apply head_Some_elem_of | by apply last_Some_elem_of]. }
  destruct (chunks_ascii s Ha c Hin) as [Hr Hbytes]. rewrite space_ascii by done. by apply Hb.
Qed.

Lemma bytes_ascii s : all_ascii s = true → ∀ b, b ∈ bytes_of s → 0 <= b < 128.
Proof.
  induction s as [|a s IH]; [by intros _ b ?%elem_of_nil|]. cbn. intros [Ha Hs]%andb_true_iff b [->|Hb]%elem_of_cons; [|auto].
  pose proof (byteZ_range a). apply Z.ltb_lt in Ha. lia.
Qed.

Lemma ToUpper_plain s : all_ascii s = true → (∀ b, b ∈ bytes_of s → ascii_lower b = false) → ToUpper s = s.
Proof.
  intros Ha Hb. unfold ToUpper, map_runes. rewrite decode_ascii by done.
  rewrite (list_fmap_ext to_upper id), list_fmap_id; [by apply encode_bytes|].
  intros i b Hi. pose proof (bytes_ascii s Ha b (list_elem_of_lookup_2 _ _ _ Hi)) as Hr.
  rewrite upper_ascii by done. cbn. by rewrite (Hb b (list_elem_of_lookup_2 _ _ _ Hi)).
Qed.
Lemma ToLower_plain s : all_ascii s = true → (∀ b, b ∈ bytes_of s → ascii_upper b = false) → ToLower s = s.
Proof.
  intros Ha Hb. unfold ToLower, map_runes. rewrite decode_ascii by done.
  rewrite (list_fmap_ext to_lower id), list_fmap_id; [by apply encode_bytes|].
  intros i b Hi. apply list_elem_of_lookup_2 in Hi. rewrite lower_ascii by (by apply (bytes_ascii s)). cbn. by rewrite Hb.
Qed.
End plain.

(** ** Prefixes *)

#[export] Instance append_inj b : Inj (=) (=) (String.append b).
Proof. intros x y. induction b as [|c b IH]; [done|]. cbn. intros [= H]. by apply IH. Qed.

Lemma chunks_app_ascii s t : all_ascii s = true → rune_chunks (s +:+ t) 0 = rune_chunks s 0 ++ rune_chunks t 0.
Proof.
  induction s as [|c s IH]; [done|]. cbn [all_ascii]. intros [Hc Hs]%andb_true_iff. rewrite append_cons.
  cbn [rune_chunks decode1]. rewrite Hc. cbn [pred]. rewrite !substring_stake, IH by done. reflexivity.
Qed.

Lemma string_app_drop s t : string_drop (String.length s) (s +:+ t) = t.
Proof.
  unfold string_drop. rewrite length_append. replace (String.length s + String.length t - String.length s)%nat with (String.length t) by lia.
  induction s as [|c s IH]; [|exact IH]. rewrite append_nil_l. cbn. induction t as [|c t IH]; [done|]. cbn. by rewrite IH.
Qed.

Lemma string_prefix_app s t : HasPrefix (s +:+ t) s = true.
Proof. unfold HasPrefix. induction s as [|c s IH]; [by destruct t|]. rewrite append_cons. cbn. by destruct (ascii_dec c c). Qed.

Lemma prefix_split s p : HasPrefix s p = true → s = p +:+ string_drop (String.length p) s.
Proof.
  intros Hp. assert (∃ t, s = p +:+ t) as [t ->]; [|by rewrite string_app_drop]. revert s Hp. unfold HasPrefix.
  induction p as [|c p IH]; intros s Hp; [by exists s|]. destruct s as [|d s]; [done|]. cbn in Hp.
  destruct (ascii_dec c d) as [->|]; [|done]. destruct (IH s Hp) as [t ->]. exists t. by rewrite append_cons.
Qed.

(** ** Cutting at a separator *)

Lemma has_byte_app c s t : has_byte c (s +:+ t) = has_byte c s || has_byte c t.
Proof. induction s as [|d s IH]; [done|]. rewrite append_cons. cbn [has_byte]. by rewrite IH, orb_assoc. Qed.

Lemma has_byte_concat c l : has_byte c (concat_strings l) = existsb (has_byte c) l.
Proof. induction l as [|s l IH]; [done|]. cbn. fold (concat_strings l). by rewrite has_byte_app, IH. Qed.

Lemma Split_no_sep s sep p : p ∈ Split s sep → has_byte sep p = false.
Proof.
  revert p. induction s as [|c s IH]; intros p; cbn [Split]; [by intros ->%list_elem_of_singleton|].
  case_bool_decide as Hc.
  - intros [->|Hin]%elem_of_cons; [done | by apply IH].
  - destruct (Split s sep) as [|q ps] eqn:E.
    + intros ->%list_elem_of_singleton. cbn. by rewrite bool_decide_eq_false_2.
    + intros [->|Hin]%elem_of_cons; [|apply IH; by right]. cbn [has_byte].
      rewrite bool_decide_eq_false_2 by done. apply IH. by left.
Qed.

(** Trimming adds no separator. *)
Lemma TrimSpace_no_sep `{Unicode} s c : has_byte c s = false → has_byte c (TrimSpace s) = false.
Proof.
  intros Hs. rewrite TrimSpace_trim.
  destruct (trim_split spacy (rune_chunks s 0)) as (pre & post & E & _ & _).
  rewrite <- (chunks_concat s), E, !fmap_app, !concat_app, !has_byte_app in Hs.
  by apply orb_false_iff in Hs as [_ [Hs _]%orb_false_iff].
Qed.

(** ** Numbers in decimal *)

Lemma digit_char n : (n < 10)%N → byteZ (pretty_N_char n) = 48 + Z.of_N n.
Proof. intros Hn. assert (n = 0 ∨ n = 1 ∨ n = 2 ∨ n = 3 ∨ n = 4 ∨ n = 5 ∨ n = 6 ∨ n = 7 ∨ n = 8 ∨ n = 9)%N by lia. naive_solver. Qed.

Lemma digits_go_pretty x : ∀ s, digits_go (pretty_N_go x s) 0 = digits_go s (Z.of_N x).
Proof.
  induction (N.lt_wf_0 x) as [x _ IH]; intros s. assert (x = 0 ∨ 0 < x)%N as [->|Hx] by lia; [by rewrite pretty_N_go_0|].
  rewrite pretty_N_go_step, IH by (done || by apply N.div_lt). cbn [digits_go].
  pose proof (N.mod_lt x 10 ltac:(done)) as Hm. pose proof (N.div_mod x 10 ltac:(done)) as Hx10. rewrite digit_char by done.
  revert Hm Hx10. generalize (x mod 10)%N (x / 10)%N. intros m q Hm Hx10.
  assert (ascii_digit (48 + Z.of_N m) = true) as -> by (unfold ascii_digit, in_range; rewrite andb_true_iff, !Z.leb_le; lia).
  f_equal. lia.
Qed.

Lemma digits_Itoa z : 0 <= z → digits (Itoa z) = Some z.
Proof.
  intros Hz. assert (Itoa z = pretty (Z.to_N z)) as ->.
  { unfold Itoa. destruct z; [done|done|lia]. }
  unfold pretty, pretty_N. case_decide; [by replace z with 0 by lia|].
  unfold digits. destruct (empty _) eqn:E.
  - apply bool_decide_eq_true in E. pose proof (digits_go_pretty (Z.to_N z) EmptyString) as Hd. rewrite E in Hd. cbn in Hd. simplify_eq. lia.
  - rewrite digits_go_pretty. cbn. by rewrite Z2N.id by lia.
Qed.

Lemma digits_go_all s : ∀ acc n, digits_go s acc = Some n → Forall (λ b, ascii_digit b = true) (bytes_of s).
Proof.
  induction s as [|c s IH]; intros acc n; cbn; [constructor|]. destruct (ascii_digit (byteZ c)) eqn:E; [|done].
  intros Hs. constructor; [done | by eapply IH].
Qed.

Lemma Itoa_digits z : 0 <= z → Itoa z ≠ EmptyString ∧ Forall (λ b, ascii_digit b = true) (bytes_of (Itoa z)).
Proof.
  intros Hz. pose proof (digits_Itoa z Hz) as Hd. unfold digits in Hd. destruct (empty (Itoa z)) eqn:E; [done|].
  split; [by intros E'; rewrite E' in E|]. by eapply digits_go_all.
Qed.

#[export] Instance Itoa_inj : Inj (=) (=) Itoa.
Proof. intros a b. apply (inj pretty). Qed.

Lemma Atoi_Itoa z : 0 <= z → in64 z → Atoi (Itoa z) = Some z.
Proof.
  intros Hz H64. pose proof (Itoa_digits z Hz) as [Hne Hall]. pose proof (digits_Itoa z Hz) as Hd.
  unfold Atoi. destruct (Itoa z) as [|c s] eqn:E; [done|]. cbn [bytes_of] in Hall. inversion Hall as [|? ? Hc]; subst.
  rewrite !bool_decide_eq_false_2 by (intros ->; cbn in Hc; done). rewrite Hd.
  unfold in64 in H64. by rewrite (proj2 (Z.leb_le _ _)), (proj2 (Z.leb_le _ _)) by lia.
Qed.

Lemma Itoa_neg z : z < 0 → Itoa z = String "-" (Itoa (- z)).
Proof. intros Hz. destruct z as [|p|p]; [lia..|]. reflexivity. Qed.

Lemma Atoi_Itoa_all z : in64 z → Atoi (Itoa z) = Some z.
Proof.
  intros H64. destruct (Z.le_gt_cases 0 z) as [Hz|Hz]; [by apply Atoi_Itoa|]. rewrite Itoa_neg by done.
  unfold Atoi. rewrite bool_decide_eq_true_2 by done. rewrite digits_Itoa by lia. rewrite Z.opp_involutive.
  unfold in64 in H64. by rewrite (proj2 (Z.leb_le _ _)), (proj2 (Z.leb_le _ _)) by lia.
Qed.

Lemma Itoa_bytes z : Itoa z ≠ EmptyString ∧ Forall (λ b, ascii_digit b = true ∨ b = 45) (bytes_of (Itoa z)).
Proof.
  destruct (Z.le_gt_cases 0 z) as [Hz|Hz].
  - destruct (Itoa_digits z Hz) as [Hne Hd]. split; [done|]. eapply Forall_impl; [exact Hd | auto].
  - rewrite Itoa_neg by done. split; [done|]. cbn. destruct (Itoa_digits (- z) ltac:(lia)) as [_ Hd]. apply Forall_cons. split; [by right|].
    eapply Forall_impl; [exact Hd | auto].
Qed.

Lemma has_byte_substring c s : ∀ n m, has_byte c (String.substring n m s) = true → has_byte c s = true.
Proof.
  induction s as [|d s IH]; intros n m; [by destruct n, m|]. destruct n as [|n]; [destruct m as [|m]; [done|]|]; cbn.
  - rewrite !orb_true_iff. intros [|H]; [by left | right; by eapply IH].
  - intros H. rewrite orb_true_iff. right. by eapply IH.
Qed.

(** A suffix with a byte the text lacks is not there to be cut. *)
Lemma TrimSuffix_none s suffix c : has_byte c suffix = true → has_byte c s = false → TrimSuffix s suffix = s.
Proof.
  intros Hs Hc. unfold TrimSuffix. destruct (_ && _) eqn:E; [|done]. apply andb_true_iff in E as [_ E%eqs_true].
  rewrite <- E in Hs. apply has_byte_substring in Hs. congruence.
Qed.

(** ** Valid runes survive UTF-8

    What decoding yields is a valid code point, and encoding valid code
    points decodes to them again. *)

Definition valid_rune (r : rune) : Prop := 0 <= r <= 1114111 ∧ ¬ (55296 <= r <= 57343).

Lemma in_range_spec lo hi b : in_range lo hi b = true ↔ lo <= b <= hi.
Proof. unfold in_range. rewrite andb_true_iff, !Z.leb_le. done. Qed.

Lemma second_range_valid b0 lo hi : second_range b0 = (lo, hi) →
  128 <= lo ∧ hi <= 191 ∧ (b0 = 224 → lo = 160) ∧ (b0 = 237 → hi = 159) ∧ (b0 = 240 → lo = 144) ∧ (b0 = 244 → hi = 143).
Proof.
  unfold second_range. repeat case_if; intros [= <- <-]; rewrite ?Z.eqb_eq, ?Z.eqb_neq in *; lia.
Qed.

Lemma decode1_valid s : valid_rune (decode1 s).1.
Proof.
  assert (valid_rune RuneError) as Herr by (unfold valid_rune, RuneError; lia).
  destruct s as [|c0 s]; [done|]. cbn [decode1]. pose proof (byteZ_range c0). case_if; [apply Z.ltb_lt in E; cbn; unfold valid_rune; lia|].
  apply Z.ltb_ge in E. destruct (second_range (byteZ c0)) as [lo hi] eqn:Es. apply second_range_valid in Es.
  destruct s as [|c1 s]; [done|]. case_if; [done|].
  apply negb_false_iff, andb_true_iff in E0 as [H0%in_range_spec H1%in_range_spec].
  case_if; [apply Z.ltb_lt in E0; cbn; unfold valid_rune; lia|]. apply Z.ltb_ge in E0.
  destruct s as [|c2 s]; [done|]. case_if; [done|]. apply negb_false_iff, in_range_spec in E1.
  case_if; [apply Z.ltb_lt in E2; cbn; unfold valid_rune; lia|]. apply Z.ltb_ge in E2.
  destruct s as [|c3 s]; [done|]. case_if; [done|]. apply negb_false_iff, in_range_spec in E3.
  cbn. unfold valid_rune. lia.
Qed.

Lemma decode_valid s : Forall valid_rune (decode s).
Proof.
  unfold decode. induction s as [|s Hs IH] using chunks_ind; [constructor|].
  rewrite chunks_step by done. constructor; [apply decode1_valid | exact IH].
Qed.

Lemma decode_two b0 b1 t : 194 <= b0 < 224 → 128 <= b1 <= 191 →
  decode1 (String (Zbyte b0) (String (Zbyte b1) t)) = ((b0 - 192) * 64 + (b1 - 128), 2%nat).
Proof.
  intros H0 H1. cbn [decode1]. rewrite !byteZ_Zbyte by lia. rewrite (proj2 (Z.ltb_ge b0 128)) by lia.
  assert (second_range b0 = (128, 191)) as -> by (unfold second_range; repeat case_if; rewrite ?Z.eqb_eq in *; lia || done).
  rewrite (proj2 (in_range_spec 194 244 b0)), (proj2 (in_range_spec 128 191 b1)) by lia. cbn [andb negb].
  by rewrite (proj2 (Z.ltb_lt b0 224)) by lia.
Qed.

Lemma decode_three b0 b1 b2 t : 224 <= b0 < 240 → 128 <= b1 <= 191 → (b0 = 224 → 160 <= b1) → (b0 = 237 → b1 <= 159) → 128 <= b2 <= 191 →
  decode1 (String (Zbyte b0) (String (Zbyte b1) (String (Zbyte b2) t))) = ((b0 - 224) * 4096 + (b1 - 128) * 64 + (b2 - 128), 3%nat).
Proof.
  intros H0 H1 Hlo Hhi H2. cbn [decode1]. rewrite !byteZ_Zbyte by lia. rewrite (proj2 (Z.ltb_ge b0 128)) by lia.
  assert (∃ lo hi, second_range b0 = (lo, hi) ∧ lo <= b1 <= hi) as (lo & hi & -> & Hr).
  { unfold second_range. repeat case_if; rewrite ?Z.eqb_eq, ?Z.eqb_neq in *; eexists _, _; split; try reflexivity; lia. }
  rewrite (proj2 (in_range_spec 194 244 b0)), (proj2 (in_range_spec lo hi b1)) by lia. cbn [andb negb].
  rewrite (proj2 (Z.ltb_ge b0 224)) by lia. unfold continuation. rewrite (proj2 (in_range_spec 128 191 b2)) by lia. cbn [negb].
  by rewrite (proj2 (Z.ltb_lt b0 240)) by lia.
Qed.

Lemma decode_four b0 b1 b2 b3 t : 240 <= b0 <= 244 → 128 <= b1 <= 191 → (b0 = 240 → 144 <= b1) → (b0 = 244 → b1 <= 143) →
  128 <= b2 <= 191 → 128 <= b3 <= 191 →
  decode1 (String (Zbyte b0) (String (Zbyte b1) (String (Zbyte b2) (String (Zbyte b3) t)))) =
  ((b0 - 240) * 262144 + (b1 - 128) * 4096 + (b2 - 128) * 64 + (b3 - 128), 4%nat).
Proof.
  intros H0 H1 Hlo Hhi H2 H3. cbn [decode1]. rewrite !byteZ_Zbyte by lia. rewrite (proj2 (Z.ltb_ge b0 128)) by lia.
  assert (∃ lo hi, second_range b0 = (lo, hi) ∧ lo <= b1 <= hi) as (lo & hi & -> & Hr).
  { unfold second_range. repeat case_if; rewrite ?Z.eqb_eq, ?Z.eqb_neq in *; eexists _, _; split; try reflexivity; lia. }
  rewrite (proj2 (in_range_spec 194 244 b0)), (proj2 (in_range_spec lo hi b1)) by lia. cbn [andb negb].
  rewrite (proj2 (Z.ltb_ge b0 224)) by lia. unfold continuation. rewrite (proj2 (in_range_spec 128 191 b2)) by lia. cbn [negb].
  rewrite (proj2 (Z.ltb_ge b0 240)) by lia. by rewrite (proj2 (in_range_spec 128 191 b3)) by lia.
Qed.

(** The base-64 digits of a rune. *)
Lemma digits64 r : 0 <= r → ∃ a b c d, r mod 64 = d ∧ r / 64 mod 64 = c ∧ r / 4096 mod 64 = b ∧ r / 262144 = a ∧ r / 64 = a * 4096 + b * 64 + c ∧
  r / 4096 = a * 64 + b ∧ r = a * 262144 + b * 4096 + c * 64 + d ∧ 0 <= b < 64 ∧ 0 <= c < 64 ∧ 0 <= d < 64 ∧ 0 <= a.
Proof.
  intros Hr. pose proof (Z.div_mod r 64 ltac:(lia)) as H1. pose proof (Z.mod_pos_bound r 64 ltac:(lia)).
  pose proof (Z.div_mod (r / 64) 64 ltac:(lia)) as H2. pose proof (Z.mod_pos_bound (r / 64) 64 ltac:(lia)).
  pose proof (Z.div_mod (r / 64 / 64) 64 ltac:(lia)) as H3. pose proof (Z.mod_pos_bound (r / 64 / 64) 64 ltac:(lia)).
  assert (E1 : r / 4096 = r / 64 / 64) by (by rewrite Z.div_div by lia). assert (E2 : r / 262144 = r / 64 / 64 / 64) by (by rewrite !Z.div_div by lia).
  pose proof (Z.div_pos (r / 64 / 64) 64). pose proof (Z.div_pos (r / 64) 64). pose proof (Z.div_pos r 64).
  rewrite E1, E2. exists (r / 64 / 64 / 64), (r / 64 / 64 mod 64), (r / 64 mod 64), (r mod 64). split_and!; lia.
Qed.

Lemma decode1_encode1 r t : valid_rune r → decode1 (encode1 r +:+ t) = (r, String.length (encode1 r)).
Proof.
  intros [Hr Hs]. unfold encode1. assert ((r <? 0) || (1114111 <? r) || in_range 55296 57343 r = false) as ->.
  { rewrite !orb_false_iff. split_and!; [apply Z.ltb_ge; lia | apply Z.ltb_ge; lia |]. apply not_true_iff_false. by rewrite in_range_spec. }
  destruct (digits64 r ltac:(lia)) as (a & b & c & d & -> & -> & -> & -> & E1 & E2 & E & Hb & Hc & Hd & Ha). rewrite E1, E2. clear E1 E2.
  unfold str1. repeat case_if; rewrite ?Z.ltb_lt, ?Z.ltb_ge in *; rewrite !append_cons, ?append_nil_l.
  - cbn [decode1]. rewrite byteZ_Zbyte by lia. by rewrite (proj2 (Z.ltb_lt r 128)) by lia.
  - rewrite decode_two by lia. cbn. f_equal. lia.
  - rewrite decode_three by lia. cbn. f_equal. lia.
  - rewrite decode_four by lia. cbn. f_equal. lia.
Qed.

Lemma encode1_ne r : encode1 r ≠ EmptyString.
Proof. unfold encode1, str1. by repeat case_if. Qed.

(** Decoding what was encoded. *)
Lemma chunks_encode1 r t : valid_rune r → rune_chunks (encode1 r +:+ t) 0 = (r, encode1 r) :: rune_chunks t 0.
Proof.
  intros Hr. rewrite chunks_step by (destruct (encode1 r) eqn:E; [by destruct (encode1_ne r) | by rewrite append_cons]).
  rewrite decode1_encode1 by done. cbn [fst snd]. by rewrite stake_app, stake_all, sdrop_app, sdrop_all, append_nil_l by done.
Qed.

Lemma decode_encode1 r t : valid_rune r → decode (encode1 r +:+ t) = r :: decode t.
Proof. intros Hr. unfold decode. by rewrite chunks_encode1. Qed.

Lemma decode_encode_app rs t : Forall valid_rune rs → decode (encode rs +:+ t) = rs ++ decode t.
Proof.
  induction 1 as [|r rs Hr _ IH]; [by rewrite append_nil_l|]. unfold encode. cbn [fmap list_fmap concat_strings foldr].
  rewrite append_assoc, decode_encode1 by done. cbn [app]. f_equal. exact IH.
Qed.

Lemma decode_encode rs : Forall valid_rune rs → decode (encode rs) = rs.
Proof. intros Hr. rewrite <- (append_nil_r (encode rs)), decode_encode_app by done. apply app_nil_r. Qed.
