(* ===== verification/Cond.v ===== *)
(** * Conditions: evaluation

    Models the evaluation half of [src/core/rcx/cond.go]: the subject a
    condition reads, the compiled condition tree and its three-valued
    (Kleene) meaning. [regexp] is the interface [Regexp]. *)

From S2P Require Export GoText.

(** [tri int8]; [triNeither] is a soft check failure. *)
Inductive tri := triNo | triYes | triUnknown | triNeither.

#[export] Instance tri_eq_dec : EqDecision tri.
Proof. solve_decision. Defined.

Definition is_tri (a b : tri) : bool := bool_decide (a = b).

Definition triOf (b : bool) : tri := if b then triYes else triNo.

Record NetSubject := {
  ns_Kind : string;
  ns_Transport : string;
  ns_Portal : bool;
  ns_Metered : bool;
  ns_Diag : gmap string tri;
}.

Record Subject := {
  sj_Name : string;
  sj_Provider : string;
  sj_Type : string;
  sj_Server : string;
  sj_UDP : bool;
  sj_Alive : bool;
  sj_Dead : bool;
  sj_Measured : bool;
  sj_Current : bool;
  sj_Latency : Z;
  sj_Tags : gset string;
  sj_Exit : string;
  sj_Entry : string;
  sj_Country : string;
  sj_Checks : gmap string tri;
  sj_Net : option NetSubject;
}.

Inductive fieldKind := stringField | countryField | boolField | numberField.
Inductive fieldScope := nodeField | netField.

#[export] Instance fieldKind_eq_dec : EqDecision fieldKind.
Proof. solve_decision. Defined.
#[export] Instance fieldScope_eq_dec : EqDecision fieldScope.
Proof. solve_decision. Defined.

Definition condFields : gmap string (fieldKind * fieldScope) := list_to_map [
  ("name", (stringField, nodeField));
  ("provider", (stringField, nodeField));
  ("type", (stringField, nodeField));
  ("server", (stringField, nodeField));
  ("country", (countryField, nodeField));
  ("exit.country", (countryField, nodeField));
  ("entry.country", (countryField, nodeField));
  ("udp", (boolField, nodeField));
  ("alive", (boolField, nodeField));
  ("dead", (boolField, nodeField));
  ("measured", (boolField, nodeField));
  ("current", (boolField, nodeField));
  ("latency", (numberField, nodeField));
  ("network.kind", (stringField, netField));
  ("network.transport", (stringField, netField));
  ("network.portal", (boolField, netField));
  ("metered", (boolField, netField))].

(** The value of a text field and whether it is known. *)
Definition stringOf (s : Subject) (field : string) : string * bool :=
  if eqs field "name" then (sj_Name s, true)
  else if eqs field "provider" then (sj_Provider s, true)
  else if eqs field "type" then (sj_Type s, true)
  else if eqs field "server" then (sj_Server s, true)
  else if eqs field "country" then (sj_Country s, true)
  else if eqs field "exit.country" then (sj_Exit s, negb (empty (sj_Exit s)))
  else if eqs field "entry.country" then (sj_Entry s, negb (empty (sj_Entry s)))
  else match sj_Net s with
  | None => ("", false)
  | Some net =>
      if eqs field "network.kind" then (ns_Kind net, negb (empty (ns_Kind net)))
      else (ns_Transport net, negb (empty (ns_Transport net)))
  end.

Definition boolOf (s : Subject) (field : string) : tri :=
  if eqs field "udp" then triOf (sj_UDP s)
  else if eqs field "alive" then triOf (sj_Alive s)
  else if eqs field "dead" then triOf (sj_Dead s)
  else if eqs field "measured" then triOf (sj_Measured s)
  else if eqs field "current" then triOf (sj_Current s)
  else match sj_Net s with
  | None => triUnknown
  | Some net => if eqs field "metered" then triOf (ns_Metered net) else triOf (ns_Portal net)
  end.

(** A compiled condition. A regular expression is identified by its source
    text, as [re.String()] gives it. *)
Inductive condNode :=
  | andNode (items : list condNode)
  | orNode (items : list condNode)
  | notNode (item : condNode)
  | boolNode (field : string)
  | tagNode (tag : string)
  | checkNode (check : string) (pass : bool)
  | diagNode (diag : string) (ok : bool)
  | stringNode (field op : string) (values : list string) (re : option string)
  | numberNode (op : string) (value : Z).

(** [Cond]; a nil [*Cond] and a nil root are both [None]. *)
Record Cond := { cd_Text : string; cd_root : condNode }.

(** What the engine uses of [regexp]: whether a pattern compiles and whether
    it matches a text somewhere. *)
Class Regexp := {
  re_compiles : string → bool;
  re_match : string → string → bool;
}.

(** The accumulator loops of [andNode.eval] and [orNode.eval] over the values
    of the items in order. *)
Fixpoint and_values (out : tri) (vs : list tri) : tri :=
  match vs with
  | [] => out
  | triNo :: _ => triNo
  | triUnknown :: vs' => and_values triUnknown vs'
  | _ :: vs' => and_values out vs'
  end.

Fixpoint or_values (out : tri) (vs : list tri) : tri :=
  match vs with
  | [] => out
  | triYes :: _ => triYes
  | triUnknown :: vs' => or_values triUnknown vs'
  | _ :: vs' => or_values out vs'
  end.

Definition not_value (v : tri) : tri :=
  match v with triUnknown => triUnknown | _ => triOf (is_tri v triNo) end.

Section eval.
Context `{Unicode} `{Regexp}.

Definition checkNode_eval (s : Subject) (check : string) (pass : bool) : tri :=
  match sj_Checks s !! check with
  | None | Some triUnknown => triUnknown
  | Some triNeither => triNo
  | Some v => triOf (eqb (is_tri v triYes) pass)
  end.

Definition diagNode_eval (s : Subject) (diag : string) (ok : bool) : tri :=
  match sj_Net s with
  | None => triUnknown
  | Some net =>
      match ns_Diag net !! diag with
      | None | Some triUnknown => triUnknown
      | Some v => triOf (eqb (is_tri v triYes) ok)
      end
  end.

(** [n.values[0]] and [n.re] are read through [default]: the parser never
    builds a node that lacks the one its operator needs ([node_wf]). *)
Definition stringNode_eval (s : Subject) (field op : string) (values : list string)
    (re : option string) : tri :=
  let '(value, known) := stringOf s field in
  if negb known then triUnknown
  else if eqs op "~" then triOf (re_match (default "" re) value)
  else if eqs op "!=" then triOf (negb (EqualFold value (default "" (head values))))
  else if eqs op "in" then triOf (existsb (λ v, EqualFold v value) values)
  else triOf (EqualFold value (default "" (head values))).

Definition numberNode_eval (s : Subject) (op : string) (value : Z) : tri :=
  if negb (sj_Measured s) then triNo
  else if eqs op "<" then triOf (sj_Latency s <? value)
  else if eqs op "<=" then triOf (sj_Latency s <=? value)
  else if eqs op ">" then triOf (value <? sj_Latency s)
  else if eqs op ">=" then triOf (value <=? sj_Latency s)
  else if eqs op "!=" then triOf (negb (sj_Latency s =? value))
  else triOf (sj_Latency s =? value).

Fixpoint eval (s : Subject) (n : condNode) : tri :=
  match n with
  | andNode items => and_values triYes (List.map (eval s) items)
  | orNode items => or_values triNo (List.map (eval s) items)
  | notNode item => not_value (eval s item)
  | boolNode field => boolOf s field
  | tagNode tag => triOf (bool_decide (tag ∈ sj_Tags s))
  | checkNode check pass => checkNode_eval s check pass
  | diagNode diag ok => diagNode_eval s diag ok
  | stringNode field op values re => stringNode_eval s field op values re
  | numberNode op value => numberNode_eval s op value
  end.

(** Methods [Test] and [Eval] of [*Cond]. *)
Definition Test (c : option Cond) (s : Subject) : tri :=
  match c with None => triYes | Some c => eval s (cd_root c) end.
Definition Eval (c : option Cond) (s : Subject) : bool := is_tri (Test c s) triYes.
End eval.

(** Method [walk] of [*Cond]: the nodes in the order [visit] sees them. *)
Fixpoint walk_node (n : condNode) : list condNode :=
  n :: match n with
       | andNode items | orNode items => concat (List.map walk_node items)
       | notNode item => walk_node item
       | _ => []
       end.
Definition walk (c : option Cond) : list condNode :=
  match c with None => [] | Some c => walk_node (cd_root c) end.

(** Induction over a condition with the hypothesis for every item. *)
Section condNode_rect.
Context (P : condNode → Prop).
Context (Hand : ∀ items, Forall P items → P (andNode items)).
Context (Hor : ∀ items, Forall P items → P (orNode items)).
Context (Hnot : ∀ item, P item → P (notNode item)).
Context (Hbool : ∀ f, P (boolNode f)) (Htag : ∀ t, P (tagNode t)).
Context (Hcheck : ∀ c b, P (checkNode c b)) (Hdiag : ∀ d b, P (diagNode d b)).
Context (Hstr : ∀ f o vs re, P (stringNode f o vs re)) (Hnum : ∀ o v, P (numberNode o v)).

Fixpoint condNode_nested_ind (n : condNode) : P n.
Proof using Hand Hor Hnot Hbool Htag Hcheck Hdiag Hstr Hnum.
  refine (match n with
    | andNode items => Hand items _ | orNode items => Hor items _
    | notNode item => Hnot item (condNode_nested_ind item)
    | boolNode f => Hbool f | tagNode t => Htag t | checkNode c b => Hcheck c b
    | diagNode d b => Hdiag d b | stringNode f o vs re => Hstr f o vs re
    | numberNode o v => Hnum o v end);
    induction items; constructor; auto.
Qed.
End condNode_rect.

(** ** The value loops *)

Lemma and_values_No out vs :
  and_values out vs = triNo ↔ out = triNo ∧ triUnknown ∉ vs ∨ triNo ∈ vs.
Proof.
  revert out. induction vs as [|v vs IH]; intros out; cbn; [set_solver|].
  destruct v; rewrite ?IH; set_solver.
Qed.

Lemma and_values_Yes vs : and_values triYes vs = triYes ↔ triNo ∉ vs ∧ triUnknown ∉ vs.
Proof.
  assert (Hu : ∀ vs, and_values triUnknown vs ≠ triYes).
  { intros ws. induction ws as [|v ws IH]; cbn; [done|]. by destruct v. }
  induction vs as [|v vs IH]; cbn; [set_solver|]. destruct v; rewrite ?IH; set_solver.
Qed.

(** The dual of a value; [triUnknown] is its own. *)
Lemma not_value_involutive v : v ≠ triNeither → not_value (not_value v) = v.
Proof. by destruct v. Qed.

Lemma or_values_dual out vs : Forall (.≠ triNeither) vs →
  or_values (not_value out) (not_value <$> vs) = not_value (and_values out vs).
Proof.
  intros Hvs. revert out. induction Hvs as [|v vs Hv _ IH]; intros out; [done|].
  destruct v; cbn; [done| |apply (IH triUnknown)|done]. apply IH.
Qed.

Lemma and_values_dual out vs : Forall (.≠ triNeither) vs →
  and_values (not_value out) (not_value <$> vs) = not_value (or_values out vs).
Proof.
  intros Hvs. revert out. induction Hvs as [|v vs Hv _ IH]; intros out; [done|].
  destruct v; cbn; [| done |apply (IH triUnknown)|done]. apply IH.
Qed.

(** ** Kleene logic *)

Section kleene.
Context `{U : Unicode} `{R : Regexp}.

Lemma triOf_known b : triOf b ≠ triNeither.
Proof. by destruct b. Qed.

Lemma loop_values_neither vs :
  (∀ out, out ≠ triNeither → and_values out vs ≠ triNeither) ∧
  (∀ out, out ≠ triNeither → or_values out vs ≠ triNeither).
Proof.
  induction vs as [|v vs [IHa IHo]]; [done|].
  split; intros out Hout; destruct v; cbn; auto.
Qed.

(** A condition is true, false or unknown: a soft failure never leaves the
    predicate that read it. *)
Lemma eval_three_valued s n : eval s n ≠ triNeither.
Proof using.
  destruct n as [items|items|item|f|t|c b|d b|f o vs re|o v]; cbn.
  - by apply loop_values_neither.
  - by apply loop_values_neither.
  - destruct (eval s item); cbn; apply triOf_known || done.
  - unfold boolOf. repeat case_match; apply triOf_known || done.
  - apply triOf_known.
  - unfold checkNode_eval. repeat case_match; apply triOf_known || done.
  - unfold diagNode_eval. repeat case_match; apply triOf_known || done.
  - unfold stringNode_eval. repeat case_match; apply triOf_known || done.
  - unfold numberNode_eval. repeat case_match; apply triOf_known || done.
Qed.

(** [tri_le a b]: [b] knows at least what [a] knows. *)
Definition tri_le (a b : tri) : Prop := a = triUnknown ∨ a = b.

(** [subject_le s t]: [t] is [s] after more was learned; text facts that were
    empty, checks and diagnostics that were unknown may have become known,
    and nothing known has changed. *)
Definition known_le (a b : string) : Prop := a = "" ∨ a = b.
Definition verdict_of (m : gmap string tri) (k : string) : tri := default triUnknown (m !! k).
Definition net_le (n m : option NetSubject) : Prop :=
  match n, m with
  | None, _ => True
  | Some n, Some m =>
      known_le (ns_Kind n) (ns_Kind m) ∧ known_le (ns_Transport n) (ns_Transport m) ∧
      ns_Portal n = ns_Portal m ∧ ns_Metered n = ns_Metered m ∧
      ∀ d, tri_le (verdict_of (ns_Diag n) d) (verdict_of (ns_Diag m) d)
  | Some _, None => False
  end.
Definition subject_le (s t : Subject) : Prop :=
  sj_Name s = sj_Name t ∧ sj_Provider s = sj_Provider t ∧ sj_Type s = sj_Type t ∧
  sj_Server s = sj_Server t ∧ sj_UDP s = sj_UDP t ∧ sj_Alive s = sj_Alive t ∧
  sj_Dead s = sj_Dead t ∧ sj_Measured s = sj_Measured t ∧ sj_Current s = sj_Current t ∧
  sj_Latency s = sj_Latency t ∧ sj_Tags s = sj_Tags t ∧ sj_Country s = sj_Country t ∧
  known_le (sj_Exit s) (sj_Exit t) ∧ known_le (sj_Entry s) (sj_Entry t) ∧
  (∀ c, tri_le (verdict_of (sj_Checks s) c) (verdict_of (sj_Checks t) c)) ∧
  net_le (sj_Net s) (sj_Net t).

Lemma tri_le_refl a : tri_le a a.
Proof. by right. Qed.

Lemma and_values_le vs ws a b : Forall2 tri_le vs ws → tri_le a b → a ≠ triNo →
  tri_le (and_values a vs) (and_values b ws).
Proof.
  intros HF. revert a b. induction HF as [|v w vs ws Hvw HF IH]; intros a b Hab Ha; [done|].
  destruct Hvw as [->| ->]; cbn.
  - destruct w; cbn.
    + destruct (and_values triUnknown vs) eqn:E; [by right| | by left|];
        exfalso; revert E; clear.
      * induction vs as [|[] vs]; cbn; auto; done.
      * induction vs as [|[] vs]; cbn; auto; done.
    + apply IH; [by left|done].
    + apply IH; [by left|done].
    + apply IH; [by left|done].
  - destruct w; cbn; [by right|by apply IH| |by apply IH]. apply IH; [by left|done].
Qed.

Lemma not_value_le a b : a ≠ triNeither → b ≠ triNeither → tri_le a b → tri_le (not_value a) (not_value b).
Proof. intros ?? [->| ->]; [by left|by right]. Qed.

Lemma or_values_le vs ws a b : Forall2 tri_le vs ws →
  Forall (.≠ triNeither) vs → Forall (.≠ triNeither) ws →
  a ≠ triNeither → b ≠ triNeither → tri_le a b → a ≠ triYes →
  tri_le (or_values a vs) (or_values b ws).
Proof.
  intros HF Hv Hw Ha Hb Hab Ha'.
  rewrite <- (not_value_involutive (or_values a vs)) by (by apply loop_values_neither).
  rewrite <- (not_value_involutive (or_values b ws)) by (by apply loop_values_neither).
  rewrite <- !and_values_dual by done.
  apply not_value_le.
  - apply loop_values_neither. by destruct a.
  - apply loop_values_neither. by destruct b.
  - apply and_values_le; [|by apply not_value_le|by destruct a].
    clear -HF Hv Hw. induction HF as [|v w vs ws Hvw HF IH]; constructor.
    + apply not_value_le; [by inversion Hv|by inversion Hw|done].
    + apply IH; [by inversion Hv|by inversion Hw].
Qed.

Lemma stringOf_le s t f v : subject_le s t → stringOf s f = (v, true) → stringOf t f = (v, true).
Proof.
  intros (?&?&?&?&_&_&_&_&_&_&_&Hc&He&Hn&_&Hnet). unfold stringOf.
  repeat (case_match; [congruence|]).
  assert (Hkn : ∀ a b v, known_le a b → (a, negb (empty a)) = (v, true) → (b, negb (empty b)) = (v, true)).
  { intros a b w [->| ->]; [|done]. unfold empty. rewrite bool_decide_eq_true_2 by done. done. }
  case_match; [eauto|]. case_match; [eauto|].
  destruct (sj_Net s) as [n|], (sj_Net t) as [m|]; cbn in Hnet; try done.
  destruct Hnet as (?&?&_). case_match; eauto.
Qed.

Lemma eval_leaf_le s t n : subject_le s t →
  match n with andNode _ | orNode _ | notNode _ => True | _ => tri_le (eval s n) (eval t n) end.
Proof.
  intros Hle. pose proof Hle as (?&?&?&?&Hu&Ha&Hd&Hm&Hcu&Hl&Ht&_&_&_&Hch&Hnet).
  destruct n as [items|items|item|f|tg|c b|d b|f o vs re|o v]; cbn; try done.
  - unfold boolOf. rewrite Hu, Ha, Hd, Hm, Hcu.
    repeat (case_match; [by right|]).
    destruct (sj_Net s) as [n|], (sj_Net t) as [m|]; cbn in Hnet; try done; [|by left|by left].
    destruct Hnet as (_&_&->&->&_). by right.
  - rewrite Ht. by right.
  - unfold checkNode_eval. specialize (Hch c). unfold verdict_of in Hch. clear -Hch.
    destruct Hch as [Hch|Hch];
      destruct (sj_Checks s !! c) as [[]|], (sj_Checks t !! c) as [[]|]; cbn in Hch;
      first [discriminate Hch | by left | by right].
  - unfold diagNode_eval.
    destruct (sj_Net s) as [n|], (sj_Net t) as [m|]; cbn in Hnet; try done; [|by left|by left].
    destruct Hnet as (_&_&_&_&Hdg). specialize (Hdg d). unfold verdict_of in Hdg. clear -Hdg.
    destruct Hdg as [Hdg|Hdg];
      destruct (ns_Diag n !! d) as [[]|], (ns_Diag m !! d) as [[]|]; cbn in Hdg;
      first [discriminate Hdg | by left | by right].
  - unfold stringNode_eval. destruct (stringOf s f) as [w [|]] eqn:E; [|by left].
    rewrite (stringOf_le s t f w Hle E). by right.
  - unfold numberNode_eval. rewrite Hm, Hl. by right.
Qed.

(** Learning more never changes a verdict already reached. *)
Lemma eval_monotone s t n : subject_le s t → tri_le (eval s n) (eval t n).
Proof.
  intros Hle. induction n as [items IH|items IH|item IH| | | | | |] using condNode_nested_ind.
  - cbn. apply and_values_le; [|by right|done].
    induction IH; constructor; auto.
  - cbn. apply or_values_le; try done; [| | |by right].
    + induction IH; constructor; auto.
    + apply List.Forall_map, Forall_forall. intros. apply eval_three_valued.
    + apply List.Forall_map, Forall_forall. intros. apply eval_three_valued.
  - cbn. apply not_value_le; [apply eval_three_valued..|done].
  - exact (eval_leaf_le s t (boolNode f) Hle).
  - exact (eval_leaf_le s t (tagNode t0) Hle).
  - exact (eval_leaf_le s t (checkNode c b) Hle).
  - exact (eval_leaf_le s t (diagNode d b) Hle).
  - exact (eval_leaf_le s t (stringNode f o vs re) Hle).
  - exact (eval_leaf_le s t (numberNode o v) Hle).
Qed.

Lemma eval_and_Yes s items :
  eval s (andNode items) = triYes ↔ ∀ n, n ∈ items → eval s n = triYes.
Proof.
  cbn. rewrite and_values_Yes. split.
  - intros [Hn Hu] n Hin. pose proof (eval_three_valued s n).
    assert (eval s n ∈ List.map (eval s) items).
    { apply list_elem_of_In, in_map, list_elem_of_In, Hin. }
    destruct (eval s n); set_solver.
  - intros Hall. split; intros (n & Hev & Hin%list_elem_of_In)%list_elem_of_In%in_map_iff;
      rewrite Hall in Hev; done.
Qed.
End kleene.
