(* ===== verification/CondSyntax.v ===== *)
(** * Conditions: syntax

    Models the lexer and the recursive-descent parser of
    [src/core/rcx/cond.go]. The parser's recursion is not structural, so its
    functions take fuel; [parse_fuel] is proved to be enough, and the error
    [OutOfFuel] is never returned. *)

From S2P Require Export Cond.

Definition maxConditionLength : Z := 2048.
Definition maxConditionDepth : Z := 16.
Definition maxPatternLength : Z := 512.

Inductive tokenKind := wordToken | stringToken | regexToken | opToken | punctToken.

#[export] Instance tokenKind_eq_dec : EqDecision tokenKind.
Proof. solve_decision. Defined.

Record condToken := { tk_kind : tokenKind; tk_text : string }.

#[export] Instance condToken_eq_dec : EqDecision condToken.
Proof. solve_decision. Defined.

(** One constructor per [fmt.Errorf] of the parser, with its arguments. *)
Inductive condError :=
  | ConditionTooLong
  | UseNotInstead
  | UnterminatedString
  | UnterminatedPattern
  | UnsupportedFlags (flags : string)
  | UnexpectedCharacter (r : rune)
  | UnexpectedToken (text : string)
  | NestedTooDeep
  | ExpectedField (found : string)
  | TagNotAllowed (name : string)
  | UnknownTag (name : string)
  | UnknownCheck (name : string)
  | NeedsOkOrFail (diag found : string)
  | UnknownField (text : string)
  | NotTheNetwork (field : string)
  | NeedsOperator (field found : string)
  | ExpectedText (text found : string)
  | ExpectedName (found : string)
  | BadOperator (field op : string)
  | NeedsNumber (field found : string)
  | NeedsPattern (found : string)
  | PatternTooLong
  | BadPattern (pattern : string)
  | ExpectedValue (found : string)
  | OutOfFuel.

(** What a condition may reference; [None] is a nil map. *)
Record condScope := {
  cs_tags : option (gset string);
  cs_checks : gset string;
  cs_diags : option (gset string);
}.

(** ** The lexer *)

Definition r_lparen : rune := 40.
Definition r_rparen : rune := 41.
Definition r_lbracket : rune := 91.
Definition r_rbracket : rune := 93.
Definition r_comma : rune := 44.
Definition r_eq : rune := 61.
Definition r_tilde : rune := 126.
Definition r_bang : rune := 33.
Definition r_lt : rune := 60.
Definition r_gt : rune := 62.
Definition r_quote : rune := 39.
Definition r_dquote : rune := 34.
Definition r_slash : rune := 47.
Definition r_backslash : rune := 92.
Definition r_underscore : rune := 95.
Definition r_dash : rune := 45.
Definition r_dot : rune := 46.
Definition r_colon : rune := 58.

Definition is_punct (r : rune) : bool :=
  (r =? r_lparen) || (r =? r_rparen) || (r =? r_lbracket) || (r =? r_rbracket) || (r =? r_comma).

(** The longest prefix satisfying [p], and the rest. *)
Fixpoint span {A} (p : A → bool) (l : list A) : list A * list A :=
  match l with
  | [] => ([], [])
  | x :: l' => if p x then let '(a, b) := span p l' in (x :: a, b) else ([], l)
  end.

(** A quoted text up to the closing quote [q]. *)
Fixpoint scan_string (q : rune) (l : list rune) : option (list rune * list rune) :=
  match l with
  | [] => None
  | r :: l' => if r =? q then Some ([], l')
      else match scan_string q l' with Some (a, b) => Some (r :: a, b) | None => None end
  end.

(** A pattern up to the closing slash; [\/] stands for a slash. *)
Fixpoint scan_pattern (l : list rune) : option (list rune * list rune) :=
  match l with
  | [] => None
  | r :: l' =>
      if r =? r_slash then Some ([], l')
      else
        let keep := match scan_pattern l' with Some (a, b) => Some (r :: a, b) | None => None end in
        if r =? r_backslash then
          match l' with
          | r' :: l'' => if r' =? r_slash then
              match scan_pattern l'' with Some (a, b) => Some (r' :: a, b) | None => None end
              else keep
          | [] => keep
          end
        else keep
  end.

Section lexer.
Context `{Unicode}.

Definition isWordRune (r : rune) : bool :=
  is_letter r || is_digit r || (r =? r_underscore) || (r =? r_dash) || (r =? r_dot) || (r =? r_colon).

(** One turn of the loop of [lexCond]: the token read, if any, and the rest. *)
Definition lex_step (r : rune) (l : list rune) : result condError (option condToken * list rune) :=
  if is_space r then Ok (None, l)
  else if is_punct r then Ok (Some {| tk_kind := punctToken; tk_text := encode1 r |}, l)
  else if (r =? r_eq) || (r =? r_tilde) then
    Ok (Some {| tk_kind := opToken; tk_text := encode1 r |}, l)
  else if (r =? r_bang) || (r =? r_lt) || (r =? r_gt) then
    match l with
    | r' :: l' =>
        if r' =? r_eq then Ok (Some {| tk_kind := opToken; tk_text := encode1 r +:+ "=" |}, l')
        else if r =? r_bang then Err UseNotInstead
        else Ok (Some {| tk_kind := opToken; tk_text := encode1 r |}, l)
    | [] => if r =? r_bang then Err UseNotInstead
            else Ok (Some {| tk_kind := opToken; tk_text := encode1 r |}, l)
    end
  else if (r =? r_quote) || (r =? r_dquote) then
    match scan_string r l with
    | None => Err UnterminatedString
    | Some (body, rest) => Ok (Some {| tk_kind := stringToken; tk_text := encode body |}, rest)
    end
  else if r =? r_slash then
    match scan_pattern l with
    | None => Err UnterminatedPattern
    | Some (body, rest) =>
        let '(flags, rest) := span is_letter rest in
        let flags := encode flags in
        if empty flags then Ok (Some {| tk_kind := regexToken; tk_text := encode body |}, rest)
        else if eqs flags "i" then
          Ok (Some {| tk_kind := regexToken; tk_text := "(?i)" +:+ encode body |}, rest)
        else Err (UnsupportedFlags flags)
    end
  else if isWordRune r then
    let '(word, rest) := span isWordRune (r :: l) in
    Ok (Some {| tk_kind := wordToken; tk_text := encode word |}, rest)
  else Err (UnexpectedCharacter r).

(** Every turn consumes a rune, so [length l] turns read all of [l]. *)
Fixpoint lex_go (fuel : nat) (l : list rune) : result condError (list condToken) :=
  match l, fuel with
  | [], _ => Ok []
  | _ :: _, O => Err OutOfFuel
  | r :: l', S fuel' =>
      match lex_step r l' with
      | Err e => Err e
      | Ok (token, rest) =>
          match lex_go fuel' rest with
          | Err e => Err e
          | Ok tokens => Ok (match token with Some t => t :: tokens | None => tokens end)
          end
      end
  end.

Definition lex_runes (l : list rune) : result condError (list condToken) := lex_go (length l) l.
Definition lexCond (text : string) : result condError (list condToken) := lex_runes (decode text).
End lexer.

(** ** The parser

    The state of [condParser] is the list of tokens not yet read. *)

Definition end_token : condToken := {| tk_kind := punctToken; tk_text := "end" |}.
Definition peek (ts : list condToken) : condToken := default end_token (head ts).
Definition next (ts : list condToken) : condToken * list condToken := (peek ts, tail ts).

Definition is_kind (k : tokenKind) (t : condToken) : bool :=
  match k, tk_kind t with
  | wordToken, wordToken | stringToken, stringToken | regexToken, regexToken
  | opToken, opToken | punctToken, punctToken => true
  | _, _ => false
  end.
Definition is_punct_text (p : string) (t : condToken) : bool := is_kind punctToken t && eqs (tk_text t) p.

Definition expect (text : string) (ts : list condToken) : result condError (list condToken) :=
  let '(token, ts') := next ts in
  if negb (eqs (tk_text token) text) || is_kind stringToken token
  then Err (ExpectedText text (tk_text token)) else Ok ts'.

Section parser.
Context `{Unicode} `{Regexp} (scope : condScope).

Definition keyword (word : string) (ts : list condToken) : bool :=
  is_kind wordToken (peek ts) && EqualFold (tk_text (peek ts)) word.

Definition scope_tag (name : string) : bool :=
  match cs_tags scope with Some tags => bool_decide (name ∈ tags) | None => false end.
Definition scope_diag (name : string) : bool :=
  match cs_diags scope with Some diags => bool_decide (name ∈ diags) | None => false end.

(** [condParser.call]. *)
Definition p_call (ts : list condToken) : result condError (string * list condToken) :=
  ts ← expect "(" ts;
  let '(name, ts) := next ts in
  if negb (is_kind wordToken name) && negb (is_kind stringToken name)
  then Err (ExpectedName (tk_text name))
  else ts ← expect ")" ts; Ok (tk_text name, ts).

(** [condParser.value]. *)
Definition p_value (ts : list condToken) : result condError (string * list condToken) :=
  let '(token, ts) := next ts in
  if negb (is_kind wordToken token) && negb (is_kind stringToken token)
  then Err (ExpectedValue (tk_text token)) else Ok (tk_text token, ts).

(** [condParser.number]. *)
Definition p_number (field op : string) (ts : list condToken) : result condError (condNode * list condToken) :=
  if negb (mem_string op ["="; "!="; "<"; "<="; ">"; ">="]) then Err (BadOperator field op)
  else
    let '(token, ts) := next ts in
    match Atoi (TrimSuffix (tk_text token) "ms") with
    | Some value => if is_kind wordToken token then Ok (numberNode op value, ts)
                    else Err (NeedsNumber field (tk_text token))
    | None => Err (NeedsNumber field (tk_text token))
    end.

(** The loop of [condParser.text] over the values of [in [...]]; each turn
    consumes a token, so [length ts] turns are enough. *)
Fixpoint p_values (fuel : nat) (ts : list condToken) : result condError (list string * list condToken) :=
  match fuel with
  | O => Err OutOfFuel
  | S fuel' =>
      '(value, ts) ← p_value ts;
      if is_punct_text "]" (peek ts) then Ok ([value], tail ts)
      else
        ts ← expect "," ts;
        '(values, ts) ← p_values fuel' ts;
        Ok (value :: values, ts)
  end.

(** [condParser.text]. *)
Definition p_text (field op : string) (ts : list condToken) : result condError (condNode * list condToken) :=
  if eqs op "~" then
    let '(token, ts) := next ts in
    if negb (is_kind regexToken token) && negb (is_kind stringToken token)
    then Err (NeedsPattern (tk_text token))
    else if maxPatternLength <? slen (tk_text token) then Err PatternTooLong
    else if negb (re_compiles (tk_text token)) then Err (BadPattern (tk_text token))
    else Ok (stringNode field op [] (Some (tk_text token)), ts)
  else if eqs op "in" then
    ts ← expect "[" ts;
    '(values, ts) ← p_values (S (length ts)) ts;
    Ok (stringNode field op values None, ts)
  else if eqs op "=" || eqs op "!=" then
    '(value, ts) ← p_value ts;
    Ok (stringNode field op [value] None, ts)
  else Err (BadOperator field op).

(** [condParser.predicate]. *)
Definition p_predicate (ts : list condToken) : result condError (condNode * list condToken) :=
  let '(token, ts) := next ts in
  if negb (is_kind wordToken token) then Err (ExpectedField (tk_text token))
  else
    let field := ToLower (tk_text token) in
    let network := bool_decide (is_Some (cs_diags scope)) in
    if eqs field "tag" || eqs field "passes" || eqs field "fails" then
      '(name, ts) ← p_call ts;
      if eqs field "tag" then
        if bool_decide (cs_tags scope = None) || network then Err (TagNotAllowed name)
        else if negb (scope_tag name) then Err (UnknownTag name)
        else Ok (tagNode name, ts)
      else if negb (bool_decide (name ∈ cs_checks scope)) || network then Err (UnknownCheck name)
      else Ok (checkNode name (eqs field "passes"), ts)
    else if scope_diag (tk_text token) then
      let '(state, ts) := next ts in
      if is_kind wordToken state && EqualFold (tk_text state) "ok" then Ok (diagNode (tk_text token) true, ts)
      else if is_kind wordToken state && EqualFold (tk_text state) "fail" then Ok (diagNode (tk_text token) false, ts)
      else Err (NeedsOkOrFail (tk_text token) (tk_text state))
    else
      match condFields !! field with
      | None => Err (UnknownField (tk_text token))
      | Some (kind, fscope) =>
          if network && negb (bool_decide (fscope = netField)) then Err (NotTheNetwork field)
          else if bool_decide (kind = boolField) then Ok (boolNode field, ts)
          else
            let '(op, ts) := next ts in
            if negb (is_kind opToken op) && negb (is_kind wordToken op && EqualFold (tk_text op) "in")
            then Err (NeedsOperator field (tk_text op))
            else
              let operator := ToLower (tk_text op) in
              if bool_decide (kind = numberField) then p_number field operator ts
              else p_text field operator ts
      end.

(** [condParser.or], [and] and [unary]; [p_ors] and [p_ands] are the loops
    that collect further items. *)
Fixpoint p_or (fuel : nat) (depth : Z) (ts : list condToken) {struct fuel}
    : result condError (condNode * list condToken) :=
  match fuel with
  | O => Err OutOfFuel
  | S fuel' =>
      if maxConditionDepth <? depth then Err NestedTooDeep
      else
        '(first, ts) ← p_and fuel' depth ts;
        '(items, ts) ← p_ors fuel' depth ts;
        Ok (match items with [] => first | _ => orNode (first :: items) end, ts)
  end
with p_ors (fuel : nat) (depth : Z) (ts : list condToken) {struct fuel}
    : result condError (list condNode * list condToken) :=
  match fuel with
  | O => Err OutOfFuel
  | S fuel' =>
      if keyword "or" ts then
        '(item, ts) ← p_and fuel' depth (tail ts);
        '(items, ts) ← p_ors fuel' depth ts;
        Ok (item :: items, ts)
      else Ok ([], ts)
  end
with p_and (fuel : nat) (depth : Z) (ts : list condToken) {struct fuel}
    : result condError (condNode * list condToken) :=
  match fuel with
  | O => Err OutOfFuel
  | S fuel' =>
      '(first, ts) ← p_unary fuel' depth ts;
      '(items, ts) ← p_ands fuel' depth ts;
      Ok (match items with [] => first | _ => andNode (first :: items) end, ts)
  end
with p_ands (fuel : nat) (depth : Z) (ts : list condToken) {struct fuel}
    : result condError (list condNode * list condToken) :=
  match fuel with
  | O => Err OutOfFuel
  | S fuel' =>
      if keyword "and" ts then
        '(item, ts) ← p_unary fuel' depth (tail ts);
        '(items, ts) ← p_ands fuel' depth ts;
        Ok (item :: items, ts)
      else Ok ([], ts)
  end
with p_unary (fuel : nat) (depth : Z) (ts : list condToken) {struct fuel}
    : result condError (condNode * list condToken) :=
  match fuel with
  | O => Err OutOfFuel
  | S fuel' =>
      if keyword "not" ts then
        '(item, ts) ← p_unary fuel' (depth + 1) (tail ts);
        Ok (notNode item, ts)
      else if is_punct_text "(" (peek ts) then
        '(item, ts) ← p_or fuel' (depth + 1) (tail ts);
        ts ← expect ")" ts;
        Ok (item, ts)
      else p_predicate ts
  end.

(** At most four calls between two tokens read. *)
Definition parse_fuel (ts : list condToken) : nat := (4 * length ts + 8)%nat.

Definition parse_tokens (ts : list condToken) : result condError condNode :=
  '(root, rest) ← p_or (parse_fuel ts) 0 ts;
  match rest with
  | [] => Ok root
  | t :: _ => Err (UnexpectedToken (tk_text t))
  end.

(** [parseCond]: [Ok None] is the nil condition of an empty text. *)
Definition parseCond (text : string) : result condError (option Cond) :=
  let text := TrimSpace text in
  if empty text then Ok None
  else if maxConditionLength <? slen text then Err ConditionTooLong
  else
    tokens ← lexCond text;
    root ← parse_tokens tokens;
    Ok (Some {| cd_Text := text; cd_root := root |}).
End parser.

(** [ParseCond]: a node condition that may reference the given tags. *)
Definition ParseCond `{Unicode} `{Regexp} (text : string) (tags : option (gset string)) :=
  parseCond {| cs_tags := tags; cs_checks := ∅; cs_diags := None |} text.
