(* ===== verification/CondSyntaxFacts.v ===== *)
(** * Conditions: what the lexer and the parser guarantee

    Totality (the fuel is enough), the shape of every parsed condition, and
    how texts compose: wrapping parsed texts in parentheses and joining them
    with [and] or [or] gives the conjunction or disjunction of the parts. *)

From S2P Require Export CondSyntax.

(** ** The lexer reads everything *)

Section lexer_facts.
Context `{U : Unicode} {UA : UnicodeAscii}.

Lemma span_app {A} (p : A → bool) l a b : span p l = (a, b) → l = a ++ b.
Proof.
  revert a b. induction l as [|x l IH]; cbn; intros a b E; [by simplify_eq|].
  destruct (p x); [|by simplify_eq]. destruct (span p l) as [a' b']. simplify_eq.
  cbn. f_equal. by apply IH.
Qed.

(** A rune [span] does not take ends the run. *)
Lemma span_stop {A} (p : A → bool) l a b x rest :
  span p l = (a, b) → p x = false → span p (l ++ x :: rest) = (a, b ++ x :: rest).
Proof.
  revert a b. induction l as [|y l IH]; cbn; intros a b E Hx; [simplify_eq; by rewrite Hx|].
  destruct (p y); [|by simplify_eq]. destruct (span p l) as [a' b']. simplify_eq.
  by rewrite (IH a' b eq_refl Hx).
Qed.

Lemma scan_string_app q l a b rest :
  scan_string q l = Some (a, b) → scan_string q (l ++ rest) = Some (a, b ++ rest).
Proof.
  revert a. induction l as [|r l IH]; cbn; intros a E; [done|].
  destruct (r =? q); [by simplify_eq|].
  destruct (scan_string q l) as [[a' b']|]; [|done]. simplify_eq. by rewrite (IH a' eq_refl).
Qed.

Lemma scan_string_length q l a b :
  scan_string q l = Some (a, b) → (length b < length l)%nat.
Proof.
  revert a. induction l as [|r l IH]; cbn; intros a E; [done|].
  destruct (r =? q); [simplify_eq; lia|].
  destruct (scan_string q l) as [[a' b']|]; [|done]. simplify_eq. specialize (IH a' eq_refl). lia.
Qed.

(** Two runes at a time, as [scan_pattern] reads an escaped slash. *)
Lemma two_step_ind {A} (P : list A → Prop) :
  P [] → (∀ x l, P l → (∀ y l', l = y :: l' → P l') → P (x :: l)) → ∀ l, P l.
Proof.
  intros H0 Hs l. enough (P l ∧ ∀ y l', l = y :: l' → P l') by naive_solver.
  induction l as [|x l [IH1 IH2]]; [done|]. split; [auto|]. by intros ? ? [= <- <-].
Qed.

Lemma scan_pattern_app l : ∀ a b rest,
  scan_pattern l = Some (a, b) → scan_pattern (l ++ rest) = Some (a, b ++ rest).
Proof.
  induction l as [|r l IH1 IH2] using two_step_ind; intros a b rest E; [done|].
  cbn in E |- *. destruct (r =? r_slash); [by simplify_eq|].
  assert (Hkeep : ∀ a b, match scan_pattern l with Some (a, b) => Some (r :: a, b) | None => None end
      = Some (a, b) →
      match scan_pattern (l ++ rest) with Some (a, b) => Some (r :: a, b) | None => None end
      = Some (a, b ++ rest)).
  { intros a' b' E'. destruct (scan_pattern l) as [[a'' b'']|]; [|done]. simplify_eq.
    by rewrite (IH1 a'' b' rest eq_refl). }
  destruct (r =? r_backslash); [|by apply Hkeep].
  destruct l as [|r' l']; [done|]. cbn [app].
  destruct (r' =? r_slash); [|by apply Hkeep].
  destruct (scan_pattern l') as [[a' b']|] eqn:E'; [|done]. simplify_eq.
  by rewrite (IH2 r' l' eq_refl a' b rest E').
Qed.

Lemma scan_pattern_length l : ∀ a b,
  scan_pattern l = Some (a, b) → (length b < length l)%nat.
Proof.
  induction l as [|r l IH1 IH2] using two_step_ind; intros a b E; [done|].
  cbn in E |- *. destruct (r =? r_slash); [simplify_eq; lia|].
  assert (Hkeep : match scan_pattern l with Some (a, b) => Some (r :: a, b) | None => None end
      = Some (a, b) → (length b < S (length l))%nat).
  { intros E'. destruct (scan_pattern l) as [[a' b']|]; [|done]. simplify_eq.
    specialize (IH1 a' b eq_refl). lia. }
  destruct (r =? r_backslash); [|by apply Hkeep].
  destruct l as [|r' l']; [done|]. destruct (r' =? r_slash); [|by apply Hkeep].
  destruct (scan_pattern l') as [[a' b']|] eqn:E'; [|done]. simplify_eq.
  specialize (IH2 r' l' eq_refl a' b E'). cbn. lia.
Qed.

Lemma span_length {A} (p : A → bool) l a b : span p l = (a, b) → (length b <= length l)%nat.
Proof. intros ->%span_app. rewrite length_app. lia. Qed.

Lemma lex_step_length r l t rest :
  lex_step r l = Ok (t, rest) → (length rest <= length l)%nat.
Proof using.
  unfold lex_step. intros E.
  destruct (is_space r); [by simplify_eq|].
  destruct (is_punct r); [by simplify_eq|].
  destruct ((r =? r_eq) || (r =? r_tilde)); [by simplify_eq|].
  destruct ((r =? r_bang) || (r =? r_lt) || (r =? r_gt)).
  { repeat case_match; simplify_eq; cbn; lia. }
  destruct ((r =? r_quote) || (r =? r_dquote)).
  { destruct (scan_string r l) as [[body b]|] eqn:Es; [|done]. simplify_eq.
    apply scan_string_length in Es. lia. }
  destruct (r =? r_slash).
  { destruct (scan_pattern l) as [[body b]|] eqn:Es; [|done]. apply scan_pattern_length in Es.
    destruct (span is_letter b) as [flags b'] eqn:Ef. apply span_length in Ef.
    repeat case_match; simplify_eq; lia. }
  destruct (isWordRune r) eqn:Ew; [|done]. cbn [span] in E. rewrite Ew in E.
  destruct (span isWordRune l) as [w b] eqn:Es. simplify_eq. by apply span_length in Es.
Qed.

Lemma lex_step_fuel r l : lex_step r l ≠ Err OutOfFuel.
Proof using. unfold lex_step. repeat case_match; done. Qed.

Lemma lex_go_fuel l : ∀ f g, (length l <= f)%nat → (length l <= g)%nat → lex_go f l = lex_go g l.
Proof using.
  remember (length l) as n eqn:Hn. revert l Hn.
  induction n as [n IH] using (well_founded_induction lt_wf). intros l -> f g Hf Hg.
  destruct l as [|r l]; [by destruct f, g|].
  destruct f as [|f], g as [|g]; cbn in Hf, Hg; try lia. cbn.
  destruct (lex_step r l) as [[t rest]|e] eqn:E; [|done].
  apply lex_step_length in E. by rewrite (IH (length rest) ltac:(cbn; lia) rest eq_refl f g) by lia.
Qed.

(** One turn of the loop, without fuel. *)
Lemma lex_runes_cons r l : lex_runes (r :: l) =
  match lex_step r l with
  | Err e => Err e
  | Ok (token, rest) =>
      match lex_runes rest with
      | Err e => Err e
      | Ok tokens => Ok (match token with Some t => t :: tokens | None => tokens end)
      end
  end.
Proof using.
  unfold lex_runes. cbn. destruct (lex_step r l) as [[t rest]|e] eqn:E; [|done].
  apply lex_step_length in E. by rewrite (lex_go_fuel rest (length l) (length rest)) by lia.
Qed.

Lemma lex_runes_total l : lex_runes l ≠ Err OutOfFuel.
Proof using.
  remember (length l) as n eqn:Hn. revert l Hn.
  induction n as [n IH] using (well_founded_induction lt_wf). intros l ->.
  destruct l as [|r l]; [done|]. rewrite lex_runes_cons.
  pose proof (lex_step_fuel r l) as Hs.
  destruct (lex_step r l) as [[t rest]|e] eqn:E; [|congruence].
  apply lex_step_length in E. specialize (IH (length rest) ltac:(cbn; lia) rest eq_refl).
  destruct (lex_runes rest); congruence.
Qed.

(** ** A closing parenthesis separates tokens *)

Lemma isWordRune_rparen : isWordRune r_rparen = false.
Proof using UA.
  unfold isWordRune. rewrite letter_ascii, digit_ascii by (unfold r_rparen; lia). done.
Qed.

(** A rune that ends any token before it. *)
Definition separates (sep : rune) : Prop :=
  isWordRune sep = false ∧ is_letter sep = false ∧ (sep =? r_eq) = false.

Lemma rparen_separates : separates r_rparen.
Proof using UA.
  split_and!; [apply isWordRune_rparen | by rewrite letter_ascii by (unfold r_rparen; lia) | done].
Qed.

Lemma lex_step_sep r l t rest sep x : separates sep → lex_step r l = Ok (t, rest) →
  lex_step r (l ++ sep :: x) = Ok (t, rest ++ sep :: x).
Proof using.
  unfold lex_step. intros (Hword & Hletter & Heq) E.
  destruct (is_space r); [by simplify_eq|].
  destruct (is_punct r); [by simplify_eq|].
  destruct ((r =? r_eq) || (r =? r_tilde)); [by simplify_eq|].
  destruct ((r =? r_bang) || (r =? r_lt) || (r =? r_gt)).
  { destruct l as [|r' l']; cbn [app].
    - rewrite Heq. destruct (r =? r_bang); by simplify_eq.
    - destruct (r' =? r_eq); [by simplify_eq|]. destruct (r =? r_bang); by simplify_eq. }
  destruct ((r =? r_quote) || (r =? r_dquote)).
  { destruct (scan_string r l) as [[body b]|] eqn:Es; [|done]. simplify_eq.
    by rewrite (scan_string_app _ _ _ _ _ Es). }
  destruct (r =? r_slash).
  { destruct (scan_pattern l) as [[body b]|] eqn:Es; [|done].
    rewrite (scan_pattern_app _ _ _ _ Es).
    destruct (span is_letter b) as [flags b'] eqn:Ef.
    rewrite (span_stop _ _ _ _ _ _ Ef Hletter).
    repeat case_match; by simplify_eq. }
  destruct (isWordRune r) eqn:Ew; [|done].
  destruct (span isWordRune (r :: l)) as [w b] eqn:Es. simplify_eq.
  change (r :: l ++ sep :: x) with ((r :: l) ++ sep :: x).
  by rewrite (span_stop _ _ _ _ _ _ Es Hword).
Qed.

(** What is read before a separator does not depend on what follows. *)
Lemma lex_runes_sep sep l ts x : separates sep → lex_runes l = Ok ts →
  lex_runes (l ++ sep :: x) =
  match lex_runes (sep :: x) with Ok us => Ok (ts ++ us) | Err e => Err e end.
Proof using.
  intros Hsep. remember (length l) as n eqn:Hn. revert l ts Hn.
  induction n as [n IH] using (well_founded_induction lt_wf). intros l ts -> E.
  destruct l as [|r l].
  { change (Ok [] = @Ok condError _ ts) in E. simplify_eq. cbn [app].
    by destruct (lex_runes (sep :: x)). }
  rewrite lex_runes_cons in E. cbn [app]. rewrite (lex_runes_cons r).
  destruct (lex_step r l) as [[t rest]|e] eqn:Es; [|done].
  rewrite (lex_step_sep _ _ _ _ _ x Hsep Es). pose proof (lex_step_length _ _ _ _ Es).
  destruct (lex_runes rest) as [us|e] eqn:Er; [|done]. simplify_eq.
  rewrite (IH (length rest) ltac:(cbn; lia) rest us eq_refl Er).
  destruct (lex_runes (sep :: x)); [|done]. by destruct t.
Qed.

Lemma lex_runes_app l ts x : lex_runes l = Ok ts →
  lex_runes (l ++ r_rparen :: x) =
  match lex_runes (r_rparen :: x) with Ok us => Ok (ts ++ us) | Err e => Err e end.
Proof using UA. apply lex_runes_sep, rparen_separates. Qed.

End lexer_facts.

(** ** The parser is total *)

(** [consumes ts r]: a result of reading [ts] that read at least one token, or
    an error that is not lack of fuel. *)
Definition consumes {A} (ts : list condToken) (r : result condError (A * list condToken)) : Prop :=
  match r with Ok (_, ts') => (length ts' < length ts)%nat | Err e => e ≠ OutOfFuel end.
(** The same without the promise to have read anything. *)
Definition reads {A} (ts : list condToken) (r : result condError (A * list condToken)) : Prop :=
  match r with Ok (_, ts') => (length ts' <= length ts)%nat | Err e => e ≠ OutOfFuel end.

(** Read the next token of a list whose head is known. *)
Ltac tok := cbn [next peek head tail from_option id].
Ltac bindsimpl := cbn [mbind result_bind].

Section parser_facts.
Context `{U : Unicode} `{R : Regexp} (scope : condScope).

Lemma expect_spec x ts : x ≠ "end" →
  match expect x ts with
  | Ok ts' => ∃ t, ts = t :: ts' ∧ tk_text t = x ∧ tk_kind t ≠ stringToken
  | Err e => e ≠ OutOfFuel
  end.
Proof.
  intros Hx. unfold expect. destruct ts as [|t ts]; tok.
  - destruct (_ || _) eqn:E; [done|].
    apply orb_false_iff in E as [E%negb_false_iff%eqs_true _]. done.
  - destruct (_ || _) eqn:E; [done|].
    apply orb_false_iff in E as [E1%negb_false_iff%eqs_true E2].
    exists t. split_and!; [done..|]. by destruct t as [[] ?].
Qed.

(** A token taken where something other than the end is required. *)
Lemma p_value_spec ts :
  match p_value ts with
  | Ok (v, ts') => ∃ t, ts = t :: ts' ∧ tk_text t = v
  | Err e => e ≠ OutOfFuel
  end.
Proof. unfold p_value. destruct ts as [|t ts]; tok; [done|]. case_if; [done|eauto]. Qed.

Lemma p_call_consumes ts : consumes ts (p_call ts).
Proof.
  unfold p_call. pose proof (expect_spec "(" ts) as H1.
  destruct (expect "(" ts) as [ts1|e]; bindsimpl; [|by apply H1].
  destruct H1 as (t1 & -> & _); [done|].
  destruct ts1 as [|t2 ts1]; tok; [done|]. case_if; [done|].
  pose proof (expect_spec ")" ts1) as H3.
  destruct (expect ")" ts1) as [ts2|e]; bindsimpl; [|by apply H3].
  destruct H3 as (t3 & -> & _); [done|]. cbn. lia.
Qed.

Lemma p_number_consumes f o ts : consumes ts (p_number f o ts).
Proof.
  unfold p_number. case_if; [done|]. destruct ts as [|t ts]; tok.
  - by destruct (Atoi _).
  - destruct (Atoi _); [|done]. case_if; [|done]. cbn. lia.
Qed.

Lemma p_values_consumes fuel ts : (length ts < fuel)%nat → consumes ts (p_values fuel ts).
Proof.
  revert ts. induction fuel as [|fuel IH]; intros ts Hf; [lia|]. cbn [p_values].
  pose proof (p_value_spec ts) as H1. destruct (p_value ts) as [[v ts1]|e]; bindsimpl; [|done].
  destruct H1 as (t1 & -> & _). case_if.
  - destruct ts1; cbn; lia.
  - pose proof (expect_spec "," ts1) as H2.
    destruct (expect "," ts1) as [ts2|e]; bindsimpl; [|by apply H2].
    destruct H2 as (t2 & -> & _); [done|]. cbn in Hf.
    specialize (IH ts2 ltac:(lia)). destruct (p_values fuel ts2) as [[vs ts3]|e]; cbn in *; lia || done.
Qed.

Lemma p_text_consumes f o ts : consumes ts (p_text f o ts).
Proof.
  unfold p_text. case_if.
  - destruct ts as [|t ts]; tok; [done|]. repeat case_if; cbn; done || lia.
  - case_if.
    + pose proof (expect_spec "[" ts) as H2.
      destruct (expect "[" ts) as [ts2|e]; bindsimpl; [|by apply H2].
      destruct H2 as (t2 & -> & _); [done|].
      pose proof (p_values_consumes (S (length ts2)) ts2 ltac:(lia)) as H3.
      destruct (p_values (S (length ts2)) ts2) as [[vs ts3]|e]; cbn in *; lia || done.
    + case_if; [|done]. pose proof (p_value_spec ts) as H3.
      destruct (p_value ts) as [[v ts1]|e]; bindsimpl; [|done]. destruct H3 as (t & -> & _). cbn. lia.
Qed.

Lemma consumes_cons {A} t ts (r : result condError (A * list condToken)) :
  consumes ts r → consumes (t :: ts) r.
Proof. destruct r as [[a ts']|e]; cbn; [lia|done]. Qed.

Lemma p_predicate_consumes ts : consumes ts (p_predicate scope ts).
Proof.
  unfold p_predicate. destruct ts as [|t ts]; tok; [done|].
  destruct (negb (is_kind wordToken t)); [done|]. case_if.
  - pose proof (p_call_consumes ts) as Hc. destruct (p_call ts) as [[n ts1]|e]; cbn in *; [|done].
    repeat case_if; cbn; done || lia.
  - case_if.
    + destruct ts as [|t2 ts]; tok; repeat case_if; cbn; done || lia.
    + destruct (condFields !! _) as [[k sc]|]; [|done].
      case_if; [done|]. case_if; [cbn; lia|].
      destruct ts as [|t2 ts]; tok; [done|].
      case_if; [done|]. case_if; do 2 apply consumes_cons;
        [apply p_number_consumes|apply p_text_consumes].
Qed.

Lemma keyword_cons w ts : keyword w ts = true → ∃ t ts', ts = t :: ts'.
Proof. destruct ts; [|eauto]. unfold keyword. cbn. done. Qed.

Lemma punct_cons p ts : p ≠ "end" → is_punct_text p (peek ts) = true → ∃ t ts', ts = t :: ts'.
Proof.
  destruct ts; [|eauto]. unfold is_punct_text, peek. cbn. intros Hp H.
  apply eqs_true in H. done.
Qed.

(** The equations of the mutual recursion. *)
Lemma p_or_S fuel d ts : p_or scope (S fuel) d ts =
  if maxConditionDepth <? d then Err NestedTooDeep
  else '(first, ts) ← p_and scope fuel d ts;
       '(items, ts) ← p_ors scope fuel d ts;
       Ok (match items with [] => first | _ => orNode (first :: items) end, ts).
Proof. reflexivity. Qed.
Lemma p_ors_S fuel d ts : p_ors scope (S fuel) d ts =
  if keyword "or" ts then
    '(item, ts) ← p_and scope fuel d (tail ts);
    '(items, ts) ← p_ors scope fuel d ts;
    Ok (item :: items, ts)
  else Ok ([], ts).
Proof. reflexivity. Qed.
Lemma p_and_S fuel d ts : p_and scope (S fuel) d ts =
  '(first, ts) ← p_unary scope fuel d ts;
  '(items, ts) ← p_ands scope fuel d ts;
  Ok (match items with [] => first | _ => andNode (first :: items) end, ts).
Proof. reflexivity. Qed.
Lemma p_ands_S fuel d ts : p_ands scope (S fuel) d ts =
  if keyword "and" ts then
    '(item, ts) ← p_unary scope fuel d (tail ts);
    '(items, ts) ← p_ands scope fuel d ts;
    Ok (item :: items, ts)
  else Ok ([], ts).
Proof. reflexivity. Qed.
Lemma p_unary_S fuel d ts : p_unary scope (S fuel) d ts =
  if keyword "not" ts then
    '(item, ts) ← p_unary scope fuel (d + 1) (tail ts); Ok (notNode item, ts)
  else if is_punct_text "(" (peek ts) then
    '(item, ts) ← p_or scope fuel (d + 1) (tail ts);
    ts ← expect ")" ts; Ok (item, ts)
  else p_predicate scope ts.
Proof. reflexivity. Qed.

Lemma parser_total fuel :
  (∀ d ts, (4 * length ts + 3 <= fuel)%nat → consumes ts (p_or scope fuel d ts)) ∧
  (∀ d ts, (4 * length ts + 1 <= fuel)%nat → reads ts (p_ors scope fuel d ts)) ∧
  (∀ d ts, (4 * length ts + 2 <= fuel)%nat → consumes ts (p_and scope fuel d ts)) ∧
  (∀ d ts, (4 * length ts + 1 <= fuel)%nat → reads ts (p_ands scope fuel d ts)) ∧
  (∀ d ts, (4 * length ts + 1 <= fuel)%nat → consumes ts (p_unary scope fuel d ts)).
Proof.
  induction fuel as [|fuel (IHor & IHors & IHand & IHands & IHun)]; [repeat split; intros; lia|].
  repeat split; intros d ts Hf;
    rewrite ?p_or_S, ?p_ors_S, ?p_and_S, ?p_ands_S, ?p_unary_S.
  - case_if; [done|]. specialize (IHand d ts ltac:(lia)).
    destruct (p_and scope fuel d ts) as [[n ts1]|e]; bindsimpl; [|done]; cbn [consumes reads] in *.
    specialize (IHors d ts1 ltac:(lia)).
    destruct (p_ors scope fuel d ts1) as [[ns ts2]|e]; bindsimpl; cbn in *; [lia|done].
  - case_if; [|cbn; lia]. destruct (keyword_cons "or" ts) as (t & ts1 & ->); [done|]. cbn in Hf; cbn [tail].
    specialize (IHand d ts1 ltac:(lia)).
    destruct (p_and scope fuel d ts1) as [[n ts2]|e]; bindsimpl; [|done]; cbn [consumes reads] in *.
    specialize (IHors d ts2 ltac:(lia)).
    destruct (p_ors scope fuel d ts2) as [[ns ts3]|e]; bindsimpl; cbn in *; [lia|done].
  - specialize (IHun d ts ltac:(lia)).
    destruct (p_unary scope fuel d ts) as [[n ts1]|e]; bindsimpl; [|done]; cbn [consumes reads] in *.
    specialize (IHands d ts1 ltac:(lia)).
    destruct (p_ands scope fuel d ts1) as [[ns ts2]|e]; bindsimpl; cbn in *; [lia|done].
  - case_if; [|cbn; lia]. destruct (keyword_cons "and" ts) as (t & ts1 & ->); [done|]. cbn in Hf; cbn [tail].
    specialize (IHun d ts1 ltac:(lia)).
    destruct (p_unary scope fuel d ts1) as [[n ts2]|e]; bindsimpl; [|done]; cbn [consumes reads] in *.
    specialize (IHands d ts2 ltac:(lia)).
    destruct (p_ands scope fuel d ts2) as [[ns ts3]|e]; bindsimpl; cbn in *; [lia|done].
  - case_if.
    { destruct (keyword_cons "not" ts) as (t & ts1 & ->); [done|]. cbn in Hf; cbn [tail].
      specialize (IHun (d + 1) ts1 ltac:(lia)).
      destruct (p_unary scope fuel (d + 1) ts1) as [[n ts2]|e]; bindsimpl; cbn in *; [lia|done]. }
    case_if; [|apply p_predicate_consumes].
    destruct (punct_cons "(" ts) as (t & ts1 & ->); [done..|]. cbn in Hf; cbn [tail].
    specialize (IHor (d + 1) ts1 ltac:(lia)).
    destruct (p_or scope fuel (d + 1) ts1) as [[n ts2]|e]; bindsimpl; [|done]; cbn [consumes reads] in *.
    pose proof (expect_spec ")" ts2) as H3.
    destruct (expect ")" ts2) as [ts3|e]; bindsimpl; [|by apply H3].
    destruct H3 as (t3 & -> & _); [done|]. cbn in *. lia.
Qed.

Lemma parse_tokens_total ts : parse_tokens scope ts ≠ Err OutOfFuel.
Proof.
  unfold parse_tokens, parse_fuel.
  destruct (parser_total (4 * length ts + 8)) as (Hor & _). specialize (Hor 0 ts ltac:(lia)).
  destruct (p_or scope (4 * length ts + 8) 0 ts) as [[n [|t ts1]]|e]; cbn in *; [done|done|congruence].
Qed.

Lemma parseCond_no_fuel text : parseCond scope text ≠ Err OutOfFuel.
Proof.
  unfold parseCond. case_if; [done|]. case_if; [done|].
  pose proof (lex_runes_total (decode (TrimSpace text))) as Hl. unfold lexCond.
  destruct (lex_runes _) as [ts|e]; bindsimpl; [|congruence].
  pose proof (parse_tokens_total ts). destruct (parse_tokens scope ts); bindsimpl; congruence.
Qed.
End parser_facts.

(** ** The shape of a parsed condition *)

Section shape.
Context `{U : Unicode} `{R : Regexp} (scope : condScope).

Definition in_scope (sc : fieldScope) : Prop := is_Some (cs_diags scope) → sc = netField.

(** What the parser promises of every node: names are in scope, a network
    condition reads no node, and operators have the operands [eval] reads. *)
Definition node_wf (n : condNode) : Prop :=
  match n with
  | andNode items | orNode items => (2 <= length items)%nat
  | notNode _ => True
  | boolNode f => ∃ sc, condFields !! f = Some (boolField, sc) ∧ in_scope sc
  | tagNode t => scope_tag scope t = true ∧ cs_diags scope = None
  | checkNode c _ => c ∈ cs_checks scope ∧ cs_diags scope = None
  | diagNode d _ => scope_diag scope d = true
  | stringNode f op vs re =>
      (∃ k sc, condFields !! f = Some (k, sc) ∧ k ≠ boolField ∧ k ≠ numberField ∧ in_scope sc) ∧
      (op = "~" ∧ vs = [] ∧ (∃ p, re = Some p ∧ re_compiles p = true) ∨
       op ∈ ["="; "!="; "in"] ∧ vs ≠ [] ∧ re = None)
  | numberNode op v => op ∈ ["="; "!="; "<"; "<="; ">"; ">="] ∧ in64 v ∧ cs_diags scope = None
  end.

Definition cond_wf (n : condNode) : Prop := Forall node_wf (walk_node n).

Lemma Atoi_range s v : Atoi s = Some v → in64 v.
Proof.
  unfold Atoi. intros E. repeat case_match; simplify_eq; bools; unfold in64;
    repeat match goal with H : _ && _ = true |- _ => apply andb_true_iff in H as [??] end; bools; tauto.
Qed.

Lemma p_values_ne fuel ts vs ts' : p_values fuel ts = Ok (vs, ts') → vs ≠ [].
Proof.
  destruct fuel; [done|]. cbn [p_values]. intros ([v ts1] & _ & E)%result_bind_Ok.
  case_if_in E; [by simplify_eq|].
  apply result_bind_Ok in E as (ts2 & _ & ([ws ts3] & _ & E)%result_bind_Ok). by simplify_eq.
Qed.

Lemma cond_wf_leaf n : walk_node n = [n] → node_wf n → cond_wf n.
Proof. intros E H. unfold cond_wf. rewrite E. by constructor. Qed.

Lemma p_text_wf f op ts n ts' k sc :
  condFields !! f = Some (k, sc) → k ≠ boolField → k ≠ numberField → in_scope sc →
  p_text f op ts = Ok (n, ts') → cond_wf n.
Proof.
  intros Hf Hk1 Hk2 Hsc. unfold p_text. case_if.
  { tok. intros E'. repeat case_if_in E'; simplify_eq. apply cond_wf_leaf; [done|].
    split; [by eauto 10|]. left. apply eqs_true in E. apply negb_false_iff in E2. naive_solver. }
  case_if.
  { intros (ts1 & _ & ([vs ts2] & Hvs & E')%result_bind_Ok)%result_bind_Ok. simplify_eq.
    apply cond_wf_leaf; [done|]. split; [by eauto 10|]. right. apply eqs_true in E0 as ->.
    split_and!; [set_solver|by eapply p_values_ne|done]. }
  case_if; [|done]. intros ([v ts1] & _ & E')%result_bind_Ok. simplify_eq.
  apply cond_wf_leaf; [done|]. split; [by eauto 10|]. right.
  apply orb_true_iff in E1 as [->%eqs_true| ->%eqs_true]; set_solver.
Qed.

Lemma p_predicate_wf ts n ts' : p_predicate scope ts = Ok (n, ts') → cond_wf n.
Proof.
  unfold p_predicate. tok. intros E. case_if_in E; [done|].
  case_if_in E.
  { apply result_bind_Ok in E as ([name ts1] & _ & E).
    assert (Hdiag : ∀ b, b || bool_decide (is_Some (cs_diags scope)) = false → cs_diags scope = None).
    { intros b [_ Hb]%orb_false_iff. rewrite bool_decide_eq_false in Hb. by apply eq_None_not_Some. }
    case_if_in E; case_if_in E; try done; [case_if_in E; [done|]|]; simplify_eq; apply cond_wf_leaf; try done.
    - split; [by apply negb_false_iff|by eapply Hdiag].
    - split; [|by eapply Hdiag]. apply orb_false_iff in E3 as [E3 _].
      apply negb_false_iff, bool_decide_eq_true in E3. done. }
  case_if_in E.
  { repeat case_if_in E; simplify_eq; by apply cond_wf_leaf. }
  destruct (condFields !! ToLower (tk_text (peek ts))) as [[k sc]|] eqn:Ef; [|done].
  case_if_in E; [done|].
  assert (Hsc : in_scope sc).
  { intros Hd. rewrite bool_decide_eq_true_2 in E3 by done.
    by apply negb_false_iff, bool_decide_eq_true in E3. }
  case_if_in E; [simplify_eq; apply cond_wf_leaf; [done|]; apply bool_decide_eq_true in E4 as ->; by exists sc|].
  apply bool_decide_eq_false in E4. case_if_in E; [done|].
  case_if_in E; [|by apply bool_decide_eq_false in E6; eapply p_text_wf].
  apply bool_decide_eq_true in E6 as ->. unfold p_number in E. case_if_in E; [done|].
  revert E. tok. destruct (Atoi _) as [v|] eqn:Ev; [|done]. intros E. case_if_in E; [|done]. simplify_eq.
  apply cond_wf_leaf; [done|]. split_and!.
  - by apply negb_false_iff, bool_decide_eq_true in E6.
  - by eapply Atoi_range.
  - apply eq_None_not_Some. intros Hd. specialize (Hsc Hd) as ->.
    revert Ef. generalize (ToLower (tk_text (peek ts))). clear. intros f.
    unfold condFields. intros H%elem_of_list_to_map_2.
    repeat (apply elem_of_cons in H as [H|H]; [by simplify_eq|]). by apply elem_of_nil in H.
Qed.

Lemma cond_wf_items (mk : list condNode → condNode) first items :
  (mk = andNode ∨ mk = orNode) → cond_wf first → Forall cond_wf items →
  cond_wf (match items with [] => first | _ => mk (first :: items) end).
Proof.
  intros Hmk Hf Hi. destruct items as [|i items]; [done|].
  assert (Hw : Forall node_wf (concat (List.map walk_node (first :: i :: items)))).
  { apply Forall_concat, List.Forall_map. by constructor. }
  destruct Hmk as [->| ->]; constructor; cbn; done || lia.
Qed.

Lemma parser_wf fuel :
  (∀ d ts n ts', p_or scope fuel d ts = Ok (n, ts') → cond_wf n) ∧
  (∀ d ts ns ts', p_ors scope fuel d ts = Ok (ns, ts') → Forall cond_wf ns) ∧
  (∀ d ts n ts', p_and scope fuel d ts = Ok (n, ts') → cond_wf n) ∧
  (∀ d ts ns ts', p_ands scope fuel d ts = Ok (ns, ts') → Forall cond_wf ns) ∧
  (∀ d ts n ts', p_unary scope fuel d ts = Ok (n, ts') → cond_wf n).
Proof.
  induction fuel as [|fuel (IHor & IHors & IHand & IHands & IHun)]; [done|].
  split_and!; intros d ts n ts';
    rewrite ?p_or_S, ?p_ors_S, ?p_and_S, ?p_ands_S, ?p_unary_S.
  - case_if; [done|]. intros ([f ts1] & H1 & ([its ts2] & H2 & E')%result_bind_Ok)%result_bind_Ok.
    simplify_eq. apply cond_wf_items; eauto.
  - case_if; [|intros ?; by simplify_eq].
    intros ([f ts1] & H1 & ([its ts2] & H2 & E')%result_bind_Ok)%result_bind_Ok.
    simplify_eq. constructor; eauto.
  - intros ([f ts1] & H1 & ([its ts2] & H2 & E')%result_bind_Ok)%result_bind_Ok.
    simplify_eq. apply cond_wf_items; eauto.
  - case_if; [|intros ?; by simplify_eq].
    intros ([f ts1] & H1 & ([its ts2] & H2 & E')%result_bind_Ok)%result_bind_Ok.
    simplify_eq. constructor; eauto.
  - case_if.
    { intros ([f ts1] & H1 & E')%result_bind_Ok. simplify_eq. constructor; [done|]. by eapply IHun. }
    case_if; [|apply p_predicate_wf].
    intros ([f ts1] & H1 & (ts2 & H2 & E')%result_bind_Ok)%result_bind_Ok. simplify_eq. eauto.
Qed.

Lemma parseCond_Some text c : parseCond scope text = Ok (Some c) →
  ∃ ts, lexCond (TrimSpace text) = Ok ts ∧ parse_tokens scope ts = Ok (cd_root c).
Proof.
  unfold parseCond. case_if; [done|]. case_if; [done|].
  intros (ts & H1 & (root & H2 & E')%result_bind_Ok)%result_bind_Ok. simplify_eq. eauto.
Qed.

Lemma parse_tokens_Ok ts n : parse_tokens scope ts = Ok n ↔ p_or scope (parse_fuel ts) 0 ts = Ok (n, []).
Proof.
  unfold parse_tokens. rewrite result_bind_Ok. split.
  - intros ([root [|t rest]] & H1 & E'); by simplify_eq.
  - intros H. eexists. by split; [apply H|].
Qed.

Lemma parseCond_wf_root text c : parseCond scope text = Ok (Some c) → cond_wf (cd_root c).
Proof.
  intros (ts & _ & H%parse_tokens_Ok)%parseCond_Some.
  destruct (parser_wf (parse_fuel ts)) as (Hor & _). by eapply Hor.
Qed.
End shape.

(** ** Parsing a text inside parentheses *)

Section embed.
Context `{U : Unicode} `{R : Regexp} (scope : condScope).

(** Tokens that end the condition before them: nothing, or a closing
    parenthesis. *)
Definition stops (rest : list condToken) : Prop :=
  match rest with [] => True | t :: _ => tk_kind t = punctToken ∧ tk_text t = ")" end.

Lemma keyword_stop w ts rest : stops rest → keyword w (ts ++ rest) = keyword w ts.
Proof.
  destruct ts; [|done]. destruct rest as [|[k x] rest]; [done|]. cbn. by intros [-> ->].
Qed.

Lemma punct_stop p ts rest : stops rest → p ≠ ")" → p ≠ "end" →
  is_punct_text p (peek (ts ++ rest)) = is_punct_text p (peek ts).
Proof.
  destruct ts; [|done]. destruct rest as [|[k x] rest]; [done|]. cbn. intros [-> ->] H1 H2.
  unfold is_punct_text, peek. cbn. unfold eqs. by rewrite !bool_decide_eq_false_2 by done.
Qed.

Lemma expect_app x ts ts' rest : expect x ts = Ok ts' → x ≠ "end" → expect x (ts ++ rest) = Ok (ts' ++ rest).
Proof.
  intros E Hx. pose proof (expect_spec x ts Hx) as H. rewrite E in H.
  destruct H as (t & -> & _). revert E. unfold expect. tok. cbn [app]. tok. case_if; by intros ?; simplify_eq.
Qed.

Lemma p_value_app ts v ts' rest : p_value ts = Ok (v, ts') → p_value (ts ++ rest) = Ok (v, ts' ++ rest).
Proof. destruct ts; [done|]. unfold p_value. cbn [app]. tok. case_if; by intros ?; simplify_eq. Qed.

Lemma p_call_app ts v ts' rest : p_call ts = Ok (v, ts') → p_call (ts ++ rest) = Ok (v, ts' ++ rest).
Proof.
  unfold p_call. intros (ts1 & H1 & E)%result_bind_Ok.
  rewrite (expect_app _ _ _ rest H1 ltac:(done)). bindsimpl.
  destruct ts1 as [|t ts1]; [done|]. cbn [app]. revert E. tok. case_if; [done|].
  intros (ts2 & H2 & E')%result_bind_Ok. rewrite (expect_app _ _ _ rest H2 ltac:(done)). by simplify_eq.
Qed.

Lemma p_number_app f o ts n ts' rest :
  p_number f o ts = Ok (n, ts') → p_number f o (ts ++ rest) = Ok (n, ts' ++ rest).
Proof.
  unfold p_number. case_if; [done|]. destruct ts as [|t ts]; cbn [app]; tok.
  { by destruct (Atoi _). }
  destruct (Atoi _); [|done]. case_if; by intros ?; simplify_eq.
Qed.

Lemma p_values_app fuel fuel' ts vs ts' rest : stops rest → (fuel <= fuel')%nat →
  p_values fuel ts = Ok (vs, ts') → p_values fuel' (ts ++ rest) = Ok (vs, ts' ++ rest).
Proof.
  intros Hr. revert fuel' ts vs. induction fuel as [|fuel IH]; intros fuel' ts vs Hf; [done|].
  destruct fuel' as [|fuel']; [lia|]. cbn [p_values]. intros ([v ts1] & H1 & E)%result_bind_Ok.
  rewrite (p_value_app _ _ _ rest H1). bindsimpl. rewrite punct_stop by done.
  case_if_in E.
  - simplify_eq. destruct (punct_cons "]" ts1) as (t & ts2 & ->); [done..|]. done.
  - apply result_bind_Ok in E as (ts2 & H2 & ([ws ts3] & H3 & E)%result_bind_Ok).
    rewrite (expect_app _ _ _ rest H2 ltac:(done)). bindsimpl.
    rewrite (IH fuel' ts2 ws ltac:(lia)) by (by simplify_eq). bindsimpl. by simplify_eq.
Qed.

Lemma p_text_app f o ts n ts' rest : stops rest →
  p_text f o ts = Ok (n, ts') → p_text f o (ts ++ rest) = Ok (n, ts' ++ rest).
Proof.
  intros Hr. unfold p_text. case_if.
  { destruct ts as [|t ts]; [done|]. cbn [app]. tok. intros E'. repeat case_if_in E'; by simplify_eq. }
  case_if.
  { intros (ts1 & H1 & ([vs ts2] & H2 & E')%result_bind_Ok)%result_bind_Ok. simplify_eq.
    rewrite (expect_app _ _ _ rest H1 ltac:(done)). bindsimpl.
    by rewrite (p_values_app (S (length ts1)) (S (length (ts1 ++ rest))) ts1 vs ts' rest Hr
      ltac:(rewrite length_app; lia) H2). }
  case_if; [|done]. intros ([v ts1] & H1 & E')%result_bind_Ok. simplify_eq.
  by rewrite (p_value_app _ _ _ rest H1).
Qed.

Lemma p_predicate_app ts n ts' rest : stops rest →
  p_predicate scope ts = Ok (n, ts') → p_predicate scope (ts ++ rest) = Ok (n, ts' ++ rest).
Proof.
  intros Hr. destruct ts as [|t ts]; [done|]. unfold p_predicate. cbn [app]. tok.
  case_if; [done|]. case_if.
  { intros ([name ts1] & H1 & E')%result_bind_Ok. rewrite (p_call_app _ _ _ rest H1). bindsimpl.
    revert E'. repeat case_if; intros E'; by simplify_eq. }
  case_if.
  { destruct ts as [|t2 ts]; cbn [app]; tok; repeat case_if; intros E'; by simplify_eq. }
  destruct (condFields !! _) as [[k sc]|]; [|done].
  case_if; [done|]. case_if; [intros E'; by simplify_eq|].
  destruct ts as [|t2 ts]; cbn [app]; tok; [done|].
  case_if; [done|]. case_if; [apply p_number_app|by apply p_text_app].
Qed.

(** More tokens behind a closing parenthesis, more fuel and a smaller depth
    change no successful parse. *)
Lemma parser_app fuel :
  (∀ fuel' d d' ts n ts' rest, stops rest → (fuel <= fuel')%nat → d' <= d →
     p_or scope fuel d ts = Ok (n, ts') → p_or scope fuel' d' (ts ++ rest) = Ok (n, ts' ++ rest)) ∧
  (∀ fuel' d d' ts n ts' rest, stops rest → (fuel <= fuel')%nat → d' <= d →
     p_ors scope fuel d ts = Ok (n, ts') → p_ors scope fuel' d' (ts ++ rest) = Ok (n, ts' ++ rest)) ∧
  (∀ fuel' d d' ts n ts' rest, stops rest → (fuel <= fuel')%nat → d' <= d →
     p_and scope fuel d ts = Ok (n, ts') → p_and scope fuel' d' (ts ++ rest) = Ok (n, ts' ++ rest)) ∧
  (∀ fuel' d d' ts n ts' rest, stops rest → (fuel <= fuel')%nat → d' <= d →
     p_ands scope fuel d ts = Ok (n, ts') → p_ands scope fuel' d' (ts ++ rest) = Ok (n, ts' ++ rest)) ∧
  (∀ fuel' d d' ts n ts' rest, stops rest → (fuel <= fuel')%nat → d' <= d →
     p_unary scope fuel d ts = Ok (n, ts') → p_unary scope fuel' d' (ts ++ rest) = Ok (n, ts' ++ rest)).
Proof.
  induction fuel as [|fuel (IHor & IHors & IHand & IHands & IHun)]; [done|].
  split_and!; intros [|fuel'] d d' ts n ts' rest Hr Hf Hd; try lia;
    rewrite ?p_or_S, ?p_ors_S, ?p_and_S, ?p_ands_S, ?p_unary_S, ?keyword_stop by done.
  - case_if; [done|]. rewrite (proj2 (Z.ltb_ge maxConditionDepth d')) by (bools; lia).
    intros ([f ts1] & H1 & ([its ts2] & H2 & E')%result_bind_Ok)%result_bind_Ok.
    rewrite (IHand fuel' d d' _ _ _ rest Hr ltac:(lia) Hd H1). bindsimpl.
    rewrite (IHors fuel' d d' _ _ _ rest Hr ltac:(lia) Hd H2). by simplify_eq.
  - case_if; [|intros ?; by simplify_eq]. destruct (keyword_cons "or" ts) as (t & ts0 & ->); [done|].
    cbn [tail app]. intros ([f ts1] & H1 & ([its ts2] & H2 & E')%result_bind_Ok)%result_bind_Ok.
    rewrite (IHand fuel' d d' _ _ _ rest Hr ltac:(lia) Hd H1). bindsimpl.
    rewrite (IHors fuel' d d' _ _ _ rest Hr ltac:(lia) Hd H2). by simplify_eq.
  - intros ([f ts1] & H1 & ([its ts2] & H2 & E')%result_bind_Ok)%result_bind_Ok.
    rewrite (IHun fuel' d d' _ _ _ rest Hr ltac:(lia) Hd H1). bindsimpl.
    rewrite (IHands fuel' d d' _ _ _ rest Hr ltac:(lia) Hd H2). by simplify_eq.
  - case_if; [|intros ?; by simplify_eq]. destruct (keyword_cons "and" ts) as (t & ts0 & ->); [done|].
    cbn [tail app]. intros ([f ts1] & H1 & ([its ts2] & H2 & E')%result_bind_Ok)%result_bind_Ok.
    rewrite (IHun fuel' d d' _ _ _ rest Hr ltac:(lia) Hd H1). bindsimpl.
    rewrite (IHands fuel' d d' _ _ _ rest Hr ltac:(lia) Hd H2). by simplify_eq.
  - case_if.
    { destruct (keyword_cons "not" ts) as (t & ts0 & ->); [done|]. cbn [tail app].
      intros ([f ts1] & H1 & E')%result_bind_Ok.
      rewrite (IHun fuel' (d + 1) (d' + 1) _ _ _ rest Hr ltac:(lia) ltac:(lia) H1). by simplify_eq. }
    rewrite punct_stop by done. case_if; [|by apply p_predicate_app].
    destruct (punct_cons "(" ts) as (t & ts0 & ->); [done..|]. cbn [tail app].
    intros ([f ts1] & H1 & (ts2 & H2 & E')%result_bind_Ok)%result_bind_Ok.
    rewrite (IHor fuel' (d + 1) (d' + 1) _ _ _ rest Hr ltac:(lia) ltac:(lia) H1). bindsimpl.
    rewrite (expect_app _ _ _ rest H2 ltac:(done)). by simplify_eq.
Qed.

Definition punct (x : string) : condToken := {| tk_kind := punctToken; tk_text := x |}.
Definition word (x : string) : condToken := {| tk_kind := wordToken; tk_text := x |}.
Definition group (ts : list condToken) : list condToken := punct "(" :: ts ++ [punct ")"].

(** What [( ts )] followed by [rest] parses to, when [ts] parses on its own
    and the nesting allows it. *)
Lemma p_unary_group fuel d ts A rest n out :
  parse_tokens scope ts = Ok A → 0 <= d + 1 →
  p_unary scope fuel d (group ts ++ rest) = Ok (n, out) → n = A ∧ out = rest.
Proof.
  intros HA%parse_tokens_Ok Hd. destruct fuel as [|fuel]; [done|]. rewrite p_unary_S.
  change (keyword "not" (group ts ++ rest)) with false.
  change (is_punct_text "(" (peek (group ts ++ rest))) with true.
  unfold group. cbn [app tail]. rewrite <- app_assoc. cbn [app].
  intros ([m ts1] & H1 & (ts2 & H2 & E)%result_bind_Ok)%result_bind_Ok.
  pose (big := (fuel + parse_fuel ts)%nat). pose (tl := punct ")" :: rest).
  assert (Hs : stops tl) by done.
  destruct (parser_app (parse_fuel ts)) as (Hor & _).
  pose proof (Hor big 0 0 ts A [] tl Hs ltac:(lia) ltac:(lia) HA) as G1.
  destruct (parser_app fuel) as (Hor2 & _).
  pose proof (Hor2 big (d + 1) 0 _ _ _ [] I ltac:(lia) Hd H1) as G2.
  rewrite app_nil_r in G2. fold tl in G2. rewrite G1 in G2. cbn [app] in G2.
  injection G2 as -> G3. rewrite app_nil_r in G3. subst ts1.
  change (expect ")" tl) with (Ok (E := condError) rest) in H2. by simplify_eq.
Qed.

Lemma p_ands_nil fuel d : p_ands scope (S fuel) d [] = Ok ([], []).
Proof. rewrite p_ands_S. by change (keyword "and" []) with false. Qed.

Lemma p_ors_nil fuel d : p_ors scope (S fuel) d [] = Ok ([], []).
Proof. rewrite p_ors_S. by change (keyword "or" []) with false. Qed.

Lemma keyword_word w ts : keyword w (word w :: ts) = true.
Proof. apply (EqualFold_refl w). Qed.

(** Two groups joined by a keyword. *)
Lemma parse_join_and ts us A B n :
  parse_tokens scope ts = Ok A → parse_tokens scope us = Ok B →
  parse_tokens scope (group ts ++ word "and" :: group us) = Ok n → n = andNode [A; B].
Proof.
  intros HA HB Hn%parse_tokens_Ok. revert Hn. generalize (parse_fuel (group ts ++ word "and" :: group us)).
  intros [|fuel]; [done|]. rewrite p_or_S. case_if; [done|].
  intros ([f ts1] & H1 & ([its ts2] & H2 & E')%result_bind_Ok)%result_bind_Ok.
  destruct fuel as [|fuel]; [done|]. rewrite p_and_S in H1.
  apply result_bind_Ok in H1 as ([f0 ts3] & H3 & ([its0 ts4] & H4 & E1)%result_bind_Ok).
  apply (p_unary_group _ _ _ A) in H3 as [-> ->]; [|done|lia].
  destruct fuel as [|fuel]; [done|]. rewrite p_ands_S in H4.
  rewrite keyword_word in H4.
  cbn [tail] in H4. apply result_bind_Ok in H4 as ([i ts5] & H5 & ([its1 ts6] & H6 & E2)%result_bind_Ok).
  rewrite <- (app_nil_r (group us)) in H5.
  apply (p_unary_group _ _ _ B) in H5 as [-> ->]; [|done|lia].
  destruct fuel as [|fuel]; [done|]. rewrite p_ands_nil in H6. simplify_eq.
  rewrite p_ors_nil in H2. by simplify_eq.
Qed.

Lemma parse_join_or ts us A B n : EqualFold "or" "and" = false →
  parse_tokens scope ts = Ok A → parse_tokens scope us = Ok B →
  parse_tokens scope (group ts ++ word "or" :: group us) = Ok n → n = orNode [A; B].
Proof.
  intros Hor HA HB Hn%parse_tokens_Ok. revert Hn. generalize (parse_fuel (group ts ++ word "or" :: group us)).
  intros [|fuel]; [done|]. rewrite p_or_S. case_if; [done|].
  intros ([f ts1] & H1 & ([its ts2] & H2 & E')%result_bind_Ok)%result_bind_Ok.
  destruct fuel as [|fuel]; [done|]. rewrite p_and_S in H1.
  apply result_bind_Ok in H1 as ([f0 ts3] & H3 & ([its0 ts4] & H4 & E1)%result_bind_Ok).
  apply (p_unary_group _ _ _ A) in H3 as [-> ->]; [|done|lia].
  destruct fuel as [|fuel]; [done|]. rewrite p_ands_S in H4.
  change (keyword "and" (word "or" :: group us)) with (EqualFold "or" "and") in H4.
  rewrite Hor in H4.
  simplify_eq. rewrite p_ors_S in H2.
  rewrite keyword_word in H2.
  cbn [tail] in H2. apply result_bind_Ok in H2 as ([i ts5] & H5 & ([its1 ts6] & H6 & E2)%result_bind_Ok).
  rewrite p_and_S in H5.
  apply result_bind_Ok in H5 as ([f0 ts3] & H3 & ([its0 ts4] & H4 & E1)%result_bind_Ok).
  rewrite <- (app_nil_r (group us)) in H3.
  apply (p_unary_group _ _ _ B) in H3 as [-> ->]; [|done|lia].
  destruct fuel as [|fuel]; [done|]. rewrite p_ands_nil in H4. simplify_eq.
  rewrite p_ors_nil in H6. by simplify_eq.
Qed.
End embed.

(** ** What parsing promises *)

Section promise.
Context `{U : Unicode} `{R : Regexp} (scope : condScope).

(** C29: parsing is total and type-safe. Whatever the text, the lexer and the
    parser end by themselves, within the fuel the model gives them; and what
    they accept is well scoped: every tag, check and diagnostic it names is
    declared in the scope, a network condition reads nothing of a node, every
    comparison has an operator its field allows, numbers fit [int], patterns
    compile, and [and] and [or] join at least two conditions. A text is kept
    without its outer spaces, and a blank one is no condition. *)
Theorem parseCond_sound text :
  parseCond scope text ≠ Err OutOfFuel ∧
  (∀ c, parseCond scope text = Ok (Some c) →
     cd_Text c = TrimSpace text ∧ Forall (node_wf scope) (walk (Some c))) ∧
  (parseCond scope text = Ok None ↔ TrimSpace text = EmptyString).
Proof.
  split; [apply parseCond_no_fuel|]. split.
  - intros c Hc. split; [|by eapply parseCond_wf_root].
    revert Hc. unfold parseCond. do 2 (case_if; [done|]).
    intros (ts & _ & (root & _ & E')%result_bind_Ok)%result_bind_Ok. by simplify_eq.
  - unfold parseCond. split; [|intros ->; done].
    case_if; [intros _; by apply empty_true|]. case_if; [done|].
    intros (ts & _ & (root & _ & E')%result_bind_Ok)%result_bind_Ok. by simplify_eq.
Qed.
End promise.
