(* ===== verification/Evidence.v ===== *)
(** * What the engine knows: core/rcx/evidence.go

    Facts about one node on one network, the memory of a network
    (Environment), the exit countries of nodes and the store of all of them.
    A nil pointer in a Go map and an absent key are the same value here: no
    code of the package stores a nil pointer. *)

From S2P Require Import Prelude GoText Cond.

Definition maxSamples : nat := 8.
Definition maxEpisodes : nat := 16.
Definition maxEnvironments : nat := 16.
Definition episodeWindow : duration := 24 * Hour.
Definition sampleWindow : duration := 6 * Hour.
Definition dialFailWindow : duration := 20 * Second.
Definition suspectDialFails : nat := 3.
Definition baseFreshness : duration := 45 * Minute.
Definition stableFreshness : duration := 3 * Hour.
Definition stableNetwork : duration := 2 * Hour.
Definition checkWindow : duration := 6 * Hour.
Definition exitTTL : duration := 24 * Hour.
Definition exitRetry : duration := 2 * Hour.

Inductive Source := NoSource | TrafficSource | ProbeSource | TestSource.

Record Sample := { sm_At : time; sm_Ms : Z }.

(** ** Checks *)

Record CheckFact := {
  ck_At : time;
  ck_OK : bool;
  ck_Run : Z;
  ck_PassedAt : time;
  ck_Soft : bool;
}.

Definition no_check : CheckFact :=
  {| ck_At := zero_time; ck_OK := false; ck_Run := 0; ck_PassedAt := zero_time; ck_Soft := false |}.

Definition verdict (c : option CheckFact) (now : time) : tri :=
  match c with
  | None => triUnknown
  | Some c =>
      if checkWindow <? time_sub now (ck_At c) then triUnknown
      else if ck_OK c then triYes
      else if ck_Soft c then triNeither
      else if (ck_Run c <? 2) && negb (is_zero (ck_PassedAt c)) then triUnknown
      else triNo
  end.

(** The body of [noteCheck] on the check's own record. *)
Definition step_check (c : CheckFact) (at_ : time) (ok optional : bool) : CheckFact :=
  {| ck_Run := if (0 <? ck_Run c) && Bool.eqb (ck_OK c) ok then ck_Run c +i 1 else 1;
     ck_At := at_; ck_OK := ok; ck_Soft := negb ok && optional;
     ck_PassedAt := if ok then at_ else ck_PassedAt c |}.

(** ** Facts of a node *)

Record Facts := {
  fa_Samples : list Sample;
  fa_OKAt : time;
  fa_OKSource : Source;
  fa_FailAt : time;
  fa_FailRun : Z;
  fa_DeadAt : time;
  fa_Episodes : list time;
  fa_Checks : gmap string CheckFact;
  fa_dialFails : list time;
}.

(** [&Facts{}]. *)
Definition no_facts : Facts :=
  {| fa_Samples := []; fa_OKAt := zero_time; fa_OKSource := NoSource; fa_FailAt := zero_time;
     fa_FailRun := 0; fa_DeadAt := zero_time; fa_Episodes := []; fa_Checks := ∅;
     fa_dialFails := [] |}.

Definition noteCheck (f : Facts) (id : string) (at_ : time) (ok optional : bool) : Facts :=
  let c := default no_check (fa_Checks f !! id) in
  {| f with fa_Checks := <[id := step_check c at_ ok optional]> (fa_Checks f) |}.

Definition Dead (f : Facts) : bool :=
  negb (is_zero (fa_DeadAt f)) && negb (after (fa_OKAt f) (fa_DeadAt f)).

Definition AliveSince (f : Facts) (cutoff : time) : bool :=
  negb (Dead f) && after (fa_OKAt f) cutoff && negb (after (fa_FailAt f) (fa_OKAt f)).

(** The sample values [Latency] counts. *)
Definition recent_values (f : Facts) (now : time) : list Z :=
  sm_Ms <$> filter (λ s, (0 <? sm_Ms s) && (time_sub now (sm_At s) <? sampleWindow)) (fa_Samples f).

(** [(p50, spread, ok)]. *)
Definition Latency (f : Facts) (now : time) : Z * Z * bool :=
  let values := recent_values f now in
  if bool_decide (values = []) then (0, 0, false)
  else
    let values := sort_ints values in
    let len := length values in
    let p50 := values !!! (len / 2)%nat in
    let p90 := values !!! Nat.min (len - 1) (len * 9 / 10) in
    (p50, p90 -i p50, true).

Definition LastSampleAt (f : Facts) : time :=
  match last (fa_Samples f) with Some s => sm_At s | None => zero_time end.

Definition RecentEpisodes (f : Facts) (now : time) : Z :=
  Z.of_nat (length (filter (λ at_, time_sub now at_ <? episodeWindow) (fa_Episodes f))).

Definition noteOK (f : Facts) (at_ : time) (source : Source) : Facts :=
  let f := if after at_ (fa_OKAt f)
           then {| f with fa_OKAt := at_; fa_OKSource := source |} else f in
  {| f with fa_FailRun := 0; fa_dialFails := [] |}.

Definition noteSample (f : Facts) (at_ : time) (ms : Z) (source : Source) : Facts :=
  let f := noteOK f at_ source in
  {| f with fa_Samples := last_n maxSamples (fa_Samples f ++ [{| sm_At := at_; sm_Ms := ms |}]) |}.

Definition noteProbeFail (f : Facts) (at_ : time) : Facts :=
  {| f with fa_FailAt := at_; fa_FailRun := fa_FailRun f +i 1 |}.

Definition markDead (f : Facts) (at_ : time) : Facts :=
  if Dead f then f
  else {| f with fa_DeadAt := at_; fa_Episodes := last_n maxEpisodes (fa_Episodes f ++ [at_]) |}.

Definition noteDialFail (f : Facts) (at_ : time) : bool * Facts :=
  let kept := filter (λ t, time_sub at_ t <? dialFailWindow) (fa_dialFails f) in
  let fails := kept ++ [at_] in
  ((suspectDialFails <=? length fails)%nat && negb (after (fa_OKAt f) (hd zero_time fails)),
   {| f with fa_dialFails := fails |}).

(** ** Exits *)

Record ExitFact := { ex_Country : string; ex_At : time; ex_Sources : Z }.

Definition exit_country (x : option ExitFact) (now : time) : string :=
  match x with
  | None => EmptyString
  | Some x => if exitTTL <? time_sub now (ex_At x) then EmptyString else ex_Country x
  end.

Definition exit_due (x : option ExitFact) (now : time) : bool :=
  match x with
  | None => true
  | Some x =>
      if empty (ex_Country x) then exitRetry <? time_sub now (ex_At x)
      else exitTTL <? time_sub now (ex_At x)
  end.

Record ExitVote := { ev_Source : string; ev_Country : string }.

Definition upper_letter (c : ascii) : bool := (65 <=? byteZ c) && (byteZ c <=? 90).

Definition isCountryCode (code : string) : bool :=
  match code with
  | String a (String b EmptyString) =>
      if eqs code "XX" || eqs code "T1" || eqs code "EU" then false
      else upper_letter a && upper_letter b
  | _ => false
  end.

Section exits.
Context `{Unicode}.

Definition vote_code (v : ExitVote) : string := ToUpper (TrimSpace (ev_Country v)).

(** The [sources] map: each country's voters. *)
Definition vote_sources (votes : list ExitVote) : gmap string (gset string) :=
  foldl (λ sources v,
           let code := vote_code v in
           if isCountryCode code
           then <[code := {[ev_Source v]} ∪ default ∅ (sources !! code)]> sources
           else sources) ∅ votes.

Definition exitVerdict (votes : list ExitVote) (agree : Z) : string * Z :=
  match map_to_list (vote_sources votes) with
  | [(code, from)] =>
      if agree <=? Z.of_nat (size from) then (code, Z.of_nat (size from)) else (EmptyString, 0)
  | _ => (EmptyString, 0)
  end.
End exits.

(** ** Environments *)

Record DiagFact := { df_At : time; df_OK : bool }.

Record Environment := {
  env_SeenAt : time;
  env_Since : time;
  env_Nodes : gmap string Facts;
  env_Diag : gmap string DiagFact;
  env_Kinds : gmap string string;
}.

(** [diagnosis] over the targets' [String()]s. *)
Definition diagnosis (env : Environment) (targets : list string) : tri :=
  (fix go out targets :=
     match targets with
     | [] => out
     | target :: targets =>
         match env_Diag env !! target with
         | Some fact => if df_OK fact then triYes else go out targets
         | None => go triUnknown targets
         end
     end) triNo targets.

Definition env_facts (env : Environment) (key : string) : Facts * Environment :=
  match env_Nodes env !! key with
  | Some f => (f, env)
  | None => (no_facts, {| env with env_Nodes := <[key := no_facts]> (env_Nodes env) |})
  end.

Definition Freshness (env : Environment) (now : time) : duration :=
  if stableNetwork <=? time_sub now (env_Since env) then stableFreshness else baseFreshness.

Record Evidence := { ed_Envs : gmap string Environment; ed_Exits : gmap string ExitFact }.

Section store.
Context `{RangeOrder}.

(** The inner loop of [evict]: the key [oldest] ends with. *)
Definition oldest_env (envs : gmap string Environment) : string :=
  foldl (λ oldest '(key, env),
           if empty oldest ||
              before (env_SeenAt env) (default zero_time (env_SeenAt <$> envs !! oldest))
           then key else oldest) EmptyString (range_map envs).

Fixpoint evict_loop (fuel : nat) (envs : gmap string Environment) : gmap string Environment :=
  match fuel with
  | O => envs
  | S fuel =>
      if (maxEnvironments <? size envs)%nat
      then evict_loop fuel (delete (oldest_env envs) envs) else envs
  end.

(** Every turn of the loop removes an environment, so as many turns as
    there are environments are enough. *)
Definition evict (e : Evidence) : Evidence :=
  {| e with ed_Envs := evict_loop (size (ed_Envs e)) (ed_Envs e) |}.

Definition new_env (now : time) : Environment :=
  {| env_SeenAt := zero_time; env_Since := now; env_Nodes := ∅; env_Diag := ∅; env_Kinds := ∅ |}.

(** [e.env(key, now)]: the environment and the store after the call. The
    environment is a pointer into the store, unless [evict] has just removed
    it; a caller that writes through it uses [put_env]. *)
Definition evidence_env (e : Evidence) (key : string) (now : time) : Environment * Evidence :=
  let '(env, e) :=
    match ed_Envs e !! key with
    | Some env => (env, e)
    | None =>
        let env := new_env now in
        (env, evict {| e with ed_Envs := <[key := env]> (ed_Envs e) |})
    end in
  let env := {| env with env_SeenAt := now |} in
  (env, {| e with ed_Envs := alter (λ _, env) key (ed_Envs e) |}).
End store.

(** Writing through the pointer [evidence_env] returned for [key]: when the
    environment has been evicted nothing of the store changes. *)
Definition put_env (e : Evidence) (key : string) (env : Environment) : Evidence :=
  {| e with ed_Envs := alter (λ _, env) key (ed_Envs e) |}.

Definition prune (e : Evidence) (live : gset string) : Evidence :=
  {| ed_Exits := filter (λ '(key, _), key ∈ live) (ed_Exits e);
     ed_Envs := (λ env, {| env with
                  env_Nodes := filter (λ '(key, _), key ∈ live) (env_Nodes env) |}) <$> ed_Envs e |}.

(** ** Checks: what a history of outcomes leaves *)

(** One outcome of a declared check: when, whether it passed, whether the
    check is optional. *)
Record Outcome := { oc_At : time; oc_OK : bool; oc_Optional : bool }.

Definition step_outcome (c : CheckFact) (o : Outcome) : CheckFact :=
  step_check c (oc_At o) (oc_OK o) (oc_Optional o).

(** The record after a history, the latest outcome first. *)
Definition check_after (h : list Outcome) : CheckFact := foldr (λ o c, step_outcome c o) no_check h.

(** The length of the run of equal outcomes at the head of a history. *)
Fixpoint run_length (b : bool) (h : list Outcome) : Z :=
  match h with
  | [] => 0
  | o :: h => if Bool.eqb (oc_OK o) b then 1 + run_length b h else 0
  end.

Lemma run_length_bounds b h : 0 <= run_length b h <= Z.of_nat (length h).
Proof. induction h as [|o h IH]; cbn; [lia|]. case_if; lia. Qed.

Lemma check_after_run o h :
  Z.of_nat (length (o :: h)) <= max64 →
  ck_Run (check_after (o :: h)) = run_length (oc_OK o) (o :: h) ∧
  ck_OK (check_after (o :: h)) = oc_OK o.
Proof.
  revert o. induction h as [|o' h IH]; intros o Hlen.
  - cbn. by rewrite eqb_reflx.
  - destruct (IH o') as [Hrun Hok]; [cbn in *; lia|]. split; [|done].
    change (check_after (o :: o' :: h)) with (step_outcome (check_after (o' :: h)) o).
    unfold step_outcome, step_check; cbn [ck_Run].
    rewrite Hok, Hrun. cbn [run_length]. rewrite !eqb_reflx.
    pose proof (run_length_bounds (oc_OK o') h).
    rewrite (proj2 (Z.ltb_lt _ _)) by lia. cbn [andb].
    destruct (oc_OK o), (oc_OK o'); cbn [eqb]; try lia;
      rewrite wrap64_small; unfold in64, min64, max64 in *; cbn [length] in *; lia.
Qed.

(** The last pass of a history. *)
Definition last_pass (h : list Outcome) : time :=
  default zero_time (oc_At <$> List.find oc_OK h).

Lemma check_after_passed h : ck_PassedAt (check_after h) = last_pass h.
Proof.
  induction h as [|o h IH]; [done|]. cbn. unfold last_pass. cbn. by destruct (oc_OK o).
Qed.

(** What the engine makes of a check's history, the latest outcome first: a
    pass is a yes at once; a failure overturns an earlier pass only when the
    outcome before it failed too; an optional failure is no evidence. *)
Definition history_verdict (h : list Outcome) (now : time) : tri :=
  match h with
  | [] => triUnknown
  | o :: rest =>
      if checkWindow <? time_sub now (oc_At o) then triUnknown
      else if oc_OK o then triYes
      else if oc_Optional o then triNeither
      else match rest with
           | [] => triNo
           | o' :: _ => if oc_OK o' && negb (is_zero (oc_At o')) then triUnknown
                        else triNo
           end
  end.

Lemma run_length_two o o' h :
  oc_OK o = false → (run_length false (o :: o' :: h) <? 2) = oc_OK o'.
Proof.
  intros E. cbn. rewrite E. cbn. pose proof (run_length_bounds false h).
  destruct (oc_OK o'); cbn; [done|]. apply Z.ltb_ge. lia.
Qed.

Lemma verdict_history o h now :
  Z.of_nat (length (o :: h)) <= max64 →
  verdict (Some (check_after (o :: h))) now = history_verdict (o :: h) now.
Proof.
  intros Hlen. destruct (check_after_run o h Hlen) as [Hrun Hok].
  pose proof (check_after_passed (o :: h)) as Hp.
  unfold verdict, history_verdict. rewrite Hok, Hrun, Hp. cbn [check_after foldr ck_At step_outcome step_check ck_Soft].
  case_if; [done|]. destruct (oc_OK o) eqn:Eo; [done|]. cbn [negb andb].
  destruct (oc_Optional o); [done|]. unfold last_pass. destruct h as [|o' h].
  - cbn. by rewrite Eo.
  - rewrite run_length_two by done. cbn. rewrite Eo. by destruct (oc_OK o').
Qed.

Lemma noteCheck_history f id h :
  fa_Checks f !! id = None →
  default no_check (fa_Checks (foldr (λ o f, noteCheck f id (oc_At o) (oc_OK o) (oc_Optional o)) f h) !! id)
  = check_after h.
Proof.
  intros Hf. induction h as [|o h IH]; cbn; [by rewrite Hf|].
  rewrite lookup_insert_eq. cbn. by rewrite IH.
Qed.

(** The verdict the engine reads off a declared check is a function of
    the check's recent outcomes alone: a pass counts at once, a single failed
    request after a pass leaves the check unknown and only a second failure
    in a row makes it a no, an optional failure is no evidence either way,
    and an outcome older than the window says nothing. *)
Theorem check_verdict_history f id o h now :
  fa_Checks f !! id = None →
  Z.of_nat (length (o :: h)) <= max64 →
  let f' := foldr (λ o f, noteCheck f id (oc_At o) (oc_OK o) (oc_Optional o)) f (o :: h) in
  verdict (fa_Checks f' !! id) now = history_verdict (o :: h) now.
Proof.
  intros Hf Hlen f'. rewrite <- verdict_history by done.
  rewrite <- (noteCheck_history f id (o :: h) Hf). fold f'. cbn in f'. subst f'.
  cbn. by rewrite lookup_insert_eq.
Qed.

Definition pass_then_two_failures : list Outcome :=
  [{| oc_At := 30; oc_OK := false; oc_Optional := false |};
   {| oc_At := 20; oc_OK := false; oc_Optional := false |};
   {| oc_At := 10; oc_OK := true; oc_Optional := false |}].

Lemma check_verdict_history_witness :
  verdict (fa_Checks (foldr (λ o f, noteCheck f "ai" (oc_At o) (oc_OK o) (oc_Optional o))
    no_facts pass_then_two_failures) !! "ai"%string) 40 = triNo.
Proof.
  refine (eq_trans (check_verdict_history no_facts "ai" _ _ 40 _ _) _);
    [reflexivity | vm_compute; congruence | vm_compute; reflexivity].
Defined.

(** ** Exit votes *)

Section exit_facts.
Context `{Unicode}.

(** The distinct sources that name [code]. *)
Definition naming (votes : list ExitVote) (code : string) : gset string :=
  list_to_set (ev_Source <$> filter (λ v, vote_code v = code) votes).

Lemma elem_of_naming votes code src :
  src ∈ naming votes code ↔ ∃ v, v ∈ votes ∧ vote_code v = code ∧ ev_Source v = src.
Proof.
  unfold naming. rewrite elem_of_list_to_set, list_elem_of_fmap.
  setoid_rewrite list_elem_of_filter. naive_solver.
Qed.

Lemma vote_sources_snoc votes v :
  vote_sources (votes ++ [v]) =
    let code := vote_code v in
    if isCountryCode code
    then <[code := {[ev_Source v]} ∪ default ∅ (vote_sources votes !! code)]> (vote_sources votes)
    else vote_sources votes.
Proof. unfold vote_sources. by rewrite foldl_app. Qed.

Lemma vote_sources_lookup votes code from :
  vote_sources votes !! code = Some from ↔
  isCountryCode code = true ∧ from = naming votes code ∧ from ≠ ∅.
Proof.
  revert from. induction votes as [|v votes IH] using rev_ind; intros from.
  { cbn. rewrite lookup_empty. split; [done|]. intros (_ & -> & []). done. }
  assert (Hn : naming (votes ++ [v]) code =
    naming votes code ∪ (if decide (vote_code v = code) then {[ev_Source v]} else ∅)).
  { apply set_eq. intros src. rewrite elem_of_union, !elem_of_naming.
    setoid_rewrite elem_of_app. setoid_rewrite list_elem_of_singleton.
    clear IH. case_decide; set_solver. }
  rewrite vote_sources_snoc, Hn. cbn. destruct (decide (vote_code v = code)) as [<-|Hne].
  - case_if; [|rewrite IH; naive_solver]. rewrite lookup_insert_eq.
    assert (Hd : default ∅ (vote_sources votes !! vote_code v) = naming votes (vote_code v)).
    { destruct (decide (naming votes (vote_code v) = ∅)) as [Hx|Hx].
      - rewrite Hx. destruct (vote_sources votes !! _) as [g|]; [|done].
        destruct (proj1 (IH g) eq_refl) as (_ & -> & []). done.
      - by rewrite (proj2 (IH _) (conj eq_refl (conj eq_refl Hx))). }
    rewrite Hd. clear IH Hn Hd. rewrite (comm_L (∪)).
    split; [intros [= <-] | by intros (_ & -> & _)]. split_and!; [done..|set_solver].
  - rewrite (right_id_L ∅ (∪)), <- IH. case_if; [by rewrite lookup_insert_ne|done].
Qed.
End exit_facts.

Lemma map_to_list_one {A} (m : gmap string A) k x :
  map_to_list m = [(k, x)] ↔ m !! k = Some x ∧ ∀ k', is_Some (m !! k') → k' = k.
Proof.
  split.
  - intros E. pose proof (list_to_map_to_list m) as Em. rewrite E in Em. cbn in Em.
    rewrite insert_empty in Em. subst m. rewrite lookup_singleton_eq. split; [done|].
    intros k' [y Hy]. by apply lookup_singleton_Some in Hy as [-> _].
  - intros [Hk Hu]. rewrite <- (map_to_list_singleton k x). f_equal. apply map_eq. intros k'.
    destruct (decide (k = k')) as [<-|Hne]; [by rewrite lookup_singleton_eq|].
    rewrite lookup_singleton_ne by done. apply eq_None_not_Some. intros Hk'. by apply Hne, eq_sym, Hu.
Qed.

(** The condition under which a country is accepted. *)
Definition agreed `{Unicode} (votes : list ExitVote) (agree : Z) (code : string) : Prop :=
  isCountryCode code = true ∧
  (∃ v, v ∈ votes ∧ vote_code v = code) ∧
  (∀ v, v ∈ votes → isCountryCode (vote_code v) = true → vote_code v = code) ∧
  agree <= Z.of_nat (size (naming votes code)).

Lemma exitVerdict_agreed `{Unicode} votes agree code n : code ≠ EmptyString →
  exitVerdict votes agree = (code, n) ↔
  agreed votes agree code ∧ n = Z.of_nat (size (naming votes code)).
Proof.
  intros Hcode.
  assert (Hone : ∀ from, map_to_list (vote_sources votes) = [(code, from)] ↔
    isCountryCode code = true ∧ (∃ v, v ∈ votes ∧ vote_code v = code) ∧
    (∀ v, v ∈ votes → isCountryCode (vote_code v) = true → vote_code v = code) ∧
    from = naming votes code).
  { intros from. rewrite map_to_list_one, vote_sources_lookup. split.
    - intros ((Hc & -> & Hne) & Hu). apply set_choose_L in Hne as [src Hsrc].
      apply elem_of_naming in Hsrc as (v & Hv & Hvc & _). split_and!; eauto.
      intros v' Hv' Hc'. apply Hu. exists (naming votes (vote_code v')).
      apply vote_sources_lookup. split_and!; [done..|].
      apply non_empty_inhabited_L with (ev_Source v'). apply elem_of_naming. eauto.
    - intros (Hc & (v & Hv & Hvc) & Hu & ->). split_and!; [done..| |].
      + apply non_empty_inhabited_L with (ev_Source v). apply elem_of_naming. eauto.
      + intros k' [x Hx]. apply vote_sources_lookup in Hx as (Hk & -> & Hne).
        apply set_choose_L in Hne as [src (v' & Hv' & <- & _)%elem_of_naming]. by apply Hu. }
  unfold exitVerdict, agreed. split.
  - destruct (map_to_list (vote_sources votes)) as [|[c from] [|]] eqn:E; try (intros; by simplify_eq).
    case_if; [|intros; by simplify_eq]. intros; simplify_eq. bools.
    destruct (proj1 (Hone from) eq_refl) as (? & ? & ? & ->). split_and!; done || lia.
  - intros [(Hc & Hv & Hu & Hn) ->].
    rewrite (proj2 (Hone (naming votes code)) (conj Hc (conj Hv (conj Hu eq_refl)))).
    by rewrite (proj2 (Z.leb_le _ _)).
Qed.

(** An exit check accepts a country exactly when at least one vote names
    it, every vote that names a country at all names this one, and at least
    [agree] distinct sources do; the count it reports is the number of those
    sources. Nothing depends on the order of the votes. *)
Theorem exitVerdict_sound_complete `{Unicode} votes votes' agree code n :
  code ≠ EmptyString → votes' ≡ₚ votes →
  exitVerdict votes' agree = (code, n) ↔
  agreed votes agree code ∧ n = Z.of_nat (size (naming votes code)).
Proof.
  intros Hcode Hp. rewrite exitVerdict_agreed by done.
  assert (Hn : naming votes' code = naming votes code).
  { apply set_eq. intros src. rewrite !elem_of_naming. by setoid_rewrite Hp. }
  unfold agreed. rewrite Hn. by setoid_rewrite Hp.
Qed.

Lemma exitVerdict_sound_complete_witness :
  @exitVerdict ascii_tables
    [{| ev_Source := "b"; ev_Country := " de" |}; {| ev_Source := "a"; ev_Country := "DE" |};
     {| ev_Source := "c"; ev_Country := "EU" |}] 2 = ("DE"%string, 2).
Proof.
  refine (proj2 (@exitVerdict_sound_complete ascii_tables
    [{| ev_Source := "a"; ev_Country := "DE" |}; {| ev_Source := "b"; ev_Country := " de" |};
     {| ev_Source := "c"; ev_Country := "EU" |}] _ 2 "DE" 2 _ _) _);
    [done | apply Permutation_swap | split; [|vm_compute; reflexivity]].
  split_and!; [vm_compute; reflexivity | | | vm_compute; congruence].
  - exists {| ev_Source := "a"; ev_Country := "DE" |}. split; [left | vm_compute; reflexivity].
  - intros v. rewrite !elem_of_cons, elem_of_nil. intros [->|[->|[->|[]]]]; vm_compute; congruence.
Defined.

(** ** Latency *)

(** How many values are at most, or at least, the one at rank [i]. *)
Lemma rank_counts values i x :
  sort_ints values !! i = Some x →
  x ∈ values ∧
  (i + 1 <= length (filter (λ v, (v <= x)%Z) values))%nat ∧
  (length values - i <= length (filter (λ v, (x <= v)%Z) values))%nat.
Proof.
  intros Hx. pose proof (sort_stable_perm compareZ values) as Hp.
  destruct (sorted_rank _ _ _ _ compareZ_total (sort_ints_sorted values) Hx) as [H1 H2].
  unfold sort_ints in *. rewrite Hp in H1. rewrite !Hp in H2.
  rewrite (list_filter_iff _ (λ v, (v <= x)%Z)) in H1 by (intros; apply compareZ_le).
  rewrite (list_filter_iff _ (λ v, (x <= v)%Z)) in H2 by (intros; apply compareZ_le).
  split_and!; [|done..]. rewrite <- Hp. by eapply list_elem_of_lookup_2.
Qed.

Lemma Latency_ranks f now : recent_values f now ≠ [] →
  ∃ i j p50 p90, let sv := sort_ints (recent_values f now) in
    let n := length (recent_values f now) in
    Latency f now = (p50, p90 -i p50, true) ∧ sv !! i = Some p50 ∧ sv !! j = Some p90 ∧
    (i <= j < n ∧ i = n / 2 ∧ 9 * n < 10 * (j + 1))%nat ∧ p50 <= p90.
Proof.
  intros Hv. set (values := recent_values f now) in *. set (sv := sort_ints values).
  assert (Hlen : length sv = length values) by apply length_sort_stable.
  assert (0 < length values)%nat by (destruct values; [done | cbn; lia]).
  set (j := Nat.min (length sv - 1) (length sv * 9 / 10)).
  pose proof (Nat.div_mod (length sv) 2 ltac:(lia)).
  pose proof (Nat.div_mod (length sv * 9) 10 ltac:(lia)).
  pose proof (Nat.mod_upper_bound (length sv) 2 ltac:(lia)).
  pose proof (Nat.mod_upper_bound (length sv * 9) 10 ltac:(lia)).
  destruct (lookup_lt_is_Some_2 sv (length sv / 2)) as [p50 H50]; [lia|].
  destruct (lookup_lt_is_Some_2 sv j) as [p90 H90]; [lia|].
  exists (length sv / 2)%nat, j, p50, p90. cbn zeta. fold values. fold sv. split_and!; try done; try lia.
  - unfold Latency. rewrite bool_decide_false by done. fold values sv. cbn zeta. fold j.
    by rewrite !list_lookup_total_alt, H50, H90.
  - by rewrite Hlen.
  - apply compareZ_le. apply (sorted_lookup compareZ sv (length sv / 2) j); try done; [apply compareZ_total | apply sort_ints_sorted | lia].
Qed.

Lemma Latency_None f now : recent_values f now = [] → Latency f now = (0, 0, false).
Proof. intros E. unfold Latency. by rewrite E. Qed.

Lemma Latency_perm f l now :
  l ≡ₚ fa_Samples f → Latency {| f with fa_Samples := l |} now = Latency f now.
Proof.
  intros Hl. assert (Hp : recent_values {| f with fa_Samples := l |} now ≡ₚ recent_values f now).
  { unfold recent_values. cbn. by rewrite Hl. }
  unfold Latency. rewrite (sort_ints_perm _ _ Hp). case_bool_decide as E1; case_bool_decide as E2; try done.
  - rewrite E1 in Hp. by apply (proj1 (Permutation_nil_l _)), eq_sym in Hp.
  - rewrite E2 in Hp. by apply (proj1 (Permutation_nil_r _)) in Hp.
Qed.

(** the latency of a node is a median and a spread of its recent samples:
    [p50] is one of them, more than half of them are at most [p50] and at
    least half are at least [p50]; [p50 + spread] is one of them too, no
    smaller, and at least nine tenths are at most it. It is absent exactly
    when no recent sample has a value, and the order of the samples does not
    matter. *)
Theorem latency_percentiles f now p50 spread ok :
  (∀ s, s ∈ fa_Samples f → sm_Ms s <= max64) →
  Latency f now = (p50, spread, ok) →
  let values := recent_values f now in
  (ok = false ↔ values = []) ∧
  (ok = true →
   p50 ∈ values ∧ p50 + spread ∈ values ∧ 0 <= spread ∧
   (length values < 2 * length (filter (λ v, (v <= p50)%Z) values))%nat ∧
   (length values <= 2 * length (filter (λ v, (p50 <= v)%Z) values))%nat ∧
   (9 * length values <= 10 * length (filter (λ v, (v <= p50 + spread)%Z) values))%nat) ∧
  ∀ l', l' ≡ₚ fa_Samples f → Latency {| f with fa_Samples := l' |} now = (p50, spread, ok).
Proof.
  intros Hmax HL values. split_and!; [..|intros l' Hl; by rewrite <- HL, Latency_perm].
  all: destruct (decide (values = [])) as [Hv|Hv];
    [rewrite (Latency_None _ _ Hv) in HL; injection HL as <- <- <-; done|].
  all: destruct (Latency_ranks f now Hv) as (i & j & x & y & E & Hi & Hj & Hij & Hxy); rewrite E in HL.
  { split; [intros ->; by simplify_eq | done]. }
  intros ->. injection HL as <- <-. fold values in Hi, Hj, Hij.
  apply rank_counts in Hi as (Hx & Hx1 & Hx2). apply rank_counts in Hj as (Hy & Hy1 & _).
  assert (Hin : ∀ v, v ∈ values → 0 < v <= max64).
  { intros v. unfold values, recent_values. rewrite list_elem_of_fmap.
    intros (s & -> & [Hs%Is_true_true ?]%list_elem_of_filter). bools. split; [lia|auto]. }
  assert (Ey : x + (y -i x) = y).
  { pose proof (Hin x Hx). pose proof (Hin y Hy). rewrite wrap64_small; unfold in64, min64; lia. }
  rewrite Ey. pose proof (Nat.div_mod (length values) 2 ltac:(lia)).
  pose proof (Nat.mod_upper_bound (length values) 2 ltac:(lia)).
  split_and!; try done; lia.
Qed.

Lemma latency_percentiles_witness :
  let f := {| no_facts with fa_Samples := [{| sm_At := 5; sm_Ms := 90 |}; {| sm_At := 6; sm_Ms := 40 |};
                                           {| sm_At := 7; sm_Ms := 70 |}] |} in
  70 ∈ recent_values f 10 ∧ 90 ∈ recent_values f 10.
Proof.
  intros f. destruct (latency_percentiles f 10 70 20 true) as (_ & H & _).
  - intros s Hs. cbn in Hs. rewrite !elem_of_cons, elem_of_nil in Hs.
    destruct Hs as [->|[->|[->|[]]]]; vm_compute; congruence.
  - vm_compute. reflexivity.
  - destruct (H eq_refl) as (H1 & H2 & _). split; [exact H1 | exact H2].
Defined.

(** ** Dial failures of real traffic *)

(** Failed dials noted one after another: what the last one reported. *)
Definition dial_series (f : Facts) (ts : list time) : bool * Facts :=
  foldl (λ r t, noteDialFail (snd r) t) (false, f) ts.

Inductive ascending : list time → Prop :=
  | ascending_nil : ascending []
  | ascending_snoc ts t : ascending ts → (∀ u, u ∈ ts → u <= t) → ascending (ts ++ [t]).

Definition within (d : duration) (t u : time) : bool := t - u <? d.

Lemma noteDialFail_window f t :
  noteDialFail f t =
    let fails := filter (λ u, within dialFailWindow t u) (fa_dialFails f) ++ [t] in
    ((3 <=? length fails)%nat && negb (after (fa_OKAt f) (hd zero_time fails)),
     {| f with fa_dialFails := fails |}).
Proof.
  unfold noteDialFail. cbn zeta.
  rewrite (list_filter_iff _ (λ u, within dialFailWindow t u)); [done|].
  intros u. by rewrite (time_sub_lt t u dialFailWindow).
Qed.

Lemma within_here d t l : 0 < d → filter (λ u, within d t u) (l ++ [t]) =
  filter (λ u, within d t u) l ++ [t].
Proof.
  intros Hd. rewrite filter_app. f_equal.
  rewrite filter_cons_True; [done|]. unfold within. apply Is_true_true, Z.ltb_lt. lia.
Qed.

Lemma ascending_snoc_inv ts t : ascending (ts ++ [t]) → ascending ts ∧ ∀ u, u ∈ ts → u <= t.
Proof.
  inversion 1 as [E|? ? Hts Hle E]; [by destruct ts|].
  by apply app_inj_tail in E as [-> ->].
Qed.

Lemma dial_series_window f ts t :
  fa_dialFails f = [] → ascending (ts ++ [t]) →
  snd (dial_series f (ts ++ [t])) =
    {| f with fa_dialFails := filter (λ u, within dialFailWindow t u) (ts ++ [t]) |}.
Proof.
  intros Hf. revert t. induction ts as [|t' ts IH] using rev_ind; intros t Hasc.
  { rewrite (within_here _ _ []) by done. cbn. by rewrite Hf. }
  apply ascending_snoc_inv in Hasc as [Hasc Hle]. unfold dial_series in *.
  rewrite foldl_app, (within_here _ t) by done. cbn [foldl]. rewrite IH by done.
  rewrite noteDialFail_window. cbn. do 2 f_equal.
  apply list_filter_filter_l. intros u. unfold within. rewrite !Is_true_true, !Z.ltb_lt.
  assert (t' <= t) by (apply Hle; set_solver). lia.
Qed.

(** real traffic suspects a node exactly when at least three of its dials
    failed within the last twenty seconds since its last success: after a
    success, a series of failures in time order reports the suspicion at its
    last failure if and only if three of them, that one included, lie in the
    window. *)
Theorem dial_suspicion f0 ok_at source ts t :
  let f := noteOK f0 ok_at source in
  ascending (ts ++ [t]) → (∀ u, u ∈ ts ++ [t] → fa_OKAt f <= u) →
  fst (dial_series f (ts ++ [t])) =
    (3 <=? length (filter (λ u, within dialFailWindow t u) (ts ++ [t])))%nat.
Proof.
  intros f Hasc Hok. unfold dial_series. rewrite foldl_app. cbn [foldl].
  assert (Hf : fa_dialFails f = []) by (unfold f, noteOK; by case_match).
  fold (dial_series f ts). rewrite noteDialFail_window. cbn [fst].
  assert (E : fa_OKAt (snd (dial_series f ts)) = fa_OKAt f ∧
    filter (λ u, within dialFailWindow t u) (fa_dialFails (snd (dial_series f ts))) ++ [t] =
    filter (λ u, within dialFailWindow t u) (ts ++ [t])).
  { destruct ts as [|t' ts _] using rev_ind; [unfold dial_series; cbn [foldl snd]; by rewrite Hf, (within_here _ _ [])|].
    apply ascending_snoc_inv in Hasc as [Hasc Hle]. rewrite dial_series_window by done.
    cbn. split; [done|]. rewrite (within_here _ t) by done. f_equal. apply list_filter_filter_l.
    intros u. unfold within. rewrite !Is_true_true, !Z.ltb_lt.
    assert (t' <= t) by (apply Hle; set_solver). lia. }
  destruct E as [-> ->]. destruct (filter _ (ts ++ [t])) as [|u l] eqn:E; [done|].
  cbn [hd]. unfold after. rewrite (proj2 (Z.ltb_ge _ _)); [by rewrite andb_true_r|].
  apply Hok. assert (Hu : u ∈ u :: l) by left. rewrite <- E in Hu.
  by apply list_elem_of_filter in Hu as [_ ?].
Qed.

Lemma dial_suspicion_witness :
  let f := noteOK no_facts 1 TrafficSource in
  fst (dial_series f [2 * Second; 10 * Second; 15 * Second]) = true ∧
  fst (dial_series f [2 * Second; 10 * Second; 22 * Second]) = false.
Proof.
  split; [|vm_compute; reflexivity].
  refine (eq_trans (dial_suspicion no_facts 1 TrafficSource [2 * Second; 10 * Second] (15 * Second) _ _) _);
    [| |vm_compute; reflexivity].
  - apply (ascending_snoc [_; _]); [apply (ascending_snoc [_]);
      [apply (ascending_snoc []); [constructor|]|]|]; intros u; rewrite ?elem_of_cons, elem_of_nil; unfold Second; lia.
  - intros u. cbn. rewrite !elem_of_cons, elem_of_nil. unfold Second. lia.
Defined.

(** ** Bounds and liveness *)

(** What every operation keeps: a node's history is bounded, and a node that
    is held dead has the death as its latest episode. *)
Record facts_wf (f : Facts) : Prop := {
  wf_samples : (length (fa_Samples f) <= maxSamples)%nat;
  wf_episodes : (length (fa_Episodes f) <= maxEpisodes)%nat;
  wf_death : fa_DeadAt f ≠ 0 → last (fa_Episodes f) = Some (fa_DeadAt f);
  wf_run : in64 (fa_FailRun f);
}.

Inductive fact_step (f : Facts) : Facts → Prop :=
  | step_check_ id at_ ok opt : fact_step f (noteCheck f id at_ ok opt)
  | step_ok at_ src : fact_step f (noteOK f at_ src)
  | step_sample at_ ms src : fact_step f (noteSample f at_ ms src)
  | step_probe_fail at_ : fact_step f (noteProbeFail f at_)
  | step_dead at_ : fact_step f (markDead f at_)
  | step_dial at_ : fact_step f (snd (noteDialFail f at_)).

Lemma no_facts_wf : facts_wf no_facts.
Proof. by split; cbn; try lia. Qed.

Lemma fact_step_wf f f' : fact_step f f' → facts_wf f → facts_wf f'.
Proof.
  intros Hs [H1 H2 H3 H4].
  assert (in64 0) by (vm_compute; split; congruence).
  destruct Hs; unfold noteSample, noteOK, markDead; repeat case_if; split; cbn;
    try done; rewrite ?length_last_n; try lia; try apply wrap64_range.
  intros _. by rewrite last_last_n, last_snoc by (unfold maxEpisodes; lia).
Qed.

(** Whatever a node's events, its memory stays bounded (at most eight
    samples and sixteen episodes) and a recorded death is its latest episode;
    the three states the engine distinguishes are exclusive, a node marked
    dead is dead whatever was known of it before, and a success after the
    death revives it. *)
Theorem facts_invariant f :
  rtc fact_step no_facts f →
  (length (fa_Samples f) <= maxSamples)%nat ∧ (length (fa_Episodes f) <= maxEpisodes)%nat ∧
  (Dead f = true → last (fa_Episodes f) = Some (fa_DeadAt f)) ∧
  (∀ cutoff, AliveSince f cutoff = true → Dead f = false) ∧
  (∀ at_, at_ ≠ 0 → fa_OKAt f <= at_ → Dead (markDead f at_) = true) ∧
  (∀ at_ src, fa_DeadAt f < at_ → Dead (noteOK f at_ src) = false).
Proof.
  intros Hr. assert (Hwf : facts_wf f).
  { revert Hr. generalize no_facts_wf. generalize no_facts. intros f0 H0 Hr.
    induction Hr; eauto using fact_step_wf. }
  destruct Hwf as [H1 H2 H3 H4]. split_and!; try done.
  - unfold Dead, is_zero. intros. bools. naive_solver.
  - unfold AliveSince. intros. bools. naive_solver.
  - intros at_ H0 Hle. unfold markDead. case_if; [done|]. unfold Dead, is_zero, after. cbn.
    rewrite (proj2 (Z.eqb_neq _ _) H0). by rewrite (proj2 (Z.ltb_ge _ _)).
  - intros at_ src Hlt. unfold Dead, noteOK, after. repeat case_if; cbn; bools; cbn in *; right; try lia.
Qed.

Lemma facts_invariant_witness :
  let f := noteOK (markDead (noteProbeFail (noteSample no_facts 5 80 ProbeSource) 7) 7) 9 ProbeSource in
  (length (fa_Episodes f) <= maxEpisodes)%nat ∧ Dead f = false ∧ fa_Episodes f = [7].
Proof.
  intros f. destruct (facts_invariant f) as (_ & H & _); [|split; [exact H | vm_compute; split; reflexivity]].
  eapply rtc_l; [apply (step_sample _ 5 80 ProbeSource)|].
  eapply rtc_l; [apply (step_probe_fail _ 7)|].
  eapply rtc_l; [apply (step_dead _ 7)|].
  eapply rtc_l; [apply (step_ok _ 9 ProbeSource)|]. apply rtc_refl.
Defined.

(** ** The store of networks *)

Section store_facts.
Context `{RangeOrder}.

Lemma oldest_env_least envs : envs ≠ ∅ → envs !! EmptyString = None →
  ∃ env, envs !! oldest_env envs = Some env ∧
    ∀ k env', envs !! k = Some env' → env_SeenAt env <= env_SeenAt env'.
Proof.
  intros Hne Hk. unfold oldest_env.
  set (step := λ oldest '(key, env), if empty oldest ||
    before (env_SeenAt env) (default zero_time (env_SeenAt <$> envs !! oldest)) then key else oldest).
  assert (Hfold : ∀ l, l ≠ [] → (∀ k env, (k, env) ∈ l → envs !! k = Some env) →
    ∃ env, envs !! foldl step EmptyString l = Some env ∧
      ∀ k env', (k, env') ∈ l → env_SeenAt env <= env_SeenAt env').
  { intros l. induction l as [|[k env] l IH] using rev_ind; [done|]. intros _ Hl.
    rewrite foldl_app. cbn [foldl step]. assert (Hkv : envs !! k = Some env) by (apply Hl; set_solver).
    destruct l as [|p l].
    { cbn. exists env. split; [done|]. intros k' env' [= -> ->]%list_elem_of_singleton. lia. }
    destruct IH as (old & Hold & Hleast); [done | intros; apply Hl; set_solver |].
    rewrite Hold. cbn [fmap option_fmap option_map default from_option].
    rewrite (proj2 (empty_false _)) by (intros E; rewrite E in Hold; congruence). cbn [orb]. unfold before, id.
    destruct (Z.ltb_spec (env_SeenAt env) (env_SeenAt old));
      [exists env; split; [exact Hkv|] | exists old; split; [exact Hold|]]; intros k' env' [Hin|[= -> ->]%list_elem_of_singleton]%elem_of_app;
      try lia; specialize (Hleast k' env' Hin); lia. }
  destruct (Hfold (range_map envs)) as (env & Henv & Hl).
  - intros E. apply Hne, map_to_list_empty_iff. apply Permutation_nil_r. by rewrite <- E, range_map_perm.
  - intros k env. by apply elem_of_range_map.
  - exists env. split; [done|]. intros k env' Hk'. apply (Hl k). by apply elem_of_range_map.
Qed.

Lemma evict_loop_small fuel envs :
  (size envs <= maxEnvironments)%nat → evict_loop fuel envs = envs.
Proof. intros Hs. destruct fuel as [|fuel]; cbn [evict_loop]; [done|]. by rewrite (proj2 (Nat.ltb_ge _ _)). Qed.

Lemma evict_small e : (size (ed_Envs e) <= maxEnvironments)%nat → evict e = e.
Proof. intros Hs. unfold evict. rewrite evict_loop_small by done. by destruct e. Qed.

Lemma evict_one e : (size (ed_Envs e) = S maxEnvironments)%nat →
  ed_Envs e !! EmptyString = None →
  evict e = {| e with ed_Envs := delete (oldest_env (ed_Envs e)) (ed_Envs e) |}.
Proof.
  intros Hs Hk. unfold evict. f_equal. rewrite Hs. generalize maxEnvironments at 1. intros n.
  cbn [evict_loop]. rewrite (proj2 (Nat.ltb_lt _ _)) by lia.
  destruct (oldest_env_least (ed_Envs e)) as (env & Henv & _); [|done|].
  { intros E. by rewrite E, map_size_empty in Hs. }
  apply evict_loop_small. rewrite map_size_delete, Henv, Hs. cbn. lia.
Qed.

(** asking for a network's memory returns it stamped with the time and
    leaves the rest of the store alone: a known network is returned as it
    was learned, an unknown one starts empty and is stored as long as fewer
    than sixteen networks are known, and the store never grows past
    sixteen. *)
Theorem evidence_env_store e key now :
  (size (ed_Envs e) <= maxEnvironments)%nat →
  ed_Envs e !! EmptyString = None → key ≠ EmptyString →
  let '(env, e') := evidence_env e key now in
  env_SeenAt env = now ∧ ed_Exits e' = ed_Exits e ∧
  (size (ed_Envs e') <= maxEnvironments)%nat ∧
  (∀ old, ed_Envs e !! key = Some old →
    env = {| old with env_SeenAt := now |} ∧ ed_Envs e' = <[key := env]> (ed_Envs e)) ∧
  (ed_Envs e !! key = None →
    env = {| (new_env now) with env_SeenAt := now |} ∧
    ((size (ed_Envs e) < maxEnvironments)%nat → ed_Envs e' = <[key := env]> (ed_Envs e))).
Proof.
  intros Hs Hk Hkey. unfold evidence_env. destruct (ed_Envs e !! key) as [old|] eqn:E; cbn [ed_Envs].
  { split_and!; try done.
    - by rewrite size_alter.
    - intros ? [= <-]. split; [done|]. by rewrite (alter_Some _ _ _ _ E). }
  assert (Hsz : size (<[key := new_env now]> (ed_Envs e)) = S (size (ed_Envs e))) by (by rewrite map_size_insert, E).
  rewrite size_alter. destruct (Nat.lt_ge_cases (size (ed_Envs e)) maxEnvironments).
  - rewrite evict_small by (cbn [ed_Envs]; lia). cbn [ed_Envs ed_Exits]. split_and!; try done; [lia|].
    intros _. split; [done|]. intros _. erewrite alter_Some by apply lookup_insert_eq. apply insert_insert_eq.
  - rewrite evict_one; cbn [ed_Envs ed_Exits]; [|lia|].
    + destruct (oldest_env_least (<[key := new_env now]> (ed_Envs e))) as (o & Ho & _).
      { intros E'. by rewrite E', map_size_empty in Hsz. }
      { by rewrite lookup_insert_ne. }
      rewrite map_size_delete, Ho, Hsz. split_and!; try done; try lia. intros _. split; [done|lia].
    + by rewrite lookup_insert_ne.
Qed.

(** C40: once sixteen networks are known, a seventeenth is never remembered.
    [evict] runs before the new environment is stamped, so the new one, whose
    [SeenAt] is still the zero time, is the oldest and is the one removed:
    the store is unchanged and whatever is noted in the environment the call
    returned is lost. *)
Theorem env_full_drops_new e key now :
  size (ed_Envs e) = maxEnvironments → ed_Envs e !! key = None →
  ed_Envs e !! EmptyString = None → key ≠ EmptyString →
  map_Forall (λ _ env, 0 < env_SeenAt env) (ed_Envs e) →
  let '(env, e') := evidence_env e key now in
  e' = e ∧ ∀ env', put_env e' key env' = e.
Proof.
  intros Hs E Hk Hkey Hseen. unfold evidence_env. rewrite E. cbn [ed_Envs].
  assert (Hk' : <[key := new_env now]> (ed_Envs e) !! EmptyString = None) by (by rewrite lookup_insert_ne).
  rewrite evict_one; cbn [ed_Envs ed_Exits]; [|by rewrite map_size_insert, E, Hs | done].
  destruct (oldest_env_least (<[key := new_env now]> (ed_Envs e))) as (o & Ho & Hleast);
    [by apply insert_non_empty | done |].
  assert (oldest_env (<[key := new_env now]> (ed_Envs e)) = key) as Eo.
  { destruct (decide (oldest_env (<[key := new_env now]> (ed_Envs e)) = key)) as [|Hne]; [done|].
    rewrite lookup_insert_ne in Ho by done. apply Hseen in Ho as Hpos.
    specialize (Hleast key (new_env now)). rewrite lookup_insert_eq in Hleast.
    specialize (Hleast eq_refl). cbn in Hleast. unfold zero_time in *. lia. }
  pose proof (λ f, alter_None f key (ed_Envs e) E) as Ha.
  rewrite Eo, delete_insert_id, Ha by done. destruct e as [envs exits]. cbn in *.
  split; [done|]. intros env'. unfold put_env. cbn. by rewrite Ha.
Qed.
End store_facts.

Definition many_networks (n : nat) : Evidence :=
  {| ed_Envs := list_to_map ((λ i, (Itoa (Z.of_nat i),
       {| (new_env 5) with env_SeenAt := 5 + Z.of_nat i |})) <$> seq 1 n);
     ed_Exits := ∅ |}.

Lemma env_full_drops_new_witness :
  let '(_, e') := @evidence_env natural_order (many_networks 16) "home" 99 in
  e' = many_networks 16 ∧ ∀ env', put_env e' "home" env' = many_networks 16.
Proof.
  apply (@env_full_drops_new natural_order (many_networks 16) "home" 99);
    [vm_compute; reflexivity | vm_compute; reflexivity | vm_compute; reflexivity | done |].
  apply (bool_decide_unpack _). vm_compute. exact I.
Defined.

Lemma evidence_env_store_witness :
  let '(env, e') := @evidence_env natural_order (many_networks 3) "home" 99 in
  env_SeenAt env = 99 ∧ ed_Envs e' = <["home"%string := env]> (ed_Envs (many_networks 3)).
Proof.
  generalize (@evidence_env_store natural_order (many_networks 3) "home" 99
    ltac:(vm_compute; lia) ltac:(vm_compute; reflexivity) ltac:(done)).
  destruct (@evidence_env natural_order (many_networks 3) "home" 99) as [env e'].
  intros (H1 & _ & _ & _ & H2). split; [exact H1|].
  apply H2; [vm_compute; reflexivity | vm_compute; lia].
Defined.
