(* ===== verification/Journal.v ===== *)
(** * Reasons and the journal: core/rcx/journal.go, [Reason] of decide.go

    Every decision and every journal entry carries a [Reason]; the journal
    keeps the last two hundred events, numbered, for the host to read on from
    a cursor. *)

From S2P Require Import Prelude.

(** ** Reasons *)

(** The values the code puts in [Args]. *)
Inductive Arg :=
  | ArgString (s : string)
  | ArgInt (z : Z)
  | ArgTime (t : time)
  | ArgStrings (l : list string).

Record Reason := { rs_Code : string; rs_Args : gmap string Arg }.

(** [reason(code, args...)] on its key and value pairs; a later pair replaces
    an earlier one with the same key. *)
Definition reason (code : string) (args : list (string * Arg)) : Reason :=
  {| rs_Code := code; rs_Args := foldl (λ m '(k, v), <[k := v]> m) ∅ args |}.

(** ** The journal *)

Definition journalSize : nat := 200.

Record JournalEntry := {
  je_Seq : Z;
  je_At : time;
  je_Group : string;
  je_Kind : string;
  je_From : string;
  je_To : string;
  je_Reason : Reason;
}.

Record journal := { jr_Seq : Z; jr_Entries : list JournalEntry }.

Definition no_journal : journal := {| jr_Seq := 0; jr_Entries := [] |}.

(** [Seq] is a [uint64]. *)
Definition journal_add (j : journal) (entry : JournalEntry) : journal :=
  let seq := (jr_Seq j + 1) mod 2 ^ 64 in
  let entries := jr_Entries j ++ [{| entry with je_Seq := seq |}] in
  {| jr_Seq := seq;
     jr_Entries := drop (length entries - journalSize) entries |}.

Definition journal_after (j : journal) (cursor : Z) (group : string) (limit : Z) : list JournalEntry :=
  let out := filter (λ e, (cursor <? je_Seq e) &&
    (empty group || eqs (je_Group e) group || empty (je_Group e))) (jr_Entries j) in
  if (0 <? limit) && (limit <? Z.of_nat (length out))
  then drop (length out - Z.to_nat limit) out else out.

(** ** What the journal holds after any events *)

(** The events as the journal numbers them, from [n + 1] on. *)
Fixpoint stamped (n : Z) (es : list JournalEntry) : list JournalEntry :=
  match es with
  | [] => []
  | e :: es => {| e with je_Seq := n + 1 |} :: stamped (n + 1) es
  end.

Lemma stamped_app n es es' :
  stamped n (es ++ es') = stamped n es ++ stamped (n + Z.of_nat (length es)) es'.
Proof.
  revert n. induction es as [|e es IH]; intros n; cbn; [by rewrite Z.add_0_r|].
  rewrite IH. do 3 f_equal. lia.
Qed.

Lemma length_stamped n es : length (stamped n es) = length es.
Proof. revert n. induction es; intros; cbn; [|f_equal]; auto. Qed.

Lemma drop_drop_last {A} (l : list A) x n : (0 < n)%nat →
  drop (length (last_n n l ++ [x]) - n) (last_n n l ++ [x]) = last_n n (l ++ [x]).
Proof.
  intros Hn. unfold last_n. rewrite !length_app, length_drop. cbn.
  destruct (Nat.le_gt_cases (length l) n).
  - rewrite (proj2 (Nat.sub_0_le (length l) n)) by lia. cbn. do 2 f_equal. lia.
  - rewrite !drop_app_le by (rewrite ?length_drop; lia). rewrite drop_drop. do 2 f_equal. lia.
Qed.

Lemma journal_adds es :
  Z.of_nat (length es) < 2 ^ 64 →
  foldl journal_add no_journal es =
    {| jr_Seq := Z.of_nat (length es); jr_Entries := last_n journalSize (stamped 0 es) |}.
Proof.
  induction es as [|e es IH] using rev_ind; intros Hlen; [done|].
  rewrite length_app in *. cbn [length] in *. rewrite foldl_app, IH by lia. cbn [foldl].
  unfold journal_add. cbn [jr_Seq jr_Entries]. rewrite drop_drop_last by (unfold journalSize; lia).
  rewrite Z.mod_small by lia. rewrite stamped_app, Nat2Z.inj_add. done.
Qed.

Lemma stamped_above n es : Forall (λ e, n < je_Seq e) (stamped n es).
Proof.
  assert (H : ∀ m, n <= m → Forall (λ e, n < je_Seq e) (stamped m es)); [|by apply H].
  induction es as [|e es IH]; intros m Hm; cbn; constructor; [cbn; lia | apply IH; lia].
Qed.

Lemma stamped_since n es c :
  filter (λ e, c < je_Seq e) (stamped n es) = drop (Z.to_nat (c - n)) (stamped n es).
Proof.
  destruct (Z.le_gt_cases c n) as [Hc|Hc].
  { replace (Z.to_nat (c - n)) with 0%nat by lia. apply list_filter_all.
    eapply Forall_impl; [apply stamped_above | cbn; lia]. }
  revert n Hc. induction es as [|e es IH]; intros n Hn; cbn [stamped]; [by rewrite drop_nil|].
  rewrite filter_cons_False by (cbn; lia).
  replace (Z.to_nat (c - n)) with (S (Z.to_nat (c - (n + 1)))) by lia. cbn [drop].
  destruct (decide (c = n + 1)) as [->|]; [|apply IH; lia].
  rewrite Z.sub_diag. apply list_filter_all, stamped_above.
Qed.

Lemma drop_stamped k es : drop k (stamped 0 es) = stamped (Z.of_nat (Nat.min k (length es))) (drop k es).
Proof.
  rewrite <- (take_drop k es) at 1. rewrite stamped_app, drop_app, length_stamped, length_take.
  rewrite drop_ge by (rewrite length_stamped, length_take; lia). cbn [app].
  destruct (Nat.le_gt_cases k (length es)).
  - by replace (k - k `min` length es)%nat with 0%nat by lia.
  - rewrite (drop_ge es) by lia. cbn. by rewrite drop_nil.
Qed.

(** The entries a host that has read up to [cursor] has yet to see. *)
Definition unread (es : list JournalEntry) (cursor : Z) : list JournalEntry :=
  last_n (Nat.min journalSize (length es - Z.to_nat cursor)) (stamped 0 es).

Lemma unread_filter es c :
  filter (λ e, c < je_Seq e) (last_n journalSize (stamped 0 es)) = unread es c.
Proof.
  unfold unread, last_n. rewrite length_stamped, drop_stamped, stamped_since.
  rewrite <- drop_stamped, drop_drop.
  destruct (Nat.le_gt_cases (Z.to_nat c) (length es)); [f_equal; lia|].
  rewrite !drop_ge; rewrite ?length_stamped; try done; lia.
Qed.

(** What the host reads from the journal. After any events, reading on
    from a cursor returns, in order, the events after the cursor that are
    among the last two hundred, numbered consecutively from one; with a group,
    those of the group and those of no group; with a limit, the last [limit]
    of them. *)
Theorem journal_read es cursor group limit :
  Z.of_nat (length es) < 2 ^ 64 →
  let mine := filter (λ e, group = EmptyString ∨ je_Group e = group ∨ je_Group e = EmptyString) in
  journal_after (foldl journal_add no_journal es) cursor group limit =
    (if 0 <? limit then last_n (Z.to_nat limit) else id) (mine (unread es cursor)).
Proof.
  intros Hlen mine. rewrite journal_adds by done. unfold journal_after. cbn [jr_Entries].
  rewrite <- unread_filter. unfold mine. rewrite list_filter_filter.
  rewrite (list_filter_iff _ (λ e, (group = EmptyString ∨ je_Group e = group ∨ je_Group e = EmptyString)
    ∧ cursor < je_Seq e)).
  2: { intros e. rewrite Is_true_true. autorewrite with rcx_bool. tauto. }
  set (out := filter _ _). destruct (0 <? limit) eqn:E; [|done]. cbn [andb].
  case_if; [done|]. rewrite last_n_all; [done|]. bools. lia.
Qed.

Definition event (group kind : string) : JournalEntry :=
  {| je_Seq := 0; je_At := 7; je_Group := group; je_Kind := kind; je_From := ""; je_To := "";
     je_Reason := reason "x" [] |}.

Lemma journal_read_witness :
  je_Kind <$> journal_after (foldl journal_add no_journal
    [event "a" "1"; event "b" "2"; event "" "3"; event "a" "4"; event "a" "5"]) 1 "a" 2 = ["4"; "5"]%string.
Proof.
  rewrite (journal_read [event "a" "1"; event "b" "2"; event "" "3"; event "a" "4"; event "a" "5"] 1 "a" 2);
    vm_compute; reflexivity.
Defined.
