(* ===== verification/Identity.v ===== *)
(** * Recognising nodes: core/rcx/identity.go, [Node] of decide.go

    A subscription refresh may rotate credentials and rename servers; the
    index gives every node of a refresh a stable key by its configuration,
    else a unique endpoint, else a unique provider and name. *)

From S2P Require Import Prelude GoText.

(** What the runtime reports about one member of a group. *)
Record Node := {
  nd_Name : string;
  nd_Provider : string;
  nd_Type : string;
  nd_UDP : bool;
  nd_Server : string;
  nd_Strong : string;
  nd_Endpoint : string;
  nd_Entry : string;
  nd_NameCountry : string;
  nd_Via : list string;
}.

Definition maxIdentities : nat := 4096.

Record Identity := {
  id_Key : string;
  id_Strong : string;
  id_Endpoint : string;
  id_Name : string;
  id_Provider : string;
  id_Server : string;
  id_SeenAt : time;
}.

#[export] Instance Identity_inhabited : Inhabited Identity := populate
  {| id_Key := ""; id_Strong := ""; id_Endpoint := ""; id_Name := ""; id_Provider := "";
     id_Server := ""; id_SeenAt := zero_time |}.

Inductive IdentityMatch := MatchedStrong | MatchedEndpoint | MatchedName | MatchedNew.

#[export] Instance IdentityMatch_eq_dec : EqDecision IdentityMatch.
Proof. solve_decision. Defined.

(** ** Digests *)

(** HMAC-SHA256 of crypto/hmac: the code relies on nothing of it but that it
    is a function of the salt and the bytes written. *)
Class Hmac := { hmac_sha256 : string → string → string }.

Definition base64_char (n : Z) : ascii :=
  Zbyte (if n <? 26 then 65 + n else if n <? 52 then 71 + n else if n <? 62 then n - 4
         else if n =? 62 then 45 else 95).

(** [base64.RawURLEncoding.EncodeToString] on whole groups of three bytes, as
    the twelve bytes of a digest are. *)
Fixpoint base64url (s : string) : string :=
  match s with
  | String a (String b (String c s)) =>
      let n := byteZ a * 65536 + byteZ b * 256 + byteZ c in
      String (base64_char (n / 262144)) (String (base64_char ((n / 4096) mod 64))
        (String (base64_char ((n / 64) mod 64)) (String (base64_char (n mod 64)) (base64url s))))
  | _ => EmptyString
  end.

Definition zero_byte : string := String (Zbyte 0) EmptyString.

Section digests.
Context `{Hmac} (salt : string).

Definition digest (parts : list string) : string :=
  base64url (String.substring 0 12
    (hmac_sha256 salt (foldr (λ part s, part +:+ zero_byte +:+ s) EmptyString parts))).

Definition digestOrEmpty (value : string) : string :=
  if empty value then EmptyString else digest [value].
End digests.

(** ** Resolve *)

(** The indexes [Resolve] builds over the entries it starts from: pointers
    are positions in [Entries]. *)
Record IdentityMaps := {
  im_byStrong : gmap string nat;
  im_byEndpoint : gmap string (list nat);
  im_byName : gmap string (list nat);
}.

Definition name_key (provider name : string) : string := provider +:+ zero_byte +:+ name.

Definition push (k : string) (i : nat) (m : gmap string (list nat)) : gmap string (list nat) :=
  <[k := default [] (m !! k) ++ [i]]> m.

Definition index_entry (maps : IdentityMaps) (p : nat * Identity) : IdentityMaps :=
  let '(i, entry) := p in
  {| im_byStrong := if empty (id_Strong entry) then im_byStrong maps
                    else <[id_Strong entry := i]> (im_byStrong maps);
     im_byEndpoint := if empty (id_Endpoint entry) then im_byEndpoint maps
                      else push (id_Endpoint entry) i (im_byEndpoint maps);
     im_byName := push (name_key (id_Provider entry) (id_Name entry)) i (im_byName maps) |}.

Definition index_entries (entries : list Identity) : IdentityMaps :=
  foldl index_entry {| im_byStrong := ∅; im_byEndpoint := ∅; im_byName := ∅ |}
    (imap pair entries).

(** [unique(candidates, server)] from the loop's variable [found]. *)
Fixpoint unique_from (entries : list Identity) (claimed : gset string) (server : string)
    (found : option nat) (candidates : list nat) : option nat :=
  match candidates with
  | [] => found
  | c :: rest =>
      let e := entries !!! c in
      if bool_decide (id_Key e ∈ claimed) || (negb (empty server) && negb (eqs (id_Server e) server))
      then unique_from entries claimed server found rest
      else match found with
           | Some _ => None
           | None => unique_from entries claimed server (Some c) rest
           end
  end.

Definition unique (entries : list Identity) (claimed : gset string) (candidates : list nat)
    (server : string) : option nat :=
  unique_from entries claimed server None candidates.

Section resolve.
Context `{Hmac} (salt : string).

Definition next_key (key : string) : string := digest salt ["key"%string; key].

(** [for claimed[key] { key = ... }]: None when the fuel ends first. *)
Fixpoint fresh_key (fuel : nat) (claimed : gset string) (key : string) : option string :=
  if decide (key ∈ claimed)
  then match fuel with O => None | S fuel => fresh_key fuel claimed (next_key key) end
  else Some key.

Definition first_key (node : Node) : string :=
  digest salt ["key"%string; nd_Strong node; nd_Provider node; nd_Name node; nd_Server node].

Definition find_entry (maps : IdentityMaps) (entries : list Identity) (claimed : gset string)
    (node : Node) : option (nat * IdentityMatch) :=
  let strong := digestOrEmpty salt (nd_Strong node) in
  let endpoint := digestOrEmpty salt (nd_Endpoint node) in
  let server := digestOrEmpty salt (nd_Server node) in
  let by_strong :=
    if empty strong then None
    else i ← im_byStrong maps !! strong;
         if bool_decide (id_Key (entries !!! i) ∈ claimed) then None else Some i in
  match by_strong with
  | Some i => Some (i, MatchedStrong)
  | None =>
      let by_endpoint :=
        if empty endpoint then None
        else unique entries claimed (default [] (im_byEndpoint maps !! endpoint)) EmptyString in
      match by_endpoint with
      | Some i => Some (i, MatchedEndpoint)
      | None =>
          match unique entries claimed
                  (default [] (im_byName maps !! name_key (nd_Provider node) (nd_Name node))) server with
          | Some i => Some (i, MatchedName)
          | None => None
          end
      end
  end.

Definition refreshed (e : Identity) (node : Node) (now : time) : Identity :=
  {| id_Key := id_Key e;
     id_Strong := digestOrEmpty salt (nd_Strong node);
     id_Endpoint := digestOrEmpty salt (nd_Endpoint node);
     id_Server := digestOrEmpty salt (nd_Server node);
     id_Name := nd_Name node; id_Provider := nd_Provider node; id_SeenAt := now |}.

(** One turn of the loop: the entries, the claimed keys, and the node's key
    and match. *)
Definition resolve_node (maps : IdentityMaps) (now : time) (entries : list Identity)
    (claimed : gset string) (node : Node) : option (list Identity * (string * IdentityMatch)) :=
  match find_entry maps entries claimed node with
  | Some (i, m) =>
      let e := entries !!! i in
      Some (<[i := refreshed e node now]> entries, (id_Key e, m))
  | None =>
      key ← fresh_key (size claimed) claimed (first_key node);
      Some (entries ++ [refreshed {| inhabitant with id_Key := key |} node now], (key, MatchedNew))
  end.

Fixpoint resolve_loop (maps : IdentityMaps) (now : time) (entries : list Identity)
    (claimed : gset string) (nodes : list Node) : option (list Identity * list (string * IdentityMatch)) :=
  match nodes with
  | [] => Some (entries, [])
  | node :: nodes =>
      '(entries, km) ← resolve_node maps now entries claimed node;
      '(entries, kms) ← resolve_loop maps now entries ({[fst km]} ∪ claimed) nodes;
      Some (entries, km :: kms)
  end.

Definition trim (entries : list Identity) : list Identity :=
  if (length entries <=? maxIdentities)%nat then entries
  else take maxIdentities (sort_stable (λ a b, compareZ (id_SeenAt b) (id_SeenAt a)) entries).

(** The index after the refresh and each node's key and match. *)
Definition Resolve (entries : list Identity) (nodes : list Node) (now : time)
    : option (list Identity * list (string * IdentityMatch)) :=
  '(entries, kms) ← resolve_loop (index_entries entries) now entries ∅ nodes;
  Some (trim entries, kms).
End resolve.

Definition Known (entries : list Identity) : gset string := list_to_set (id_Key <$> entries).

(** ** The indexes *)

Lemma index_entries_snoc es e :
  index_entries (es ++ [e]) = index_entry (index_entries es) (length es, e).
Proof. unfold index_entries. rewrite imap_app, foldl_app. cbn. by rewrite Nat.add_0_r. Qed.

(** [byStrong] finds the last entry with the digest. *)
Lemma byStrong_lookup es s i :
  im_byStrong (index_entries es) !! s = Some i ↔
  ∃ e, es !! i = Some e ∧ id_Strong e = s ∧ s ≠ EmptyString ∧
       ∀ j e', es !! j = Some e' → id_Strong e' = s → (j <= i)%nat.
Proof.
  revert i. induction es as [|e es IH] using rev_ind; intros i.
  { cbn. rewrite lookup_empty. split; [done|]. by intros (? & ? & _). }
  rewrite index_entries_snoc. cbn [index_entry im_byStrong]. unfold empty. case_bool_decide as E.
  - rewrite IH. split; intros (e' & H1 & H2 & H3 & H4).
    + exists e'. split_and!; try done; [by apply lookup_app_l_Some|].
      intros j e'' [?|[? [? ?]%list_lookup_singleton_Some]]%lookup_app_Some Hs; [by eapply H4|]. congruence.
    + apply lookup_app_Some in H1 as [H1|[? [? ?]%list_lookup_singleton_Some]]; [|congruence].
      exists e'. split_and!; try done. intros j e'' Hj. apply H4. by apply lookup_app_l_Some.
  - destruct (decide (id_Strong e = s)) as [<-|Hne].
    + rewrite lookup_insert_eq. split.
      * intros [= <-]. exists e. split_and!; [apply list_lookup_middle; done | done..|].
        intros j e' Hj _. apply lookup_lt_Some in Hj. rewrite length_app in Hj. cbn in Hj. lia.
      * intros (e' & H1 & H2 & H3 & H4). f_equal.
        specialize (H4 (length es) e). rewrite list_lookup_middle in H4 by done. specialize (H4 eq_refl eq_refl).
        apply lookup_lt_Some in H1. rewrite length_app in H1. cbn in H1. lia.
    + rewrite lookup_insert_ne by done. rewrite IH. split; intros (e' & H1 & H2 & H3 & H4).
      * exists e'. split_and!; try done; [by apply lookup_app_l_Some|].
        intros j e'' [?|[? [? ?]%list_lookup_singleton_Some]]%lookup_app_Some Hs; [by eapply H4|]. congruence.
      * apply lookup_app_Some in H1 as [H1|[? [? ?]%list_lookup_singleton_Some]]; [|congruence].
        exists e'. split_and!; try done. intros j e'' Hj. apply H4. by apply lookup_app_l_Some.
Qed.

Definition positions_below (n : nat) (m : gmap string (list nat)) : Prop :=
  ∀ k i, i ∈ default [] (m !! k) → (i < n)%nat.

Lemma push_below n k i m : (i < n)%nat → positions_below n m → positions_below n (push k i m).
Proof.
  intros Hi Hm k' j. unfold push. destruct (decide (k = k')) as [<-|].
  - rewrite lookup_insert_eq. cbn. rewrite elem_of_app, list_elem_of_singleton.
    intros [Hj| ->]; [by eapply Hm | done].
  - rewrite lookup_insert_ne by done. apply Hm.
Qed.

Lemma index_entries_below es :
  positions_below (length es) (im_byEndpoint (index_entries es)) ∧
  positions_below (length es) (im_byName (index_entries es)).
Proof.
  induction es as [|e es [IH1 IH2]] using rev_ind.
  { split; intros k i; cbn; rewrite lookup_empty; cbn; by rewrite elem_of_nil. }
  rewrite index_entries_snoc, length_app. cbn [index_entry im_byEndpoint im_byName length].
  assert (Hw : ∀ m, positions_below (length es) m → positions_below (length es + 1) m)
    by (intros m Hm k i Hi; specialize (Hm k i Hi); lia).
  split; [case_if|]; auto; apply push_below; auto; lia.
Qed.

Lemma unique_Some es claimed candidates server i :
  unique es claimed candidates server = Some i →
  i ∈ candidates ∧ id_Key (es !!! i) ∉ claimed.
Proof.
  unfold unique.
  assert (Hgo : ∀ l found, unique_from es claimed server found l = Some i → found = Some i ∨ (i ∈ l ∧ id_Key (es !!! i) ∉ claimed)).
  { induction l as [|c l IH]; intros found; cbn; [auto|].
    destruct (bool_decide _) eqn:E; cbn [orb].
    - intros [?|[? ?]]%IH; [auto|right; set_solver].
    - bools. case_if; [intros [?|[? ?]]%IH; [auto|right; set_solver]|].
      destruct found; [done|]. intros [[= ->]|[? ?]]%IH; right; set_solver. }
  intros [[=]|?]%Hgo. done.
Qed.

Section identity_facts.
Context `{Hmac} (salt : string).

Lemma find_entry_Some es0 es claimed node i m :
  (length es0 <= length es)%nat →
  find_entry salt (index_entries es0) es claimed node = Some (i, m) →
  (i < length es)%nat ∧ id_Key (es !!! i) ∉ claimed.
Proof.
  intros Hlen. unfold find_entry. destruct (index_entries_below es0) as [He Hn].
  set (bs := if empty _ then None else _).
  destruct bs as [i'|] eqn:Ebs; unfold bs in Ebs.
  { intros [= <- <-]. case_if_in Ebs; [done|]. apply bind_Some in Ebs as (j & Hj & Ej).
    case_bool_decide; simplify_eq. split; [|done].
    apply byStrong_lookup in Hj as (e & Hj & _). apply lookup_lt_Some in Hj. lia. }
  clear bs Ebs. set (be := if empty _ then None else _).
  destruct be as [i'|] eqn:Ebe; unfold be in Ebe.
  { intros [= <- <-]. case_if_in Ebe; [done|]. apply unique_Some in Ebe as [Hi Hc].
    apply He in Hi. split; [lia|done]. }
  clear be Ebe. destruct (unique _ _ _ _) eqn:Eu; [|done]. intros [= <- <-].
  apply unique_Some in Eu as [Hi Hc]. apply Hn in Hi. split; [lia|done].
Qed.

(** The keys [fresh_key] tries. *)
Fixpoint key_chain (n : nat) (key : string) : list string :=
  match n with O => [] | S n => key :: key_chain n (next_key salt key) end.

Lemma fresh_key_notin fuel claimed key k :
  fresh_key salt fuel claimed key = Some k → k ∉ claimed.
Proof.
  revert key. induction fuel as [|fuel IH]; intros key; cbn; case_decide; intros Hk;
    simplify_eq; eauto.
Qed.

Lemma fresh_key_None fuel claimed key :
  fresh_key salt fuel claimed key = None → ∀ k, k ∈ key_chain (S fuel) key → k ∈ claimed.
Proof.
  revert key. induction fuel as [|fuel IH]; intros key Hf k; cbn in *; case_decide; try done.
  - rewrite elem_of_cons, elem_of_nil. by intros [->|].
  - rewrite elem_of_cons. intros [->|Hk]; [done|]. by eapply IH.
Qed.

Lemma key_chain_prefix n m key : (n <= m)%nat → key_chain n key `prefix_of` key_chain m key.
Proof.
  revert n key. induction m as [|m IH]; intros [|n] key Hn; try (cbn; apply prefix_nil || lia).
  cbn. apply prefix_cons, IH. lia.
Qed.

Lemma length_key_chain n key : length (key_chain n key) = n.
Proof. revert key. induction n; intros; cbn; auto. Qed.

(** A chain without repetition runs out of claimed keys before the fuel
    runs out. *)
Lemma fresh_key_enough n claimed key :
  (size claimed < n)%nat → NoDup (key_chain n key) →
  ∃ k, fresh_key salt (size claimed) claimed key = Some k.
Proof.
  intros Hn Hd. destruct (fresh_key _ _ _ _) as [k|] eqn:E; [eauto|]. exfalso.
  pose proof (fresh_key_None _ _ _ E) as Hin.
  destruct (key_chain_prefix (S (size claimed)) n key) as [l Hl]; [lia|]. rewrite Hl in Hd.
  apply NoDup_app in Hd as [Hd _].
  assert (size (list_to_set (C := gset string) (key_chain (S (size claimed)) key)) <= size claimed)%nat as Hs.
  { apply subseteq_size. intros k Hk. apply elem_of_list_to_set in Hk. by apply Hin. }
  rewrite size_list_to_set, length_key_chain in Hs by done. lia.
Qed.

(** What one turn of the loop does to the entries: one entry is the node's,
    the others are as they were, and no key ever changes. *)
Lemma resolve_node_inv es0 es claimed node now es' k m :
  (length es0 <= length es)%nat →
  resolve_node salt (index_entries es0) now es claimed node = Some (es', (k, m)) →
  ∃ i e, k ∉ claimed ∧ id_Key e = k ∧ es' !! i = Some (refreshed salt e node now) ∧
    (∀ j, j ≠ i → es' !! j = es !! j) ∧
    (id_Key <$> es) `prefix_of` (id_Key <$> es') ∧ (length es' <= S (length es))%nat ∧
    (find_entry salt (index_entries es0) es claimed node = Some (i, m) ∧ es !! i = Some e ∨
     find_entry salt (index_entries es0) es claimed node = None ∧ i = length es ∧ m = MatchedNew).
Proof.
  intros Hlen. unfold resolve_node.
  destruct (find_entry _ _ _ _ _) as [[i m']|] eqn:Ef; [intros [= <- <- <-]|].
  - destruct (find_entry_Some _ _ _ _ _ _ Hlen Ef) as [Hi Hc].
    pose proof (list_lookup_lookup_total_lt es i Hi) as He.
    exists i, (es !!! i). split_and!; auto.
    + by rewrite list_lookup_insert_eq.
    + intros j Hj. by rewrite list_lookup_insert_ne.
    + rewrite list_fmap_insert. cbn. exists []. rewrite app_nil_r. apply list_insert_id.
      by rewrite list_lookup_fmap, He.
    + rewrite length_insert. lia.
  - destruct (fresh_key _ _ _ _) as [key|] eqn:Ek; [|done]. cbn. intros [= <- <- <-].
    exists (length es), {| inhabitant with id_Key := key |}. split_and!; auto.
    + by eapply fresh_key_notin.
    + by apply list_lookup_middle.
    + intros j Hj. destruct (Nat.lt_ge_cases j (length es)); [by rewrite lookup_app_l|].
      rewrite !lookup_ge_None_2; rewrite ?length_app; cbn; try done; lia.
    + rewrite fmap_app. by apply prefix_app_r.
    + rewrite length_app. cbn. lia.
Qed.

Lemma resolve_node_total es0 es claimed node now n :
  (size claimed < n)%nat → NoDup (key_chain n (first_key salt node)) →
  is_Some (resolve_node salt (index_entries es0) now es claimed node).
Proof.
  intros Hn Hd. unfold resolve_node. destruct (find_entry _ _ _ _ _) as [[i m]|]; [eauto|].
  destruct (fresh_key_enough n claimed _ Hn Hd) as [k ->]. cbn. eauto.
Qed.

Lemma resolve_loop_keys es0 now nodes : ∀ es claimed es' kms,
  (length es0 <= length es)%nat →
  resolve_loop salt (index_entries es0) now es claimed nodes = Some (es', kms) →
  length kms = length nodes ∧ NoDup kms.*1 ∧ (∀ k, k ∈ kms.*1 → k ∉ claimed) ∧
  (id_Key <$> es) `prefix_of` (id_Key <$> es') ∧
  (length es' <= length es + length nodes)%nat ∧
  (∀ k, k ∈ kms.*1 → k ∈ id_Key <$> es').
Proof.
  induction nodes as [|node nodes IH]; intros es claimed es' kms Hlen; cbn.
  { intros [= <- <-]. split_and!; auto using NoDup_nil_2; [set_solver|lia|set_solver]. }
  destruct (resolve_node _ _ _ _ _ _) as [[es1 [k m]]|] eqn:En; [|done]. cbn.
  destruct (resolve_loop _ _ _ _ _ _) as [[es2 kms1]|] eqn:El; [|done]. cbn.
  intros [= <- <-].
  destruct (resolve_node_inv _ _ _ _ _ _ _ _ Hlen En) as (i & e & Hc & Hk & Hi & _ & Hp & Hl & _).
  assert (Hlen1 : (length es <= length es1)%nat)
    by (apply prefix_length in Hp; by rewrite !length_fmap in Hp).
  destruct (IH es1 _ _ _ (Nat.le_trans _ _ _ Hlen Hlen1) El) as (H1 & H2 & H3 & H4 & H6 & H5).
  assert (Hin : k ∈ id_Key <$> es1).
  { apply list_elem_of_fmap. exists (refreshed salt e node now). split; [done|].
    by eapply list_elem_of_lookup_2. }
  cbn. split_and!.
  - by f_equal.
  - constructor; [|done]. intros Hk'. by specialize (H3 k Hk'); set_solver.
  - intros k' [->|Hk']%elem_of_cons; [done|]. specialize (H3 k' Hk'). set_solver.
  - by etrans.
  - lia.
  - intros k' [->|Hk']%elem_of_cons; [|auto]. by eapply elem_of_prefix.
Qed.

Lemma resolve_loop_total es0 now nodes n : ∀ es claimed,
  (size claimed + length nodes <= n)%nat →
  (∀ node, node ∈ nodes → NoDup (key_chain n (first_key salt node))) →
  is_Some (resolve_loop salt (index_entries es0) now es claimed nodes).
Proof.
  induction nodes as [|node nodes IH]; intros es claimed Hn Hd; cbn in *; [eauto|].
  destruct (resolve_node_total es0 es claimed node now n) as [[es1 km] ->]; [lia | apply Hd; left|].
  cbn. destruct (IH es1 ({[fst km]} ∪ claimed)) as [[es2 kms] ->]; [| |cbn; eauto].
  - rewrite size_union_alt, size_singleton.
    assert (claimed ∖ {[fst km]} ⊆ claimed) as Hs%subseteq_size by set_solver. lia.
  - intros node' ?. apply Hd. by right.
Qed.

Lemma trim_id es : (length es <= maxIdentities)%nat → trim es = es.
Proof. intros. unfold trim. by rewrite (proj2 (Nat.leb_le _ _)). Qed.

(** A refresh gives every node a key of its own. When the chain of
    derived keys of no node repeats within as many steps as there are
    nodes, [Resolve] ends, never hands one key to two nodes of the refresh,
    and, unless the index overflows, every key it hands out is in the index
    it leaves. *)
Theorem resolve_keys_distinct es nodes now :
  (∀ node, node ∈ nodes → NoDup (key_chain (length nodes) (first_key salt node))) →
  ∃ es' kms, Resolve salt es nodes now = Some (es', kms) ∧
    length kms = length nodes ∧ NoDup kms.*1 ∧
    ((length es + length nodes <= maxIdentities)%nat → ∀ k, k ∈ kms.*1 → k ∈ Known es').
Proof.
  intros Hd. unfold Resolve.
  destruct (resolve_loop_total es now nodes (length nodes) es ∅) as [[es' kms] E]; [|done|].
  { rewrite size_empty. lia. }
  destruct (resolve_loop_keys es now nodes es ∅ es' kms (le_n _) E) as (H1 & H2 & _ & _ & H4 & H5).
  rewrite E. exists (trim es'), kms. split_and!; try done. intros Hlen k Hk.
  unfold Known. rewrite trim_id by lia. by apply elem_of_list_to_set, H5.
Qed.

(** ** A refresh of known nodes *)

Definition strong_of (node : Node) : string := digestOrEmpty salt (nd_Strong node).

Definition strong_unique (es : list Identity) : Prop :=
  ∀ i j e e', es !! i = Some e → es !! j = Some e' →
    id_Strong e = id_Strong e' → id_Strong e ≠ EmptyString → i = j.

Lemma byStrong_unique es i e :
  strong_unique es → es !! i = Some e → id_Strong e ≠ EmptyString →
  im_byStrong (index_entries es) !! id_Strong e = Some i.
Proof.
  intros Hu Hi Hs. apply byStrong_lookup. exists e. split_and!; try done.
  intros j e' Hj He. by rewrite (Hu i j e e').
Qed.

Lemma find_entry_strong es0 es claimed node i :
  im_byStrong (index_entries es0) !! strong_of node = Some i →
  strong_of node ≠ EmptyString → id_Key (es !!! i) ∉ claimed →
  find_entry salt (index_entries es0) es claimed node = Some (i, MatchedStrong).
Proof.
  intros Hi Hs Hc. unfold find_entry. fold (strong_of node).
  rewrite (proj2 (empty_false _) Hs), Hi. cbn. by rewrite bool_decide_false.
Qed.

(** The loop after some nodes, whose digests are [ds] and whose keys are
    [claimed]: the entries not yet claimed are the old ones, the claimed
    ones carry the digests of the nodes, and no two entries share a digest. *)
Record loop_wf (es0 es : list Identity) (claimed : gset string) (ds : list string) : Prop := {
  lw_len : (length es0 <= length es)%nat;
  lw_keys : NoDup (id_Key <$> es);
  lw_old : ∀ j e, es !! j = Some e → id_Key e ∉ claimed → es0 !! j = Some e;
  lw_new : ∀ j e, es !! j = Some e → id_Key e ∈ claimed → id_Strong e ∈ ds;
  lw_strong : strong_unique es;
}.

(** What the turn for a node with a digest of its own does to the loop's
    entries: the entry it picks is the only one with the node's key, and no
    other has the node's digest. *)
Lemma resolve_node_own es0 es claimed ds node now es' k m :
  strong_unique es0 → loop_wf es0 es claimed ds →
  strong_of node ∉ ds → strong_of node ≠ EmptyString →
  resolve_node salt (index_entries es0) now es claimed node = Some (es', (k, m)) →
  (m = MatchedNew → k ∉ Known es0) →
  ∃ i e, k ∉ claimed ∧ id_Key e = k ∧ es' !! i = Some (refreshed salt e node now) ∧
    (length es <= length es')%nat ∧ (∀ j, j ≠ i → es' !! j = es !! j) ∧
    (∀ j e', es !! j = Some e' → id_Key e' = k → j = i) ∧
    (∀ e', es !! i = Some e' → id_Key e' = k) ∧
    (∀ j e', j ≠ i → es' !! j = Some e' → id_Strong e' ≠ strong_of node).
Proof.
  intros Hu0 [Hlen Hkeys Hold Hnew Hu] Hds Hs En Hfresh.
  destruct (resolve_node_inv _ _ _ _ _ _ _ _ Hlen En) as (i & e & Hc & Hk & Hi & Hj & Hp & Hl & Hcase).
  exists i, e. split_and!; try done.
  - apply prefix_length in Hp. by rewrite !length_fmap in Hp.
  - intros j e' He' Hk'. destruct Hcase as [[_ He]|(_ & -> & ->)].
    + apply (proj1 (NoDup_alt _) Hkeys j i k); rewrite list_lookup_fmap; [rewrite He'|rewrite He]; cbn; congruence.
    + exfalso. apply (Hfresh eq_refl). apply elem_of_list_to_set, list_elem_of_fmap.
      exists e'. split; [done|]. apply (list_elem_of_lookup_2 _ j), Hold; [done|]. by rewrite Hk'.
  - intros e' He'. destruct Hcase as [[_ He]|(_ & -> & _)]; [congruence|].
    by rewrite lookup_ge_None_2 in He'.
  - intros j e' Hne He' Hse. rewrite Hj in He' by done.
    destruct (decide (id_Key e' ∈ claimed)) as [Hin|Hin].
    { apply Hds. rewrite <- Hse. by eapply Hnew. }
    pose proof (byStrong_unique es0 j e' Hu0 (Hold j e' He' Hin)) as Hb.
    rewrite Hse in Hb. specialize (Hb Hs).
    rewrite (find_entry_strong es0 es claimed node j Hb Hs) in Hcase
      by (by rewrite (list_lookup_total_correct _ _ _ He')).
    destruct Hcase as [[[= -> _] _]|[[=] _]]. done.
Qed.

Lemma resolve_node_wf es0 es claimed ds node now es' k m :
  strong_unique es0 → loop_wf es0 es claimed ds →
  strong_of node ∉ ds → strong_of node ≠ EmptyString →
  resolve_node salt (index_entries es0) now es claimed node = Some (es', (k, m)) →
  (m = MatchedNew → k ∉ Known es0) →
  loop_wf es0 es' ({[k]} ∪ claimed) (strong_of node :: ds) ∧
  (∃ i e, es' !! i = Some e ∧ id_Key e = k ∧ id_Strong e = strong_of node) ∧
  (∀ j e, es !! j = Some e → id_Key e ∈ claimed → es' !! j = Some e).
Proof.
  intros Hu0 Hwf Hds Hs En Hfresh.
  destruct (resolve_node_own _ _ _ _ _ _ _ _ _ Hu0 Hwf Hds Hs En Hfresh)
    as (i & e & Hc & Hk & Hi & Hl & Hj & Hki & Hik & Hother).
  destruct Hwf as [Hlen Hkeys Hold Hnew Hu].
  assert (Hcase : ∀ j e', es' !! j = Some e' →
    j = i ∧ e' = refreshed salt e node now ∨ j ≠ i ∧ es !! j = Some e').
  { intros j e' He'. destruct (decide (j = i)) as [->|Hne]; [left | right; by rewrite <- Hj].
    split; congruence. }
  split_and!.
  - split; [lia | | | |].
    + apply NoDup_alt. intros a b x. rewrite !list_lookup_fmap, !fmap_Some.
      intros (ea & [[-> ->]|[Ha Hea]]%Hcase & Hxa) (eb & [[-> ->]|[Hb Heb]]%Hcase & Hxb); try done.
      * symmetry. apply (Hki b eb); [done|]. cbn in Hxa. congruence.
      * apply (Hki a ea); [done|]. cbn in Hxb. congruence.
      * apply (proj1 (NoDup_alt _) Hkeys a b x); rewrite list_lookup_fmap;
          [rewrite Hea | rewrite Heb]; cbn; congruence.
    + intros j e' [[-> ->]|[Hne He']]%Hcase Hin; [cbn in Hin; set_solver|].
      apply Hold; [done|set_solver].
    + intros j e' [[-> ->]|[Hne He']]%Hcase Hin; [left|]. right. eapply Hnew; [done|].
      apply elem_of_union in Hin as [Hin%elem_of_singleton|Hin]; [|done]. by destruct Hne; eapply Hki.
    + intros j j' e1 e2 [[-> ->]|[Hn1 H1]]%Hcase H2 He1 He2; cbn in *.
      * destruct (decide (j' = i)); [done|]. by eapply Hother in H2.
      * destruct (Hcase _ _ H2) as [[-> ->]|[Hn2 H2']]; [|by eapply Hu].
        cbn in He1. rewrite <- Hj in H1 by done. by eapply Hother in H1.
  - by exists i, (refreshed salt e node now).
  - intros j e' He' Hin. destruct (decide (j = i)) as [->|]; [|by rewrite Hj].
    apply Hik in He'. congruence.
Qed.

(** After a refresh each node's entry carries its key and its digest. *)
Lemma resolve_loop_wf es0 now nodes : ∀ es claimed ds es' kms,
  strong_unique es0 → loop_wf es0 es claimed ds →
  NoDup (strong_of <$> nodes) → (∀ n, n ∈ nodes → strong_of n ∉ ds ∧ strong_of n ≠ EmptyString) →
  resolve_loop salt (index_entries es0) now es claimed nodes = Some (es', kms) →
  (∀ k, (k, MatchedNew) ∈ kms → k ∉ Known es0) →
  strong_unique es' ∧
  Forall2 (λ node km, ∃ i e, es' !! i = Some e ∧ id_Key e = km.1 ∧ id_Strong e = strong_of node) nodes kms ∧
  (∀ j e, es !! j = Some e → id_Key e ∈ claimed → es' !! j = Some e).
Proof.
  induction nodes as [|node nodes IH]; intros es claimed ds es' kms Hu0 Hwf Hnd Hn; cbn [resolve_loop].
  { intros [= <- <-] _. split_and!; [by destruct Hwf | constructor | done]. }
  destruct (resolve_node _ _ _ _ _ _) as [[es1 [k m]]|] eqn:En; [|done]. cbn.
  destruct (resolve_loop _ _ _ _ _ _) as [[es2 kms1]|] eqn:El; [|done]. cbn.
  intros [= <- <-] Hfresh. apply NoDup_cons in Hnd as [Hnot Hnd].
  destruct (Hn node) as [Hds Hs]; [left|].
  destruct (resolve_node_wf _ _ _ _ _ _ _ _ _ Hu0 Hwf Hds Hs En) as (Hwf1 & (i & e & Hi & Hk & Hse) & Hframe).
  { intros ->. apply Hfresh. left. }
  destruct (IH es1 ({[k]} ∪ claimed) (strong_of node :: ds) es2 kms1 Hu0 Hwf1 Hnd) as (Hu2 & Hall & Hframe2).
  { intros n Hin. destruct (Hn n) as [H1 H2]; [by right|]. split; [|done].
    rewrite not_elem_of_cons. split; [|done]. intros E. apply Hnot. rewrite <- E.
    by apply list_elem_of_fmap_2. }
  { exact El. }
  { intros k' Hk'. apply Hfresh. by right. }
  split_and!; [done | |].
  - constructor; [|done]. exists i, e. split_and!; try done. apply Hframe2; [done|]. set_solver.
  - intros j e' He' Hin. apply Hframe2; [by apply Hframe | set_solver].
Qed.

(** Nodes whose digests the index knows under distinct keys all match by
    digest. *)
Lemma resolve_loop_known es0 now : ∀ (nks : list (Node * string)) es claimed,
  (id_Key <$> es0) `prefix_of` (id_Key <$> es) → NoDup nks.*2 → (∀ k, k ∈ nks.*2 → k ∉ claimed) →
  (∀ n k, (n, k) ∈ nks → strong_of n ≠ EmptyString ∧
     ∃ i e, es0 !! i = Some e ∧ id_Key e = k ∧ im_byStrong (index_entries es0) !! strong_of n = Some i) →
  ∃ es', resolve_loop salt (index_entries es0) now es claimed nks.*1 =
    Some (es', (λ p, (p.2, MatchedStrong)) <$> nks).
Proof.
  induction nks as [|[n k] nks IH]; intros es claimed Hp Hnd Hc Hn; cbn; [eauto|].
  destruct (Hn n k) as (Hs & i & e & Hi & Hk & Hb); [left|].
  assert (Hke : id_Key (es !!! i) = k).
  { assert (Hl : (id_Key <$> es) !! i = Some k).
    { eapply prefix_lookup_Some; [|done]. by rewrite list_lookup_fmap, Hi, <- Hk. }
    rewrite list_lookup_fmap in Hl. apply fmap_Some in Hl as (e' & He' & ->).
    by rewrite (list_lookup_total_correct _ _ _ He'). }
  assert (Hlen : (length es0 <= length es)%nat) by (apply prefix_length in Hp; by rewrite !length_fmap in Hp).
  pose proof (find_entry_strong es0 es claimed n i Hb Hs) as Hf. rewrite Hke in Hf.
  specialize (Hf (Hc k ltac:(left))).
  destruct (resolve_node salt (index_entries es0) now es claimed n) as [[es1 [k1 m1]]|] eqn:En.
  2: { unfold resolve_node in En. by rewrite Hf in En. }
  destruct (resolve_node_inv _ _ _ _ _ _ _ _ Hlen En) as (? & ? & _ & _ & _ & _ & Hp1 & _).
  unfold resolve_node in En. rewrite Hf, Hke in En. injection En as _ <- <-.
  apply NoDup_cons in Hnd as [Hnot Hnd].
  destruct (IH es1 ({[k]} ∪ claimed)) as [es2 E2]; [by etrans | done | | |].
  - intros k' Hk'. specialize (Hc k' ltac:(by right)). set_solver.
  - intros n' k' ?. apply Hn. by right.
  - cbn. rewrite E2. cbn. eauto.
Qed.

(** A refresh keeps the keys. After a refresh of nodes with pairwise
    distinct configurations over an index without shared keys or digests,
    a later refresh that brings any of the same nodes, in any order,
    recognises each by its configuration and gives it the key it had. *)
Theorem resolve_stable es nodes now es1 kms nks now' :
  NoDup (id_Key <$> es) → strong_unique es →
  NoDup (strong_of <$> nodes) → (∀ n, n ∈ nodes → strong_of n ≠ EmptyString) →
  (length es + length nodes <= maxIdentities)%nat →
  Resolve salt es nodes now = Some (es1, kms) →
  (∀ k, (k, MatchedNew) ∈ kms → k ∉ Known es) →
  nks ⊆+ zip nodes kms →
  ∃ es2, Resolve salt es1 nks.*1 now' = Some (es2, (λ p, (p.2.1, MatchedStrong)) <$> nks).
Proof.
  intros Hk Hu Hnd Hs Hlen Hres Hfresh Hsub. unfold Resolve in Hres.
  destruct (resolve_loop _ _ _ _ _ _) as [[es' kms']|] eqn:El; [|done]. cbn in Hres.
  injection Hres as <- <-.
  destruct (resolve_loop_keys es now nodes es ∅ es' kms' (le_n _) El) as (Hl & Hkn & _ & _ & Hle & _).
  rewrite trim_id by lia.
  destruct (resolve_loop_wf es now nodes es ∅ [] es' kms' Hu) as (Hu' & Hall & _); try done.
  { split; try done; set_solver. }
  assert (Hin : ∀ n km, (n, km) ∈ nks → strong_of n ≠ EmptyString ∧
    ∃ i e, es' !! i = Some e ∧ id_Key e = km.1 ∧ im_byStrong (index_entries es') !! strong_of n = Some i).
  { intros n km Hnk. assert (Hz : (n, km) ∈ zip nodes kms') by (by eapply elem_of_submseteq).
    apply list_elem_of_lookup in Hz as [j Hj]. apply lookup_zip_with_Some in Hj as (n' & km' & [= <- <-] & Hjn & Hjk).
    destruct (Forall2_lookup_lr _ _ _ _ _ _ Hall Hjn Hjk) as (i & e & Hi & Hke & Hse).
    assert (strong_of n ≠ EmptyString) by (apply Hs; by eapply list_elem_of_lookup_2).
    split; [done|]. exists i, e. split_and!; try done. rewrite <- Hse.
    apply byStrong_unique; [done..|congruence]. }
  destruct (resolve_loop_known es' now' ((λ p, (p.1, p.2.1)) <$> nks) es' ∅) as [es2 E2].
  - done.
  - assert (Hs2 : (fst <$> (snd <$> nks)) ⊆+ kms'.*1).
    { apply fmap_submseteq. rewrite <- (snd_zip nodes kms') by lia. by apply fmap_submseteq. }
    apply submseteq_Permutation in Hs2 as [l Hp]. rewrite Hp in Hkn.
    apply NoDup_app in Hkn as [Hkn _]. by rewrite <- !list_fmap_compose in *.
  - set_solver.
  - intros n k Hnk. apply list_elem_of_fmap in Hnk as ([n' km] & [= -> ->] & Hnk). by apply Hin.
  - unfold Resolve. rewrite <- list_fmap_compose in E2.
    change (fst ∘ λ p, (p.1, p.2.1)) with (fst (A := Node) (B := string * IdentityMatch)) in E2.
    rewrite E2. cbn. eexists. by rewrite <- list_fmap_compose.
Qed.
End identity_facts.

(** A stand-in for the examples: the last twelve bytes written. *)
Definition tail_hmac : Hmac :=
  {| hmac_sha256 _ data := let s := "............" +:+ data in
       String.substring (String.length s - 12) 12 s |}.

Definition sample_node (name strong : string) : Node :=
  {| nd_Name := name; nd_Provider := "p"; nd_Type := "Vless"; nd_UDP := true; nd_Server := name;
     nd_Strong := strong; nd_Endpoint := "e"; nd_Entry := ""; nd_NameCountry := ""; nd_Via := [] |}.

Definition sample_nodes : list Node := [sample_node "a" "cfg-a"; sample_node "b" "cfg-b"].

Lemma resolve_keys_distinct_witness :
  ∃ es' kms, @Resolve tail_hmac "salt" [] sample_nodes 5 = Some (es', kms) ∧ NoDup kms.*1.
Proof.
  destruct (@resolve_keys_distinct tail_hmac "salt" [] sample_nodes 5) as (es' & kms & H1 & _ & H2 & _).
  - intros node Hn. unfold sample_nodes in Hn. rewrite !elem_of_cons, elem_of_nil in Hn.
    destruct Hn as [->|[->|[]]]; apply (bool_decide_unpack _); vm_compute; exact I.
  - exists es', kms. split; [exact H1 | exact H2].
Defined.

Lemma resolve_stable_witness :
  ∃ es1 es2 kms ka kb, @Resolve tail_hmac "salt" [] sample_nodes 5 = Some (es1, kms) ∧
    kms.*1 = [ka; kb] ∧
    @Resolve tail_hmac "salt" es1 (rev sample_nodes) 9 =
      Some (es2, [(kb, MatchedStrong); (ka, MatchedStrong)]).
Proof.
  destruct (@Resolve tail_hmac "salt" [] sample_nodes 5) as [[es1 kms]|] eqn:E; [|vm_compute in E; congruence].
  assert (Ek : ∃ ka kb, kms = [(ka, MatchedNew); (kb, MatchedNew)]).
  { vm_compute in E. injection E as _ <-. do 2 eexists. reflexivity. }
  destruct Ek as (ka & kb & ->).
  destruct (@resolve_stable tail_hmac "salt" [] sample_nodes 5 es1 [(ka, MatchedNew); (kb, MatchedNew)]
    (rev (zip sample_nodes [(ka, MatchedNew); (kb, MatchedNew)])) 9) as [es2 H2].
  - constructor.
  - intros i j e e' Hi. rewrite lookup_nil in Hi. congruence.
  - apply (bool_decide_unpack _). vm_compute. exact I.
  - intros n. unfold sample_nodes. rewrite !elem_of_cons, elem_of_nil.
    intros [->|[->|[]]]; vm_compute; congruence.
  - vm_compute. lia.
  - exact E.
  - intros k _. apply not_elem_of_empty.
  - rewrite rev_alt. apply Permutation_submseteq. rewrite <- rev_alt. symmetry. apply Permutation_rev.
  - exists es1, es2, [(ka, MatchedNew); (kb, MatchedNew)], ka, kb. split_and!; [done..|]. exact H2.
Defined.
