(* ===== verification/Country.v ===== *)
(** * The country a server name declares: core/rcx/country.go, country_table.go

    A flag emoji, else a two-letter code or alias standing as a word, else a
    spelled English name, the longest first; and the cache the machine keeps
    of it across rebuilds. *)

From S2P Require Import Prelude GoText.

Local Open Scope string_scope.

Definition country_rows : list (string * string) := [
  ("AD", "Andorra"); ("AE", "United Arab Emirates"); ("AF", "Afghanistan");
  ("AG", "Antigua and Barbuda"); ("AI", "Anguilla"); ("AL", "Albania"); ("AM", "Armenia");
  ("AO", "Angola"); ("AQ", "Antarctica"); ("AR", "Argentina"); ("AS", "American Samoa");
  ("AT", "Austria"); ("AU", "Australia"); ("AW", "Aruba"); ("AX", "Åland Islands");
  ("AZ", "Azerbaijan"); ("BA", "Bosnia and Herzegovina"); ("BB", "Barbados"); ("BD", "Bangladesh");
  ("BE", "Belgium"); ("BF", "Burkina Faso"); ("BG", "Bulgaria"); ("BH", "Bahrain"); ("BI", "Burundi");
  ("BJ", "Benin"); ("BL", "Saint Barthélemy"); ("BM", "Bermuda"); ("BN", "Brunei"); ("BO", "Bolivia");
  ("BQ", "Bonaire"); ("BR", "Brazil"); ("BS", "Bahamas"); ("BT", "Bhutan"); ("BV", "Bouvet Island");
  ("BW", "Botswana"); ("BY", "Belarus"); ("BZ", "Belize"); ("CA", "Canada"); ("CC", "Cocos Islands");
  ("CD", "DR Congo"); ("CF", "Central African Republic"); ("CG", "Congo"); ("CH", "Switzerland");
  ("CI", "Ivory Coast"); ("CK", "Cook Islands"); ("CL", "Chile"); ("CM", "Cameroon"); ("CN", "China");
  ("CO", "Colombia"); ("CR", "Costa Rica"); ("CU", "Cuba"); ("CV", "Cape Verde"); ("CW", "Curaçao");
  ("CX", "Christmas Island"); ("CY", "Cyprus"); ("CZ", "Czechia"); ("DE", "Germany");
  ("DJ", "Djibouti"); ("DK", "Denmark"); ("DM", "Dominica"); ("DO", "Dominican Republic");
  ("DZ", "Algeria"); ("EC", "Ecuador"); ("EE", "Estonia"); ("EG", "Egypt"); ("EH", "Western Sahara");
  ("ER", "Eritrea"); ("ES", "Spain"); ("ET", "Ethiopia"); ("FI", "Finland"); ("FJ", "Fiji");
  ("FK", "Falkland Islands"); ("FM", "Micronesia"); ("FO", "Faroe Islands"); ("FR", "France");
  ("GA", "Gabon"); ("GB", "United Kingdom"); ("GD", "Grenada"); ("GE", "Georgia");
  ("GF", "French Guiana"); ("GG", "Guernsey"); ("GH", "Ghana"); ("GI", "Gibraltar");
  ("GL", "Greenland"); ("GM", "Gambia"); ("GN", "Guinea"); ("GP", "Guadeloupe");
  ("GQ", "Equatorial Guinea"); ("GR", "Greece");
  ("GS", "South Georgia and the South Sandwich Islands"); ("GT", "Guatemala"); ("GU", "Guam");
  ("GW", "Guinea-Bissau"); ("GY", "Guyana"); ("HK", "Hong Kong");
  ("HM", "Heard Island and McDonald Islands"); ("HN", "Honduras"); ("HR", "Croatia"); ("HT", "Haiti");
  ("HU", "Hungary"); ("ID", "Indonesia"); ("IE", "Ireland"); ("IL", "Israel"); ("IM", "Isle of Man");
  ("IN", "India"); ("IO", "British Indian Ocean Territory"); ("IQ", "Iraq"); ("IR", "Iran");
  ("IS", "Iceland"); ("IT", "Italy"); ("JE", "Jersey"); ("JM", "Jamaica"); ("JO", "Jordan");
  ("JP", "Japan"); ("KE", "Kenya"); ("KG", "Kyrgyzstan"); ("KH", "Cambodia"); ("KI", "Kiribati");
  ("KM", "Comoros"); ("KN", "Saint Kitts and Nevis"); ("KP", "North Korea"); ("KR", "South Korea");
  ("KW", "Kuwait"); ("KY", "Cayman Islands"); ("KZ", "Kazakhstan"); ("LA", "Laos"); ("LB", "Lebanon");
  ("LC", "Saint Lucia"); ("LI", "Liechtenstein"); ("LK", "Sri Lanka"); ("LR", "Liberia");
  ("LS", "Lesotho"); ("LT", "Lithuania"); ("LU", "Luxembourg"); ("LV", "Latvia"); ("LY", "Libya");
  ("MA", "Morocco"); ("MC", "Monaco"); ("MD", "Moldova"); ("ME", "Montenegro"); ("MF", "Saint Martin");
  ("MG", "Madagascar"); ("MH", "Marshall Islands"); ("MK", "North Macedonia"); ("ML", "Mali");
  ("MM", "Myanmar"); ("MN", "Mongolia"); ("MO", "Macau"); ("MP", "Northern Mariana Islands");
  ("MQ", "Martinique"); ("MR", "Mauritania"); ("MS", "Montserrat"); ("MT", "Malta");
  ("MU", "Mauritius"); ("MV", "Maldives"); ("MW", "Malawi"); ("MX", "Mexico"); ("MY", "Malaysia");
  ("MZ", "Mozambique"); ("NA", "Namibia"); ("NC", "New Caledonia"); ("NE", "Niger");
  ("NF", "Norfolk Island"); ("NG", "Nigeria"); ("NI", "Nicaragua"); ("NL", "Netherlands");
  ("NO", "Norway"); ("NP", "Nepal"); ("NR", "Nauru"); ("NU", "Niue"); ("NZ", "New Zealand");
  ("OM", "Oman"); ("PA", "Panama"); ("PE", "Peru"); ("PF", "French Polynesia");
  ("PG", "Papua New Guinea"); ("PH", "Philippines"); ("PK", "Pakistan"); ("PL", "Poland");
  ("PM", "Saint Pierre and Miquelon"); ("PN", "Pitcairn"); ("PR", "Puerto Rico"); ("PS", "Palestine");
  ("PT", "Portugal"); ("PW", "Palau"); ("PY", "Paraguay"); ("QA", "Qatar"); ("RE", "Réunion");
  ("RO", "Romania"); ("RS", "Serbia"); ("RU", "Russia"); ("RW", "Rwanda"); ("SA", "Saudi Arabia");
  ("SB", "Solomon Islands"); ("SC", "Seychelles"); ("SD", "Sudan"); ("SE", "Sweden");
  ("SG", "Singapore"); ("SH", "Saint Helena"); ("SI", "Slovenia"); ("SJ", "Svalbard and Jan Mayen");
  ("SK", "Slovakia"); ("SL", "Sierra Leone"); ("SM", "San Marino"); ("SN", "Senegal");
  ("SO", "Somalia"); ("SR", "Suriname"); ("SS", "South Sudan"); ("ST", "Sao Tome and Principe");
  ("SV", "El Salvador"); ("SX", "Sint Maarten"); ("SY", "Syria"); ("SZ", "Eswatini");
  ("TC", "Turks and Caicos Islands"); ("TD", "Chad"); ("TF", "French Southern Territories");
  ("TG", "Togo"); ("TH", "Thailand"); ("TJ", "Tajikistan"); ("TK", "Tokelau"); ("TL", "Timor-Leste");
  ("TM", "Turkmenistan"); ("TN", "Tunisia"); ("TO", "Tonga"); ("TR", "Turkey");
  ("TT", "Trinidad and Tobago"); ("TV", "Tuvalu"); ("TW", "Taiwan"); ("TZ", "Tanzania");
  ("UA", "Ukraine"); ("UG", "Uganda"); ("UM", "United States Minor Outlying Islands");
  ("US", "United States"); ("UY", "Uruguay"); ("UZ", "Uzbekistan"); ("VA", "Vatican");
  ("VC", "Saint Vincent and the Grenadines"); ("VE", "Venezuela"); ("VG", "British Virgin Islands");
  ("VI", "US Virgin Islands"); ("VN", "Vietnam"); ("VU", "Vanuatu"); ("WF", "Wallis and Futuna");
  ("WS", "Samoa"); ("YE", "Yemen"); ("YT", "Mayotte"); ("ZA", "South Africa"); ("ZM", "Zambia");
  ("ZW", "Zimbabwe")].

Definition alias_rows : list (string * string) := [
  ("USA", "US"); ("America", "US"); ("United States of America", "US"); ("UK", "GB");
  ("Britain", "GB"); ("Great Britain", "GB"); ("England", "GB"); ("Korea", "KR");
  ("Russian Federation", "RU"); ("Türkiye", "TR"); ("Turkiye", "TR"); ("Czech Republic", "CZ");
  ("Holland", "NL"); ("UAE", "AE"); ("Emirates", "AE"); ("Macao", "MO"); ("Viet Nam", "VN");
  ("Côte d'Ivoire", "CI"); ("Cabo Verde", "CV"); ("Eswatini", "SZ"); ("Swaziland", "SZ");
  ("Macedonia", "MK"); ("Burma", "MM"); ("Congo", "CG"); ("Vatican City", "VA"); ("Holy See", "VA")].

Definition countryNames : gmap string string := list_to_map country_rows.
Definition nameAliases : gmap string string := list_to_map alias_rows.

Local Close Scope string_scope.

Definition regionalA : rune := 127462.
Definition regionalZ : rune := 127487.
Definition maxCountryCache : nat := 8192.

Record countryName := { cy_name : string; cy_code : string }.

Definition is_country (code : string) : bool := bool_decide (is_Some (countryNames !! code)).

(** The loop of [flagCountry] over the runes of the name. *)
Fixpoint flag_from (prev : rune) (runes : list rune) : string :=
  match runes with
  | [] => EmptyString
  | r :: runes =>
      if (regionalA <=? r) && (r <=? regionalZ) then
        if negb (prev =? 0) then
          let code := encode [65 + prev - regionalA; 65 + r - regionalA] in
          if is_country code then code else flag_from 0 runes
        else flag_from r runes
      else flag_from 0 runes
  end.

Definition flagCountry (name : string) : string := flag_from 0 (decode name).

Section country.
Context `{Unicode}.

Definition country_order (a b : countryName) : Z :=
  cmp_or (compareZ (slen (cy_name b)) (slen (cy_name a))) (compareS (cy_name a) (cy_name b)).

Definition spelledCountries : list countryName :=
  sort_stable country_order
    (((λ p, {| cy_name := ToLower p.2; cy_code := p.1 |}) <$> country_rows) ++
     ((λ p, {| cy_name := ToLower p.1; cy_code := p.2 |}) <$>
        filter (λ p, 2 < slen p.1) alias_rows)).

Definition letterRuns (name : string) : list string := FieldsFunc name (λ r, negb (is_letter r)).

(** The loop of [containsWord] from byte [start]. *)
Fixpoint contains_word_from (fuel : nat) (text word : string) (start : nat) : bool :=
  match fuel with
  | O => false
  | S fuel =>
      match Index (string_drop start text) word with
      | None => false
      | Some i =>
          let i := (i + start)%nat in
          let before := default RuneError (last (decode (String.substring 0 i text))) in
          let after := default RuneError (head (decode (string_drop (i + String.length word) text))) in
          if negb (is_letter before) && negb (is_letter after) then true
          else contains_word_from fuel text word (S i)
      end
  end.

(** Every turn starts past the last match, so the length of the text bounds
    the turns. *)
Definition containsWord (text word : string) : bool :=
  contains_word_from (S (String.length text)) text word 0.

(** The loop over the two-letter upper-case words. *)
Fixpoint token_country (tokens : list string) : string :=
  match tokens with
  | [] => EmptyString
  | token :: tokens =>
      if negb (slen token =? 2) || negb (eqs (ToUpper token) token) then token_country tokens
      else let alias := default EmptyString (nameAliases !! token) in
           if negb (empty alias) then alias
           else if is_country token then token else token_country tokens
  end.

Definition CountryOfName (name : string) : string :=
  let code := flagCountry name in
  if negb (empty code) then code
  else
    let code := token_country (letterRuns name) in
    if negb (empty code) then code
    else match List.find (λ entry, containsWord (ToLower name) (cy_name entry)) spelledCountries with
         | Some entry => cy_code entry
         | None => EmptyString
         end.

(** [machine.countryOf]: the code and the cache after the call. *)
Definition countryOf (cache : gmap string string) (name : string) : string * gmap string string :=
  match cache !! name with
  | Some code => (code, cache)
  | None =>
      let cache := if (maxCountryCache <? size cache)%nat then ∅ else cache in
      let code := CountryOfName name in
      (code, <[name := code]> cache)
  end.

(** ** The codes it answers with *)

Lemma flag_from_known prev runes :
  flag_from prev runes = EmptyString ∨ is_country (flag_from prev runes) = true.
Proof.
  revert prev. induction runes as [|r runes IH]; intros prev; [by left|]. cbn [flag_from].
  repeat case_if; auto.
Qed.

Lemma aliases_known : forallb (λ p, is_country p.2) alias_rows = true.
Proof. vm_compute. reflexivity. Qed.

Lemma names_known : forallb (λ p, is_country p.1) country_rows = true.
Proof. vm_compute. reflexivity. Qed.

Lemma alias_known token code : nameAliases !! token = Some code → is_country code = true.
Proof.
  intros Hc. apply elem_of_list_to_map_2 in Hc.
  pose proof aliases_known as Ha. rewrite forallb_forall in Ha.
  apply (Ha (token, code)). by apply list_elem_of_In.
Qed.

Lemma token_known tokens : token_country tokens = EmptyString ∨ is_country (token_country tokens) = true.
Proof.
  induction tokens as [|token tokens IH]; [by left|]. cbn [token_country].
  destruct (nameAliases !! token) as [code|] eqn:Ha; cbn [default]; repeat case_if; auto.
  right. by apply alias_known in Ha.
Qed.

Lemma spelled_known entry : entry ∈ spelledCountries → is_country (cy_code entry) = true.
Proof.
  unfold spelledCountries. rewrite sort_stable_perm, elem_of_app, !list_elem_of_fmap.
  pose proof aliases_known as Ha. pose proof names_known as Hn. rewrite forallb_forall in Ha, Hn.
  intros [([k v] & -> & Hin)|([k v] & -> & [_ Hin]%list_elem_of_filter)]; cbn;
    [apply (Hn (k, v)) | apply (Ha (k, v))]; by apply list_elem_of_In.
Qed.

(** Whatever the name of a server, the country read from it is one of
    the ISO codes of the table or none at all; and when the name holds a flag
    of the table or a code standing as a word, no spelled name overrides it. *)
Theorem country_known name :
  (CountryOfName name = EmptyString ∨ is_country (CountryOfName name) = true) ∧
  (flagCountry name ≠ EmptyString → CountryOfName name = flagCountry name) ∧
  (flagCountry name = EmptyString → token_country (letterRuns name) ≠ EmptyString →
   CountryOfName name = token_country (letterRuns name)).
Proof.
  unfold CountryOfName.
  destruct (flag_from_known 0 (decode name)) as [Hf|Hf]; fold (flagCountry name) in Hf.
  - rewrite Hf. cbn [empty negb]. change (negb (empty "")) with false. cbn match.
    split_and!; [|done|].
    + destruct (token_known (letterRuns name)) as [Ht|Ht]; case_if; auto.
      * destruct (List.find _ _) as [e|] eqn:Hfind; [|by left].
        apply List.find_some in Hfind as [Hin _]. right. by apply spelled_known, list_elem_of_In.
      * destruct (List.find _ _) as [e|] eqn:Hfind; [|by left].
        apply List.find_some in Hfind as [Hin _]. right. by apply spelled_known, list_elem_of_In.
    + intros _ Ht. unfold empty. by rewrite bool_decide_eq_false_2.
  - assert (Hne : flagCountry name ≠ EmptyString) by (intros E; rewrite E in Hf; vm_compute in Hf; done).
    unfold empty. rewrite (bool_decide_eq_false_2 _ Hne). cbn [negb]. by split_and!; [right| |].
Qed.

Definition cache_ok (cache : gmap string string) : Prop :=
  ∀ name code, cache !! name = Some code → code = CountryOfName name.

Lemma countryOf_cached cache name : cache_ok cache →
  (countryOf cache name).1 = CountryOfName name ∧ cache_ok (countryOf cache name).2.
Proof.
  intros Hok. unfold countryOf. destruct (cache !! name) as [code|] eqn:E; [by auto|].
  split; [done|]. intros n c. cbn. destruct (decide (name = n)) as [->|Hn].
  - rewrite lookup_insert_eq. by intros [= <-].
  - rewrite lookup_insert_ne by done. case_if; [by rewrite lookup_empty | apply Hok].
Qed.
End country.
