(* ===== verification/Profile.v ===== *)
(** * Profiles: the data and the validation of core/rcx/profile.go, the
    layering of core/rcx/policy.go

    A profile is the routing policy document; layers of it are merged base
    first, and a binding attaches one to a group. *)

From S2P Require Import Prelude GoText Cond CondSyntax.

Definition FormatVersion : Z := 1.
Definition maxTiers : nat := 16.
Definition maxTags : nat := 32.
Definition maxExtendsDepth : nat := 4.
Definition maxChips : nat := 12.
Definition maxChecks : nat := 8.
Definition maxDiagnostics : nat := 8.
Definition maxTargets : nat := 4.
Definition maxKinds : nat := 8.
Definition maxEcho : nat := 4.
Definition maxLanguages : nat := 16.
Definition maxStrings : nat := 64.
Definition maxStringLength : nat := 160.

(** ** Data *)

Record Pool := { po_Include : string; po_Exclude : string }.
Record TierSpec := { ts_Label : string; ts_When : string; ts_LastResort : bool }.
Record RankSpec := { rk_By : string; rk_Tolerance : Z }.

Record SwitchSpec := {
  sw_Feel : string;
  sw_Improve : option bool;
  sw_Dwell : duration;
  sw_MinGainMs : Z;
  sw_MinGainPct : Z;
  sw_Confirm : Z;
  sw_MaxPerHour : Z;
}.

Record Check := {
  cx_HTTP : string;
  cx_TCP : string;
  cx_TLS : string;
  cx_SNI : string;
  cx_Expect : list Z;
  cx_Optional : bool;
}.

Record Target := { tg_Kind : string; tg_Addr : string }.
Definition target_string (t : Target) : string := tg_Kind t +:+ " " +:+ tg_Addr t.

Record Diagnostic := { dg_HTTP : list string; dg_TCP : list string; dg_TLS : list string }.

Definition targets (d : Diagnostic) : list Target :=
  ((λ a, {| tg_Kind := "http"; tg_Addr := a |}) <$> dg_HTTP d) ++
  ((λ a, {| tg_Kind := "tcp"; tg_Addr := a |}) <$> dg_TCP d) ++
  ((λ a, {| tg_Kind := "tls"; tg_Addr := a |}) <$> dg_TLS d).

Record KindSpec := { ks_Kind : string; ks_When : string; ks_Pause : bool }.
Record NetworkSpec := { nw_Diagnose : gmap string Diagnostic; nw_Kinds : list KindSpec }.

Record Layer := {
  ly_Pool : Pool;
  ly_Prefer : list TierSpec;
  ly_Rank : RankSpec;
  ly_Switch : SwitchSpec;
  ly_Stranded : string;
  ly_Energy : string;
}.

Record Egress := { eg_Echo : list string; eg_Agree : Z }.

Record Profile := {
  pr_RCX : Z;
  pr_Title : string;
  pr_Description : string;
  pr_Level : string;
  pr_Extends : string;
  pr_Pool : Pool;
  pr_Tags : gmap string string;
  pr_Prefer : list TierSpec;
  pr_Rank : RankSpec;
  pr_Switch : SwitchSpec;
  pr_Stranded : string;
  pr_Energy : string;
  pr_Checks : gmap string Check;
  pr_Network : NetworkSpec;
  pr_On : gmap string Layer;
  pr_DirectSplit : string;
  pr_Egress : Egress;
  pr_L10n : gmap string (gmap string string);
}.

Definition no_pool : Pool := {| po_Include := ""; po_Exclude := "" |}.
Definition no_switch : SwitchSpec :=
  {| sw_Feel := ""; sw_Improve := None; sw_Dwell := 0; sw_MinGainMs := 0; sw_MinGainPct := 0;
     sw_Confirm := 0; sw_MaxPerHour := 0 |}.

(** [&Profile{}]. *)
Definition no_profile : Profile :=
  {| pr_RCX := 0; pr_Title := ""; pr_Description := ""; pr_Level := ""; pr_Extends := "";
     pr_Pool := no_pool; pr_Tags := ∅; pr_Prefer := []; pr_Rank := {| rk_By := ""; rk_Tolerance := 0 |};
     pr_Switch := no_switch; pr_Stranded := ""; pr_Energy := ""; pr_Checks := ∅;
     pr_Network := {| nw_Diagnose := ∅; nw_Kinds := [] |}; pr_On := ∅; pr_DirectSplit := "";
     pr_Egress := {| eg_Echo := []; eg_Agree := 0 |}; pr_L10n := ∅ |}.

(** ** Bindings *)

Record Chip := { ch_Label : string; ch_Include : string }.

Record Binding := {
  bi_Profiles : list string;
  bi_Default : string;
  bi_Profile : string;
  bi_Pool : Pool;
  bi_Feel : string;
  bi_Energy : string;
  bi_Chips : list Chip;
  bi_Prefer : list TierSpec;
  bi_DirectSplit : bool;
  bi_fixed : string;
  bi_extra : Pool;
  bi_tags : gmap string string;
  bi_prefer : list TierSpec;
}.

(** [Binding{}]. *)
Definition no_binding : Binding :=
  {| bi_Profiles := []; bi_Default := ""; bi_Profile := ""; bi_Pool := no_pool; bi_Feel := "";
     bi_Energy := ""; bi_Chips := []; bi_Prefer := []; bi_DirectSplit := false; bi_fixed := "";
     bi_extra := no_pool; bi_tags := ∅; bi_prefer := [] |}.

(** ** Errors *)

Inductive PathItem := PathKey (k : string) | PathIndex (i : nat).

(** An error value: the format of a message with its arguments, a wrapped
    error ([%w]), a [PathError], a condition's error, a [ConsentError]. *)
Inductive profileError :=
  | Errorf (format : string) (args : list string)
  | Wrapf (format : string) (args : list string) (err : profileError)
  | PathError (path : list PathItem) (err : profileError)
  | CondError (err : condError)
  | ConsentError (profile : string) (hosts : list string).

(** [errors.As(err, &inner)] for a [*PathError]. *)
Fixpoint as_path (err : profileError) : option (list PathItem) :=
  match err with
  | PathError path _ => Some path
  | Wrapf _ _ err => as_path err
  | _ => None
  end.

(** [errors.As(err, &consent)]. *)
Fixpoint as_consent (err : profileError) : option (string * list string) :=
  match err with
  | ConsentError p hosts => Some (p, hosts)
  | PathError _ err | Wrapf _ _ err => as_consent err
  | _ => None
  end.

Definition atPath (err : profileError) (path : list PathItem) : profileError :=
  PathError (path ++ default [] (as_path err)) err.

Definition key (k : string) : PathItem := PathKey k.

(** Keep a failure, naming the path it is about. *)
Definition at_path {A} (path : list PathItem) (wrap : profileError → profileError)
    (r : result profileError A) : result profileError A :=
  match r with Ok a => Ok a | Err e => Err (atPath (wrap e) path) end.

(** Fail when the condition holds. *)
Definition refuse (b : bool) (e : profileError) : result profileError unit :=
  if b then Err e else Ok tt.

Fixpoint each {A} (f : nat → A → result profileError unit) (i : nat) (l : list A)
    : result profileError unit :=
  match l with
  | [] => Ok tt
  | x :: l => f i x ;; each f (S i) l
  end.

(** ** Addresses *)

(** net/url's parser, of which the code reads the scheme and the host. *)
Class Url := { url_parse : string → option (string * string) }.

(** The position of the last byte [c]. *)
Fixpoint last_byte (c : ascii) (s : string) : option nat :=
  match s with
  | EmptyString => None
  | String d s' =>
      match last_byte c s' with
      | Some i => Some (S i)
      | None => if bool_decide (d = c) then Some 0%nat else None
      end
  end.

(** [net.SplitHostPort], its failures not told apart. *)
Definition SplitHostPort (hostport : string) : option (string * string) :=
  i ← last_byte ":" hostport;
  let port := string_drop (S i) hostport in
  if HasPrefix hostport "[" then
    end_ ← Index hostport "]";
    if (S end_ =? i)%nat then
      if has_byte "[" (string_drop 1 hostport) || has_byte "]" (string_drop (S end_) hostport) then None
      else Some (String.substring 1 (end_ - 1) hostport, port)
    else None
  else
    let host := String.substring 0 i hostport in
    if has_byte ":" host || has_byte "[" hostport || has_byte "]" hostport then None
    else Some (host, port).

Definition validAddr (addr : string) : bool :=
  match SplitHostPort addr with
  | Some (host, port) =>
      negb (empty host) &&
      match Atoi port with Some n => (0 <? n) && (n <? 65536) | None => false end
  | None => false
  end.

Definition validURL `{Url} (raw : string) : bool :=
  match url_parse raw with
  | Some (scheme, host) => (eqs scheme "https" || eqs scheme "http") && negb (empty host)
  | None => false
  end.

Definition in_runes (lo hi r : rune) : bool := (lo <=? r) && (r <=? hi).

Definition validName (name : string) : bool :=
  if empty name || (24 <? String.length name)%nat then false
  else forallb (λ r, in_runes 97 122 r || in_runes 48 57 r || (r =? 45)) (decode name).

(** ** Validation *)

Definition feelNames : list string := ["calm"; "balanced"; "eager"].
Definition energyNames : list string := ["eco"; "balanced"; "precise"].

Definition validateLayer (l : Layer) : result profileError unit :=
  refuse (maxTiers <? length (ly_Prefer l))%nat
    (atPath (Errorf "more than %d preference tiers" []) [key "prefer"]) ;;
  refuse (negb (mem_string (rk_By (ly_Rank l)) [""; "latency"; "stability"]))
    (atPath (Errorf "rank by %q is not latency or stability" [rk_By (ly_Rank l)]) [key "rank"; key "by"]) ;;
  refuse (negb (mem_string (sw_Feel (ly_Switch l)) ("" :: feelNames)))
    (atPath (Errorf "switch feel %q is not calm, balanced or eager" [sw_Feel (ly_Switch l)])
       [key "switch"; key "feel"]) ;;
  refuse (negb (mem_string (ly_Energy l) ("" :: energyNames)))
    (atPath (Errorf "energy %q is not eco, balanced or precise" [ly_Energy l]) [key "energy"]) ;;
  refuse (negb (mem_string (ly_Stranded l) [""; "hold"; "direct"]) && negb (HasPrefix (ly_Stranded l) "group:"))
    (atPath (Errorf "stranded %q is not hold, direct or group:<name>" [ly_Stranded l]) [key "stranded"]).

Section validate.
Context `{Unicode} `{Url} `{RangeOrder}.

Definition validate_check (c : Check) : result profileError unit :=
  let set := length (filter (λ t, negb (empty t)) [cx_HTTP c; cx_TCP c; cx_TLS c]) in
  if negb (set =? 1)%nat then Err (Errorf "needs exactly one of http, tcp or tls" [])
  else if negb (empty (cx_HTTP c)) && negb (validURL (cx_HTTP c))
    then Err (Errorf "%q is not an http(s) URL" [cx_HTTP c])
  else if negb (empty (cx_TCP c)) && negb (validAddr (cx_TCP c)) ||
          negb (empty (cx_TLS c)) && negb (validAddr (cx_TLS c))
    then Err (Errorf "tcp and tls need host:port" [])
  else if negb (bool_decide (cx_Expect c = [])) && empty (cx_HTTP c)
    then Err (Errorf "expect applies to http only" [])
  else each (λ _ status, refuse ((status <? 100) || (599 <? status))
         (Errorf "status %d is not an HTTP status" [])) 0 (cx_Expect c).

Definition validate_target (name : string) (t : Target) : result profileError unit :=
  refuse (eqs (tg_Kind t) "http" && negb (validURL (tg_Addr t)) ||
          negb (eqs (tg_Kind t) "http") && negb (validAddr (tg_Addr t)))
    (atPath (Errorf "diagnostic %s: %q is not a valid %s target" [name; tg_Addr t; tg_Kind t])
       [key "diagnose"; key name; key (tg_Kind t)]).

Definition validate_network (n : NetworkSpec) : result profileError unit :=
  refuse (maxDiagnostics <? size (nw_Diagnose n))%nat
    (atPath (Errorf "more than %d network diagnostics" []) [key "diagnose"]) ;;
  each (λ _ name,
    let ts := default [] (targets <$> nw_Diagnose n !! name) in
    refuse (negb (validName name) || bool_decide (ts = []) || (maxTargets <? length ts)%nat)
      (atPath (Errorf "diagnostic %s needs a short lowercase name and 1 to %d targets" [name])
         [key "diagnose"; key name]) ;;
    each (λ _ t, validate_target name t) 0 ts) 0 (sorted_keys (nw_Diagnose n)) ;;
  refuse (maxKinds <? length (nw_Kinds n))%nat
    (atPath (Errorf "more than %d network kinds" []) [key "kinds"]) ;;
  each (λ i kind, refuse (negb (validName (ks_Kind kind)))
    (atPath (Errorf "network kind %q is not a short lowercase name" [ks_Kind kind])
       [key "kinds"; PathIndex i; key "kind"])) 0 (nw_Kinds n).

Definition language_rune (r : rune) : bool := in_runes 97 122 r || in_runes 65 90 r || in_runes 48 57 r.

Definition validLanguage (tag : string) : bool :=
  let '(lang, region, hasRegion) := Cut tag "-" in
  if (slen lang <? 2) || (3 <? slen lang) || negb (eqs (ToLower lang) lang) ||
     hasRegion && ((slen region <? 2) || (8 <? slen region)) then false
  else forallb language_rune (decode (lang +:+ region)).

Definition bad_translation (source text : string) : bool :=
  empty source || empty text || (maxStringLength <? length (decode source))%nat ||
  (maxStringLength <? length (decode text))%nat.

(** The texts of a language are visited in map order: the first bad one
    found is the one named. *)
Definition validateL10n (l10n : gmap string (gmap string string)) : result profileError unit :=
  refuse (maxLanguages <? size l10n)%nat (atPath (Errorf "more than %d languages" []) [key "l10n"]) ;;
  each (λ _ lang,
    refuse (negb (validLanguage lang))
      (atPath (Errorf "%q is not a language tag like ru or zh-CN" [lang]) [key "l10n"; key lang]) ;;
    let texts := default ∅ (l10n !! lang) in
    refuse (maxStrings <? size texts)%nat
      (atPath (Errorf "l10n %s: more than %d strings" [lang]) [key "l10n"; key lang]) ;;
    each (λ _ '(source, text), refuse (bad_translation source text)
      (atPath (Errorf "l10n %s: %q needs a translation of 1 to %d characters" [lang; source])
         [key "l10n"; key lang; key source])) 0 (range_map texts)) 0 (sorted_keys l10n).

Definition layer (p : Profile) : Layer :=
  {| ly_Pool := pr_Pool p; ly_Prefer := pr_Prefer p; ly_Rank := pr_Rank p; ly_Switch := pr_Switch p;
     ly_Stranded := pr_Stranded p; ly_Energy := pr_Energy p |}.

Definition validate_checks (checks : gmap string Check) : result profileError unit :=
  refuse (maxChecks <? size checks)%nat (atPath (Errorf "more than %d checks" []) [key "checks"]) ;;
  each (λ _ id, match checks !! id with
                | Some c => at_path [key "checks"; key id] (Wrapf "check %s: %w" [id]) (validate_check c)
                | None => Ok tt
                end) 0 (sorted_keys checks).

Definition validate_on (on : gmap string Layer) : result profileError unit :=
  refuse (maxKinds <? size on)%nat (atPath (Errorf "more than %d network overrides" []) [key "on"]) ;;
  each (λ _ kind,
    refuse (negb (validName kind))
      (atPath (Errorf "network kind %q is not a short lowercase name" [kind]) [key "on"; key kind]) ;;
    match on !! kind with
    | Some l => at_path [key "on"; key kind] (Wrapf "on %s: %w" [kind]) (validateLayer l)
    | None => Ok tt
    end) 0 (sorted_keys on).

Definition validate_egress (e : Egress) : result profileError unit :=
  refuse (maxEcho <? length (eg_Echo e))%nat
    (atPath (Errorf "more than %d echo services" []) [key "egress-verify"; key "echo"]) ;;
  each (λ i echo, refuse (negb (validURL echo))
    (atPath (Errorf "echo %q is not an http(s) URL" [echo]) [key "egress-verify"; key "echo"; PathIndex i]))
    0 (eg_Echo e) ;;
  refuse ((eg_Agree e <? 0) || (3 <? eg_Agree e))
    (atPath (Errorf "egress agree %d is not 1 to 3" []) [key "egress-verify"; key "agree"]).

Definition validate (p : Profile) : result profileError unit :=
  refuse (FormatVersion <? pr_RCX p)
    (Errorf "profile format %d is newer than this app understands (%d)" []) ;;
  refuse (negb (mem_string (pr_Level p) [""; "simple"; "advanced"]))
    (atPath (Errorf "level %q is not simple or advanced" [pr_Level p]) [key "level"]) ;;
  refuse (maxTags <? size (pr_Tags p))%nat (atPath (Errorf "more than %d tags" []) [key "tags"]) ;;
  validateLayer (layer p) ;;
  validate_checks (pr_Checks p) ;;
  at_path [key "network"] id (validate_network (pr_Network p)) ;;
  validate_on (pr_On p) ;;
  validate_egress (pr_Egress p) ;;
  validateL10n (pr_L10n p).
End validate.

(** ** Layering: [mergeProfile] of core/rcx/policy.go *)

(** [mergeMap(base, child)]: the child's entries win. *)
Definition mergeMap {V} (base child : gmap string V) : gmap string V := child ∪ base.

(** [if child != zero { out = child }]. *)
Definition over_string (base child : string) : string := if empty child then base else child.
Definition over_int (base child : Z) : Z := if child =? 0 then base else child.
Definition over_list {A} (base child : list A) : list A :=
  match child with [] => base | _ => child end.

Section pools.
Context `{Unicode}.

Definition pool_join (a b op : string) : string :=
  if empty (TrimSpace a) then b
  else if empty (TrimSpace b) then a
  else "(" +:+ a +:+ ") " +:+ op +:+ " (" +:+ b +:+ ")".

Definition narrowPool (base child : Pool) : Pool :=
  {| po_Include := pool_join (po_Include base) (po_Include child) "and";
     po_Exclude := pool_join (po_Exclude base) (po_Exclude child) "or" |}.

Definition mergeSwitch (s c : SwitchSpec) : SwitchSpec :=
  let s := if empty (sw_Feel c) then s
           else {| no_switch with sw_Feel := sw_Feel c; sw_Improve := sw_Improve s |} in
  {| sw_Feel := sw_Feel s;
     sw_Improve := match sw_Improve c with Some b => Some b | None => sw_Improve s end;
     sw_Dwell := over_int (sw_Dwell s) (sw_Dwell c);
     sw_MinGainMs := over_int (sw_MinGainMs s) (sw_MinGainMs c);
     sw_MinGainPct := over_int (sw_MinGainPct s) (sw_MinGainPct c);
     sw_Confirm := over_int (sw_Confirm s) (sw_Confirm c);
     sw_MaxPerHour := over_int (sw_MaxPerHour s) (sw_MaxPerHour c) |}.

Definition mergeL10n (base child : gmap string (gmap string string)) : gmap string (gmap string string) :=
  if decide (child = ∅) then base
  else map_imap (λ lang _, Some (mergeMap (default ∅ (base !! lang)) (default ∅ (child !! lang))))
         (mergeMap base child).

Definition mergeProfile (base child : Profile) : Profile :=
  {| pr_RCX := over_int (pr_RCX base) (pr_RCX child);
     pr_Title := over_string (pr_Title base) (pr_Title child);
     pr_Description := over_string (pr_Description base) (pr_Description child);
     pr_Level := over_string (pr_Level base) (pr_Level child);
     pr_Extends := pr_Extends base;
     pr_Pool := narrowPool (pr_Pool base) (pr_Pool child);
     pr_Tags := mergeMap (pr_Tags base) (pr_Tags child);
     pr_Prefer := over_list (pr_Prefer base) (pr_Prefer child);
     pr_Rank := {| rk_By := over_string (rk_By (pr_Rank base)) (rk_By (pr_Rank child));
                   rk_Tolerance := over_int (rk_Tolerance (pr_Rank base)) (rk_Tolerance (pr_Rank child)) |};
     pr_Switch := mergeSwitch (pr_Switch base) (pr_Switch child);
     pr_Stranded := over_string (pr_Stranded base) (pr_Stranded child);
     pr_Energy := over_string (pr_Energy base) (pr_Energy child);
     pr_Checks := mergeMap (pr_Checks base) (pr_Checks child);
     pr_Network :=
       {| nw_Diagnose := mergeMap (nw_Diagnose (pr_Network base)) (nw_Diagnose (pr_Network child));
          nw_Kinds := over_list (nw_Kinds (pr_Network base)) (nw_Kinds (pr_Network child)) |};
     pr_On := mergeMap (pr_On base) (pr_On child);
     pr_DirectSplit := over_string (pr_DirectSplit base) (pr_DirectSplit child);
     pr_Egress := {| eg_Echo := over_list (eg_Echo (pr_Egress base)) (eg_Echo (pr_Egress child));
                     eg_Agree := over_int (eg_Agree (pr_Egress base)) (eg_Agree (pr_Egress child)) |};
     pr_L10n := mergeL10n (pr_L10n base) (pr_L10n child) |}.
End pools.
