(* ===== verification/Policy.v ===== *)
(** * Policies: core/rcx/policy.go

    A policy is a profile compiled for one group: every condition parsed and
    every default resolved. The library holds the profiles by id; compiling
    one follows its extends chain, asks for consent, and lays the binding on
    top. *)

From S2P Require Import Prelude GoText Cond CondSyntax Profile.

Record NamedCond := { nc_Name : string; nc_Cond : option Cond }.

Record Tier := {
  ti_Label : string;
  ti_When : option Cond;
  ti_LastResort : bool;
  ti_Source : nat;
}.

Record KindRule := { kr_Kind : string; kr_When : option Cond; kr_Pause : bool }.

(** [Policy] without [On]: a network override is a whole policy of its own
    whose [On] is empty. *)
Record Policy := {
  pl_ID : string;
  pl_Title : string;
  pl_Level : string;
  pl_Include : option Cond;
  pl_Exclude : option Cond;
  pl_Tags : list NamedCond;
  pl_Tiers : list Tier;
  pl_RankBy : string;
  pl_Tolerance : Z;
  pl_Improve : bool;
  pl_Dwell : duration;
  pl_MinGainMs : Z;
  pl_MinGainPct : Z;
  pl_Confirm : Z;
  pl_MaxPerHour : Z;
  pl_Stranded : string;
  pl_Energy : string;
  pl_Fixed : string;
  pl_Checks : gmap string Check;
  pl_CheckIDs : list string;
  pl_UsesExit : bool;
  pl_Egress : Egress;
  pl_Diagnostics : gmap string (list Target);
  pl_Kinds : list KindRule;
  pl_DirectSplit : option Cond;
}.

(** A compiled profile: the policy and the policies of its [On]. *)
Record LayeredPolicy := { lp_Base : Policy; lp_On : gmap string Policy }.

Definition forKind (p : LayeredPolicy) (kind : string) : Policy :=
  match lp_On p !! kind with Some layered => layered | None => lp_Base p end.

Definition pauses (p : Policy) (kind : string) : bool :=
  match List.find (λ rule, eqs (kr_Kind rule) kind) (pl_Kinds p) with
  | Some rule => kr_Pause rule
  | None => false
  end.

(** ** Presets *)

Record feel := {
  fe_dwell : duration;
  fe_minGainMs : Z;
  fe_minGainPct : Z;
  fe_confirm : Z;
  fe_maxPerHour : Z;
}.

Definition feels : gmap string feel := list_to_map [
  ("calm"%string, {| fe_dwell := 30 * Minute; fe_minGainMs := 60; fe_minGainPct := 30; fe_confirm := 3; fe_maxPerHour := 2 |});
  ("balanced"%string, {| fe_dwell := 10 * Minute; fe_minGainMs := 30; fe_minGainPct := 20; fe_confirm := 2; fe_maxPerHour := 4 |});
  ("eager"%string, {| fe_dwell := 2 * Minute; fe_minGainMs := 15; fe_minGainPct := 10; fe_confirm := 2; fe_maxPerHour := 8 |})].

(** The zero [feel] a missing key gives. *)
Definition no_feel : feel :=
  {| fe_dwell := 0; fe_minGainMs := 0; fe_minGainPct := 0; fe_confirm := 0; fe_maxPerHour := 0 |}.

Definition pick (value fallback : Z) : Z := if value =? 0 then fallback else value.

Definition defaultEcho : list string :=
  ["https://www.cloudflare.com/cdn-cgi/trace"; "https://ipinfo.io/json"].
Definition defaultAgree : Z := 2.

(** ** Compiling *)

Fixpoint collect {A B} (f : nat → A → result profileError B) (i : nat) (l : list A)
    : result profileError (list B) :=
  match l with
  | [] => Ok []
  | x :: l => b ← f i x; bs ← collect f (S i) l; Ok (b :: bs)
  end.

Section compile.
Context `{Unicode} `{Regexp}.

(** A condition's text, its failure named by [wrap] and [path]. *)
Definition cond_at (scope : condScope) (text : string) (format : string) (args : list string)
    (path : list PathItem) : result profileError (option Cond) :=
  match parseCond scope text with
  | Ok c => Ok c
  | Err e => Err (atPath (Wrapf format args (CondError e)) path)
  end.

Record CompiledNetwork := {
  cn_Diagnostics : gmap string (list Target);
  cn_Kinds : list KindRule;
  cn_DirectSplit : option Cond;
}.

Definition compileNetwork (profile : Profile) : result profileError CompiledNetwork :=
  let scope := {| cs_tags := None; cs_checks := ∅;
                  cs_diags := Some (dom (nw_Diagnose (pr_Network profile))) |} in
  kinds ← collect (λ i spec,
    when ← cond_at scope (ks_When spec) "network kind %s: %w" [ks_Kind spec]
             [key "network"; key "kinds"; PathIndex i; key "when"];
    Ok {| kr_Kind := ks_Kind spec; kr_When := when; kr_Pause := ks_Pause spec |})
    0 (nw_Kinds (pr_Network profile));
  split ← cond_at scope (pr_DirectSplit profile) "direct-split: %w" [] [key "direct-split"];
  Ok {| cn_Diagnostics := targets <$> nw_Diagnose (pr_Network profile);
        cn_Kinds := kinds; cn_DirectSplit := split |}.

Definition tier_label (spec : TierSpec) (i : nat) : string :=
  if empty (ts_Label spec) then "Tier " +:+ Itoa (Z.of_nat i + 1) else ts_Label spec.

(** A last-resort step yields to every other step. *)
Definition last_resort_order (a b : Tier) : Z :=
  if Bool.eqb (ti_LastResort a) (ti_LastResort b) then 0 else if ti_LastResort a then 1 else -1.

Definition working_tier : Tier :=
  {| ti_Label := "Working";
     ti_When := match ParseCond "not dead" None with Ok c => c | Err _ => None end;
     ti_LastResort := false; ti_Source := 0 |}.

Definition compileTiers (scope : condScope) (prefer : list TierSpec) : result profileError (list Tier) :=
  tiers ← collect (λ i spec,
    when ← cond_at scope (ts_When spec) "prefer %d (%s): %w" [Itoa (Z.of_nat i + 1); ts_Label spec]
             [key "prefer"; PathIndex i; key "when"];
    Ok {| ti_Label := tier_label spec i; ti_When := when;
          ti_LastResort := ts_LastResort spec; ti_Source := i |}) 0 prefer;
  Ok (match sort_stable last_resort_order tiers with [] => [working_tier] | ts => ts end).

(** What the conditions of the pool and the tiers use. *)
Definition used_checks (conds : list (option Cond)) : gset string :=
  list_to_set (omap (λ n, match n with checkNode check _ => Some check | _ => None end) (conds ≫= walk)).

Definition uses_exit (conds : list (option Cond)) : bool :=
  existsb (λ n, match n with stringNode field _ _ _ => eqs field "exit.country" | _ => false end)
    (conds ≫= walk).

Definition compileTags (tags : gmap string string) : result profileError (list NamedCond) :=
  collect (λ _ name,
    cond ← match ParseCond (default EmptyString (tags !! name)) None with
           | Ok c => Ok c
           | Err e => Err (atPath (Wrapf "tag %s: %w" [name] (CondError e)) [key "tags"; key name])
           end;
    Ok {| nc_Name := name; nc_Cond := cond |}) 0 (sorted_keys tags).

Definition compileProfile (id : string) (profile : Profile) : result profileError Policy :=
  tags ← compileTags (pr_Tags profile);
  let scope := {| cs_tags := Some (dom (pr_Tags profile)); cs_checks := dom (pr_Checks profile);
                  cs_diags := None |} in
  include ← cond_at scope (po_Include (pr_Pool profile)) "pool include: %w" [] [key "pool"; key "include"];
  exclude ← cond_at scope (po_Exclude (pr_Pool profile)) "pool exclude: %w" [] [key "pool"; key "exclude"];
  tiers ← compileTiers scope (pr_Prefer profile);
  let preset := default no_feel (feels !! or_string (sw_Feel (pr_Switch profile)) "balanced") in
  network ← compileNetwork profile;
  let conds := include :: exclude :: (ti_When <$> tiers) in
  Ok {| pl_ID := id; pl_Title := pr_Title profile;
        pl_Level := or_string (pr_Level profile) "simple";
        pl_Include := include; pl_Exclude := exclude; pl_Tags := tags; pl_Tiers := tiers;
        pl_RankBy := or_string (rk_By (pr_Rank profile)) "latency";
        pl_Tolerance := rk_Tolerance (pr_Rank profile);
        pl_Improve := default false (sw_Improve (pr_Switch profile));
        pl_Dwell := pick (sw_Dwell (pr_Switch profile)) (fe_dwell preset);
        pl_MinGainMs := pick (sw_MinGainMs (pr_Switch profile)) (fe_minGainMs preset);
        pl_MinGainPct := pick (sw_MinGainPct (pr_Switch profile)) (fe_minGainPct preset);
        pl_Confirm := pick (sw_Confirm (pr_Switch profile)) (fe_confirm preset);
        pl_MaxPerHour := pick (sw_MaxPerHour (pr_Switch profile)) (fe_maxPerHour preset);
        pl_Stranded := or_string (pr_Stranded profile) "hold";
        pl_Energy := or_string (pr_Energy profile) "balanced";
        pl_Fixed := EmptyString;
        pl_Checks := pr_Checks profile;
        pl_CheckIDs := sorted_strings (elements (used_checks conds));
        pl_UsesExit := uses_exit conds;
        pl_Egress := {| eg_Echo := match eg_Echo (pr_Egress profile) with [] => defaultEcho | l => l end;
                        eg_Agree := pick (eg_Agree (pr_Egress profile)) defaultAgree |};
        pl_Diagnostics := cn_Diagnostics network;
        pl_Kinds := cn_Kinds network;
        pl_DirectSplit := cn_DirectSplit network |}.
End compile.
