(* ===== verification/Library.v ===== *)
(** * The library of profiles: core/rcx/policy.go and core/rcx/trust.go

    The profiles a binding may name, by canonical id; the extends chain of
    one; the consent a provider profile needs before it contacts third-party
    hosts; and the compilation of a binding into the policy its group runs. *)

From S2P Require Import Prelude GoText Cond CondSyntax Profile Policy.

Definition BuiltinSource : string := "builtin".
Definition SubscriptionSource : string := "provider".
Definition UserSource : string := "user".
Definition DefaultProfile : string := "builtin/simple".

(** ** Entries *)

Record ProfileInfo := {
  pi_ID : string;
  pi_Kind : string;
  pi_Title : string;
  pi_Description : string;
  pi_Level : string;
  pi_Source : string;
  pi_Extends : string;
  pi_Error : string;
  pi_L10n : gmap string (gmap string string);
  pi_Consent : list string;
}.

(** An entry without [source], the document's bytes kept for the editor. *)
Record libraryEntry := { le_info : ProfileInfo; le_profile : option Profile }.

(** ** Endpoints and trust *)

Record Endpoint := { ep_Host : string; ep_Use : string; ep_Target : string }.

Record trust := { tr_sites : gset string; tr_allowed : gset string }.

(** golang.org/x/net/publicsuffix: the registrable domain of a host. *)
Class PublicSuffix := { effective_tld_plus_one : string → option string }.
(** Whether [net.ParseIP] accepts a text. *)
Class IpText := { parse_ip : string → bool }.

(** [validOptionalPort] of net/url. *)
Definition valid_optional_port (s : string) : bool :=
  match s with
  | EmptyString => true
  | String c s => bool_decide (c = ":"%char) && forallb (λ d, ascii_digit (byteZ d)) (String.list_ascii_of_string s)
  end.

(** [url.URL.Hostname]: the host without its port and its brackets. *)
Definition url_hostname (host : string) : string :=
  let host := match last_byte ":" host with
              | Some i => if valid_optional_port (string_drop i host) then String.substring 0 i host else host
              | None => host
              end in
  match host with
  | String c rest =>
      if bool_decide (c = "["%char) && bool_decide (last_byte "]" host = Some (String.length host - 1)%nat)
      then String.substring 0 (String.length rest - 1) rest else host
  | EmptyString => host
  end.

Section trust.
Context `{Unicode} `{Url} `{PublicSuffix} `{IpText}.

Definition endpointHost (target : string) : string :=
  match url_parse target with
  | Some (scheme, host) =>
      if negb (empty scheme) && negb (empty host) then ToLower (url_hostname host)
      else match SplitHostPort target with
           | Some (host, _) => ToLower host
           | None => ToLower target
           end
  | None => match SplitHostPort target with
            | Some (host, _) => ToLower host
            | None => ToLower target
            end
  end.

Definition endpoint (use target : string) : Endpoint :=
  {| ep_Host := endpointHost target; ep_Use := use; ep_Target := target |}.

Definition check_endpoints (checks : gmap string Check) (id : string) : list Endpoint :=
  match checks !! id with
  | Some c => endpoint ("check:" +:+ id) <$> filter (λ t, negb (empty t)) [cx_HTTP c; cx_TCP c; cx_TLS c]
  | None => []
  end.

Definition diagnostic_endpoints (diagnose : gmap string Diagnostic) (name : string) : list Endpoint :=
  match diagnose !! name with
  | Some d => (λ t, endpoint ("diagnostic:" +:+ name) (tg_Addr t)) <$> targets d
  | None => []
  end.

Definition endpoints (p : Profile) : list Endpoint :=
  (sorted_keys (pr_Checks p) ≫= check_endpoints (pr_Checks p)) ++
  (sorted_keys (nw_Diagnose (pr_Network p)) ≫= diagnostic_endpoints (nw_Diagnose (pr_Network p))) ++
  (endpoint "echo" <$> eg_Echo (pr_Egress p)).

(** The hosts of the built-in profiles that parse, and of the default echo
    services. *)
Definition neutralHosts (builtin : list Profile) : gset string :=
  list_to_set (endpointHost <$> defaultEcho) ∪ list_to_set (ep_Host <$> (builtin ≫= endpoints)).

Definition siteOf (host : string) : string :=
  let host := TrimSuffix (ToLower (TrimSpace host)) "." in
  if empty host || parse_ip host then host
  else match effective_tld_plus_one host with Some site => site | None => host end.

Definition newTrust (providerHosts trusted : list string) : trust :=
  {| tr_sites := list_to_set (filter (λ s, negb (empty s)) (siteOf <$> providerHosts));
     tr_allowed := list_to_set ((λ h, ToLower (TrimSpace h)) <$> trusted) |}.

Definition allowAll (t : trust) (hosts : list string) : trust :=
  {| t with tr_allowed := list_to_set hosts ∪ tr_allowed t |}.

Definition allows (builtin : list Profile) (t : trust) (host : string) : bool :=
  bool_decide (host ∈ neutralHosts builtin) || bool_decide (host ∈ tr_allowed t) ||
  bool_decide (siteOf host ∈ tr_sites t).
End trust.

(** ** The library *)

Record Library := {
  lb_entries : gmap string libraryEntry;
  lb_trust : trust;
  lb_builtin : list Profile;  (** the embedded profiles, for [neutralHosts] *)
}.

Section library.
Context `{Unicode} `{Regexp} `{Url} `{PublicSuffix} `{IpText} `{RangeOrder}.

(** [lib.add]. A profile that failed to parse keeps its title and loses its
    body. *)
Definition lib_add (lib : Library) (id source : string) (profile : option Profile)
    (err : option string) : Library :=
  let info := {| pi_ID := id; pi_Kind := ""; pi_Title := id; pi_Description := ""; pi_Level := "";
                 pi_Source := source; pi_Extends := ""; pi_Error := ""; pi_L10n := ∅; pi_Consent := [] |} in
  let info := match profile with
              | Some p => {| info with pi_Title := or_string (pr_Title p) id; pi_Level := pr_Level p;
                                       pi_Description := pr_Description p; pi_Extends := pr_Extends p |}
              | None => info
              end in
  let entry := match err with
               | Some e => {| le_info := {| info with pi_Error := e |}; le_profile := None |}
               | None => {| le_info := info; le_profile := profile |}
               end in
  {| lib with lb_entries := <[id := entry]> (lb_entries lib) |}.

Definition CanonicalID (id : string) : string :=
  let id := TrimSpace id in
  if empty id || Contains id "/" then id else SubscriptionSource +:+ "/" +:+ id.

Definition Has (lib : Library) (id : string) : bool := bool_decide (is_Some (lb_entries lib !! CanonicalID id)).

Definition LibInfo (lib : Library) (id : string) : option ProfileInfo := le_info <$> lb_entries lib !! CanonicalID id.

Definition source_order (source : string) : Z :=
  if eqs source BuiltinSource then 0 else if eqs source SubscriptionSource then 1
  else if eqs source UserSource then 2 else 0.

Definition info_order (a b : ProfileInfo) : Z :=
  cmp_or (compareS (pi_Kind a) (pi_Kind b))
    (cmp_or (source_order (pi_Source a) - source_order (pi_Source b)) (compareS (pi_ID a) (pi_ID b))).

(** The loop of [chain] from [current]: [None] when the fuel ends, which
    the depth limit forbids. *)
Fixpoint chain_from (fuel : nat) (lib : Library) (id : string) (chain : list (libraryEntry * Profile))
    (seen : gset string) (current : string) : option (result profileError (list (libraryEntry * Profile))) :=
  match fuel with
  | O => None
  | S fuel =>
      if empty current then Some (Ok chain)
      else if bool_decide (current ∈ seen) then Some (Err (Errorf "profile %s extends itself" [current]))
      else if (maxExtendsDepth <? length chain)%nat
        then Some (Err (Errorf "profile %s extends more than %d levels deep" [id]))
      else match lb_entries lib !! current with
           | None => Some (Err (Errorf "profile %s not found" [current]))
           | Some entry =>
               match le_profile entry with
               | None => Some (Err (Errorf "profile %s: %s" [current; pi_Error (le_info entry)]))
               | Some p => chain_from fuel lib id (chain ++ [(entry, p)]) ({[current]} ∪ seen)
                             (CanonicalID (pr_Extends p))
               end
           end
  end.

Definition chain_fuel : nat := (maxExtendsDepth + 2)%nat.

Definition lib_chain (lib : Library) (id : string) : result profileError (list (libraryEntry * Profile)) :=
  let id := CanonicalID id in
  default (Err (Errorf "out of fuel" [])) (chain_from chain_fuel lib id [] ∅ id).

Definition merge_chain (chain : list (libraryEntry * Profile)) : Profile :=
  foldl mergeProfile no_profile (rev chain).*2.

Definition lib_Resolve (lib : Library) (id : string) : result profileError Profile :=
  chain ← lib_chain lib id;
  Ok {| (merge_chain chain) with pr_Extends := EmptyString |}.

(** The hosts the chain would contact without leave. *)
Definition consent_hosts (lib : Library) (chain : list (libraryEntry * Profile)) : gset string :=
  list_to_set (filter (λ h, negb (allows (lb_builtin lib) (lb_trust lib) h))
    (ep_Host <$> ((filter (λ p, eqs (pi_Source (le_info p.1)) SubscriptionSource) chain) ≫=
                  λ p, endpoints p.2))).

Definition consent (lib : Library) (id : string) : result profileError unit :=
  chain ← lib_chain lib id;
  let hosts := consent_hosts lib chain in
  if decide (hosts = ∅) then Ok tt
  else Err (ConsentError (CanonicalID id) (sorted_strings (elements hosts))).

(** ** Compiling a binding *)

Definition binding_overlay (binding : Binding) : Profile :=
  {| no_profile with
     pr_Pool := narrowPool (bi_Pool binding) (bi_extra binding);
     pr_Energy := bi_Energy binding; pr_Tags := bi_tags binding;
     pr_Switch := {| no_switch with sw_Feel := bi_Feel binding |} |}.

(** The profile a network override adds. *)
Definition layer_profile (l : Layer) : Profile :=
  {| no_profile with
     pr_Pool := ly_Pool l; pr_Prefer := ly_Prefer l; pr_Rank := ly_Rank l;
     pr_Switch := ly_Switch l; pr_Stranded := ly_Stranded l; pr_Energy := ly_Energy l |}.

Definition binding_order (binding : Binding) : list TierSpec :=
  over_list (bi_Prefer binding) (bi_prefer binding).

Definition compileOn (id : string) (binding : Binding) (profile overlay : Profile) (policy : Policy)
    (kind : string) : result profileError (string * Policy) :=
  if existsb (λ rule, eqs (kr_Kind rule) kind) (pl_Kinds policy) then
    match pr_On profile !! kind with
    | None => Err (Errorf "unreachable" [])
    | Some l =>
        match compileProfile (CanonicalID id)
                (mergeProfile (mergeProfile profile (layer_profile l)) overlay) with
        | Ok compiled => Ok (kind, {| compiled with pl_Fixed := bi_fixed binding |})
        | Err e => Err (atPath (Wrapf "on %s: %w" [kind] e) [key "on"; key kind])
        end
    end
  else Err (atPath (Errorf "on %s: the profile declares no network kind %s" [kind; kind])
              [key "on"; key kind]).

Definition Compile (lib : Library) (id : string) (binding : Binding) : result profileError LayeredPolicy :=
  profile ← lib_Resolve lib id;
  let order := binding_order binding in
  refuse (maxTiers <? length order)%nat
    (atPath (Errorf "more than %d preference tiers" []) [key "prefer"]) ;;
  let profile := match order with
                 | [] => profile
                 | _ => mergeProfile profile {| no_profile with pr_Prefer := order |}
                 end in
  consent lib id ;;
  let overlay := binding_overlay binding in
  validate overlay ;;
  policy ← compileProfile (CanonicalID id) (mergeProfile profile overlay);
  let policy := {| policy with pl_Fixed := bi_fixed binding |} in
  on ← collect (λ _ kind, compileOn id binding profile overlay policy kind) 0 (sorted_keys (pr_On profile));
  Ok {| lp_Base := policy; lp_On := list_to_map on |}.
End library.
