(* ===== verification/LibraryFacts.v ===== *)
(** * Facts about the library

    The chain of profiles a profile extends: a relation that says what it is,
    and the loop that computes it. *)

From S2P Require Import Prelude GoText Cond CondSyntax Profile Policy Library.

Section facts.
Context `{U : Unicode}.

(** The profiles from [id] on: each entry holds a profile, and the last one
    extends nothing. The relation has no depth limit; a profile that extends
    itself has no chain. *)
Inductive extends_chain (lib : Library) : string → list (libraryEntry * Profile) → Prop :=
  | extends_nothing : extends_chain lib EmptyString []
  | extends_next id entry p rest : id ≠ EmptyString →
      lb_entries lib !! id = Some entry → le_profile entry = Some p →
      extends_chain lib (CanonicalID (pr_Extends p)) rest → extends_chain lib id ((entry, p) :: rest).

Lemma extends_chain_unique lib id c c' : extends_chain lib id c → extends_chain lib id c' → c = c'.
Proof.
  intros Hc. revert c'. induction Hc as [|id entry p rest Hne He Hp _ IH]; intros c' Hc'; inversion Hc'; subst; try done.
  simplify_eq. f_equal. by apply IH.
Qed.

(** The loop ends on its own and returns a chain only as the relation says. *)
Lemma chain_from_sound lib id fuel : ∀ chain seen current,
  (length chain <= S maxExtendsDepth)%nat → (maxExtendsDepth + 2 <= fuel + length chain)%nat →
  ∃ r, chain_from fuel lib id chain seen current = Some r ∧
    ∀ c, r = Ok c → ∃ rest, c = chain ++ rest ∧ extends_chain lib current rest ∧ (length c <= S maxExtendsDepth)%nat.
Proof.
  induction fuel as [|fuel IH]; intros chain seen current Hl Hf; [lia|]. cbn [chain_from].
  case_if. { apply empty_true in E as ->. eexists. split; [done|]. intros c [= <-]. exists []. rewrite app_nil_r. split_and!; [done | constructor | done]. }
  apply empty_false in E. case_if; [by eexists|]. case_if; [by eexists|]. apply Nat.ltb_ge in E1.
  destruct (lb_entries lib !! current) as [entry|] eqn:Ee; [|by eexists].
  destruct (le_profile entry) as [p|] eqn:Ep; [|by eexists].
  destruct (IH (chain ++ [(entry, p)]) ({[current]} ∪ seen) (CanonicalID (pr_Extends p))) as (r & -> & Hr);
    [rewrite length_app; cbn [length]; lia..|].
  exists r. split; [done|]. intros c Hc. destruct (Hr c Hc) as (rest & -> & Hrest & Hlen).
  exists ((entry, p) :: rest). rewrite <- app_assoc. split_and!; [done | by econstructor|]. by rewrite <- app_assoc in Hlen.
Qed.

(** And every chain within the limit is returned: nothing seen before can
    come up again. *)
Lemma chain_from_complete lib id fuel : ∀ chain seen current rest,
  (maxExtendsDepth + 2 <= fuel + length chain)%nat → extends_chain lib current rest →
  (length (chain ++ rest) <= S maxExtendsDepth)%nat →
  (∀ s, s ∈ seen → ∀ c, extends_chain lib s c → (length rest < length c)%nat) →
  chain_from fuel lib id chain seen current = Some (Ok (chain ++ rest)).
Proof.
  induction fuel as [|fuel IH]; intros chain seen current rest Hf Hrest Hl Hseen;
    [rewrite length_app in Hl; lia|]. cbn [chain_from].
  pose proof Hrest as Hrest0. destruct Hrest as [|current entry p rest Hne He Hp Hrest]; [by rewrite app_nil_r|].
  unfold empty. rewrite (bool_decide_eq_false_2 _ Hne).
  rewrite (bool_decide_eq_false_2 (current ∈ seen)).
  2: { intros Hin. specialize (Hseen current Hin _ Hrest0). lia. }
  rewrite length_app in Hl. cbn [length] in *. rewrite (proj2 (Nat.ltb_ge maxExtendsDepth (length chain))) by lia.
  rewrite He, Hp. rewrite (IH (chain ++ [(entry, p)]) _ _ rest); [by rewrite <- app_assoc | | done | |].
  - rewrite length_app. cbn [length]. lia.
  - rewrite !length_app. cbn [length]. lia.
  - intros s [->%elem_of_singleton|Hin]%elem_of_union c Hc.
    + rewrite (extends_chain_unique _ _ _ _ Hc Hrest0). cbn. lia.
    + specialize (Hseen s Hin c Hc). lia.
Qed.

(** C21: what a profile inherits. The loop over the extends chain ends by
    itself, whatever the profiles of the library name: it returns a chain
    exactly when following [extends] from the profile, one stored profile
    after the other, comes to one that extends nothing within five profiles,
    and then it returns that chain; a cycle, a missing or broken profile and a
    deeper chain are errors. *)
Theorem chain_refines lib id :
  chain_from chain_fuel lib (CanonicalID id) [] ∅ (CanonicalID id) ≠ None ∧
  ∀ c, lib_chain lib id = Ok c ↔
    extends_chain lib (CanonicalID id) c ∧ (length c <= S maxExtendsDepth)%nat.
Proof.
  destruct (chain_from_sound lib (CanonicalID id) chain_fuel [] ∅ (CanonicalID id)) as (r & Hr & Hs);
    [cbn; lia | unfold chain_fuel; cbn; lia|].
  split; [by rewrite Hr|]. intros c. unfold lib_chain. split.
  - rewrite Hr. cbn. intros ->. by destruct (Hs c eq_refl) as (rest & -> & Hrest & Hl).
  - intros [Hc Hl]. rewrite (chain_from_complete lib (CanonicalID id) chain_fuel [] ∅ (CanonicalID id) c); [done | | done..|].
    + unfold chain_fuel. cbn [length]. lia.
    + by intros s ?%elem_of_empty.
Qed.
End facts.
