(* ===== verification/Decide.v ===== *)
(** * The decision of a group: core/rcx/decide.go

    [rank] scores and orders the members under the policy in force, and
    [Decide] turns the ranking into one action: hold, switch, stranded or
    manual. Both are pure functions of the input. *)

From S2P Require Import Prelude GoText Cond Evidence Journal Identity Profile Policy.

Definition ChangeCooldown : duration := 15 * Minute.
Definition betterTierFresh : duration := 5 * Minute.
Definition stabilityPenalty : Z := 300.
Definition episodePenalty : Z := 50.
Definition unmeasuredScore : Z := 2 ^ 20.
Definition needsPerDecision : nat := 2.

(** ** Data *)

Inductive ControlMode := AutoMode | PinnedMode | ManualMode.

#[export] Instance ControlMode_eq_dec : EqDecision ControlMode.
Proof. solve_decision. Defined.

Definition is_mode (a b : ControlMode) : bool := bool_decide (a = b).

Record Control := {
  ct_Mode : ControlMode;
  ct_Pin : string;
  ct_PinName : string;
  ct_PinEnv : string;
}.

Record Member := {
  mb_Node : Node;
  mb_Key : string;
  mb_Facts : option Facts;
  mb_Exit : option ExitFact;
}.

Definition mb_Name (m : Member) : string := nd_Name (mb_Node m).

Record DecideInput := {
  di_Policy : Policy;
  di_Members : list Member;
  di_Now : string;
  di_Control : Control;
  di_Env : string;
  di_Excluded : gmap string time;
  di_LastSwitch : time;
  di_SwitchesHour : Z;
  di_Freshness : duration;
  di_At : time;
  di_ForceSwitch : bool;
  di_Net : option NetSubject;
  di_Paused : bool;
}.

Inductive Action := HoldAction | SwitchAction | StrandedAction | ManualAction.

#[export] Instance Action_eq_dec : EqDecision Action.
Proof. solve_decision. Defined.

Inductive Health := AliveHealth | StaleHealth | UnknownHealth | DeadHealth.

#[export] Instance Health_eq_dec : EqDecision Health.
Proof. solve_decision. Defined.

Definition is_dead (h : Health) : bool := bool_decide (h = DeadHealth).

Record Ranked := {
  rw_Name : string;
  rw_Tier : Z;
  rw_TierLabel : string;
  rw_Health : Health;
  rw_LatencyMs : Z;
  rw_SpreadMs : Z;
  rw_Score : Z;
  rw_Episodes : Z;
  rw_CheckedAt : time;
  rw_Current : bool;
  rw_Excluded : option Reason;
  rw_Exit : string;
  rw_Checks : gmap string string;
  rw_Pending : string;
  rw_pendingTier : Z;
  rw_key : string;
}.

Record Decision := {
  dc_Action : Action;
  dc_Target : string;
  dc_Reason : Reason;
  dc_Tier : string;
  dc_Until : option Reason;
  dc_Ranking : list Ranked;
  dc_Needs : list string;
}.

Definition AS (k v : string) : string * Arg := (k, ArgString v).
Definition AI (k : string) (v : Z) : string * Arg := (k, ArgInt v).

Definition is_none {A} (o : option A) : bool := match o with None => true | Some _ => false end.

(** The code of an exclusion, empty when there is none. *)
Definition excluded_code (r : Ranked) : string :=
  match rw_Excluded r with Some reason => rs_Code reason | None => EmptyString end.

(** [row.Excluded != nil && row.Excluded.Code == code]. *)
Definition excluded_as (r : Ranked) (code : string) : bool :=
  match rw_Excluded r with Some reason => eqs (rs_Code reason) code | None => false end.

Definition eligible (r : Ranked) : bool := is_none (rw_Excluded r).
Definition measured (r : Ranked) : bool := rw_Score r <? unmeasuredScore.

(** ** Scores *)

Definition score (latency spread episodes : Z) (p : Policy) : Z :=
  if latency =? 0 then unmeasuredScore
  else if eqs (pl_RankBy p) "stability"
    then latency +i spread +i episodes *i stabilityPenalty
    else latency +i spread /i 2 +i episodes *i episodePenalty.

Definition effectiveScore (row : Ranked) (p : Policy) : Z :=
  if rw_Current row && measured row then rw_Score row -i pl_Tolerance p else rw_Score row.

Definition healthOrder (h : Health) : Z :=
  match h with AliveHealth => 0 | StaleHealth => 1 | UnknownHealth => 2 | DeadHealth => 3 end.

(** The comparison [rank] sorts by. *)
Definition rank_order (p : Policy) (a b : Ranked) : Z :=
  cmp_or (compareZ (if eligible a then 0 else 1) (if eligible b then 0 else 1))
    (cmp_or (compareZ (rw_Tier a) (rw_Tier b))
       (cmp_or (compareZ (healthOrder (rw_Health a)) (healthOrder (rw_Health b)))
          (cmp_or (compareZ (effectiveScore a p) (effectiveScore b p))
             (compareS (rw_Name a) (rw_Name b))))).

Definition isUnroutable (adapterType : string) : bool :=
  mem_string adapterType ["Reject"; "RejectDrop"; "Pass"; "Compatible"; "Direct"; "Dns"].

Definition net_kind (n : option NetSubject) : string :=
  match n with Some n => ns_Kind n | None => EmptyString end.

Definition verdictLabel (v : tri) : option string :=
  match v with
  | triYes => Some "pass"%string | triNo => Some "fail"%string | triNeither => Some "soft"%string
  | triUnknown => None
  end.

Definition healthOf (f : Facts) (input : DecideInput) : Health :=
  if Dead f then DeadHealth
  else if AliveSince f (time_add (di_At input) (- di_Freshness input)) then AliveHealth
  else if negb (is_zero (fa_OKAt f)) then StaleHealth
  else UnknownHealth.

(** [facts.Checks[id].verdict(in.At)] for each id of the policy. *)
Definition check_verdicts (f : Facts) (input : DecideInput) : gmap string tri :=
  list_to_map ((λ id, (id, verdict (fa_Checks f !! id) (di_At input))) <$> pl_CheckIDs (di_Policy input)).

Definition subjectOf (m : Member) (f : Facts) (input : DecideInput) : Subject :=
  let '(p50, _, measured) := Latency f (di_At input) in
  let exit := exit_country (mb_Exit m) (di_At input) in
  {| sj_Name := mb_Name m;
     sj_Provider := nd_Provider (mb_Node m);
     sj_Type := nd_Type (mb_Node m);
     sj_Server := nd_Server (mb_Node m);
     sj_UDP := nd_UDP (mb_Node m);
     sj_Alive := AliveSince f (time_add (di_At input) (- di_Freshness input));
     sj_Dead := Dead f;
     sj_Measured := measured;
     sj_Current := eqs (mb_Name m) (di_Now input);
     sj_Latency := p50;
     sj_Tags := ∅;
     sj_Exit := exit;
     sj_Entry := nd_Entry (mb_Node m);
     sj_Country := or_string exit (nd_NameCountry (mb_Node m));
     sj_Checks := check_verdicts f input;
     sj_Net := di_Net input |}.

(** ** Ranking *)

Section rank.
Context `{Unicode} `{Regexp}.

(** The subject with the tags whose conditions hold of it, tested in the
    policy's order. *)
Definition tag_subject (p : Policy) (s : Subject) : Subject :=
  foldl (λ s tag, if Eval (nc_Cond tag) s
                  then {| s with sj_Tags := {[nc_Name tag]} ∪ sj_Tags s |} else s)
    s (pl_Tags p).

(** The verdict of the pool: [row.Excluded] before the cooldown. *)
Definition pool_verdict (p : Policy) (m : Member) (s : Subject) : option Reason :=
  if is_tri (Test (pl_Include p) s) triNo then Some (reason "pool.no-match" [])
  else if negb (is_none (pl_Exclude p)) && Eval (pl_Exclude p) s then Some (reason "pool.excluded" [])
  else if isUnroutable (nd_Type (mb_Node m)) then Some (reason "pool.unroutable" [])
  else None.

Definition cooldown (input : DecideInput) (m : Member) : option Reason :=
  match di_Excluded input !! mb_Key m with
  | Some until => if after until (di_At input) then Some (reason "cooldown" [("until"%string, ArgTime until)]) else None
  | None => None
  end.

Definition exclusion (input : DecideInput) (m : Member) (s : Subject) (h : Health) : option Reason :=
  match pool_verdict (di_Policy input) m s with
  | Some r => Some r
  | None =>
      match cooldown input m with
      | Some r => Some r
      | None => if is_dead h then Some (reason "dead" []) else None
      end
  end.

(** The loop over the tiers from index [i]: the first tier that holds, else
    the first that is unknown. *)
Fixpoint find_tier (s : Subject) (i : Z) (tiers : list Tier) (pending : option (Z * string))
    : (option (Z * string)) * (option (Z * string)) :=
  match tiers with
  | [] => (None, pending)
  | tier :: tiers =>
      match Test (ti_When tier) s with
      | triYes => (Some (i, ti_Label tier), pending)
      | triUnknown =>
          find_tier s (i + 1) tiers (match pending with None => Some (i, ti_Label tier) | _ => pending end)
      | _ => find_tier s (i + 1) tiers pending
      end
  end.

Definition tier_count (p : Policy) : Z := Z.of_nat (length (pl_Tiers p)).

(** [facts] of a member, [&Facts{}] when it has none. *)
Definition member_facts (m : Member) : Facts := default no_facts (mb_Facts m).

(** The row of one member, before its place is settled. *)
Definition base_row (input : DecideInput) (m : Member) (s : Subject) (h : Health) : Ranked :=
  let p := di_Policy input in
  let f := member_facts m in
  let '(p50, spread, _) := Latency f (di_At input) in
  let episodes := RecentEpisodes f (di_At input) in
  {| rw_Name := mb_Name m; rw_Tier := tier_count p; rw_TierLabel := EmptyString; rw_Health := h;
     rw_LatencyMs := p50; rw_SpreadMs := spread; rw_Score := score p50 spread episodes p;
     rw_Episodes := episodes; rw_CheckedAt := LastSampleAt f;
     rw_Current := eqs (mb_Name m) (di_Now input); rw_Excluded := None; rw_Exit := sj_Exit s;
     rw_Checks := omap verdictLabel (sj_Checks s); rw_Pending := EmptyString;
     rw_pendingTier := -1; rw_key := mb_Key m |}.

Definition rank_member (input : DecideInput) (m : Member) : Ranked :=
  let p := di_Policy input in
  let f := member_facts m in
  let s := tag_subject p (subjectOf m f input) in
  let h := healthOf f input in
  let row := base_row input m s h in
  match exclusion input m s h with
  | Some r => {| row with rw_Excluded := Some r |}
  | None =>
      match find_tier s 0 (pl_Tiers p) None with
      | (Some (i, label), pending) =>
          let '(pi, pl) := default (-1, EmptyString) pending in
          {| row with rw_Tier := i; rw_TierLabel := label; rw_pendingTier := pi; rw_Pending := pl |}
      | (None, Some (pi, pl)) =>
          {| row with rw_Excluded := Some (reason "pending" []); rw_pendingTier := pi; rw_Pending := pl |}
      | (None, None) => {| row with rw_Excluded := Some (reason "no-tier" []) |}
      end
  end.

Definition rank (input : DecideInput) : list Ranked :=
  sort_stable (rank_order (di_Policy input)) (rank_member input <$> di_Members input).
End rank.

(** [byName[name]]: the last row with the name. *)
Definition by_name (rows : list Ranked) (name : string) : option Ranked :=
  last (filter (λ r, rw_Name r = name) rows).

(** ** The steps of [Decide] *)

Definition needs_check (row : Ranked) (bar : Z) : bool :=
  negb ((rw_pendingTier row <? 0) || (bar <=? rw_pendingTier row) || is_dead (rw_Health row)) &&
  (is_none (rw_Excluded row) || excluded_as row "pending").

Definition pendingNeeds (rows : list Ranked) (best : option Ranked) (tiers : Z) : list string :=
  let bar := match best with Some b => rw_Tier b | None => tiers end in
  let picks := filter (λ row, needs_check row bar) rows in
  rw_Name <$> take needsPerDecision
    (sort_stable (λ a b, compareZ (rw_pendingTier a) (rw_pendingTier b)) picks).

(** The loop of [confirmed] over the samples, latest first. *)
Fixpoint count_confirmed (input : DecideInput) (bar : Z) (confirm : Z) (count : Z) (rev_samples : list Sample) : Z :=
  match rev_samples with
  | [] => count
  | s :: rest =>
      if confirm <=? count then count
      else if (sm_Ms s <=? 0) || (bar <? sm_Ms s) || (di_Freshness input <? time_sub (di_At input) (sm_At s))
        then count
        else count_confirmed input bar confirm (count + 1) rest
  end.

Definition confirmed (best : Ranked) (input : DecideInput) (p : Policy) (bar : Z) : Z :=
  match List.find (λ m, eqs (mb_Name m) (rw_Name best) && negb (is_none (mb_Facts m))) (di_Members input) with
  | Some m => count_confirmed input bar (pl_Confirm p) 0 (rev (fa_Samples (member_facts m)))
  | None => 0
  end.

Definition strandedTarget (stranded : string) (members : list Member) : string :=
  let want :=
    if eqs stranded "direct" then Some "DIRECT"%string
    else if (6 <? String.length stranded)%nat && HasPrefix stranded "group:" then Some (string_drop 6 stranded)
    else None in
  match want with
  | Some want => if existsb (λ m, eqs (mb_Name m) want) members then want else EmptyString
  | None => EmptyString
  end.

Definition decideFixed (input : DecideInput) : Decision :=
  let fixed := pl_Fixed (di_Policy input) in
  let d := {| dc_Action := HoldAction; dc_Target := fixed; dc_Reason := reason "hold.fixed" [AS "node" fixed];
              dc_Tier := EmptyString; dc_Until := None; dc_Ranking := []; dc_Needs := [] |} in
  if eqs (di_Now input) fixed then d
  else if existsb (λ m, eqs (mb_Name m) fixed) (di_Members input)
    then {| d with dc_Action := SwitchAction; dc_Reason := reason "switch.fixed" [AS "node" fixed] |}
    else {| d with dc_Action := StrandedAction; dc_Target := di_Now input;
                   dc_Reason := reason "fixed.missing" [AS "node" fixed] |}.

Definition manual_decision (input : DecideInput) : Decision :=
  {| dc_Action := ManualAction; dc_Target := di_Now input; dc_Reason := reason "manual" [];
     dc_Tier := EmptyString; dc_Until := None; dc_Ranking := []; dc_Needs := [] |}.

Section decide.
Context `{Unicode} `{Regexp}.

(** What the last part of [Decide] works on: a best candidate and the row
    of the current node. *)
Record Choice := {
  co_input : DecideInput;
  co_rows : list Ranked;
  co_best : Ranked;
  co_current : Ranked;
  co_needs : list string;
}.

Definition pin_down (input : DecideInput) : bool := is_mode (ct_Mode (di_Control input)) PinnedMode.

(** The closure [switchTo]. *)
Definition switchTo (input : DecideInput) (rows : list Ranked) (needs : list string) (best : Ranked)
    (code : string) (args : list (string * Arg)) : Decision :=
  {| dc_Action := SwitchAction; dc_Target := rw_Name best;
     dc_Reason := reason code (args ++ (if pin_down input then [AS "pin" (ct_PinName (di_Control input))] else []));
     dc_Tier := rw_TierLabel best; dc_Until := None; dc_Ranking := rows; dc_Needs := needs |}.

(** The closure [hold]. *)
Definition hold (c : Choice) (code : string) (args : list (string * Arg)) : Decision :=
  {| dc_Action := HoldAction; dc_Target := di_Now (co_input c); dc_Reason := reason code args;
     dc_Tier := rw_TierLabel (co_current c); dc_Until := None; dc_Ranking := co_rows c;
     dc_Needs := co_needs c |}.

Definition switch (c : Choice) (code : string) (args : list (string * Arg)) : Decision :=
  switchTo (co_input c) (co_rows c) (co_needs c) (co_best c) code args.

Definition gain_of (c : Choice) : Z := rw_Score (co_current c) -i rw_Score (co_best c).

Definition need_of (c : Choice) : Z :=
  let p := di_Policy (co_input c) in
  Z.max (Z.max (pl_MinGainMs p) ((rw_Score (co_current c) *i pl_MinGainPct p) /i 100)) (pl_Tolerance p).

Definition dwell_left (c : Choice) : duration :=
  pl_Dwell (di_Policy (co_input c)) -i time_sub (di_At (co_input c)) (di_LastSwitch (co_input c)).

Definition better_tier_known (c : Choice) : bool :=
  (time_sub (di_At (co_input c)) (rw_CheckedAt (co_best c)) <=? betterTierFresh) &&
  bool_decide (rw_Health (co_best c) = AliveHealth).

Definition tier_confirmed (c : Choice) : bool :=
  pl_Confirm (di_Policy (co_input c)) <=?
  confirmed (co_best c) (co_input c) (di_Policy (co_input c)) (rw_Score (co_current c) -i need_of c).

(** From "the best node is in a better tier" to "it is faster". *)
Definition decide_improve (c : Choice) : Decision :=
  let input := co_input c in
  let p := di_Policy input in
  let best := co_best c in
  if rw_Tier best <? rw_Tier (co_current c) then
    if better_tier_known c then switch c "switch.better-tier" [AS "tier" (rw_TierLabel best)]
    else {| (hold {| c with co_needs := co_needs c ++ [rw_Name best] |} "hold.checking" []) with
            dc_Until := Some (reason "until.check-better-tier"
              [AS "node" (rw_Name best); AS "tier" (rw_TierLabel best)]) |}
  else if negb (pl_Improve p) then hold c "hold.working" []
  else if negb (measured (co_current c)) || negb (measured best) then hold c "hold.best" []
  else if gain_of c <? need_of c then hold c "hold.best" []
  else if 0 <? dwell_left c then
    {| (hold c "hold.dwell" []) with
       dc_Until := Some (reason "until.dwell" [AS "node" (rw_Name best);
         AI "seconds" (Z.quot (dwell_left c) Second)  (* int(wait.Seconds()) *); AI "gainMs" (gain_of c)]) |}
  else if pl_MaxPerHour p <=? di_SwitchesHour input then hold c "hold.flap-limit" [AI "limit" (pl_MaxPerHour p)]
  else if negb (tier_confirmed c) then
    {| (hold {| c with co_needs := co_needs c ++ [rw_Name best] |} "hold.confirming" []) with
       dc_Until := Some (reason "until.confirm" [AS "node" (rw_Name best); AI "gainMs" (gain_of c)]) |}
  else switch c "switch.faster" [AS "from" (di_Now input); AI "gainMs" (gain_of c)].

(** The [switch] over the state of the current node. *)
Definition decide_current (c : Choice) : Decision :=
  let input := co_input c in
  let current := co_current c in
  let elsewhere := negb (eqs (rw_Name (co_best c)) (di_Now input)) in
  if di_ForceSwitch input && elsewhere then switch c "switch.change-server" [AS "from" (di_Now input)]
  else if is_dead (rw_Health current) then switch c "switch.failover" [AS "from" (di_Now input)]
  else match rw_Excluded current with
       | Some why =>
           if negb (eqs (rs_Code why) "cooldown")
           then switch c "switch.out-of-pool" [AS "from" (di_Now input); AS "why" (rs_Code why)]
           else hold c "hold.no-alternative" []
       | None => if elsewhere then decide_improve c else hold c "hold.best" []
       end.

(** No member is eligible. *)
Definition decide_stranded (input : DecideInput) (d : Decision) (current : option Ranked) : Decision :=
  if match current with Some c => excluded_as c "cooldown" | None => false end
  then {| d with dc_Reason := reason "hold.no-alternative" [] |}
  else
    let target := strandedTarget (pl_Stranded (di_Policy input)) (di_Members input) in
    if negb (empty target) && negb (eqs target (di_Now input))
    then {| d with dc_Action := SwitchAction; dc_Target := target;
                   dc_Reason := reason "switch.stranded" [AS "node" target] |}
    else {| d with dc_Action := StrandedAction; dc_Reason := reason "stranded.no-candidates" [] |}.

(** The decision when no pin holds. *)
Definition decide_free (input : DecideInput) (rows : list Ranked) (d : Decision)
    (current best : option Ranked) (needs : list string) : Decision :=
  match best with
  | None => decide_stranded input {| d with dc_Needs := needs |} current
  | Some best =>
      match current with
      | None => switchTo input rows needs best "switch.initial" []
      | Some current =>
          decide_current {| co_input := input; co_rows := rows; co_best := best;
                            co_current := current; co_needs := needs |}
      end
  end.

(** [Decide] once the members are ranked. *)
Definition decide_ranked (input : DecideInput) (rows : list Ranked) : Decision :=
  let current := by_name rows (di_Now input) in
  let best := List.find eligible rows in
  let d := {| dc_Action := HoldAction; dc_Target := di_Now input; dc_Reason := reason "" [];
              dc_Tier := EmptyString; dc_Until := None; dc_Ranking := rows; dc_Needs := [] |} in
  if di_Paused input then
    {| d with dc_Reason := reason "hold.paused" [AS "kind" (net_kind (di_Net input))];
              dc_Tier := match current with Some c => rw_TierLabel c | None => EmptyString end |}
  else
    let needs := pendingNeeds rows best (tier_count (di_Policy input)) in
    let pinned := pin_down input in
    let pin := if pinned then by_name rows (ct_PinName (di_Control input)) else None in
    match pin with
    | Some pin =>
        if negb (is_dead (rw_Health pin)) && eligible pin then
          let d := {| d with dc_Target := rw_Name pin; dc_Tier := rw_TierLabel pin; dc_Needs := needs |} in
          if eqs (di_Now input) (rw_Name pin) then {| d with dc_Reason := reason "hold.pinned" [] |}
          else {| d with dc_Action := SwitchAction; dc_Reason := reason "switch.pinned" [AS "node" (rw_Name pin)] |}
        else decide_free input rows d current best (needs ++ [ct_PinName (di_Control input)])
    | None =>
        decide_free input rows d current best
          (if pinned then needs ++ [ct_PinName (di_Control input)] else needs)
    end.

Definition Decide (input : DecideInput) : Decision :=
  if is_mode (ct_Mode (di_Control input)) ManualMode then manual_decision input
  else if negb (empty (pl_Fixed (di_Policy input))) && negb (pin_down input) then decideFixed input
  else decide_ranked input (rank input).
End decide.
