(* ===== verification/Merge.v ===== *)
(** * Bringing a source's changes into a fork: core/rcx/merge.go

    A three-way merge of YAML documents: the common base, what the source
    became (theirs) and what the user made of it (mine). Nodes are trees; the
    code changes the tree of the user's document in place, here an operation
    returns the changed tree. A node the source contributes is shared with
    its document in the code: it is not changed after that, because a node
    merged with itself only meets equal values. An alias node is a leaf. *)

From S2P Require Import Prelude GoText.

(** ** Nodes of go.yaml.in/yaml *)

Inductive nodeKind := SequenceNode | MappingNode | ScalarNode | AliasNode.
#[export] Instance nodeKind_eq : EqDecision nodeKind. Proof. solve_decision. Defined.

(** A node: what the code reads of it, and [yn_look], its tag, style and
    comments, which it carries along. *)
Inductive node := Node (yn_Kind : nodeKind) (yn_Value : string) (yn_look : string) (yn_Content : list node).

Definition yn_Kind (n : node) : nodeKind := let 'Node k _ _ _ := n in k.
Definition yn_Value (n : node) : string := let 'Node _ v _ _ := n in v.
Definition yn_Content (n : node) : list node := let 'Node _ _ _ c := n in c.
Definition with_content (n : node) (content : list node) : node := let 'Node k v l _ := n in Node k v l content.

(** The levels below a node. *)
Fixpoint height (n : node) : nat := let 'Node _ _ _ content := n in S (list_max (List.map height content)).

(** [meaning] is the text [yaml.Marshal] gives for the decoded value of a
    node, if it decodes. *)
Class Meaning := { meaning : node → option string }.

Definition is_kind (k : nodeKind) (n : node) : bool := bool_decide (yn_Kind n = k).

(** ** Mappings

    The content of a mapping alternates keys and values ([pairs]). *)

Definition mappingKeys (n : option node) : list string :=
  (λ kv, yn_Value kv.1) <$> match n with Some n => pairs (yn_Content n) | None => [] end.

Definition find_value (key : string) (content : list node) : option node :=
  snd <$> List.find (λ kv, eqs (yn_Value kv.1) key) (pairs content).

Definition mappingValue (n : option node) (key : string) : option node := n ← n; find_value key (yn_Content n).

(** Replace the value of the first pair with the key, or drop the pair. *)
Fixpoint put_value (key : string) (value : option node) (content : list node) : list node :=
  match content with
  | k :: v :: rest =>
      if eqs (yn_Value k) key then match value with Some v' => k :: v' :: rest | None => rest end
      else k :: v :: put_value key value rest
  | _ => content
  end.

(** The last key node of the name. *)
Definition key_node (from : option node) (key : string) : node :=
  foldl (λ found kv, if eqs (yn_Value kv.1) key then kv.1 else found) (Node ScalarNode key "!!str" [])
    match from with Some from => pairs (yn_Content from) | None => [] end.

Definition setMappingValue (n : node) (key : string) (value from : option node) : node :=
  with_content n
    (if bool_decide (is_Some (find_value key (yn_Content n))) then put_value key value (yn_Content n)
     else match value with
          | Some v => yn_Content n ++ [key_node from key; v]
          | None => yn_Content n
          end).

(** ** Lists of named items *)

Definition itemName (item : node) : string :=
  match mappingValue (Some item) "name" with
  | Some name => if is_kind ScalarNode name then yn_Value name else EmptyString
  | None => EmptyString
  end.

Definition namedItem (items : list node) (name : string) : option node :=
  List.find (λ item, eqs (itemName item) name) items.

Definition namedList (n : node) : bool :=
  is_kind SequenceNode n &&
  forallb (λ item, is_kind MappingNode item && negb (empty (itemName item))) (yn_Content n).

Definition content_of (n : option node) : list node := match n with Some n => yn_Content n | None => [] end.

(** [&yaml.Node{Kind: yaml.MappingNode}]. *)
Definition empty_mapping : node := Node MappingNode EmptyString EmptyString [].

Section merge.
Context `{Meaning}.

Definition sameNode (a b : option node) : bool :=
  match a, b with
  | Some a, Some b =>
      match meaning a, meaning b with
      | Some x, Some y => eqs x y
      | _, _ => false
      end
  | None, None => true
  | _, _ => false
  end.

(** What becomes of one key of a mapping. *)
Inductive resolution :=
  | KeepMine
  | TakeTheirs
  | MergeMappings (t m : node)
  | MergeNamed (t m : node)
  | Conflict.

Definition mapping_or_none (b : option node) : bool := match b with Some b => is_kind MappingNode b | None => true end.
Definition named_or_none (b : option node) : bool := match b with Some b => namedList b | None => true end.

Definition resolve (b t m : option node) : resolution :=
  if sameNode t b || sameNode m t then KeepMine
  else if sameNode m b then TakeTheirs
  else match m, t with
       | Some m, Some t =>
           if is_kind MappingNode m && is_kind MappingNode t && mapping_or_none b then MergeMappings t m
           else if namedList m && namedList t && named_or_none b then MergeNamed t m
           else Conflict
       | _, _ => Conflict
       end.

(** Where an item of the source goes: after the nearest item before it there
    that was kept. [before] is what precedes it, nearest first. *)
Fixpoint insert_at (kept before : list node) : nat :=
  match before with
  | [] => 0
  | t :: before =>
      match list_find (λ n, itemName n = itemName t) kept with
      | Some (k, _) => S k
      | None => insert_at kept before
      end
  end.

Definition insert_item (kept : list node) (at_ : nat) (t : node) : list node := take at_ kept ++ t :: drop at_ kept.

(** The second loop of [mergeNamed]: the source's items the user lacks. *)
Fixpoint add_items (base : option node) (mine : list node) (prefix : string) (before theirs kept : list node)
    (conflicts : list string) : list node * list string :=
  match theirs with
  | [] => (kept, conflicts)
  | t :: theirs =>
      let name := itemName t in
      let '(kept, conflicts) :=
        match namedItem mine name with
        | Some _ => (kept, conflicts)
        | None =>
            match namedItem (content_of base) name with
            | Some b => (kept, if sameNode (Some b) (Some t) then conflicts else conflicts ++ [prefix +:+ name])
            | None => (insert_item kept (insert_at kept before) t, conflicts)
            end
        end in
      add_items base mine prefix (t :: before) theirs kept conflicts
  end.

(** What a merge of two nodes leaves, and the paths in conflict. [None] when
    the fuel ends. *)
Notation merged := (option (node * list string)).

Section named.
Context (merge : node → node → node → string → merged).

(** One item of the user's list: what it becomes, and whether it stays. *)
Definition merge_item (base theirs : option node) (prefix : string) (m : node) : option (node * bool * list string) :=
  let name := itemName m in
  match namedItem (content_of theirs) name, namedItem (content_of base) name with
  | None, None => Some (m, true, [])
  | None, Some b => if sameNode (Some m) (Some b) then Some (m, false, []) else Some (m, true, [prefix +:+ name])
  | Some t, b =>
      '(m', conflicts) ← merge (default empty_mapping b) t m (prefix +:+ name +:+ ".");
      Some (m', true, conflicts)
  end.

Definition merge_named (base : option node) (theirs mine : node) (prefix : string) : merged :=
  items ← mapM (merge_item base (Some theirs) prefix) (yn_Content mine);
  let kept := (λ x, x.1.1) <$> filter (λ x, x.1.2 = true) items in
  let '(content, conflicts) :=
    add_items base ((λ x, x.1.1) <$> items) prefix [] (yn_Content theirs) kept (items ≫= snd) in
  Some (with_content mine content, conflicts).

(** One key of [mergeMapping]. *)
Definition merge_key (base theirs : node) (prefix : string) (st : node * list string) (key : string) : merged :=
  let '(mine, conflicts) := st in
  let b := mappingValue (Some base) key in
  let t := mappingValue (Some theirs) key in
  match resolve b t (mappingValue (Some mine) key) with
  | KeepMine => Some (mine, conflicts)
  | TakeTheirs => Some (setMappingValue mine key t (Some theirs), conflicts)
  | MergeMappings t m =>
      '(m', cs) ← merge (default empty_mapping b) t m (prefix +:+ key +:+ ".");
      Some (with_content mine (put_value key (Some m') (yn_Content mine)), conflicts ++ cs)
  | MergeNamed t m =>
      '(m', cs) ← merge_named b t m (prefix +:+ key +:+ ".");
      Some (with_content mine (put_value key (Some m') (yn_Content mine)), conflicts ++ cs)
  | Conflict => Some (mine, conflicts ++ [prefix +:+ key])
  end.

Definition merged_keys (theirs mine : node) : list string :=
  mappingKeys (Some mine) ++
  filter (λ key, mappingValue (Some mine) key = None) (mappingKeys (Some theirs)).

Definition merge_keys (base theirs : node) (prefix : string) (st : node * list string) (keys : list string) : merged :=
  foldl (λ r key, st ← r; merge_key base theirs prefix st key) (Some st) keys.
End named.

(** [mergeMapping]; every level of the recursion is a level of [theirs]. *)
Fixpoint merge_fuel (fuel : nat) (base theirs mine : node) (prefix : string) : merged :=
  match fuel with
  | O => None
  | S fuel => merge_keys (merge_fuel fuel) base theirs prefix (mine, []) (merged_keys theirs mine)
  end.

Definition mergeMapping (base theirs mine : node) (prefix : string) : merged :=
  merge_fuel (height theirs) base theirs mine prefix.
End merge.

(** ** Documents *)

(** What a text decodes to: no node for an empty document. *)
Class Documents := {
  yaml_document : string → option (option node);
  yaml_encode : node → option string;
}.

Inductive mergeError :=
  | BaseError | SourceError
  | YourError (kind : string) | NotAMapping (kind : string)
  | EncodeError | DoesNotParse (kind : string).

Section document.
Context `{Meaning} `{Documents}.

Definition mergeRoot (data : string) : option node :=
  match yaml_document data with
  | None => None
  | Some None => Some empty_mapping
  | Some (Some root) => if is_kind MappingNode root then Some root else None
  end.

(** What [mergeDocument] returns: the text with its conflicts, or an error
    with the conflicts found before it. *)
Definition mergeDocument (base theirs mine kind : string) (parses : string → bool)
    : (string + mergeError) * list string :=
  match mergeRoot base with
  | None => (inr BaseError, [])
  | Some b =>
      match mergeRoot theirs with
      | None => (inr SourceError, [])
      | Some t =>
          match yaml_document mine with
          | None => (inr (YourError kind), [])
          | Some None => (inr (NotAMapping kind), [])
          | Some (Some root) =>
              if negb (is_kind MappingNode root) then (inr (NotAMapping kind), [])
              else
                let '(doc, conflicts) := default (root, []) (mergeMapping b t root EmptyString) in
                match yaml_encode doc with
                | None => (inr EncodeError, [])
                | Some text => if parses text then (inl text, conflicts) else (inr (DoesNotParse kind), conflicts)
                end
          end
      end
  end.
End document.
