(* ===== verification/MergeFacts.v ===== *)
(** * Facts about merging

    The recursion ends on every pair of documents; and a key of the merged
    mapping is what a three-way comparison of that key alone makes of it. *)

From S2P Require Import Prelude GoText Merge.

(** ** Contents of a mapping *)

Lemma find_value_put_eq key v content : is_Some (find_value key content) →
  find_value key (put_value key (Some v) content) = Some v.
Proof.
  unfold find_value. induction content as [|x|x y l IH] using pairs_ind; cbn; try by intros [? [=]].
  destruct (eqs (yn_Value x) key) eqn:E; cbn; rewrite E; [done | exact IH].
Qed.

Lemma find_value_put_ne key key' v content : key ≠ key' →
  find_value key' (put_value key v content) = find_value key' content.
Proof.
  intros Hne. unfold find_value. induction content as [|x|x y l IH] using pairs_ind; [done..|]. cbn.
  destruct (eqs (yn_Value x) key) eqn:E.
  - apply eqs_true in E. assert (eqs (yn_Value x) key' = false) as E' by (apply eqs_false; congruence).
    destruct v; cbn; by rewrite E'.
  - cbn. destruct (eqs (yn_Value x) key'); [done | exact IH].
Qed.

Definition keys_of (content : list node) : list string := (λ kv, yn_Value kv.1) <$> pairs content.

Lemma keys_of_cons x y l : keys_of (x :: y :: l) = yn_Value x :: keys_of l.
Proof. reflexivity. Qed.

Lemma find_value_is_Some key content : is_Some (find_value key content) ↔ key ∈ keys_of content.
Proof.
  unfold find_value, keys_of. induction content as [|x|x y l IH] using pairs_ind; cbn.
  1,2: split; [intros [? [=]] | intros ?%elem_of_nil; done].
  rewrite elem_of_cons. destruct (eqs (yn_Value x) key) eqn:E; cbn.
  - apply eqs_true in E. split; [by left | by eexists].
  - apply eqs_false in E. rewrite IH. naive_solver.
Qed.

Lemma keys_put_Some key v content : keys_of (put_value key (Some v) content) = keys_of content.
Proof.
  unfold keys_of. induction content as [|x|x y l IH] using pairs_ind; [done..|]. cbn.
  destruct (eqs (yn_Value x) key); cbn; [done | by f_equal].
Qed.

Lemma keys_put_None key content : NoDup (keys_of content) →
  keys_of (put_value key None content) = filter (λ k, k ≠ key) (keys_of content).
Proof.
  induction content as [|x|x y l IH] using pairs_ind; [done..|]. rewrite keys_of_cons, NoDup_cons, filter_cons.
  intros [Hx Hl]. cbn [put_value]. destruct (eqs (yn_Value x) key) eqn:E.
  - apply eqs_true in E as <-. rewrite decide_False by (intros Hn; by apply Hn). symmetry.
    apply list_filter_all, Forall_forall. intros k Hk ->. done.
  - apply eqs_false in E. rewrite keys_of_cons, decide_True by done. f_equal. by apply IH.
Qed.

Lemma filter_iff_in {A} (P Q : A → Prop) `{∀ x, Decision (P x)} `{∀ x, Decision (Q x)} (l : list A) :
  (∀ x, x ∈ l → P x ↔ Q x) → filter P l = filter Q l.
Proof.
  induction l as [|x l IH]; intros Hpq; [done|]. rewrite !filter_cons, IH by (intros y Hy; apply Hpq; by right).
  apply decide_ext, Hpq. by left.
Qed.

Lemma length_put_value key v content : Nat.Even (length content) → Nat.Even (length (put_value key v content)).
Proof.
  induction content as [|x|x y l IH] using pairs_ind; [done..|]. cbn. intros [[|m] Hm]; [lia|].
  destruct (eqs (yn_Value x) key); [destruct v; [by exists (S m) | exists m; lia]|].
  destruct IH as [m' Hm']; [exists m; lia|]. exists (S m'). cbn. lia.
Qed.

(** ** Mappings *)

(** A mapping as YAML has it: keys and values in pairs, no key twice. *)
Definition mapping_ok (n : node) : Prop := Nat.Even (length (yn_Content n)) ∧ NoDup (mappingKeys (Some n)).

Lemma content_with n content : yn_Content (with_content n content) = content.
Proof. by destruct n. Qed.

Lemma with_content_twice n c c' : with_content (with_content n c) c' = with_content n c'.
Proof. by destruct n. Qed.

Lemma value_key n key : is_Some (mappingValue (Some n) key) ↔ key ∈ mappingKeys (Some n).
Proof. apply find_value_is_Some. Qed.

Lemma key_node_value from key : yn_Value (key_node from key) = key.
Proof.
  unfold key_node. set (l := match from with Some _ => _ | None => _ end).
  assert (H : ∀ n, yn_Value n = key →
    yn_Value (foldl (λ found kv, if eqs (yn_Value kv.1) key then kv.1 else found) n l) = key); [|by apply H].
  induction l as [|kv l IH]; intros n Hn; cbn; [done|]. apply IH. by case_if; [apply eqs_true in E|].
Qed.

(** What one write does to a mapping: to the key, to the others, to the keys. *)
Record writes (mine : node) (key : string) (value : option node) (mine' : node) : Prop := {
  wr_ok : mapping_ok mine';
  wr_key : mappingValue (Some mine') key = value;
  wr_other : ∀ key', key' ≠ key → mappingValue (Some mine') key' = mappingValue (Some mine) key';
  wr_old : key ∈ mappingKeys (Some mine) → mappingKeys (Some mine') =
    filter (λ k, k ≠ key ∨ is_Some value) (mappingKeys (Some mine));
  wr_new : key ∉ mappingKeys (Some mine) → mappingKeys (Some mine') =
    mappingKeys (Some mine) ++ (if value then [key] else []);
}.

Lemma writes_nothing mine key : mapping_ok mine → writes mine key (mappingValue (Some mine) key) mine.
Proof.
  intros Hok. split; try done.
  - intros Hin. symmetry. apply list_filter_all, Forall_forall. intros k Hk. by right; apply value_key.
  - intros Hin. destruct (mappingValue (Some mine) key) eqn:E; [|by rewrite app_nil_r].
    exfalso. apply Hin, value_key. by rewrite E.
Qed.

Lemma writes_put mine key v : mapping_ok mine → key ∈ mappingKeys (Some mine) →
  writes mine key v (with_content mine (put_value key v (yn_Content mine))).
Proof.
  intros [Heven Hnd] Hin. pose proof (proj2 (find_value_is_Some key _) Hin) as Hsome.
  assert (Hkeys : mappingKeys (Some (with_content mine (put_value key v (yn_Content mine)))) =
    filter (λ k, k ≠ key ∨ is_Some v) (mappingKeys (Some mine))).
  { unfold mappingKeys. rewrite content_with. fold (keys_of (put_value key v (yn_Content mine))) (keys_of (yn_Content mine)).
    destruct v as [v|].
    - rewrite keys_put_Some. symmetry. apply list_filter_all, Forall_forall. by right.
    - rewrite keys_put_None by done. apply list_filter_iff. intros k. split; [by left | intros [?|[? [=]]]; done]. }
  split; [split | | | done |].
  - rewrite content_with. by apply length_put_value.
  - rewrite Hkeys. by apply NoDup_filter.
  - destruct v as [v|]; cbn; rewrite content_with; [by apply find_value_put_eq|].
    destruct (find_value key (put_value key None (yn_Content mine))) eqn:E; [|done]. exfalso.
    assert (key ∈ keys_of (put_value key None (yn_Content mine))) as Hk by (apply find_value_is_Some; by eexists).
    rewrite keys_put_None, list_elem_of_filter in Hk by done. tauto.
  - intros key' Hne. cbn. rewrite content_with. by apply find_value_put_ne.
  - done.
Qed.

Lemma writes_set mine key v from : mapping_ok mine → writes mine key v (setMappingValue mine key v from).
Proof.
  intros Hok. unfold setMappingValue. case_bool_decide as Hs.
  - by apply writes_put; [|apply find_value_is_Some].
  - assert (Hnew : key ∉ mappingKeys (Some mine)) by (by rewrite <- value_key).
    assert (Hnone : find_value key (yn_Content mine) = None) by (by apply eq_None_not_Some).
    destruct v as [v|]; [|replace (with_content mine (yn_Content mine)) with mine by (by destruct mine);
      rewrite <- Hnone at 1; by apply writes_nothing].
    destruct Hok as [Heven Hnd].
    assert (Hp : pairs (yn_Content mine ++ [key_node from key; v]) = pairs (yn_Content mine) ++ [(key_node from key, v)])
      by (by apply pairs_snoc).
    assert (Hkeys : mappingKeys (Some (with_content mine (yn_Content mine ++ [key_node from key; v]))) =
      mappingKeys (Some mine) ++ [key]).
    { unfold mappingKeys. rewrite content_with, Hp, fmap_app. cbn. by rewrite key_node_value. }
    assert (Hval : ∀ k, mappingValue (Some (with_content mine (yn_Content mine ++ [key_node from key; v]))) k =
      match mappingValue (Some mine) k with Some x => Some x | None => if eqs key k then Some v else None end).
    { intros k. cbn. rewrite content_with. unfold find_value. rewrite Hp. clear. induction (pairs _) as [|kv l IH]; cbn.
      - rewrite key_node_value. by destruct (eqs key k).
      - destruct (eqs (yn_Value kv.1) k); [done | exact IH]. }
    split; [split | | | done | done].
    + rewrite content_with, length_app. destruct Heven as [m Hm]. exists (S m). cbn. lia.
    + rewrite Hkeys. apply NoDup_app. split_and!; [done | set_solver | apply NoDup_singleton].
    + rewrite Hval. cbn. rewrite Hnone. unfold eqs. by rewrite bool_decide_eq_true_2.
    + intros k Hne. rewrite Hval. destruct (mappingValue (Some mine) k); [done|].
      by rewrite (proj2 (eqs_false key k)) by done.
Qed.

(** ** The recursion ends *)

Section facts.
Context `{M : Meaning}.

Lemma height_lt n x : x ∈ yn_Content n → (height x < height n)%nat.
Proof.
  destruct n as [k v l content]. cbn. intros Hx. apply Nat.lt_succ_r.
  assert (Forall (λ h, h <= list_max (List.map height content))%nat (List.map height content)) as Hmax
    by (by apply list_max_le).
  rewrite Forall_forall in Hmax. by apply Hmax, list_elem_of_fmap_2.
Qed.

Lemma mappingValue_lt n key x : mappingValue (Some n) key = Some x → (height x < height n)%nat.
Proof.
  change (find_value key (yn_Content n) = Some x → (height x < height n)%nat).
  unfold find_value. intros ([k v] & [Hin _]%find_elem & ->)%fmap_Some. apply height_lt. by eapply elem_of_pairs.
Qed.

Lemma namedItem_lt n name x : namedItem (yn_Content n) name = Some x → (height x < height n)%nat.
Proof. intros [Hin _]%find_elem. by apply height_lt. Qed.

Notation merged := (option (node * list string)).
Implicit Types merge : node → node → node → string → merged.

(** What the steps need of the merge of what lies below. *)
Definition agree (h : nat) merge merge' : Prop :=
  ∀ b t m prefix, (height t < h)%nat → merge b t m prefix = merge' b t m prefix ∧ is_Some (merge b t m prefix).

Lemma merge_item_agree merge merge' b t prefix m h : agree h merge merge' → (height t <= h)%nat →
  merge_item merge b (Some t) prefix m = merge_item merge' b (Some t) prefix m ∧
  is_Some (merge_item merge b (Some t) prefix m).
Proof.
  intros Ha Hh. unfold merge_item. change (content_of (Some t)) with (yn_Content t). destruct (namedItem (yn_Content t) (itemName m)) as [x|] eqn:Ex.
  - apply namedItem_lt in Ex. destruct (Ha (default empty_mapping (namedItem (content_of b) (itemName m))) x m
      (prefix +:+ itemName m +:+ ".")) as [<- [[m' cs] Hs]]; [lia|]. by rewrite Hs.
  - destruct (namedItem (content_of b) (itemName m)); [|done]. by case_match.
Qed.

Lemma merge_named_agree merge merge' b t m prefix h : agree h merge merge' → (height t <= h)%nat →
  merge_named merge b t m prefix = merge_named merge' b t m prefix ∧ is_Some (merge_named merge b t m prefix).
Proof.
  intros Ha Hh. unfold merge_named.
  assert (∀ l, mapM (merge_item merge b (Some t) prefix) l = mapM (merge_item merge' b (Some t) prefix) l ∧
               is_Some (mapM (merge_item merge b (Some t) prefix) l)) as Hm.
  { induction l as [|x l [IHe IHs]]; [done|]. cbn. destruct (merge_item_agree merge merge' b t prefix x h) as [<- [y ->]]; [done..|].
    rewrite <- IHe. cbn. destruct IHs as [ys ->]. done. }
  destruct (Hm (yn_Content m)) as [<- [items ->]]. cbn. by destruct (add_items _ _ _ _ _ _ _).
Qed.

Lemma resolve_merges b t m : match resolve b t m with
  | MergeMappings t' m' | MergeNamed t' m' => t = Some t' ∧ m = Some m'
  | _ => True
  end.
Proof. unfold resolve. repeat case_match; simplify_eq; done. Qed.

Lemma merge_key_agree merge merge' b t prefix st key h : agree h merge merge' → (height t <= h)%nat →
  merge_key merge b t prefix st key = merge_key merge' b t prefix st key ∧ is_Some (merge_key merge b t prefix st key).
Proof.
  intros Ha Hh. unfold merge_key. destruct st as [mine cs].
  pose proof (resolve_merges (mappingValue (Some b) key) (mappingValue (Some t) key) (mappingValue (Some mine) key)) as Hr.
  destruct (resolve _ _ _) as [| |x m|x m|]; try done; destruct Hr as [Hx%mappingValue_lt _].
  - destruct (Ha (default empty_mapping (mappingValue (Some b) key)) x m (prefix +:+ key +:+ ".")) as [<- [[m' cs'] ->]]; [lia | done].
  - destruct (merge_named_agree merge merge' (mappingValue (Some b) key) x m (prefix +:+ key +:+ ".") h) as [<- [[m' cs'] ->]];
      [done | lia | done].
Qed.

Lemma merge_keys_cons merge b t prefix st key keys :
  merge_keys merge b t prefix st (key :: keys) = st ← merge_key merge b t prefix st key; merge_keys merge b t prefix st keys.
Proof.
  unfold merge_keys. cbn. destruct (merge_key merge b t prefix st key) as [st'|]; [done|]. cbn.
  induction keys as [|k keys IH]; [done | exact IH].
Qed.

Lemma merge_keys_agree merge merge' b t prefix keys h : agree h merge merge' → (height t <= h)%nat →
  ∀ st, merge_keys merge b t prefix st keys = merge_keys merge' b t prefix st keys ∧
        is_Some (merge_keys merge b t prefix st keys).
Proof.
  intros Ha Hh. induction keys as [|key keys IH]; intros st; [done|]. rewrite !merge_keys_cons.
  destruct (merge_key_agree merge merge' b t prefix st key h) as [<- [st' ->]]; [done..|]. cbn. apply IH.
Qed.

(** Enough fuel is as good as more. *)
Lemma merge_fuel_agree f : ∀ g, (f <= g)%nat → agree (S f) (merge_fuel f) (merge_fuel g).
Proof.
  induction f as [|f IH]; intros g Hg b t m prefix Ht; [destruct t; cbn in Ht; lia|].
  destruct g as [|g]; [lia|]. cbn [merge_fuel]. apply (merge_keys_agree _ _ _ _ _ _ (S f)); [|lia].
  intros b' t' m' prefix' Ht'. apply IH; lia.
Qed.

Lemma mergeMapping_fuel f b t m prefix : (height t <= f)%nat → merge_fuel f b t m prefix = mergeMapping b t m prefix.
Proof. intros Hf. symmetry. apply (merge_fuel_agree (height t) f Hf b t m prefix). lia. Qed.

Lemma mergeMapping_total b t m prefix : is_Some (mergeMapping b t m prefix).
Proof. apply (merge_fuel_agree (height t) (height t) (le_n _) b t m prefix). lia. Qed.

Lemma mergeMapping_eq b t m prefix :
  mergeMapping b t m prefix = merge_keys mergeMapping b t prefix (m, []) (merged_keys t m).
Proof.
  unfold mergeMapping at 1. destruct t as [k v l content]. set (t := Node k v l content).
  change (height t) with (S (list_max (List.map height content))). cbn [merge_fuel].
  apply (merge_keys_agree _ _ _ _ _ _ (S (list_max (List.map height content)))); [|done].
  intros b' t' m' prefix' Ht'. split; [apply mergeMapping_fuel; lia|].
  rewrite mergeMapping_fuel by lia. apply mergeMapping_total.
Qed.

(** ** Key by key *)

Definition both_mappings (b t m : option node) : bool :=
  match t, m with Some t, Some m => is_kind MappingNode m && is_kind MappingNode t && mapping_or_none b | _, _ => false end.
Definition both_named (b t m : option node) : bool :=
  match t, m with Some t, Some m => namedList m && namedList t && named_or_none b | _, _ => false end.

(** Both sides changed the key, and differently. *)
Definition both_changed (b t m : option node) : Prop :=
  sameNode t b = false ∧ sameNode m t = false ∧ sameNode m b = false.

(** What a three-way comparison makes of one key at [path]: the value it gets
    and the conflicts it has, from its values in the base, the source and the
    user's document. *)
Inductive three_way (b t m : option node) (path : string) : option node → list string → Prop :=
  | tw_source_kept : sameNode t b = true → three_way b t m path m []
  | tw_same_change : sameNode m t = true → three_way b t m path m []
  | tw_user_kept : sameNode t b = false → sameNode m t = false → sameNode m b = true → three_way b t m path t []
  | tw_mappings tn mn m' cs : both_changed b t m → both_mappings b t m = true → t = Some tn → m = Some mn →
      mergeMapping (default empty_mapping b) tn mn (path +:+ ".") = Some (m', cs) →
      three_way b t m path (Some m') cs
  | tw_lists tn mn m' cs : both_changed b t m → both_mappings b t m = false → both_named b t m = true →
      t = Some tn → m = Some mn → merge_named mergeMapping b tn mn (path +:+ ".") = Some (m', cs) →
      three_way b t m path (Some m') cs
  | tw_conflict : both_changed b t m → both_mappings b t m = false → both_named b t m = false →
      three_way b t m path m [path].

Lemma merge_key_three_way base theirs prefix mine cs key mine' cs' : mapping_ok mine →
  merge_key mergeMapping base theirs prefix (mine, cs) key = Some (mine', cs') →
  ∃ v c, three_way (mappingValue (Some base) key) (mappingValue (Some theirs) key) (mappingValue (Some mine) key)
           (prefix +:+ key) v c ∧ writes mine key v mine' ∧ cs' = cs ++ c.
Proof.
  intros Hok. unfold merge_key.
  set (b := mappingValue (Some base) key). set (t := mappingValue (Some theirs) key).
  assert (Hin : ∀ mn, mappingValue (Some mine) key = Some mn → key ∈ mappingKeys (Some mine))
    by (intros mn Hm; apply value_key; by rewrite Hm).
  pose proof (writes_nothing mine key Hok) as Hnothing.
  set (m := mappingValue (Some mine) key) in *. unfold resolve.
  destruct (sameNode t b) eqn:E1; [|destruct (sameNode m t) eqn:E2]; cbn [orb];
    [intros [= <- <-]; exists m, []; rewrite app_nil_r; by split; [constructor|]..|].
  destruct (sameNode m b) eqn:E3.
  { intros [= <- <-]. exists t, []. rewrite app_nil_r. split; [by constructor|]. split; [|done]. by apply writes_set. }
  assert (Hboth : both_changed b t m) by (by split_and!).
  assert (Hclash : ∀ mine' cs', both_mappings b t m = false → both_named b t m = false →
    Some (mine, cs ++ [prefix +:+ key]) = Some (mine', cs') →
    ∃ v c, three_way b t m (prefix +:+ key) v c ∧ writes mine key v mine' ∧ cs' = cs ++ c).
  { intros ? ? ? ? [= <- <-]. exists m, [prefix +:+ key]. split; [by apply tw_conflict | by split]. }
  destruct m as [mn|]; [|by apply Hclash; destruct t]. destruct t as [tn|]; [|by apply Hclash].
  specialize (Hin mn eq_refl). rewrite <- append_assoc.
  case_if; [|case_if; [|by apply Hclash]].
  - destruct (mergeMapping _ tn mn _) as [[m' c]|] eqn:Em'; [|done]. intros [= <- <-]. exists (Some m'), c.
    split; [by eapply tw_mappings | split; [by apply writes_put | done]].
  - destruct (merge_named _ _ tn mn _) as [[m' c]|] eqn:Em'; [|done]. intros [= <- <-]. exists (Some m'), c.
    split; [by eapply tw_lists | split; [by apply writes_put | done]].
Qed.

(** ** All the keys *)

Definition has (n : node) (key : string) : Prop := is_Some (mappingValue (Some n) key).
#[local] Instance has_dec n key : Decision (has n key) := _.

Lemma merge_keys_app merge b t prefix st k1 k2 : merge_keys merge b t prefix st (k1 ++ k2) =
  st ← merge_keys merge b t prefix st k1; merge_keys merge b t prefix st k2.
Proof.
  unfold merge_keys. rewrite foldl_app. destruct (foldl _ (Some st) k1) as [st'|]; [done|].
  induction k2 as [|k k2 IH]; [done | exact IH].
Qed.

Lemma merge_keys_values base theirs prefix keys (m0 : string → option node) : NoDup keys →
  ∀ mine cs mine' cs', mapping_ok mine → (∀ k, k ∈ keys → mappingValue (Some mine) k = m0 k) →
  merge_keys mergeMapping base theirs prefix (mine, cs) keys = Some (mine', cs') →
  mapping_ok mine' ∧ (∀ k, k ∉ keys → mappingValue (Some mine') k = mappingValue (Some mine) k) ∧
  ∃ css, cs' = cs ++ concat css ∧
    Forall2 (λ key c, three_way (mappingValue (Some base) key) (mappingValue (Some theirs) key) (m0 key)
                        (prefix +:+ key) (mappingValue (Some mine') key) c) keys css.
Proof.
  induction 1 as [|key keys Hkey Hnd IH]; intros mine cs mine' cs' Hok Hm0.
  { intros [= <- <-]. split_and!; [done..|]. exists []. by rewrite app_nil_r. }
  rewrite merge_keys_cons. intros ([mine1 cs1] & Hstep & Hrest)%bind_Some.
  apply merge_key_three_way in Hstep as (v & c & Htw & Hw & ->); [|done]. destruct Hw as [Hok1 Hv Hother _ _].
  destruct (IH mine1 (cs ++ c) mine' cs') as (Hok' & Hout & css & -> & Hall); [done | | done |].
  { intros k Hk. rewrite Hother by (by intros ->). apply Hm0. by right. }
  split; [done|]. split.
  { intros k [Hne Hk]%not_elem_of_cons. by rewrite Hout, Hother. }
  exists (c :: css). split; [by rewrite <- app_assoc|]. constructor; [|done].
  rewrite (Hout key Hkey), Hv, <- (Hm0 key) by left. done.
Qed.

Lemma merge_keys_old base theirs prefix keys : NoDup keys → ∀ mine cs mine' cs', mapping_ok mine →
  (∀ k, k ∈ keys → has mine k) →
  merge_keys mergeMapping base theirs prefix (mine, cs) keys = Some (mine', cs') →
  mappingKeys (Some mine') = filter (has mine') (mappingKeys (Some mine)).
Proof.
  induction 1 as [|key keys Hkey Hnd IH]; intros mine cs mine' cs' Hok Hold.
  { intros [= <- <-]. symmetry. apply list_filter_all, Forall_forall. intros k Hk. by apply value_key. }
  rewrite merge_keys_cons. intros ([mine1 cs1] & Hstep & Hrest)%bind_Some.
  apply merge_key_three_way in Hstep as (v & c & _ & Hw & ->); [|done]. destruct Hw as [Hok1 Hv Hother Hkeys _].
  assert (Hold1 : ∀ k, k ∈ keys → has mine1 k).
  { intros k Hk. unfold has. rewrite Hother by (by intros ->). apply Hold. by right. }
  destruct (merge_keys_values base theirs prefix keys (mappingValue (Some mine1)) Hnd mine1 _ _ _ Hok1 (λ _ _, eq_refl) Hrest)
    as (_ & Hout & _).
  rewrite (IH _ _ _ _ Hok1 Hold1 Hrest), Hkeys by (apply value_key, Hold; by left).
  rewrite list_filter_filter. apply list_filter_iff. intros k. split; [tauto|]. intros Hhas. split; [done|].
  destruct (decide (k = key)) as [->|]; [|by left]. right. unfold has in Hhas. by rewrite (Hout key Hkey), Hv in Hhas.
Qed.

Lemma merge_keys_new base theirs prefix keys : NoDup keys → ∀ mine cs mine' cs', mapping_ok mine →
  (∀ k, k ∈ keys → ¬ has mine k) →
  merge_keys mergeMapping base theirs prefix (mine, cs) keys = Some (mine', cs') →
  mappingKeys (Some mine') = mappingKeys (Some mine) ++ filter (has mine') keys.
Proof.
  induction 1 as [|key keys Hkey Hnd IH]; intros mine cs mine' cs' Hok Hnew.
  { intros [= <- <-]. by rewrite app_nil_r. }
  rewrite merge_keys_cons. intros ([mine1 cs1] & Hstep & Hrest)%bind_Some.
  apply merge_key_three_way in Hstep as (v & c & _ & Hw & ->); [|done]. destruct Hw as [Hok1 Hv Hother _ Hkeys].
  assert (Hnew1 : ∀ k, k ∈ keys → ¬ has mine1 k).
  { intros k Hk. unfold has. rewrite Hother by (by intros ->). apply Hnew. by right. }
  destruct (merge_keys_values base theirs prefix keys (mappingValue (Some mine1)) Hnd mine1 _ _ _ Hok1 (λ _ _, eq_refl) Hrest)
    as (_ & Hout & _).
  rewrite (IH _ _ _ _ Hok1 Hnew1 Hrest), Hkeys, <- app_assoc.
  2: { intros Hin. apply (Hnew key); [by left | by apply value_key]. }
  f_equal. assert (has mine' key ↔ is_Some v) as Hhas by (unfold has; by rewrite (Hout key Hkey), Hv).
  rewrite filter_cons. case_decide as Hd; rewrite Hhas in Hd; destruct v; [done | by destruct Hd | by destruct Hd; eexists | done].
Qed.

(** C30: merging a fork with its source is a three-way merge, key by key, and
    it always ends. Each key of the two documents gets the value, and adds the
    conflicts, that comparing its three values alone gives: a key the source
    did not touch stays as the user has it, a key only the source changed
    follows it, added and removed keys included, a key both changed stays the
    user's and is reported, unless both are mappings or lists of named items,
    which are merged in turn. Nothing else changes: the user's keys keep their
    order, and the source's new ones follow in the source's order. *)
Theorem merge_three_way base theirs mine prefix : mapping_ok mine → NoDup (mappingKeys (Some theirs)) →
  ∃ mine' css, mergeMapping base theirs mine prefix = Some (mine', concat css) ∧ mapping_ok mine' ∧
    Forall2 (λ key c, three_way (mappingValue (Some base) key) (mappingValue (Some theirs) key)
                        (mappingValue (Some mine) key) (prefix +:+ key) (mappingValue (Some mine') key) c)
      (merged_keys theirs mine) css ∧
    mappingKeys (Some mine') = filter (λ key, is_Some (mappingValue (Some mine') key)) (merged_keys theirs mine).
Proof.
  intros Hok Hnd. destruct (mergeMapping_total base theirs mine prefix) as [[mine' cs] Hm].
  pose proof Hm as Hkeys. rewrite mergeMapping_eq in Hkeys. unfold merged_keys in Hkeys |- *.
  set (old := mappingKeys (Some mine)) in *. set (new := filter _ (mappingKeys (Some theirs))) in *.
  assert (Hnew : ∀ k, k ∈ new → ¬ has mine k).
  { intros k [Hk _]%list_elem_of_filter. unfold has. rewrite Hk. by intros [? [=]]. }
  assert (Hold : ∀ k, k ∈ old → has mine k) by (intros k Hk; by apply value_key).
  assert (Hnd1 : NoDup old) by apply Hok. assert (Hnd2 : NoDup new) by (by apply NoDup_filter).
  assert (Hdisj : ∀ k, k ∈ old → k ∉ new) by (intros k Hk Hk'; by eapply Hnew, Hold).
  destruct (merge_keys_values base theirs prefix (old ++ new) (mappingValue (Some mine))
    (proj2 (NoDup_app _ _) (conj Hnd1 (conj Hdisj Hnd2))) mine [] mine' cs Hok (λ _ _, eq_refl) Hkeys)
    as (Hok' & _ & css & -> & Hall).
  exists mine', css. split_and!; [done..|].
  rewrite merge_keys_app in Hkeys. apply bind_Some in Hkeys as ([mine1 cs1] & H1 & H2).
  destruct (merge_keys_values base theirs prefix old (mappingValue (Some mine)) Hnd1 mine [] mine1 cs1 Hok (λ _ _, eq_refl) H1)
    as (Hok1 & Hout1 & _).
  assert (Hnew1 : ∀ k, k ∈ new → ¬ has mine1 k).
  { intros k Hk. unfold has. rewrite Hout1 by (intros Ho; by eapply Hdisj). by apply Hnew. }
  destruct (merge_keys_values base theirs prefix new (mappingValue (Some mine1)) Hnd2 mine1 cs1 mine' _ Hok1 (λ _ _, eq_refl) H2)
    as (_ & Hout2 & _).
  rewrite (merge_keys_new _ _ _ _ Hnd2 _ _ _ _ Hok1 Hnew1 H2), (merge_keys_old _ _ _ _ Hnd1 _ _ _ _ Hok Hold H1), filter_app.
  f_equal. fold old. apply filter_iff_in. intros k Hk. unfold has. by rewrite Hout2 by (by apply Hdisj).
Qed.
End facts.

(** ** A fork with its own title and a source with a new key *)

Module Sample.

(** Scalars mean themselves. *)
#[local] Instance scalar_meaning : Meaning :=
  {| meaning n := if is_kind ScalarNode n then Some (yn_Value n) else None |}.

Definition scalar (s : string) : node := Node ScalarNode s EmptyString [].
Definition document (l : list (string * string)) : node :=
  Node MappingNode EmptyString EmptyString (l ≫= λ kv, [scalar kv.1; scalar kv.2]).

Definition base : node := document [("title", "Calm"); ("level", "simple")]%string.
Definition source : node := document [("title", "Calmer"); ("level", "simple"); ("energy", "eco")]%string.
Definition fork : node := document [("level", "advanced"); ("title", "Mine")]%string.

Example merged_fork : mergeMapping base source fork EmptyString =
  Some (document [("level", "advanced"); ("title", "Mine"); ("energy", "eco")], ["title"])%string.
Proof. vm_compute. reflexivity. Qed.

Lemma merge_three_way_witness : ∃ mine' css,
  mergeMapping base source fork EmptyString = Some (mine', concat css) ∧
  mappingKeys (Some mine') = ["level"; "title"; "energy"]%string ∧ concat css = ["title"%string].
Proof.
  destruct (merge_three_way base source fork EmptyString) as (mine' & css & E & _ & _ & Hkeys).
  - split; [by exists 2%nat | by apply (bool_decide_unpack _)].
  - by apply (bool_decide_unpack _).
  - exists mine', css. rewrite merged_fork in E. injection E as <- <-. by split_and!.
Defined.

End Sample.
