(* ===== verification/YamlStore.v ===== *)
(** * YAML nodes in a store: the helpers of core/profile_base.go and core/short_id.go

    The code edits the graph of nodes a parser returns: values are shared
    between mappings, an alias points to its anchor, and nodes are changed in
    place. Here a node is a record in a store and a pointer its key, [0] for
    nil: reading through nil is the fault [NilNode]. The recursive functions
    take the depth of the stack left to them; without any, the fault is
    [Endless]. *)

From S2P Require Import Prelude GoText.

Inductive yamlKind := NoKind | DocumentNode | SequenceNode | MappingNode | ScalarNode | AliasNode.
#[export] Instance yamlKind_eq : EqDecision yamlKind. Proof. solve_decision. Defined.

Notation ref := nat.

(** What the code reads or writes of a [yaml.Node]. *)
Record yamlNode := {
  yn_Kind : yamlKind;
  yn_Style : Z;
  yn_Tag : string;
  yn_Value : string;
  yn_Anchor : string;
  yn_Alias : ref;
  yn_Content : list ref;
  yn_Line : Z;
}.

Definition zero_node : yamlNode :=
  {| yn_Kind := NoKind; yn_Style := 0; yn_Tag := ""; yn_Value := ""; yn_Anchor := ""; yn_Alias := 0%nat; yn_Content := []; yn_Line := 0 |}.

Notation store := (gmap nat yamlNode).

Inductive fault := NilNode | Endless | Failed (text : string).

Definition deref (h : store) (r : ref) : result fault yamlNode :=
  match h !! r with Some n => Ok n | None => Err NilNode end.

Definition kind_is (k : yamlKind) (n : yamlNode) : bool := bool_decide (yn_Kind n = k).

(** A new node. *)
Definition next_ref (h : store) : ref := S (list_max (map_to_list h).*1).
Definition alloc (h : store) (n : yamlNode) : store * ref := (<[next_ref h := n]> h, next_ref h).

(** [Node.ShortTag] of go.yaml.in/yaml: the tag a node has or is given. *)
Class YamlTags := { ShortTag : yamlNode → string }.

Section nodes.
Context `{YamlTags}.

Definition isNull (n : yamlNode) : bool := kind_is ScalarNode n && eqs (ShortTag n) "!!null".

Definition aliased (n : yamlNode) : bool := kind_is AliasNode n && negb (yn_Alias n =? 0)%nat.

Fixpoint resolveAlias (stack : nat) (h : store) (r : ref) : result fault ref :=
  match stack with
  | O => Err Endless
  | S stack =>
      if (r =? 0)%nat then Ok 0%nat
      else n ← deref h r; if aliased n then resolveAlias stack h (yn_Alias n) else Ok r
  end.

(** ** The values of a mapping *)

(** The first loop of [mappingValue]: the value of a key of its own, or the
    values of its merge keys. *)
Fixpoint scan_keys (h : store) (key : string) (kvs : list (ref * ref)) (sources : list ref) : result fault (option ref * list ref) :=
  match kvs with
  | [] => Ok (None, sources)
  | (name, value) :: kvs =>
      n ← deref h name;
      if negb (kind_is ScalarNode n) then scan_keys h key kvs sources
      else if eqs (ShortTag n) "!!merge" then scan_keys h key kvs (sources ++ [value])
      else if eqs (yn_Value n) key then Ok (Some value, sources)
      else scan_keys h key kvs sources
  end.

(** The first value found that is not nil. *)
Fixpoint first_value (f : ref → result fault ref) (l : list ref) : result fault ref :=
  match l with
  | [] => Ok 0%nat
  | r :: l => v ← f r; if (v =? 0)%nat then first_value f l else Ok v
  end.

Definition merge_candidates (h : store) (source : ref) (n : yamlNode) : list ref :=
  if kind_is SequenceNode n then yn_Content n else [source].

Fixpoint mappingValue (stack : nat) (h : store) (mapping : ref) (key : string) : result fault ref :=
  match stack with
  | O => Err Endless
  | S deeper =>
      m ← deref h mapping;
      '(found, sources) ← scan_keys h key (pairs (yn_Content m)) [];
      match found with
      | Some value => Ok value
      | None =>
          first_value (λ source,
            source ← resolveAlias stack h source; n ← deref h source;
            first_value (λ candidate,
              candidate ← resolveAlias stack h candidate; c ← deref h candidate;
              if kind_is MappingNode c then mappingValue deeper h candidate key else Ok 0%nat)
              (merge_candidates h source n)) sources
      end
  end.

(** The content with the first pair of the key holding [value], if it has one. *)
Fixpoint put_value (h : store) (key : string) (value : ref) (content : list ref) : result fault (option (list ref)) :=
  match content with
  | name :: old :: rest =>
      n ← deref h name;
      if kind_is ScalarNode n && eqs (yn_Value n) key then Ok (Some (name :: value :: rest))
      else put ← put_value h key value rest; Ok (option_map (λ l, name :: old :: l) put)
  | _ => Ok None
  end.

Definition set_content (h : store) (r : ref) (content : list ref) : store := alter (λ n, {| n with yn_Content := content |}) r h.

Definition setMappingValue (h : store) (mapping : ref) (key : string) (value : ref) : result fault store :=
  m ← deref h mapping;
  put ← put_value h key value (yn_Content m);
  Ok (match put with
      | Some content => set_content h mapping content
      | None =>
          let '(h, name) := alloc h {| zero_node with yn_Kind := ScalarNode; yn_Tag := "!!str"; yn_Value := key |} in
          set_content h mapping (yn_Content m ++ [name; value])
      end).

(** ** Aliases written out *)

(** The loop of [walk] over the children of [r] from the [i]th on; each child
    is read when its turn comes. *)
Fixpoint walk_children (visit : store * gset ref → ref → result fault (store * gset ref)) (stack : nat)
    (s : store * gset ref) (r : ref) (i todo : nat) : result fault (store * gset ref) :=
  match todo with
  | O => Ok s
  | S todo =>
      n ← deref s.1 r;
      child ← resolveAlias stack s.1 (nth i (yn_Content n) 0%nat);
      s ← visit (set_content s.1 r (<[i := child]> (yn_Content n)), s.2) child;
      walk_children visit stack s r (S i) todo
  end.

Fixpoint walk (stack : nat) (s : store * gset ref) (r : ref) : result fault (store * gset ref) :=
  match stack with
  | O => Err Endless
  | S deeper =>
      if decide (r ∈ s.2) then Ok s
      else
        n ← deref s.1 r;
        let s := if empty (yn_Anchor n) then s else (alter (λ n, {| n with yn_Anchor := "" |}) r s.1, {[ r ]} ∪ s.2) in
        walk_children (walk deeper) stack s r 0 (length (yn_Content n))
  end.

Definition inlineAliases (stack : nat) (h : store) (root : ref) : result fault store := fst <$> walk stack (h, ∅) root.

(** ** Short ids *)

(** One pass of a function over several nodes; whether any of them changed. *)
Fixpoint each_node (f : store → ref → result fault (store * bool)) (h : store) (l : list ref) (changed : bool) : result fault (store * bool) :=
  match l with
  | [] => Ok (h, changed)
  | r :: l => '(h, c) ← f h r; each_node f h l (c || changed)
  end.

Fixpoint retagNumber (stack : nat) (h : store) (r : ref) : result fault (store * bool) :=
  match stack with
  | O => Err Endless
  | S stack =>
      n ← deref h r;
      match yn_Kind n with
      | ScalarNode =>
          Ok (if (yn_Style n =? 0) && (eqs (yn_Tag n) "!!int" || eqs (yn_Tag n) "!!float")
              then (<[r := {| n with yn_Tag := "!!str" |}]> h, true) else (h, false))
      | SequenceNode => each_node (retagNumber stack) h (yn_Content n) false
      | _ => Ok (h, false)
      end
  end.

(** The values of the keys named [short-id]. *)
Definition retag_pair (stack : nat) (h : store) (kv : ref * ref) : result fault (store * bool) :=
  name ← deref h kv.1; if eqs (yn_Value name) "short-id" then retagNumber stack h kv.2 else Ok (h, false).

Fixpoint retag_pairs (stack : nat) (h : store) (kvs : list (ref * ref)) (changed : bool) : result fault (store * bool) :=
  match kvs with
  | [] => Ok (h, changed)
  | kv :: kvs => '(h, c) ← retag_pair stack h kv; retag_pairs stack h kvs (c || changed)
  end.

Fixpoint retagShortIDs (stack : nat) (h : store) (r : ref) : result fault (store * bool) :=
  match stack with
  | O => Err Endless
  | S deeper =>
      n ← deref h r;
      '(h, changed) ← (if kind_is MappingNode n then retag_pairs stack h (pairs (yn_Content n)) false else Ok (h, false));
      each_node (retagShortIDs deeper) h (yn_Content n) changed
  end.
End nodes.
