(* ===== verification/ProfileBase.v ===== *)
(** * A profile and the overlay of the host: core/profile_base.go

    The host never decodes the long sections of a profile: it edits the rest
    as an overlay, which the core lays over the profile's text. The parser,
    the encoder, decryption and mihomo's own decoder are parameters. *)

From S2P Require Import Prelude GoText YamlStore.

Definition profileBaseSections : list string :=
  ["proxies"; "proxy-groups"; "sub-rules"; "rcx-profiles"; "rcx-scenarios"; "rcx-scenario"; "reclash-policy"]%string.

(** ** What the host is given *)

Definition isMatchRule `{Unicode} (rule : string) : bool := EqualFold (TrimSpace (Cut rule ",").1.1) "MATCH".

(** mihomo's raw config: the sections the code reads, and the rest of it. *)
Record RawConfig (mapping rest : Type) := {
  rw_Proxy : list mapping; rw_ProxyGroup : list mapping; rw_Rule : list string; rw_SubRules : gmap string (list string); rw_rest : rest
}.
Arguments rw_Proxy {mapping rest}.
Arguments rw_ProxyGroup {mapping rest}.
Arguments rw_Rule {mapping rest}.
Arguments rw_SubRules {mapping rest}.
Arguments rw_rest {mapping rest}.

Record ProfileBase (mapping rest : Type) := {
  pb_Digest : string; pb_MatchRules : list string; pb_Proxies : Z; pb_ProxyGroups : Z; pb_Rules : Z; pb_Config : RawConfig mapping rest
}.
Arguments Build_ProfileBase {mapping rest}.
Arguments pb_MatchRules {mapping rest}.
Arguments pb_Config {mapping rest}.

Record ProfileOutbound := { po_Name : string; po_Type : string }.

Section base.
Context `{Unicode} {value rest : Type} (as_string : value → option string) (sha256 : string → string).
Notation mapping := (gmap string value).

(** [handleGetProfileBase] of the text of the file and what it decodes to. *)
Definition profile_base (buf : string) (raw : RawConfig mapping rest) : ProfileBase mapping rest :=
  {| pb_Digest := sha256 buf;
     pb_MatchRules := filter (λ rule, isMatchRule rule = true) (rw_Rule raw);
     pb_Proxies := Z.of_nat (length (rw_Proxy raw));
     pb_ProxyGroups := Z.of_nat (length (rw_ProxyGroup raw));
     pb_Rules := Z.of_nat (length (rw_Rule raw));
     pb_Config := {| rw_Proxy := []; rw_ProxyGroup := []; rw_Rule := []; rw_SubRules := ∅; rw_rest := rw_rest raw |} |}.

(** A value of [any] read as a string, or the empty one. *)
Definition text_at (m : mapping) (key : string) : string := default EmptyString (m !! key ≫= as_string).

Definition outboundsOf (mappings : list mapping) : list ProfileOutbound :=
  (λ m, {| po_Name := text_at m "name"; po_Type := text_at m "type" |}) <$> mappings.

Definition profile_outbounds (raw : RawConfig mapping rest) : list ProfileOutbound * list ProfileOutbound :=
  (outboundsOf (rw_Proxy raw), outboundsOf (rw_ProxyGroup raw)).
End base.

(** ** The overlay over the profile *)

(** [yaml.Unmarshal] into a node: new nodes in the store and the document,
    or the error. *)
Class YamlParser := { yaml_parse : store → string → result string (store * ref) }.

(** [yaml.Encoder.Encode] of a node, as text. It reads the nodes below the
    one it is given. *)
Class YamlEncoder := { yaml_encode : store → yamlNode → result fault string }.

(** [age.DecryptBytes]. *)
Class Decryption := { decrypt : string → result string string }.

Section merge.
Context `{YamlTags} (stack : nat).

Definition documentMapping (h : store) (document : ref) : result fault (store * ref) :=
  d ← deref h document;
  node ← match yn_Content d with
         | first :: _ => if kind_is DocumentNode d then resolveAlias stack h first else Ok document
         | [] => Ok document
         end;
  n ← deref h node;
  if kind_is MappingNode n then Ok (h, node)
  else if kind_is NoKind n || kind_is DocumentNode n || isNull n
       then Ok (alloc h {| zero_node with yn_Kind := MappingNode; yn_Tag := "!!map" |})
  else Err (Failed ("line " +:+ Itoa (yn_Line n) +:+ ": a config must be a mapping")).

Definition rules_not_a_list (profile : yamlNode) : fault :=
  Failed ("line " +:+ Itoa (yn_Line profile) +:+ ": rules must be a list").

(** The rules the host adds before those of the profile; [0] leaves the
    overlay as it is. *)
Definition appendRules (h : store) (added profile : ref) : result fault (store * ref) :=
  if (profile =? 0)%nat then Ok (h, 0%nat)
  else
    added ← resolveAlias stack h added;
    profile ← resolveAlias stack h profile;
    if (added =? 0)%nat then Ok (h, profile)
    else
      a ← deref h added;
      if isNull a || kind_is SequenceNode a && bool_decide (yn_Content a = []) then Ok (h, profile)
      else
        p ← deref h profile;
        if isNull p then Ok (h, added)
        else if negb (kind_is SequenceNode a) || negb (kind_is SequenceNode p) then Err (rules_not_a_list p)
        else Ok (alloc h {| zero_node with yn_Kind := SequenceNode; yn_Tag := "!!seq"; yn_Content := yn_Content a ++ yn_Content p |}).

(** One turn of the loop over the sections. *)
Definition take_section (profile root : ref) (h : store) (key : string) : result fault store :=
  value ← mappingValue stack h profile key;
  if (value =? 0)%nat then Ok h else setMappingValue h root key value.

Fixpoint take_sections (profile root : ref) (h : store) (keys : list string) : result fault store :=
  match keys with
  | [] => Ok h
  | key :: keys => h ← take_section profile root h key; take_sections profile root h keys
  end.

Definition take_rules (profile root : ref) (h : store) : result fault store :=
  added ← mappingValue stack h root "rules";
  own ← mappingValue stack h profile "rules";
  '(h, rules) ← appendRules h added own;
  if (rules =? 0)%nat then Ok h else setMappingValue h root "rules" rules.

(** From the two mappings to the merged document. *)
Definition merge_mappings (retag : bool) (h : store) (profile root : ref) : result fault (store * ref) :=
  h ← take_sections profile root h profileBaseSections;
  h ← take_rules profile root h;
  h ← (if retag then fst <$> retagShortIDs stack h root else Ok h);
  Ok (alloc h {| zero_node with yn_Kind := DocumentNode; yn_Content := [root] |}).

Context `{YamlParser} `{YamlEncoder} `{Decryption}.

(** A fault of the library, as the error the caller sees. *)
Definition library {A} (r : result string A) : result fault A := match r with Ok a => Ok a | Err e => Err (Failed e) end.

(** [mergeProfileBase] of the file's bytes and the overlay. *)
Definition mergeProfileBase (file overlay : string) : result fault (store * ref) :=
  buf ← match decrypt file with Ok buf => Ok buf | Err e => Err (Failed ("decrypt config error: " +:+ e)) end;
  '(h, profileDocument) ← library (yaml_parse ∅ buf);
  '(h, overlayDocument) ← library (yaml_parse h overlay);
  '(h, profile) ← documentMapping h profileDocument;
  '(h, root) ← documentMapping h overlayDocument;
  merge_mappings (Contains buf "short-id") h profile root.

(** ** The document as text *)

Definition encodeSliceLength : nat := 4096.

Definition encodeYamlPiece (h : store) (n : yamlNode) (suffix : option string) : result fault string :=
  text ← yaml_encode h n;
  let piece := TrimSuffix text ("..." +:+ str1 "010") in
  Ok (match suffix with Some suffix => TrimSuffix piece (str1 "010") +:+ suffix | None => piece end).

Definition sequence_of (items : list ref) : yamlNode :=
  {| zero_node with yn_Kind := SequenceNode; yn_Tag := "!!seq"; yn_Content := items |}.

Definition pair_of (key value : ref) : yamlNode :=
  {| zero_node with yn_Kind := MappingNode; yn_Tag := "!!map"; yn_Content := [key; value] |}.

(** [clear(items)] of the [n] items of [value] from [start] on. *)
Definition clear_items (h : store) (value : ref) (start n : nat) : store :=
  alter (λ v, {| v with yn_Content := take start (yn_Content v) ++ replicate n 0%nat ++ drop (start + n) (yn_Content v) |}) value h.

(** The items of a long list from [start] on, in slices. *)
Fixpoint encode_slices (fuel : nat) (h : store) (value : ref) (start : nat) : result fault (store * string) :=
  match fuel with
  | O => Err Endless
  | S fuel =>
      v ← deref h value;
      if (length (yn_Content v) <=? start)%nat then Ok (h, EmptyString)
      else
        let items := take encodeSliceLength (drop start (yn_Content v)) in
        piece ← encodeYamlPiece h (sequence_of items) None;
        '(h, rest) ← encode_slices fuel (clear_items h value start (length items)) value (start + encodeSliceLength);
        Ok (h, piece +:+ rest)
  end.

Definition encode_pair (h : store) (key value : ref) : result fault (store * string) :=
  v ← deref h value;
  if negb (kind_is SequenceNode v) || (length (yn_Content v) <=? encodeSliceLength)%nat
  then piece ← encodeYamlPiece h (pair_of key value) None; Ok (h, piece)
  else
    k ← deref h key;
    head ← encodeYamlPiece h k (Some (":" +:+ str1 "010"));
    '(h, items) ← encode_slices (S (length (yn_Content v))) h value 0;
    Ok (h, head +:+ items).

(** The pairs from the [i]th on. Each value leaves the mapping as it is
    written. *)
Fixpoint encode_pairs (h : store) (mapping : ref) (i : nat) (kvs : list (ref * ref)) : result fault (store * string) :=
  match kvs with
  | [] => Ok (h, EmptyString)
  | (key, value) :: kvs =>
      m ← deref h mapping;
      '(h, piece) ← encode_pair (set_content h mapping (<[S (2 * i) := 0]> (yn_Content m))%nat) key value;
      '(h, rest) ← encode_pairs h mapping (S i) kvs;
      Ok (h, piece +:+ rest)
  end.

Definition encodeConfigMapping (h : store) (mapping : ref) : result fault (store * string) :=
  m ← deref h mapping; encode_pairs h mapping 0 (pairs (yn_Content m)).

(** What [writeDocumentFile] writes of a document. *)
Definition document_text (h : store) (document : ref) : result fault string :=
  h ← inlineAliases stack h document;
  d ← deref h document;
  snd <$> encodeConfigMapping h (nth 0 (yn_Content d) 0%nat).

(** [handleBuildProfile]: the text of the merged config. *)
Definition handleBuildProfile (file overlay : string) : result fault string :=
  '(h, document) ← mergeProfileBase file overlay; document_text h document.
End merge.
