(* ===== verification/InlineFacts.v ===== *)
(** * Aliases written out: what [inlineAliases] does

    It ends on every store a parser can build, also one with cycles through
    aliases; afterwards no node under the root is an alias or has an anchor,
    and the document reads as before. *)

From S2P Require Import Prelude GoText YamlStore.

(** ** What a decoder reads: the tree below a node, aliases followed *)

Definition target (h : store) (r : ref) : ref :=
  match h !! r with Some n => if aliased n then yn_Alias n else r | None => r end.

Inductive ytree := YTree (kind : yamlKind) (style : Z) (tag value : string) (children : list ytree) | Deeper.

(** Down to a depth: a document that contains itself has no other tree. *)
Fixpoint tree (depth : nat) (h : store) (r : ref) : ytree :=
  match depth with
  | O => Deeper
  | S depth =>
      match h !! target h r with
      | Some n => YTree (yn_Kind n) (yn_Style n) (yn_Tag n) (yn_Value n) (tree depth h <$> yn_Content n)
      | None => Deeper
      end
  end.

(** A store as a parser leaves it: pointers lead to nodes, an alias to a node
    with an anchor that is no alias, and no node is among its own contents. *)
Record well_formed (h : store) (rank : ref → nat) : Prop := {
  wf_nil : h !! 0%nat = None;
  wf_content : ∀ r n c, h !! r = Some n → c ∈ yn_Content n → is_Some (h !! c) ∧ (rank c < rank r)%nat;
  wf_alias : ∀ r n, h !! r = Some n → aliased n = true →
    ∃ t, h !! yn_Alias n = Some t ∧ aliased t = false ∧ yn_Anchor t ≠ EmptyString;
}.

(** ** Stores that differ by aliases resolved and anchors removed *)

Section inline.
Context (h0 : store) (rank : ref → nat) (Hwf : well_formed h0 rank).

Definition plain (h : store) (r : ref) : Prop := ∃ n, h !! r = Some n ∧ aliased n = false.

Record changed (n n' : yamlNode) : Prop := {
  ch_kind : yn_Kind n' = yn_Kind n;
  ch_style : yn_Style n' = yn_Style n;
  ch_tag : yn_Tag n' = yn_Tag n;
  ch_value : yn_Value n' = yn_Value n;
  ch_alias : yn_Alias n' = yn_Alias n;
  ch_anchor : yn_Anchor n' = yn_Anchor n ∨ yn_Anchor n' = EmptyString;
  ch_content : Forall2 (λ c c', c' = c ∨ c' = target h0 c) (yn_Content n) (yn_Content n');
}.

Definition steps (h h' : store) : Prop := ∀ r,
  match h !! r, h' !! r with
  | Some n, Some n' => changed n n'
  | None, None => True
  | _, _ => False
  end.

Lemma target_plain r : is_Some (h0 !! r) → plain h0 (target h0 r).
Proof using Hwf.
  intros [n Hn]. unfold target. rewrite Hn. destruct (aliased n) eqn:E; [|by exists n].
  destruct (wf_alias _ _ Hwf r n Hn E) as (t & Ht & Hta & _). by exists t.
Qed.

Lemma plain_target r : plain h0 r → target h0 r = r.
Proof using Type. intros (n & Hn & Ha). unfold target. by rewrite Hn, Ha. Qed.

Lemma target_twice r : target h0 (target h0 r) = target h0 r.
Proof using Hwf.
  destruct (h0 !! r) as [n|] eqn:E; [by apply plain_target, target_plain|]. unfold target. by rewrite E, E.
Qed.

Lemma changed_refl n : changed n n.
Proof using Type. split; auto. by apply Forall_Forall2_diag, Forall_true; left. Qed.

Lemma changed_trans n n1 n2 : changed n n1 → changed n1 n2 → changed n n2.
Proof using Hwf.
  intros [] []. split; try congruence; [naive_solver congruence|].
  apply Forall2_lookup. intros i. pose proof (proj1 (Forall2_lookup _ _ _) ch_content0 i) as Ha.
  pose proof (proj1 (Forall2_lookup _ _ _) ch_content1 i) as Hb. inversion Ha as [a b Hab Ea Eb|Ea Eb]; rewrite <- Eb in Hb; inversion Hb as [b' c Hbc|]; [subst|].
  - constructor. destruct Hab as [-> | ->], Hbc as [-> | ->]; auto. right. apply target_twice.
  - constructor.
Qed.

Lemma steps_refl h : steps h h.
Proof using Type. intros r. destruct (h !! r); [apply changed_refl | done]. Qed.

Lemma steps_trans h h1 h2 : steps h h1 → steps h1 h2 → steps h h2.
Proof using Hwf.
  intros Ha Hb r. specialize (Ha r). specialize (Hb r). destruct (h !! r), (h1 !! r), (h2 !! r); try done. by eapply changed_trans.
Qed.

Lemma steps_lookup h h' r n : steps h h' → h !! r = Some n → ∃ n', h' !! r = Some n' ∧ changed n n'.
Proof using Type. intros Hs Hr. specialize (Hs r). rewrite Hr in Hs. destruct (h' !! r) as [n'|]; [by exists n' | done]. Qed.

Lemma steps_lookup_inv h h' r n' : steps h h' → h' !! r = Some n' → ∃ n, h !! r = Some n ∧ changed n n'.
Proof using Type. intros Hs Hr. specialize (Hs r). rewrite Hr in Hs. destruct (h !! r) as [n|]; [by exists n | done]. Qed.

Lemma steps_none h h' r : steps h h' → h !! r = None → h' !! r = None.
Proof using Type. intros Hs Hr. specialize (Hs r). rewrite Hr in Hs. by destruct (h' !! r). Qed.

Lemma changed_aliased n n' : changed n n' → aliased n' = aliased n.
Proof using Type. intros Hc. unfold aliased, kind_is. by rewrite (ch_kind _ _ Hc), (ch_alias _ _ Hc). Qed.

Lemma steps_target h r : steps h0 h → target h r = target h0 r.
Proof using Type.
  intros Hs. unfold target. specialize (Hs r). destruct (h0 !! r) as [n|], (h !! r) as [n'|]; [|destruct Hs..|done].
  rewrite (changed_aliased n n' Hs). by rewrite (ch_alias _ _ Hs).
Qed.

Lemma steps_plain h r : steps h0 h → plain h r ↔ plain h0 r.
Proof using Type.
  intros Hs. split; intros (n & Hn & Ha).
  - destruct (steps_lookup_inv h0 h r n Hs Hn) as (n0 & Hn0 & Hc). exists n0. by rewrite <- (changed_aliased _ _ Hc).
  - destruct (steps_lookup h0 h r n Hs Hn) as (n' & Hn' & Hc). exists n'. by rewrite (changed_aliased _ _ Hc).
Qed.

(** ** They read the same *)

Lemma tree_target depth r : tree depth h0 (target h0 r) = tree depth h0 r.
Proof using Hwf. destruct depth; [done|]. cbn. by rewrite target_twice. Qed.

Lemma tree_steps depth : ∀ h r, steps h0 h → tree depth h r = tree depth h0 r.
Proof using Hwf.
  induction depth as [|depth IH]; intros h r Hs; [done|]. cbn. rewrite (steps_target h r Hs).
  pose proof (Hs (target h0 r)) as Hc. destruct (h0 !! target h0 r) as [n|], (h !! target h0 r) as [n'|]; try done.
  destruct Hc as [-> -> -> -> _ _ Hc]. f_equal. symmetry. apply list_eq_Forall2, Forall2_fmap. eapply Forall2_impl; [exact Hc|].
  cbn. intros c c' [-> | ->]; rewrite (IH h) by done; [done | by rewrite tree_target].
Qed.

(** ** The walk *)

(** The nodes with an anchor: those the walk remembers. *)
Definition anchored : gset ref := dom (filter (λ p, yn_Anchor p.2 ≠ EmptyString) h0).

Lemma elem_of_anchored r : r ∈ anchored ↔ ∃ n, h0 !! r = Some n ∧ yn_Anchor n ≠ EmptyString.
Proof using Type.
  unfold anchored. rewrite elem_of_dom. split.
  - intros [n (Hn & Ha)%map_lookup_filter_Some]. by exists n.
  - intros (n & Hn & Ha). exists n. by apply map_lookup_filter_Some.
Qed.

(** Where the walk stands: anchors are removed of the nodes it remembers. *)
Record walking (h : store) (visited : gset ref) : Prop := {
  wk_steps : steps h0 h;
  wk_anchor : ∀ r n n', r ∉ visited → h0 !! r = Some n → h !! r = Some n' → yn_Anchor n' = yn_Anchor n;
  wk_visited : visited ⊆ anchored;
  wk_removed : ∀ r n', r ∈ visited → h !! r = Some n' → yn_Anchor n' = EmptyString;
}.

(** The nodes of [done] are finished, but for what is below [path]. *)
Definition finished (h : store) (done path : gset ref) : Prop := ∀ r, r ∈ done →
  ∃ n, h !! r = Some n ∧ aliased n = false ∧ yn_Anchor n = EmptyString ∧ ∀ c, c ∈ yn_Content n → plain h0 c ∧ c ∈ done ∪ path.

Lemma changed_plain_item n n' i c : changed n n' → yn_Content n !! i = Some c → plain h0 c → yn_Content n' !! i = Some c.
Proof using Type.
  intros Hc Hi Hp. destruct (Forall2_lookup_l _ _ _ _ _ (ch_content _ _ Hc) Hi) as (c' & Hi' & [-> | ->]); [done|].
  by rewrite plain_target in Hi'.
Qed.

Lemma finished_steps h h' done path : steps h h' → finished h done path → finished h' done path.
Proof using Type.
  intros Hs Hf r Hr. destruct (Hf r Hr) as (n & Hn & Ha & Han & Hcont). destruct (steps_lookup h h' r n Hs Hn) as (n' & Hn' & Hc).
  exists n'. split_and!; [done | by rewrite (changed_aliased _ _ Hc) | destruct (ch_anchor _ _ Hc); congruence |].
  intros c (i & Hi)%list_elem_of_lookup.
  destruct (Forall2_lookup_r _ _ _ _ _ (ch_content _ _ Hc) Hi) as (c0 & Hi0 & Hor).
  assert (Hin : c0 ∈ yn_Content n) by (apply list_elem_of_lookup; eauto). destruct (Hcont c0 Hin) as [Hp Hd].
  destruct Hor as [-> | ->]; [done|]. by rewrite plain_target.
Qed.

(** The stack a walk needs: a level of nodes for every anchor it has not met. *)
Context (bound : nat) (Hbound : ∀ r n, h0 !! r = Some n → (rank r < bound)%nat).

Definition needs (visited : gset ref) (r : ref) : nat :=
  size (anchored ∖ visited) * (bound + 2) + (if decide (r ∈ anchored) then 0 else rank r + 1) + 1.

Lemma needs_mono visited visited' r : visited ⊆ visited' → (needs visited' r <= needs visited r)%nat.
Proof using Type.
  intros Hv. clear Hwf Hbound. unfold needs. assert (size (anchored ∖ visited') <= size (anchored ∖ visited))%nat by (apply subseteq_size; set_solver). nia.
Qed.

(** A child needs less than its parent. *)
Lemma needs_child visited r n c : h0 !! r = Some n → r ∉ visited → visited ⊆ anchored → c ∈ yn_Content n →
  let visited' := if decide (r ∈ anchored) then {[ r ]} ∪ visited else visited in
  (target h0 c ∈ visited' ∨ needs visited' (target h0 c) < needs visited r)%nat.
Proof using Hwf Hbound.
  intros Hn Hr Hv Hc visited'. destruct (wf_content _ _ Hwf r n c Hn Hc) as [[m Hm] Hrank].
  destruct (decide (target h0 c ∈ visited')) as [|Hnot]; [by left|]. right.
  assert (Hsize : (size (anchored ∖ visited') + (if decide (r ∈ anchored) then 1 else 0) <= size (anchored ∖ visited))%nat).
  { subst visited'. case_decide as Ha; [|lia]. rewrite Nat.add_comm, <- (size_singleton (C := gset ref) r), <- size_union by set_solver. apply subseteq_size. set_solver. }
  unfold needs. pose proof (Hbound r n Hn). destruct (decide (target h0 c ∈ anchored)) as [Ht|Ht].
  - destruct (decide (r ∈ anchored)); [nia|]. nia.
  - assert (target h0 c = c) as ->.
    { apply plain_target. exists m. split; [done|]. apply not_true_iff_false. intros Ha. apply Ht, elem_of_anchored.
      unfold target. rewrite Hm, Ha. destruct (wf_alias _ _ Hwf c m Hm Ha) as (t & Htt & _ & ?). by exists t. }
    destruct (decide (r ∈ anchored)); nia.
Qed.

Lemma resolve_target h r stack : steps h0 h → (2 <= stack)%nat → is_Some (h0 !! r) → resolveAlias stack h r = Ok (target h0 r).
Proof using Hwf.
  intros Hs Hstack [n0 Hn0]. destruct stack as [|[|stack]]; [lia..|].
  assert (Hnz : ∀ q m, h0 !! q = Some m → (q =? 0)%nat = false).
  { intros q m Hq. apply Nat.eqb_neq. intros ->. by rewrite (wf_nil _ _ Hwf) in Hq. }
  destruct (steps_lookup h0 h r n0 Hs Hn0) as (n & Hn & Hc). unfold target. rewrite Hn0. cbn. rewrite (Hnz r n0 Hn0).
  unfold deref. rewrite Hn. cbn. rewrite (changed_aliased _ _ Hc), (ch_alias _ _ Hc). destruct (aliased n0) eqn:Ha; [|done].
  destruct (wf_alias _ _ Hwf r n0 Hn0 Ha) as (t0 & Ht0 & Hta & _). destruct (steps_lookup h0 h _ t0 Hs Ht0) as (t & Ht & Htc).
  cbn. rewrite (Hnz _ t0 Ht0), Ht. cbn. by rewrite (changed_aliased _ _ Htc), Hta.
Qed.

(** A child resolved in place. *)
Lemma set_child_steps h r n i c : h !! r = Some n → yn_Content n !! i = Some c →
  steps h (set_content h r (<[i := target h0 c]> (yn_Content n))).
Proof using Type.
  intros Hr Hi q. unfold set_content. destruct (decide (q = r)) as [->|Hne].
  - rewrite lookup_alter_eq, Hr. cbn. split; cbn; auto. apply Forall2_lookup. intros j. destruct (decide (j = i)) as [->|Hji].
    + rewrite list_lookup_insert_eq by (by eapply lookup_lt_Some). rewrite Hi. constructor. by right.
    + rewrite list_lookup_insert_ne by done. destruct (yn_Content n !! j); constructor; by left.
  - rewrite lookup_alter_ne by done. destruct (h !! q); [apply changed_refl | done].
Qed.

Lemma set_child_walking h visited r content : walking h visited → steps h (set_content h r content) →
  walking (set_content h r content) visited.
Proof using Hwf.
  intros [Hs Ha Hv Hr] Hstep. assert (Hback : ∀ q n', set_content h r content !! q = Some n' →
    ∃ n1, h !! q = Some n1 ∧ yn_Anchor n' = yn_Anchor n1).
  { intros q n' Hq. unfold set_content in Hq. destruct (decide (q = r)) as [->|Hne].
    - rewrite lookup_alter_eq in Hq. destruct (h !! r) as [n1|]; simplify_eq/=. by exists n1.
    - rewrite lookup_alter_ne in Hq by done. by exists n'. }
  split; [by eapply steps_trans | | done |].
  - intros q n n' Hq Hn Hn'. destruct (Hback q n' Hn') as (n1 & Hn1 & ->). by eapply Ha.
  - intros q n' Hq Hn'. destruct (Hback q n' Hn') as (n1 & Hn1 & ->). by eapply Hr.
Qed.

(** What a walk leaves behind. *)
Record walked (h : store) (visited done path : gset ref) (h' : store) (visited' done' : gset ref) : Prop := {
  wd_walking : walking h' visited';
  wd_steps : steps h h';
  wd_visited : visited ⊆ visited';
  wd_done : done ⊆ done';
  wd_finished : finished h' done' path;
  wd_covered : visited' ⊆ done' ∪ path;
}.

Definition visits (visit : store * gset ref → ref → result fault (store * gset ref)) (stack : nat) : Prop :=
  ∀ h visited done path r, walking h visited → finished h done path → visited ⊆ done ∪ path → plain h0 r → (1 <= stack)%nat →
    r ∈ visited ∨ (needs visited r <= stack)%nat →
    ∃ h' visited' done', visit (h, visited) r = Ok (h', visited') ∧ walked h visited done path h' visited' done' ∧ r ∈ done' ∪ path.

(** The first [i] children of a node are resolved and seen to. *)
Definition seen_to (h : store) (r : ref) (i : nat) (within : gset ref) : Prop :=
  ∀ n j c, h !! r = Some n → (j < i)%nat → yn_Content n !! j = Some c → plain h0 c ∧ c ∈ within.

Lemma seen_to_steps h h' r i within within' : steps h h' → within ⊆ within' → seen_to h r i within → seen_to h' r i within'.
Proof using Type.
  intros Hs Hw Hseen n' j c' Hn' Hj Hc'. destruct (steps_lookup_inv h h' r n' Hs Hn') as (n & Hn & Hch).
  destruct (Forall2_lookup_r _ _ _ _ _ (ch_content _ _ Hch) Hc') as (c & Hc & Hor).
  destruct (Hseen n j c Hn Hj Hc) as [Hp Hin]. destruct Hor as [-> | ->]; [|rewrite plain_target by done]; split; auto.
Qed.

Lemma walk_children_spec visit deeper stack r n0 path visited0 :
  visits visit deeper → (1 <= deeper)%nat → (2 <= stack)%nat → h0 !! r = Some n0 →
  (∀ c visited, c ∈ yn_Content n0 → visited0 ⊆ visited → target h0 c ∈ visited ∨ needs visited (target h0 c) <= deeper)%nat →
  ∀ todo i h visited done, (i + todo = length (yn_Content n0))%nat →
  walking h visited → visited0 ⊆ visited → finished h done path → visited ⊆ done ∪ path → seen_to h r i (done ∪ path) →
  ∃ h' visited' done', walk_children visit stack (h, visited) r i todo = Ok (h', visited') ∧
    walked h visited done path h' visited' done' ∧ seen_to h' r (length (yn_Content n0)) (done' ∪ path).
Proof using Hwf Hbound.
  intros Hvisit Hdeeper Hstack Hr Hneeds. induction todo as [|todo IH]; intros i h visited done Hi Hw Hv0 Hf Hcov Hseen.
  { exists h, visited, done. rewrite Nat.add_0_r in Hi. rewrite <- Hi. split_and!; [done | | done].
    split; [done | apply steps_refl | done..]. }
  destruct (steps_lookup h0 h r n0 (wk_steps _ _ Hw) Hr) as (n & Hn & Hch).
  destruct (lookup_lt_is_Some_2 (yn_Content n0) i) as [c0 Hc0]; [lia|].
  destruct (Forall2_lookup_l _ _ _ _ _ (ch_content _ _ Hch) Hc0) as (c & Hc & Hor).
  assert (Hin0 : c0 ∈ yn_Content n0) by (apply list_elem_of_lookup; eauto).
  destruct (wf_content _ _ Hwf r n0 c0 Hr Hin0) as [Hc0s _].
  assert (Htc : target h0 c = target h0 c0) by (destruct Hor as [-> | ->]; [done | apply target_twice]).
  assert (Hcs : is_Some (h0 !! c)) by (destruct Hor as [-> | ->]; [done | destruct (target_plain c0 Hc0s) as (? & ? & _); by eexists]).
  cbn [walk_children fst snd]. unfold deref. rewrite Hn. cbn [mbind result_bind].
  rewrite (nth_lookup_Some _ _ _ _ Hc), (resolve_target h c stack) by (done || apply Hw). cbn [mbind result_bind].
  pose proof (set_child_steps h r n i c Hn Hc) as Hset. set (h1 := set_content _ _ _) in *.
  pose proof (set_child_walking h visited r _ Hw Hset) as Hw1. fold h1 in Hw1.
  assert (Hpt : plain h0 (target h0 c)) by (by apply target_plain).
  destruct (Hvisit h1 visited done path (target h0 c)) as (h2 & visited2 & done2 & E & [] & Hin2); try done.
  { by eapply finished_steps. }
  { rewrite Htc. by apply Hneeds. }
  rewrite E. cbn [mbind result_bind].
  destruct (IH (S i) h2 visited2 done2) as (h3 & visited3 & done3 & E3 & Hwd3 & Hseen3); try done; [lia | set_solver | |].
  { intros n2 j c2 Hn2 Hj Hc2. destruct (decide (j < i)%nat) as [Hlt|].
    - eapply (seen_to_steps h h2 r i (done ∪ path)); [by eapply steps_trans | set_solver | done | done | done | done].
    - assert (j = i) as -> by lia.
      assert (Hi1 : ∃ m1, h1 !! r = Some m1 ∧ yn_Content m1 !! i = Some (target h0 c)).
      { unfold h1, set_content. rewrite lookup_alter_eq, Hn. eexists. split; [done|]. cbn.
        apply list_lookup_insert_eq. by eapply lookup_lt_Some. }
      destruct Hi1 as (m1 & Hm1 & Hmi). destruct (steps_lookup h1 h2 r m1) as (m2 & Hm2 & Hch2); [done..|].
      rewrite Hm2 in Hn2. injection Hn2 as ->. rewrite (changed_plain_item _ _ _ _ Hch2 Hmi Hpt) in Hc2. injection Hc2 as <-. done. }
  exists h3, visited3, done3. split_and!; [done | | done]. destruct Hwd3. split; try done; [|set_solver..].
  eapply steps_trans; [exact Hset|]. by eapply steps_trans.
Qed.

Lemma finished_path h done path path' : path ⊆ path' → finished h done path → finished h done path'.
Proof using Hwf Hbound.
  intros Hp Hf r Hr. destruct (Hf r Hr) as (n & Hn & Ha & Han & Hc). exists n. split_and!; [done..|].
  intros c [Hpl Hin]%Hc. split; [done | set_solver].
Qed.

(** The anchor of a node the walk meets for the first time. *)
Lemma remove_anchor h visited r n : walking h visited → r ∉ visited → h !! r = Some n →
  let s := if empty (yn_Anchor n) then (h, visited) else (alter (λ n, {| n with yn_Anchor := EmptyString |}) r h, {[ r ]} ∪ visited) in
  walking s.1 s.2 ∧ steps h s.1 ∧ s.2 = (if decide (r ∈ anchored) then {[ r ]} ∪ visited else visited).
Proof using Hwf Hbound.
  intros Hw Hr Hn. destruct (steps_lookup_inv h0 h r n (wk_steps _ _ Hw) Hn) as (n0 & Hn0 & Hch).
  pose proof (wk_anchor _ _ Hw r n0 n Hr Hn0 Hn) as Ha. unfold empty. destruct (decide (r ∈ anchored)) as [Hin|Hin].
  - apply elem_of_anchored in Hin as Hin'. destruct Hin' as (n1 & Hn1 & Hne). simplify_eq. rewrite bool_decide_false by congruence. cbn.
    assert (Hs : steps h (alter (λ n, {| n with yn_Anchor := EmptyString |}) r h)).
    { intros q. destruct (decide (q = r)) as [->|Hne'].
      - rewrite lookup_alter_eq, Hn. cbn. split; cbn; auto. by apply Forall_Forall2_diag, Forall_true; left.
      - rewrite lookup_alter_ne by done. destruct (h !! q); [apply changed_refl | done]. }
    split_and!; [|done|done]. destruct Hw as [Hs0 Hk Hv Hrem]. split; [by eapply steps_trans | | set_solver |].
    + intros q m m' Hq Hm Hm'. rewrite lookup_alter_ne in Hm' by set_solver. apply (Hk q m m'); [set_solver | done..].
    + intros q m' Hq Hm'. destruct (decide (q = r)) as [->|Hne'].
      * rewrite lookup_alter_eq, Hn in Hm'. by injection Hm' as <-.
      * rewrite lookup_alter_ne in Hm' by done. apply (Hrem q m'); [set_solver | done].
  - assert (yn_Anchor n = EmptyString) as E.
    { rewrite Ha. destruct (decide (yn_Anchor n0 = EmptyString)); [done|]. destruct Hin. apply elem_of_anchored. by exists n0. }
    rewrite bool_decide_true by done. cbn. split_and!; [done | apply steps_refl | done].
Qed.

Lemma needs_two visited r : r ∉ visited → (2 <= needs visited r)%nat.
Proof using Hwf Hbound.
  intros Hr. unfold needs. case_decide as Ha; [|lia]. assert (0 < size (anchored ∖ visited))%nat; [|nia].
  apply Nat.neq_0_lt_0. intros Hz. apply size_empty_iff in Hz. set_solver.
Qed.

Lemma walk_spec stack : visits (walk stack) stack.
Proof using Hwf Hbound.
  induction stack as [|deeper IH]; intros h visited done path r Hw Hf Hcov (n0 & Hn0 & Ha0) Hone Hneeds; [lia|].
  destruct (steps_lookup h0 h r n0 (wk_steps _ _ Hw) Hn0) as (n & Hn & Hch). cbn [walk fst snd]. case_decide as Hr.
  { exists h, visited, done. split_and!; [done | | set_solver]. split; [done | apply steps_refl | done..]. }
  destruct Hneeds as [?|Hneeds]; [done|]. pose proof (needs_two visited r Hr) as Htwo. unfold deref. rewrite Hn. cbn [mbind result_bind].
  destruct (remove_anchor h visited r n Hw Hr Hn) as (Hw1 & Hs1 & Hv1). set (s := if empty (yn_Anchor n) then _ else _) in *.
  destruct s as [h1 visited1]. cbn [fst snd] in *.
  assert (Hsub : visited ⊆ visited1) by (rewrite Hv1; case_decide; set_solver).
  destruct (walk_children_spec (walk deeper) deeper (S deeper) r n0 ({[ r ]} ∪ path) visited1 IH) with (todo := length (yn_Content n)) (i := 0%nat)
    (h := h1) (visited := visited1) (done := done) as (h2 & visited2 & done2 & E & [] & Hseen); try done; [lia | lia | | | | | |].
  - intros c visited' Hc Hsub'. destruct (needs_child visited r n0 c Hn0 Hr (wk_visited _ _ Hw) Hc) as [Hin|Hlt].
    + left. apply Hsub'. by rewrite Hv1.
    + right. pose proof (needs_mono _ _ (target h0 c) Hsub'). rewrite Hv1 in H. lia.
  - by rewrite <- (Forall2_length _ _ _ (ch_content _ _ Hch)).
  - apply (finished_path h1 done path); [set_solver|]. by apply (finished_steps h).
  - rewrite Hv1. case_decide; set_solver.
  - intros ? ? ? _ ?. lia.
  - rewrite E. exists h2, visited2, ({[ r ]} ∪ done2). split_and!; [done | | set_solver].
    split; [done | by eapply steps_trans | set_solver | set_solver | | set_solver].
    intros q [Hq|Hq]%elem_of_union.
    + apply elem_of_singleton in Hq as ->. destruct (steps_lookup h0 h2 r n0) as (n2 & Hn2 & Hch2); [apply wd_walking0 | done|].
      exists n2. split_and!; [done | by rewrite (changed_aliased _ _ Hch2) | |].
      * destruct (decide (r ∈ anchored)) as [Hin|Hin].
        -- eapply (wk_removed _ _ wd_walking0); [|done]. apply wd_visited0. rewrite Hv1. set_solver.
        -- destruct (ch_anchor _ _ Hch2) as [->|]; [|done]. destruct (decide (yn_Anchor n0 = EmptyString)); [done|].
           destruct Hin. apply elem_of_anchored. by exists n0.
      * intros c (j & Hj)%list_elem_of_lookup. destruct (Hseen n2 j c Hn2) as [Hp Hin]; [|done|split; [done | set_solver]].
        rewrite (Forall2_length _ _ _ (ch_content _ _ Hch2)). by eapply lookup_lt_Some.
    + destruct (wd_finished0 q Hq) as (m & Hm & Ham & Hanm & Hcm). exists m. split_and!; [done..|].
      intros c [Hp Hin]%Hcm. split; [done | set_solver].
Qed.
End inline.

Definition rank_bound (h : store) (rank : ref → nat) : nat := S (list_max (List.map rank (map_to_list h).*1)).

Lemma rank_bound_spec h rank r n : h !! r = Some n → (rank r < rank_bound h rank)%nat.
Proof.
  intros Hr. unfold rank_bound. apply Nat.lt_succ_r. pose proof (proj1 (list_max_le (List.map rank (map_to_list h).*1) _) (le_n _)) as Hall.
  rewrite Forall_forall in Hall. apply Hall. apply list_elem_of_In, in_map, list_elem_of_In, list_elem_of_fmap.
  exists (r, n). split; [done | by apply elem_of_map_to_list].
Qed.

(** C24: writing the aliases of a document out. With enough stack it ends,
    whatever the document is: aliases may lead back to a node they are in.
    What a decoder reads below any node, to any depth, is what it was; and
    nothing that is reached from the root without following an alias is an
    alias or has an anchor. *)
Theorem inline_aliases h rank root : well_formed h rank → plain h root →
  ∃ deep, ∀ stack, (deep <= stack)%nat → ∃ h' (under : gset ref),
    inlineAliases stack h root = Ok h' ∧
    (∀ depth r, tree depth h' r = tree depth h r) ∧
    root ∈ under ∧
    ∀ r, r ∈ under → ∃ n, h' !! r = Some n ∧ aliased n = false ∧ yn_Anchor n = EmptyString ∧ ∀ c, c ∈ yn_Content n → c ∈ under.
Proof.
  intros Hwf Hroot. exists (needs h rank (rank_bound h rank) ∅ root). intros stack Hstack.
  assert (Hone : (1 <= stack)%nat) by (unfold needs in Hstack; lia).
  assert (Hw : walking h h ∅) by (split; [apply steps_refl | intros; congruence | set_solver | set_solver]).
  destruct (walk_spec h rank Hwf (rank_bound h rank) (rank_bound_spec h rank) stack h ∅ ∅ ∅ root)
    as (h' & visited & under & E & [] & Hin); [done | intros r Hr; set_solver | set_solver | done | done | by right |].
  exists h', under. unfold inlineAliases. rewrite E. split_and!; [done | | set_solver |].
  - intros depth r. apply (tree_steps h rank Hwf). apply wd_walking0.
  - intros r Hr. destruct (wd_finished0 r Hr) as (n & Hn & Ha & Han & Hc). exists n. split_and!; [done..|].
    intros c Hcin. apply Hc in Hcin as [_ ?]. set_solver.
Qed.

(** ** A document that contains itself *)

Module Sample.
(** [rcx-profiles: &a [*a]]: the mapping [1], its key, the list [3], and in it
    an alias to the list. *)
Definition self_list : store :=
  {[1%nat := {| zero_node with yn_Kind := MappingNode; yn_Content := [2; 3]%nat |};
    2%nat := {| zero_node with yn_Kind := ScalarNode; yn_Value := "rcx-profiles" |};
    3%nat := {| zero_node with yn_Kind := SequenceNode; yn_Anchor := "a"; yn_Content := [4]%nat |};
    4%nat := {| zero_node with yn_Kind := AliasNode; yn_Value := "a"; yn_Alias := 3%nat |}]}.

Lemma self_list_well_formed : well_formed self_list (λ r, 5 - r)%nat.
Proof.
  split; [done | |]; intros r n.
  - intros c Hr. unfold self_list in Hr. rewrite !lookup_insert_Some, lookup_singleton_Some in Hr.
    intros Hc. assert (c ∈ [2; 3; 4]%nat ∧ (r < c)%nat) as [Hcin Hlt] by (naive_solver set_solver by lia). 
    split; [|lia]. set_unfold. destruct Hcin as [-> | [-> | [-> | []]]]; by eexists.
  - intros Hr Ha. unfold self_list in Hr. rewrite !lookup_insert_Some, lookup_singleton_Some in Hr.
    destruct Hr as [[<- <-]|[_ [[<- <-]|[_ [[<- <-]|[_ [<- <-]]]]]]]; try done. by eexists.
Qed.

Lemma inline_aliases_witness : ∃ stack h', inlineAliases stack self_list 1 = Ok h' ∧ tree 10 h' 1 = tree 10 self_list 1.
Proof.
  assert (Hplain : plain self_list 1) by (eexists; split; reflexivity).
  destruct (inline_aliases self_list _ 1 self_list_well_formed Hplain) as (deep & Hdeep).
  destruct (Hdeep deep (le_n _)) as (h' & under & E & Htree & _). exists deep, h'. split; [exact E | exact (Htree 10%nat 1%nat)].
Defined.

(** The walk ends, and the list is its own item: an encoder that follows the
    contents, as that of the library, never ends. *)
Example self_contained : (λ h', yn_Content <$> h' !! 3%nat) <$> inlineAliases 100 self_list 1 = Ok (Some [3%nat]).
Proof. vm_compute. reflexivity. Qed.
End Sample.
