(* ===== verification/ProfileBaseFacts.v ===== *)
(** * What the merged profile holds *)

From S2P Require Import Prelude GoText YamlStore ProfileBase.

(** ** Parts of a store that no pointer leaves, without cycles *)

Definition edges (n : yamlNode) : list ref := yn_Content n ++ (if aliased n then [yn_Alias n] else []).

(** The nodes of [within] lead to nodes of [within], of lower rank. *)
Definition region (h : store) (within : ref → Prop) (rank : ref → nat) : Prop :=
  ∀ r, within r → r ≠ 0%nat ∧ ∃ n, h !! r = Some n ∧ ∀ c, c ∈ edges n → within c ∧ (rank c < rank r)%nat.

Definition agree_on (within : ref → Prop) (h h' : store) : Prop := ∀ r, within r → h' !! r = h !! r.

Section regions.
Context `{YamlTags} (h : store) (within : ref → Prop) (rank : ref → nat) (Hregion : region h within rank).

Lemma content_within r n c : within r → h !! r = Some n → c ∈ yn_Content n → within c ∧ (rank c < rank r)%nat.
Proof using Hregion.
  intros Hr Hn Hc. destruct (Hregion r Hr) as (_ & n' & Hn' & He). rewrite Hn in Hn'. injection Hn' as <-.
  apply He. unfold edges. apply elem_of_app. by left.
Qed.

Lemma resolve_within stack : ∀ r, within r → (rank r < stack)%nat →
  ∃ t n, resolveAlias stack h r = Ok t ∧ within t ∧ h !! t = Some n ∧ aliased n = false ∧ (rank t <= rank r)%nat.
Proof using Hregion.
  induction stack as [|stack IH]; intros r Hr Hrank; [lia|]. destruct (Hregion r Hr) as (Hnz & n & Hn & He). cbn.
  apply Nat.eqb_neq in Hnz as ->. unfold deref. rewrite Hn. cbn. destruct (aliased n) eqn:Ha; [|by exists r, n].
  destruct (He (yn_Alias n)) as [Hw Hlt]; [unfold edges; rewrite Ha; apply elem_of_app; right; by apply list_elem_of_singleton|].
  destruct (IH (yn_Alias n) Hw) as (t & m & Hres & Ht & Hm & Ham & Hle); [lia|]. exists t, m. split_and!; [done..|lia].
Qed.

(** Whatever the stack, what [resolveAlias] gives stays within. *)
Lemma resolve_stays stack : ∀ r t, within r → resolveAlias stack h r = Ok t → within t ∧ (rank t <= rank r)%nat.
Proof using Hregion.
  induction stack as [|stack IH]; intros r t Hr; [done|]. destruct (Hregion r Hr) as (Hnz & n & Hn & He). cbn.
  apply Nat.eqb_neq in Hnz as ->. unfold deref. rewrite Hn. cbn. destruct (aliased n) eqn:Ha; [|by intros [= <-]].
  destruct (He (yn_Alias n)) as [Hw Hlt]; [unfold edges; rewrite Ha; apply elem_of_app; right; by apply list_elem_of_singleton|].
  intros [Ht Hle]%IH; [split; [done | lia] | done].
Qed.

Lemma scan_keys_within key kvs : ∀ sources, (∀ kv, kv ∈ kvs → within kv.1 ∧ within kv.2) → (∀ s, s ∈ sources → within s) →
  ∃ found sources', scan_keys h key kvs sources = Ok (found, sources') ∧
    (∀ v, found = Some v → v ∈ kvs.*2) ∧ (∀ s, s ∈ sources' → s ∈ sources ∨ s ∈ kvs.*2).
Proof using Hregion.
  induction kvs as [|[name value] kvs IH]; intros sources Hk Hs; cbn [scan_keys].
  { exists None, sources. split_and!; [done | done | auto]. }
  destruct (Hk (name, value)) as [Hname Hvalue]; [by left|]. cbn in Hname, Hvalue. destruct (Hregion name Hname) as (_ & n & Hn & _).
  unfold deref. rewrite Hn. cbn [mbind result_bind]. assert (Hk' : ∀ kv, kv ∈ kvs → within kv.1 ∧ within kv.2) by (intros; apply Hk; by right).
  assert (Hskip : ∃ found sources', scan_keys h key kvs sources = Ok (found, sources') ∧
    (∀ v, found = Some v → v ∈ ((name, value) :: kvs).*2) ∧ (∀ s, s ∈ sources' → s ∈ sources ∨ s ∈ ((name, value) :: kvs).*2)).
  { destruct (IH sources Hk' Hs) as (found & sources' & -> & Hf & Hsrc). exists found, sources'. split_and!; [done | |]; set_solver. }
  destruct (negb (kind_is ScalarNode n)); [done|]. destruct (eqs (ShortTag n) "!!merge").
  - destruct (IH (sources ++ [value]) Hk') as (found & sources' & -> & Hf & Hsrc); [set_solver|].
    exists found, sources'. split_and!; [done | set_solver |]. intros s [Hin|Hin]%Hsrc; set_solver.
  - destruct (eqs (yn_Value n) key); [|done]. exists (Some value), sources. split_and!; [done | |auto]. intros v [= <-]. set_solver.
Qed.

Lemma first_value_total f l (P : ref → Prop) : (∀ r, r ∈ l → ∃ v, f r = Ok v ∧ (v = 0%nat ∨ P v)) →
  ∃ v, first_value f l = Ok v ∧ (v = 0%nat ∨ P v).
Proof using Type.
  induction l as [|r l IH]; intros Hl; cbn; [by exists 0%nat; auto|]. destruct (Hl r) as (v & -> & Hv); [by left|]. cbn.
  destruct (v =? 0)%nat eqn:E; [apply IH; intros; apply Hl; by right | by exists v].
Qed.

Lemma mappingValue_within stack : ∀ m key, within m → (rank m < stack)%nat →
  ∃ v, mappingValue stack h m key = Ok v ∧ (v = 0%nat ∨ within v).
Proof using Hregion.
  induction stack as [|stack IH]; intros m key Hm Hrank; [lia|]. destruct (Hregion m Hm) as (_ & n & Hn & _). cbn [mappingValue].
  unfold deref. rewrite Hn. cbn [mbind result_bind]. pose proof (λ c, content_within m n c Hm Hn) as Hc.
  destruct (scan_keys_within key (pairs (yn_Content n)) []) as (found & sources & -> & Hf & Hsrc);
    [intros [k v] [? ?]%elem_of_pairs; split; by apply Hc | intros s Hs; by apply not_elem_of_nil in Hs|].
  assert (Hval : ∀ v, v ∈ (pairs (yn_Content n)).*2 → within v ∧ (rank v < rank m)%nat).
  { intros v ([k v'] & -> & Hkv)%list_elem_of_fmap. apply Hc. by apply elem_of_pairs in Hkv as [_ ?]. }
  destruct found as [v|]; [exists v; split; [done|]; right; by apply Hval, Hf|]. apply first_value_total. intros s Hs.
  destruct (Hsrc s Hs) as [Hnil|Hin]; [by apply not_elem_of_nil in Hnil|]. destruct (Hval s Hin) as [Hws Hrs].
  destruct (resolve_within (S stack) s Hws) as (t & nt & -> & Hwt & Hnt & _ & Hrt); [lia|]. cbn [mbind result_bind].
  rewrite Hnt. cbn [mbind result_bind]. apply first_value_total. intros c Hcin.
  assert (Hwc : within c ∧ (rank c <= rank t)%nat).
  { unfold merge_candidates in Hcin. destruct (kind_is SequenceNode nt).
    - destruct (content_within t nt c Hwt Hnt Hcin). split; [done | lia].
    - apply list_elem_of_singleton in Hcin as ->. done. }
  destruct Hwc as [Hwc Hrc]. destruct (resolve_within (S stack) c Hwc) as (u & nu & -> & Hwu & Hnu & _ & Hru); [lia|]. cbn [mbind result_bind].
  rewrite Hnu. cbn [mbind result_bind]. destruct (kind_is MappingNode nu); [apply IH; [done | lia] | eexists; auto].
Qed.

(** ** Another store that is the same there *)

Context (h' : store) (Hagree : agree_on within h h').

Lemma resolve_agree stack : ∀ r, within r → resolveAlias stack h' r = resolveAlias stack h r.
Proof using Hregion Hagree.
  induction stack as [|stack IH]; intros r Hr; [done|]. destruct (Hregion r Hr) as (_ & n & Hn & He). cbn.
  unfold deref. rewrite (Hagree r Hr), Hn. destruct (r =? 0)%nat; [done|]. cbn. destruct (aliased n) eqn:Ha; [|done].
  apply IH. apply He. unfold edges. rewrite Ha. apply elem_of_app. right. by apply list_elem_of_singleton.
Qed.

Lemma scan_keys_agree key kvs : ∀ sources, (∀ kv, kv ∈ kvs → within kv.1) → scan_keys h' key kvs sources = scan_keys h key kvs sources.
Proof using Hregion Hagree.
  induction kvs as [|[name value] kvs IH]; intros sources Hk; [done|]. cbn [scan_keys]. unfold deref.
  rewrite (Hagree name) by (by apply (Hk (name, value)); left). destruct (h !! name) as [n|]; [cbn | done].
  rewrite !IH by (intros; apply Hk; by right). done.
Qed.

Lemma first_value_ext f g l : (∀ r, r ∈ l → f r = g r) → first_value f l = first_value g l.
Proof using Type.
  induction l as [|r l IH]; intros Hl; [done|]. cbn. rewrite (Hl r) by (by left). destruct (g r) as [v|]; [cbn | done].
  destruct (v =? 0)%nat; [|done]. apply IH. intros. apply Hl. by right.
Qed.

Lemma mappingValue_agree stack : ∀ m key, within m → mappingValue stack h' m key = mappingValue stack h m key.
Proof using Hregion Hagree.
  induction stack as [|stack IH]; intros m key Hm; [done|]. destruct (Hregion m Hm) as (_ & n & Hn & _). cbn [mappingValue].
  unfold deref. rewrite (Hagree m Hm), Hn. cbn [mbind result_bind]. pose proof (λ c, content_within m n c Hm Hn) as Hc.
  assert (Hpairs : ∀ kv, kv ∈ pairs (yn_Content n) → within kv.1 ∧ within kv.2)
    by (intros [k v] [? ?]%elem_of_pairs; split; by apply Hc).
  rewrite scan_keys_agree by (intros kv Hkv; by apply Hpairs).
  destruct (scan_keys_within key (pairs (yn_Content n)) []) as (found & sources & -> & _ & Hsrc);
    [done | intros s Hs; by apply not_elem_of_nil in Hs|].
  destruct found as [v|]; [done|]. apply first_value_ext. intros s Hs.
  assert (Hws : within s).
  { destruct (Hsrc s Hs) as [Hnil|([k v] & -> & Hin)%list_elem_of_fmap]; [by apply not_elem_of_nil in Hnil | by apply (Hpairs (k, v))]. }
  rewrite resolve_agree by done. destruct (resolveAlias (S stack) h s) as [t|] eqn:Et; [cbn [mbind result_bind] | done].
  destruct (resolve_stays (S stack) s t Hws Et) as [Hwt _]. rewrite (Hagree t Hwt). destruct (Hregion t Hwt) as (_ & nt & Hnt & _).
  rewrite Hnt. cbn [mbind result_bind]. apply first_value_ext. intros c Hcin.
  assert (Hwc : within c).
  { unfold merge_candidates in Hcin. destruct (kind_is SequenceNode nt); [by apply (content_within t nt c) | by apply list_elem_of_singleton in Hcin as ->]. }
  rewrite resolve_agree by done. destruct (resolveAlias (S stack) h c) as [u|] eqn:Eu; [cbn [mbind result_bind] | done].
  destruct (resolve_stays (S stack) c u Hwc Eu) as [Hwu _]. rewrite (Hagree u Hwu). destruct (h !! u) as [nu|]; [cbn | done].
  destruct (kind_is MappingNode nu); [by apply IH | done].
Qed.
End regions.

(** ** The entries of a mapping *)

Definition named (h : store) (key : string) (kv : ref * ref) : bool :=
  match h !! kv.1 with Some n => kind_is ScalarNode n && eqs (yn_Value n) key | None => false end.

(** The value of the first key of its own. *)
Definition own_value (h : store) (key : string) (content : list ref) : option ref := snd <$> List.find (named h key) (pairs content).
Definition entry (h : store) (m : ref) (key : string) : option ref := n ← h !! m; own_value h key (yn_Content n).

(** What [setMappingValue] and the tags leave alone: every node but [m]. *)
Record keeps (m : ref) (h h' : store) : Prop := {
  kp_other : ∀ r, r ≠ m → is_Some (h !! r) → h' !! r = h !! r;
  kp_self : ∀ n, h !! m = Some n → ∃ content, h' !! m = Some {| n with yn_Content := content |};
}.

Lemma keeps_refl m h : keeps m h h.
Proof. split; [done|]. intros n Hn. exists (yn_Content n). by destruct n. Qed.

Lemma keeps_trans m h h1 h2 : keeps m h h1 → keeps m h1 h2 → keeps m h h2.
Proof.
  intros [Ho Hs] [Ho1 Hs1]. split.
  - intros r Hr Hin. rewrite Ho1; rewrite ?Ho by done; done.
  - intros n Hn. destruct (Hs n Hn) as (c1 & Hc1). destruct (Hs1 _ Hc1) as (c2 & Hc2). by exists c2.
Qed.

Lemma keeps_named m h h' key kv : keeps m h h' → is_Some (h !! kv.1) → named h' key kv = named h key kv.
Proof.
  intros [Ho Hs] [n Hn]. unfold named. destruct (decide (kv.1 = m)) as [E|Hne].
  - rewrite E in *. destruct (Hs n Hn) as (c & ->). by rewrite Hn.
  - by rewrite Ho by (done || by exists n).
Qed.

Lemma keeps_own_value m h h' key content : keeps m h h' → (∀ kv, kv ∈ pairs content → is_Some (h !! kv.1)) →
  own_value h' key content = own_value h key content.
Proof.
  intros Hk. unfold own_value. induction (pairs content) as [|kv kvs IH]; intros Hall; [done|]. cbn.
  rewrite (keeps_named m h h' key kv Hk) by (apply Hall; by left). destruct (named h key kv); [done|]. apply IH. intros. apply Hall. by right.
Qed.

Lemma put_value_spec h key value content : (∀ kv, kv ∈ pairs content → is_Some (h !! kv.1)) →
  (put_value h key value content = Ok None ∧ own_value h key content = None) ∨
  ∃ content', put_value h key value content = Ok (Some content') ∧ length content' = length content ∧
    (pairs content').*1 = (pairs content).*1 ∧ (∀ c, c ∈ content' → c ∈ content ∨ c = value) ∧
    ∀ k, own_value h k content' = if decide (k = key) then Some value else own_value h k content.
Proof.
  unfold own_value. induction content as [| |name old rest IH] using pairs_ind; intros Hall; [by left..|]. cbn [put_value pairs] in *.
  destruct (Hall (name, old)) as [n Hn]; [by left|]. cbn in Hn. unfold deref. rewrite Hn. cbn [mbind result_bind].
  assert (Hname : ∀ k v, named h k (name, v) = kind_is ScalarNode n && eqs (yn_Value n) k) by (intros; unfold named; cbn; by rewrite Hn).
  destruct (kind_is ScalarNode n && eqs (yn_Value n) key) eqn:E.
  - right. exists (name :: value :: rest). split_and!; [done..| set_solver |]. intros k. cbn [pairs List.find]. rewrite !Hname.
    apply andb_true_iff in E as [-> E%eqs_true]. rewrite E. cbn. case_decide as Hk.
    + rewrite Hk. unfold eqs. by rewrite bool_decide_true.
    + unfold eqs. by rewrite bool_decide_false by congruence.
  - destruct IH as [[-> Hnone]|(c' & -> & Hlen & Hkeys & Hmem & Hval)]; [intros; apply Hall; by right | left | right]; cbn [mbind result_bind option_map].
    + split; [done|]. cbn. by rewrite Hname, E.
    + exists (name :: old :: c'). split_and!; [done | cbn; lia | cbn; by rewrite Hkeys | set_solver |]. intros k. cbn. rewrite !Hname.
      destruct (kind_is ScalarNode n && eqs (yn_Value n) k) eqn:Ek; [|apply Hval]. case_decide as Hk; [congruence | done].
Qed.

Lemma next_ref_fresh h : h !! next_ref h = None.
Proof.
  destruct (h !! next_ref h) as [n|] eqn:E; [|done]. exfalso.
  pose proof (proj1 (list_max_le (map_to_list h).*1 _) (le_n _)) as Hall. rewrite Forall_forall in Hall.
  assert (Hin : next_ref h ∈ (map_to_list h).*1) by (apply list_elem_of_fmap; exists (next_ref h, n); split; [done | by apply elem_of_map_to_list]).
  apply Hall in Hin. unfold next_ref in Hin. lia.
Qed.

Lemma alloc_keeps m h n : is_Some (h !! m) → keeps m h (alloc h n).1.
Proof.
  intros Hm. assert (Hsame : ∀ r, is_Some (h !! r) → (alloc h n).1 !! r = h !! r).
  { intros r [x Hr]. cbn. apply lookup_insert_ne. intros E. rewrite <- E, next_ref_fresh in Hr. done. }
  split; [by intros; apply Hsame|]. intros x Hx. exists (yn_Content x). rewrite Hsame by done. rewrite Hx. by destruct x.
Qed.

Lemma set_content_keeps m h content : keeps m h (set_content h m content).
Proof.
  split; intros; unfold set_content.
  - by rewrite lookup_alter_ne.
  - exists content. rewrite lookup_alter_eq, H. done.
Qed.

Lemma find_app {A} (p : A → bool) l k : List.find p (l ++ k) = match List.find p l with Some x => Some x | None => List.find p k end.
Proof. induction l as [|x l IH]; cbn; [done|]. by destruct (p x). Qed.

(** ** The overlay's mapping

    Its keys are nodes, each with a value, and none is a merge key: the host
    writes it out plain. What it holds is a region without it. *)

Section overlay.
Context `{YamlTags}.

Record overlay (h : store) (root : ref) (within : ref → Prop) (rank : ref → nat) (bound : nat) : Prop := {
  ov_region : region h within rank;
  ov_bound : ∀ r, within r → (rank r < bound)%nat;
  ov_root : ¬ within root ∧ root ≠ 0%nat;
  ov_mapping : ∃ n, h !! root = Some n ∧ Nat.Even (length (yn_Content n)) ∧
    ∀ c, c ∈ yn_Content n → within c;
  ov_kind : ∀ n, h !! root = Some n → yn_Kind n = MappingNode;
  ov_keys : ∀ n kv k, h !! root = Some n → kv ∈ pairs (yn_Content n) → h !! kv.1 = Some k → eqs (ShortTag k) "!!merge" = false;
}.

(** [ShortTag] of a node tagged as a string. *)
Context (Hshort : ∀ n, yn_Tag n = "!!str"%string → ShortTag n = "!!str"%string).

Lemma overlay_keys_exist h root within rank bound n kv : overlay h root within rank bound → h !! root = Some n →
  kv ∈ pairs (yn_Content n) → is_Some (h !! kv.1).
Proof using Type.
  intros [Hreg _ _ (n' & Hn' & _ & Hc) _ _] Hn Hkv. destruct kv as [k v]. apply elem_of_pairs in Hkv as [Hk _].
  rewrite Hn in Hn'. injection Hn' as <-. destruct (Hreg k (Hc k Hk)) as (_ & x & Hx & _). by exists x.
Qed.

(** A node apart joins what the overlay holds. *)
Lemma region_alloc h root within rank bound n : overlay h root within rank bound → (∀ c, c ∈ edges n → within c) →
  overlay (alloc h n).1 root (λ r, within r ∨ r = next_ref h) (λ r, if decide (r = next_ref h) then bound else rank r) (S bound).
Proof using Type.
  intros Hov Hn. pose proof (next_ref_fresh h) as Hfresh. destruct Hov as [Hreg Hb [Hr Hnz] (m & Hm & Hev & Hc) Hkind Hk].
  assert (Hne : ∀ r, is_Some (h !! r) → r ≠ next_ref h) by (intros r [x Hx] ->; congruence).
  assert (Hin : ∀ r, within r → r ≠ next_ref h) by (intros r Hw; apply Hne; destruct (Hreg r Hw) as (_ & x & ? & _); by exists x).
  assert (Hroot : root ≠ next_ref h) by (apply Hne; by exists m).
  assert (Hlook : ∀ r, r ≠ next_ref h → (alloc h n).1 !! r = h !! r) by (intros r E; cbn; by apply lookup_insert_ne).
  split.
  - intros r [Hw| ->].
    + destruct (Hreg r Hw) as (Hz & x & Hx & He). split; [done|]. exists x. rewrite Hlook by (by apply Hin). split; [done|].
      intros c Hcin. destruct (He c Hcin) as [Hwc Hlt]. split; [by left|]. rewrite !decide_False by (by apply Hin). done.
    + split; [done|]. exists n. split; [cbn; by rewrite lookup_insert_eq|]. intros c Hcin. specialize (Hn c Hcin). split; [by left|].
      rewrite decide_False by (by apply Hin). rewrite decide_True by done. by apply Hb.
  - intros r [Hw| ->]; [rewrite decide_False by (by apply Hin); apply Hb in Hw; lia | rewrite decide_True by done; lia].
  - split; [by intros [?|?] | done].
  - exists m. rewrite Hlook by done. split_and!; [done..|]. intros c Hcin. left. by apply Hc.
  - intros m'. rewrite Hlook by done. apply Hkind.
  - intros m' kv k. rewrite Hlook by done. intros Hm' Hkv. rewrite Hm in Hm'. injection Hm' as <-. rewrite Hlook; [by apply (Hk m)|].
    destruct kv as [k1 v1]. apply elem_of_pairs in Hkv as [Hk1 _]. by apply Hin, Hc.
Qed.

(** The mapping's content replaced by what is within. *)
Lemma overlay_set_content h root within rank bound content : overlay h root within rank bound →
  Nat.Even (length content) → (∀ c, c ∈ content → within c) →
  (∀ kv k, kv ∈ pairs content → h !! kv.1 = Some k → eqs (ShortTag k) "!!merge" = false) →
  overlay (set_content h root content) root within rank bound.
Proof using Type.
  intros [Hreg Hb [Hr Hnz] (m & Hm & _ & _) Hkind _] Hev Hc Hk.
  assert (Hlook : ∀ r, r ≠ root → set_content h root content !! r = h !! r) by (intros; unfold set_content; by rewrite lookup_alter_ne).
  assert (Hroot : set_content h root content !! root = Some {| m with yn_Content := content |}) by (unfold set_content; by rewrite lookup_alter_eq, Hm).
  split; [|done|done| | |].
  - intros r Hw. destruct (Hreg r Hw) as (Hz & x & Hx & He). split; [done|]. exists x. rewrite Hlook by (intros ->; done). done.
  - eexists. split_and!; [exact Hroot | done | done].
  - intros n Hn. rewrite Hroot in Hn. injection Hn as <-. cbn. by apply (Hkind m).
  - intros n kv k Hn Hkv. rewrite Hroot in Hn. injection Hn as <-. destruct kv as [k1 v1]. pose proof (elem_of_pairs _ _ _ Hkv) as [Hk1 _]. cbn in Hk1.
    rewrite Hlook; [by apply (Hk (k1, v1))|]. cbn. intros ->. by apply Hr, Hc.
Qed.

(** [setMappingValue] on it: the key has the value, the others what they had. *)
Lemma setMappingValue_spec h root within rank bound key value : overlay h root within rank bound → within value → ∃ h' within' rank',
  setMappingValue h root key value = Ok h' ∧ overlay h' root within' rank' (S bound) ∧ (∀ r, within r → within' r) ∧ keeps root h h' ∧
  ∀ k, entry h' root k = if decide (k = key) then Some value else entry h root k.
Proof using Hshort.
  intros Hov Hvalue. destruct (ov_mapping _ _ _ _ _ Hov) as (n & Hn & Heven & Hc).
  pose proof (λ kv, overlay_keys_exist h root within rank bound n kv Hov Hn) as Hkeys. unfold setMappingValue, deref. rewrite Hn. cbn [mbind result_bind].
  assert (Hset : ∀ h1 content, keeps root h h1 → (∀ kv, kv ∈ pairs content → is_Some (h1 !! kv.1)) →
    keeps root h (set_content h1 root content) ∧ ∀ k, entry (set_content h1 root content) root k = own_value h1 k content).
  { intros h1 content Hk1 Hex. destruct (kp_self _ _ _ Hk1 n Hn) as (c1 & Hc1). pose proof (set_content_keeps root h1 content) as Hk2.
    split; [by eapply keeps_trans|]. intros k. unfold entry.
    assert (set_content h1 root content !! root = Some {| n with yn_Content := content |}) as -> by (unfold set_content; by rewrite lookup_alter_eq, Hc1).
    cbn.     by apply (keeps_own_value root h1). }
  destruct (put_value_spec h key value (yn_Content n) Hkeys) as [[-> Hnone]|(content & -> & Hlen & Hnames & Hmem & Hval)]; cbn [mbind result_bind].
  - set (node := {| zero_node with yn_Kind := ScalarNode; yn_Tag := "!!str"; yn_Value := key |}).
    destruct (alloc h node) as [h1 name] eqn:Ea. pose proof (alloc_keeps root h node (ex_intro _ n Hn)) as Hk1.
    pose proof (region_alloc h root within rank bound node Hov) as Hov1. rewrite Ea in Hk1, Hov1. cbn [fst] in Hk1, Hov1.
    injection Ea as Eh Ename. rewrite Ename in Hov1. specialize (Hov1 ltac:(intros c [Hx|Hx]%elem_of_app; by apply not_elem_of_nil in Hx)).
    assert (Hname : h1 !! name = Some node) by (rewrite <- Eh, <- Ename; by rewrite lookup_insert_eq).
    destruct (ov_mapping _ _ _ _ _ Hov1) as (n1 & Hn1 & Hev1 & Hc1).
    assert (Hsame : n1 = n).
    { rewrite <- Eh in Hn1. cbn in Hn1. rewrite lookup_insert_ne in Hn1; [congruence|].
      intros E. pose proof (next_ref_fresh h) as Hfresh. rewrite E in Hfresh. congruence. }
    subst n1. destruct (Hset h1 (yn_Content n ++ [name; value]) Hk1) as [Hkeep Hentry].
    { rewrite pairs_snoc by done. intros kv [Hkv|Hkv]%elem_of_app; [by apply (overlay_keys_exist _ _ _ _ _ n kv Hov1)|].
      apply list_elem_of_singleton in Hkv as ->. cbn. by rewrite Hname. }
    exists (set_content h1 root (yn_Content n ++ [name; value])), (λ r, within r ∨ r = name), (λ r, if decide (r = name) then bound else rank r).
    split_and!; [reflexivity | | by left | exact Hkeep |].
    + apply overlay_set_content; [exact Hov1 | | |].
      * rewrite length_app. destruct Heven as [i ->]. exists (S i). cbn. lia.
      * intros c [Hx|Hx]%elem_of_app; [by apply Hc1|]. apply elem_of_cons in Hx as [-> | ->%list_elem_of_singleton]; [by right | by left].
      * rewrite pairs_snoc by done. intros kv k [Hkv|Hkv]%elem_of_app; [by apply (ov_keys _ _ _ _ _ Hov1 n kv k)|].
        apply list_elem_of_singleton in Hkv as ->. cbn. rewrite Hname. intros [= <-]. by rewrite Hshort.
    + intros k. rewrite Hentry. unfold own_value. rewrite pairs_snoc, find_app by done.
      pose proof (keeps_own_value root h h1 k (yn_Content n) Hk1 Hkeys) as Hold. unfold entry. rewrite Hn. cbn [mbind option_bind].
      rewrite <- Hold. rewrite <- (keeps_own_value root h h1 key (yn_Content n) Hk1 Hkeys) in Hnone. unfold own_value in Hnone |- *.
      destruct (List.find (named h1 k) (pairs (yn_Content n))) as [kv|] eqn:E1; cbn.
      * case_decide as Hkk; [|done]. subst k. by rewrite E1 in Hnone.
      * unfold named. cbn. rewrite Hname. cbn. unfold eqs. case_decide as Hkk; [by rewrite bool_decide_true | by rewrite bool_decide_false by congruence].
  - assert (Hback : ∀ kv, kv ∈ pairs content → ∃ kv', kv' ∈ pairs (yn_Content n) ∧ kv.1 = kv'.1).
    { intros kv Hkv. assert (Hin : kv.1 ∈ (pairs (yn_Content n)).*1) by (rewrite <- Hnames; apply list_elem_of_fmap; eauto).
      apply list_elem_of_fmap in Hin as (kv' & E & Hkv'). by exists kv'. }
    destruct (Hset h content (keeps_refl root h)) as [Hkeep Hentry].
    { intros kv (kv' & Hkv' & ->)%Hback. by apply Hkeys. }
    exists (set_content h root content), within, rank. split_and!; [reflexivity | | done | exact Hkeep |].
    + assert (Hov' : overlay (set_content h root content) root within rank bound).
      { apply overlay_set_content; [done | by rewrite Hlen | intros c [Hx| ->]%Hmem; [by apply Hc | done] |].
        intros kv k (kv' & Hkv' & ->)%Hback. by apply (ov_keys _ _ _ _ _ Hov n kv' k). }
      destruct Hov'. split; try done. intros r Hw. apply ov_bound0 in Hw. lia.
    + intros k. rewrite Hentry, Hval. unfold entry. by rewrite Hn.
Qed.
End overlay.

(** ** Tags changed *)

Definition same_but_tag (n n' : yamlNode) : Prop :=
  n' = {| n with yn_Tag := yn_Tag n' |} ∧
  (yn_Tag n' = yn_Tag n ∨ yn_Kind n = ScalarNode ∧ yn_Style n = 0 ∧ (yn_Tag n = "!!int" ∨ yn_Tag n = "!!float")%string ∧ yn_Tag n' = "!!str"%string).

(** Only the tags of numbers written plain, and to a string's. *)
Definition retagged (h h' : store) : Prop := ∀ r,
  match h !! r, h' !! r with
  | Some n, Some n' => same_but_tag n n'
  | None, None => True
  | _, _ => False
  end.

Lemma same_but_tag_refl n : same_but_tag n n.
Proof. split; [by destruct n | by left]. Qed.

Lemma retagged_refl h : retagged h h.
Proof. intros r. destruct (h !! r); [apply same_but_tag_refl | done]. Qed.

Lemma retagged_trans h h1 h2 : retagged h h1 → retagged h1 h2 → retagged h h2.
Proof.
  intros Ha Hb r. specialize (Ha r). specialize (Hb r). destruct (h !! r) as [n|], (h1 !! r) as [n1|], (h2 !! r) as [n2|]; try done.
  destruct Ha as [E1 Ht1], Hb as [E2 Ht2]. split; [rewrite E1 in E2; exact E2|]. rewrite E1 in Ht2. cbn in Ht2.
  destruct Ht1 as [Ht1|(Hk & Hs & Hi & Ht1)], Ht2 as [Ht2|(Hk2 & Hs2 & Hi2 & Ht2)]; rewrite ?Ht1 in *; auto; right; auto.
Qed.

Lemma retagged_lookup h h' r n : retagged h h' → h !! r = Some n → ∃ n', h' !! r = Some n' ∧ same_but_tag n n'.
Proof. intros Hr Hn. specialize (Hr r). rewrite Hn in Hr. destruct (h' !! r) as [n'|]; [by exists n' | done]. Qed.

Lemma retagged_lookup_back h h' r n' : retagged h h' → h' !! r = Some n' → ∃ n, h !! r = Some n ∧ same_but_tag n n'.
Proof. intros Hr Hn. specialize (Hr r). rewrite Hn in Hr. destruct (h !! r) as [n|]; [by exists n | done]. Qed.

(** ** The retagging ends and tags the short ids *)

(** A number written plain, and the text it is kept as. *)
Definition plain_number (n : yamlNode) : Prop :=
  yn_Kind n = ScalarNode ∧ yn_Style n = 0 ∧ (yn_Tag n = "!!int" ∨ yn_Tag n = "!!float")%string.
Definition as_text (n : yamlNode) : yamlNode := {| n with yn_Tag := "!!str" |}.

(** The numbers of [P] are kept as text, and nothing else changes. *)
Definition texts (P : ref → Prop) (h h' : store) : Prop := ∀ r,
  match h !! r, h' !! r with
  | Some n, Some n' => (P r ∧ plain_number n ∧ n' = as_text n) ∨ (¬ (P r ∧ plain_number n) ∧ n' = n)
  | None, None => True
  | _, _ => False
  end.

Lemma texts_retagged P h h' : texts P h h' → retagged h h'.
Proof.
  intros Ht r. specialize (Ht r). destruct (h !! r) as [n|], (h' !! r) as [n'|]; try done.
  destruct Ht as [(_ & (Hk & Hs & Hi) & ->)|[_ ->]]; [|apply same_but_tag_refl]. split; [done | right; by split_and!].
Qed.

Lemma texts_iff P Q h h' : (∀ r n, h !! r = Some n → plain_number n → P r ↔ Q r) → texts P h h' → texts Q h h'.
Proof.
  intros HPQ Ht r. specialize (Ht r). specialize (HPQ r). destruct (h !! r) as [n|], (h' !! r) as [n'|]; try done.
  specialize (HPQ n eq_refl). destruct Ht as [(HP & Hn & ->)|[HP ->]]; [left | right]; (split; [|done]); naive_solver.
Qed.

Lemma texts_none P h : (∀ r n, h !! r = Some n → P r → ¬ plain_number n) → texts P h h.
Proof.
  intros HP r. destruct (h !! r) as [n|] eqn:E; [|done]. right. split; [|done]. intros [? ?]. by eapply HP.
Qed.

Lemma texts_trans P Q h h1 h2 : texts P h h1 → texts Q h1 h2 → texts (λ r, P r ∨ Q r) h h2.
Proof.
  intros H1 H2 r. specialize (H1 r). specialize (H2 r). destruct (h !! r) as [n|], (h1 !! r) as [n1|], (h2 !! r) as [n2|]; try done.
  destruct H1 as [(HP & Hn & ->)|[HP ->]], H2 as [(HQ & Hn1 & ->)|[HQ ->]].
  - destruct Hn1 as (_ & _ & [?|?]); done.
  - left. auto.
  - left. auto.
  - right. split; [|done]. tauto.
Qed.

(** A node, or what the lists in it hold. *)
Inductive listed (h : store) : ref → ref → Prop :=
  | listed_self r : listed h r r
  | listed_item s n c r : h !! s = Some n → yn_Kind n = SequenceNode → c ∈ yn_Content n → listed h c r → listed h s r.

Inductive beneath (h : store) : ref → ref → Prop :=
  | beneath_self r : beneath h r r
  | beneath_child s n c r : h !! s = Some n → c ∈ yn_Content n → beneath h c r → beneath h s r.

(** The values of keys named [short-id], and the items of such lists. *)
Definition is_id (h : store) (m r : ref) : Prop :=
  ∃ n k v name, h !! m = Some n ∧ yn_Kind n = MappingNode ∧ (k, v) ∈ pairs (yn_Content n) ∧
    h !! k = Some name ∧ yn_Value name = "short-id"%string ∧ listed h v r.

Definition short_id (h : store) (root r : ref) : Prop := ∃ m, beneath h root m ∧ is_id h m r.

Lemma listed_inv h s n r : h !! s = Some n → listed h s r ↔ r = s ∨ yn_Kind n = SequenceNode ∧ ∃ c, c ∈ yn_Content n ∧ listed h c r.
Proof.
  intros Hs. split; [|intros [-> |(Hk & c & Hc & Hr)]; [apply listed_self | by apply (listed_item h s n c r Hs Hk Hc Hr)]].
  destruct 1 as [|s n' c r Hn]; [by left|]. right. rewrite Hs in Hn. injection Hn as <-. eauto.
Qed.

Lemma short_id_inv h s n r : h !! s = Some n → short_id h s r ↔ is_id h s r ∨ ∃ c, c ∈ yn_Content n ∧ short_id h c r.
Proof.
  intros Hs. unfold short_id. split.
  - intros (m & Hm & Hid). destruct Hm as [|s n' c m Hn Hc Hm]; [by left|]. right. rewrite Hs in Hn. injection Hn as <-. eauto.
  - intros [Hid|(c & Hc & m & Hm & Hid)]; [exists s; split; [apply beneath_self | done]|]. exists m. split; [by eapply beneath_child | done].
Qed.

Section retag.
Context `{YamlTags} (h0 : store) (within : ref → Prop) (rank : ref → nat) (Hregion : region h0 within rank).

(** [f] keeps the numbers of [P] as text, in what the store has become. *)
Definition retags (f : store → ref → result fault (store * bool)) (P : ref → ref → Prop) (stack : nat) : Prop :=
  ∀ h r, retagged h0 h → within r → (rank r < stack)%nat → ∃ h' c, f h r = Ok (h', c) ∧ texts (P r) h h'.

Lemma each_node_retags f P stack l : retags f P stack → (∀ r, r ∈ l → within r ∧ (rank r < stack)%nat) →
  ∀ h changed, retagged h0 h → ∃ h' c, each_node f h l changed = Ok (h', c) ∧ texts (λ q, ∃ r, r ∈ l ∧ P r q) h h'.
Proof using Type.
  intros Hf. induction l as [|r l IH]; intros Hl h changed Hreg; cbn.
  { exists h, changed. split; [done|]. apply texts_none. intros q n _ (r & []%not_elem_of_nil & _). }
  destruct (Hl r) as [Hr Hrank]; [by left|]. destruct (Hf h r Hreg Hr Hrank) as (h1 & c & -> & Ht1). cbn.
  destruct (IH (λ r' Hin, Hl r' (list_elem_of_further _ _ _ Hin)) h1 (c || changed)) as (h2 & c2 & -> & Ht2);
    [by eapply retagged_trans, texts_retagged|].
  exists h2, c2. split; [done|]. eapply texts_iff; [|by eapply texts_trans]. intros q n _ _. setoid_rewrite elem_of_cons. naive_solver.
Qed.

Lemma retagNumber_retags stack : retags (retagNumber stack) (listed h0) stack.
Proof using Hregion.
  induction stack as [|stack IH]; intros h r Hreg Hr Hrank; [lia|]. destruct (Hregion r Hr) as (_ & n0 & Hn0 & He).
  destruct (retagged_lookup _ _ _ _ Hreg Hn0) as (n & Hn & Hsame). cbn [retagNumber]. unfold deref. rewrite Hn. cbn [mbind result_bind].
  assert (Hkind : yn_Kind n = yn_Kind n0) by (destruct Hsame as [-> _]; done).
  assert (Hcontent : yn_Content n = yn_Content n0) by (destruct Hsame as [-> _]; done).
  assert (Hself : yn_Kind n ≠ SequenceNode → ∀ q, listed h0 r q ↔ q = r).
  { intros Hk q. rewrite (listed_inv h0 r n0 q Hn0), <- Hkind. naive_solver. }
  assert (Hother : yn_Kind n ≠ SequenceNode → yn_Kind n ≠ ScalarNode → texts (listed h0 r) h h).
  { intros Hk Hk'. apply texts_none. intros q m Hm ->%(Hself Hk) (Hks & _). rewrite Hn in Hm. congruence. }
  destruct (yn_Kind n) eqn:Ek; try (by exists h, false; split; [done | by apply Hother]).
  - destruct (each_node_retags _ _ stack (yn_Content n) IH) with (h := h) (changed := false) as (h' & c & -> & Ht); [|done|].
    { intros c Hc. rewrite Hcontent in Hc. destruct (He c) as [Hw Hlt]; [apply elem_of_app; by left|]. split; [done | lia]. }
    exists h', c. split; [done|]. eapply texts_iff; [|exact Ht]. intros q m Hm (Hq & _). rewrite (listed_inv h0 r n0 q Hn0), <- Hkind, <- Hcontent.
    split; [intros ?; right; by split | intros [-> |[_ ?]]; [|done]]. rewrite Hn in Hm. congruence.
  - assert (Hnum : plain_number n ↔ (yn_Style n =? 0) && (eqs (yn_Tag n) "!!int" || eqs (yn_Tag n) "!!float") = true).
    { unfold plain_number. rewrite andb_true_iff, orb_true_iff, Z.eqb_eq, !eqs_true, Ek. naive_solver. }
    destruct ((yn_Style n =? 0) && _) eqn:E.
    + eexists _, true. split; [done|]. intros q. destruct (decide (q = r)) as [->|Hne].
      * rewrite lookup_insert_eq, Hn. left. split; [apply listed_self|]. split; [by apply Hnum|]. unfold as_text. by rewrite Ek.
      * rewrite lookup_insert_ne by done. destruct (h !! q) as [m|]; [|done]. right. split; [|done]. by intros [?%Hself _].
    + exists h, false. split; [done|]. apply texts_none. intros q m Hm ->%Hself; [|done]. rewrite Hn in Hm. injection Hm as <-.
      rewrite Hnum. congruence.
Qed.

Lemma retag_pairs_retags stack kvs : (∀ kv, kv ∈ kvs → within kv.1 ∧ within kv.2 ∧ (rank kv.2 < stack)%nat) →
  ∀ h changed, retagged h0 h → ∃ h' c, retag_pairs stack h kvs changed = Ok (h', c) ∧
    texts (λ q, ∃ k v name, (k, v) ∈ kvs ∧ h0 !! k = Some name ∧ yn_Value name = "short-id"%string ∧ listed h0 v q) h h'.
Proof using Hregion.
  induction kvs as [|[k v] kvs IH]; intros Hk h changed Hreg; cbn.
  { exists h, changed. split; [done|]. apply texts_none. intros q n _ (k & v & name & []%not_elem_of_nil & _). }
  destruct (Hk (k, v)) as (H1 & H2 & H3); [by left|]. cbn in H1, H2, H3. destruct (Hregion k H1) as (_ & name0 & Hname0 & _).
  destruct (retagged_lookup _ _ _ _ Hreg Hname0) as (name & Hname & Hsame). unfold retag_pair, deref. cbn [fst snd]. rewrite Hname. cbn [mbind result_bind].
  assert (Hvalue : yn_Value name = yn_Value name0) by (destruct Hsame as [-> _]; done).
  assert (Hone : ∃ h1 c, (if eqs (yn_Value name) "short-id" then retagNumber stack h v else Ok (h, false)) = Ok (h1, c) ∧
    texts (λ q, yn_Value name0 = "short-id"%string ∧ listed h0 v q) h h1).
  { destruct (eqs (yn_Value name) "short-id") eqn:E.
    - apply eqs_true in E. rewrite Hvalue in E. destruct (retagNumber_retags stack h v Hreg H2 H3) as (h1 & c & -> & Ht).
      exists h1, c. split; [done|]. eapply texts_iff; [|exact Ht]. naive_solver.
    - apply eqs_false in E. rewrite Hvalue in E. exists h, false. split; [done|]. apply texts_none. by intros ? ? _ [? _]. }
  destruct Hone as (h1 & c & -> & Ht1). cbn [mbind result_bind].
  destruct (IH (λ kv' Hin, Hk kv' (list_elem_of_further _ _ _ Hin)) h1 (c || changed)) as (h2 & c2 & -> & Ht2);
    [by eapply retagged_trans, texts_retagged|].
  exists h2, c2. split; [done|]. eapply texts_iff; [|by eapply texts_trans]. intros q n _ _. setoid_rewrite elem_of_cons. naive_solver.
Qed.

Lemma retagShortIDs_retags stack : retags (retagShortIDs stack) (short_id h0) stack.
Proof using Hregion.
  induction stack as [|stack IH]; intros h r Hreg Hr Hrank; [lia|]. destruct (Hregion r Hr) as (_ & n0 & Hn0 & He).
  destruct (retagged_lookup _ _ _ _ Hreg Hn0) as (n & Hn & Hsame). cbn [retagShortIDs]. unfold deref. rewrite Hn. cbn [mbind result_bind].
  assert (Hkind : yn_Kind n = yn_Kind n0) by (destruct Hsame as [-> _]; done).
  assert (Hcontent : yn_Content n = yn_Content n0) by (destruct Hsame as [-> _]; done). rewrite Hcontent.
  assert (Hc : ∀ c, c ∈ yn_Content n0 → within c ∧ (rank c < rank r)%nat) by (intros c Hc; apply He, elem_of_app; by left).
  assert (Hone : ∃ h1 c, (if kind_is MappingNode n then retag_pairs (S stack) h (pairs (yn_Content n0)) false else Ok (h, false)) = Ok (h1, c) ∧
    texts (is_id h0 r) h h1).
  { unfold kind_is. rewrite Hkind. case_bool_decide as Ek.
    - destruct (retag_pairs_retags (S stack) (pairs (yn_Content n0))) with (h := h) (changed := false) as (h1 & c & -> & Ht); [|done|].
      { intros [k v] [Hk Hv]%elem_of_pairs. cbn. destruct (Hc k Hk), (Hc v Hv). split_and!; [done | done | lia]. }
      exists h1, c. split; [done|]. eapply texts_iff; [|exact Ht]. intros q m _ _. unfold is_id. split.
      + intros (k & v & name & ? & ? & ? & ?). by exists n0, k, v, name.
      + intros (n' & k & v & name & Hn' & _ & ? & ? & ? & ?). rewrite Hn0 in Hn'. injection Hn' as <-. by exists k, v, name.
    - exists h, false. split; [done|]. apply texts_none. intros q m _ (n' & ? & ? & ? & Hn' & Hk & _). rewrite Hn0 in Hn'. congruence. }
  destruct Hone as (h1 & c & -> & Ht1). cbn [mbind result_bind].
  destruct (each_node_retags (retagShortIDs stack) _ stack (yn_Content n0) IH) with (h := h1) (changed := c) as (h2 & c2 & -> & Ht2);
    [intros q Hq; destruct (Hc q Hq); split; [done | lia] | by eapply retagged_trans, texts_retagged |].
  exists h2, c2. split; [done|]. eapply texts_iff; [|by eapply texts_trans]. intros q m _ _. by rewrite (short_id_inv h0 r n0 q Hn0).
Qed.
End retag.

(** *** The same nodes in another store *)

(** Every node of [h] is in [h'], but for its tag. *)
Definition kept_but_tags (h h' : store) : Prop := ∀ r n, h !! r = Some n → ∃ n', h' !! r = Some n' ∧ same_but_tag n n'.

Section same_ids.
Context (h h' : store) (within : ref → Prop) (rank : ref → nat) (Hregion : region h within rank) (Hkept : kept_but_tags h h').

(** A node within, as both stores have it. *)
Lemma both_within r : within r → ∃ n n', h !! r = Some n ∧ h' !! r = Some n' ∧ yn_Kind n' = yn_Kind n ∧ yn_Content n' = yn_Content n ∧
  yn_Value n' = yn_Value n ∧ ∀ c, c ∈ yn_Content n → within c.
Proof using Hregion Hkept.
  intros Hr. destruct (Hregion r Hr) as (_ & n & Hn & He). destruct (Hkept r n Hn) as (n' & Hn' & [E _]). exists n, n'.
  split_and!; [done | done | by rewrite E.. | intros c Hc; apply He, elem_of_app; by left].
Qed.

Lemma listed_same s r : within s → listed h s r ↔ listed h' s r.
Proof using Hregion Hkept.
  intros Hs. split; intros Hl; revert Hs; induction Hl as [|s n c r Hn Hk Hc Hl IH]; intros Hs; try constructor;
    destruct (both_within s Hs) as (m & m' & Hm & Hm' & Ek & Ec & _ & Hw).
  - assert (m = n) as -> by congruence. eapply listed_item; [done | congruence | by rewrite Ec | auto].
  - assert (m' = n) as -> by congruence. rewrite Ec in Hc. eapply listed_item; [done | congruence | done | auto].
Qed.

Lemma beneath_same s r : within s → (beneath h s r ↔ beneath h' s r) ∧ (beneath h s r → within r).
Proof using Hregion Hkept.
  intros Hs. split; [split|]; intros Hl; revert Hs; induction Hl as [|s n c r Hn Hc Hl IH]; intros Hs; try constructor; try done;
    destruct (both_within s Hs) as (m & m' & Hm & Hm' & _ & Ec & _ & Hw).
  - assert (m = n) as -> by congruence. eapply beneath_child; [done | by rewrite Ec | auto].
  - assert (m' = n) as -> by congruence. rewrite Ec in Hc. eapply beneath_child; [done | done | auto].
  - assert (m = n) as -> by congruence. auto.
Qed.

Lemma short_id_same root r : within root → short_id h root r ↔ short_id h' root r.
Proof using Hregion Hkept.
  intros Hroot. unfold short_id. assert (Hid : ∀ m, within m → is_id h m r ↔ is_id h' m r).
  { intros m Hm. destruct (both_within m Hm) as (n & n' & Hn & Hn' & Ek & Ec & _ & Hw). unfold is_id. split.
    - intros (x & k & v & name & Hx & Hkind & Hkv & Hname & Hv & Hl). rewrite Hn in Hx. injection Hx as <-.
      destruct (elem_of_pairs _ _ _ Hkv) as [Hk Hv']. destruct (both_within k (Hw k Hk)) as (y & y' & Hy & Hy' & _ & _ & Ev & _).
      exists n', k, v, y'. rewrite Hname in Hy. injection Hy as <-. split_and!; [done | congruence | by rewrite Ec | done | congruence | by apply listed_same; auto].
    - intros (x & k & v & name & Hx & Hkind & Hkv & Hname & Hv & Hl). rewrite Hn' in Hx. injection Hx as <-. rewrite Ec in Hkv.
      destruct (elem_of_pairs _ _ _ Hkv) as [Hk Hv']. destruct (both_within k (Hw k Hk)) as (y & y' & Hy & Hy' & _ & _ & Ev & _).
      exists n, k, v, y. rewrite Hname in Hy'. injection Hy' as <-. split_and!; [done | congruence | done | done | congruence | by apply listed_same; auto]. }
  split; intros (m & Hm & Hi); exists m.
  - split; [by apply (beneath_same root m Hroot)|]. apply Hid; [|done]. by apply (beneath_same root m Hroot).
  - apply (beneath_same root m Hroot) in Hm. split; [done|]. apply Hid; [|done]. by apply (beneath_same root m Hroot).
Qed.
End same_ids.

(** ** The merge *)

Section merge.
Context `{YamlTags} (Hshort : ∀ n, yn_Tag n = "!!str"%string → ShortTag n = "!!str"%string).
Context (stack : nat).

Definition found (v : ref) : option ref := if (v =? 0)%nat then None else Some v.

(** What the profile gives a key, its merge keys included. *)
Definition profile_value (h : store) (profile : ref) (key : string) : option ref :=
  match mappingValue stack h profile key with Ok v => found v | Err _ => None end.

Lemma overlay_bound h root within rank bound bound' : overlay h root within rank bound → (bound <= bound')%nat →
  overlay h root within rank bound'.
Proof using Type. intros [? Hb ? ? ? ?] Hle. split; try done. intros r Hw. apply Hb in Hw. lia. Qed.

Lemma overlay_agree h h' root within rank bound : overlay h root within rank bound → keeps root h h' → agree_on within h h'.
Proof using Type.
  intros Hov Hk r Hr. destruct (ov_region _ _ _ _ _ Hov r Hr) as (_ & n & Hn & _). apply (kp_other _ _ _ Hk); [|by exists n].
  intros ->. exact (proj1 (ov_root _ _ _ _ _ Hov) Hr).
Qed.

Lemma take_sections_spec h root within rank bound profile keys :
  overlay h root within rank bound → within profile → (rank profile < stack)%nat →
  ∀ h1 within1 rank1 bound1, overlay h1 root within1 rank1 bound1 → (∀ r, within r → within1 r) → keeps root h h1 →
  ∃ h' within' rank', take_sections stack profile root h1 keys = Ok h' ∧ overlay h' root within' rank' (bound1 + length keys) ∧
    (∀ r, within1 r → within' r) ∧ keeps root h h' ∧
    ∀ k, entry h' root k = if decide (k ∈ keys) then match profile_value h profile k with Some v => Some v | None => entry h1 root k end
                           else entry h1 root k.
Proof using Hshort.
  intros Hov Hp Hrank. induction keys as [|key keys IH]; intros h1 within1 rank1 bound1 Hov1 Hsub Hk1; cbn [take_sections].
  { exists h1, within1, rank1. rewrite Nat.add_0_r. split_and!; try done. }
  unfold take_section. rewrite (mappingValue_agree h within rank (ov_region _ _ _ _ _ Hov) h1 (overlay_agree _ _ _ _ _ _ Hov Hk1)) by done.
  destruct (mappingValue_within h within rank (ov_region _ _ _ _ _ Hov) stack profile key Hp Hrank) as (v & Hv & Hwv). rewrite Hv. cbn [mbind result_bind].
  assert (Hval : profile_value h profile key = found v) by (unfold profile_value; by rewrite Hv). unfold found in Hval.
  assert (Hone : ∃ h2 within2 rank2, (if (v =? 0)%nat then Ok h1 else setMappingValue h1 root key v) = Ok h2 ∧ overlay h2 root within2 rank2 (S bound1) ∧
    (∀ r, within1 r → within2 r) ∧ keeps root h1 h2 ∧
    ∀ k, entry h2 root k = if decide (k = key) then match profile_value h profile k with Some v => Some v | None => entry h1 root k end else entry h1 root k).
  { destruct (v =? 0)%nat eqn:Ez.
    - exists h1, within1, rank1. split_and!; [done | by apply (overlay_bound h1 root within1 rank1 bound1 (S bound1) Hov1); lia | done | apply keeps_refl |].
      intros k. case_decide as Hkk; [|done]. by rewrite Hkk, Hval.
    - destruct Hwv as [->|Hwv]; [done|]. destruct (setMappingValue_spec Hshort h1 root within1 rank1 bound1 key v Hov1 (Hsub v Hwv))
        as (h2 & within2 & rank2 & -> & Hov2 & Hsub2 & Hk2 & He). exists h2, within2, rank2. split_and!; try done.
      intros k. rewrite He. case_decide as Hkk; [|done]. by rewrite Hkk, Hval. }
  destruct Hone as (h2 & within2 & rank2 & -> & Hov2 & Hsub2 & Hk2 & He2). cbn [mbind result_bind].
  destruct (IH h2 within2 rank2 (S bound1) Hov2) as (h3 & within3 & rank3 & -> & Hov3 & Hsub3 & Hk3 & He3); [auto | by eapply keeps_trans|].
  exists h3, within3, rank3. split_and!; [done | | auto | done |].
  - cbn. by rewrite Nat.add_succ_r.
  - intros k. rewrite He3, He2. clear. rewrite (decide_ext (k ∈ key :: keys) (k = key ∨ k ∈ keys)) by apply elem_of_cons.
    destruct (decide (k ∈ keys)) as [Hin|Hin], (decide (k = key)) as [Hkk|Hkk];
      rewrite ?(decide_True (P := k = key ∨ k ∈ keys)) by auto; rewrite ?(decide_False (P := k = key ∨ k ∈ keys)) by (by intros [?|?]);
      by destruct (profile_value h profile k).
Qed.

(** No merge key: the mapping's own. *)
Lemma own_mapping_value depth h root within rank bound key : overlay h root within rank bound →
  mappingValue (S depth) h root key = Ok (default 0%nat (entry h root key)).
Proof using Type.
  intros Hov. destruct (ov_mapping _ _ _ _ _ Hov) as (n & Hn & _ & _). cbn [mappingValue]. unfold deref. rewrite Hn. cbn [mbind result_bind].
  unfold entry. rewrite Hn. cbn [mbind option_bind]. unfold own_value. pose proof (λ kv k, ov_keys _ _ _ _ _ Hov n kv k Hn) as Hk.
  pose proof (λ kv, overlay_keys_exist h root within rank bound n kv Hov Hn) as Hex.
  assert (Hscan : scan_keys h key (pairs (yn_Content n)) [] = Ok (snd <$> List.find (named h key) (pairs (yn_Content n)), [])).
  { induction (pairs (yn_Content n)) as [|[name value] kvs IH]; [done|]. cbn [scan_keys]. destruct (Hex (name, value)) as [k Hk0]; [by left|].
    cbn in Hk0. unfold deref. rewrite Hk0. cbn [mbind result_bind]. rewrite (Hk (name, value) k) by (done || by left).
    cbn [List.find]. unfold named at 1. cbn [fst]. rewrite Hk0.
    assert (IH' : scan_keys h key kvs [] = Ok (snd <$> List.find (named h key) kvs, []))
      by (apply IH; [intros kv k' Hin; apply Hk; by right | intros kv Hin; apply Hex; by right]).
    destruct (kind_is ScalarNode k); cbn; [|done]. destruct (eqs (yn_Value k) key); done. }
  rewrite Hscan. cbn [mbind result_bind]. destruct (snd <$> List.find _ _); done.
Qed.

(** The node a pointer leads to, aliases followed. *)
Definition node_at (h : store) (o : option ref) : option (ref * yamlNode) :=
  r ← o; match resolveAlias stack h r with Ok t => n ← h !! t; Some (t, n) | Err _ => None end.

Definition is_list (n : yamlNode) : bool := kind_is SequenceNode n.
Definition no_rules (n : yamlNode) : bool := isNull n || is_list n && bool_decide (yn_Content n = []).

(** What becomes of the rules: those of the overlay in front of the
    profile's. *)
Definition rules_merged (h h' : store) (root : ref) (rules added : option (ref * yamlNode)) : Prop :=
  match rules, added with
  | None, _ => entry h' root "rules" = entry h root "rules"
  | Some (rp, _), None => entry h' root "rules" = Some rp
  | Some (rp, np), Some (ra, na) =>
      if no_rules na then entry h' root "rules" = Some rp
      else if isNull np then entry h' root "rules" = Some ra
      else is_list na = true ∧ is_list np = true ∧
           ∃ r n, entry h' root "rules" = Some r ∧ h' !! r = Some n ∧ is_list n = true ∧ yn_Content n = yn_Content na ++ yn_Content np
  end.

Definition rules_rejected (rules added : option (ref * yamlNode)) (e : fault) : Prop :=
  ∃ rp np ra na, rules = Some (rp, np) ∧ added = Some (ra, na) ∧ no_rules na = false ∧ isNull np = false ∧
    is_list na && is_list np = false ∧ e = rules_not_a_list np.

Lemma node_at_within h h' within rank v : region h within rank → agree_on within h h' → within v → (rank v < stack)%nat →
  ∃ t n, resolveAlias stack h' v = Ok t ∧ h' !! t = Some n ∧ within t ∧ node_at h (Some v) = Some (t, n).
Proof using Type.
  intros Hreg Hag Hv Hrank. destruct (resolve_within h within rank Hreg stack v Hv Hrank) as (t & n & Ht & Hwt & Hn & _).
  exists t, n. rewrite (resolve_agree h within rank Hreg h' Hag) by done. rewrite (Hag t Hwt). split_and!; [done..|].
  unfold node_at. cbn. by rewrite Ht, Hn.
Qed.

Lemma entry_within h root within rank bound key v : overlay h root within rank bound → entry h root key = Some v → within v.
Proof using Type.
  intros Hov. destruct (ov_mapping _ _ _ _ _ Hov) as (n & Hn & _ & Hc). unfold entry, own_value. rewrite Hn. cbn.
  destruct (List.find _ _) as [[k x]|] eqn:E; cbn; intros [= <-]. apply find_elem in E as [[_ Hx]%elem_of_pairs _]. by apply Hc.
Qed.

Lemma take_rules_spec h root within rank bound profile h1 within1 rank1 bound1 :
  overlay h root within rank bound → (bound <= stack)%nat → within profile →
  overlay h1 root within1 rank1 bound1 → (∀ r, within r → within1 r) → keeps root h h1 → entry h1 root "rules" = entry h root "rules" →
  let rules := node_at h (profile_value h profile "rules") in
  let added := node_at h (entry h root "rules") in
  match take_rules stack profile root h1 with
  | Ok h2 => ∃ within2 rank2, overlay h2 root within2 rank2 (bound1 + 2) ∧ (∀ r, within1 r → within2 r) ∧ keeps root h1 h2 ∧
      (∀ k, k ≠ "rules"%string → entry h2 root k = entry h1 root k) ∧ rules_merged h h2 root rules added
  | Err e => rules_rejected rules added e
  end.
Proof using Hshort.
  intros Hov Hstack Hp Hov1 Hsub Hk Hsame rules added. pose proof (ov_region _ _ _ _ _ Hov) as Hreg.
  pose proof (overlay_agree _ _ _ _ _ _ Hov Hk) as Hag. assert (Hrank : ∀ r, within r → (rank r < stack)%nat) by (intros r Hr; pose proof (ov_bound _ _ _ _ _ Hov r Hr); lia).
  assert (Hset : ∀ v h2 within2 rank2 bound2, within2 v → overlay h2 root within2 rank2 bound2 → (∀ r, within1 r → within2 r) → keeps root h1 h2 →
    (∀ k, entry h2 root k = entry h1 root k) → ∃ h3 within3 rank3, setMappingValue h2 root "rules" v = Ok h3 ∧
      overlay h3 root within3 rank3 (S bound2) ∧ (∀ r, within1 r → within3 r) ∧ keeps root h1 h3 ∧ keeps root h2 h3 ∧
      (∀ k, k ≠ "rules"%string → entry h3 root k = entry h1 root k) ∧ entry h3 root "rules" = Some v).
  { intros v h2 within2 rank2 bound2 Hv Hov2 Hsub2 Hk2 He2.
    destruct (setMappingValue_spec Hshort h2 root within2 rank2 bound2 "rules" v Hov2 Hv) as (h3 & within3 & rank3 & Hs & Hov3 & Hsub3 & Hk3 & He3).
    exists h3, within3, rank3. split_and!; [done | done | auto | by eapply keeps_trans | done | |].
    - intros k Hne. by rewrite He3, decide_False, He2.
    - by rewrite He3, decide_True. }
  assert (Hdepth : ∃ depth, stack = S depth) by (exists (pred stack); pose proof (Hrank profile Hp); lia). destruct Hdepth as [depth Hdepth].
  assert (Hadded : mappingValue stack h1 root "rules" = Ok (default 0%nat (entry h root "rules")))
    by (rewrite Hdepth; rewrite (own_mapping_value depth h1 root within1 rank1 bound1) by done; by rewrite Hsame).
  unfold take_rules. rewrite Hadded, (mappingValue_agree h within rank Hreg h1 Hag) by done. cbn [mbind result_bind].
  destruct (mappingValue_within h within rank Hreg stack profile "rules" Hp (Hrank _ Hp)) as (v & Hv & Hwv). rewrite Hv. cbn [mbind result_bind].
  subst rules. unfold profile_value. rewrite Hv. unfold found, appendRules. destruct (v =? 0)%nat eqn:Ez.
  { cbn. exists within1, rank1. split_and!; [apply (overlay_bound _ _ _ _ _ _ Hov1); lia | done | apply keeps_refl | done | done]. }
  destruct Hwv as [->|Hwv]; [done|].
  destruct (node_at_within h h1 within rank v Hreg Hag Hwv (Hrank v Hwv)) as (tp & np & Hres & Hnp & Hwtp & ->).
  assert (Hnz : ∀ r, within r → (r =? 0)%nat = false) by (intros r Hr; apply Nat.eqb_neq; by destruct (Hreg r Hr)).
  destruct (Hset tp h1 within1 rank1 bound1 (Hsub tp Hwtp) Hov1 (λ _ H, H) (keeps_refl root h1) (λ _, eq_refl))
    as (h3 & within3 & rank3 & Hs3 & Hov3 & Hsub3 & Hk3 & _ & Ho3 & He3).
  assert (Htake : ∃ within2 rank2, overlay h3 root within2 rank2 (bound1 + 2) ∧ (∀ r, within1 r → within2 r) ∧ keeps root h1 h3 ∧
    (∀ k, k ≠ "rules"%string → entry h3 root k = entry h1 root k)).
  { exists within3, rank3. split_and!; try done. apply (overlay_bound _ _ _ _ _ _ Hov3). lia. }
  subst added. destruct (entry h root "rules") as [a|] eqn:Ea; cbn [default].
  2: { assert (Hzero : resolveAlias stack h1 0 = Ok 0%nat) by (rewrite Hdepth; reflexivity). rewrite Hzero. cbn [mbind result_bind]. rewrite Hres. cbn [mbind result_bind Nat.eqb].
    rewrite (Hnz tp Hwtp), Hs3. destruct Htake as (w & k & ? & ? & ? & ?). by exists w, k. }
  pose proof (entry_within h root within rank bound "rules" a Hov Ea) as Hwa.
  destruct (node_at_within h h1 within rank a Hreg Hag Hwa (Hrank a Hwa)) as (ta & na & Hresa & Hna & Hwta & ->).
  unfold id. rewrite Hresa, Hres. cbn [mbind result_bind]. rewrite (Hnz ta Hwta). unfold deref. rewrite Hna, Hnp. cbn [mbind result_bind].
  change (isNull na || kind_is SequenceNode na && bool_decide (yn_Content na = [])) with (no_rules na).
  destruct (no_rules na) eqn:Eno.
  { cbn [mbind result_bind]. rewrite (Hnz tp Hwtp), Hs3. destruct Htake as (w & k & ? & ? & ? & ?). exists w, k. unfold rules_merged. by rewrite Eno. }
  destruct (isNull np) eqn:Enull.
  { cbn [mbind result_bind]. rewrite (Hnz ta Hwta).
    destruct (Hset ta h1 within1 rank1 bound1 (Hsub ta Hwta) Hov1 (λ _ H, H) (keeps_refl root h1) (λ _, eq_refl))
      as (h4 & within4 & rank4 & Hs4 & Hov4 & Hsub4 & Hk4 & _ & Ho4 & He4).
    rewrite Hs4. exists within4, rank4. unfold rules_merged. rewrite Eno, Enull. split_and!; try done. apply (overlay_bound _ _ _ _ _ _ Hov4). lia. }
  destruct (negb (kind_is SequenceNode na) || negb (kind_is SequenceNode np)) eqn:Elist.
  { cbn. exists tp, np, ta, na. split_and!; try done. unfold is_list. by destruct (kind_is SequenceNode na), (kind_is SequenceNode np). }
  apply orb_false_iff in Elist as [Hla%negb_false_iff Hlp%negb_false_iff].
  set (node := {| zero_node with yn_Kind := SequenceNode; yn_Tag := "!!seq"; yn_Content := yn_Content na ++ yn_Content np |}).
  assert (Hin1 : ∀ c, c ∈ edges node → within1 c).
  { pose proof (ov_region _ _ _ _ _ Hov1) as Hreg1. unfold edges. cbn. rewrite app_nil_r. intros c [Hc|Hc]%elem_of_app.
    - exact (proj1 (content_within h1 within1 rank1 Hreg1 ta na c (Hsub ta Hwta) Hna Hc)).
    - exact (proj1 (content_within h1 within1 rank1 Hreg1 tp np c (Hsub tp Hwtp) Hnp Hc)). }
  pose proof (region_alloc h1 root within1 rank1 bound1 node Hov1 Hin1) as Hov2.
  destruct (ov_mapping _ _ _ _ _ Hov1) as (n & Hn & _ & _). pose proof (alloc_keeps root h1 node (ex_intro _ n Hn)) as Hk2.
  assert (Hfresh : root ≠ next_ref h1) by (intros E; pose proof (next_ref_fresh h1); congruence).
  destruct (Hset (next_ref h1) _ _ _ _ (or_intror eq_refl) Hov2 (λ _ H, or_introl H) Hk2)
    as (h4 & within4 & rank4 & Hs4 & Hov4 & Hsub4 & Hk4 & Hk24 & Ho4 & He4).
  { intros k. unfold entry. cbn [alloc fst] in Hk2 |- *. rewrite lookup_insert_ne by done. rewrite Hn. cbn.
    apply (keeps_own_value root h1 _ k (yn_Content n) Hk2). intros kv. by apply (overlay_keys_exist _ _ _ _ _ n kv Hov1). }
  cbn [mbind result_bind alloc]. cbn [alloc fst] in Hs4. rewrite Hs4. cbn [Nat.eqb next_ref].
  exists within4, rank4. unfold rules_merged. rewrite Eno, Enull. split_and!; try done; [apply (overlay_bound _ _ _ _ _ _ Hov4); lia|].
  exists (next_ref h1), node. split_and!; [done | | done | done]. rewrite (kp_other _ _ _ Hk24); cbn; [by rewrite lookup_insert_eq | done | by rewrite lookup_insert_eq].
Qed.

(** *** Retagging and the document around it *)

Lemma retagged_entry h h' root key : retagged h h' → entry h' root key = entry h root key.
Proof using Type.
  intros Hr. assert (Hnamed : ∀ kv, named h' key kv = named h key kv).
  { intros kv. unfold named. specialize (Hr kv.1). destruct (h !! kv.1) as [n|], (h' !! kv.1) as [n'|]; try done. destruct Hr as [E _]. by rewrite E. }
  unfold entry. pose proof (Hr root) as Hroot. destruct (h !! root) as [n|], (h' !! root) as [n'|]; try done. destruct Hroot as [E _]. cbn.
  assert (Hcont : yn_Content n' = yn_Content n) by (by rewrite E). rewrite Hcont. unfold own_value. f_equal.
  induction (pairs (yn_Content n)) as [|kv kvs IH]; [done|]. cbn. by rewrite Hnamed, IH.
Qed.

(** The same entries, and the same lists where they lead. *)
Lemma rules_merged_same h h1 h2 root rules added : (∀ key, entry h2 root key = entry h1 root key) →
  (∀ r n, h1 !! r = Some n → entry h1 root "rules" = Some r → ∃ n', h2 !! r = Some n' ∧ yn_Kind n' = yn_Kind n ∧ yn_Content n' = yn_Content n) →
  rules_merged h h1 root rules added → rules_merged h h2 root rules added.
Proof using Type.
  intros He Hn. unfold rules_merged. rewrite He. destruct rules as [[rp np]|], added as [[ra na]|]; try done.
  destruct (no_rules na); [done|]. destruct (isNull np); [done|]. intros (Hla & Hlp & r & n & Hr & Hrn & Hl & Hc). split_and!; [done..|].
  destruct (Hn r n Hrn Hr) as (n' & Hn' & Hk & Hc'). exists r, n'. split_and!; [done | done | | congruence].
  unfold is_list, kind_is in *. by rewrite Hk.
Qed.

Lemma overlay_region h root within rank bound : overlay h root within rank bound →
  region h (λ r, within r ∨ r = root) (λ r, if decide (r = root) then bound else rank r).
Proof using Type.
  intros [Hreg Hb [Hnr Hnz] (n & Hn & _ & Hc) Hkind _]. assert (Hne : ∀ r, within r → r ≠ root) by (intros r Hr ->; done).
  intros r [Hr| ->].
  - destruct (Hreg r Hr) as (Hz & m & Hm & He). split; [done|]. exists m. split; [done|]. intros c Hcin. destruct (He c Hcin) as [Hw Hlt].
    split; [by left|]. by rewrite !decide_False by (by apply Hne).
  - split; [done|]. exists n. split; [done|]. intros c Hcin. unfold edges, aliased, kind_is in Hcin. rewrite (Hkind n Hn), bool_decide_false in Hcin by done.
    cbn in Hcin. rewrite app_nil_r in Hcin. split; [left; by apply Hc|]. rewrite decide_False by (by apply Hne, Hc). rewrite decide_True by done. by apply Hb, Hc.
Qed.

(** C34: the config the core builds of a profile and the host's overlay, of
    two documents without cycles, the overlay without merge keys of its own.
    Each of the long sections holds what the profile gives it, its merge keys
    followed, or else what the overlay gives it; every other key holds what
    the overlay gives it. The rules are those of the overlay and after them
    those of the profile; a list missing on one side leaves the other's, and
    the merge of such documents fails only when one of the two is something
    else. When the profile's text speaks of short ids, each number written
    plain that is the value of a key [short-id] anywhere below the root, or is
    listed there, is kept as text, and no other node of the profile or the
    overlay is changed; otherwise none is. *)
Theorem merge_profile retag h profile root within rank bound :
  overlay h root within rank bound → within profile → (bound + 12 <= stack)%nat →
  let rules := node_at h (profile_value h profile "rules") in
  let added := node_at h (entry h root "rules") in
  match merge_mappings stack retag h profile root with
  | Ok (h', document) =>
      yn_Content <$> h' !! document = Some [root] ∧
      (∀ key, key ≠ "rules"%string → entry h' root key =
        if decide (key ∈ profileBaseSections) then match profile_value h profile key with Some v => Some v | None => entry h root key end
        else entry h root key) ∧
      rules_merged h h' root rules added ∧
      ∀ r n, r ≠ root → h !! r = Some n →
        let id := retag = true ∧ short_id h' root r ∧ plain_number n in
        ∃ n', h' !! r = Some n' ∧ same_but_tag n n' ∧ (retag = false → n' = n) ∧ (id → n' = as_text n) ∧ (¬ id → n' = n)
  | Err e => rules_rejected rules added e
  end.
Proof using Hshort.
  intros Hov Hp Hstack rules added. unfold merge_mappings.
  destruct (take_sections_spec h root within rank bound profile profileBaseSections Hov Hp) with (h1 := h) (within1 := within) (rank1 := rank) (bound1 := bound)
    as (h1 & within1 & rank1 & -> & Hov1 & Hsub1 & Hk1 & He1);
    [pose proof (ov_bound _ _ _ _ _ Hov profile Hp); lia | done | done | apply keeps_refl|].
  cbn [mbind result_bind]. assert (Hsame1 : entry h1 root "rules" = entry h root "rules") by (by rewrite He1).
  assert (Hdeep : (bound <= stack)%nat) by lia.
  pose proof (take_rules_spec h root within rank bound profile h1 within1 rank1 _ Hov Hdeep Hp Hov1 Hsub1 Hk1 Hsame1) as Hrules.
  cbv zeta in Hrules. fold rules added in Hrules.
  destruct (take_rules stack profile root h1) as [h2|e]; [cbn [mbind result_bind] | exact Hrules].
  destruct Hrules as (within2 & rank2 & Hov2 & Hsub2 & Hk2 & Ho2 & Hm2). cbn [length profileBaseSections] in Hov2.
  pose proof (overlay_region _ _ _ _ _ Hov2) as Hreg2.
  assert (Hretag : ∃ h3, (if retag then fst <$> retagShortIDs stack h2 root else Ok h2) = Ok h3 ∧
    texts (λ r, retag = true ∧ short_id h2 root r) h2 h3).
  { destruct retag; [|exists h2; split; [done|]; apply texts_none; by intros ? ? _ []].
    destruct (retagShortIDs_retags _ _ _ Hreg2 stack h2 root (retagged_refl h2)) as (h3 & c & -> & Ht);
      [by right | rewrite decide_True by done; lia|]. exists h3. split; [done|]. eapply texts_iff; [|exact Ht]. naive_solver. }
  destruct Hretag as (h3 & -> & Htexts). pose proof (texts_retagged _ _ _ Htexts) as Ht3. cbn [mbind result_bind].
  set (doc := {| zero_node with yn_Kind := DocumentNode; yn_Content := [root] |}). destruct (alloc h3 doc) as [h4 document] eqn:Ea.
  assert (Hroot3 : is_Some (h3 !! root)).
  { destruct (ov_mapping _ _ _ _ _ Hov2) as (n & Hn & _). destruct (retagged_lookup _ _ _ _ Ht3 Hn) as (n' & ? & _). by exists n'. }
  pose proof (alloc_keeps root h3 doc Hroot3) as Hk4. rewrite Ea in Hk4. cbn [fst] in Hk4. injection Ea as Eh Ed.
  assert (Hlook4 : ∀ r, is_Some (h3 !! r) → h4 !! r = h3 !! r).
  { intros r [x Hx]. rewrite <- Eh. apply lookup_insert_ne. intros E. rewrite <- E, next_ref_fresh in Hx. done. }
  assert (Hentry4 : ∀ key, entry h4 root key = entry h2 root key).
  { intros key. rewrite <- (retagged_entry h2 h3 root key Ht3). unfold entry. rewrite (Hlook4 root Hroot3).
    destruct (h3 !! root) as [n|] eqn:En; [cbn | done]. apply (keeps_own_value root h3 h4 key (yn_Content n) Hk4).
    destruct (retagged_lookup_back h2 h3 root n Ht3 En) as (n2 & Hn2 & [E _]). intros kv Hkv.
    destruct (overlay_keys_exist h2 root within2 rank2 _ n2 kv Hov2 Hn2) as [k Hk]; [by rewrite E in Hkv|].
    destruct (retagged_lookup _ _ _ _ Ht3 Hk) as (k' & ? & _). by exists k'. }
  split_and!.
  - rewrite <- Eh, <- Ed, lookup_insert_eq. done.
  - intros key Hkey. by rewrite Hentry4, (Ho2 key Hkey), He1.
  - apply (rules_merged_same h h2); [done | | done]. intros r n Hn _. destruct (retagged_lookup _ _ _ _ Ht3 Hn) as (n' & Hn' & [E _]).
    exists n'. rewrite (Hlook4 r) by (by exists n'). split_and!; [done | by rewrite E | by rewrite E].
  - intros r n Hr Hn. assert (Hn2 : h2 !! r = Some n).
    { assert (Hn1 : h1 !! r = Some n) by (rewrite (kp_other _ _ _ Hk1); [done | done | by exists n]).
      rewrite (kp_other _ _ _ Hk2); [done | done | by exists n]. }
    destruct (retagged_lookup _ _ _ _ Ht3 Hn2) as (n' & Hn' & Htag). cbv zeta. exists n'.
    rewrite (Hlook4 r) by (by exists n'). split; [done|]. split; [done|].
    assert (Hkept : kept_but_tags h2 h4).
    { intros q m Hm. destruct (retagged_lookup _ _ _ _ Ht3 Hm) as (m' & Hm' & ?). exists m'. by rewrite (Hlook4 q) by (by exists m'). }
    rewrite <- (short_id_same h2 h4 _ _ Hreg2 Hkept root r) by (by right).
    specialize (Htexts r). rewrite Hn2, Hn' in Htexts. split_and!; destruct Htexts as [([? ?] & ? & ->)|[? ->]]; naive_solver.
Qed.
End merge.

(** ** On concrete documents *)

(** [region], decided for the nodes of a list. *)
Definition region_check (h : store) (l : list ref) (rank : ref → nat) : bool :=
  forallb (λ r, negb (r =? 0)%nat && match h !! r with
    | Some n => forallb (λ c, bool_decide (c ∈ l) && (rank c <? rank r)%nat) (edges n)
    | None => false
    end) l.

Lemma region_checked h l rank : region_check h l rank = true → region h (λ r, r ∈ l) rank.
Proof.
  unfold region_check. rewrite forallb_forall. intros Hall r Hr. apply list_elem_of_In, Hall, andb_true_iff in Hr as [Hz Hn].
  destruct (h !! r) as [n|]; [|done]. split; [by intros ->|]. exists n. split; [done|]. intros c Hc.
  rewrite forallb_forall in Hn. apply list_elem_of_In, Hn, andb_true_iff in Hc as [Hin%bool_decide_eq_true Hlt]. split; [done | by apply Nat.ltb_lt].
Qed.

Module Sample.
#[local] Instance tags : YamlTags :=
  {| ShortTag n := if negb (empty (yn_Tag n)) then yn_Tag n else if eqs (yn_Value n) "<<" then "!!merge"
                   else if eqs (yn_Value n) "" then "!!null" else "!!str"%string |}.

Lemma tags_short n : yn_Tag n = "!!str"%string → ShortTag n = "!!str"%string.
Proof. cbn. by intros ->. Qed.

Definition scalar (value : string) : yamlNode := {| zero_node with yn_Kind := ScalarNode; yn_Value := value |}.
Definition mapping (content : list ref) : yamlNode := {| zero_node with yn_Kind := MappingNode; yn_Content := content |}.
Definition sequence (content : list ref) : yamlNode := {| zero_node with yn_Kind := SequenceNode; yn_Content := content |}.
Definition alias (r : ref) : yamlNode := {| zero_node with yn_Kind := AliasNode; yn_Alias := r |}.
Definition number (value : string) : yamlNode := {| (scalar value) with yn_Tag := "!!int" |}.

(** The profile [1], whose proxies come by a merge key, with an unquoted
    short id; and the overlay [20], which adds a rule. *)
Definition documents : store := list_to_map
  [(1, mapping [2; 3; 4; 5]); (2, scalar "<<"); (3, alias 8); (4, scalar "rules"); (5, sequence [6; 7]); (6, scalar "DOMAIN,b,g");
   (7, scalar "MATCH,g"); (8, mapping [9; 10]); (9, scalar "proxies"); (10, sequence [11]); (11, mapping [12; 13]);
   (12, scalar "short-id"); (13, number "0123");
   (20, mapping [21; 22; 24; 25; 26; 27]); (21, scalar "rules"); (22, sequence [23]); (23, scalar "DOMAIN,a,g");
   (24, scalar "mixed-port"); (25, number "7890"); (26, scalar "proxies"); (27, scalar "")]%nat.

Definition below : list ref := (seq 1 13 ++ seq 21 7)%nat.
Definition rank (r : ref) : nat := 30 - r.

Lemma documents_overlay : overlay documents 20 (λ r, r ∈ below) rank 30.
Proof.
  split.
  - apply region_checked. vm_compute. reflexivity.
  - intros r Hr. unfold below in Hr. rewrite elem_of_app, !elem_of_seq in Hr. unfold rank. lia.
  - split; [|done]. apply (bool_decide_unpack _). vm_compute. exact I.
  - exists (mapping [21; 22; 24; 25; 26; 27]%nat). split_and!; [vm_compute; reflexivity | by exists 3%nat |].
    apply Forall_forall, (bool_decide_unpack _). vm_compute. exact I.
  - intros n Hn. vm_compute in Hn. by injection Hn as <-.
  - intros n kv k Hn Hkv Hk. vm_compute in Hn. injection Hn as <-. cbn in Hkv. rewrite !elem_of_cons in Hkv.
    destruct Hkv as [-> | [-> | [-> | []%not_elem_of_nil]]]; vm_compute in Hk; injection Hk as <-; vm_compute; reflexivity.
Qed.

Lemma merge_profile_witness : ∃ h' document r n, merge_mappings 42 true documents 1 20 = Ok (h', document) ∧
  entry h' 20 "proxies" = Some 10%nat ∧ entry h' 20 "mixed-port" = Some 25%nat ∧
  entry h' 20 "rules" = Some r ∧ h' !! r = Some n ∧ yn_Content n = [23; 6; 7]%nat.
Proof.
  assert (Hp : 1%nat ∈ below) by (apply (bool_decide_unpack _); vm_compute; exact I).
  assert (Hdeep : (30 + 12 <= 42)%nat) by lia.
  pose proof (merge_profile tags_short 42 true documents 1 20 _ rank 30 documents_overlay Hp Hdeep) as Hm. cbv zeta in Hm.
  assert (Hok : is_ok (merge_mappings 42 true documents 1 20) = true) by (vm_compute; reflexivity).
  destruct (merge_mappings 42 true documents 1 20) as [[h' document]|] eqn:E; [|discriminate].
  destruct Hm as (_ & Hentry & Hrules & _).
  assert (Hr : node_at 42 documents (profile_value 42 documents 1 "rules") = Some (5, sequence [6; 7])%nat) by (vm_compute; reflexivity).
  assert (Ha : node_at 42 documents (entry documents 20 "rules") = Some (22, sequence [23])%nat) by (vm_compute; reflexivity).
  rewrite Hr, Ha in Hrules. destruct Hrules as (_ & _ & r & n & He & Hn & _ & Hc). exists h', document, r, n.
  split_and!; [reflexivity | | | exact He | exact Hn | exact Hc]; rewrite Hentry by discriminate; vm_compute; reflexivity.
Defined.

(** The short id keeps its text, and the port stays a number. *)
Example port_stays : (λ s, yn_Tag <$> s.1 !! 25%nat) <$> merge_mappings 42 true documents 1 20 = Ok (Some "!!int"%string).
Proof. vm_compute. reflexivity. Qed.

Example short_id_kept : (λ s, yn_Tag <$> s.1 !! 13%nat) <$> merge_mappings 42 true documents 1 20 = Ok (Some "!!str"%string).
Proof. vm_compute. reflexivity. Qed.

(** A short id given by an alias does not: the number is tagged where it is
    anchored, and nothing there says that it is an id. *)
Definition aliased_id : store :=
  list_to_map [(1, mapping [2; 3; 4; 5]); (2, scalar "id"); (3, {| (number "0123") with yn_Anchor := "s" |}); (4, scalar "short-id"); (5, alias 3)]%nat.

Example aliased_id_number : (λ s, (yn_Tag <$> s.1 !! 3%nat, s.2)) <$> retagShortIDs 10 aliased_id 1 = Ok (Some "!!int"%string, false).
Proof. vm_compute. reflexivity. Qed.

(** A mapping that merges itself: no stack is enough to look a key up. *)
Definition self_merge : store := list_to_map [(1, {| (mapping [2; 3]) with yn_Anchor := "a" |}); (2, scalar "<<"); (3, alias 1)]%nat.

Lemma self_merge_endless stack : mappingValue stack self_merge 1 "proxies" = Err Endless.
Proof.
  induction stack as [|stack IH]; [done|]. cbn [mappingValue].
  change (deref self_merge 1) with (@Ok fault _ {| (mapping [2; 3]%nat) with yn_Anchor := "a" |}). cbn [mbind result_bind].
  change (scan_keys self_merge "proxies" (pairs (yn_Content {| (mapping [2; 3]%nat) with yn_Anchor := "a" |})) []) with (@Ok fault _ (@None ref, [3%nat])).
  cbn [mbind result_bind first_value]. destruct stack as [|stack]; [done|].
  change (resolveAlias (S (S stack)) self_merge 3) with (@Ok fault _ 1%nat). cbn [mbind result_bind].
  change (deref self_merge 1) with (@Ok fault _ {| (mapping [2; 3]%nat) with yn_Anchor := "a" |}). cbn [mbind result_bind merge_candidates kind_is].
  change (merge_candidates self_merge 1 {| (mapping [2; 3]%nat) with yn_Anchor := "a" |}) with [1%nat]. cbn [first_value].
  change (resolveAlias (S (S stack)) self_merge 1) with (@Ok fault _ 1%nat). cbn [mbind result_bind].
  change (deref self_merge 1) with (@Ok fault _ {| (mapping [2; 3]%nat) with yn_Anchor := "a" |}). cbn [mbind result_bind].
  change (kind_is MappingNode {| (mapping [2; 3]%nat) with yn_Anchor := "a" |}) with true. by rewrite IH.
Qed.

(** A list of more than 4096 rules that an alias uses again: what was written
    of it is cleared, and the second use meets nil. *)
#[local] Instance plain_encoder : YamlEncoder :=
  {| yaml_encode h n := (fix go (l : list ref) := match l with [] => Ok EmptyString | r :: l => m ← deref h r; rest ← go l; Ok (yn_Value m +:+ rest) end)
                          (yn_Content n ≫= λ r, r :: match h !! r with Some m => yn_Content m | None => [] end) |}.

Definition long_rules (n : nat) : store :=
  list_to_map [(1, mapping [2; 3; 4; 3]); (2, scalar "rules"); (3, sequence (replicate n 5)); (4, scalar "sub-rules"); (5, scalar "MATCH,g")]%nat.

Example cleared_while_shared :
  (match encodeConfigMapping (long_rules 4096) 1 with Ok _ => true | Err _ => false end) = true ∧
  snd <$> encodeConfigMapping (long_rules 4097) 1 = Err NilNode.
Proof. split; vm_compute; reflexivity. Qed.
End Sample.
