(* ===== verification/Goroutines.v ===== *)
(** * Goroutines that meet in a shared state

    A goroutine is where it is in its code; its next atomic operation or
    locked section changes the shared state and moves it on. A run
    interleaves any number of them; a serial run begins one only when all
    before it have ended. *)

From S2P Require Import Prelude.

Section goroutines.
Context {S PC : Type} (step : S → PC → S * PC) (ended : PC → bool) (begins : PC → Prop) (init : S).

Definition all_ended (g : gmap nat PC) : Prop := map_Forall (λ _ pc, ended pc = true) g.

Inductive interleaved (serial : bool) : S → gmap nat PC → Prop :=
  | run_init : interleaved serial init ∅
  | run_begin s g t pc : interleaved serial s g → g !! t = None → begins pc → (serial = true → all_ended g) →
      interleaved serial s (<[t := pc]> g)
  | run_next s g t pc : interleaved serial s g → g !! t = Some pc → ended pc = false →
      interleaved serial (step s pc).1 (<[t := (step s pc).2]> g).

(** A schedule: what happens next, in order. *)
Inductive move := Begin (t : nat) (pc : PC) | Next (t : nat).

Definition play_one (sg : S * gmap nat PC) (m : move) : option (S * gmap nat PC) :=
  match m with
  | Begin t pc => match sg.2 !! t with None => Some (sg.1, <[t := pc]> sg.2) | Some _ => None end
  | Next t =>
      match sg.2 !! t with
      | Some pc => if ended pc then None else Some ((step sg.1 pc).1, <[t := (step sg.1 pc).2]> sg.2)
      | None => None
      end
  end.

Fixpoint play (sg : S * gmap nat PC) (moves : list move) : option (S * gmap nat PC) :=
  match moves with [] => Some sg | m :: moves => sg ← play_one sg m; play sg moves end.

Definition legal (m : move) : Prop := match m with Begin _ pc => begins pc | Next _ => True end.

Lemma play_interleaved moves : ∀ sg sg', Forall legal moves → interleaved false sg.1 sg.2 →
  play sg moves = Some sg' → interleaved false sg'.1 sg'.2.
Proof using Type.
  induction moves as [|m moves IH]; intros sg sg' Hl Hsg; cbn [play]; [by intros [= <-]|].
  apply Forall_cons in Hl as [Hm Hl]. destruct (play_one sg m) as [sg1|] eqn:E; [cbn|done].
  apply IH; [done|]. destruct m as [t pc|t]; cbn in E; destruct (sg.2 !! t) eqn:Et; simplify_eq; cbn.
  - by apply run_begin.
  - destruct (ended _) eqn:Ee; simplify_eq. cbn. by apply run_next.
Qed.

(** What holds of the state between goroutines, and while one is at [pc]. *)
Context (rest : S → Prop) (during : S → PC → Prop).

Definition at_work (s : S) (g : gmap nat PC) : Prop :=
  (all_ended g ∧ rest s) ∨ ∃ t pc, g !! t = Some pc ∧ ended pc = false ∧ all_ended (delete t g) ∧ during s pc.

Context (Hinit : rest init).
Context (Hbegins : ∀ s pc, begins pc → rest s → ended pc = false ∧ during s pc).
Context (Hstep : ∀ s pc, during s pc → ended pc = false →
  let '(s', pc') := step s pc in if ended pc' then rest s' else during s' pc').

Lemma all_ended_insert g t pc : all_ended (delete t g) → ended pc = true → all_ended (<[t := pc]> g).
Proof using Type.
  intros Hg Hpc t' pc' Ht'. apply lookup_insert_Some in Ht' as [[<- <-]|[Hne Ht']]; [done|].
  apply (Hg t'). by rewrite lookup_delete_ne.
Qed.

Lemma serial_at_work s g : interleaved true s g → at_work s g.
Proof using Hinit Hbegins Hstep.
  induction 1 as [|s g t pc _ IH Ht Hb Hser|s g t pc _ IH Ht He].
  - left. split; [apply map_Forall_empty | done].
  - right. specialize (Hser eq_refl). destruct IH as [[_ Hr]|(t' & pc' & Ht' & He' & _)].
    + destruct (Hbegins s pc Hb Hr). exists t, pc. rewrite lookup_insert_eq, delete_insert_id by done. done.
    + rewrite (Hser t' pc' Ht') in He'. done.
  - destruct IH as [[Hall _]|(t' & pc' & Ht' & He' & Hothers & Hd)]; [by rewrite (Hall t pc Ht) in He|].
    assert (t' = t) as ->.
    { destruct (decide (t' = t)) as [|Hne]; [done|]. assert (ended pc = true); [|congruence].
      apply (Hothers t). by rewrite lookup_delete_ne. }
    rewrite Ht in Ht'. injection Ht' as <-. specialize (Hstep s pc Hd He). destruct (step s pc) as [s' pc2]. cbn.
    destruct (ended pc2) eqn:E2.
    + left. split; [by apply all_ended_insert | done].
    + right. exists t, pc2. rewrite lookup_insert_eq, delete_insert_eq. done.
Qed.

(** Between the goroutines of a serial run. *)
Lemma serial_rest s g : interleaved true s g → all_ended g → rest s.
Proof using Hinit Hbegins Hstep.
  intros [[_ Hr]|(t & pc & Ht & He & _)]%serial_at_work Hall; [done|]. by rewrite (Hall t pc Ht) in He.
Qed.
End goroutines.

(** ** A token one goroutine holds at a time *)

Section token.
Context {PC : Type} (holds : PC → bool).

Record token_ok (g : gmap nat PC) (taken : bool) : Prop := {
  tk_one : ∀ t t' pc pc', g !! t = Some pc → g !! t' = Some pc' → holds pc = true → holds pc' = true → t = t';
  tk_taken : taken = true ↔ ∃ t pc, g !! t = Some pc ∧ holds pc = true;
}.

Definition held_at (g : gmap nat PC) (t : nat) : bool := match g !! t with Some pc => holds pc | None => false end.

Lemma held_at_true g t : held_at g t = true ↔ ∃ pc, g !! t = Some pc ∧ holds pc = true.
Proof using Type. unfold held_at. destruct (g !! t) as [pc|]; [|by split; [|intros (? & ? & _)]]. split; [eauto | by intros (? & [= <-] & ?)]. Qed.

Lemma token_free : token_ok ∅ false.
Proof using Type. split; [done|]. split; [done|]. by intros (? & ? & ? & _). Qed.

(** A goroutine moves: it takes the token when it is free, and keeps or
    leaves what it had. *)
Lemma token_move g taken taken' t pc' : token_ok g taken →
  (holds pc' = true → held_at g t = true ∨ taken = false) →
  taken' = (if holds pc' then true else if held_at g t then false else taken) →
  token_ok (<[t := pc']> g) taken'.
Proof using Type.
  intros [Hone Htaken] Htake ->.
  assert (Hother : ∀ t' pc, t' ≠ t → g !! t' = Some pc → holds pc = true → holds pc' = false ∧ held_at g t = false).
  { intros t' pc Hne Ht' Hpc. assert (held_at g t = false) as Hout.
    { apply not_true_iff_false. intros (pc0 & Ht & Hp)%held_at_true. by destruct (Hne (Hone t' t _ _ Ht' Ht Hpc Hp)). }
    split; [|done]. apply not_true_iff_false. intros [|Hfree]%Htake; [congruence|].
    assert (taken = true) by (apply Htaken; eauto). congruence. }
  split.
  - intros t1 t2 pc1 pc2 Ht1 Ht2 Hp1 Hp2. rewrite lookup_insert in Ht1, Ht2. repeat case_decide; simplify_eq; try done.
    1,2: match goal with Hu : _ !! ?u = Some ?pc, Hp : holds ?pc = true |- _ => by destruct (Hother u pc) as [? _]; congruence end.
    by eapply Hone.
  - destruct (holds pc') eqn:E'; [|destruct (held_at g t) eqn:E].
    + split; [|done]. intros _. exists t, pc'. by rewrite lookup_insert_eq.
    + split; [done|]. intros (t0 & pc & Ht0 & Hpc). rewrite lookup_insert in Ht0. case_decide as Hd; [congruence|].
      destruct (Hother t0 pc) as [_ ?]; congruence.
    + rewrite Htaken. split; intros (t0 & pc & Ht0 & Hpc); exists t0, pc; (split; [|done]).
      * rewrite lookup_insert. case_decide as Hd; [|done]. subst t0. assert (held_at g t = true) by (apply held_at_true; eauto). congruence.
      * rewrite lookup_insert in Ht0. case_decide; congruence.
Qed.
End token.

Arguments Begin {PC}.
Arguments Next {PC}.

(** Playing a schedule out by computation, goroutine maps symbolically. *)
Ltac play_out :=
  cbn -[lookup insert decide];
  rewrite ?lookup_empty, ?lookup_insert_eq, ?insert_insert_eq;
  try (rewrite lookup_insert_ne by done).
