(* ===== verification/Coalesce.v ===== *)
(** * Coalesced runs and own probes: core/rcx_runtime.go

    [coalescedRun] runs a function in the background after every request,
    many requests sharing one run; here its goroutines interleave, one atomic
    operation at a time. [nodeProbes] counts the engine's own URL tests in
    flight, which must not come back to it as measurements. *)

From S2P Require Import Prelude Goroutines.

(** ** coalescedRun *)

(** Where a goroutine in [request] or [loop] is. *)
Inductive run_pc :=
  | AtStore (again : bool)  (** before [pending.Store(true)]; [again] from the deferred function *)
  | AtCompare               (** before [running.CompareAndSwap] *)
  | AtSwap                  (** in the loop, before [pending.Swap(false)] *)
  | InRun                   (** in [run()] *)
  | AtRelease               (** before [running.Store(false)] *)
  | AtCheck                 (** before [pending.Load()] *)
  | Done.

(** The two flags and the goroutines; [cr_asked] counts the requests and
    [cr_served] those made before the last run began: no step reads them. *)
Record coalesced := {
  cr_pending : bool;
  cr_running : bool;
  cr_goroutines : gmap nat run_pc;
  cr_asked : nat;
  cr_served : nat;
}.

Definition at_pc (s : coalesced) (t : nat) (pc : run_pc) : coalesced :=
  {| s with cr_goroutines := <[t := pc]> (cr_goroutines s) |}.

(** The next operation of the goroutine [t]; [panics] tells how [run()] ends.
    A request that finds a loop running leaves its flag to it; one that does
    not starts a goroutine of its own, which goes on as [t]. *)
Definition run_step (s : coalesced) (t : nat) (pc : run_pc) (panics : bool) : coalesced :=
  match pc with
  | AtStore again =>
      at_pc {| s with cr_pending := true; cr_asked := if again then cr_asked s else S (cr_asked s) |} t AtCompare
  | AtCompare => if cr_running s then at_pc s t Done else at_pc {| s with cr_running := true |} t AtSwap
  | AtSwap =>
      if cr_pending s then at_pc {| s with cr_pending := false; cr_served := cr_asked s |} t InRun
      else at_pc s t AtRelease
  | InRun => at_pc s t (if panics then AtRelease else AtSwap)
  | AtRelease => at_pc {| s with cr_running := false |} t AtCheck
  | AtCheck => at_pc s t (if cr_pending s then AtStore true else Done)
  | Done => s
  end.

Definition new_run : coalesced :=
  {| cr_pending := false; cr_running := false; cr_goroutines := ∅; cr_asked := 0; cr_served := 0 |}.

Inductive run_reachable : coalesced → Prop :=
  | run_start : run_reachable new_run
  | run_request s t : run_reachable s → cr_goroutines s !! t = None → run_reachable (at_pc s t (AtStore false))
  | run_next s t pc panics : run_reachable s → cr_goroutines s !! t = Some pc → run_reachable (run_step s t pc panics).

(** ** nodeProbes *)

Notation probes := (gmap string Z).

Definition probe_begin (p : probes) (node : string) : probes := <[node := default 0 (p !! node) + 1]> p.
Definition probe_end (p : probes) (node : string) : probes :=
  let n := default 0 (p !! node) - 1 in if n <=? 0 then delete node p else <[node := n]> p.
Definition owns (p : probes) (node : string) : bool := 0 <? default 0 (p !! node).

(** ** One run at a time, and none missed *)

(** In [loop], holding [running]. *)
Definition in_loop (pc : run_pc) : bool := match pc with AtSwap | InRun | AtRelease => true | _ => false end.

(** Bound to read the flag again, or to hand it to one who will. *)
Definition will_serve (pc : run_pc) : bool := match pc with Done | AtStore false => false | _ => true end.

Record run_ok (s : coalesced) : Prop := {
  ro_token : token_ok in_loop (cr_goroutines s) (cr_running s);
  ro_pending : cr_pending s = true → ∃ t pc, cr_goroutines s !! t = Some pc ∧ will_serve pc = true;
  ro_served : if cr_pending s then (cr_served s <= cr_asked s)%nat else cr_served s = cr_asked s;
}.

(** A goroutine that has returned, or not begun, is done. *)
Definition pc_of (s : coalesced) (t : nat) : run_pc := default Done (cr_goroutines s !! t).

Lemma pc_of_Some s t pc : cr_goroutines s !! t = Some pc → pc_of s t = pc.
Proof. unfold pc_of. by intros ->. Qed.

Lemma in_loop_held s t : held_at in_loop (cr_goroutines s) t = in_loop (pc_of s t).
Proof. unfold held_at, pc_of. by destruct (cr_goroutines s !! t). Qed.

Lemma in_loop_serves pc : in_loop pc = true → will_serve pc = true.
Proof. by destruct pc. Qed.

(** The goroutine [t] moves to [pc'] and the flags change. *)
Lemma run_ok_move s t pc' pending running asked served : run_ok s →
  (in_loop pc' = true → in_loop (pc_of s t) = true ∨ cr_running s = false) →
  running = (if in_loop pc' then true else if in_loop (pc_of s t) then false else cr_running s) →
  (pending = true → will_serve pc' = true ∨ running = true ∨ cr_pending s = true ∧ will_serve (pc_of s t) = false) →
  (if pending then (served <= asked)%nat else served = asked) →
  run_ok {| cr_pending := pending; cr_running := running; cr_goroutines := <[t := pc']> (cr_goroutines s);
            cr_asked := asked; cr_served := served |}.
Proof.
  intros [Htoken Hpend Hserved] Hloop Hrunning Hpending Hs.
  assert (Htoken' : token_ok in_loop (<[t := pc']> (cr_goroutines s)) running)
    by (apply (token_move in_loop _ (cr_running s)); rewrite ?in_loop_held; done).
  split; cbn; [done| |done]. intros Hp. destruct (Hpending Hp) as [Hw|[(t0 & pc & Ht0 & Hpc)%(tk_taken _ _ _ Htoken')|[Hq Hw]]].
  - exists t, pc'. by rewrite lookup_insert_eq.
  - exists t0, pc. split; [done | by apply in_loop_serves].
  - destruct (Hpend Hq) as (t0 & pc & Ht0 & Hpc). exists t0, pc. split; [|done].
    rewrite lookup_insert_ne; [done|]. intros <-. rewrite (pc_of_Some _ _ _ Ht0) in Hw. congruence.
Qed.

Lemma run_step_ok s t pc panics : run_ok s → cr_goroutines s !! t = Some pc → run_ok (run_step s t pc panics).
Proof.
  intros Hok Ht. pose proof (pc_of_Some _ _ _ Ht) as Hpc. pose proof (ro_served _ Hok) as Hserved.
  pose proof (tk_taken _ _ _ (ro_token _ Hok)) as Hrun.
  assert (Hin : in_loop pc = true → cr_running s = true) by (intros ?; apply Hrun; by exists t, pc).
  destruct pc as [again| | | | | |]; cbn [run_step]; unfold at_pc; cbn in Hin.
  - apply (run_ok_move s); rewrite ?Hpc; cbn; auto. destruct (cr_pending s), again; lia.
  - destruct (cr_running s) eqn:Er; apply (run_ok_move s); rewrite ?Hpc, ?Er; cbn; auto.
  - destruct (cr_pending s) eqn:Ep; apply (run_ok_move s); rewrite ?Hpc, ?Ep; cbn; auto.
  - apply (run_ok_move s); rewrite ?Hpc; cbn; auto; destruct panics; cbn; auto.
  - apply (run_ok_move s); rewrite ?Hpc; cbn; auto.
  - destruct (cr_pending s) eqn:Ep; apply (run_ok_move s); rewrite ?Hpc, ?Ep; cbn; auto; discriminate.
  - done.
Qed.

(** C37: requests for a coalesced run. However the goroutines interleave, and
    even when the function panics, at most one goroutine runs it at a time;
    and while a request has not been followed by the start of a run, some
    goroutine is bound to look at the flag again: once all have returned,
    every request was followed by a run that began after it. *)
Theorem coalesced_runs s : run_reachable s →
  (∀ t t', cr_goroutines s !! t = Some InRun → cr_goroutines s !! t' = Some InRun → t = t') ∧
  (cr_served s ≠ cr_asked s → ∃ t pc, cr_goroutines s !! t = Some pc ∧ will_serve pc = true) ∧
  ((∀ t pc, cr_goroutines s !! t = Some pc → pc = Done) → cr_served s = cr_asked s).
Proof.
  intros Hs. assert (Hok : run_ok s).
  { induction Hs as [|s t Hs IH Ht|s t pc panics Hs IH Ht].
    - split; cbn; [apply token_free | done | done].
    - assert (pc_of s t = Done) as Hpc by (unfold pc_of; by rewrite Ht).
      destruct IH as [? ? ?]. apply (run_ok_move s); rewrite ?Hpc; cbn; auto. by split.
    - by apply run_step_ok. }
  destruct Hok as [[Hone _] Hpend Hserved].
  assert (Hbehind : cr_served s ≠ cr_asked s → ∃ t pc, cr_goroutines s !! t = Some pc ∧ will_serve pc = true)
    by (intros Hne; apply Hpend; by destruct (cr_pending s)).
  split; [|split; [done|]].
  - intros t t' Ht Ht'. by apply (Hone t t' _ _ Ht Ht').
  - intros Hall. destruct (decide (cr_served s = cr_asked s)) as [|Hne]; [done|].
    destruct (Hbehind Hne) as (t & pc & Ht & Hw). by rewrite (Hall t pc Ht) in Hw.
Qed.

(** A request during a run: the loop turns once more. *)
Definition steps (s : coalesced) (moves : list (nat * bool)) : coalesced :=
  foldl (λ s m, run_step s m.1 (pc_of s m.1) m.2) s moves.

Definition two_requests : coalesced :=
  steps (at_pc (steps (at_pc new_run 0 (AtStore false)) [(0, false); (0, false); (0, false)]%nat) 1 (AtStore false))
    [(1, false); (1, false); (0, false); (0, false); (0, true); (0, false); (0, false)]%nat.

Lemma steps_reachable s moves : run_reachable s → run_reachable (steps s moves).
Proof.
  revert s. induction moves as [|[t panics] moves IH]; intros s Hs; [done|]. cbn. apply IH.
  destruct (cr_goroutines s !! t) as [pc|] eqn:E; unfold pc_of; rewrite E; cbn; [by apply run_next | done].
Qed.

Lemma coalesced_runs_witness : cr_served two_requests = 2%nat ∧ cr_served two_requests = cr_asked two_requests.
Proof.
  split; [vm_compute; reflexivity|]. apply (coalesced_runs two_requests).
  - apply steps_reachable, run_request; [|by vm_compute]. by apply steps_reachable, run_request; [apply run_start|].
  - intros t pc Ht. assert (Forall (λ x, x.2 = Done) (map_to_list (cr_goroutines two_requests))) as Hall
      by (vm_compute; repeat constructor).
    rewrite Forall_forall in Hall. by apply (Hall (t, pc)), elem_of_map_to_list.
Defined.

(** ** Own probes *)

(** A node is owned while more of its probes began than ended; the counts
    never stay at zero or below. *)
Lemma probe_begin_end p node : (∀ n k, p !! n = Some k → 0 < k) →
  probe_end (probe_begin p node) node = p.
Proof.
  intros Hpos. unfold probe_end, probe_begin. rewrite lookup_insert_eq. cbn.
  destruct (p !! node) as [k|] eqn:E; cbn.
  - rewrite (proj2 (Z.leb_gt _ 0)) by (specialize (Hpos node k E); lia).
    rewrite insert_insert_eq. replace (k + 1 - 1) with k by lia. by apply insert_id.
  - by apply delete_insert_id.
Qed.
