(* ===== verification/RequestTraffic.v ===== *)
(** * Traffic of open requests: core/request_traffic.go

    mihomo announces a request as it opens and never tells that it closed.
    While the host is in the foreground a goroutine asks every second for the
    totals of the requests it watches and sends those that moved; a request
    found closed is let go once its last totals were queued, or after five
    refusals more. Announcements, changes of the foreground and the goroutine
    interleave, one atomic operation or locked section at a time. *)

From S2P Require Import Prelude Goroutines.

Definition requestTrafficCloseRetries : Z := 5.

Record RequestTraffic := { rq_Id : string; rq_Upload : Z; rq_Download : Z }.

Section traffic.
(** The trackers of mihomo, and the id of each. *)
Context `{RangeOrder} {tracker : Type} (ID : tracker → string).

Record watchedRequest := {
  wr_tracker : tracker;
  wr_upload : Z;
  wr_download : Z;
  wr_fresh : bool;
  wr_closedReports : Z;
}.

Record requestTrafficWatch := { tw_requests : gmap string watchedRequest; tw_running : bool }.

Definition newTrafficWatch : requestTrafficWatch := {| tw_requests := ∅; tw_running := false |}.

(** ** The watch

    [insert], and whether a goroutine must be started. *)
Definition insert_request (w : requestTrafficWatch) (t : tracker) (upload download : Z) : requestTrafficWatch * bool :=
  let requests :=
    match tw_requests w !! ID t with
    | Some _ => tw_requests w
    | None => <[ID t := {| wr_tracker := t; wr_upload := upload; wr_download := download; wr_fresh := true; wr_closedReports := 0 |}]>
                (tw_requests w)
    end in
  ({| tw_requests := requests; tw_running := true |}, negb (tw_running w)).

Definition add (w : requestTrafficWatch) (t : tracker) (info : tracker → Z * Z) : requestTrafficWatch * bool :=
  insert_request w t (info t).1 (info t).2.

Definition resume (w : requestTrafficWatch) (t : tracker) : requestTrafficWatch * bool := insert_request w t (-1) (-1).

(** A turn of the first loop of [collect]. *)
Definition report_one (isOpen : string → bool) (info : tracker → Z * Z) (id : string) (request : watchedRequest)
    : watchedRequest * list RequestTraffic :=
  let closed := (0 <? wr_closedReports request) || negb (wr_fresh request) && negb (isOpen id) in
  let request := {| request with wr_closedReports := wr_closedReports request + (if closed then 1 else 0); wr_fresh := false |} in
  let '(upload, download) := info (wr_tracker request) in
  (request,
   if negb (upload =? wr_upload request) || negb (download =? wr_download request)
   then [{| rq_Id := id; rq_Upload := upload; rq_Download := download |}] else []).

Definition reported (requests : gmap string watchedRequest) (traffic : RequestTraffic) : gmap string watchedRequest :=
  alter (λ r, {| r with wr_upload := rq_Upload traffic; wr_download := rq_Download traffic |}) (rq_Id traffic) requests.

(** What the third loop deletes. *)
Definition let_go (queued : bool) (r : watchedRequest) : bool :=
  (0 <? wr_closedReports r) && (queued || (requestTrafficCloseRetries <? wr_closedReports r)).

Definition changed_totals (w : requestTrafficWatch) (isOpen : string → bool) (info : tracker → Z * Z) : list RequestTraffic :=
  '(id, r) ← range_map (tw_requests w); (report_one isOpen info id r).2.

Definition accepts (queue : list RequestTraffic → bool) (changed : list RequestTraffic) : bool :=
  match changed with [] => true | _ => queue changed end.

(** [collect]: the watch, whether it goes on, and what was queued. *)
Definition collect (w : requestTrafficWatch) (isOpen : string → bool) (info : tracker → Z * Z) (queue : list RequestTraffic → bool)
    : requestTrafficWatch * bool * list RequestTraffic :=
  let changed := changed_totals w isOpen info in
  let requests := map_imap (λ id r, Some (report_one isOpen info id r).1) (tw_requests w) in
  let queued := accepts queue changed in
  let requests := if queued then foldl reported requests changed else requests in
  let requests := filter (λ p, let_go queued p.2 = false) requests in
  let running := negb (bool_decide (requests = ∅)) in
  ({| tw_requests := requests; tw_running := running |}, running, if queued then changed else []).

Definition clearUnless (w : requestTrafficWatch) (keep : bool) : requestTrafficWatch * bool :=
  if keep then (w, false) else (newTrafficWatch, true).

(** ** The goroutines

    [ts_told] records the totals the host was last given of each request: with
    its announcement or in a report that was queued. No step reads it. *)
Record traffic_state := {
  ts_watch : requestTrafficWatch;
  ts_foreground : bool;
  ts_foregroundMu : bool;
  ts_foregroundSeq : Z;
  ts_told : gmap string (Z * Z);
}.

Definition traffic_init : traffic_state :=
  {| ts_watch := newTrafficWatch; ts_foreground := true; ts_foregroundMu := false; ts_foregroundSeq := 0; ts_told := ∅ |}.

(** Where a goroutine is: in [watchRequestTraffic], before it reads the
    foreground and before it adds; in [setHostForeground], before the lock and
    among the trackers of the manager, with its [start]; in
    [runRequestTrafficWatch], before [clearUnless] and before [collect]. *)
Inductive traffic_pc :=
  | AtLoad (t : tracker)
  | AtAdd (t : tracker)
  | AtLock (foreground : bool) (seq : Z)
  | AtResume (rest : list tracker) (start : bool)
  | AtTick
  | AtCollect
  | Ended.

(** What a step meets: a listener, the manager's open trackers, the totals of
    a tracker, and a queue that accepts or refuses. *)
Record traffic_world := {
  tv_listener : bool;
  tv_open : string → bool;
  tv_trackers : list tracker;
  tv_info : tracker → Z * Z;
  tv_queue : list RequestTraffic → bool;
}.

Definition set_watch (s : traffic_state) (w : requestTrafficWatch) : traffic_state := {| s with ts_watch := w |}.

Definition tell (told : gmap string (Z * Z)) (traffic : RequestTraffic) : gmap string (Z * Z) :=
  <[rq_Id traffic := (rq_Upload traffic, rq_Download traffic)]> told.

(** [setHostForeground] up to its loop. The lock is kept for the loop; a
    goroutine that finds it taken waits. *)
Definition set_foreground (s : traffic_state) (foreground : bool) (seq : Z) (v : traffic_world) : traffic_state * traffic_pc :=
  if ts_foregroundMu s then (s, AtLock foreground seq)
  else if seq <? ts_foregroundSeq s then (s, Ended)
  else
    let swapped := {| s with ts_foregroundSeq := seq; ts_foreground := foreground |} in
    if eqb (ts_foreground s) foreground || negb foreground || negb (tv_listener v) then (swapped, Ended)
    else ({| swapped with ts_foregroundMu := true |}, AtResume (tv_trackers v) false).

(** A goroutine that must start another goes on as it. *)
Definition traffic_step (s : traffic_state) (pc : traffic_pc) (v : traffic_world) : traffic_state * traffic_pc :=
  match pc with
  | AtLoad t => (s, if ts_foreground s then AtAdd t else Ended)
  | AtAdd t =>
      let '(w, start) := add (ts_watch s) t (tv_info v) in
      let told := match tw_requests (ts_watch s) !! ID t with Some _ => ts_told s | None => <[ID t := tv_info v t]> (ts_told s) end in
      ({| s with ts_watch := w; ts_told := told |}, if start then AtTick else Ended)
  | AtLock foreground seq => set_foreground s foreground seq v
  | AtResume (t :: rest) start =>
      let '(w, started) := resume (ts_watch s) t in (set_watch s w, AtResume rest (started || start))
  | AtResume [] start => ({| s with ts_foregroundMu := false |}, if start then AtTick else Ended)
  | AtTick =>
      let '(w, cleared) := clearUnless (ts_watch s) (tv_listener v && ts_foreground s) in
      (set_watch s w, if cleared then Ended else AtCollect)
  | AtCollect =>
      let '(w, watching, sent) := collect (ts_watch s) (tv_open v) (tv_info v) (tv_queue v) in
      ({| s with ts_watch := w; ts_told := foldl tell (ts_told s) sent |}, if watching then AtTick else Ended)
  | Ended => (s, Ended)
  end.

Definition traffic_begins (pc : traffic_pc) : Prop :=
  match pc with AtLoad _ | AtLock _ _ => True | _ => False end.

(** Totals are counts. *)
Definition counts (v : traffic_world) : Prop := ∀ t, 0 <= (tv_info v t).1 ∧ 0 <= (tv_info v t).2.

Inductive traffic_run : traffic_state → gmap nat traffic_pc → Prop :=
  | traffic_start : traffic_run traffic_init ∅
  | traffic_begin s g n pc : traffic_run s g → g !! n = None → traffic_begins pc → traffic_run s (<[n := pc]> g)
  | traffic_next s g n pc v : traffic_run s g → g !! n = Some pc → counts v →
      traffic_run (traffic_step s pc v).1 (<[n := (traffic_step s pc v).2]> g).

(** ** One goroutine watches, and none is missing *)

(** Watching, or bound to start the goroutine that will. *)
Definition watches (pc : traffic_pc) : bool :=
  match pc with AtTick | AtCollect => true | AtResume _ start => start | _ => false end.

Definition watch_ok (s : traffic_state) (g : gmap nat traffic_pc) : Prop :=
  token_ok watches g (tw_running (ts_watch s)) ∧ (tw_running (ts_watch s) = false → tw_requests (ts_watch s) = ∅).

Lemma insert_request_running w t u d : tw_running (insert_request w t u d).1 = true ∧ (insert_request w t u d).2 = negb (tw_running w).
Proof using Type. done. Qed.

Lemma collect_running w isOpen info queue :
  let '(w', watching, _) := collect w isOpen info queue in tw_running w' = watching ∧ (watching = false → tw_requests w' = ∅).
Proof using Type. cbn. split; [done|]. by intros ?%negb_false_iff%bool_decide_eq_true. Qed.

Lemma watch_ok_step s g n pc v : watch_ok s g → g !! n = Some pc →
  watch_ok (traffic_step s pc v).1 (<[n := (traffic_step s pc v).2]> g).
Proof using Type.
  intros [Htok Hempty] Hn. assert (Hheld : held_at watches g n = watches pc) by (unfold held_at; by rewrite Hn).
  destruct pc as [t|t|foreground seq|[|t rest] start| | |]; cbn [traffic_step fst snd].
  - split; [|done]. eapply token_move; [exact Htok | | rewrite Hheld]; by destruct (ts_foreground s).
  - unfold add. destruct (insert_request_running (ts_watch s) t (tv_info v t).1 (tv_info v t).2) as [Hr Hs].
    destruct (insert_request _ _ _ _) as [w start]. cbn in *. subst start. split; cbn; [|by rewrite Hr].
    eapply token_move; [exact Htok | | rewrite Hheld, Hr]; by destruct (tw_running (ts_watch s)) eqn:E; auto.
  - unfold set_foreground. repeat case_if; cbn; (split; [|done]); (eapply token_move; [exact Htok | done | by rewrite Hheld]).
  - split; [|done]. eapply token_move; [exact Htok | rewrite Hheld | rewrite Hheld]; destruct start; cbn; auto.
    apply (tk_taken _ _ _ Htok). eauto.
  - unfold resume. destruct (insert_request_running (ts_watch s) t (-1) (-1)) as [Hr Hs].
    destruct (insert_request _ _ _ _) as [w started]. cbn in *. subst started. split; cbn; [|by rewrite Hr].
    eapply token_move; [exact Htok | rewrite Hheld | rewrite Hheld, Hr]; destruct (tw_running (ts_watch s)) eqn:E, start; cbn; auto.
  - unfold clearUnless. destruct (tv_listener v && ts_foreground s); cbn.
    + split; [|done]. eapply token_move; [exact Htok | by rewrite Hheld; left | cbn].
      apply (tk_taken _ _ _ Htok). eauto.
    + split; [|done]. eapply token_move; [exact Htok | done | by rewrite Hheld].
  - pose proof (collect_running (ts_watch s) (tv_open v) (tv_info v) (tv_queue v)) as Hc.
    destruct (collect _ _ _ _) as [[w watching] sent]. cbn. destruct Hc as [Hr He]. split; cbn; [|by rewrite Hr].
    eapply token_move; [exact Htok | by rewrite Hheld; left | rewrite Hheld, Hr]. by destruct watching.
  - split; [|done]. eapply token_move; [exact Htok | done | by rewrite Hheld].
Qed.

Lemma traffic_watch_ok s g : traffic_run s g → watch_ok s g.
Proof using Type.
  induction 1 as [|s g n pc _ IH Hn Hb|s g n pc v _ IH Hn _].
  - split; [apply token_free | done].
  - destruct IH as [Htok He]. split; [|done]. assert (held_at watches g n = false) as Hh by (unfold held_at; by rewrite Hn).
    apply (token_move _ _ _ _ _ _ Htok); rewrite ?Hh; by destruct pc.
  - by apply watch_ok_step.
Qed.

(** ** What a collection does to each request *)

Definition with_totals (r : watchedRequest) (totals : Z * Z) : watchedRequest :=
  {| r with wr_upload := totals.1; wr_download := totals.2 |}.

Lemma with_totals_same r : with_totals r (wr_upload r, wr_download r) = r.
Proof using Type. by destruct r. Qed.

Lemma elem_of_changed w isOpen info traffic : traffic ∈ changed_totals w isOpen info ↔
  ∃ r, tw_requests w !! rq_Id traffic = Some r ∧ info (wr_tracker r) = (rq_Upload traffic, rq_Download traffic) ∧
    info (wr_tracker r) ≠ (wr_upload r, wr_download r).
Proof using Type.
  unfold changed_totals. rewrite list_elem_of_bind. split.
  - intros ([id r] & Hin & Hr%elem_of_range_map). exists r. unfold report_one in Hin. cbn in Hin.
    destruct (info (wr_tracker r)) as [u d] eqn:Ei. cbn in Hin. destruct (_ || _) eqn:E in Hin; [|by apply not_elem_of_nil in Hin].
    apply list_elem_of_singleton in Hin. subst traffic. split_and!; [done | done |]. intros [= -> ->]. by rewrite !Z.eqb_refl in E.
  - intros (r & Hr & Hi & Hne). exists (rq_Id traffic, r). split; [|by apply elem_of_range_map].
    unfold report_one. cbn. rewrite Hi. cbn. assert (Hx : negb (rq_Upload traffic =? wr_upload r) || negb (rq_Download traffic =? wr_download r) = true).
    { apply not_false_iff_true. intros [Hu%negb_false_iff Hd%negb_false_iff]%orb_false_iff. apply Hne. rewrite Hi. f_equal; lia. }
    rewrite Hx. apply list_elem_of_singleton. by destruct traffic.
Qed.

(** Every report of a request in one collection carries the same totals. *)
Definition agree (changed : list RequestTraffic) (id : string) (totals : Z * Z) : Prop :=
  ∀ traffic, traffic ∈ changed → rq_Id traffic = id → totals = (rq_Upload traffic, rq_Download traffic).

Lemma agree_cons traffic changed id totals : agree (traffic :: changed) id totals →
  (rq_Id traffic = id → totals = (rq_Upload traffic, rq_Download traffic)) ∧ agree changed id totals.
Proof using Type. intros Ha. split; [intros Hid; by apply Ha; [apply list_elem_of_here|] | intros t Ht; by apply Ha, list_elem_of_further]. Qed.

Lemma foldl_reported changed : ∀ requests id r totals, requests !! id = Some r → agree changed id totals →
  id ∈ rq_Id <$> changed ∨ (wr_upload r, wr_download r) = totals →
  foldl reported requests changed !! id = Some (with_totals r totals).
Proof using Type.
  induction changed as [|traffic changed IH]; intros requests id r totals Hr Ha Hor; cbn [foldl].
  { destruct Hor as [Hin|<-]; [by apply not_elem_of_nil in Hin | by rewrite with_totals_same]. }
  apply agree_cons in Ha as [Hhere Ha]. unfold reported at 2. destruct (decide (rq_Id traffic = id)) as [Hid|Hne].
  - specialize (Hhere Hid). assert (with_totals r totals = with_totals (with_totals r totals) totals) as -> by done.
    apply IH; [|done | right; by destruct totals]. rewrite Hid, lookup_alter_eq, Hr. cbn. by rewrite Hhere.
  - apply IH; [by rewrite lookup_alter_ne | done |]. destruct Hor as [Hin|?]; [|by right].
    rewrite fmap_cons in Hin. apply elem_of_cons in Hin as [->|?]; [done | by left].
Qed.

Lemma foldl_reported_None changed : ∀ requests id, requests !! id = None → foldl reported requests changed !! id = None.
Proof using Type.
  induction changed as [|traffic changed IH]; intros requests id Hr; [done|]. cbn. apply IH. unfold reported. by apply lookup_alter_None.
Qed.

Lemma foldl_tell changed : ∀ told id totals, agree changed id totals → id ∈ rq_Id <$> changed ∨ told !! id = Some totals →
  foldl tell told changed !! id = Some totals.
Proof using Type.
  induction changed as [|traffic changed IH]; intros told id totals Ha Hor; cbn [foldl].
  { destruct Hor as [Hin|?]; [by apply not_elem_of_nil in Hin | done]. }
  apply agree_cons in Ha as [Hhere Ha]. apply IH; [done|]. unfold tell. destruct (decide (rq_Id traffic = id)) as [Hid|Hne].
  - right. by rewrite Hid, lookup_insert_eq, Hhere.
  - destruct Hor as [Hin|?]; [|right; by rewrite lookup_insert_ne]. rewrite fmap_cons in Hin.
    apply elem_of_cons in Hin as [->|?]; [done | by left].
Qed.

(** A watched request is among those reported, or its totals did not move. *)
Lemma changed_or_same w isOpen info id r : tw_requests w !! id = Some r →
  agree (changed_totals w isOpen info) id (info (wr_tracker r)) ∧
  (id ∈ rq_Id <$> changed_totals w isOpen info ∨ (wr_upload r, wr_download r) = info (wr_tracker r)).
Proof using Type.
  intros Hr. split.
  - intros traffic (r' & Hr' & Hi & _)%elem_of_changed Hid. rewrite Hid in Hr'. congruence.
  - destruct (decide ((wr_upload r, wr_download r) = info (wr_tracker r))) as [|Hne]; [by right|]. left.
    destruct (info (wr_tracker r)) as [u d] eqn:Ei. apply list_elem_of_fmap.
    exists {| rq_Id := id; rq_Upload := u; rq_Download := d |}. split; [done|]. apply elem_of_changed. exists r. cbn.
    split_and!; [done | done | congruence].
Qed.

Definition queued_in (w : requestTrafficWatch) (v : traffic_world) : bool :=
  accepts (tv_queue v) (changed_totals w (tv_open v) (tv_info v)).

(** A request the manager no longer has, unless it may not have it yet. *)
Definition closing (v : traffic_world) (id : string) (r : watchedRequest) : bool :=
  (0 <? wr_closedReports r) || negb (wr_fresh r) && negb (tv_open v id).

Definition collected (w : requestTrafficWatch) (v : traffic_world) (id : string) (r : watchedRequest) : watchedRequest :=
  let r' := {| r with wr_closedReports := wr_closedReports r + (if closing v id r then 1 else 0); wr_fresh := false |} in
  if queued_in w v then with_totals r' (tv_info v (wr_tracker r)) else r'.

Lemma report_one_fst isOpen info id r : (report_one isOpen info id r).1 =
  {| r with wr_closedReports := wr_closedReports r + (if (0 <? wr_closedReports r) || negb (wr_fresh r) && negb (isOpen id) then 1 else 0);
            wr_fresh := false |}.
Proof using Type. unfold report_one. cbn. by destruct (info (wr_tracker r)). Qed.

Lemma collect_lookup w v id :
  tw_requests (collect w (tv_open v) (tv_info v) (tv_queue v)).1.1 !! id =
    r ← tw_requests w !! id; if let_go (queued_in w v) (collected w v id r) then None else Some (collected w v id r).
Proof using Type.
  unfold collect. cbn [fst tw_requests]. fold (queued_in w v). rewrite map_lookup_filter.
  set (turned := map_imap _ _).
  assert (Hturned : ∀ r, tw_requests w !! id = Some r → (if queued_in w v then foldl reported turned (changed_totals w (tv_open v) (tv_info v)) else turned) !! id
    = Some (collected w v id r)).
  { intros r Hr. assert (Ht : turned !! id = Some (report_one (tv_open v) (tv_info v) id r).1) by (unfold turned; by rewrite map_lookup_imap, Hr).
    unfold collected. rewrite report_one_fst in Ht. fold (closing v id r) in Ht. destruct (queued_in w v); [|done].
    destruct (changed_or_same w (tv_open v) (tv_info v) id r Hr) as [Ha Hor]. by apply foldl_reported. }
  destruct (tw_requests w !! id) as [r|] eqn:Er; cbn.
  - rewrite (Hturned r eq_refl). cbn. destruct (let_go _ _); cbn; [by rewrite option_guard_False | by rewrite option_guard_True].
  - apply bind_None. left. assert (Ht : turned !! id = None) by (unfold turned; by rewrite map_lookup_imap, Er).
    destruct (queued_in w v); [by apply foldl_reported_None | done].
Qed.

(** What the watch knows of a request: its totals are those the host was last
    told, or are still to be told. *)
Definition told_ok (s : traffic_state) : Prop :=
  ∀ id r, tw_requests (ts_watch s) !! id = Some r →
    0 <= wr_closedReports r <= requestTrafficCloseRetries ∧
    ((wr_upload r, wr_download r) = (-1, -1) ∨ ts_told s !! id = Some (wr_upload r, wr_download r)).

(** What [collect] told of a request it looked at, when the queue took it. *)
Lemma collect_told w v id r told : counts v → tw_requests w !! id = Some r → queued_in w v = true →
  (wr_upload r, wr_download r) = (-1, -1) ∨ told !! id = Some (wr_upload r, wr_download r) →
  foldl tell told (collect w (tv_open v) (tv_info v) (tv_queue v)).2 !! id = Some (tv_info v (wr_tracker r)).
Proof using Type.
  intros Hcounts Hr Hq Htold. unfold collect. cbn [snd]. fold (queued_in w v). rewrite Hq.
  destruct (changed_or_same w (tv_open v) (tv_info v) id r Hr) as [Ha [Hin|Hsame]]; apply foldl_tell; [done | by left | done |].
  right. rewrite <- Hsame. destruct Htold as [Hneg|?]; [|done]. pose proof (Hcounts (wr_tracker r)) as [Hu _].
  rewrite <- Hsame, Hneg in Hu. cbn in Hu. lia.
Qed.

Lemma told_ok_insert s w t upload download told :
  told_ok s → w = (insert_request (ts_watch s) t upload download).1 →
  (upload, download) = (-1, -1) ∨ told !! ID t = Some (upload, download) ∨ is_Some (tw_requests (ts_watch s) !! ID t) →
  (∀ id, id ≠ ID t ∨ is_Some (tw_requests (ts_watch s) !! ID t) → told !! id = ts_told s !! id) →
  told_ok {| s with ts_watch := w; ts_told := told |}.
Proof using Type.
  intros Hok -> Hnew Hother id r Hr. cbn in Hr. destruct (tw_requests (ts_watch s) !! ID t) as [r0|] eqn:Et; cbn in Hr.
  { cbn. rewrite Hother by eauto. by apply Hok. }
  apply lookup_insert_Some in Hr as [[<- <-]|[Hne Hr]]; cbn.
  - split; [unfold requestTrafficCloseRetries; lia|]. destruct Hnew as [?|[?|[? ?]]]; [by left | by right | done].
  - rewrite Hother by auto. by apply Hok.
Qed.

Lemma told_ok_step s pc v : told_ok s → counts v → told_ok (traffic_step s pc v).1.
Proof using Type.
  intros Hok Hv. destruct pc as [t|t|foreground seq|[|t rest] start| | |]; cbn [traffic_step].
  - done.
  - destruct (add (ts_watch s) t (tv_info v)) as [w start] eqn:E. cbn [fst]. unfold add in E.
    apply (told_ok_insert s w t (tv_info v t).1 (tv_info v t).2); [done | by rewrite E | |].
    + destruct (tw_requests (ts_watch s) !! ID t) eqn:Et; [eauto|]. right. left. rewrite lookup_insert_eq. by destruct (tv_info v t).
    + intros id Hid. destruct (tw_requests (ts_watch s) !! ID t) eqn:Et; [done|]. destruct Hid as [?|[? ?]]; [by rewrite lookup_insert_ne | done].
  - unfold set_foreground. by repeat case_if.
  - done.
  - destruct (resume (ts_watch s) t) as [w started] eqn:E. cbn [fst]. unfold resume in E.
    by apply (told_ok_insert s w t (-1) (-1)); [done | rewrite E | left |].
  - unfold clearUnless. by destruct (_ && _).
  - destruct (collect _ _ _ _) as [[w watching] sent] eqn:E. cbn [fst]. intros id r Hr. cbn in Hr |- *.
    pose proof (collect_lookup (ts_watch s) v id) as Hl. rewrite E in Hl. cbn in Hl. rewrite Hl in Hr.
    destruct (tw_requests (ts_watch s) !! id) as [r0|] eqn:E0; [cbn in Hr | done].
    destruct (let_go _ _) eqn:Eg; [done|]. injection Hr as <-. destruct (Hok id r0 E0) as [Hc Ht]. unfold let_go, collected in Eg |- *.
    destruct (queued_in (ts_watch s) v) eqn:Eq.
    + pose proof (collect_told (ts_watch s) v id r0 (ts_told s) Hv E0 Eq Ht) as Hs. rewrite E in Hs. cbn in Eg, Hs |- *.
      split; [|right; by destruct (tv_info v (wr_tracker r0))]. rewrite andb_true_r in Eg. unfold requestTrafficCloseRetries. destruct (closing v id r0); lia.
    + cbn in Eg |- *. split; [|].
      * unfold requestTrafficCloseRetries in *. destruct (closing v id r0); lia.
      * assert (sent = []) as -> by (unfold collect in E; fold (queued_in (ts_watch s) v) in E; rewrite Eq in E; by injection E as _ _ <-). done.
  - done.
Qed.

Lemma traffic_told_ok s g : traffic_run s g → told_ok s.
Proof using Type.
  induction 1 as [|s g n pc _ IH _ _|s g n pc v _ IH _ Hv]; [by intros id r Hr | exact IH | by apply told_ok_step].
Qed.

(** However announcements, changes of the foreground and the goroutines that
    watch interleave: at most one goroutine watches at a time, none is missing
    while a request is watched, and one that has ended leaves no request
    behind. *)
Theorem traffic_watched s g : traffic_run s g →
  (∀ n n' pc pc', g !! n = Some pc → g !! n' = Some pc' → watches pc = true → watches pc' = true → n = n') ∧
  (tw_requests (ts_watch s) ≠ ∅ → ∃ n pc, g !! n = Some pc ∧ watches pc = true).
Proof using Type.
  intros [Htok He]%traffic_watch_ok. split; [by apply (tk_one _ _ _ Htok)|].
  intros Hne. apply (tk_taken _ _ _ Htok). apply not_false_iff_true. intros Hf. by apply Hne, He.
Qed.

(** C25: what a collection does to a request, whatever came before. When the
    queue takes the report, the host has been told the totals of every
    request as they stand, and exactly those that closed are let go. When it
    refuses, an open request is watched on, a closed one too, until its
    report was refused six times. *)
Theorem request_fate s g n v id r :
  traffic_run s g → g !! n = Some AtCollect → counts v → tw_requests (ts_watch s) !! id = Some r →
  let s' := (traffic_step s AtCollect v).1 in
  0 <= wr_closedReports r <= 5 ∧
  if queued_in (ts_watch s) v
  then ts_told s' !! id = Some (tv_info v (wr_tracker r)) ∧ (tw_requests (ts_watch s') !! id = None ↔ closing v id r = true)
  else if closing v id r
       then match tw_requests (ts_watch s') !! id with
            | Some r' => wr_closedReports r' = wr_closedReports r + 1 ∧ wr_closedReports r < 5
            | None => wr_closedReports r = 5
            end
       else ∃ r', tw_requests (ts_watch s') !! id = Some r' ∧ wr_closedReports r' = 0.
Proof using Type.
  intros Hrun _ Hv Hr s'. destruct (traffic_told_ok s g Hrun id r Hr) as [Hc Htold]. split; [done|].
  pose proof (collect_lookup (ts_watch s) v id) as Hl. rewrite Hr in Hl. cbn [mbind option_bind] in Hl.
  pose proof (λ Hq, collect_told (ts_watch s) v id r (ts_told s) Hv Hr Hq Htold) as Ht. subst s'. cbn [traffic_step].
  destruct (collect _ _ _ _) as [[w watching] sent]. cbn [fst snd ts_watch ts_told] in *. rewrite Hl.
  unfold let_go, collected, requestTrafficCloseRetries in *. destruct (queued_in (ts_watch s) v).
  - split; [by apply Ht|]. cbn. rewrite andb_true_r. destruct (closing v id r) eqn:Ec.
    + rewrite (proj2 (Z.ltb_lt _ _)) by lia. done.
    + assert (wr_closedReports r = 0) as -> by (unfold closing in Ec; lia). done.
  - cbn. destruct (closing v id r) eqn:Ec.
    + rewrite (proj2 (Z.ltb_lt 0 _)) by lia. cbn. destruct (5 <? wr_closedReports r + 1) eqn:E5; cbn; lia.
    + assert (wr_closedReports r = 0) as -> by (unfold closing in Ec; lia). cbn. by eexists.
Qed.
End traffic.

(** ** A request that closes while the queue is full *)

Module Sample.
#[local] Existing Instance natural_order.

(** One request; [open], its totals, and whether the queue takes reports. *)
Definition world (open : bool) (totals : Z) (takes : bool) : traffic_world (tracker := string) :=
  {| tv_listener := true; tv_open _ := open; tv_trackers := ["a"%string]; tv_info _ := (totals, 0); tv_queue _ := takes |}.

Definition run_one (sp : traffic_state (tracker := string) * traffic_pc) (v : traffic_world) : traffic_state * traffic_pc :=
  traffic_step (λ id, id) sp.1 sp.2 v.

Definition run (worlds : list traffic_world) : traffic_state * traffic_pc :=
  foldl run_one (traffic_init, AtLoad "a"%string) worlds.

Lemma run_reached worlds : Forall counts worlds → traffic_run (λ id, id) (run worlds).1 {[0%nat := (run worlds).2]}.
Proof.
  induction worlds as [|v worlds IH] using rev_ind; intros Hc.
  - apply (traffic_begin _ traffic_init ∅ 0); [apply traffic_start | done | done].
  - apply Forall_app in Hc as [Hc Hv]. inversion Hv; subst. unfold run in *. rewrite foldl_app. cbn.
    destruct (foldl _ _ worlds) as [s pc] eqn:E. cbn in IH. unfold run_one. cbn [fst snd].
    rewrite <- (insert_singleton_eq 0%nat (traffic_step (λ id, id) s pc v).2 pc). apply traffic_next; [by apply IH | by rewrite lookup_singleton_eq | done].
Qed.

Definition opened := world true 0 true.
Definition sending := world true 7 true.
Definition closed_full := world false 9 false.
Definition closed_free := world false 9 true.

(** Announced, seen open, then closed with a full queue: its last totals
    reach the host as soon as the queue takes them. *)
Lemma request_fate_witness :
  let before := run [opened; opened; opened; opened; sending; sending; closed_full; closed_full; closed_full] in
  let after := run_one before closed_free in
  ts_told before.1 !! "a"%string = Some (7, 0) ∧ ts_told after.1 !! "a"%string = Some (9, 0) ∧
  tw_requests (ts_watch after.1) !! "a"%string = None.
Proof.
  intros before after. assert (Hr : is_Some (tw_requests (ts_watch before.1) !! "a"%string)) by (vm_compute; eexists; reflexivity).
  assert (Hc : from_option (closing closed_free "a") false (tw_requests (ts_watch before.1) !! "a"%string) = true) by (vm_compute; reflexivity).
  destruct Hr as [r Hr]. rewrite Hr in Hc. cbn [from_option] in Hc. assert (Hpc : before.2 = AtCollect) by (vm_compute; reflexivity).
  assert (Hq : queued_in (ts_watch before.1) closed_free = true) by (vm_compute; reflexivity).
  split; [vm_compute; reflexivity|].
  assert (Hrun : traffic_run (λ id, id) before.1 {[0%nat := before.2]}) by (apply run_reached; repeat constructor; cbn; lia).
  destruct (request_fate (λ id, id) before.1 {[0%nat := before.2]} 0 closed_free "a" r Hrun) as [_ Hf].
  - by rewrite lookup_singleton_eq, Hpc.
  - intros t. cbn. lia.
  - exact Hr.
  - rewrite Hq in Hf. unfold after, run_one. rewrite Hpc. destruct Hf as [Ht Hg]. split; [exact Ht | exact (proj2 Hg Hc)].
Defined.

(** Refused six times, it is let go and its last totals are lost. *)
Example given_up : let s := (run ([opened; opened; opened; opened] ++ repeat closed_full 12)).1 in
  tw_requests (ts_watch s) = ∅ ∧ ts_told s !! "a"%string = Some (0, 0).
Proof. vm_compute. split; reflexivity. Qed.
End Sample.
