(* ===== verification/SpeedBudget.v ===== *)
(** * What a speed test may transfer: core/speed_test_budget.go

    Workers of a speed test reserve bytes before they transfer them, consume
    them as they go and release the rest. Every operation holds the budget's
    lock, so a run is a sequence of operations. *)

From S2P Require Import Prelude.

Inductive direction := speedTestProbe | speedTestDownload | speedTestUpload.
#[export] Instance direction_eq : EqDecision direction. Proof. solve_decision. Defined.

(** [[3]int64], by direction. *)
Definition per_direction := direction → Z.
Definition put (f : per_direction) (d : direction) (v : Z) : per_direction := λ d', if decide (d' = d) then v else f d'.

Record reservation := {
  rs_direction : direction;
  rs_amount : Z;
  rs_remaining : Z;
  rs_closed : bool;
}.

(** The budget and the reservations made of it, in order. *)
Record speedTestBudget := {
  sb_limits : per_direction;
  sb_used : per_direction;
  sb_reserved : per_direction;
  sb_reservations : list reservation;
}.

Definition newSpeedTestBudget (limit : Z) : speedTestBudget :=
  let limit := Z.max 0 limit in
  let probe := Z.min (Z.quot limit 16) (512 * 1024) in
  let remaining := (limit -i probe)%go in
  {| sb_limits d := match d with
                    | speedTestProbe => probe
                    | speedTestDownload => Z.quot remaining 2
                    | speedTestUpload => (remaining -i Z.quot remaining 2)%go
                    end;
     sb_used _ := 0; sb_reserved _ := 0; sb_reservations := [] |}.

Definition available (b : speedTestBudget) (d : direction) : Z := (sb_limits b d -i sb_used b d -i sb_reserved b d)%go.
Definition spent (b : speedTestBudget) : Z :=
  (sb_used b speedTestProbe +i sb_used b speedTestDownload +i sb_used b speedTestUpload)%go.

(** What [reserve] takes: whole units of what is asked for and available. *)
Definition reserve_amount (b : speedTestBudget) (d : direction) (wanted unit : Z) : Z :=
  let amount := Z.min (Z.max wanted 0) (available b d) in
  if 1 <? unit then (Z.quot amount unit *i unit)%go else amount.

(** The reservation is the last one of the budget; none when it is nil. *)
Definition reserve (b : speedTestBudget) (d : direction) (wanted unit : Z) : speedTestBudget * bool :=
  let amount := reserve_amount b d wanted unit in
  if amount <=? 0 then (b, false)
  else
    ({| b with sb_reserved := put (sb_reserved b) d (sb_reserved b d +i amount)%go;
               sb_reservations := sb_reservations b ++
                 [{| rs_direction := d; rs_amount := amount; rs_remaining := amount; rs_closed := false |}] |}, true).

(** [consume] of the [i]-th reservation; false is its error. *)
Definition consume (b : speedTestBudget) (i : nat) (count : Z) : speedTestBudget * bool :=
  match sb_reservations b !! i with
  | None => (b, false)
  | Some r =>
      if (count <? 0) || rs_closed r || (rs_remaining r <? count) then (b, false)
      else
        let d := rs_direction r in
        ({| b with sb_reserved := put (sb_reserved b) d (sb_reserved b d -i count)%go;
                   sb_used := put (sb_used b) d (sb_used b d +i count)%go;
                   sb_reservations := <[i := {| r with rs_remaining := (rs_remaining r -i count)%go |}]> (sb_reservations b) |}, true)
  end.

Definition release (b : speedTestBudget) (i : nat) : speedTestBudget :=
  match sb_reservations b !! i with
  | None => b
  | Some r =>
      if rs_closed r then b
      else
        let d := rs_direction r in
        {| b with sb_reserved := put (sb_reserved b) d (sb_reserved b d -i rs_remaining r)%go;
                  sb_reservations := <[i := {| r with rs_remaining := 0; rs_closed := true |}]> (sb_reservations b) |}
  end.

(** ** The body of an upload *)

(** [speedTestUploadBody], of the [ub_reservation]-th reservation. *)
Record uploadBody := {
  ub_reservation : nat;
  ub_offset : nat;
  ub_sent : Z;
  ub_closed : bool;
}.

Definition new_body (i : nat) : uploadBody := {| ub_reservation := i; ub_offset := 0; ub_sent := 0; ub_closed := false |}.

(** The copying loop: [count] bytes of the payload, over and over from
    [offset]; [fuel] turns, of which each copies a byte at least. *)
Fixpoint fill {A} (fuel : nat) (payload : list A) (offset count : nat) : list A * nat :=
  match fuel with
  | O => ([], offset)
  | S fuel =>
      if (count =? 0)%nat then ([], offset)
      else
        let chunk := take count (drop offset payload) in
        let '(rest, offset') := fill fuel payload ((offset + length chunk) mod length payload) (count - length chunk) in
        (chunk ++ rest, offset')
  end.

Inductive readResult (A : Type) := ReadEOF | ReadError | ReadBytes (bytes : list A).
Arguments ReadEOF {A}.
Arguments ReadError {A}.
Arguments ReadBytes {A}.

(** [Read] into a buffer of [size] bytes. A failed read leaves the offset
    moved, as the copying comes first. *)
Definition body_read {A} (payload : list A) (b : speedTestBudget) (body : uploadBody) (size : Z)
    : speedTestBudget * uploadBody * readResult A :=
  let amount := match sb_reservations b !! ub_reservation body with Some r => rs_amount r | None => 0 end in
  if ub_closed body || (ub_sent body =? amount) then (b, body, ReadEOF)
  else
    let count := Z.min size (amount -i ub_sent body)%go in
    let '(bytes, offset) := fill (Z.to_nat count) payload (ub_offset body) (Z.to_nat count) in
    let body := {| body with ub_offset := offset |} in
    let '(b, ok) := consume b (ub_reservation body) count in
    if ok then (b, {| body with ub_sent := (ub_sent body +i count)%go |}, ReadBytes bytes) else (b, body, ReadError).

Definition body_close (body : uploadBody) : uploadBody := {| body with ub_closed := true |}.

(** ** Runs *)

Inductive budget_op := Reserve (d : direction) (wanted unit : Z) | Consume (i : nat) (count : Z) | Release (i : nat).

Definition budget_step (b : speedTestBudget) (op : budget_op) : speedTestBudget :=
  match op with
  | Reserve d wanted unit => (reserve b d wanted unit).1
  | Consume i count => (consume b i count).1
  | Release i => release b i
  end.

Definition budget_run (limit : Z) (ops : list budget_op) : speedTestBudget := foldl budget_step (newSpeedTestBudget limit) ops.

(** ** The invariant *)

(** What the open reservations of a direction still hold. *)
Definition held (d : direction) (rs : list reservation) : Z :=
  foldr (λ r n, (if decide (rs_direction r = d) then rs_remaining r else 0) + n) 0 rs.

#[local] Arguments held : simpl never.

Lemma held_cons d r rs : held d (r :: rs) = (if decide (rs_direction r = d) then rs_remaining r else 0) + held d rs.
Proof. reflexivity. Qed.

Lemma held_app d rs rs' : held d (rs ++ rs') = held d rs + held d rs'.
Proof. induction rs as [|r rs IH]; [done|]. rewrite <- app_comm_cons, !held_cons, IH. lia. Qed.

Lemma held_insert d rs i r r' : rs !! i = Some r → rs_direction r' = rs_direction r →
  held d (<[i := r']> rs) = held d rs + (if decide (rs_direction r = d) then rs_remaining r' - rs_remaining r else 0).
Proof.
  revert i. induction rs as [|x rs IH]; intros [|i] Hi Hd; [done..| |].
  - cbn in Hi. simplify_eq. change (<[0%nat := r']> (r :: rs)) with (r' :: rs). rewrite !held_cons, Hd. case_decide; lia.
  - change (<[S i := r']> (x :: rs)) with (x :: <[i := r']> rs). rewrite !held_cons, (IH i) by done. lia.
Qed.

Definition reservation_ok (r : reservation) : Prop :=
  0 <= rs_remaining r <= rs_amount r ∧ (rs_closed r = true → rs_remaining r = 0).

Record budget_ok (limit : Z) (b : speedTestBudget) : Prop := {
  bo_limits : sb_limits b speedTestProbe + sb_limits b speedTestDownload + sb_limits b speedTestUpload = Z.max 0 limit;
  bo_positive : ∀ d, 0 <= sb_limits b d;
  bo_used : ∀ d, 0 <= sb_used b d;
  bo_within : ∀ d, sb_used b d + sb_reserved b d <= sb_limits b d;
  bo_held : ∀ d, sb_reserved b d = held d (sb_reservations b);
  bo_each : Forall reservation_ok (sb_reservations b);
}.

Lemma held_nonneg d rs : Forall reservation_ok rs → 0 <= held d rs.
Proof. induction 1 as [|r rs [Hr _] _ IH]; [done|]. rewrite held_cons. case_decide; lia. Qed.

Lemma held_one d rs i r : Forall reservation_ok rs → rs !! i = Some r → rs_direction r = d → rs_remaining r <= held d rs.
Proof.
  intros Hrs. revert i. induction Hrs as [|x rs [Hx _] Hrs IH]; intros [|i] Hi Hd; [done..| |]; rewrite held_cons; cbn in Hi.
  - simplify_eq. rewrite decide_True by done. pose proof (held_nonneg (rs_direction r) rs Hrs). lia.
  - specialize (IH i Hi Hd). case_decide; lia.
Qed.

(** ** The bytes that pass *)

(** What a worker moves each time [consume] lets it. *)
Record transfer := {
  tr_reservation : nat;
  tr_direction : direction;
  tr_bytes : Z;
}.

Definition passes (b : speedTestBudget) (op : budget_op) : list transfer :=
  match op with
  | Consume i count =>
      match sb_reservations b !! i with
      | Some r =>
          if (consume b i count).2 then [{| tr_reservation := i; tr_direction := rs_direction r; tr_bytes := count |}] else []
      | None => []
      end
  | _ => []
  end.

(** The transfers of a run, in order. *)
Fixpoint transfers (b : speedTestBudget) (ops : list budget_op) : list transfer :=
  match ops with
  | [] => []
  | op :: ops => passes b op ++ transfers (budget_step b op) ops
  end.

(** The bytes of the transfers that [P] picks. *)
Definition moved (P : transfer → bool) (ts : list transfer) : Z := foldr (λ t n, (if P t then tr_bytes t else 0) + n) 0 ts.
Definition towards (d : direction) (t : transfer) : bool := bool_decide (tr_direction t = d).
Definition from (i : nat) (t : transfer) : bool := bool_decide (tr_reservation t = i).

Lemma moved_cons P t ts : moved P (t :: ts) = (if P t then tr_bytes t else 0) + moved P ts.
Proof. reflexivity. Qed.

Lemma moved_app P ts ts' : moved P (ts ++ ts') = moved P ts + moved P ts'.
Proof. induction ts as [|t ts IH]; [done|]. rewrite <- app_comm_cons, !moved_cons, IH. lia. Qed.

#[local] Arguments moved : simpl never.

Lemma moved_none P ts : (∀ t, t ∈ ts → P t = false) → moved P ts = 0.
Proof.
  induction ts as [|t ts IH]; intros Hts; [done|]. rewrite moved_cons, IH, (Hts t) by set_solver. done.
Qed.

Lemma moved_split ts : moved (λ _, true) ts =
  moved (towards speedTestProbe) ts + moved (towards speedTestDownload) ts + moved (towards speedTestUpload) ts.
Proof.
  induction ts as [|t ts IH]; [done|]. rewrite !moved_cons, IH. unfold towards. destruct (tr_direction t); repeat case_bool_decide; done || lia.
Qed.

Lemma transfers_snoc b ops op : transfers b (ops ++ [op]) = transfers b ops ++ passes (foldl budget_step b ops) op.
Proof. revert b. induction ops as [|o ops IH]; intros b; cbn; [by rewrite app_nil_r | by rewrite IH, app_assoc]. Qed.

(** [ts] are the transfers that led to [b]: each counted once, in its
    direction and against its reservation. *)
Record accounted (b : speedTestBudget) (ts : list transfer) : Prop := {
  ac_used : ∀ d, sb_used b d = moved (towards d) ts;
  ac_each : ∀ i r, sb_reservations b !! i = Some r →
    moved (from i) ts <= rs_amount r - rs_remaining r ∧
    (rs_closed r = false → moved (from i) ts = rs_amount r - rs_remaining r);
  ac_known : ∀ t, t ∈ ts → (tr_reservation t < length (sb_reservations b))%nat;
  ac_positive : ∀ t, t ∈ ts → 0 <= tr_bytes t;
}.

Section run.
Context (limit : Z) (Hlimit : in64 limit).

Lemma put_eq f d v : put f d v d = v.
Proof. unfold put. by rewrite decide_True. Qed.

Lemma put_ne f d d' v : d' ≠ d → put f d v d' = f d'.
Proof. unfold put. intros. by rewrite decide_False. Qed.

(** Within the limit no operation overflows. *)
Lemma budget_bounds b d : budget_ok limit b → 0 <= sb_reserved b d ∧ 0 <= sb_limits b d <= Z.max 0 limit ∧
  0 <= sb_used b d ∧ sb_used b d + sb_reserved b d <= sb_limits b d.
Proof using Type.
  intros Hb. pose proof (bo_positive _ _ Hb) as Hpos. pose proof (bo_limits _ _ Hb) as Hl.
  pose proof (Hpos speedTestProbe). pose proof (Hpos speedTestDownload). pose proof (Hpos speedTestUpload).
  pose proof (bo_within _ _ Hb d). pose proof (bo_used _ _ Hb d).
  pose proof (held_nonneg d _ (bo_each _ _ Hb)) as Hh. rewrite <- (bo_held _ _ Hb d) in Hh.
  split_and!; try lia; destruct d; lia.
Qed.

Lemma available_eq b d : budget_ok limit b → available b d = sb_limits b d - sb_used b d - sb_reserved b d ∧ 0 <= available b d.
Proof using Hlimit.
  intros Hb. pose proof (budget_bounds b d Hb). unfold available. unfold in64, min64, max64 in Hlimit.
  rewrite !wrap64_small; unfold in64, min64, max64; rewrite ?wrap64_small; unfold in64, min64, max64; lia.
Qed.

Lemma new_budget_ok : budget_ok limit (newSpeedTestBudget limit).
Proof using Hlimit.
  unfold in64, min64, max64 in Hlimit. set (l := Z.max 0 limit). set (p := Z.min (Z.quot l 16) (512 * 1024)).
  assert (0 <= p <= l) as Hp.
  { unfold p. pose proof (Z.quot_pos l 16). pose proof (Z.quot_le_upper_bound l 16 l). lia. }
  pose proof (Z.quot_pos (l - p) 2). pose proof (Z.quot_le_upper_bound (l - p) 2 (l - p)).
  assert (wrap64 (l - p) = l - p) as E1 by (apply wrap64_small; unfold in64, min64, max64; lia).
  assert (wrap64 (l - p - Z.quot (l - p) 2) = l - p - Z.quot (l - p) 2) as E2
    by (apply wrap64_small; unfold in64, min64, max64; lia).
  unfold newSpeedTestBudget. fold l. fold p. rewrite E1, E2. split; cbn; try done.
  - lia.
  - intros []; lia.
  - intros []; lia.
Qed.

Lemma reserve_amount_le b d wanted unit : budget_ok limit b → reserve_amount b d wanted unit <= available b d.
Proof using Hlimit.
  intros Hb. destruct (available_eq b d Hb) as [_ Ha]. pose proof (budget_bounds b d Hb). destruct (available_eq b d Hb) as [Hav _].
  unfold reserve_amount. case_if; [|lia]. apply Z.ltb_lt in E. set (a := Z.min (Z.max wanted 0) (available b d)).
  assert (0 <= a <= available b d) as Hr by (unfold a; lia).
  assert (Z.quot a unit * unit <= a) as Hq by (rewrite Z.mul_comm; apply Z.mul_quot_le; lia).
  assert (0 <= Z.quot a unit * unit) by (apply Z.mul_nonneg_nonneg; [apply Z.quot_pos|]; lia).
  rewrite wrap64_small; [lia|]. unfold in64, min64, max64 in *. lia.
Qed.

Lemma reserve_ok b d wanted unit : budget_ok limit b → budget_ok limit (reserve b d wanted unit).1.
Proof using Hlimit.
  intros Hb. unfold reserve. case_if; [done|]. apply Z.leb_gt in E.
  pose proof (reserve_amount_le b d wanted unit Hb) as Hle. destruct (available_eq b d Hb) as [Ha _].
  pose proof (budget_bounds b d Hb). set (n := reserve_amount b d wanted unit) in *.
  rewrite wrap64_small by (unfold in64, min64, max64 in *; lia).
  destruct Hb as [H1 H2 H3 H4 H5 H6]. split; cbn; try done.
  - intros d'. destruct (decide (d' = d)) as [->|Hne]; [rewrite put_eq; lia | by rewrite put_ne].
  - intros d'. rewrite held_app, held_cons. change (held d' []) with 0. cbn. destruct (decide (d' = d)) as [->|Hne].
    + rewrite put_eq, decide_True, H5 by done. lia.
    + rewrite put_ne, decide_False, H5 by congruence. lia.
  - apply Forall_app. split; [done|]. apply Forall_singleton. split; cbn; [lia | done].
Qed.

Lemma consume_ok b i count : budget_ok limit b → budget_ok limit (consume b i count).1.
Proof using Hlimit.
  intros Hb. unfold consume. destruct (sb_reservations b !! i) as [r|] eqn:Er; [|done].
  case_if; [done|]. apply orb_false_iff in E as [[Hc%Z.ltb_ge Ho]%orb_false_iff Hr%Z.ltb_ge].
  set (d := rs_direction r). pose proof (held_one d _ i r (bo_each _ _ Hb) Er eq_refl) as Hone. rewrite <- (bo_held _ _ Hb d) in Hone.
  pose proof (budget_bounds b d Hb) as Hbd. destruct Hb as [H1 H2 H3 H4 H5 H6].
  destruct (Forall_lookup_1 _ _ _ _ H6 Er) as [Hrem Hcl]. unfold in64, min64, max64 in Hlimit.
  rewrite !wrap64_small by (unfold in64, min64, max64; lia). split; cbn; try done.
  - intros d'. destruct (decide (d' = d)) as [->|Hne]; [rewrite put_eq; lia | by rewrite put_ne].
  - intros d'. destruct (decide (d' = d)) as [->|Hne]; [rewrite !put_eq; lia | by rewrite !put_ne].
  - intros d'. rewrite (held_insert _ _ _ r) by done. cbn. rewrite <- H5. destruct (decide (d' = d)) as [->|Hne].
    + rewrite put_eq, decide_True by done. lia.
    + rewrite put_ne, decide_False by (unfold d in *; congruence). lia.
  - apply Forall_insert; [done|]. split; cbn; [lia | intros; congruence].
Qed.

Lemma release_ok b i : budget_ok limit b → budget_ok limit (release b i).
Proof using Hlimit.
  intros Hb. unfold release. destruct (sb_reservations b !! i) as [r|] eqn:Er; [|done]. destruct (rs_closed r) eqn:Ec; [done|].
  set (d := rs_direction r). pose proof (held_one d _ i r (bo_each _ _ Hb) Er eq_refl) as Hone. rewrite <- (bo_held _ _ Hb d) in Hone.
  pose proof (budget_bounds b d Hb) as Hbd. destruct Hb as [H1 H2 H3 H4 H5 H6].
  destruct (Forall_lookup_1 _ _ _ _ H6 Er) as [Hrem Hcl]. unfold in64, min64, max64 in Hlimit.
  rewrite !wrap64_small by (unfold in64, min64, max64; lia). split; cbn; try done.
  - intros d'. destruct (decide (d' = d)) as [->|Hne]; [rewrite put_eq; lia | by rewrite put_ne].
  - intros d'. rewrite (held_insert _ _ _ r) by done. cbn. rewrite <- H5. destruct (decide (d' = d)) as [->|Hne].
    + rewrite put_eq, decide_True by done. lia.
    + rewrite put_ne, decide_False by (unfold d in *; congruence). lia.
  - apply Forall_insert; [done|]. split; cbn; [lia | done].
Qed.

Lemma budget_run_ok ops : budget_ok limit (budget_run limit ops).
Proof using Hlimit.
  unfold budget_run. generalize (new_budget_ok). generalize (newSpeedTestBudget limit).
  induction ops as [|[d wanted unit|i count|i] ops IH]; intros b Hb; cbn; [done|..]; apply IH;
    [by apply reserve_ok | by apply consume_ok | by apply release_ok].
Qed.

Lemma accounted_new : accounted (newSpeedTestBudget limit) [].
Proof using Type. split; cbn; [done | done | |]; intros t Ht; by apply elem_of_nil in Ht. Qed.

Lemma accounted_reserve b ts d wanted unit : accounted b ts → accounted (reserve b d wanted unit).1 ts.
Proof using Type.
  intros [Hu He Hk Hp]. unfold reserve. case_if; [by split|]. split; cbn; [done | | | done].
  - intros i r Hi. apply lookup_snoc_Some in Hi as [[Hlt Hi]|[-> <-]]; [by apply He|]. cbn.
    rewrite moved_none; [lia|]. intros t Ht. apply bool_decide_eq_false. specialize (Hk t Ht). lia.
  - intros t Ht. rewrite length_app. specialize (Hk t Ht). lia.
Qed.

Lemma accounted_release b ts i : budget_ok limit b → accounted b ts → accounted (release b i) ts.
Proof using Type.
  intros Hb [Hu He Hk Hp]. unfold release. destruct (sb_reservations b !! i) as [r|] eqn:Er; [|by split].
  destruct (rs_closed r) eqn:Ec; [by split|].
  destruct (Forall_lookup_1 _ _ _ _ (bo_each _ _ Hb) Er) as [Hrem _].
  split; cbn; [done | | by rewrite length_insert | done].
  intros j r' Hj. apply list_lookup_insert_Some in Hj as [(<- & <- & Hlt)|[Hne Hj]]; [|by apply He]. cbn.
  destruct (He i r Er). split; [lia | done].
Qed.

Lemma accounted_consume b ts i count : budget_ok limit b → accounted b ts →
  accounted (consume b i count).1 (ts ++ passes b (Consume i count)).
Proof using Hlimit.
  intros Hb [Hu He Hk Hp]. cbn [passes]. pose proof (consume_ok b i count Hb) as Hb'. unfold consume in *.
  destruct (sb_reservations b !! i) as [r|] eqn:Er; [|rewrite app_nil_r; by split].
  case_if; [rewrite app_nil_r; by split|]. apply orb_false_iff in E as [[Hc%Z.ltb_ge Ho]%orb_false_iff Hr%Z.ltb_ge].
  pose proof (budget_bounds b (rs_direction r) Hb) as Hbd. pose proof (held_one _ _ i r (bo_each _ _ Hb) Er eq_refl) as Hone.
  rewrite <- (bo_held _ _ Hb) in Hone. destruct (Forall_lookup_1 _ _ _ _ (bo_each _ _ Hb) Er) as [Hrem Hcl].
  unfold in64, min64, max64 in Hlimit.
  cbn [fst snd]. rewrite !wrap64_small by (unfold in64, min64, max64; lia).
  split; cbn [sb_used sb_reservations].
  - intros d. rewrite moved_app, moved_cons, <- Hu. change (moved (towards d) []) with 0. unfold towards, put. cbn.
    repeat case_decide; repeat case_bool_decide; subst; done || lia.
  - intros j r' Hj. rewrite moved_app, moved_cons. change (moved (from j) []) with 0. change (from j _) with (bool_decide (i = j)). cbn.
    apply list_lookup_insert_Some in Hj as [(<- & <- & Hlt)|[Hne Hj]]; cbn.
    + rewrite bool_decide_true by done. destruct (He i r Er) as [H1 H2]. specialize (H2 Ho).
      split; [|intros _]; lia.
    + rewrite bool_decide_false by done. by rewrite Z.add_0_l, Z.add_0_r; apply He.
  - intros t [Ht | ->%list_elem_of_singleton]%elem_of_app; rewrite length_insert; [by apply Hk|]. cbn. by eapply lookup_lt_Some.
  - intros t [Ht | ->%list_elem_of_singleton]%elem_of_app; [by apply Hp | done].
Qed.

Lemma accounted_run ops : accounted (budget_run limit ops) (transfers (newSpeedTestBudget limit) ops).
Proof using Hlimit.
  induction ops as [|op ops IH] using rev_ind; [apply accounted_new|].
  rewrite transfers_snoc. unfold budget_run in *. rewrite foldl_app. cbn [foldl].
  pose proof (budget_run_ok ops : budget_ok limit (foldl budget_step _ ops)) as Hb.
  destruct op as [d wanted unit|i count|i]; cbn [budget_step].
  - cbn [passes]. rewrite app_nil_r. by apply accounted_reserve.
  - by apply accounted_consume.
  - cbn [passes]. rewrite app_nil_r. by apply accounted_release.
Qed.

(** What is reserved is the most whole units of what is asked for and left. *)
Lemma reserve_grants b d wanted unit : budget_ok limit b →
  let asked := Z.min (Z.max wanted 0) (available b d) in
  let u := Z.max 1 unit in
  ((reserve b d wanted unit).2 = false → (reserve b d wanted unit).1 = b ∧ asked < u) ∧
  ((reserve b d wanted unit).2 = true → ∃ n, 0 < n ∧ (u | n) ∧ n <= asked < n + u ∧
    sb_used (reserve b d wanted unit).1 = sb_used b ∧
    sb_reservations (reserve b d wanted unit).1 =
      sb_reservations b ++ [{| rs_direction := d; rs_amount := n; rs_remaining := n; rs_closed := false |}]).
Proof using Hlimit.
  intros Hb asked u. destruct (available_eq b d Hb) as [Ha Ha0]. pose proof (budget_bounds b d Hb).
  assert (0 <= asked <= available b d) as Hasked by (unfold asked; lia).
  assert (reserve_amount b d wanted unit = Z.quot asked u * u) as Hn.
  { unfold reserve_amount. fold asked. unfold u. destruct (Z.ltb_spec 1 unit) as [Hu|Hu].
    - rewrite Z.max_r by lia. assert (Z.quot asked unit * unit <= asked) by (rewrite Z.mul_comm; apply Z.mul_quot_le; lia).
      assert (0 <= Z.quot asked unit * unit) by (apply Z.mul_nonneg_nonneg; [apply Z.quot_pos|]; lia).
      apply wrap64_small. unfold in64, min64, max64 in *. lia.
    - by rewrite Z.max_l, Z.quot_1_r, Z.mul_1_r by lia. }
  pose proof (Z.quot_rem' asked u) as Hdiv. pose proof (Z.rem_bound_pos asked u ltac:(lia) ltac:(lia)) as Hrem.
  pose proof (Z.quot_pos asked u ltac:(lia) ltac:(lia)).
  unfold reserve. rewrite Hn. destruct (Z.leb_spec (Z.quot asked u * u) 0) as [Hz|Hz]; cbn; (split; [|]); try done; intros _.
  - split; [done|]. nia.
  - exists (Z.quot asked u * u). split_and!; [done | by apply Z.divide_factor_r | lia | lia | done | done].
Qed.

Lemma spent_used b : budget_ok limit b → spent b = sb_used b speedTestProbe + sb_used b speedTestDownload + sb_used b speedTestUpload.
Proof using Hlimit.
  intros Hb. pose proof (λ d, budget_bounds b d Hb) as Hbd. pose proof (bo_limits _ _ Hb).
  pose proof (Hbd speedTestProbe). pose proof (Hbd speedTestDownload). pose proof (Hbd speedTestUpload).
  unfold in64, min64, max64 in Hlimit. unfold spent.
  rewrite (wrap64_small (_ + sb_used b speedTestDownload)) by (unfold in64, min64, max64; lia).
  by rewrite wrap64_small by (unfold in64, min64, max64; lia).
Qed.

Lemma spent_limit b : budget_ok limit b → spent b <= Z.max 0 limit.
Proof using Hlimit.
  intros Hb. rewrite spent_used by done. pose proof (λ d, budget_bounds b d Hb) as Hbd. pose proof (bo_limits _ _ Hb).
  pose proof (Hbd speedTestProbe). pose proof (Hbd speedTestDownload). pose proof (Hbd speedTestUpload). lia.
Qed.

Lemma held_closed d rs : Forall reservation_ok rs → Forall (λ r, rs_closed r = true) rs → held d rs = 0.
Proof using Type.
  induction 1 as [|r rs [_ Hr] He IH]; intros Hclosed; [done|]. apply Forall_cons in Hclosed as [Hc Hclosed].
  rewrite held_cons, IH, Hr by done. by case_decide.
Qed.

Lemma consume_accepts b i count : budget_ok limit b → (consume b i count).2 = true ↔
  ∃ r, sb_reservations b !! i = Some r ∧ rs_closed r = false ∧ 0 <= count <= rs_remaining r ∧ rs_remaining r <= rs_amount r.
Proof using Type.
  intros Hb. unfold consume. destruct (sb_reservations b !! i) as [r|] eqn:Er; [|split; [done | by intros (r & [=] & _)]].
  destruct (Forall_lookup_1 _ _ _ _ (bo_each _ _ Hb) Er) as [Hrem _]. case_if; cbn.
  - split; [done|]. intros (r' & [= <-] & Ho & Hc & _). exfalso.
    rewrite !orb_true_iff, !Z.ltb_lt in E. destruct E as [[?|?]|?]; [lia | congruence | lia].
  - apply orb_false_iff in E as [[Hc%Z.ltb_ge Ho]%orb_false_iff Hr%Z.ltb_ge]. split; [|done]. intros _. exists r. split_and!; done || lia.
Qed.

Lemma release_returns b i r : budget_ok limit b → sb_reservations b !! i = Some r → rs_closed r = false →
  sb_used (release b i) = sb_used b ∧
  (∀ d, available (release b i) d = available b d + (if decide (d = rs_direction r) then rs_remaining r else 0)) ∧
  ∃ r', sb_reservations (release b i) !! i = Some r' ∧ rs_closed r' = true ∧ rs_amount r' = rs_amount r.
Proof using Hlimit.
  intros Hb Hi Ho. pose proof (release_ok b i Hb) as Hb'. split_and!.
  - unfold release. by rewrite Hi, Ho.
  - intros d. rewrite (proj1 (available_eq _ d Hb)), (proj1 (available_eq _ d Hb')).
    pose proof (held_one _ _ i r (bo_each _ _ Hb) Hi eq_refl) as Hone. rewrite <- (bo_held _ _ Hb) in Hone.
    pose proof (budget_bounds b (rs_direction r) Hb) as Hbd. destruct (Forall_lookup_1 _ _ _ _ (bo_each _ _ Hb) Hi) as [Hrem _].
    unfold release. rewrite Hi, Ho. cbn. unfold in64, min64, max64 in Hlimit.
    rewrite wrap64_small by (unfold in64, min64, max64; lia). unfold put. case_decide; subst; lia.
  - unfold release. rewrite Hi, Ho. cbn. rewrite list_lookup_insert_eq by (by eapply lookup_lt_Some). by eexists.
Qed.

(** C38: a speed test never transfers more than its limit. However its workers
    reserve, consume and release, the bytes that consuming let pass are no
    more than the limit in all, no more than its share in each direction, and
    no more than its amount against each reservation; the shares add up to the
    limit. The budget's counters tell just that: what is used is what passed,
    and what is reserved is what the open reservations still hold, so that
    releasing them all gives it back. A reservation is the most whole units of
    what is asked for and left, refused only when not a unit is; it is
    consumed up to its amount, never past it or after its release. Nothing
    overflows on the way. *)
Theorem speed_budget_bounds ops :
  let b := budget_run limit ops in
  let ts := transfers (newSpeedTestBudget limit) ops in
  spent b <= Z.max 0 limit ∧
  (∀ d, 0 <= sb_used b d ∧ sb_used b d + sb_reserved b d <= sb_limits b d ∧ available b d = sb_limits b d - sb_used b d - sb_reserved b d) ∧
  sb_limits b speedTestProbe + sb_limits b speedTestDownload + sb_limits b speedTestUpload = Z.max 0 limit ∧
  (∀ d, sb_reserved b d = held d (sb_reservations b)) ∧
  (Forall (λ r, rs_closed r = true) (sb_reservations b) → ∀ d, sb_reserved b d = 0) ∧
  (∀ i count, (consume b i count).2 = true ↔
    ∃ r, sb_reservations b !! i = Some r ∧ rs_closed r = false ∧ 0 <= count <= rs_remaining r ∧ rs_remaining r <= rs_amount r) ∧
  (** the bytes that passed *)
  moved (λ _, true) ts = spent b ∧ moved (λ _, true) ts <= Z.max 0 limit ∧
  (∀ t, t ∈ ts → 0 <= tr_bytes t) ∧
  (∀ d, moved (towards d) ts = sb_used b d ∧ moved (towards d) ts <= sb_limits b d) ∧
  (∀ i r, sb_reservations b !! i = Some r → moved (from i) ts <= rs_amount r - rs_remaining r <= rs_amount r ∧
    (rs_closed r = false → moved (from i) ts = rs_amount r - rs_remaining r)) ∧
  (** what a worker is granted *)
  (∀ d wanted unit,
    let asked := Z.min (Z.max wanted 0) (available b d) in
    let u := Z.max 1 unit in
    let '(b', granted) := reserve b d wanted unit in
    if granted then
      ∃ n, 0 < n ∧ (u | n) ∧ n <= asked < n + u ∧ sb_used b' = sb_used b ∧
        sb_reservations b' = sb_reservations b ++
          [{| rs_direction := d; rs_amount := n; rs_remaining := n; rs_closed := false |}]
    else b' = b ∧ asked < u) ∧
  (** what is given back *)
  (∀ i r, sb_reservations b !! i = Some r → rs_closed r = false →
    sb_used (release b i) = sb_used b ∧
    (∀ d, available (release b i) d = available b d + (if decide (d = rs_direction r) then rs_remaining r else 0)) ∧
    ∃ r', sb_reservations (release b i) !! i = Some r' ∧ rs_closed r' = true ∧ rs_amount r' = rs_amount r).
Proof using Hlimit.
  intros b ts. pose proof (budget_run_ok ops : budget_ok limit b) as Hb. pose proof (accounted_run ops : accounted b ts) as Hac.
  pose proof (spent_used b Hb) as Hspent. pose proof (λ d, budget_bounds b d Hb) as Hbd.
  assert (moved (λ _, true) ts = spent b) as Hmoved by (by rewrite Hspent, moved_split, !(ac_used _ _ Hac)).
  pose proof (spent_limit b Hb). split_and!; try done.
  - intros d. destruct (available_eq b d Hb). specialize (Hbd d). lia.
  - apply Hb.
  - apply Hb.
  - intros Hclosed d. rewrite (bo_held _ _ Hb d). by apply held_closed, Hclosed; apply Hb.
  - intros i count. by apply consume_accepts.
  - lia.
  - apply Hac.
  - intros d. rewrite (ac_used _ _ Hac). specialize (Hbd d). rewrite (ac_used _ _ Hac) in Hbd. lia.
  - intros i r Hi. destruct (ac_each _ _ Hac i r Hi). destruct (Forall_lookup_1 _ _ _ _ (bo_each _ _ Hb) Hi). split; [lia | done].
  - intros d wanted unit asked u. destruct (reserve_grants b d wanted unit Hb) as [H0 H1].
    destruct (reserve b d wanted unit) as [b' []]; [by apply H1 | by apply H0].
  - intros i r Hi Ho. by apply release_returns.
Qed.
End run.

Definition sample_ops : list budget_op :=
  [Reserve speedTestDownload 1000 0; Consume 0 400; Release 0; Consume 0 1; Reserve speedTestProbe 100 64].

Lemma sample_limit : in64 32000000.
Proof. split; [vm_compute | vm_compute]; discriminate. Qed.

(** What passed of it: the 400 bytes consumed before the release. *)
Example sample_transfers : transfers (newSpeedTestBudget 32000000) sample_ops =
  [{| tr_reservation := 0; tr_direction := speedTestDownload; tr_bytes := 400 |}].
Proof. vm_compute. reflexivity. Qed.

Lemma speed_budget_bounds_witness :
  spent (budget_run 32000000 sample_ops) = 400 ∧
  moved (λ _, true) (transfers (newSpeedTestBudget 32000000) sample_ops) <= 32000000.
Proof.
  destruct (speed_budget_bounds 32000000 sample_limit sample_ops) as (_ & _ & _ & _ & _ & _ & _ & Hmoved & _).
  split; [vm_compute; reflexivity | exact Hmoved].
Defined.

(** ** An upload sends its reservation *)

Section upload.
Context {A : Type} (payload : list A).

(** Endless repetitions of the payload. *)
Definition repeated (k : nat) : option A := payload !! (k mod length payload)%nat.

Lemma fill_spec fuel : ∀ offset count, payload ≠ [] → (offset < length payload)%nat → (count <= fuel)%nat →
  let '(bytes, offset') := fill fuel payload offset count in
  length bytes = count ∧ offset' = ((offset + count) mod length payload)%nat ∧
  ∀ k, (k < count)%nat → bytes !! k = repeated (offset + k).
Proof.
  induction fuel as [|fuel IH]; intros offset count Hne Ho Hc; cbn [fill].
  { assert (count = 0%nat) as -> by lia. rewrite Nat.add_0_r, Nat.mod_small by done. split_and!; [done..|lia]. }
  case_if. { apply Nat.eqb_eq in E as ->. rewrite Nat.add_0_r, Nat.mod_small by done. split_and!; [done..|lia]. }
  apply Nat.eqb_neq in E. set (chunk := take count (drop offset payload)).
  assert (length chunk = Nat.min count (length payload - offset)) as Hl by (unfold chunk; by rewrite length_take, length_drop).
  assert (0 < length payload)%nat as Hpos by lia.
  specialize (IH ((offset + length chunk) mod length payload)%nat (count - length chunk)%nat Hne).
  specialize (IH ltac:(apply Nat.mod_upper_bound; lia) ltac:(lia)).
  destruct (fill fuel payload _ _) as [rest offset']. destruct IH as (Hlen & -> & Hbytes). split_and!.
  - rewrite length_app. lia.
  - rewrite Nat.Div0.add_mod_idemp_l. f_equal. lia.
  - intros k Hk. destruct (decide (k < length chunk)%nat) as [Hin|Hout].
    + rewrite lookup_app_l by done. unfold chunk, repeated. rewrite lookup_take_lt, lookup_drop by lia.
      by rewrite Nat.mod_small by lia.
    + rewrite lookup_app_r by lia. rewrite Hbytes by lia. unfold repeated. rewrite Nat.Div0.add_mod_idemp_l.
      f_equal. f_equal. lia.
Qed.
End upload.

(** A sequence of reads: what they sent, and whether none failed. *)
Fixpoint body_reads {A} (payload : list A) (b : speedTestBudget) (body : uploadBody) (sizes : list Z)
    : speedTestBudget * uploadBody * list A * bool :=
  match sizes with
  | [] => (b, body, [], true)
  | size :: sizes =>
      let '(b, body, r) := body_read payload b body size in
      match r with
      | ReadError => (b, body, [], false)
      | ReadEOF => let '(b, body, sent, ok) := body_reads payload b body sizes in (b, body, sent, ok)
      | ReadBytes bytes => let '(b, body, sent, ok) := body_reads payload b body sizes in (b, body, bytes ++ sent, ok)
      end
  end.

Section sends.
Context {A : Type} (payload : list A) (Hpayload : payload ≠ []).

(** An open body in step with its reservation, which nothing else consumes. *)
Record in_step (b : speedTestBudget) (body : uploadBody) (r : reservation) : Prop := {
  is_found : sb_reservations b !! ub_reservation body = Some r;
  is_open : rs_closed r = false ∧ ub_closed body = false;
  is_small : 0 <= rs_amount r <= max64;
  is_sent : 0 <= ub_sent body ∧ ub_sent body + rs_remaining r = rs_amount r ∧ 0 <= rs_remaining r;
  is_offset : ub_offset body = (Z.to_nat (ub_sent body) mod length payload)%nat;
}.

Lemma body_read_step b body r size : in_step b body r → 0 <= size →
  let n := Z.min size (rs_amount r - ub_sent body) in
  (rs_remaining r = 0 ∧ body_read payload b body size = (b, body, ReadEOF)) ∨
  ∃ b' body' r' bytes, body_read payload b body size = (b', body', ReadBytes bytes) ∧ in_step b' body' r' ∧
    ub_sent body' = ub_sent body + n ∧ rs_amount r' = rs_amount r ∧ length bytes = Z.to_nat n ∧
    ∀ k, (k < length bytes)%nat → bytes !! k = repeated payload (Z.to_nat (ub_sent body) + k).
Proof using Hpayload.
  intros [Hf [Ho Hcl] Hsm (Hs0 & Hs & Hr) Hoff] Hsize n. unfold max64 in Hsm.
  unfold body_read. rewrite Hf, Hcl. cbn [orb]. case_if.
  { left. apply Z.eqb_eq in E. split; [lia | done]. }
  right. apply Z.eqb_neq in E.
  rewrite (wrap64_small (rs_amount r - ub_sent body)) by (unfold in64, min64, max64; lia). fold n.
  assert (0 <= n <= rs_amount r - ub_sent body) as Hn by (unfold n; lia). clearbody n.
  assert (length payload ≠ 0%nat) as Hl by (intros Hz; by apply Hpayload, length_zero_iff_nil).
  pose proof (fill_spec payload (Z.to_nat n) (ub_offset body) (Z.to_nat n) Hpayload) as Hfill.
  destruct (fill (Z.to_nat n) payload (ub_offset body) (Z.to_nat n)) as [bytes offset].
  destruct Hfill as (Hlen & Hoffset & Hbytes); [rewrite Hoff; by apply Nat.mod_upper_bound | done |].
  unfold consume. cbn [ub_reservation]. rewrite Hf, Ho.
  rewrite (proj2 (Z.ltb_ge n 0)), (proj2 (Z.ltb_ge (rs_remaining r) n)) by lia. cbn.
  assert (wrap64 (rs_remaining r - n) = rs_remaining r - n) as Hw1 by (apply wrap64_small; unfold in64, min64, max64; lia).
  assert (wrap64 (ub_sent body + n) = ub_sent body + n) as Hw2 by (apply wrap64_small; unfold in64, min64, max64; lia).
  eexists _, _, {| r with rs_remaining := (rs_remaining r -i n)%go |}, bytes. split_and!; [done|..].
  - rewrite Hw1, Hw2. split; cbn; try done; [|lia|].
    + rewrite list_lookup_insert_eq by (by eapply lookup_lt_Some). by rewrite Ho.
    + subst offset. rewrite Hoff, Nat.Div0.add_mod_idemp_l. f_equal. lia.
  - done.
  - done.
  - done.
  - intros k Hk. rewrite Hbytes by lia. unfold repeated. rewrite Hoff, Nat.Div0.add_mod_idemp_l. done.
Qed.

Lemma body_reads_spec sizes : ∀ b body r, in_step b body r → Forall (λ size, 0 <= size) sizes →
  let '(_, body', sent, ok) := body_reads payload b body sizes in
  ok = true ∧ ub_sent body' = ub_sent body + Z.of_nat (length sent) ∧
  Z.of_nat (length sent) = Z.min (foldr Z.add 0 sizes) (rs_amount r - ub_sent body) ∧
  ∀ k, (k < length sent)%nat → sent !! k = repeated payload (Z.to_nat (ub_sent body) + k).
Proof using Hpayload.
  induction sizes as [|size sizes IH]; intros b body r Hin Hsizes; cbn [body_reads foldr].
  { destruct Hin as [_ _ _ (?&?&?) _]. cbn. split_and!; [done|lia|lia|lia]. }
  apply Forall_cons in Hsizes as [Hsize Hsizes].
  assert (0 <= foldr Z.add 0 sizes) as Hsum by (clear -Hsizes; induction Hsizes; cbn; lia).
  pose proof (is_sent _ _ _ Hin) as (Hs0 & Hs & Hr).
  destruct (body_read_step b body r size Hin Hsize) as [[Hrem ->]|(b' & body' & r' & bytes & -> & Hin' & Hs' & Ha' & Hlen & Hbytes)].
  - specialize (IH b body r Hin Hsizes). destruct (body_reads payload b body sizes) as [[[b2 body2] sent] ok].
    destruct IH as (-> & Hs2 & Hl2 & Hk). split_and!; [done | done | lia | done].
  - specialize (IH b' body' r' Hin' Hsizes). destruct (body_reads payload b' body' sizes) as [[[b2 body2] sent] ok].
    destruct IH as (-> & Hs2 & Hl2 & Hk). rewrite length_app. split_and!; [done | lia | lia |].
    intros k Hlt. destruct (decide (k < length bytes)%nat) as [Hi|Hi].
    + by rewrite lookup_app_l, Hbytes by lia.
    + rewrite lookup_app_r, Hk by lia. f_equal. lia.
Qed.

(** an upload sends its reservation and not a byte more. The body of a
    reservation just granted, read in whatever pieces the transport asks for,
    never fails and sends exactly as many bytes as were asked for, up to the
    amount reserved and the end of the body; byte [k] is byte [k] of the
    payload repeated without end, wherever the reads were cut. *)
Theorem upload_sends_reservation b i r sizes :
  sb_reservations b !! i = Some r → rs_closed r = false → 0 <= rs_amount r <= max64 → rs_remaining r = rs_amount r →
  Forall (λ size, 0 <= size) sizes →
  let '(_, body, sent, ok) := body_reads payload b (new_body i) sizes in
  ok = true ∧ ub_sent body = Z.of_nat (length sent) ∧
  Z.of_nat (length sent) = Z.min (foldr Z.add 0 sizes) (rs_amount r) ∧
  ∀ k, (k < length sent)%nat → sent !! k = payload !! (k mod length payload)%nat.
Proof using Hpayload.
  intros Hi Ho Ha Hr Hsizes.
  assert (in_step b (new_body i) r) as Hin.
  { split; [done | done | done | cbn; lia |]. cbn. destruct (length payload) eqn:E; [done|]. by rewrite Nat.Div0.mod_0_l. }
  pose proof (body_reads_spec sizes b (new_body i) r Hin Hsizes) as H.
  destruct (body_reads payload b (new_body i) sizes) as [[[b' body] sent] ok]. destruct H as (Hok & Hs & Hl & Hk).
  cbn in *. split_and!; [done | cbn in *; lia | cbn in *; lia | done].
Qed.
End sends.

Definition upload_sample : speedTestBudget := (reserve (newSpeedTestBudget 32000000) speedTestUpload 10 0).1.

Lemma upload_sends_reservation_witness :
  let '(_, _, sent, ok) := body_reads [1; 2; 3] upload_sample (new_body 0) [4; 0; 5; 9; 9] in
  ok = true ∧ length sent = 10%nat ∧ sent !! 9%nat = Some 1.
Proof.
  generalize (upload_sends_reservation [1; 2; 3] ltac:(done) upload_sample 0
    {| rs_direction := speedTestUpload; rs_amount := 10; rs_remaining := 10; rs_closed := false |} [4; 0; 5; 9; 9]
    ltac:(vm_compute; reflexivity) eq_refl ltac:(split; vm_compute; discriminate) eq_refl ltac:(repeat constructor; discriminate)).
  destruct (body_reads [1; 2; 3] upload_sample (new_body 0) [4; 0; 5; 9; 9]) as [[[b' body] sent] ok].
  intros (Hok & _ & Hlen & Hk). assert (length sent = 10%nat) as Hl by (cbn in Hlen; lia).
  split; [exact Hok|]. split; [exact Hl|]. rewrite (Hk 9%nat); [reflexivity | lia].
Defined.
