(* ===== verification/PolicyFacts.v ===== *)
(** * Facts about compiled policies

    A policy is closed: whatever its conditions read, the policy declares;
    and what it contacts is declared by a profile the user chose, or
    allowed. *)

From S2P Require Import Prelude GoText Cond CondSyntax CondSyntaxFacts Profile Policy Library.

(** ** Closed policies *)

(** Every policy of a compiled profile. *)
Definition policies (p : LayeredPolicy) : list Policy := lp_Base p :: (map_to_list (lp_On p)).*2.

Definition node_conditions (p : Policy) : list (option Cond) := pl_Include p :: pl_Exclude p :: (ti_When <$> pl_Tiers p).
Definition network_conditions (p : Policy) : list (option Cond) := pl_DirectSplit p :: (kr_When <$> pl_Kinds p).

(** A condition over nodes reads tags, checks and the exit the policy knows
    of; one over the network reads its diagnostics and nothing of a node. *)
Definition reads_declared (p : Policy) (n : condNode) : Prop :=
  match n with
  | tagNode t => t ∈ (nc_Name <$> pl_Tags p)
  | checkNode c _ => c ∈ pl_CheckIDs p ∧ is_Some (pl_Checks p !! c)
  | diagNode _ _ => False
  | stringNode f _ _ _ => f = "exit.country"%string → pl_UsesExit p = true
  | _ => True
  end.

Definition reads_network (p : Policy) (n : condNode) : Prop :=
  match n with
  | diagNode d _ => is_Some (pl_Diagnostics p !! d)
  | tagNode _ | checkNode _ _ | numberNode _ _ => False
  | boolNode f | stringNode f _ _ _ => ∃ k, condFields !! f = Some (k, netField)
  | _ => True
  end.

(** A tag is defined without tags, checks and diagnostics, so no tag refers
    to another. *)
Definition reads_plain (n : condNode) : Prop :=
  match n with tagNode _ | checkNode _ _ | diagNode _ _ => False | _ => True end.

Record policy_closed (p : Policy) : Prop := {
  pc_nodes : Forall (λ c, Forall (reads_declared p) (walk c)) (node_conditions p);
  pc_network : Forall (λ c, Forall (reads_network p) (walk c)) (network_conditions p);
  pc_tags : Forall (λ t, Forall reads_plain (walk (nc_Cond t))) (pl_Tags p);
  pc_checks : ∀ c, c ∈ pl_CheckIDs p ↔ ∃ state, checkNode c state ∈ (node_conditions p ≫= walk);
  pc_tiers : pl_Tiers p ≠ [];
  pc_sources : NoDup (ti_Source <$> pl_Tiers p);
  pc_last : ∀ i j a b, (i < j)%nat → pl_Tiers p !! i = Some a → pl_Tiers p !! j = Some b →
    ti_LastResort a = true → ti_LastResort b = true;
  pc_defaults : pl_RankBy p ≠ "" ∧ pl_Stranded p ≠ "" ∧ pl_Energy p ≠ "" ∧
    eg_Echo (pl_Egress p) ≠ [] ∧ eg_Agree (pl_Egress p) ≠ 0;
}.

Section closed.
Context `{U : Unicode} `{R : Regexp}.

Lemma collect_elem {A B} (f : nat → A → result profileError B) l b : ∀ i bs, collect f i l = Ok bs → b ∈ bs →
  ∃ i a, a ∈ l ∧ f i a = Ok b.
Proof.
  induction l as [|a l IH]; intros i bs; cbn [collect]; [intros [= <-] ?%elem_of_nil; done|].
  intros (b' & Hb' & (bs' & Hbs & E')%result_bind_Ok)%result_bind_Ok. simplify_eq.
  intros [->|Hb]%elem_of_cons; [exists i, a; set_solver|].
  destruct (IH _ _ Hbs Hb) as (j & a' & Ha' & Hf). exists j, a'. set_solver.
Qed.

Lemma cond_at_wf scope text format args path c :
  cond_at scope text format args path = Ok c → Forall (node_wf scope) (walk c).
Proof.
  unfold cond_at. destruct (parseCond scope text) as [[c'|]|] eqn:E; intros Hc; simplify_eq; [|constructor].
  by eapply parseCond_wf_root.
Qed.

Lemma ParseCond_wf text c : ParseCond text None = Ok c →
  Forall (node_wf {| cs_tags := None; cs_checks := ∅; cs_diags := None |}) (walk c).
Proof.
  unfold ParseCond. destruct (parseCond _ text) as [[c'|]|] eqn:E; intros Hc; simplify_eq; [|constructor].
  by eapply parseCond_wf_root.
Qed.

Lemma plain_node n : node_wf {| cs_tags := None; cs_checks := ∅; cs_diags := None |} n → reads_plain n.
Proof. destruct n; cbn; try done; [intros [? _]; done | intros [? _]; set_solver]. Qed.

Lemma last_resort_preorder : total_preorder last_resort_order.
Proof.
  split; unfold last_resort_order.
  - intros a b. destruct (ti_LastResort a), (ti_LastResort b); cbn; lia.
  - intros a b. by destruct (ti_LastResort a), (ti_LastResort b).
  - intros a b c. destruct (ti_LastResort a), (ti_LastResort b), (ti_LastResort c); cbn; lia.
Qed.

(** ** The parts of [compileProfile] *)

Lemma compileTags_spec tags out : compileTags tags = Ok out →
  nc_Name <$> out = sorted_keys tags ∧ Forall (λ t, Forall reads_plain (walk (nc_Cond t))) out.
Proof.
  unfold compileTags. generalize 0%nat. generalize (sorted_keys tags).
  intros l. revert out. induction l as [|name l IH]; intros out i; cbn [collect]; [intros [= <-]; by split|].
  intros (t & Ht & (ts & Hts & E')%result_bind_Ok)%result_bind_Ok. simplify_eq.
  apply result_bind_Ok in Ht as (c & Hc & E'). simplify_eq. destruct (IH _ _ Hts) as [Hn Hf]. cbn.
  split; [by rewrite Hn|]. constructor; [|done].
  destruct (ParseCond _ _) as [c'|] eqn:Ec; simplify_eq.
  eapply Forall_impl; [by eapply ParseCond_wf|]. apply plain_node.
Qed.

Record tiers_ok (scope : condScope) (ts : list Tier) : Prop := {
  to_when : Forall (λ t, Forall (λ n, node_wf scope n ∨ node_wf {| cs_tags := None; cs_checks := ∅; cs_diags := None |} n)
                     (walk (ti_When t))) ts;
  to_some : ts ≠ [];
  to_sources : NoDup (ti_Source <$> ts);
  to_last : ∀ i j a b, (i < j)%nat → ts !! i = Some a → ts !! j = Some b →
    ti_LastResort a = true → ti_LastResort b = true;
}.

Lemma compileTiers_spec scope prefer ts : compileTiers scope prefer = Ok ts → tiers_ok scope ts.
Proof.
  unfold compileTiers. intros (l & Hl & E')%result_bind_Ok. simplify_eq.
  assert (Hc : Forall (λ t, Forall (node_wf scope) (walk (ti_When t))) l ∧
               ∃ n, ti_Source <$> l = seq 0 n).
  { revert l Hl. generalize 0%nat. induction prefer as [|spec prefer IH]; intros i l; cbn [collect].
    { intros [= <-]. split; [done|]. by exists 0%nat. }
    intros (t & Ht & (l' & Hl' & E')%result_bind_Ok)%result_bind_Ok. simplify_eq.
    apply result_bind_Ok in Ht as (c & Hc & E'). simplify_eq. destruct (IH _ _ Hl') as [Hf (n & Hn)]. cbn.
    split; [constructor; [by eapply cond_at_wf | done]|]. exists (S n). cbn. by rewrite Hn. }
  destruct Hc as [Hf (n & Hn)].
  destruct (sort_stable last_resort_order l) as [|t ts] eqn:Es.
  - split; [| done | cbn; apply NoDup_singleton |].
    + constructor; [|done]. cbn. destruct (ParseCond "not dead" None) as [c|] eqn:Ec; [|constructor].
      eapply Forall_impl; [by eapply ParseCond_wf|]. by right.
    + intros [|i] [|j] a b Hij Ha Hb; [lia | done | lia | done].
  - rewrite <- Es. pose proof (sort_stable_perm last_resort_order l) as Hp. split.
    + rewrite Hp. eapply Forall_impl; [apply Hf|]. intros t' Ht'. eapply Forall_impl; [apply Ht'|]. by left.
    + by rewrite Es.
    + rewrite Hp, Hn. apply NoDup_seq.
    + intros i j a b Hij Ha Hb Hlast.
      pose proof (sorted_by_at _ _ (sort_stable_sorted _ last_resort_preorder l) i j a b Hij Ha Hb) as Hle.
      unfold last_resort_order in Hle. rewrite Hlast in Hle. by destruct (ti_LastResort b).
Qed.

Lemma compileNetwork_spec profile out : compileNetwork profile = Ok out →
  let scope := {| cs_tags := None; cs_checks := ∅; cs_diags := Some (dom (nw_Diagnose (pr_Network profile))) |} in
  cn_Diagnostics out = targets <$> nw_Diagnose (pr_Network profile) ∧
  kr_Kind <$> cn_Kinds out = ks_Kind <$> nw_Kinds (pr_Network profile) ∧
  Forall (λ k, Forall (node_wf scope) (walk (kr_When k))) (cn_Kinds out) ∧
  Forall (node_wf scope) (walk (cn_DirectSplit out)).
Proof.
  unfold compileNetwork. cbn zeta. intros (kinds & Hk & (split & Hs & E')%result_bind_Ok)%result_bind_Ok. simplify_eq.
  cbn. split; [done|]. apply and_assoc. split; [|by eapply cond_at_wf].
  revert kinds Hk. generalize 0%nat. induction (nw_Kinds _) as [|spec specs IH]; intros i kinds; cbn [collect].
  { intros [= <-]. by split. }
  intros (k & Hk & (ks & Hks & E')%result_bind_Ok)%result_bind_Ok. simplify_eq.
  apply result_bind_Ok in Hk as (c & Hc & E'). simplify_eq. destruct (IH _ _ Hks) as [Hn Hf]. cbn.
  split; [by rewrite Hn|]. constructor; [by eapply cond_at_wf | done].
Qed.

Lemma network_node diags p n : (∀ d, d ∈ diags → is_Some (pl_Diagnostics p !! d)) →
  node_wf {| cs_tags := None; cs_checks := ∅; cs_diags := Some diags |} n → reads_network p n.
Proof.
  intros Hd. destruct n as [ | | |f|t|c st|d st|f op vs re|op v]; cbn; try done.
  - intros (sc & Hf & Hs). rewrite (Hs (ltac:(done))) in Hf. by eexists.
  - intros [Ht _]. done.
  - intros [Ht _]. set_solver.
  - unfold scope_diag. cbn. intros Hb%bool_decide_eq_true. by apply Hd.
  - intros [(k & sc & Hf & _ & _ & Hs) _]. rewrite (Hs (ltac:(done))) in Hf. by eexists.
  - by intros (_ & _ & [=]).
Qed.

(** What a declared node of the pool or of a tier reads. *)
Lemma declared_node p (tags checks : gset string) n conds :
  (∀ t, t ∈ tags → t ∈ (nc_Name <$> pl_Tags p)) → (∀ c, c ∈ checks → is_Some (pl_Checks p !! c)) →
  pl_CheckIDs p = sorted_strings (elements (used_checks conds)) → pl_UsesExit p = uses_exit conds →
  n ∈ (conds ≫= walk) →
  node_wf {| cs_tags := Some tags; cs_checks := checks; cs_diags := None |} n ∨
  node_wf {| cs_tags := None; cs_checks := ∅; cs_diags := None |} n → reads_declared p n.
Proof.
  intros Ht Hc Hids Hexit Hn Hwf. destruct n as [ | | |f|t|c st|d st|f op vs re|op v]; cbn in *; try done.
  - destruct Hwf as [[Hb _]|[Hb _]]; [|done]. unfold scope_tag in Hb. cbn in Hb. bools. by apply Ht.
  - destruct Hwf as [[Hb _]|[Hb _]]; [|set_solver]. split; [|by apply Hc].
    rewrite Hids. unfold sorted_strings, used_checks. rewrite elem_of_sort_stable, elem_of_elements, elem_of_list_to_set.
    apply list_elem_of_omap. by eexists.
  - by destruct Hwf.
  - intros ->. rewrite Hexit. unfold uses_exit. apply existsb_exists. eexists. rewrite <- list_elem_of_In.
    split; [done|]. exact (eqs_refl _).
Qed.

Lemma used_checks_spec conds c :
  c ∈ sorted_strings (elements (used_checks conds)) ↔ ∃ state, checkNode c state ∈ (conds ≫= walk).
Proof.
  unfold sorted_strings, used_checks. rewrite elem_of_sort_stable, elem_of_elements, elem_of_list_to_set, list_elem_of_omap.
  split; [intros (n & Hn & E); destruct n; simplify_eq; by eexists | intros [st Hn]; by eexists].
Qed.

Lemma pick_ne v d : d ≠ 0 → pick v d ≠ 0.
Proof. unfold pick. case_if; bools; lia. Qed.

Lemma or_string_ne s d : d ≠ EmptyString → or_string s d ≠ EmptyString.
Proof. unfold or_string. case_if; [done|]. by apply empty_false in E. Qed.

Lemma compileProfile_closed id profile p : compileProfile id profile = Ok p → policy_closed p.
Proof.
  unfold compileProfile. cbn zeta. set (scope := {| cs_tags := Some (dom (pr_Tags profile)); cs_checks := _; cs_diags := None |}).
  intros (tags & Htags & (inc & Hinc & (exc & Hexc & (tiers & Htiers & (net & Hnet & E')
    %result_bind_Ok)%result_bind_Ok)%result_bind_Ok)%result_bind_Ok)%result_bind_Ok.
  apply compileTags_spec in Htags as [Hnames Hplain]. apply cond_at_wf in Hinc, Hexc.
  apply compileTiers_spec in Htiers as [Hwhen Hsome Hsources Hlast].
  apply compileNetwork_spec in Hnet as (Hdiags & _ & Hkinds & Hsplit).
  set (conds := inc :: exc :: (ti_When <$> tiers)) in *.
  assert (Hconds : node_conditions p = conds) by (by simplify_eq).
  assert (Hwf : Forall (λ c, Forall (λ n, node_wf scope n ∨ node_wf {| cs_tags := None; cs_checks := ∅; cs_diags := None |} n)
                         (walk c)) conds).
  { constructor; [|constructor]; [eapply Forall_impl; [done | by left].. | by apply Forall_fmap]. }
  assert (Hnet : ∀ n, node_wf {| cs_tags := None; cs_checks := ∅; cs_diags := Some (dom (nw_Diagnose (pr_Network profile))) |} n →
                 reads_network p n).
  { intros n. apply network_node. intros d Hd%elem_of_dom. simplify_eq. cbn. rewrite Hdiags, lookup_fmap. by apply fmap_is_Some. }
  split; rewrite ?Hconds.
  - apply Forall_forall. intros c Hc. apply Forall_forall. intros n Hn. rewrite Forall_forall in Hwf.
    specialize (Hwf c Hc). rewrite Forall_forall in Hwf.
    eapply (declared_node p (dom (pr_Tags profile)) (dom (pr_Checks profile)) n conds); [| | by simplify_eq | by simplify_eq | |].
    + intros t Ht%elem_of_dom. simplify_eq. cbn. rewrite Hnames. by apply elem_of_sorted_keys.
    + intros k Hk%elem_of_dom. by simplify_eq.
    + apply list_elem_of_bind. by exists c.
    + by apply Hwf.
  - unfold network_conditions. simplify_eq. cbn. constructor; [eapply Forall_impl; [apply Hsplit | done]|].
    apply Forall_fmap. eapply Forall_impl; [apply Hkinds|]. intros k Hk. eapply Forall_impl; [apply Hk | done].
  - by simplify_eq.
  - intros c. simplify_eq. apply used_checks_spec.
  - by simplify_eq.
  - by simplify_eq.
  - by simplify_eq.
  - simplify_eq. cbn. split_and!; [by apply or_string_ne.. | by destruct (eg_Echo _) | by apply pick_ne].
Qed.

Lemma policy_closed_fixed p fixed : policy_closed p → policy_closed {| p with pl_Fixed := fixed |}.
Proof. intros [? ? ? ? ? ? ? ?]. by split. Qed.
End closed.

(** ** What a policy contacts *)

Section contacts.
Context `{U : Unicode} `{R : Regexp} `{Ur : Url} `{PS : PublicSuffix} `{IT : IpText} `{RO : RangeOrder}.

(** Every host the engine may ask on behalf of a policy: its checks, its
    network diagnostics and its echo services. *)
Definition contacts (q : Policy) : list Endpoint :=
  (sorted_keys (pl_Checks q) ≫= check_endpoints (pl_Checks q)) ++
  (sorted_keys (pl_Diagnostics q) ≫= λ name,
     (λ t, endpoint ("diagnostic:" +:+ name) (tg_Addr t)) <$> default [] (pl_Diagnostics q !! name)) ++
  (endpoint "echo" <$> eg_Echo (pl_Egress q)).

(** Where the endpoints of a profile come from. *)
Definition from_check (checks : gmap string Check) (e : Endpoint) : Prop :=
  ∃ id c, checks !! id = Some c ∧ e ∈ check_endpoints {[id := c]} id.
Definition from_diagnostic (ds : gmap string (list Target)) (e : Endpoint) : Prop :=
  ∃ name ts t, ds !! name = Some ts ∧ t ∈ ts ∧ e = endpoint ("diagnostic:" +:+ name) (tg_Addr t).

Lemma elem_of_check_endpoints checks e :
  e ∈ (sorted_keys checks ≫= check_endpoints checks) ↔ from_check checks e.
Proof.
  rewrite list_elem_of_bind. unfold from_check, check_endpoints. split.
  - intros (id & He & [c Hc]%elem_of_sorted_keys). exists id, c. rewrite Hc in He. by rewrite lookup_singleton_eq.
  - intros (id & c & Hc & He). exists id. rewrite lookup_singleton_eq in He. rewrite Hc.
    by split; [|apply elem_of_sorted_keys; rewrite Hc].
Qed.

Lemma elem_of_diagnostics ds e :
  e ∈ (sorted_keys ds ≫= λ name, (λ t, endpoint ("diagnostic:" +:+ name) (tg_Addr t)) <$> default [] (ds !! name)) ↔
  from_diagnostic ds e.
Proof.
  rewrite list_elem_of_bind. unfold from_diagnostic. split.
  - intros (name & He & [ts Hts]%elem_of_sorted_keys). rewrite Hts in He. cbn in He.
    apply list_elem_of_fmap in He as (t & -> & Ht). by exists name, ts, t.
  - intros (name & ts & t & Hts & Ht & ->). exists name. rewrite Hts. cbn.
    split; [apply list_elem_of_fmap; by exists t|]. apply elem_of_sorted_keys. by rewrite Hts.
Qed.

Lemma elem_of_endpoints p e : e ∈ endpoints p ↔
  from_check (pr_Checks p) e ∨ from_diagnostic (targets <$> nw_Diagnose (pr_Network p)) e ∨
  e ∈ (endpoint "echo" <$> eg_Echo (pr_Egress p)).
Proof.
  unfold endpoints. rewrite !elem_of_app, elem_of_check_endpoints, <- elem_of_diagnostics.
  enough ((sorted_keys (nw_Diagnose (pr_Network p)) ≫= diagnostic_endpoints (nw_Diagnose (pr_Network p))) =
    (sorted_keys (targets <$> nw_Diagnose (pr_Network p)) ≫= λ name,
       (λ t, endpoint ("diagnostic:" +:+ name) (tg_Addr t)) <$>
       default [] ((targets <$> nw_Diagnose (pr_Network p)) !! name))) as -> by done.
  assert (sorted_keys (targets <$> nw_Diagnose (pr_Network p)) = sorted_keys (nw_Diagnose (pr_Network p))) as ->.
  { unfold sorted_keys. rewrite map_to_list_fmap, <- list_fmap_compose. done. }
  induction (sorted_keys _) as [|k ks IH]; [done|]. cbn. f_equal; [|exact IH].
  unfold diagnostic_endpoints. rewrite lookup_fmap. by destruct (nw_Diagnose _ !! k).
Qed.

Lemma elem_of_contacts q e : e ∈ contacts q ↔
  from_check (pl_Checks q) e ∨ from_diagnostic (pl_Diagnostics q) e ∨ e ∈ (endpoint "echo" <$> eg_Echo (pl_Egress q)).
Proof. unfold contacts. by rewrite !elem_of_app, elem_of_check_endpoints, elem_of_diagnostics. Qed.

(** Layering adds no endpoint of its own. *)
Lemma endpoints_merge base child e :
  e ∈ endpoints (mergeProfile base child) → e ∈ endpoints base ∨ e ∈ endpoints child.
Proof.
  rewrite !elem_of_endpoints. cbn. unfold mergeMap.
  intros [(id & c & Hc & He)|[(name & ts & t & Hts & Ht & ->)|He]].
  - apply lookup_union_Some_raw in Hc as [Hc|[_ Hc]]; [right | left]; left; by exists id, c.
  - rewrite lookup_fmap, fmap_Some in Hts. destruct Hts as (d & Hd & ->).
    apply lookup_union_Some_raw in Hd as [Hd|[_ Hd]]; [right | left]; right; left; exists name, (targets d), t;
      by rewrite lookup_fmap, Hd.
  - unfold over_list in He. destruct (eg_Echo (pr_Egress child)); tauto.
Qed.

Lemma endpoints_silent p : pr_Checks p = ∅ → nw_Diagnose (pr_Network p) = ∅ → eg_Echo (pr_Egress p) = [] →
  endpoints p = [].
Proof. unfold endpoints. intros -> -> ->. reflexivity. Qed.

Lemma endpoints_fold l e : ∀ b, e ∈ endpoints (foldl mergeProfile b l) → e ∈ endpoints b ∨ ∃ x, x ∈ l ∧ e ∈ endpoints x.
Proof.
  induction l as [|x l IH]; intros b He; cbn in He; [by left|].
  destruct (IH _ He) as [[Hb|Hx]%endpoints_merge|(y & Hy & Hye)]; [by left | right; exists x; set_solver..|].
  right. exists y. set_solver.
Qed.

Lemma endpoints_chain chain e : e ∈ endpoints (merge_chain chain) → ∃ x, x ∈ chain ∧ e ∈ endpoints x.2.
Proof.
  unfold merge_chain. intros [He|(p & Hp & He)]%endpoints_fold.
  - rewrite endpoints_silent in He by done. by apply elem_of_nil in He.
  - apply list_elem_of_fmap in Hp as (x & -> & Hx). exists x. split; [|done].
    rewrite list_elem_of_In in *. by apply in_rev.
Qed.

Lemma contacts_profile id profile p e : compileProfile id profile = Ok p → e ∈ contacts p →
  e ∈ endpoints profile ∨ e ∈ (endpoint "echo" <$> defaultEcho).
Proof.
  unfold compileProfile. cbn zeta.
  intros (tags & _ & (inc & _ & (exc & _ & (tiers & _ & (net & Hnet & E')
    %result_bind_Ok)%result_bind_Ok)%result_bind_Ok)%result_bind_Ok)%result_bind_Ok.
  apply compileNetwork_spec in Hnet as (Hdiags & _). simplify_eq.
  rewrite elem_of_contacts, elem_of_endpoints. cbn. rewrite Hdiags.
  destruct (eg_Echo (pr_Egress profile)); tauto.
Qed.

(** ** A compiled binding *)

Definition reaches (chain : list (libraryEntry * Profile)) (profile : Profile) : Prop :=
  ∀ e, e ∈ endpoints profile → ∃ x, x ∈ chain ∧ e ∈ endpoints x.2.

Lemma reaches_merge chain base child : reaches chain base → endpoints child = [] → reaches chain (mergeProfile base child).
Proof. intros Hb Hc e [He|He]%endpoints_merge; [by apply Hb|]. rewrite Hc in He. by apply elem_of_nil in He. Qed.

(** What each policy was compiled from: the profiles of the chain, and layers
    that declare no endpoint. *)
Definition made_from (id : string) (binding : Binding) (chain : list (libraryEntry * Profile)) (q : Policy) : Prop :=
  ∃ profile q', compileProfile (CanonicalID id) profile = Ok q' ∧ q = {| q' with pl_Fixed := bi_fixed binding |} ∧
    reaches chain profile.

Lemma compileOn_spec id binding profile policy kind chain kq : reaches chain profile →
  compileOn id binding profile (binding_overlay binding) policy kind = Ok kq →
  kq.1 ∈ (kr_Kind <$> pl_Kinds policy) ∧ made_from id binding chain kq.2.
Proof.
  intros Hr. unfold compileOn. case_if; [|done]. destruct (pr_On profile !! kind) as [l|]; [|done].
  destruct (compileProfile _ _) as [q'|] eqn:Eq; intros E'; simplify_eq. cbn. split.
  - apply existsb_exists in E as (rule & Hrule & <-%eqs_true). apply list_elem_of_fmap.
    exists rule. by rewrite list_elem_of_In.
  - eexists _, q'. split_and!; [done..|]. by do 2 (apply reaches_merge; [|done]).
Qed.

Lemma Compile_parts lib id binding p : Compile lib id binding = Ok p →
  ∃ chain, lib_chain lib id = Ok chain ∧ consent_hosts lib chain = ∅ ∧
    (∀ kind, is_Some (lp_On p !! kind) → kind ∈ (kr_Kind <$> pl_Kinds (lp_Base p))) ∧
    Forall (made_from id binding chain) (policies p).
Proof.
  unfold Compile, lib_Resolve. intros (profile & Hprofile & Hrest)%result_bind_Ok.
  apply result_bind_Ok in Hprofile as (chain & Hchain & E'). exists chain. split; [done|].
  cbn zeta in Hrest. apply result_bind_Ok in Hrest as ([] & _ & Hrest).
  apply result_bind_Ok in Hrest as ([] & Hconsent & Hrest). apply result_bind_Ok in Hrest as ([] & _ & Hrest).
  apply result_bind_Ok in Hrest as (policy & Hpolicy & (on & Hon & E'')%result_bind_Ok).
  set (base := match binding_order binding with [] => profile | _ => _ end) in *.
  assert (Hr : reaches chain base).
  { assert (reaches chain profile) by (simplify_eq; exact (endpoints_chain chain)).
    unfold base. destruct (binding_order binding); [done|]. by apply reaches_merge. }
  split; [|split].
  - unfold consent in Hconsent. rewrite Hchain in Hconsent. cbn in Hconsent. by case_decide.
  - simplify_eq. cbn. intros kind [q Hq%elem_of_list_to_map_2].
    destruct (collect_elem _ _ _ _ _ Hon Hq) as (i & kind' & _ & Hk). by apply (compileOn_spec _ _ _ _ _ chain) in Hk as [Hk _].
  - simplify_eq. unfold policies. cbn. constructor.
    + eexists _, policy. split_and!; [done..|]. by apply reaches_merge.
    + apply Forall_forall. intros q ([kind q'] & -> & Hq%elem_of_map_to_list%elem_of_list_to_map_2)%list_elem_of_fmap.
      destruct (collect_elem _ _ _ _ _ Hon Hq) as (i & kind' & _ & Hk). by apply (compileOn_spec _ _ _ _ _ chain) in Hk as [_ Hk].
Qed.

Lemma allows_default_echo lib e : e ∈ (endpoint "echo" <$> defaultEcho) →
  allows (lb_builtin lib) (lb_trust lib) (ep_Host e) = true.
Proof.
  intros (t & -> & Ht)%list_elem_of_fmap. unfold allows.
  rewrite (bool_decide_eq_true_2 (_ ∈ neutralHosts _)); [done|].
  apply elem_of_union_l, elem_of_list_to_set, list_elem_of_fmap. by exists t.
Qed.

(** C13: nothing is contacted without leave. Whatever a binding's profile
    extends, and on whatever network, every host that a compiled policy makes
    the engine ask - for a check, a network diagnostic or the exit's country -
    is named by a profile of the chain that does not come from the provider,
    or is a host the library allows: a neutral one, the provider's own site,
    or one the user allowed. *)
Theorem no_contact_without_consent lib id binding p : Compile lib id binding = Ok p →
  ∃ chain, lib_chain lib id = Ok chain ∧ ∀ q e, q ∈ policies p → e ∈ contacts q →
    allows (lb_builtin lib) (lb_trust lib) (ep_Host e) = true ∨
    ∃ entry profile, (entry, profile) ∈ chain ∧ pi_Source (le_info entry) ≠ SubscriptionSource ∧ e ∈ endpoints profile.
Proof.
  intros (chain & Hchain & Hconsent & _ & Hq)%Compile_parts. exists chain. split; [done|]. intros q e Hin He.
  rewrite Forall_forall in Hq. destruct (Hq q Hin) as (profile & q' & Hp & -> & Hr).
  destruct (contacts_profile _ _ _ _ Hp He) as [H'|]; [|left; by apply allows_default_echo].
  destruct (Hr e H') as ([entry prof] & Hx & Hex). destruct (decide (pi_Source (le_info entry) = SubscriptionSource)) as [Es|];
    [left | right; by exists entry, prof].
  destruct (allows _ _ (ep_Host e)) eqn:Ea; [done|]. exfalso.
  enough (ep_Host e ∈ consent_hosts lib chain) as Hbad by (rewrite Hconsent in Hbad; set_solver).
  unfold consent_hosts. apply elem_of_list_to_set, list_elem_of_filter. rewrite Ea. split; [done|].
  apply list_elem_of_fmap. exists e. split; [done|]. apply list_elem_of_bind. exists (entry, prof).
  split; [done|]. apply list_elem_of_filter. split; [|done]. cbn. by rewrite Es.
Qed.

(** C14: a compiled profile runs as it is. Every policy of it, the one for
    unknown networks and each override, is closed: a condition over nodes
    reads only tags the policy defines, checks it has and schedules, and the
    exit only if exits are asked for; a network condition reads only its own
    diagnostics; tags do not refer to each other; there is a tier to choose
    from, with the last resorts at the end; no default is missing. Overrides
    exist for declared network kinds only, and the binding's fixed member
    holds in all of them. *)
Theorem compile_closed lib id binding p : Compile lib id binding = Ok p →
  Forall (λ q, policy_closed q ∧ pl_ID q = CanonicalID id ∧ pl_Fixed q = bi_fixed binding) (policies p) ∧
  ∀ kind, is_Some (lp_On p !! kind) → kind ∈ (kr_Kind <$> pl_Kinds (lp_Base p)).
Proof.
  intros (chain & _ & _ & Hon & Hq)%Compile_parts. split; [|done].
  eapply Forall_impl; [apply Hq|]. intros q (profile & q' & Hp & -> & _). split_and!; [| |done].
  - by eapply policy_closed_fixed, compileProfile_closed.
  - revert Hp. unfold compileProfile. cbn zeta.
    intros (tags & _ & (inc & _ & (exc & _ & (tiers & _ & (net & _ & E')
      %result_bind_Ok)%result_bind_Ok)%result_bind_Ok)%result_bind_Ok)%result_bind_Ok. by simplify_eq.
Qed.
End contacts.

(** ** A user's profile over a provider's *)

Module Sample.

#[local] Existing Instance ascii_tables.
#[local] Instance no_regexp : Regexp := {| re_compiles _ := false; re_match _ _ := false |}.
#[local] Existing Instance natural_order.

(** The URLs of the sample are [https://host/path]. *)
#[local] Instance sample_url : Url :=
  {| url_parse s := if HasPrefix s "https://" then Some ("https"%string, (Cut (string_drop 8 s) "/").1.1) else None |}.
#[local] Instance sample_suffix : PublicSuffix :=
  {| effective_tld_plus_one s := if Contains s "example.com" then Some "example.com"%string else None |}.
#[local] Instance no_addresses : IpText := {| parse_ip _ := false |}.

Definition ping : Check :=
  {| cx_HTTP := "https://api.example.com/ping"; cx_TCP := ""; cx_TLS := ""; cx_SNI := ""; cx_Expect := []; cx_Optional := false |}.
Definition provided : Profile :=
  {| no_profile with pr_Checks := {["ping" := ping]}; pr_Prefer := [{| ts_Label := ""; ts_When := "passes(ping)"; ts_LastResort := false |}] |}.
Definition own : Profile := {| no_profile with pr_Extends := "provider/base"; pr_Pool := {| po_Include := "not dead"; po_Exclude := "" |} |}.

Definition library : Library :=
  lib_add (lib_add {| lb_entries := ∅; lb_trust := newTrust ["example.com"] []; lb_builtin := [] |}
             "provider/base" SubscriptionSource (Some provided) None)
    "user/own" UserSource (Some own) None.

Definition compiled : option LayeredPolicy :=
  match Compile library "user/own" no_binding with Ok p => Some p | Err _ => None end.

(** The check of the provider's profile, and the two echo services. *)
Example compiled_contacts : ep_Host <$> (default [] (contacts <$> (lp_Base <$> compiled))) =
  ["api.example.com"; "www.cloudflare.com"; "ipinfo.io"].
Proof. vm_compute. reflexivity. Qed.

Lemma compiled_Ok p : compiled = Some p → Compile library "user/own" no_binding = Ok p.
Proof. unfold compiled. destruct (Compile _ _ _); by intros [= ->]. Qed.

Lemma no_contact_without_consent_witness :
  match compiled with
  | Some p => ∃ chain, lib_chain library "user/own" = Ok chain ∧ ∀ q e, q ∈ policies p → e ∈ contacts q →
      allows (lb_builtin library) (lb_trust library) (ep_Host e) = true ∨
      ∃ entry profile, (entry, profile) ∈ chain ∧ pi_Source (le_info entry) ≠ SubscriptionSource ∧ e ∈ endpoints profile
  | None => False
  end.
Proof.
  destruct compiled as [p|] eqn:E; [|vm_compute in E; discriminate E].
  apply (no_contact_without_consent library "user/own" no_binding p). by apply compiled_Ok.
Defined.

Lemma compile_closed_witness :
  match compiled with Some p => policy_closed (lp_Base p) ∧ pl_CheckIDs (lp_Base p) = ["ping"%string] | None => False end.
Proof.
  assert (Hids : match compiled with Some p => pl_CheckIDs (lp_Base p) = ["ping"%string] | None => False end)
    by (vm_compute; reflexivity).
  destruct compiled as [p|] eqn:E; [|done]. split; [|done].
  pose proof (compile_closed library "user/own" no_binding p (compiled_Ok p E)) as [H _].
  by apply (Forall_inv H).
Defined.

End Sample.
