(* ===== verification/PoolFacts.v ===== *)
(** * Narrowing a pool

    A layer narrows the pool of the layer below by joining the texts of their
    conditions. When both texts parse on their own, the joined one means their
    conjunction, for what is admitted, or disjunction, for what is kept out. *)

From S2P Require Import Prelude GoText TextFacts Cond CondSyntax CondSyntaxFacts Profile Decide.

Section facts.
Context `{U : Unicode} {UA : UnicodeAscii} {US : UnicodeSpaces} `{R : Regexp} (scope : condScope).

(** ** Reading a text with spaces around *)

Lemma space_separates r : is_space r = true → separates r.
Proof.
  intros Hs. destruct (space_apart r Hs) as [Hl Hd].
  assert (Hx : ∀ x, 0 <= x < 128 → ascii_space x = false → (r =? x) = false).
  { intros x Hr Hx. apply Z.eqb_neq. intros ->. rewrite space_ascii in Hs by done. congruence. }
  split_and!; [|done|].
  - unfold isWordRune. rewrite Hl, Hd, !Hx by done. done.
  - by apply Hx.
Qed.

Lemma lex_space r l : is_space r = true → lex_runes (r :: l) = lex_runes l.
Proof. intros Hs. rewrite lex_runes_cons. unfold lex_step. rewrite Hs. by destruct (lex_runes l). Qed.

Lemma lex_spaces pre l : Forall (λ r, is_space r = true) pre → lex_runes (pre ++ l) = lex_runes l.
Proof. induction 1 as [|r pre Hr _ IH]; [done|]. cbn [app]. by rewrite lex_space. Qed.

Lemma lex_tail l ts post : Forall (λ r, is_space r = true) post → lex_runes l = Ok ts → lex_runes (l ++ post) = Ok ts.
Proof.
  intros Hp Hl. destruct Hp as [|r post Hr Hp]; [by rewrite app_nil_r|].
  rewrite (lex_runes_sep _ _ _ _ (space_separates r Hr) Hl), lex_space by done.
  rewrite <- (app_nil_r post), lex_spaces by done. cbn. by rewrite app_nil_r.
Qed.

Lemma lex_untrimmed a ts : lexCond (TrimSpace a) = Ok ts → lex_runes (decode a) = Ok ts.
Proof.
  intros Hl. destruct (decode_TrimSpace a) as (pre & post & -> & Hpre & Hpost).
  rewrite lex_spaces by done. by apply lex_tail.
Qed.

(** ** Reading a joined text *)

Lemma decode_cons c s : byteZ c < 128 → decode (String c s) = byteZ c :: decode s.
Proof.
  intros Hc. unfold decode. rewrite chunks_step by done. cbn [decode1]. apply Z.ltb_lt in Hc. by rewrite Hc.
Qed.

Definition joined (a b op : string) : string := "(" +:+ a +:+ ") " +:+ op +:+ " (" +:+ b +:+ ")".

Lemma lex_punct r l x : is_space r = false → is_punct r = true → encode1 r = x →
  lex_runes (r :: l) = match lex_runes l with Ok ts => Ok (punct x :: ts) | Err e => Err e end.
Proof. intros Hs Hp <-. rewrite lex_runes_cons. unfold lex_step. by rewrite Hs, Hp. Qed.

Lemma ascii_not_space x : 0 <= x < 128 → ascii_space x = false → is_space x = false.
Proof. intros. by rewrite space_ascii. Qed.

(** The word between the parts. *)
Definition joins (op : string) : Prop := op = "and"%string ∨ op = "or"%string.

Lemma lex_op op l : joins op →
  lex_runes (bytes_of op ++ 32 :: l) = match lex_runes l with Ok ts => Ok (word op :: ts) | Err e => Err e end.
Proof.
  assert (Hw : ∀ x, ascii_lower x = true → isWordRune x = true ∧ is_space x = false ∧ is_punct x = false).
  { intros x Hx. unfold ascii_lower, in_range in Hx. assert (0 <= x < 128) by lia. unfold isWordRune, is_punct.
    rewrite letter_ascii, space_ascii by done. unfold ascii_space, ascii_upper, ascii_lower, in_range, r_lparen, r_rparen, r_lbracket, r_rbracket, r_comma. lia. }
  assert (H32 : is_space 32 = true) by (by rewrite space_ascii).
  assert (Hs : isWordRune 32 = false) by (apply space_separates, H32).
  destruct (Hw 97 eq_refl) as (W97 & S97 & P97). destruct (Hw 110 eq_refl) as (W110 & _).
  destruct (Hw 100 eq_refl) as (W100 & _). destruct (Hw 111 eq_refl) as (W111 & S111 & P111).
  destruct (Hw 114 eq_refl) as (W114 & _).
  intros [-> | ->].
  - change (bytes_of "and") with [97; 110; 100]. cbn [app]. rewrite lex_runes_cons. unfold lex_step.
    rewrite S97, P97. cbn [orb Z.eqb Pos.eqb r_eq r_tilde r_bang r_lt r_gt r_quote r_dquote r_slash].
    cbn [span]. rewrite W97, W110, W100, Hs, lex_space by done. by destruct (lex_runes l).
  - change (bytes_of "or") with [111; 114]. cbn [app]. rewrite lex_runes_cons. unfold lex_step.
    rewrite S111, P111. cbn [orb Z.eqb Pos.eqb r_eq r_tilde r_bang r_lt r_gt r_quote r_dquote r_slash].
    cbn [span]. rewrite W111, W114, Hs, lex_space by done. by destruct (lex_runes l).
Qed.

Lemma decode_joined a b op : joins op →
  decode (joined a b op) = 40 :: decode a ++ 41 :: 32 :: bytes_of op ++ 32 :: 40 :: decode b ++ [41].
Proof.
  intros Hop. unfold joined. change ("(" +:+ ?s) with (String "(" s). rewrite decode_cons by done. f_equal.
  rewrite decode_app by done. f_equal. change (") " +:+ ?s) with (String ")" (String " " s)).
  rewrite !decode_cons by done. f_equal. f_equal.
  change (" (" +:+ b +:+ ")") with (String " " (String "(" (b +:+ ")"))).
  rewrite decode_app by done. rewrite decode_ascii by (by destruct Hop as [-> | ->]). f_equal.
  rewrite !decode_cons by done. f_equal. f_equal. rewrite decode_app by done. done.
Qed.

Lemma lex_joined a b op ts us : joins op → lexCond (TrimSpace a) = Ok ts → lexCond (TrimSpace b) = Ok us →
  lexCond (TrimSpace (joined a b op)) = Ok (group ts ++ word op :: group us).
Proof.
  intros Hop Ha%lex_untrimmed Hb%lex_untrimmed.
  assert (H32 : is_space 32 = true) by (by rewrite space_ascii).
  assert (H40 : is_space 40 = false) by (by apply ascii_not_space).
  assert (H41 : is_space 41 = false) by (by apply ascii_not_space).
  rewrite TrimSpace_id.
  2: { intros c [Hc|Hc].
       - unfold joined in Hc. change ("(" +:+ ?s) with (String "(" s) in Hc. rewrite chunks_step in Hc by done.
         cbn [head] in Hc. by injection Hc as <-.
       - replace (joined a b op) with (("(" +:+ a +:+ ") " +:+ op +:+ " (" +:+ b) +:+ ")") in Hc
           by (unfold joined; by rewrite !append_assoc).
         rewrite chunks_app in Hc by done. change (rune_chunks ")" 0) with [(41, ")"%string)] in Hc.
         rewrite last_snoc in Hc. by injection Hc as <-. }
  unfold lexCond. rewrite decode_joined by done.
  rewrite (lex_punct 40 _ "(") by done.
  rewrite (lex_runes_app _ _ _ Ha), (lex_punct 41 _ ")"), lex_space, lex_op, (lex_punct 40 _ "(") by done.
  rewrite (lex_runes_app _ _ _ Hb), (lex_punct 41 _ ")") by done.
  change (lex_runes []) with (@Ok condError (list condToken) []). unfold group. cbn [app]. by rewrite <- app_assoc.
Qed.
(** ** What the narrowed pool keeps out *)

Lemma parseCond_blank text : empty (TrimSpace text) = true → parseCond scope text = Ok None.
Proof. intros Hb. unfold parseCond. by rewrite Hb. Qed.

Lemma parseCond_None text : parseCond scope text = Ok None → empty (TrimSpace text) = true.
Proof.
  unfold parseCond. case_if; [done|]. case_if; [done|].
  by intros (ts & _ & (root & _ & E')%result_bind_Ok)%result_bind_Ok.
Qed.

Lemma or_and_apart : EqualFold "or" "and" = false.
Proof.
  unfold EqualFold. rewrite !decode_ascii by done. apply bool_decide_eq_false.
  change (bytes_of "or") with [111; 114]. change (bytes_of "and") with [97; 110; 100]. done.
Qed.

(** The condition of a joined text, from those of its parts. *)
Lemma pool_join_cond a b op ca cb c : joins op →
  parseCond scope a = Ok ca → parseCond scope b = Ok cb → parseCond scope (pool_join a b op) = Ok c →
  match ca, cb with
  | None, _ => c = cb
  | _, None => c = ca
  | Some A, Some B => ∃ C, c = Some C ∧
      cd_root C = if eqs op "and" then andNode [cd_root A; cd_root B] else orNode [cd_root A; cd_root B]
  end.
Proof.
  intros Hop Ha Hb. unfold pool_join. destruct ca as [A|].
  2: { rewrite (parseCond_None _ Ha). congruence. }
  case_if; [rewrite parseCond_blank in Ha by done; done|]. destruct cb as [B|].
  2: { rewrite (parseCond_None _ Hb). congruence. }
  case_if; [rewrite parseCond_blank in Hb by done; done|].
  apply parseCond_Some in Ha as (ts & Hta & Hpa). apply parseCond_Some in Hb as (us & Hub & Hpb).
  fold (joined a b op). intros Hc. destruct c as [C|].
  2: { apply parseCond_None in Hc. pose proof (lex_joined a b op ts us Hop Hta Hub) as Hl.
       apply empty_true in Hc. rewrite Hc in Hl. done. }
  exists C. split; [done|]. apply parseCond_Some in Hc as (vs & Hv & Hpc).
  rewrite (lex_joined a b op ts us Hop Hta Hub) in Hv. injection Hv as <-.
  destruct Hop as [-> | ->]; cbn [eqs].
  - exact (parse_join_and scope ts us _ _ _ Hpa Hpb Hpc).
  - exact (parse_join_or scope ts us _ _ _ or_and_apart Hpa Hpb Hpc).
Qed.

(** What a pool keeps out: a server its include condition rejects or its
    exclude condition accepts (core/rcx/decide.go). *)
Definition keeps_out (include exclude : option Cond) (s : Subject) : bool :=
  is_tri (Test include s) triNo || negb (is_none exclude) && Eval exclude s.

Definition pool_compiles (p : Pool) (include exclude : option Cond) : Prop :=
  parseCond scope (po_Include p) = Ok include ∧ parseCond scope (po_Exclude p) = Ok exclude.

Lemma join_include ca cb c s :
  match ca, cb with
  | None, _ => c = cb
  | _, None => c = ca
  | Some A, Some B => ∃ C, c = Some C ∧ cd_root C = andNode [cd_root A; cd_root B]
  end → is_tri (Test c s) triNo = is_tri (Test ca s) triNo || is_tri (Test cb s) triNo.
Proof.
  destruct ca as [A|], cb as [B|]; [|intros ->; cbn; by rewrite ?orb_false_r..].
  intros (C & -> & HC). cbn [Test]. rewrite HC. cbn [eval List.map]. by destruct (eval s (cd_root A)), (eval s (cd_root B)).
Qed.

Lemma join_exclude ca cb c s :
  match ca, cb with
  | None, _ => c = cb
  | _, None => c = ca
  | Some A, Some B => ∃ C, c = Some C ∧ cd_root C = orNode [cd_root A; cd_root B]
  end → negb (is_none c) && Eval c s = negb (is_none ca) && Eval ca s || negb (is_none cb) && Eval cb s.
Proof.
  destruct ca as [A|], cb as [B|]; [|intros ->; cbn; by rewrite ?orb_false_r..].
  intros (C & -> & HC). unfold Eval. cbn [Test is_none negb andb]. rewrite HC. cbn [eval List.map].
  by destruct (eval s (cd_root A)), (eval s (cd_root B)).
Qed.

(** Layering pools only ever narrows. When the pool of a profile and the
    pool laid over it compile on their own, and the joined texts compile, the
    joined pool keeps out exactly the servers that one of the two keeps out,
    whatever is known of the server: a later layer can admit nothing that an
    earlier one kept out, and adds nothing but its own refusals. *)
Theorem narrow_pool_meaning base child ib eb ic ec i e s :
  pool_compiles base ib eb → pool_compiles child ic ec → pool_compiles (narrowPool base child) i e →
  keeps_out i e s = keeps_out ib eb s || keeps_out ic ec s.
Proof.
  intros [Hib Heb] [Hic Hec] [Hi He]. cbn [narrowPool po_Include po_Exclude] in Hi, He.
  pose proof (pool_join_cond _ _ "and" ib ic i (or_introl eq_refl) Hib Hic Hi) as Ji.
  pose proof (pool_join_cond _ _ "or" eb ec e (or_intror eq_refl) Heb Hec He) as Je.
  unfold keeps_out. rewrite (join_include ib ic i s Ji), (join_exclude eb ec e s Je).
  by destruct (is_tri (Test ib s) triNo), (is_tri (Test ic s) triNo), (negb (is_none eb) && Eval eb s),
    (negb (is_none ec) && Eval ec s).
Qed.
End facts.

(** ** Examples *)

Module Sample.

#[local] Existing Instance ascii_tables.
#[local] Existing Instance ascii_tables_ok.
#[local] Existing Instance ascii_tables_spaces.
#[local] Instance no_regexp : Regexp := {| re_compiles _ := false; re_match _ _ := false |}.

Definition no_scope : condScope := {| cs_tags := None; cs_checks := ∅; cs_diags := None |}.
Definition pool (include exclude : string) : Pool := {| po_Include := include; po_Exclude := exclude |}.

(** The condition of a text, if it has one. *)
Definition cond_of (text : string) : option Cond :=
  match parseCond no_scope text with Ok c => c | Err _ => None end.

Definition blank : Subject :=
  {| sj_Name := ""; sj_Provider := ""; sj_Type := "Vless"; sj_Server := ""; sj_UDP := false; sj_Alive := true;
     sj_Dead := false; sj_Measured := false; sj_Current := false; sj_Latency := 0; sj_Tags := ∅; sj_Exit := "";
     sj_Entry := ""; sj_Country := ""; sj_Checks := ∅; sj_Net := None |}.

Lemma narrow_pool_meaning_witness :
  keeps_out (cond_of "(udp) and (alive or dead )") (cond_of "dead") blank = true.
Proof.
  rewrite (narrow_pool_meaning no_scope (pool "udp" "") (pool "alive or dead " "dead") (cond_of "udp") None
    (cond_of "alive or dead") (cond_of "dead") (cond_of "(udp) and (alive or dead )") (cond_of "dead") blank).
  - reflexivity.
  - split; vm_compute; reflexivity.
  - split; vm_compute; reflexivity.
  - split; vm_compute; reflexivity.
Defined.

(** Texts that do not compile on their own can still compile joined: a layer
    with the include text [alive) or (alive] undoes the narrowing below it. *)
Lemma narrowing_undone :
  let base := pool "udp" "" in
  let child := pool "alive) or (alive" "" in
  is_ok (parseCond no_scope (po_Include child)) = false ∧
  keeps_out (cond_of (po_Include base)) None blank = true ∧
  keeps_out (cond_of (po_Include (narrowPool base child))) None blank = false.
Proof. vm_compute. done. Qed.

End Sample.
