(* ===== verification/DecideFacts.v ===== *)
(** * What a decision guarantees

    The ranking is a sorted permutation of the rows and its first eligible
    row a best one; a switch names a member that may be used; a working
    incumbent is left only for a reason; the order of the members is
    irrelevant. *)

From S2P Require Import Prelude GoText Cond Evidence Journal Identity Profile Policy Decide.

Lemma rank_order_preorder p : total_preorder (rank_order p).
Proof. unfold rank_order. repeat apply cmp_or_preorder; auto with rcx. Qed.

(** ** The best row *)

(** The order [rank] sorts eligible rows by, spelled out. *)
Definition at_least_as_good (p : Policy) (a b : Ranked) : Prop :=
  rw_Tier a < rw_Tier b ∨ rw_Tier a = rw_Tier b ∧
  (healthOrder (rw_Health a) < healthOrder (rw_Health b) ∨
   healthOrder (rw_Health a) = healthOrder (rw_Health b) ∧
   (effectiveScore a p < effectiveScore b p ∨
    effectiveScore a p = effectiveScore b p ∧ compareS (rw_Name a) (rw_Name b) <= 0)).

Lemma cmp_or_le c d : cmp_or c d <= 0 ↔ c < 0 ∨ c = 0 ∧ d <= 0.
Proof. unfold cmp_or. case_match; bools; lia. Qed.

Lemma rank_order_eligible p a b : eligible a = true → eligible b = true →
  rank_order p a b <= 0 ↔ at_least_as_good p a b.
Proof.
  intros Ha Hb. unfold rank_order, at_least_as_good. rewrite Ha, Hb, !cmp_or_le, !compareZ_lt, !compareZ_0.
  split; [intros [?|[_ ?]]; [lia|done] | auto].
Qed.

Section facts.
Context `{Unicode} `{Regexp}.

Lemma rank_perm input : rank input ≡ₚ rank_member input <$> di_Members input.
Proof. apply sort_stable_perm. Qed.

Lemma elem_of_rank input r : r ∈ rank input ↔ ∃ m, m ∈ di_Members input ∧ r = rank_member input m.
Proof. rewrite rank_perm, list_elem_of_fmap. naive_solver. Qed.

Lemma find_eligible_spec rows b :
  List.find eligible rows = Some b → b ∈ rows ∧ eligible b = true.
Proof. intros Hf. apply List.find_some in Hf as [Hi He]. by rewrite <- list_elem_of_In in Hi. Qed.

Lemma best_least input b r :
  List.find eligible (rank input) = Some b → r ∈ rank input → eligible r = true →
  at_least_as_good (di_Policy input) b r.
Proof.
  intros Hb Hr He. destruct (find_eligible_spec _ _ Hb) as [_ Heb].
  apply rank_order_eligible; [done..|].
  eapply sorted_find_least; eauto using rank_order_preorder, sort_stable_sorted.
Qed.

(** C7: the candidate a decision weighs is a best one. The ranking shown is
    the members' rows, each once, in the order of the decision; its first
    eligible row is in the lowest tier any eligible member reached, there
    among the healthiest, there of the lowest score (the incumbent credited
    the tolerance), there the first by name; and there is none exactly when
    no member is eligible. *)
Theorem rank_best input :
  rank input ≡ₚ rank_member input <$> di_Members input ∧
  sorted_by (rank_order (di_Policy input)) (rank input) ∧
  match List.find eligible (rank input) with
  | Some best =>
      (∃ m, m ∈ di_Members input ∧ best = rank_member input m) ∧ eligible best = true ∧
      ∀ m, m ∈ di_Members input → eligible (rank_member input m) = true →
        at_least_as_good (di_Policy input) best (rank_member input m)
  | None => ∀ m, m ∈ di_Members input → eligible (rank_member input m) = false
  end.
Proof.
  split_and!; [apply rank_perm | apply sort_stable_sorted, rank_order_preorder |].
  destruct (List.find eligible (rank input)) as [b|] eqn:E.
  - destruct (find_eligible_spec _ _ E) as [Hb He]. split_and!; [by apply elem_of_rank | done |].
    intros m Hm Hem. apply best_least; [done | apply elem_of_rank; eauto | done].
  - intros m Hm. apply (List.find_none _ _ E). rewrite <- list_elem_of_In. apply elem_of_rank. eauto.
Qed.

(** ** Eligibility *)

Lemma find_tier_spec s tiers : ∀ i pending t q,
  find_tier s i tiers pending = (t, q) →
  match t with
  | Some (k, label) => ∃ n tier, k = i + Z.of_nat n ∧ tiers !! n = Some tier ∧ label = ti_Label tier ∧
      Test (ti_When tier) s = triYes ∧
      ∀ j tier', (j < n)%nat → tiers !! j = Some tier' → Test (ti_When tier') s ≠ triYes
  | None => ∀ tier, tier ∈ tiers → Test (ti_When tier) s ≠ triYes
  end ∧
  (pending = None → match q with
   | Some (k, label) => ∃ n tier, k = i + Z.of_nat n ∧ tiers !! n = Some tier ∧ label = ti_Label tier ∧
      Test (ti_When tier) s = triUnknown
   | None => t = None → ∀ tier, tier ∈ tiers → Test (ti_When tier) s ≠ triUnknown
   end) ∧
  (pending ≠ None → q = pending).
Proof.
  induction tiers as [|tier tiers IH]; intros i pending t q; cbn [find_tier].
  { intros [= <- <-]. split_and!; [intros ? []%not_elem_of_nil | intros -> | done].
    intros _ ? []%not_elem_of_nil. }
  destruct (Test (ti_When tier) s) eqn:E; cbn.
  2: { intros [= <- <-]. split_and!; [|intros ->; done | done].
       exists 0%nat, tier. split_and!; try done; lia. }
  all: intros Hf; apply IH in Hf as (H1 & H2 & H3); split_and!.
  all: try by (destruct pending; [intros _; apply H3 | done]).
  all: try (destruct t as [[k label]|];
    [destruct H1 as (n & tier' & -> & Hn & -> & Ht & Hlt); exists (S n), tier'; split_and!; try done; [lia|];
     intros [|j] tier'' Hj Hl; [cbn in Hl; congruence | eapply Hlt; [|done]; lia]
    | intros tier' [->|Hin]%elem_of_cons; [congruence | by apply H1]]).
  all: intros ->; try specialize (H2 eq_refl).
  all: try (destruct q as [[k label]|];
    [destruct H2 as (n & tier' & -> & Hn & -> & Ht); exists (S n), tier'; split_and!; try done; lia
    | intros Ht tier' [->|Hin]%elem_of_cons; [congruence | by apply H2]]).
  all: rewrite H3 by done; exists 0%nat, tier; split_and!; try done; lia.
Qed.

Definition member_subject (input : DecideInput) (m : Member) : Subject :=
  tag_subject (di_Policy input) (subjectOf m (member_facts m) input).

(** The member passes the pool, is not cooling down and is not dead. *)
Definition admitted (input : DecideInput) (m : Member) : Prop :=
  let p := di_Policy input in
  let s := member_subject input m in
  Test (pl_Include p) s ≠ triNo ∧ (pl_Exclude p = None ∨ Test (pl_Exclude p) s ≠ triYes) ∧
  isUnroutable (nd_Type (mb_Node m)) = false ∧
  (∀ until, di_Excluded input !! mb_Key m = Some until → until <= di_At input) ∧
  Dead (member_facts m) = false.

(** Tier [n] is the first whose condition holds. *)
Definition first_tier (p : Policy) (s : Subject) (n : nat) : Prop :=
  ∃ tier, pl_Tiers p !! n = Some tier ∧ Test (ti_When tier) s = triYes ∧
    ∀ j tier', (j < n)%nat → pl_Tiers p !! j = Some tier' → Test (ti_When tier') s ≠ triYes.

Lemma health_dead input f : is_dead (healthOf f input) = Dead f.
Proof. unfold healthOf. repeat case_if; by vm_compute. Qed.

Lemma is_tri_neq a b : is_tri a b = false ↔ a ≠ b.
Proof. apply bool_decide_eq_false. Qed.
Lemma is_tri_eq a b : is_tri a b = true ↔ a = b.
Proof. apply bool_decide_eq_true. Qed.

Lemma exclusion_None input m :
  exclusion input m (member_subject input m) (healthOf (member_facts m) input) = None ↔ admitted input m.
Proof.
  unfold exclusion, pool_verdict, admitted, cooldown, after. rewrite health_dead. unfold Eval. split.
  - case_if; [done|]. case_if; [done|]. case_if; [done|].
    destruct (di_Excluded input !! mb_Key m) as [until|]; repeat case_if; try done; intros _;
      bools; rewrite ?is_tri_neq in *; split_and!; try done.
    all: try (destruct (pl_Exclude _); [naive_solver | by left]).
    intros ? [= <-]. lia.
  - intros (H1 & H2 & -> & H4 & ->). rewrite (proj2 (is_tri_neq _ _) H1).
    assert (negb (is_none (pl_Exclude (di_Policy input))) &&
      is_tri (Test (pl_Exclude (di_Policy input)) (member_subject input m)) triYes = false) as ->.
    { destruct H2 as [->|H2]; [done|]. by rewrite (proj2 (is_tri_neq _ _) H2), andb_false_r. }
    destruct (di_Excluded input !! mb_Key m) as [until|]; [|done].
    specialize (H4 until eq_refl). by rewrite (proj2 (Z.ltb_ge _ _)).
Qed.

Lemma base_row_excluded input m s h : rw_Excluded (base_row input m s h) = None.
Proof. unfold base_row. by destruct (Latency _ _) as [[??]?]. Qed.

Lemma rank_member_eq input m :
  rank_member input m =
    let row := base_row input m (member_subject input m) (healthOf (member_facts m) input) in
    match exclusion input m (member_subject input m) (healthOf (member_facts m) input) with
    | Some r => {| row with rw_Excluded := Some r |}
    | None =>
        match find_tier (member_subject input m) 0 (pl_Tiers (di_Policy input)) None with
        | (Some (i, label), pending) =>
            let '(pi, pl) := default (-1, EmptyString) pending in
            {| row with rw_Tier := i; rw_TierLabel := label; rw_pendingTier := pi; rw_Pending := pl |}
        | (None, Some (pi, pl)) =>
            {| row with rw_Excluded := Some (reason "pending" []); rw_pendingTier := pi; rw_Pending := pl |}
        | (None, None) => {| row with rw_Excluded := Some (reason "no-tier" []) |}
        end
    end.
Proof. reflexivity. Qed.

(** Who may be chosen. A member is eligible exactly when no include
    rule is known to fail for it, no exclude rule is known to hold, its
    type can be routed through, no cooldown of it is running, it is not
    dead, and some tier's condition is known to hold; its tier is then the
    first such one. *)
Theorem rank_member_eligible input m :
  (eligible (rank_member input m) = true ↔
    admitted input m ∧ ∃ n, first_tier (di_Policy input) (member_subject input m) n) ∧
  (eligible (rank_member input m) = true → ∃ n, rw_Tier (rank_member input m) = Z.of_nat n ∧
    first_tier (di_Policy input) (member_subject input m) n).
Proof.
  rewrite rank_member_eq. cbn zeta. pose proof (exclusion_None input m) as Hex.
  pose proof (base_row_excluded input m (member_subject input m) (healthOf (member_facts m) input)) as Hb.
  set (row := base_row _ _ _ _) in *.
  destruct (exclusion _ _ _ _) as [r|].
  { split; [|done]. split; [done|]. intros [Ha%Hex _]. done. }
  destruct (find_tier _ _ _ _) as [t q] eqn:Ef. apply find_tier_spec in Ef as (H1 & H2 & _).
  destruct t as [[k label]|].
  - destruct H1 as (n & tier & -> & Hn & _ & Ht & Hlt).
    assert (first_tier (di_Policy input) (member_subject input m) n) as Hft by (by exists tier).
    destruct (default _ q) as [pi pl]. unfold eligible. cbn. rewrite Hb. split.
    + split; [|done]. intros _. split; [by apply Hex | by exists n].
    + intros _. by exists n.
  - assert (Hno : ∀ n, first_tier (di_Policy input) (member_subject input m) n → False).
    { intros n (tier & Hn & Ht & _). eapply H1; [by eapply list_elem_of_lookup_2 | done]. }
    destruct q as [[pi pl]|]; (split; [|done]); (split; [done|]); intros [_ [n Hn]]; by apply Hno in Hn.
Qed.

(** ** Rows by name *)

Lemma rank_member_name input m : rw_Name (rank_member input m) = mb_Name m.
Proof.
  rewrite rank_member_eq. cbn zeta.
  assert (Hb : ∀ s h, rw_Name (base_row input m s h) = mb_Name m)
    by (intros; unfold base_row; by destruct (Latency _ _) as [[??]?]).
  destruct (exclusion _ _ _ _); [by cbn|].
  destruct (find_tier _ _ _ _) as [[[k l]|] q]; [destruct (default _ q)|destruct q as [[??]|]]; by cbn.
Qed.

Lemma rank_member_health input m : rw_Health (rank_member input m) = healthOf (member_facts m) input.
Proof.
  rewrite rank_member_eq. cbn zeta.
  assert (Hb : ∀ s h, rw_Health (base_row input m s h) = h)
    by (intros; unfold base_row; by destruct (Latency _ _) as [[??]?]).
  destruct (exclusion _ _ _ _); [by cbn|].
  destruct (find_tier _ _ _ _) as [[[k l]|] q]; [destruct (default _ q)|destruct q as [[??]|]]; by cbn.
Qed.

Lemma eligible_health input m :
  eligible (rank_member input m) = true → is_dead (rw_Health (rank_member input m)) = false.
Proof.
  intros He. destruct (proj1 (proj1 (rank_member_eligible input m)) He) as [(_ & _ & _ & _ & Hd) _].
  by rewrite rank_member_health, health_dead.
Qed.

Lemma by_name_Some rows name r : by_name rows name = Some r → r ∈ rows ∧ rw_Name r = name.
Proof.
  unfold by_name. intros Hl.
  assert (Hin : r ∈ filter (λ r, rw_Name r = name) rows).
  { apply last_Some in Hl as [l ->]. set_solver. }
  by apply list_elem_of_filter in Hin as [??].
Qed.

Lemma by_name_None rows name : by_name rows name = None ↔ ∀ r, r ∈ rows → rw_Name r ≠ name.
Proof.
  unfold by_name. rewrite last_None. split.
  - intros Hf r Hr Hn. apply (not_elem_of_nil r). rewrite <- Hf. by apply list_elem_of_filter.
  - intros Hn. destruct (filter _ rows) as [|r l] eqn:E; [done|].
    assert (Hr : r ∈ r :: l) by left. rewrite <- E in Hr. apply list_elem_of_filter in Hr as [? ?].
    by destruct (Hn r).
Qed.

Definition distinct_names (input : DecideInput) : Prop := NoDup (mb_Name <$> di_Members input).

Lemma same_name input m m' : distinct_names input →
  m ∈ di_Members input → m' ∈ di_Members input → mb_Name m = mb_Name m' → m = m'.
Proof.
  intros Hd [i Hi]%list_elem_of_lookup [j Hj]%list_elem_of_lookup E.
  assert (i = j) as ->; [|congruence].
  apply (proj1 (NoDup_alt _) Hd i j (mb_Name m)); rewrite list_lookup_fmap, ?Hi, ?Hj; cbn; congruence.
Qed.

Lemma by_name_rank input m : distinct_names input → m ∈ di_Members input →
  by_name (rank input) (mb_Name m) = Some (rank_member input m).
Proof.
  intros Hd Hm. destruct (by_name (rank input) (mb_Name m)) as [r|] eqn:E.
  - apply by_name_Some in E as [Hr Hn]. apply elem_of_rank in Hr as (m' & Hm' & ->).
    rewrite rank_member_name in Hn. by rewrite (same_name input m' m).
  - exfalso. rewrite by_name_None in E. apply (E (rank_member input m)); [apply elem_of_rank; eauto|].
    apply rank_member_name.
Qed.

Lemma by_name_rank_inv input name r : distinct_names input → by_name (rank input) name = Some r →
  ∃ m, m ∈ di_Members input ∧ mb_Name m = name ∧ r = rank_member input m.
Proof.
  intros Hd Hb. apply by_name_Some in Hb as [Hr Hn]. apply elem_of_rank in Hr as (m & Hm & ->).
  rewrite rank_member_name in Hn. eauto.
Qed.

Lemma best_member input b : List.find eligible (rank input) = Some b →
  ∃ m, m ∈ di_Members input ∧ b = rank_member input m ∧ eligible (rank_member input m) = true.
Proof.
  intros Hb. apply find_eligible_spec in Hb as [Hb He].
  apply elem_of_rank in Hb as (m & Hm & ->). eauto.
Qed.

(** ** The switches [Decide] makes *)

Definition is_switch (d : Decision) : Prop := dc_Action d = SwitchAction.

(** The incumbent is working: it is a member, and it is eligible. *)
Definition working (input : DecideInput) (m : Member) : Prop :=
  m ∈ di_Members input ∧ mb_Name m = di_Now input ∧ eligible (rank_member input m) = true.

(** What must hold for a better candidate to displace a working incumbent:
    it is in a better tier and was seen alive in the last five minutes, or
    it is in the same tier and beats the incumbent by the gain asked, after
    the dwell, within the hourly limit, in enough samples. *)
Definition justified (c : Choice) : Prop :=
  let p := di_Policy (co_input c) in
  (rw_Tier (co_best c) < rw_Tier (co_current c) ∧ rw_Health (co_best c) = AliveHealth ∧
   di_At (co_input c) - rw_CheckedAt (co_best c) <= betterTierFresh) ∨
  (rw_Tier (co_best c) = rw_Tier (co_current c) ∧ pl_Improve p = true ∧
   rw_Score (co_current c) < unmeasuredScore ∧ rw_Score (co_best c) < unmeasuredScore ∧
   pl_MinGainMs p <= gain_of c ∧ pl_Tolerance p <= gain_of c ∧
   (rw_Score (co_current c) *i pl_MinGainPct p) /i 100 <= gain_of c ∧
   dwell_left c <= 0 ∧ di_SwitchesHour (co_input c) < pl_MaxPerHour p ∧
   pl_Confirm p <= confirmed (co_best c) (co_input c) p (rw_Score (co_current c) -i need_of c)).

Lemma decide_improve_switch c :
  rw_Tier (co_best c) <= rw_Tier (co_current c) →
  is_switch (decide_improve c) → justified c ∧ dc_Target (decide_improve c) = rw_Name (co_best c).
Proof.
  unfold decide_improve, justified, is_switch. intros Hle.
  case_if.
  { case_if; [|done]. intros _. split; [left|done]. unfold better_tier_known in *.
    apply andb_true_iff in E0 as [E0 E1%bool_decide_eq_true].
    rewrite time_sub_le in E0 by (vm_compute; split; congruence). bools. auto. }
  repeat (case_if; [done|]). intros _. split; [right|done].
  unfold measured, tier_confirmed in *. bools. unfold need_of in E2.
  split_and!; try tauto; lia.
Qed.

Lemma decide_current_target c :
  is_switch (decide_current c) → dc_Target (decide_current c) = rw_Name (co_best c).
Proof.
  unfold decide_current, is_switch. repeat case_if; try done; destruct (rw_Excluded _); repeat case_if; try done.
  unfold decide_improve. repeat case_if; done.
Qed.

Lemma Decide_ranked input :
  ct_Mode (di_Control input) ≠ ManualMode → pl_Fixed (di_Policy input) = EmptyString ∨ pin_down input = true →
  Decide input = decide_ranked input (rank input).
Proof.
  intros Hm Hf. unfold Decide, is_mode. rewrite bool_decide_false by done.
  destruct Hf as [-> | ->]; [done|]. by rewrite andb_false_r.
Qed.

Lemma auto_not_pinned input : ct_Mode (di_Control input) = AutoMode → pin_down input = false.
Proof. unfold pin_down, is_mode. by intros ->. Qed.

(** C1: a working incumbent is left only for a reason. Under automatic
    control, with no fixed member and no request to change the server, when
    the current node is eligible (so neither dead, cooling down nor out of
    the pool) every switch goes to the best candidate and is justified:
    either the candidate is in a better tier and was measured alive within
    five minutes, or it is as good a tier and all the guards against
    flapping passed, the gain, the dwell, the hourly limit and the
    confirming samples. *)
Theorem decide_keeps_working input m :
  distinct_names input → working input m →
  ct_Mode (di_Control input) = AutoMode → pl_Fixed (di_Policy input) = EmptyString →
  di_ForceSwitch input = false → is_switch (Decide input) →
  ∃ m' needs, m' ∈ di_Members input ∧ eligible (rank_member input m') = true ∧
    dc_Target (Decide input) = mb_Name m' ∧ mb_Name m' ≠ di_Now input ∧
    justified {| co_input := input; co_rows := rank input; co_best := rank_member input m';
                 co_current := rank_member input m; co_needs := needs |}.
Proof.
  intros Hd (Hm & Hnow & He) Hmode Hfix Hforce. rewrite Decide_ranked by (rewrite ?Hmode; auto).
  unfold decide_ranked. rewrite auto_not_pinned by done. cbn zeta.
  case_if; [done|]. rewrite <- Hnow, (by_name_rank _ _ Hd Hm).
  unfold decide_free. destruct (List.find eligible (rank input)) as [b|] eqn:Eb.
  2: { pose proof (List.find_none _ _ Eb (rank_member input m)) as Hn.
       rewrite <- list_elem_of_In, He in Hn. discriminate Hn. apply elem_of_rank. eauto. }
  destruct (best_member _ _ Eb) as (m' & Hm' & -> & He').
  set (c := Build_Choice _ _ _ _ _). intros Hsw. exists m', (co_needs c).
  assert (Hle : rw_Tier (co_best c) <= rw_Tier (co_current c)).
  { assert (Hb : at_least_as_good (di_Policy input) (rank_member input m') (rank_member input m))
      by (apply best_least; [done | apply elem_of_rank; eauto | done]).
    unfold at_least_as_good in Hb. cbn. lia. }
  pose proof (eligible_health input m He) as Hh. rewrite (decide_current_target c Hsw). revert Hsw.
  unfold decide_current. cbn [co_input co_current co_best c]. rewrite Hforce, Hh. cbn [andb].
  unfold eligible in He. destruct (rw_Excluded (rank_member input m)) eqn:Ex; [done|].
  case_if; [|done]. intros Hsw. destruct (decide_improve_switch c Hle Hsw) as [Hj Ht].
  split_and!; try done.
  - apply rank_member_name.
  - rewrite rank_member_name in E0. bools. congruence.
Qed.

(** ** Where a switch goes *)

Definition is_member (input : DecideInput) (name : string) : Prop :=
  ∃ m, m ∈ di_Members input ∧ mb_Name m = name.

Lemma existsb_member input name :
  existsb (λ m, eqs (mb_Name m) name) (di_Members input) = true ↔ is_member input name.
Proof.
  rewrite existsb_exists. unfold is_member. setoid_rewrite list_elem_of_In.
  setoid_rewrite eqs_true. done.
Qed.

Lemma strandedTarget_member input :
  strandedTarget (pl_Stranded (di_Policy input)) (di_Members input) ≠ EmptyString →
  is_member input (strandedTarget (pl_Stranded (di_Policy input)) (di_Members input)).
Proof.
  unfold strandedTarget. destruct (if eqs _ "direct" then _ else _) as [want|]; [|done].
  case_if; [|done]. intros _. by apply existsb_member.
Qed.

(** What a switch to [name] may be: to the fixed member, to the fallback of
    a stranded group, or to an eligible member. *)
Definition switch_target (input : DecideInput) (name : string) : Prop :=
  (name = pl_Fixed (di_Policy input) ∧ pin_down input = false ∧ is_member input name) ∨
  (is_member input name ∧ (∀ m, m ∈ di_Members input → eligible (rank_member input m) = false) ∧
   name = strandedTarget (pl_Stranded (di_Policy input)) (di_Members input)) ∨
  (∃ m, m ∈ di_Members input ∧ mb_Name m = name ∧ eligible (rank_member input m) = true).

Lemma decide_free_target input d current needs :
  distinct_names input → current = by_name (rank input) (di_Now input) →
  dc_Target d = di_Now input → dc_Action d = HoldAction →
  let d' := decide_free input (rank input) d current (List.find eligible (rank input)) needs in
  is_switch d' → switch_target input (dc_Target d') ∧ dc_Target d' ≠ di_Now input.
Proof.
  intros Hd -> Ht Ha. cbn zeta. unfold decide_free.
  destruct (List.find eligible (rank input)) as [b|] eqn:Eb.
  - destruct (best_member _ _ Eb) as (m & Hm & -> & He).
    destruct (by_name (rank input) (di_Now input)) as [cur|] eqn:Ec.
    + intros Hsw. rewrite (decide_current_target _ Hsw). cbn. rewrite rank_member_name.
      split; [right; right; eauto|]. intros Hn. rewrite <- Hn in Ec.
      rewrite (by_name_rank _ _ Hd Hm) in Ec. injection Ec as <-.
      revert Hsw. unfold decide_current. cbn. rewrite rank_member_name, Hn, (eligible_health _ _ He), eqs_refl, andb_false_r.
      unfold eligible in He. by destruct (rw_Excluded _).
    + intros _. cbn. rewrite rank_member_name. split; [right; right; eauto|].
      intros Hn. rewrite by_name_None in Ec. apply (Ec (rank_member input m)); [apply elem_of_rank; eauto|].
      by rewrite rank_member_name.
  - unfold decide_stranded, is_switch. destruct (match _ with Some c => _ | None => _ end).
    { cbn. by rewrite Ha. }
    case_if; [|done]. cbn. intros _. apply andb_true_iff in E as [E1%negb_true_iff%empty_false E2%negb_true_iff%eqs_false].
    split; [|done]. right; left. split_and!; [by apply strandedTarget_member | | done].
    intros m Hm. apply (List.find_none _ _ Eb). rewrite <- list_elem_of_In. apply elem_of_rank. eauto.
Qed.

Lemma decide_free_member input d current needs : dc_Action d = HoldAction →
  let d' := decide_free input (rank input) d current (List.find eligible (rank input)) needs in
  is_switch d' → is_member input (dc_Target d').
Proof.
  intros Ha. cbn zeta. unfold decide_free.
  destruct (List.find eligible (rank input)) as [b|] eqn:Eb.
  - destruct (best_member _ _ Eb) as (m & Hm & -> & _).
    destruct current as [cur|]; intros Hsw; [rewrite (decide_current_target _ Hsw)|];
      exists m; cbn; by rewrite rank_member_name.
  - unfold decide_stranded, is_switch. destruct (match current with Some c => _ | None => _ end).
    { cbn. by rewrite Ha. }
    case_if; [|done]. intros _. apply strandedTarget_member.
    by apply andb_true_iff in E as [E%negb_true_iff%empty_false _].
Qed.

(** The target of a switch is a member, whatever the names. *)
Lemma Decide_target input : is_switch (Decide input) → is_member input (dc_Target (Decide input)).
Proof.
  unfold Decide, is_mode. case_bool_decide; [done|]. case_if.
  { unfold decideFixed, is_switch. case_if; [done|]. case_if; [|done]. intros _. by apply existsb_member. }
  unfold decide_ranked. cbn zeta. case_if; [done|].
  destruct (pin_down input); [|by apply decide_free_member].
  destruct (by_name (rank input) (ct_PinName _)) as [pin|] eqn:Epin; [|by apply decide_free_member].
  case_if; [|by apply decide_free_member].
  case_if; [done|]. intros _. apply by_name_Some in Epin as [Hin _]. apply elem_of_rank in Hin as (m & Hm & ->).
  exists m. split; [done|]. cbn. by rewrite rank_member_name.
Qed.

(** C2: a switch is safe. Whenever [Decide] switches, the target is a
    member of the group and another than the current one; it is the fixed
    member the scenario asks for, or the fallback of a group with no
    eligible member, or an eligible member (in the pool, not cooling down,
    not dead, in a tier). Under manual control nothing is switched. *)
Theorem decide_switch_safe input :
  distinct_names input → is_switch (Decide input) →
  ct_Mode (di_Control input) ≠ ManualMode ∧
  switch_target input (dc_Target (Decide input)) ∧ dc_Target (Decide input) ≠ di_Now input.
Proof.
  intros Hd. unfold Decide, is_mode. case_bool_decide as Em; [done|].
  case_if.
  { unfold decideFixed, is_switch. case_if; [done|]. case_if; [|done]. intros _. cbn. bools.
    destruct E as [? Hp]. split_and!; [done | left | congruence].
    split_and!; [done.. | by apply existsb_member]. }
  unfold decide_ranked. cbn zeta. case_if; [done|].
  destruct (pin_down input) eqn:Ep.
  - destruct (by_name (rank input) (ct_PinName _)) as [pin|] eqn:Epin.
    2: { intros Hsw. split; [done|]. by apply decide_free_target in Hsw. }
    case_if; [|intros Hsw; split; [done|]; by apply decide_free_target in Hsw].
    destruct (by_name_rank_inv _ _ _ Hd Epin) as (m & Hm & Hn & ->). apply andb_true_iff in E1 as [_ He].
    case_if; [done|]. intros _. cbn. rewrite rank_member_name in *. bools.
    split_and!; [done | right; right; eauto | congruence].
  - intros Hsw. split; [done|]. by apply decide_free_target in Hsw.
Qed.

(** C3: a dead or missing node is replaced. Under automatic control on a
    network that is not paused and with no fixed member, if some member is
    eligible and the current node is no member or is dead, [Decide]
    switches, and to an eligible member. *)
Theorem decide_failover input m :
  distinct_names input → ct_Mode (di_Control input) = AutoMode →
  pl_Fixed (di_Policy input) = EmptyString → di_Paused input = false →
  m ∈ di_Members input → eligible (rank_member input m) = true →
  (∀ c, c ∈ di_Members input → mb_Name c = di_Now input → Dead (member_facts c) = true) →
  is_switch (Decide input) ∧
  ∃ m', m' ∈ di_Members input ∧ eligible (rank_member input m') = true ∧
    dc_Target (Decide input) = mb_Name m'.
Proof.
  intros Hd Hmode Hfix Hpause Hm He Hdead. rewrite Decide_ranked by (rewrite ?Hmode; auto).
  unfold decide_ranked. rewrite auto_not_pinned by done. cbn zeta. rewrite Hpause.
  unfold decide_free. destruct (List.find eligible (rank input)) as [b|] eqn:Eb.
  2: { pose proof (List.find_none _ _ Eb (rank_member input m)) as Hn.
       rewrite <- list_elem_of_In, He in Hn. discriminate Hn. apply elem_of_rank. eauto. }
  destruct (best_member _ _ Eb) as (m' & Hm' & -> & He').
  destruct (by_name (rank input) (di_Now input)) as [cur|] eqn:Ec.
  2: { split; [done|]. exists m'. split_and!; try done. cbn. apply rank_member_name. }
  destruct (by_name_rank_inv _ _ _ Hd Ec) as (c & Hc & Hn & ->).
  set (ch := Build_Choice _ _ _ _ _).
  assert (Hsw : is_switch (decide_current ch)).
  { unfold decide_current, is_switch. cbn [co_current ch co_input].
    case_if; [done|]. rewrite rank_member_health, health_dead, (Hdead c Hc Hn). done. }
  split; [done|]. exists m'. split_and!; try done. rewrite (decide_current_target ch Hsw). apply rank_member_name.
Qed.

(** On a paused network nothing is judged: outside manual control and
    with no fixed member, [Decide] holds the current node and asks for no
    check. *)
Theorem decide_paused input :
  di_Paused input = true → ct_Mode (di_Control input) ≠ ManualMode →
  pl_Fixed (di_Policy input) = EmptyString ∨ pin_down input = true →
  dc_Action (Decide input) = HoldAction ∧ dc_Target (Decide input) = di_Now input ∧
  dc_Needs (Decide input) = [].
Proof.
  intros Hp Hm Hf. rewrite Decide_ranked by done. unfold decide_ranked. cbn zeta. by rewrite Hp.
Qed.

(** ** The order of the members *)

Lemma rank_order_antisym p a b : rank_order p a b = 0 → rw_Name a = rw_Name b.
Proof.
  unfold rank_order, cmp_or. repeat case_match; intros E; bools; try congruence.
  all: by apply compareS_0.
Qed.

Lemma sort_rank_perm p rows rows' :
  NoDup (rw_Name <$> rows) → rows' ≡ₚ rows →
  sort_stable (rank_order p) rows' = sort_stable (rank_order p) rows.
Proof.
  intros Hd Hp.
  assert (Hs : ∀ l, sorted_by (rank_order p) (sort_stable (rank_order p) l))
    by (intros; apply sort_stable_sorted, rank_order_preorder).
  apply (sorted_unique_on (rank_order p)); auto using rank_order_preorder.
  - intros x y Hx Hy E%rank_order_antisym. rewrite elem_of_sort_stable in Hx, Hy. rewrite Hp in Hx.
    apply list_elem_of_lookup in Hx as [i Hi]. apply list_elem_of_lookup in Hy as [j Hj].
    assert (i = j) as ->; [|congruence].
    apply (proj1 (NoDup_alt _) Hd i j (rw_Name x)); rewrite list_lookup_fmap, ?Hi, ?Hj; cbn; congruence.
  - by rewrite !sort_stable_perm.
Qed.

Definition with_members (input : DecideInput) (members : list Member) : DecideInput :=
  {| input with di_Members := members |}.

Lemma rank_with_members input members m :
  rank_member (with_members input members) m = rank_member input m.
Proof. reflexivity. Qed.

Lemma rank_order_irrelevant input members :
  distinct_names input → members ≡ₚ di_Members input →
  rank (with_members input members) = rank input.
Proof.
  intros Hd Hp. unfold rank. cbn [with_members di_Policy di_Members]. apply sort_rank_perm.
  - rewrite <- list_fmap_compose. erewrite list_fmap_ext; [exact Hd|].
    intros i x _. apply rank_member_name.
  - change (rank_member (with_members input members)) with (rank_member input). by rewrite Hp.
Qed.

Lemma existsb_perm {A} (f : A → bool) l l' : l ≡ₚ l' → existsb f l = existsb f l'.
Proof. induction 1; cbn; [done | congruence | by rewrite !orb_assoc, (orb_comm (f y)) | congruence]. Qed.

Lemma find_perm_name (f : Member → bool) members members' name :
  NoDup (mb_Name <$> members') → members ≡ₚ members' →
  List.find (λ m, eqs (mb_Name m) name && f m) members =
  List.find (λ m, eqs (mb_Name m) name && f m) members'.
Proof.
  intros Hd Hp.
  assert (Hiff : ∀ l x, NoDup (mb_Name <$> l) →
    List.find (λ m, eqs (mb_Name m) name && f m) l = Some x ↔ x ∈ l ∧ mb_Name x = name ∧ f x = true).
  { clear. intros l x. induction l as [|y l IH]; cbn.
    { split; [done|]. by intros [?%not_elem_of_nil _]. }
    intros [Hy Hd]%NoDup_cons. destruct (eqs (mb_Name y) name && f y) eqn:E.
    - apply andb_true_iff in E as [E1%eqs_true E2]. split; [intros [= <-]; split_and!; [left|done..]|].
      intros ([->|Hx]%elem_of_cons & Hn & _); [done|]. destruct Hy. rewrite E1, <- Hn. by apply list_elem_of_fmap_2.
    - rewrite (IH Hd), elem_of_cons. split; [intros (?&?&?); auto|].
      intros ([->|?] & <- & Hf); [|done]. by rewrite eqs_refl, Hf in E. }
  apply option_eq. intros x. rewrite !Hiff by (done || by rewrite Hp). by rewrite Hp.
Qed.

Lemma count_confirmed_members input members bar c n l :
  count_confirmed (with_members input members) bar c n l = count_confirmed input bar c n l.
Proof. revert n. induction l as [|x l IH]; intros n; cbn; [done|]. by rewrite IH. Qed.

Lemma confirmed_members b input members p bar :
  distinct_names input → members ≡ₚ di_Members input →
  confirmed b (with_members input members) p bar = confirmed b input p bar.
Proof.
  intros Hd Hp. unfold confirmed. cbn [with_members di_Members].
  rewrite (find_perm_name (λ m, negb (is_none (mb_Facts m))) members (di_Members input) _ Hd Hp).
  destruct (List.find _ _); [|done]. apply count_confirmed_members.
Qed.

(** C16: the order in which the config lists the members is irrelevant: on
    the same members with distinct names in any order, [Decide] gives the
    same decision, ranking and reasons included. *)
Theorem decide_order_irrelevant input members :
  distinct_names input → members ≡ₚ di_Members input →
  Decide (with_members input members) = Decide input.
Proof.
  intros Hd Hp. unfold Decide, decideFixed, decide_ranked. rewrite (rank_order_irrelevant _ _ Hd Hp).
  cbn [with_members di_Policy di_Members di_Now di_Control di_Net di_Paused pin_down].
  assert (Hfree : ∀ d cur best needs,
    decide_free (with_members input members) (rank input) d cur best needs =
    decide_free input (rank input) d cur best needs).
  { intros d cur [b|] needs; cbn.
    - destruct cur as [cur|]; [|done]. unfold decide_current. cbn.
      assert (Hi : ∀ c, co_input c = input →
        decide_improve {| c with co_input := with_members input members |} = decide_improve c).
      { intros [? rows b' cur' ns] [= ->]. unfold decide_improve, tier_confirmed. cbn [co_input co_best co_current].
        by rewrite confirmed_members. }
      specialize (Hi (Build_Choice input (rank input) b cur needs) eq_refl). cbn in Hi.
      change (pin_down (with_members input members)) with (pin_down input).
      repeat case_if; try done; destruct (rw_Excluded cur); repeat case_if; done.
    - unfold decide_stranded, strandedTarget. cbn [with_members di_Policy di_Members di_Now].
      destruct (if eqs _ "direct" then _ else _) as [want|]; [|done]. by rewrite (existsb_perm _ _ _ Hp). }
  rewrite !Hfree. by rewrite (existsb_perm _ _ _ Hp).
Qed.
End facts.

(** ** A group of two servers *)

Module Sample.

Definition no_regexp : Regexp := {| re_compiles _ := false; re_match _ _ := false |}.
#[local] Existing Instance ascii_tables.
#[local] Existing Instance no_regexp.

Definition policy : Policy :=
  {| pl_ID := "builtin/simple"; pl_Title := ""; pl_Level := "simple"; pl_Include := None; pl_Exclude := None;
     pl_Tags := []; pl_Tiers := [working_tier]; pl_RankBy := "latency"; pl_Tolerance := 20;
     pl_Improve := true; pl_Dwell := 10 * Minute; pl_MinGainMs := 30; pl_MinGainPct := 20;
     pl_Confirm := 2; pl_MaxPerHour := 4; pl_Stranded := "hold"; pl_Energy := "balanced"; pl_Fixed := "";
     pl_Checks := ∅; pl_CheckIDs := []; pl_UsesExit := false;
     pl_Egress := {| eg_Echo := defaultEcho; eg_Agree := 2 |}; pl_Diagnostics := ∅; pl_Kinds := [];
     pl_DirectSplit := None |}.

Definition node (name : string) : Node :=
  {| nd_Name := name; nd_Provider := ""; nd_Type := "Vless"; nd_UDP := true; nd_Server := "";
     nd_Strong := ""; nd_Endpoint := ""; nd_Entry := ""; nd_NameCountry := ""; nd_Via := [] |}.

Definition day : time := 1000 * 24 * Hour.

(** A member measured twice, [ms] each time, ten and five minutes ago. *)
Definition member (name : string) (ms : Z) : Member :=
  {| mb_Node := node name; mb_Key := name;
     mb_Facts := Some (noteSample (noteSample no_facts (day - 10 * Minute) ms ProbeSource)
                         (day - 5 * Minute) ms ProbeSource);
     mb_Exit := None |}.

Definition dead_member (name : string) : Member :=
  {| (member name 90) with mb_Facts := Some (markDead no_facts (day - Minute)) |}.

Definition auto : Control := {| ct_Mode := AutoMode; ct_Pin := ""; ct_PinName := ""; ct_PinEnv := "" |}.

Definition input (members : list Member) : DecideInput :=
  {| di_Policy := policy; di_Members := members; di_Now := "slow"; di_Control := auto; di_Env := "home";
     di_Excluded := ∅; di_LastSwitch := day - Hour; di_SwitchesHour := 0; di_Freshness := baseFreshness;
     di_At := day; di_ForceSwitch := false; di_Net := None; di_Paused := false |}.

Definition two : DecideInput := input [member "slow" 300; member "fast" 50].
Definition down : DecideInput := input [dead_member "slow"; member "fast" 50].

Lemma two_distinct : distinct_names two.
Proof. apply (bool_decide_unpack _). vm_compute. exact I. Qed.
Lemma down_distinct : distinct_names down.
Proof. apply (bool_decide_unpack _). vm_compute. exact I. Qed.

Lemma rank_best_example : rw_Name <$> rank two = ["fast"; "slow"]%string.
Proof. vm_compute. reflexivity. Qed.

Lemma decide_keeps_working_witness :
  is_switch (Decide two) ∧ ∃ m', m' ∈ di_Members two ∧ dc_Target (Decide two) = mb_Name m' ∧ mb_Name m' ≠ "slow"%string.
Proof.
  assert (Hs : is_switch (Decide two)) by (vm_compute; reflexivity).
  split; [exact Hs|].
  destruct (decide_keeps_working two (member "slow" 300) two_distinct) as (m' & needs & H1 & _ & H2 & H3 & _).
  - split_and!; [left | reflexivity | vm_compute; reflexivity].
  - reflexivity.
  - reflexivity.
  - reflexivity.
  - exact Hs.
  - exists m'. split_and!; [exact H1 | exact H2 | exact H3].
Defined.

Lemma decide_switch_safe_witness :
  switch_target two (dc_Target (Decide two)) ∧ dc_Target (Decide two) = "fast"%string.
Proof.
  destruct (decide_switch_safe two two_distinct) as (_ & H & _); [vm_compute; reflexivity|].
  split; [exact H | vm_compute; reflexivity].
Defined.

Lemma decide_failover_witness :
  is_switch (Decide down) ∧ rs_Code (dc_Reason (Decide down)) = "switch.failover"%string.
Proof.
  destruct (decide_failover down (member "fast" 50) down_distinct) as [H _].
  - reflexivity.
  - reflexivity.
  - reflexivity.
  - right. left.
  - vm_compute. reflexivity.
  - intros c Hc Hn. cbn in Hc. rewrite !elem_of_cons, elem_of_nil in Hc.
    destruct Hc as [->|[->|[]]]; [vm_compute; reflexivity | vm_compute in Hn; congruence].
  - split; [exact H | vm_compute; reflexivity].
Defined.

Lemma decide_paused_witness :
  dc_Action (Decide {| down with di_Paused := true |}) = HoldAction.
Proof.
  destruct (decide_paused {| down with di_Paused := true |}) as [H _];
    [reflexivity | vm_compute; congruence | left; reflexivity | exact H].
Defined.

Lemma decide_order_irrelevant_witness :
  Decide (with_members two [member "fast" 50; member "slow" 300]) = Decide two.
Proof. apply (decide_order_irrelevant two _ two_distinct). apply Permutation_swap. Defined.

(** A fixed group is switched even on a paused network: [decideFixed] comes
    before the pause is looked at. *)
Lemma fixed_ignores_pause :
  is_switch (Decide {| (input [member "slow" 300; member "fast" 50]) with
    di_Policy := {| policy with pl_Fixed := "fast" |}; di_Paused := true |}).
Proof. vm_compute. reflexivity. Qed.

End Sample.
