(* ===== verification/ProviderPolicy.v ===== *)
(** * The provider's limits: core/provider_policy.go

    A subscription may restrict which servers GLOBAL mode reaches, or keep
    applications outside the VPN. The policy is parsed from the provider's
    document, saved apart from the config, and asked on every connection. *)

From S2P Require Import Prelude GoText.

Definition maxPolicyNodes : nat := 4096.
Definition maxPolicyApps : nat := 512.

(** ** The core's proxies

    mihomo's proxies, as far as the code looks at them. [px_Type] is a
    [constant.AdapterType]; the types the code names are the other fields. *)
Class Mihomo := {
  Proxy : Type;
  px_Name : Proxy → string;
  px_Type : Proxy → Z;
  px_outbound : Proxy → bool;              (** it is an [*adapter.Proxy] *)
  px_members : Proxy → option (list Proxy); (** [Proxies()] of a group *)
  px_RouteFingerprint : Proxy → string;
  px_DialerProxy : Proxy → string;
  ty_Selector : Z; ty_URLTest : Z; ty_Fallback : Z; ty_LoadBalance : Z; ty_Relay : Z;
  ty_Direct : Z; ty_Reject : Z; ty_RejectDrop : Z; ty_Pass : Z; ty_Compatible : Z; ty_Dns : Z;
  ty_Shadowsocks : Z;                      (** the first type of a server *)
}.

(** ** The policy *)

Record providerPolicy := {
  pp_Version : Z;
  pp_Restricted : bool;
  pp_Allowed : list string;
  pp_Apps : list string;
  pp_NoGlobal : bool;
  pp_Blocked : bool;
  pp_Epoch : Z;
}.

(** [&providerPolicy{Version: 1}]. *)
Definition no_limits : providerPolicy :=
  {| pp_Version := 1; pp_Restricted := false; pp_Allowed := []; pp_Apps := []; pp_NoGlobal := false;
     pp_Blocked := false; pp_Epoch := 0 |}.

Definition enforced (p : option providerPolicy) : bool :=
  match p with
  | Some p => pp_Restricted p || pp_NoGlobal p || pp_Blocked p || negb (bool_decide (pp_Apps p = []))
  | None => false
  end.

Definition allowsGlobal (p : option providerPolicy) : bool :=
  match p with
  | Some p => negb (pp_Blocked p) && negb (pp_NoGlobal p) && (negb (pp_Restricted p) || negb (bool_decide (pp_Allowed p = [])))
  | None => true
  end.

(** [slices.BinarySearch]: the loop halves [i, j) until it is empty. *)
Fixpoint search_go (fuel : nat) (x : list string) (target : string) (i j : nat) : nat :=
  match fuel with
  | O => i
  | S fuel =>
      if (i <? j)%nat then
        let h := ((i + j) / 2)%nat in
        if match x !! h with Some s => compareS s target <? 0 | None => false end then search_go fuel x target (S h) j
        else search_go fuel x target i h
      else i
  end.

Definition binary_search (x : list string) (target : string) : bool :=
  match x !! search_go (length x) x target 0 (length x) with Some s => eqs s target | None => false end.

Definition allowsRoute (p : providerPolicy) (fingerprint : string) : bool :=
  negb (empty fingerprint) && binary_search (pp_Allowed p) fingerprint.

(** ** Parsing *)

(** What a document decodes to. *)
Inductive value :=
  | VString (s : string) | VInt (i : Z) | VList (l : list value) | VMap (m : gmap string value) | VOther.

Inductive policyError :=
  | CannotRead | NotMappings | UnknownField | UnsupportedVersion | InvalidList | InvalidEntry
  | InvalidNodeID | InvalidNode | TooManyNodes | UnknownNodeID (id : string)
  | InvalidSaved | NeedsVPN | AppsNotExcluded.

(** The decryption, the YAML decoder, the proxies of the raw config and the
    fingerprint of one. *)
Class PolicyText := {
  pt_decrypt : string → option string;
  pt_document : string → option (gmap string value);
  pt_proxies : string → option (list (gmap string value));
  pt_fingerprint : gmap string value → string;
}.

Definition word_byte (c : ascii) : bool :=
  let z := byteZ c in ascii_digit z || (65 <=? z) && (z <=? 90) || (97 <=? z) && (z <=? 122).
Definition letter_byte (c : ascii) : bool := word_byte c && negb (ascii_digit (byteZ c)).
Definition one_of (chars : string) (c : ascii) : bool := bool_decide (c ∈ String.list_ascii_of_string chars).

(** [[A-Za-z0-9][A-Za-z0-9._:-]{0,63}] as a whole. *)
Definition policyNodeID (text : string) : bool :=
  match String.list_ascii_of_string text with
  | c :: rest => word_byte c && (length rest <=? 63)%nat && forallb (λ c, word_byte c || one_of "._:-" c) rest
  | [] => false
  end.

(** Segments [[A-Za-z][A-Za-z0-9_]*], two at least, joined by dots. *)
Definition package_segment (text : string) : bool :=
  match String.list_ascii_of_string text with
  | c :: rest => letter_byte c && forallb (λ c, word_byte c || one_of "_" c) rest
  | [] => false
  end.
Definition policyPackage (text : string) : bool :=
  let segments := Split text "." in (2 <=? length segments)%nat && forallb package_segment segments.

Section parse.
Context `{PolicyText}.

Definition policyMapping (v : value) (keys : list string) : result policyError (gmap string value) :=
  match v with
  | VMap m => if forallb (λ kv, mem_string kv.1 keys) (map_to_list m) then Ok m else Err UnknownField
  | _ => Err NotMappings
  end.

Fixpoint policy_entries (pattern : string → bool) (seen : gset string) (values : list value)
    : result policyError (list string) :=
  match values with
  | [] => Ok []
  | VString text :: values =>
      if negb (pattern text) || bool_decide (text ∈ seen) then Err InvalidEntry
      else rest ← policy_entries pattern ({[text]} ∪ seen) values; Ok (text :: rest)
  | _ :: _ => Err InvalidEntry
  end.

Definition policyStrings (v : option value) (limit : nat) (pattern : string → bool) : result policyError (list string) :=
  match v with
  | Some (VList values) =>
      if (limit <? length values)%nat then Err InvalidList
      else texts ← policy_entries pattern ∅ values; Ok (sorted_strings texts)
  | _ => Err InvalidList
  end.

Definition policy_node (nodes : gmap string string) (node : gmap string value) : result policyError (gmap string string) :=
  match node !! "reclash-id"%string with
  | None => Ok nodes
  | Some (VString id) =>
      if negb (policyNodeID id) || bool_decide (is_Some (nodes !! id)) then Err InvalidNodeID
      else
        let fingerprint := pt_fingerprint node in
        if empty fingerprint then Err InvalidNode else Ok (<[id := fingerprint]> nodes)
  | Some _ => Err InvalidNodeID
  end.

Fixpoint policy_nodes (nodes : gmap string string) (proxies : list (gmap string value)) : result policyError (gmap string string) :=
  match proxies with
  | [] => Ok nodes
  | node :: proxies => nodes ← policy_node nodes node; policy_nodes nodes proxies
  end.

Fixpoint allowed_routes (nodes : gmap string string) (ids : list string) : result policyError (list string) :=
  match ids with
  | [] => Ok []
  | id :: ids =>
      match nodes !! id with
      | None => Err (UnknownNodeID id)
      | Some fingerprint => rest ← allowed_routes nodes ids; Ok (fingerprint :: rest)
      end
  end.

(** [slices.Compact]. *)
Fixpoint compact (l : list string) : list string :=
  match l with
  | x :: l' => match l' with
               | y :: _ => if eqs x y then compact l' else x :: compact l'
               | [] => [x]
               end
  | [] => []
  end.

Definition parse_global (root : gmap string value) : result policyError (bool * list string) :=
  match root !! "global"%string with
  | None => Ok (false, [])
  | Some v =>
      global ← policyMapping v ["allow"%string];
      allowed ← policyStrings (global !! "allow"%string) maxPolicyNodes policyNodeID;
      Ok (true, allowed)
  end.

Definition parse_apps (root : gmap string value) : result policyError (list string) :=
  match root !! "apps"%string with
  | None => Ok []
  | Some v =>
      apps ← policyMapping v ["android"%string];
      match apps !! "android"%string with
      | None => Ok []
      | Some v =>
          android ← policyMapping v ["exclude"%string];
          policyStrings (android !! "exclude"%string) maxPolicyApps policyPackage
      end
  end.

Definition parse_root (data : string) (v : value) : result policyError providerPolicy :=
  root ← policyMapping v ["version"; "global"; "apps"]%string;
  match root !! "version"%string with
  | Some (VInt 1) =>
      '(restricted, ids) ← parse_global root;
      apps ← parse_apps root;
      match pt_proxies data with
      | None => Err CannotRead
      | Some proxies =>
          nodes ← policy_nodes ∅ proxies;
          if (maxPolicyNodes <? size nodes)%nat then Err TooManyNodes
          else
            routes ← allowed_routes nodes ids;
            Ok {| no_limits with pp_Restricted := restricted; pp_Apps := apps;
                                 pp_Allowed := compact (sorted_strings routes) |}
      end
  | _ => Err UnsupportedVersion
  end.

Definition parseProviderPolicy (data : string) : result policyError providerPolicy :=
  match pt_decrypt data with
  | None => Err CannotRead
  | Some data =>
      match pt_document data with
      | None => Err CannotRead
      | Some document =>
          match document !! "reclash-policy"%string with
          | None => Ok no_limits
          | Some v => parse_root data v
          end
      end
  end.
End parse.

(** ** Who GLOBAL mode reaches *)

Section candidate.
Context `{Mihomo} (lookup : string → option Proxy).

(** The closure [allowed]; [seen] holds the proxies it is inside of, at most
    sixty-four. *)
Fixpoint route_allowed (fuel : nat) (policy : providerPolicy) (seen : gset string) (proxy : Proxy) : bool :=
  match fuel with
  | O => false
  | S fuel =>
      if bool_decide (px_Name proxy ∈ seen) || (64 <=? size seen)%nat then false
      else
        let seen := {[px_Name proxy]} ∪ seen in
        match px_outbound proxy, px_members proxy with
        | true, Some [] => false
        | true, Some members => forallb (route_allowed fuel policy seen) members
        | _, _ =>
            if negb (px_outbound proxy) || (px_Type proxy <? ty_Shadowsocks) ||
               negb (allowsRoute policy (px_RouteFingerprint proxy)) then false
            else if empty (px_DialerProxy proxy) then true
            else match lookup (px_DialerProxy proxy) with
                 | Some dependency => route_allowed fuel policy seen dependency
                 | None => false
                 end
        end
  end.

(** One more than the depth at which the closure refuses. *)
Definition route_fuel : nat := 65.

Definition providerPolicyCandidate (policy : option providerPolicy) (proxy : Proxy) : bool :=
  match policy with
  | None => true
  | Some p =>
      if negb (pp_Restricted p) && negb (pp_NoGlobal p) && negb (pp_Blocked p) then true
      else if negb (allowsGlobal policy) then false
      else route_allowed route_fuel p ∅ proxy
  end.
End candidate.

(** ** On every connection *)

Inductive metaType := INNER | TUN | OtherInbound.
#[export] Instance metaType_eq : EqDecision metaType. Proof. solve_decision. Defined.

Record Metadata := {
  md_Type : metaType;
  md_Process : string;
  md_PolicyGeneration : Z;
  md_PolicyGlobal : bool;
}.

Inductive refusal := PolicyBlocked | PolicyChanged | VPNOnly | UnknownApplication | ApplicationExcluded | NodeNotAllowed (name : string).

(** [process.FindPackageName]. *)
Class Process := { find_package : Metadata → option string }.

Section connection.
Context `{Mihomo} `{Process}.

(** [checkProviderPolicyMetadata]: the metadata it leaves, with the process
    it looked up, and its refusal. *)
Definition checkProviderPolicyMetadata (policy : providerPolicy) (md : Metadata) : Metadata * option refusal :=
  if pp_Blocked policy then (md, Some PolicyBlocked)
  else if negb (md_PolicyGeneration md =? 0) && negb (md_PolicyGeneration md =? pp_Epoch policy) then (md, Some PolicyChanged)
  else if negb (bool_decide (pp_Apps policy = [])) && negb (bool_decide (md_Type md = INNER)) then
    if negb (bool_decide (md_Type md = TUN)) then (md, Some VPNOnly)
    else
      let found := if empty (md_Process md) then find_package md else Some (md_Process md) in
      match found with
      | Some name =>
          if empty name then (md, Some UnknownApplication)
          else
            let md := {| md with md_Process := name |} in
            (md, if mem_string name (pp_Apps policy) then Some ApplicationExcluded else None)
      | None => (md, Some UnknownApplication)
      end
  else (md, None).

Definition providerPolicyMetadata (active : option providerPolicy) (globalMode : bool) (md : Metadata) : Metadata * option refusal :=
  if bool_decide (md_Type md = INNER) then (md, None)
  else match active with
       | Some policy =>
           if negb (enforced active) then (md, None)
           else checkProviderPolicyMetadata policy
                  {| md with md_PolicyGeneration := pp_Epoch policy; md_PolicyGlobal := md_PolicyGlobal md || globalMode |}
       | None => (md, None)
       end.

(** The types that choose a route elsewhere, or none. *)
Definition passes_through (ty : Z) : bool :=
  existsb (Z.eqb ty) [ty_Selector; ty_URLTest; ty_Fallback; ty_LoadBalance; ty_Relay; ty_Reject; ty_RejectDrop].

Definition providerPolicyDial (lookup : string → option Proxy) (active : option providerPolicy) (globalMode : bool)
    (proxy : Proxy) (md : Metadata) : Metadata * option refusal :=
  match active with
  | Some policy =>
      if negb (enforced active) then (md, None)
      else
        let '(md, err) := checkProviderPolicyMetadata policy md in
        match err with
        | Some e => (md, Some e)
        | None =>
            (md, if negb (md_PolicyGlobal md) && negb globalMode then None
                 else if negb (pp_Restricted policy) && negb (pp_NoGlobal policy) then None
                 else if passes_through (px_Type proxy) then None
                 else if providerPolicyCandidate lookup active proxy then None
                 else Some (NodeNotAllowed (px_Name proxy)))
        end
  | None => (md, None)
  end.

(** [providerPolicyAdmit]: the metadata it leaves; false when the connection
    is closed. *)
Definition providerPolicyAdmit (active : option providerPolicy) (md : option Metadata) : option Metadata * bool :=
  match active, md with
  | Some policy, Some m =>
      if negb (enforced active) || bool_decide (md_Type m = INNER) then (md, true)
      else
        let '(m, err) := checkProviderPolicyMetadata policy m in
        (Some m, match err with Some _ => false | None => true end)
  | _, _ => (md, true)
  end.
End connection.

(** ** The policy in force *)

(** The package's variables: the active policy, the epoch counter, the global
    mode; what was last saved, and how often every connection was closed. *)
Record policyState := {
  ps_active : option providerPolicy;
  ps_epoch : Z;
  ps_global : bool;
  ps_saved : option providerPolicy;
  ps_closed : nat;
}.

Definition policy_start : policyState :=
  {| ps_active := None; ps_epoch := 0; ps_global := false; ps_saved := None; ps_closed := 0 |}.

(** [providerPolicyEpoch.Add(1)]. *)
Definition next_epoch (s : policyState) : Z := (ps_epoch s + 1) mod 2 ^ 64.

(** [saved] tells whether the file was written, [global] the tunnel's mode. *)
Definition installProviderPolicy (s : policyState) (policy : providerPolicy) (saved global : bool) : policyState :=
  if negb saved then s
  else
    let active := {| policy with pp_Epoch := next_epoch s |} in
    {| ps_active := Some active; ps_epoch := next_epoch s; ps_global := global; ps_saved := Some policy;
       ps_closed := if enforced (Some active) || enforced (ps_active s) then S (ps_closed s) else ps_closed s |}.

Definition blockProviderPolicy (s : policyState) (saved : bool) : policyState :=
  let policy := {| no_limits with pp_Blocked := true; pp_Epoch := next_epoch s |} in
  {| s with ps_active := Some policy; ps_epoch := next_epoch s; ps_closed := S (ps_closed s);
            ps_saved := if saved then Some policy else ps_saved s |}.

Definition providerPolicyModeChanged (s : policyState) (global : bool) : policyState :=
  match ps_active s with
  | Some policy =>
      if enforced (Some policy) then
        {| s with ps_global := global; ps_active := Some {| policy with pp_Epoch := next_epoch s |};
                  ps_epoch := next_epoch s; ps_closed := S (ps_closed s) |}
      else {| s with ps_global := global |}
  | None => {| s with ps_global := global |}
  end.

(** ** Loading *)

Record SetupParams := {
  sp_PolicyPath : option string;
  sp_NoGlobal : option bool;
  sp_VPNEnabled : option bool;
  sp_ExcludedApps : list string;
}.

Inductive fileRead := FileData (data : string) | FileMissing | FileError.

Section load.
Context `{PolicyText}.
Context (read : string → fileRead) (decode_saved : string → option providerPolicy).
Context (policyPath configPath : string) (android : bool).

Definition parse_file (path : string) : result policyError providerPolicy :=
  match read path with FileData data => parseProviderPolicy data | _ => Err CannotRead end.

(** The policy before the switches of the parameters. *)
Definition load_base (active : option providerPolicy) (params : SetupParams) : result policyError providerPolicy :=
  match sp_PolicyPath params with
  | Some path => if empty path then Ok no_limits else parse_file path
  | None =>
      match active with
      | Some current => Ok current
      | None =>
          match read policyPath with
          | FileMissing =>
              match read configPath with
              | FileMissing => Ok no_limits
              | FileData data => parseProviderPolicy data
              | FileError => Err CannotRead
              end
          | FileData data =>
              match decode_saved data with
              | None => Err CannotRead
              | Some p =>
                  if negb (pp_Version p =? 1) || (maxPolicyNodes <? length (pp_Allowed p))%nat ||
                     (maxPolicyApps <? length (pp_Apps p))%nat then Err InvalidSaved
                  else Ok p
              end
          | FileError => Err CannotRead
          end
      end
  end.

Definition loadProviderPolicy (active : option providerPolicy) (params : SetupParams) : result policyError providerPolicy :=
  policy ← load_base active params;
  let policy := match sp_NoGlobal params with Some b => {| policy with pp_NoGlobal := b |} | None => policy end in
  if bool_decide (pp_Apps policy = []) then Ok policy
  else if negb android || negb (default false (sp_VPNEnabled params)) then Err NeedsVPN
  else if forallb (λ app, mem_string app (sp_ExcludedApps params)) (pp_Apps policy) then Ok policy
  else Err AppsNotExcluded.
End load.
