(* ===== verification/ProviderPolicyFacts.v ===== *)
(** * Facts about the provider's limits

    What a parsed policy allows, what a dial under it reaches, and that a
    connection made under one policy does not go on under the next. *)

From S2P Require Import Prelude GoText ProviderPolicy.

(** ** Binary search *)

Lemma binary_search_found l s : binary_search l s = true → s ∈ l.
Proof.
  unfold binary_search. destruct (l !! _) as [s'|] eqn:E; [|done]. intros ->%eqs_true. by eapply list_elem_of_lookup_2.
Qed.

(** The loop ends at the first place of [s]. *)
Lemma search_go_spec l s k : sorted_by compareS l → l !! k = Some s → (∀ i, (i < k)%nat → l !! i ≠ Some s) →
  ∀ fuel i j, (i <= k <= j)%nat → (j <= length l)%nat → (j - i <= fuel)%nat → search_go fuel l s i j = k.
Proof.
  intros Hs Hk Hfirst. induction fuel as [|fuel IH]; intros i j Hij Hj Hf; cbn [search_go]; [lia|].
  destruct (Nat.ltb_spec i j) as [Hlt|]; [|lia]. cbn zeta.
  set (h := ((i + j) / 2)%nat). assert ((i <= h < j)%nat) as Hh.
  { unfold h. split; [apply Nat.div_le_lower_bound | apply Nat.div_lt_upper_bound]; lia. }
  destruct (lookup_lt_is_Some_2 l h ltac:(lia)) as [x Hx]. rewrite Hx.
  destruct (Z.ltb_spec (compareS x s) 0) as [Hlow|Hhigh]; (apply IH; [|lia|lia]).
  - split; [|lia]. destruct (decide (h < k)%nat) as [|Hge]; [lia|]. exfalso.
    destruct (decide (h = k)) as [->|Hne]; [simplify_eq; pose proof (proj2 (compareS_0 s s) eq_refl); lia|].
    pose proof (sorted_by_at _ _ Hs k h s x ltac:(lia) Hk Hx) as Hle. rewrite compareS_opp in Hle. lia.
  - split; [lia|]. destruct (decide (k <= h)%nat) as [|Hgt]; [done|]. exfalso.
    pose proof (sorted_by_at _ _ Hs h k x s ltac:(lia) Hx Hk) as Hle.
    assert (x = s) as -> by (apply compareS_0; lia). by apply (Hfirst h); [lia|].
Qed.

Lemma first_place (l : list string) s : s ∈ l → ∃ k, l !! k = Some s ∧ ∀ i, (i < k)%nat → l !! i ≠ Some s.
Proof.
  induction l as [|x l IH]; [by intros ?%elem_of_nil|]. destruct (decide (x = s)) as [->|Hne].
  { intros _. exists 0%nat. split; [done | lia]. }
  intros [?|Hin]%elem_of_cons; [congruence|]. destruct (IH Hin) as (k & Hk & Hf). exists (S k). split; [done|].
  intros [|i] Hi; cbn; [congruence | apply Hf; lia].
Qed.

Lemma binary_search_spec l s : sorted_by compareS l → binary_search l s = true ↔ s ∈ l.
Proof.
  intros Hs. split; [apply binary_search_found|]. intros (k & Hk & Hf)%first_place. unfold binary_search.
  pose proof (lookup_lt_Some _ _ _ Hk).
  rewrite (search_go_spec l s k Hs Hk Hf) by lia. rewrite Hk. apply eqs_refl.
Qed.

Lemma elem_of_compact l x : x ∈ compact l ↔ x ∈ l.
Proof.
  induction l as [|y l IH]; [done|]. cbn [compact]. destruct l as [|z l]; [done|].
  case_if; [apply eqs_true in E as ->|]; rewrite ?elem_of_cons, IH, ?elem_of_cons; [tauto | done].
Qed.

Lemma sorted_compact l : sorted_by compareS l → sorted_by compareS (compact l).
Proof.
  induction 1 as [|x l Hx Hl IH]; [constructor|]. cbn [compact]. destruct l as [|y l].
  { constructor; [|constructor]. by intros ? ?%elem_of_nil. }
  case_if; [done|]. constructor; [|done]. intros z. rewrite elem_of_compact. apply Hx.
Qed.

Lemma sorted_sorted_strings l : sorted_by compareS (sorted_strings l).
Proof. apply sort_stable_sorted, (compareS_preorder id). Qed.

Lemma elem_of_sorted_strings l s : s ∈ sorted_strings l ↔ s ∈ l.
Proof. apply elem_of_sort_stable. Qed.

(** ** What a parsed policy allows *)

Section parse.
Context `{T : PolicyText}.

Lemma policy_entries_spec pattern values : ∀ seen texts, policy_entries pattern seen values = Ok texts →
  values = VString <$> texts ∧ NoDup texts ∧ Forall (λ t, pattern t = true ∧ t ∉ seen) texts.
Proof.
  induction values as [|v values IH]; intros seen texts; cbn [policy_entries].
  { intros [= <-]. split_and!; by constructor. }
  destruct v as [t| | | |]; try done. case_if; [done|]. apply orb_false_iff in E as [Hp%negb_false_iff Hseen%bool_decide_eq_false].
  intros (rest & Hrest & [= <-])%result_bind_Ok. destruct (IH _ _ Hrest) as (-> & Hnd & Hall).
  rewrite Forall_forall in Hall. split_and!; [done | |].
  - constructor; [|done]. intros Hin. destruct (Hall t Hin) as [_ Ht]. set_solver.
  - constructor; [done|]. apply Forall_forall. intros t' Ht'. destruct (Hall t' Ht'). set_solver.
Qed.

(** The proxies of the document with an id: each id once, each with a
    fingerprint. *)
Definition identified (proxies : list (gmap string value)) (id fingerprint : string) : Prop :=
  ∃ node, node ∈ proxies ∧ node !! "reclash-id"%string = Some (VString id) ∧ pt_fingerprint node = fingerprint.

Lemma identified_cons node proxies id f : identified (node :: proxies) id f ↔
  (node !! "reclash-id"%string = Some (VString id) ∧ pt_fingerprint node = f) ∨ identified proxies id f.
Proof.
  unfold identified. split.
  - intros (n & [->|Hn]%elem_of_cons & Hrest); [by left | right; by exists n].
  - intros [Hn|(n & Hn & Hrest)]; [exists node | exists n]; set_solver.
Qed.

Lemma policy_node_spec nodes node out : policy_node nodes node = Ok out → ∀ id f,
  out !! id = Some f ↔ nodes !! id = Some f ∨ (node !! "reclash-id"%string = Some (VString id) ∧ pt_fingerprint node = f).
Proof.
  unfold policy_node. destruct (node !! _) as [[t| | | |]|] eqn:E; try done.
  - case_if; [done|]. case_if; [done|]. intros [= <-] id f. apply orb_false_iff in E0 as [_ Hfresh%bool_decide_eq_false].
    rewrite lookup_insert_Some. apply eq_None_not_Some in Hfresh. split.
    + intros [[-> <-]|[_ Hn]]; [right; by split | by left].
    + intros [Hn|[[= ->] <-]]; [|by left]. right. split; [by intros ->; congruence | done].
  - intros [= <-] id f. split; [by left | by intros [?|[[=] _]]].
Qed.

Lemma policy_nodes_spec proxies : ∀ nodes out, policy_nodes nodes proxies = Ok out → ∀ id f,
  out !! id = Some f ↔ nodes !! id = Some f ∨ identified proxies id f.
Proof.
  induction proxies as [|node proxies IH]; intros nodes out; cbn [policy_nodes].
  { intros [= <-] id f. split; [by left|]. by intros [?|(n & ?%elem_of_nil & _)]. }
  intros (nodes' & H1 & H2)%result_bind_Ok id f. rewrite (IH _ _ H2), (policy_node_spec _ _ _ H1), identified_cons. tauto.
Qed.

Lemma allowed_routes_spec nodes ids : ∀ routes, allowed_routes nodes ids = Ok routes → ∀ f,
  f ∈ routes ↔ ∃ id, id ∈ ids ∧ nodes !! id = Some f.
Proof.
  induction ids as [|id ids IH]; intros routes; cbn [allowed_routes].
  { intros [= <-] f. split; [by intros ?%elem_of_nil | by intros (id & ?%elem_of_nil & _)]. }
  destruct (nodes !! id) as [g|] eqn:E; [|done]. intros (rest & Hrest & [= <-])%result_bind_Ok f.
  rewrite elem_of_cons, (IH _ Hrest). split.
  - intros [->|(id' & Hin & Hn)]; [exists id | exists id']; set_solver.
  - intros (id' & [->|Hin]%elem_of_cons & Hn); [left; congruence | right; by exists id'].
Qed.

#[local] Instance VString_inj : Inj eq eq VString. Proof. by intros ? ? [=]. Qed.

Lemma strings_inj (l l' : list string) : VString <$> l = VString <$> l' → l = l'.
Proof. apply (inj (fmap (M := list) VString)). Qed.

(** The list of ids a document allows in GLOBAL. *)
Definition global_allows (document : gmap string value) (ids : list string) : Prop :=
  ∃ root global, document !! "reclash-policy"%string = Some (VMap root) ∧
    root !! "global"%string = Some (VMap global) ∧ global !! "allow"%string = Some (VList (VString <$> ids)).

Lemma policyMapping_Ok v keys m : policyMapping v keys = Ok m → v = VMap m.
Proof. unfold policyMapping. destruct v; try done. case_if; [|done]. by intros [= ->]. Qed.

Lemma policyStrings_Ok v limit pattern texts : policyStrings v limit pattern = Ok texts →
  ∃ l, v = Some (VList (VString <$> l)) ∧ ∀ t, t ∈ texts ↔ t ∈ l.
Proof.
  unfold policyStrings. destruct v as [[| |values| |]|]; try done. case_if; [done|].
  intros (l & (-> & _)%policy_entries_spec & [= <-])%result_bind_Ok. exists l. split; [done|].
  intros t. apply elem_of_sorted_strings.
Qed.

Lemma parse_global_Ok root restricted ids : parse_global root = Ok (restricted, ids) →
  (restricted = false ∧ ids = [] ∧ root !! "global"%string = None) ∨
  (restricted = true ∧ ∃ global l, root !! "global"%string = Some (VMap global) ∧
     global !! "allow"%string = Some (VList (VString <$> l)) ∧ ∀ t, t ∈ ids ↔ t ∈ l).
Proof.
  unfold parse_global. destruct (root !! "global"%string) as [v|]; [|intros [= <- <-]; by left].
  intros (global & ->%policyMapping_Ok & (allowed & (l & Hl & Hin)%policyStrings_Ok & [= <- <-])%result_bind_Ok)%result_bind_Ok.
  right. split; [done|]. by exists global, l.
Qed.

Lemma parse_root_spec data v p : parse_root data v = Ok p →
  ∃ root proxies, v = VMap root ∧ pt_proxies data = Some proxies ∧
    pp_Blocked p = false ∧ pp_NoGlobal p = false ∧ sorted_by compareS (pp_Allowed p) ∧
    (pp_Restricted p = true ↔ is_Some (root !! "global"%string)) ∧
    ∀ f, f ∈ pp_Allowed p ↔ ∃ global l id, root !! "global"%string = Some (VMap global) ∧
      global !! "allow"%string = Some (VList (VString <$> l)) ∧ id ∈ l ∧ identified proxies id f.
Proof.
  unfold parse_root. intros (root & ->%policyMapping_Ok & Hrest)%result_bind_Ok. exists root.
  destruct (root !! "version"%string) as [[|[|[]|]| | |]|]; try done.
  apply result_bind_Ok in Hrest as ([restricted ids] & Hg & (apps & _ & Hrest)%result_bind_Ok).
  destruct (pt_proxies data) as [proxies|]; [|done]. exists proxies.
  apply result_bind_Ok in Hrest as (nodes & Hnodes & Hrest). case_if_in Hrest; [done|].
  apply result_bind_Ok in Hrest as (routes & Hroutes & [= <-]). cbn.
  pose proof (policy_nodes_spec _ _ _ Hnodes) as Hn. pose proof (allowed_routes_spec _ _ _ Hroutes) as Hr.
  split_and!; [done.. | by apply sorted_compact, sorted_sorted_strings | |].
  - apply parse_global_Ok in Hg as [(-> & _ & ->)|(-> & global & l & -> & _)]; [|by split].
    split; [done | by intros [? [=]]].
  - intros f. rewrite elem_of_compact, elem_of_sorted_strings, Hr.
    apply parse_global_Ok in Hg as [(_ & -> & ->)|(_ & global & l & -> & Hl & Hin)].
    + split; [by intros (id & ?%elem_of_nil & _) | by intros (? & ? & ? & [=] & _)].
    + split.
      * intros (id & Hid & [[=]|Hident]%Hn). exists global, l, id. split_and!; [done..| by apply Hin | done].
      * intros (global' & l' & id & [= <-] & Hl' & Hid & Hident). rewrite Hl in Hl'.
        assert (l' = l) as -> by (apply strings_inj; congruence).
        exists id. split; [by apply Hin | apply Hn; by right].
Qed.

(** what a provider's document allows. When the policy of a document is
    accepted, GLOBAL is restricted exactly when the document has a [global]
    section, and the route of a server is then allowed exactly when it is the
    fingerprint of a proxy of the same document whose id the section lists;
    no order of the list, repetition or binary search changes that, and no
    document blocks by itself. *)
Theorem parse_policy_exact data text document p : parseProviderPolicy data = Ok p →
  pt_decrypt data = Some text → pt_document text = Some document →
  pp_Blocked p = false ∧ pp_NoGlobal p = false ∧
  (pp_Restricted p = true ↔ ∃ root, document !! "reclash-policy"%string = Some (VMap root) ∧ is_Some (root !! "global"%string)) ∧
  ∀ f, allowsRoute p f = true ↔
    f ≠ EmptyString ∧ ∃ proxies ids id, pt_proxies text = Some proxies ∧ global_allows document ids ∧ id ∈ ids ∧
      identified proxies id f.
Proof.
  unfold parseProviderPolicy. intros Hp Hdec Hdoc. rewrite Hdec, Hdoc in Hp.
  assert (Hroute : ∀ q f, sorted_by compareS (pp_Allowed q) → allowsRoute q f = true ↔ f ≠ EmptyString ∧ f ∈ pp_Allowed q).
  { intros q f Hs. unfold allowsRoute. by rewrite andb_true_iff, negb_true_iff, empty_false, binary_search_spec. }
  unfold global_allows. destruct (document !! "reclash-policy"%string) as [v|].
  - apply parse_root_spec in Hp as (root & proxies & -> & Hproxies & Hb & Hng & Hs & Hres & Hall).
    split_and!; [done..| |].
    + rewrite Hres. split; [by exists root | by intros (root' & [= <-] & ?)].
    + intros f. rewrite Hroute, Hall by done. split.
      * intros (Hne & global & l & id & Hg & Ha & Hid & Hident). split; [done|]. exists proxies, l, id.
        split_and!; [done | by exists root, global | done..].
      * intros (Hne & proxies' & l & id & Hp' & (root' & global & [= <-] & Hg & Ha) & Hid & Hident). split; [done|].
        rewrite Hproxies in Hp'. simplify_eq. by exists global, l, id.
  - injection Hp as <-. split_and!; [done..| |].
    + cbn. split; [done | by intros (root & [=] & _)].
    + intros f. rewrite Hroute by constructor. split; [by intros [_ ?%elem_of_nil]|].
      by intros (_ & ? & ? & ? & _ & (? & ? & [=] & _) & _).
Qed.
End parse.

(** ** What a dial reaches *)

Section dial.
Context `{Mh : Mihomo} `{Pr : Process} (lookup : string → option Proxy).

(** A proxy through which only servers with an allowed route are dialled: a
    server with one, whose own dialer is such a proxy if it has one, or a
    group with members, all of them such proxies. *)
Inductive only_allowed (policy : providerPolicy) : Proxy → Prop :=
  | only_group proxy members : px_outbound proxy = true → px_members proxy = Some members → members ≠ [] →
      (∀ m, m ∈ members → only_allowed policy m) → only_allowed policy proxy
  | only_server proxy : px_outbound proxy = true → px_members proxy = None → ty_Shadowsocks <= px_Type proxy →
      px_RouteFingerprint proxy ≠ EmptyString → px_RouteFingerprint proxy ∈ pp_Allowed policy →
      (px_DialerProxy proxy ≠ EmptyString → ∃ d, lookup (px_DialerProxy proxy) = Some d ∧ only_allowed policy d) →
      only_allowed policy proxy.

Lemma allowsRoute_sound policy f : allowsRoute policy f = true → f ≠ EmptyString ∧ f ∈ pp_Allowed policy.
Proof. unfold allowsRoute. intros [Hf Hb]%andb_true_iff. split; [by bools | by apply binary_search_found]. Qed.

Lemma route_allowed_sound policy fuel : ∀ seen proxy,
  route_allowed lookup fuel policy seen proxy = true → only_allowed policy proxy.
Proof.
  induction fuel as [|fuel IH]; intros seen proxy; cbn [route_allowed]; [done|]. case_if; [done|].
  destruct (px_outbound proxy) eqn:Eo; cbn [negb orb].
  2: { destruct (px_members proxy); done. }
  destruct (px_members proxy) as [[|m members]|] eqn:Em; [done| |].
  - intros Hall. apply (only_group _ _ (m :: members)); [done..|]. intros x Hx.
    rewrite forallb_forall in Hall. by apply (IH ({[px_Name proxy]} ∪ seen)), Hall, list_elem_of_In.
  - case_if; [done|]. apply orb_false_iff in E0 as [Ht%Z.ltb_ge Hr%negb_false_iff]. apply allowsRoute_sound in Hr as [Hne Hin].
    intros Hd. apply only_server; [done..|]. intros Hdialer. rewrite (proj2 (empty_false _) Hdialer) in Hd.
    destruct (lookup (px_DialerProxy proxy)) as [d|]; [|done]. exists d. split; [done | by eapply IH].
Qed.

(** The recursion stops by itself: more fuel changes nothing. *)
Lemma route_allowed_fuel policy fuel : ∀ fuel' seen proxy, (65 <= fuel + size seen)%nat → (65 <= fuel' + size seen)%nat →
  (size seen <= 64)%nat →
  route_allowed lookup fuel policy seen proxy = route_allowed lookup fuel' policy seen proxy.
Proof.
  induction fuel as [|fuel IH]; intros fuel' seen proxy Hf Hf' Hs; [lia|]. destruct fuel' as [|fuel']; [lia|].
  cbn [route_allowed]. case_if; [done|]. apply orb_false_iff in E as [Hfresh%bool_decide_eq_false Hsize%Nat.leb_gt].
  assert (size ({[px_Name proxy]} ∪ seen) = S (size seen)) as Hnew by (rewrite size_union, size_singleton by set_solver; lia).
  assert (Hrec : ∀ p, route_allowed lookup fuel policy ({[px_Name proxy]} ∪ seen) p =
                      route_allowed lookup fuel' policy ({[px_Name proxy]} ∪ seen) p) by (intros p; apply IH; lia).
  destruct (px_outbound proxy), (px_members proxy) as [[|m members]|]; try done; cbn [negb orb].
  - generalize (m :: members). intros l. induction l as [|x l IHl]; [done|]. cbn. by rewrite Hrec, IHl.
  - case_if; [done|]. case_if; [done|]. destruct (lookup (px_DialerProxy proxy)); [apply Hrec | done].
Qed.

Lemma check_passes policy md md' : checkProviderPolicyMetadata policy md = (md', None) →
  pp_Blocked policy = false ∧ (md_PolicyGeneration md = 0 ∨ md_PolicyGeneration md = pp_Epoch policy) ∧
  md_PolicyGlobal md' = md_PolicyGlobal md ∧
  (pp_Apps policy = [] ∨ md_Type md = INNER ∨
   md_Type md = TUN ∧ md_Process md' ≠ EmptyString ∧ md_Process md' ∉ pp_Apps policy).
Proof.
  unfold checkProviderPolicyMetadata. destruct (pp_Blocked policy); [done|]. case_if; [done|].
  apply andb_false_iff in E. rewrite !negb_false_iff, !Z.eqb_eq in E. intros Hrest. split; [done|]. split; [done|]. revert Hrest.
  destruct (bool_decide (pp_Apps policy = [])) eqn:Ea; cbn [negb andb].
  { intros [= <-]. split; [done|]. left. by apply bool_decide_eq_true in Ea. }
  destruct (bool_decide (md_Type md = INNER)) eqn:Ei; cbn [negb andb].
  { intros [= <-]. split; [done|]. right; left. by apply bool_decide_eq_true in Ei. }
  destruct (bool_decide (md_Type md = TUN)) eqn:Et; cbn [negb]; [|done]. apply bool_decide_eq_true in Et.
  destruct (if empty (md_Process md) then _ else _) as [name|]; [|done]. case_if; [done|].
  case_if; [done|]. intros [= <-]. split; [done|]. right; right. cbn. split_and!; [done | by apply empty_false |].
  by apply bool_decide_eq_false in E1.
Qed.

Lemma either_on (a b : bool) : a || b = true → negb a && negb b = false.
Proof. by destruct a, b. Qed.

Lemma candidate_sound policy proxy : providerPolicyCandidate lookup (Some policy) proxy = true →
  pp_Restricted policy || pp_NoGlobal policy = true → pp_NoGlobal policy = false ∧ only_allowed policy proxy.
Proof.
  unfold providerPolicyCandidate. intros Hc Hr%either_on. rewrite Hr, andb_false_l in Hc.
  destruct (negb (allowsGlobal (Some policy))) eqn:Ea; [done|]. split; [|exact (route_allowed_sound _ _ _ _ Hc)].
  revert Ea. unfold allowsGlobal. by destruct (pp_NoGlobal policy), (pp_Blocked policy).
Qed.

(** C11: the provider's limits hold on every dial. While a policy is enforced,
    a connection is let through only if the policy does not block, was not
    replaced since the connection was accepted, and - with application limits -
    the connection is the VPN's and comes from a known application that is not
    excluded. And in GLOBAL mode with a restriction it goes through a group or
    a rejecting proxy, or through a proxy by which only allowed servers are
    dialled, the dialers of those servers included; never when GLOBAL is
    switched off. *)
Theorem dial_within_policy policy globalMode proxy md md' :
  providerPolicyDial lookup (Some policy) globalMode proxy md = (md', None) → enforced (Some policy) = true →
  pp_Blocked policy = false ∧ (md_PolicyGeneration md = 0 ∨ md_PolicyGeneration md = pp_Epoch policy) ∧
  (pp_Apps policy = [] ∨ md_Type md = INNER ∨
   md_Type md = TUN ∧ md_Process md' ≠ EmptyString ∧ md_Process md' ∉ pp_Apps policy) ∧
  (md_PolicyGlobal md || globalMode = true → pp_Restricted policy || pp_NoGlobal policy = true →
   passes_through (px_Type proxy) = false → pp_NoGlobal policy = false ∧ only_allowed policy proxy).
Proof.
  unfold providerPolicyDial. intros Hdial He. rewrite He in Hdial. cbn [negb] in Hdial.
  destruct (checkProviderPolicyMetadata policy md) as [md1 [e|]] eqn:Ec; [done|].
  apply check_passes in Ec as (Hb & Hgen & Hglobal & Happs). apply pair_equal_spec in Hdial as [<- Hdial].
  split_and!; [done..|]. intros Hg Hr Hp. rewrite Hglobal, Hp in Hdial.
  rewrite (either_on _ _ Hg), (either_on _ _ Hr) in Hdial.
  destruct (providerPolicyCandidate lookup (Some policy) proxy) eqn:Hc; [by apply candidate_sound | done].
Qed.
End dial.

(** ** Connections that outlive their policy *)

Inductive policyOp := Install (policy : providerPolicy) (saved global : bool) | Block (saved : bool) | ModeChanged (global : bool).

Definition policy_op (s : policyState) (op : policyOp) : policyState :=
  match op with
  | Install policy saved global => installProviderPolicy s policy saved global
  | Block saved => blockProviderPolicy s saved
  | ModeChanged global => providerPolicyModeChanged s global
  end.

Definition policy_run (ops : list policyOp) : policyState := foldl policy_op policy_start ops.

(** While the counter has room, each change of the policy takes a new epoch. *)
Lemma policy_op_epoch s op : 0 <= ps_epoch s → ps_epoch s + 1 < 2 ^ 64 →
  (ps_active (policy_op s op) = ps_active s ∧ ps_epoch (policy_op s op) = ps_epoch s) ∨
  (pp_Epoch <$> ps_active (policy_op s op) = Some (ps_epoch s + 1) ∧ ps_epoch (policy_op s op) = ps_epoch s + 1).
Proof.
  intros H0 H1. assert (next_epoch s = ps_epoch s + 1) as Hn by (unfold next_epoch; by rewrite Z.mod_small by lia).
  destruct op as [policy saved global|saved|global]; cbn [policy_op].
  - unfold installProviderPolicy. rewrite Hn. by destruct saved; cbn; [right | left].
  - right. unfold blockProviderPolicy. by rewrite Hn.
  - unfold providerPolicyModeChanged. rewrite Hn. destruct (ps_active s) as [p|] eqn:E; [|left; cbn; by rewrite ?E].
    case_if; [by right | left; cbn; by rewrite ?E].
Qed.

(** The active policy carries the counter's value. *)
Definition epoch_ok (s : policyState) : Prop :=
  0 <= ps_epoch s ∧ match ps_active s with Some p => pp_Epoch p = ps_epoch s ∧ 0 < ps_epoch s | None => True end.

Lemma policy_ops_epoch ops : ∀ s, epoch_ok s → ps_epoch s + Z.of_nat (length ops) < 2 ^ 64 →
  epoch_ok (foldl policy_op s ops) ∧ ps_epoch (foldl policy_op s ops) <= ps_epoch s + Z.of_nat (length ops) ∧
  (ps_active (foldl policy_op s ops) = ps_active s ∨ ps_epoch s < ps_epoch (foldl policy_op s ops)).
Proof.
  induction ops as [|op ops IH]; intros s Hok Hlen; cbn [foldl length] in *; [split_and!; [done | lia | by left]|].
  destruct (policy_op_epoch s op) as [[Ha He]|[Ha He]]; [apply Hok | lia | |].
  - destruct (IH (policy_op s op)) as (Hok' & Hle & Hch); [unfold epoch_ok in *; by rewrite Ha, He | lia|].
    rewrite Ha, He in *. split_and!; [done | lia | done].
  - apply fmap_Some in Ha as (p & Hp & Hpe). destruct (IH (policy_op s op)) as (Hok' & Hle & Hch);
      [unfold epoch_ok; rewrite Hp, He; destruct Hok; lia | lia|].
    split_and!; [done | lia|]. right. destruct Hch as [Hch|?]; [|lia].
    destruct Hok' as [_ Hok']. rewrite Hch, Hp in Hok'. lia.
Qed.

Section stale.
Context `{Mh : Mihomo} `{Pr : Process}.

(** no connection outlives its policy. A connection accepted while a
    policy is enforced is stamped with it; whatever installs, blocks and mode
    changes follow, fewer than 2^64 in all, the connection dials again only
    under that very policy, or when the one in force limits nothing: any other
    refuses it, whatever its proxy. *)
Theorem stale_connection_refused before after md md1 :
  Z.of_nat (length before + length after) < 2 ^ 64 →
  enforced (ps_active (policy_run before)) = true → md_Type md ≠ INNER →
  providerPolicyMetadata (ps_active (policy_run before)) (ps_global (policy_run before)) md = (md1, None) →
  let s := policy_run (before ++ after) in
  ps_active s = ps_active (policy_run before) ∨ enforced (ps_active s) = false ∨
  ∀ lookup proxy, ∃ e, providerPolicyDial lookup (ps_active s) (ps_global s) proxy md1 = (md1, Some e) ∧
    (e = PolicyBlocked ∨ e = PolicyChanged).
Proof.
  intros Hlen He Hinner Hmd s.
  destruct (policy_ops_epoch before policy_start) as (Hok & Hle & _); [by split | cbn; lia|].
  fold (policy_run before) in Hok, Hle.
  destruct (policy_ops_epoch after (policy_run before)) as (Hok' & _ & Hch); [done | cbn in Hle; lia|].
  assert (foldl policy_op (policy_run before) after = s) as Hs by (unfold s, policy_run; by rewrite foldl_app).
  rewrite Hs in Hok', Hch. destruct Hch as [Hch|Hlt]; [by left|]. right.
  destruct (enforced (ps_active s)) eqn:Es; [right | by left]. intros lookup proxy.
  unfold providerPolicyMetadata in Hmd. rewrite bool_decide_eq_false_2 in Hmd by done.
  destruct (ps_active (policy_run before)) as [p|] eqn:Ep; [|done]. rewrite He in Hmd. cbn [negb] in Hmd.
  destruct Hok as [_ Hok]. rewrite Ep in Hok. destruct (ps_active s) as [q|] eqn:Eq; [|done].
  destruct Hok' as [_ Hok']. rewrite Eq in Hok'.
  assert (md_PolicyGeneration md1 = pp_Epoch p) as Hgen.
  { revert Hmd. unfold checkProviderPolicyMetadata. repeat case_match; intros; simplify_eq; done. }
  unfold providerPolicyDial. rewrite Es. cbn [negb]. unfold checkProviderPolicyMetadata. rewrite Hgen.
  destruct (pp_Blocked q); [eexists; by split; [|left]|].
  rewrite (proj2 (Z.eqb_neq (pp_Epoch p) 0)) by lia. rewrite (proj2 (Z.eqb_neq (pp_Epoch p) (pp_Epoch q))) by lia.
  eexists. split; [reflexivity | by right].
Qed.
End stale.

(** ** The patterns *)

Example node_ids : policyNodeID "de-1.fra:2" && negb (policyNodeID "-de") && negb (policyNodeID EmptyString) = true.
Proof. reflexivity. Qed.
Example packages : policyPackage "com.example.app_2" && negb (policyPackage "com") && negb (policyPackage "com..app") = true.
Proof. reflexivity. Qed.

(** ** A provider that allows one server *)

Module Sample.

(** Servers by name, and one group. *)
Inductive sample_proxy := Server (name : string) | Both.

#[local] Instance sample_mihomo : Mihomo := {|
  Proxy := sample_proxy;
  px_Name p := match p with Server name => name | Both => "both"%string end;
  px_Type p := match p with Server _ => 20 | Both => 7 end;
  px_outbound _ := true;
  px_members p := match p with Server _ => None | Both => Some [Server "a"; Server "b"] end;
  px_RouteFingerprint p := match p with Server name => ("route-" +:+ name) | Both => EmptyString end;
  px_DialerProxy _ := EmptyString;
  ty_Selector := 7; ty_URLTest := 8; ty_Fallback := 9; ty_LoadBalance := 10; ty_Relay := 6;
  ty_Direct := 0; ty_Reject := 1; ty_RejectDrop := 2; ty_Pass := 4; ty_Compatible := 3; ty_Dns := 5;
  ty_Shadowsocks := 11;
|}.
#[local] Instance no_process : Process := {| find_package _ := None |}.

Definition server_a : Proxy := Server "a".

Definition server_node (name : string) : gmap string value :=
  <["reclash-id"%string := VString name]> {["server"%string := VString name]}.
Definition sample_document : gmap string value :=
  {["reclash-policy"%string := VMap (list_to_map [("version", VInt 1);
      ("global", VMap {["allow"%string := VList [VString "a"]]})])]}%string.
#[local] Instance sample_text : PolicyText := {|
  pt_decrypt s := Some s;
  pt_document _ := Some sample_document;
  pt_proxies _ := Some [server_node "a"; server_node "b"];
  pt_fingerprint node := match node !! "server"%string with Some (VString s) => "route-" +:+ s | _ => EmptyString end;
|}.

Definition only_a : providerPolicy := {| no_limits with pp_Restricted := true; pp_Allowed := ["route-a"%string] |}.

Lemma parse_policy_exact_witness : pp_Restricted only_a = true ∧ allowsRoute only_a "route-a" = true.
Proof.
  assert (Hp : parseProviderPolicy EmptyString = Ok only_a) by (vm_compute; reflexivity).
  destruct (parse_policy_exact EmptyString EmptyString sample_document only_a Hp eq_refl eq_refl) as (_ & _ & Hr & Hf).
  split.
  - apply Hr. eexists. split; [reflexivity | by eexists].
  - apply Hf. split; [done|]. exists [server_node "a"; server_node "b"], ["a"%string], "a"%string. split_and!; [done | | by left |].
    + eexists _, _. by split_and!.
    + exists (server_node "a"). by split_and!; [left|..].
Defined.

Definition from_vpn : Metadata :=
  {| md_Type := TUN; md_Process := ""; md_PolicyGeneration := 0; md_PolicyGlobal := true |}.

Lemma dial_within_policy_witness :
  pp_NoGlobal only_a = false ∧ only_allowed (λ _, None) only_a server_a.
Proof. apply (dial_within_policy (λ _, None) only_a true server_a from_vpn from_vpn); vm_compute; reflexivity. Defined.

Definition accepted : Metadata := {| from_vpn with md_PolicyGeneration := 1 |}.

Lemma stale_connection_refused_witness :
  let s := policy_run [Install only_a true true; ModeChanged true] in
  ∃ e, providerPolicyDial (λ _, None) (ps_active s) (ps_global s) server_a accepted = (accepted, Some e) ∧
    (e = PolicyBlocked ∨ e = PolicyChanged).
Proof.
  destruct (stale_connection_refused [Install only_a true true] [ModeChanged true] from_vpn accepted)
    as [H|[H|H]]; [done | reflexivity | done | reflexivity | discriminate H | discriminate H | apply H].
Defined.

End Sample.
