(* ===== verification/Budget.v ===== *)
(** * The probe budget: core/rcx/plan.go

    Hourly allowances per bucket, refilled as time passes, under a daily cap
    on bytes; the power state and its modes; the probe orders. Token counts
    are the float64 values the code computes with, as SpecFloat's binary64. *)

From Stdlib Require Import SpecFloat.
From S2P Require Import Prelude GoText Evidence Journal Profile Decide.

Definition probeConcurrency : Z := 2.
Definition probeTimeout : duration := 5 * Second.
Definition probeRepeatGap : duration := Minute.
Definition probeCostBytes : Z := 6 * 2 ^ 10.
Definition dailyCapBytes : Z := 20 * 2 ^ 20.
Definition trafficWindow : duration := 10 * Second.
Definition networkWindow : duration := 30 * Second.
Definition wakeDebounce : duration := 10 * Second.
Definition recoverPassSize : nat := 4.
Definition maintainStandbys : nat := 2.
Definition discoverPerWindow : nat := 2.
Definition linkWindow : duration := Minute.
Definition diagConfirmGap : duration := 45 * Second.
Definition kindRounds : Z := 2.
Definition diagBackoff : list duration := [5 * Minute; 10 * Minute; 30 * Minute].
Definition recoverBackoff : list duration := [0; 5 * Minute; 10 * Minute; 20 * Minute; 40 * Minute].

(** ** float64 *)

Definition float64 : Set := spec_float.
Definition f64 (z : Z) : float64 := binary_normalize 53 1024 z 0 false.
Definition f64_add : float64 → float64 → float64 := SFadd 53 1024.
Definition f64_sub : float64 → float64 → float64 := SFsub 53 1024.
Definition f64_mul : float64 → float64 → float64 := SFmul 53 1024.
Definition f64_div : float64 → float64 → float64 := SFdiv 53 1024.

(** Go's [min] on two float64s that are numbers. *)
Definition f64_min (a b : float64) : float64 := if SFltb b a then b else a.

(** [time.Duration.Hours]. *)
Definition Hours (d : duration) : float64 :=
  f64_add (f64 (Z.quot d Hour)) (f64_div (f64 (Z.rem d Hour)) (f64 Hour)).

(** ** Buckets *)

Inductive Bucket := MaintainBucket | DiscoverBucket | RecoverBucket | NetworkBucket | UserBucket.

#[export] Instance Bucket_eq_dec : EqDecision Bucket.
Proof. solve_decision. Defined.

Definition bucket_name (b : Bucket) : string :=
  match b with
  | MaintainBucket => "maintain" | DiscoverBucket => "discover" | RecoverBucket => "recover"
  | NetworkBucket => "network" | UserBucket => "user"
  end.

Definition is_bucket (a b : Bucket) : bool := bool_decide (a = b).

Record energyLevel := {
  el_rank : Z;
  el_maintain : Z;
  el_discover : Z;
  el_recover : Z;
  el_network : Z;
  el_standbyEvery : duration;
}.

Definition eco_level : energyLevel :=
  {| el_rank := 0; el_maintain := 4; el_discover := 0; el_recover := 12; el_network := 8;
     el_standbyEvery := 2 * Hour |}.
Definition balanced_level : energyLevel :=
  {| el_rank := 1; el_maintain := 10; el_discover := 12; el_recover := 24; el_network := 12;
     el_standbyEvery := 45 * Minute |}.
Definition precise_level : energyLevel :=
  {| el_rank := 2; el_maintain := 20; el_discover := 40; el_recover := 40; el_network := 20;
     el_standbyEvery := 30 * Minute |}.

Definition energyLevels : gmap string energyLevel := list_to_map
  [("eco"%string, eco_level); ("balanced"%string, balanced_level); ("precise"%string, precise_level)].

Record tokenBucket := { tb_Tokens : float64; tb_At : time }.
Definition no_bucket : tokenBucket := {| tb_Tokens := f64 0; tb_At := zero_time |}.

(** [take]: whether a token was taken, and the bucket after it. *)
Definition take_token (b : tokenBucket) (rate : float64) (now : time) : bool * tokenBucket :=
  if SFleb rate (f64 0) then (false, b)
  else
    let tokens := if negb (is_zero (tb_At b))
                  then f64_add (tb_Tokens b) (f64_mul (Hours (time_sub now (tb_At b))) rate)
                  else rate in
    let tokens := f64_min tokens rate in
    if SFltb tokens (f64 1) then (false, {| tb_Tokens := tokens; tb_At := now |})
    else (true, {| tb_Tokens := f64_sub tokens (f64 1); tb_At := now |}).

Record EnergyDay := {
  ey_Day : string;
  ey_Requests : Z;
  ey_Bytes : Z;
  ey_ByBucket : gmap string Z;
}.

Record budget := { bg_buckets : gmap string tokenBucket; bg_day : EnergyDay }.

Definition new_day (day : string) : EnergyDay :=
  {| ey_Day := day; ey_Requests := 0; ey_Bytes := 0; ey_ByBucket := ∅ |}.

Definition no_budget : budget := {| bg_buckets := ∅; bg_day := new_day "" |}.

(** The local calendar date of a time, as [now.Format(time.DateOnly)] writes
    it: it depends on the host's time zone. *)
Class Calendar := { date_only : time → string }.

Definition rate (bucket : Bucket) (level : energyLevel) : Z :=
  match bucket with
  | MaintainBucket => el_maintain level
  | DiscoverBucket => el_discover level
  | RecoverBucket => el_recover level
  | NetworkBucket => el_network level
  | UserBucket => 2 ^ 20
  end.

Definition charge (b : budget) (bucket : Bucket) (requests : Z) : budget :=
  if requests <=? 0 then b
  else
    let d := bg_day b in
    let n := bucket_name bucket in
    {| b with bg_day :=
         {| ey_Day := ey_Day d; ey_Requests := ey_Requests d +i requests;
            ey_Bytes := ey_Bytes d +i requests *i probeCostBytes;
            ey_ByBucket := <[n := default 0 (ey_ByBucket d !! n) +i requests]> (ey_ByBucket d) |} |}.

Section budget.
Context `{Calendar}.

(** The day's record, started afresh when the date changed. *)
Definition roll_day (b : budget) (now : time) : budget :=
  if eqs (ey_Day (bg_day b)) (date_only now) then b
  else {| b with bg_day := new_day (date_only now) |}.

(** The buckets the daily cap does not stop. *)
Definition uncapped (bucket : Bucket) : bool := is_bucket bucket UserBucket || is_bucket bucket RecoverBucket.

Definition spend (b : budget) (bucket : Bucket) (level : energyLevel) (now : time) : bool * budget :=
  let b := roll_day b now in
  if (dailyCapBytes <=? ey_Bytes (bg_day b)) && negb (uncapped bucket) then (false, b)
  else
    let n := bucket_name bucket in
    let tb := default no_bucket (bg_buckets b !! n) in
    if is_bucket bucket UserBucket
    then (true, charge {| b with bg_buckets := <[n := tb]> (bg_buckets b) |} bucket 1)
    else
      let '(taken, tb) := take_token tb (f64 (rate bucket level)) now in
      let b := {| b with bg_buckets := <[n := tb]> (bg_buckets b) |} in
      if taken then (true, charge b bucket 1) else (false, b).
End budget.

(** ** Power *)

Record NetworkHint := { nh_Transport : string; nh_ID : string; nh_Portal : bool }.

Record Hints := {
  hn_Screen : option bool;
  hn_Foreground : option bool;
  hn_Doze : option bool;
  hn_PowerSave : option bool;
  hn_Metered : option bool;
  hn_BatteryLow : option bool;
  hn_OnBattery : option bool;
  hn_Network : option NetworkHint;
  hn_Resumed : bool;
}.

Record Power := {
  pw_Screen : bool;
  pw_Foreground : bool;
  pw_Doze : bool;
  pw_PowerSave : bool;
  pw_Metered : bool;
  pw_BatteryLow : bool;
  pw_OnBattery : bool;
}.

Definition power_apply (p : Power) (h : Hints) : Power :=
  {| pw_Screen := default (pw_Screen p) (hn_Screen h);
     pw_Foreground := default (pw_Foreground p) (hn_Foreground h);
     pw_Doze := default (pw_Doze p) (hn_Doze h);
     pw_PowerSave := default (pw_PowerSave p) (hn_PowerSave h);
     pw_Metered := default (pw_Metered p) (hn_Metered h);
     pw_BatteryLow := default (pw_BatteryLow p) (hn_BatteryLow h);
     pw_OnBattery := default (pw_OnBattery p) (hn_OnBattery h) |}.

Definition power_eco (p : Power) : bool := pw_Metered p || pw_PowerSave p || pw_BatteryLow p || pw_OnBattery p.

Inductive Mode := ActiveMode | IdleMode | EcoMode | BackgroundMode | SleepMode | StoppedMode | NormalMode.

#[export] Instance Mode_eq_dec : EqDecision Mode.
Proof. solve_decision. Defined.

Definition in_mode (a b : Mode) : bool := bool_decide (a = b).

(** ** Jobs *)

Record probeJob := {
  jb_Group : string;
  jb_Node : string;
  jb_Key : string;
  jb_Bucket : Bucket;
  jb_Kind : string;
  jb_Checks : gmap string Check;
  jb_Exit : option Egress;
  jb_Targets : list Target;
  jb_Env : string;
}.

Record probeResult := {
  pb_Ms : Z;
  pb_Failed : bool;
  pb_Checks : gmap string bool;
  pb_Votes : list ExitVote;
  pb_Diag : gmap string bool;
  pb_Requests : Z;
}.

Definition standbyOrder (d : Decision) : list Ranked :=
  filter (λ row, eligible row && negb (rw_Current row)) (dc_Ranking d).

Definition discoverOrder (d : Decision) : list Ranked :=
  sort_stable (λ a b, compareZ (rw_CheckedAt a) (rw_CheckedAt b))
    (filter (λ row, eligible row || excluded_as row "cooldown" || excluded_as row "pending") (dc_Ranking d)).

(** ** Bursts *)

(** How many of [n] takes at one instant succeed, and the bucket after. *)
Fixpoint take_many (n : nat) (b : tokenBucket) (rate : float64) (now : time) : nat * tokenBucket :=
  match n with
  | O => (0%nat, b)
  | S n =>
      let '(ok, b) := take_token b rate now in
      let '(k, b) := take_many n b rate now in
      ((if ok then S k else k), b)
  end.

(** Take again at the instant of the last take: the clock adds nothing. *)
Definition take_again (tokens rate : float64) : bool * float64 :=
  let tokens := f64_min (f64_add tokens (f64_mul (Hours 0) rate)) rate in
  if SFltb tokens (f64 1) then (false, tokens) else (true, f64_sub tokens (f64 1)).

Fixpoint take_again_many (n : nat) (tokens rate : float64) : nat * float64 :=
  match n with
  | O => (0%nat, tokens)
  | S n =>
      let '(ok, tokens) := take_again tokens rate in
      let '(k, tokens) := take_again_many n tokens rate in
      ((if ok then S k else k), tokens)
  end.

Lemma take_token_again tokens rate now : now ≠ 0 → SFleb rate (f64 0) = false →
  take_token {| tb_Tokens := tokens; tb_At := now |} rate now =
    let '(ok, t) := take_again tokens rate in (ok, {| tb_Tokens := t; tb_At := now |}).
Proof.
  intros Hn Hr. unfold take_token, take_again. rewrite Hr. cbn [tb_At tb_Tokens]. unfold is_zero.
  rewrite (proj2 (Z.eqb_neq _ _) Hn). unfold time_sub. rewrite Z.sub_diag.
  change (clamp64 0) with 0. cbn [negb]. cbn zeta. by case_if.
Qed.

Lemma take_many_again n tokens rate now : now ≠ 0 → SFleb rate (f64 0) = false →
  take_many n {| tb_Tokens := tokens; tb_At := now |} rate now =
    let '(k, t) := take_again_many n tokens rate in (k, {| tb_Tokens := t; tb_At := now |}).
Proof.
  intros Hn Hr. revert tokens. induction n as [|n IH]; intros tokens; [done|].
  cbn [take_many take_again_many]. rewrite take_token_again by done.
  destruct (take_again tokens rate) as [ok t]. rewrite IH. by destruct (take_again_many n t rate).
Qed.

Lemma take_token_fresh rate now : SFleb rate (f64 0) = false →
  take_token no_bucket rate now =
    let tokens := f64_min rate rate in
    if SFltb tokens (f64 1) then (false, {| tb_Tokens := tokens; tb_At := now |})
    else (true, {| tb_Tokens := f64_sub tokens (f64 1); tb_At := now |}).
Proof. intros Hr. unfold take_token. by rewrite Hr. Qed.

Lemma take_again_stuck n tokens rate : take_again tokens rate = (false, tokens) →
  take_again_many n tokens rate = (0%nat, tokens).
Proof. intros Ht. induction n as [|n IH]; [done|]. cbn [take_again_many]. by rewrite Ht, IH. Qed.

Lemma take_again_many_add n m tokens rate :
  take_again_many (n + m) tokens rate =
    let '(k, t) := take_again_many n tokens rate in
    let '(k', t') := take_again_many m t rate in ((k + k')%nat, t').
Proof.
  revert tokens. induction n as [|n IH]; intros tokens; cbn [take_again_many Nat.add].
  { by destruct (take_again_many m tokens rate). }
  destruct (take_again tokens rate) as [ok t]. rewrite IH.
  destruct (take_again_many n t rate) as [k t']. destruct (take_again_many m t' rate) as [k' t''].
  by destruct ok.
Qed.

#[export] Instance float64_eq_dec : EqDecision spec_float.
Proof. solve_decision. Defined.

Definition first_left (r : Z) : float64 := f64_sub (f64_min (f64 r) (f64 r)) (f64 1).

(** Computed for a rate: a fresh bucket gives [r] tokens at one instant, one
    by one, and is then empty. *)
Definition burst_ok (r : Z) : bool :=
  negb (SFleb (f64 r) (f64 0)) && negb (SFltb (f64_min (f64 r) (f64 r)) (f64 1)) &&
  forallb (λ n, fst (take_again_many n (first_left r) (f64 r)) =? n)%nat (seq 0 (Z.to_nat r)) &&
  let t := snd (take_again_many (Z.to_nat r - 1) (first_left r) (f64 r)) in
  bool_decide (take_again t (f64 r) = (false, t)).

Lemma burst_grants r n now : now ≠ 0 → 0 < r → burst_ok r = true →
  fst (take_many n no_bucket (f64 r) now) = Nat.min n (Z.to_nat r).
Proof.
  intros Hn Hr Hb. unfold burst_ok in Hb. rewrite !andb_true_iff in Hb.
  destruct Hb as [[[Hpos%negb_true_iff Hone%negb_true_iff] Hall] Hstuck%bool_decide_eq_true].
  destruct n as [|n]; [done|]. cbn [take_many]. rewrite take_token_fresh by done. cbn zeta.
  rewrite Hone. fold (first_left r). rewrite take_many_again by done.
  assert (Hcount : ∀ k, (k < Z.to_nat r)%nat → fst (take_again_many k (first_left r) (f64 r)) = k).
  { intros k Hk. rewrite forallb_forall in Hall. apply Nat.eqb_eq, Hall, in_seq. lia. }
  destruct (Nat.lt_ge_cases n (Z.to_nat r)) as [Hlt|Hge].
  - specialize (Hcount n Hlt). destruct (take_again_many n _ _) as [k t]. cbn [fst] in *. lia.
  - replace n with ((Z.to_nat r - 1) + (n - (Z.to_nat r - 1)))%nat by lia.
    rewrite take_again_many_add. specialize (Hcount (Z.to_nat r - 1)%nat ltac:(lia)).
    destruct (take_again_many (Z.to_nat r - 1) _ _) as [k t]. cbn [fst snd] in *.
    rewrite (take_again_stuck _ _ _ Hstuck). cbn [fst]. lia.
Qed.

Lemma zero_grants n now : fst (take_many n no_bucket (f64 0) now) = 0%nat.
Proof.
  induction n as [|n IH]; [done|]. cbn [take_many].
  change (take_token no_bucket (f64 0) now) with (false, no_bucket).
  cbn beta iota. by destruct (take_many n no_bucket (f64 0) now).
Qed.

Lemma level_cases name level bucket : energyLevels !! name = Some level → bucket ≠ UserBucket →
  rate bucket level = 0 ∨ 0 < rate bucket level ∧ burst_ok (rate bucket level) = true.
Proof.
  intros Hl Hb. assert (Hin : level = eco_level ∨ level = balanced_level ∨ level = precise_level).
  { unfold energyLevels in Hl. apply elem_of_list_to_map_2 in Hl.
    rewrite !elem_of_cons, elem_of_nil in Hl. naive_solver. }
  destruct Hin as [->|[->| ->]], bucket; try done;
    (by left) || (right; split; [by vm_compute | vm_compute; reflexivity]).
Qed.

(** ** Spending *)

Section spending.
Context `{Calendar}.

(** [n] requests asked of one bucket at one instant: how many were granted,
    and the budget after. *)
Fixpoint spend_many (n : nat) (b : budget) (bucket : Bucket) (level : energyLevel) (now : time) : nat * budget :=
  match n with
  | O => (0%nat, b)
  | S n =>
      let '(ok, b) := spend b bucket level now in
      let '(k, b) := spend_many n b bucket level now in
      ((if ok then S k else k), b)
  end.

Lemma roll_day_same b now : ey_Day (bg_day b) = date_only now → roll_day b now = b.
Proof. intros E. unfold roll_day. by rewrite E, eqs_refl. Qed.

Lemma charge_buckets b bucket n : bg_buckets (charge b bucket n) = bg_buckets b.
Proof. unfold charge. by case_if. Qed.

Definition bucket_of (b : budget) (bucket : Bucket) : tokenBucket :=
  default no_bucket (bg_buckets b !! bucket_name bucket).

(** A spend under the cap is a take from the bucket. *)
Lemma spend_take b bucket level now :
  bucket ≠ UserBucket → ey_Day (bg_day b) = date_only now →
  uncapped bucket = true ∨ ey_Bytes (bg_day b) < dailyCapBytes →
  let '(ok, b') := spend b bucket level now in
  (ok, bucket_of b' bucket) = take_token (bucket_of b bucket) (f64 (rate bucket level)) now ∧
  ey_Day (bg_day b') = date_only now ∧
  ey_Bytes (bg_day b') = (if (ok : bool) then ey_Bytes (bg_day b) +i probeCostBytes else ey_Bytes (bg_day b)).
Proof.
  intros Hu Hd Hc. unfold spend. rewrite roll_day_same by done. cbn zeta.
  assert ((dailyCapBytes <=? ey_Bytes (bg_day b)) && negb (uncapped bucket) = false) as ->.
  { destruct Hc as [->|Hc]; [by rewrite andb_false_r|]. by rewrite (proj2 (Z.leb_gt _ _) Hc). }
  unfold is_bucket. rewrite bool_decide_false by done. fold (bucket_of b bucket).
  destruct (take_token _ _ _) as [taken tb]. unfold bucket_of.
  destruct taken; cbn; rewrite ?charge_buckets; cbn; rewrite lookup_insert_eq; split_and!; done.
Qed.

Lemma spend_many_take n : ∀ b bucket level now,
  bucket ≠ UserBucket → ey_Day (bg_day b) = date_only now →
  0 <= ey_Bytes (bg_day b) → ey_Bytes (bg_day b) + Z.of_nat n * probeCostBytes <= dailyCapBytes →
  fst (spend_many n b bucket level now) =
  fst (take_many n (bucket_of b bucket) (f64 (rate bucket level)) now).
Proof.
  unfold probeCostBytes, dailyCapBytes. induction n as [|n IH]; intros b bucket level now Hu Hd H0 Hc; [done|]. cbn [spend_many take_many].
  pose proof (spend_take b bucket level now Hu Hd ltac:(right; unfold dailyCapBytes; lia)) as Hs.
  destruct (spend b bucket level now) as [ok b']. destruct Hs as (Ht & Hd' & Hb).
  destruct (take_token _ _ _) as [ok' tb]. injection Ht as <- <-.
  rewrite wrap64_small in Hb by (unfold in64, min64, max64, probeCostBytes; lia).
  unfold probeCostBytes in Hb.
  specialize (IH b' bucket level now Hu Hd' ltac:(destruct ok; lia) ltac:(destruct ok; lia)).
  destruct (spend_many n b' bucket level now), (take_many n _ _ now). cbn in *. by rewrite IH.
Qed.

(** the hourly allowance bounds a burst. From a bucket not yet used on a
    day far from its cap, of [n] requests asked at one instant exactly as
    many are granted as the level's rate for the bucket allows, all of them
    up to the rate and none beyond it. *)
Theorem spend_burst name level bucket n b now :
  energyLevels !! name = Some level → bucket ≠ UserBucket → now ≠ 0 →
  bg_buckets b !! bucket_name bucket = None →
  ey_Day (bg_day b) = date_only now → 0 <= ey_Bytes (bg_day b) →
  ey_Bytes (bg_day b) + Z.of_nat n * probeCostBytes <= dailyCapBytes →
  fst (spend_many n b bucket level now) = Nat.min n (Z.to_nat (rate bucket level)).
Proof.
  intros Hl Hu Hn Hfresh Hd H0 Hc. rewrite spend_many_take by done.
  unfold bucket_of. rewrite Hfresh. cbn [default from_option id].
  destruct (level_cases name level bucket Hl Hu) as [->|[Hpos Hok]].
  - rewrite zero_grants. lia.
  - by apply burst_grants.
Qed.

(** ** The daily cap *)

Record Ask := { ak_Bucket : Bucket; ak_Level : energyLevel; ak_At : time }.

(** Requests asked one after another: which were granted, and the budget. *)
Fixpoint spend_all (b : budget) (asks : list Ask) : list (Ask * bool) * budget :=
  match asks with
  | [] => ([], b)
  | a :: asks =>
      let '(ok, b) := spend b (ak_Bucket a) (ak_Level a) (ak_At a) in
      let '(log, b) := spend_all b asks in
      ((a, ok) :: log, b)
  end.

Definition granted (log : list (Ask * bool)) : list Ask := (filter (λ p : Ask * bool, p.2 = true) log).*1.
Definition beyond_cap (log : list (Ask * bool)) : list Ask :=
  filter (λ a, uncapped (ak_Bucket a)) (granted log).

Lemma spend_accounts b bucket level now :
  ey_Day (bg_day b) = date_only now →
  let '(ok, b') := spend b bucket level now in
  ey_Day (bg_day b') = date_only now ∧
  (if (ok : bool) then
     ey_Bytes (bg_day b') = ey_Bytes (bg_day b) +i probeCostBytes ∧
     ey_Requests (bg_day b') = ey_Requests (bg_day b) +i 1 ∧
     (uncapped bucket = true ∨ ey_Bytes (bg_day b) < dailyCapBytes)
   else ey_Bytes (bg_day b') = ey_Bytes (bg_day b) ∧ ey_Requests (bg_day b') = ey_Requests (bg_day b)).
Proof.
  intros Hd. unfold spend. rewrite roll_day_same by done. cbn zeta.
  destruct ((dailyCapBytes <=? ey_Bytes (bg_day b)) && negb (uncapped bucket)) eqn:Ec; [done|].
  assert (uncapped bucket = true ∨ ey_Bytes (bg_day b) < dailyCapBytes).
  { apply andb_false_iff in Ec as [Ec|Ec]; [right; bools; lia | left; by apply negb_false_iff]. }
  case_if; [done|]. destruct (take_token _ _ _) as [[] tb]; done.
Qed.

Lemma granted_cons a ok log : granted ((a, ok) :: log) = if (ok : bool) then a :: granted log else granted log.
Proof. unfold granted. rewrite filter_cons. by destruct ok. Qed.

Lemma beyond_cap_cons a log :
  beyond_cap ((a, true) :: log) =
    if uncapped (ak_Bucket a) then a :: beyond_cap log else beyond_cap log.
Proof. unfold beyond_cap. rewrite granted_cons, filter_cons. by destruct (uncapped _). Qed.

(** What a run of asks on one day leaves booked. *)
Definition cap_held (b b' : budget) (log : list (Ask * bool)) : Prop :=
  ey_Requests (bg_day b') = ey_Requests (bg_day b) + Z.of_nat (length (granted log)) ∧
  ey_Bytes (bg_day b') = ey_Requests (bg_day b') * probeCostBytes ∧
  ey_Bytes (bg_day b') <= Z.max (ey_Bytes (bg_day b)) (dailyCapBytes + probeCostBytes) +
    Z.of_nat (length (beyond_cap log)) * probeCostBytes.

Lemma spend_all_cap asks : ∀ b log b',
  Forall (λ a, date_only (ak_At a) = ey_Day (bg_day b)) asks →
  spend_all b asks = (log, b') →
  0 <= ey_Requests (bg_day b) → ey_Bytes (bg_day b) = ey_Requests (bg_day b) * probeCostBytes →
  (ey_Requests (bg_day b) + Z.of_nat (length asks)) * probeCostBytes < max64 →
  cap_held b b' log.
Proof.
  assert (Hcost : probeCostBytes = 6144) by reflexivity. assert (Hcap : dailyCapBytes = 20971520) by reflexivity.
  unfold cap_held. induction asks as [|a asks IH]; intros b log b' Hday; cbn [spend_all].
  { intros [= <- <-] H0 HB _. unfold beyond_cap, granted. rewrite filter_nil. cbn. lia. }
  apply Forall_cons in Hday as [Ha Hday'].
  pose proof (spend_accounts b (ak_Bucket a) (ak_Level a) (ak_At a) (eq_sym Ha)) as Hs.
  destruct (spend b _ _ _) as [ok b1]. destruct Hs as [Hd1 Hs].
  destruct (spend_all b1 asks) as [log1 b2] eqn:E1. intros [= <- <-] H0 HB Hbig.
  cbn [length] in Hbig. rewrite Hcost in *.
  assert (H1 : ey_Requests (bg_day b1) = ey_Requests (bg_day b) + (if ok then 1 else 0) ∧
    ey_Bytes (bg_day b1) = ey_Bytes (bg_day b) + (if ok then 6144 else 0)).
  { destruct ok; [|lia]. destruct Hs as (-> & -> & _). rewrite !wrap64_small; unfold in64, min64, max64 in *; lia. }
  destruct H1 as [HR1 HB1].
  destruct (IH b1 log1 b2) as (IH1 & IH2 & IH3); try done; try (destruct ok; lia).
  { rewrite Hd1, Ha. done. }
  rewrite granted_cons. destruct ok.
  - rewrite beyond_cap_cons. destruct Hs as (_ & _ & [Hu|Hlt]).
    + rewrite Hu. cbn [length]. lia.
    + destruct (uncapped _); cbn [length]; lia.
  - unfold beyond_cap in *. rewrite granted_cons. lia.
Qed.

(** Past the day's byte cap only the user and failure recovery spend.
    Whatever is asked of a fresh day, in any order, from any buckets at any
    levels, the day books every granted request once, at the fixed cost, and
    the bytes exceed the cap by at most one request beyond those granted to
    the user and to recovery. *)
Theorem daily_cap asks log b b' day :
  Forall (λ a, date_only (ak_At a) = day) asks →
  bg_day b = new_day day →
  Z.of_nat (length asks) * probeCostBytes < max64 →
  spend_all b asks = (log, b') →
  ey_Requests (bg_day b') = Z.of_nat (length (granted log)) ∧
  ey_Bytes (bg_day b') = Z.of_nat (length (granted log)) * probeCostBytes ∧
  ey_Bytes (bg_day b') <= dailyCapBytes + probeCostBytes +
    Z.of_nat (length (beyond_cap log)) * probeCostBytes.
Proof.
  intros Hday Hb Hbig Hrun.
  destruct (spend_all_cap asks b log b') as (H1 & H2 & H3); rewrite ?Hb; cbn; try done.
  rewrite Hb in H1, H3. cbn in H1, H3. rewrite H1 in H2. split_and!; [done..|].
  assert (0 < dailyCapBytes + probeCostBytes) by (vm_compute; congruence). lia.
Qed.
End spending.

(** ** Examples *)

Definition one_day : Calendar := {| date_only _ := "2026-01-01" |}.

Lemma spend_burst_witness :
  fst (@spend_many one_day 30 {| bg_buckets := ∅; bg_day := new_day "2026-01-01" |}
    MaintainBucket balanced_level 77) = 10%nat.
Proof.
  refine (eq_trans (@spend_burst one_day "balanced" balanced_level MaintainBucket 30 _ 77 _ _ _ _ _ _ _) _);
    try (vm_compute; congruence); vm_compute; reflexivity.
Defined.

Definition asks_example : list Ask :=
  [{| ak_Bucket := DiscoverBucket; ak_Level := eco_level; ak_At := 5 |};
   {| ak_Bucket := UserBucket; ak_Level := eco_level; ak_At := 6 |};
   {| ak_Bucket := RecoverBucket; ak_Level := eco_level; ak_At := 7 |}].

Lemma daily_cap_witness :
  ey_Requests (bg_day (snd (@spend_all one_day {| bg_buckets := ∅; bg_day := new_day "2026-01-01" |} asks_example))) = 2.
Proof.
  destruct (@spend_all one_day {| bg_buckets := ∅; bg_day := new_day "2026-01-01" |} asks_example) as [log b'] eqn:E.
  destruct (@daily_cap one_day asks_example log
    {| bg_buckets := ∅; bg_day := new_day "2026-01-01" |} b' "2026-01-01"%string) as (H & _).
  - repeat constructor.
  - reflexivity.
  - vm_compute. congruence.
  - exact E.
  - cbn [snd]. rewrite H. vm_compute in E. injection E as <- _. reflexivity.
Defined.
