(* ===== verification/Route.v ===== *)
(** * Routes: core/rcx/route.go

    A route sends the traffic its match entries select ahead of the config's
    own rules. Entries are parsed, normalised to one text form and validated. *)

From S2P Require Import Prelude GoText Profile.

Definition MainTarget : string := "$main".
Definition AllTarget : string := "*".
Definition GlobalTarget : string := "GLOBAL".
Definition maxPrograms : nat := 32.
Definition maxTargetLength : nat := 64.
Definition maxRoutes : nat := 32.
Definition maxRouteMatches : nat := 128.
Definition maxRouteName : Z := 64.
Definition maxRouteDescribe : Z := 240.

(** What a scenario does with one group (core/rcx/scenario.go). *)
Record Program := {
  pg_Profile : string;
  pg_Pool : Pool;
  pg_Prefer : list TierSpec;
  pg_To : string;
}.

Record Route := {
  rt_Name : string;
  rt_Description : string;
  rt_Match : list string;
  rt_Program : Program;
}.

(** The rule types, with whether they take no-resolve. *)
Definition routeTypes : gmap string bool := list_to_map [
  ("DOMAIN"%string, false); ("DOMAIN-SUFFIX"%string, false); ("DOMAIN-KEYWORD"%string, false);
  ("DOMAIN-WILDCARD"%string, false); ("DOMAIN-REGEX"%string, false); ("GEOSITE"%string, false);
  ("GEOIP"%string, true); ("IP-CIDR"%string, true); ("IP-CIDR6"%string, true); ("IP-ASN"%string, true);
  ("SRC-IP-CIDR"%string, false); ("DST-PORT"%string, false); ("PROCESS-NAME"%string, false);
  ("PROCESS-PATH"%string, false); ("RULE-SET"%string, true)].

Definition reservedRouteNames : list string :=
  [MainTarget; AllTarget; GlobalTarget; "DIRECT"; "REJECT"; "REJECT-DROP"; "PASS"; "COMPATIBLE"].

Record RouteMatch := { rm_Type : string; rm_Payload : string; rm_NoResolve : bool }.

Definition match_string (m : RouteMatch) : string :=
  rm_Type m +:+ "," +:+ rm_Payload m +:+ (if rm_NoResolve m then ",no-resolve" else "").

Definition match_rule (m : RouteMatch) (target : string) : string :=
  rm_Type m +:+ "," +:+ rm_Payload m +:+ "," +:+ target +:+ (if rm_NoResolve m then ",no-resolve" else "").

(** Whether [netip.ParsePrefix] accepts a text. *)
Class Netip := { parse_prefix : string → bool }.

Definition validPorts (spec : string) : bool :=
  forallb (λ part,
    let '(low, high, isRange) := Cut part "-" in
    let high := if (isRange : bool) then high else low in
    forallb (λ port, bool_decide (is_Some (ParseUint port 16))) [low; high]) (Split spec "/").

Section route.
Context `{Unicode} `{Netip}.

(** The options after the payload: each must be no-resolve, where the type
    takes it. *)
Fixpoint match_options (type : string) (takes : bool) (found : bool) (params : list string)
    : result profileError bool :=
  match params with
  | [] => Ok found
  | param :: params =>
      if negb (eqs (TrimSpace param) "no-resolve") || negb takes
      then Err (Errorf "%s takes no option %q" [type; TrimSpace param])
      else match_options type takes true params
  end.

(** The payload's own check. *)
Definition check_payload (m : RouteMatch) : result profileError unit :=
  let t := rm_Type m in
  let p := rm_Payload m in
  if mem_string t ["IP-CIDR"; "IP-CIDR6"; "SRC-IP-CIDR"] then
    refuse (negb (parse_prefix p)) (Errorf "%s %q is not an address range like 10.0.0.0/8" [t; p])
  else if eqs t "IP-ASN" then
    refuse (negb (bool_decide (is_Some (ParseUint p 32)))) (Errorf "IP-ASN %q is not a number" [p])
  else if eqs t "DST-PORT" then
    refuse (negb (validPorts p)) (Errorf "DST-PORT %q is not a port or range like 443 or 8000-8100" [p])
  else Ok tt.

Definition ParseRouteMatch (entry : string) : result profileError RouteMatch :=
  let '(kind, rest, _) := Cut entry "," in
  let type := ToUpper (TrimSpace kind) in
  match routeTypes !! type with
  | None => Err (Errorf "%q is not a match type a route can use" [TrimSpace kind])
  | Some takes =>
      m ← (if eqs type "DOMAIN-REGEX"
           then Ok {| rm_Type := type; rm_Payload := TrimSpace rest; rm_NoResolve := false |}
           else match Split rest "," with
                | [] => Err (Errorf "unreachable" [])
                | payload :: params =>
                    found ← match_options type takes false params;
                    Ok {| rm_Type := type; rm_Payload := TrimSpace payload; rm_NoResolve := found |}
                end);
      refuse (empty (rm_Payload m)) (Errorf "%s needs a value" [type]) ;;
      check_payload m ;;
      Ok m
  end.

(** The loop of [normalizeMatch] from index [i]; each turn takes one, two or
    three items. *)
Fixpoint normalize_from (fuel : nat) (i : nat) (items : list string) : result profileError (list string) :=
  match fuel, items with
  | _, [] => Ok []
  | O, _ => Err (Errorf "out of fuel" [])
  | S fuel, item :: rest =>
      let entry := TrimSpace item in
      let '(entry, rest, used) :=
        match rest with
        | value :: rest' =>
            if bool_decide (is_Some (routeTypes !! ToUpper entry)) then
              let entry := entry +:+ "," +:+ TrimSpace value in
              match rest' with
              | option :: rest'' =>
                  if eqs (TrimSpace option) "no-resolve"
                  then (entry +:+ ",no-resolve", rest'', 3%nat) else (entry, rest', 2%nat)
              | [] => (entry, rest', 2%nat)
              end
            else (entry, rest, 1%nat)
        | [] => (entry, rest, 1%nat)
        end in
      match ParseRouteMatch entry with
      | Err e => Err (atPath e [PathIndex i])
      | Ok m => out ← normalize_from fuel (i + used) rest; Ok (match_string m :: out)
      end
  end.

Definition normalizeMatch (items : list string) : result profileError (list string) :=
  normalize_from (length items) 0 items.

Definition is_pool_empty (p : Pool) : bool := empty (po_Include p) && empty (po_Exclude p).

Definition validate_program (p : Program) : result profileError unit :=
  refuse (negb (empty (pg_To p)) &&
          (negb (empty (pg_Profile p)) || negb (is_pool_empty (pg_Pool p)) || negb (bool_decide (pg_Prefer p = []))))
    (atPath (Errorf "to holds one member, so profile, pool and prefer do not apply" []) [key "to"]) ;;
  refuse (maxTiers <? length (pg_Prefer p))%nat
    (atPath (Errorf "more than %d preference tiers" []) [key "prefer"]).

(** [Route.validate]: the route with its match entries normalised. *)
Definition validate_route (r : Route) : result profileError Route :=
  let name := rt_Name r in
  refuse (negb (eqs name (TrimSpace name)) || empty name || (maxRouteName <? slen name))
    (atPath (Errorf "route %q needs a name of 1 to %d bytes" [name]) [key "name"]) ;;
  refuse (existsb (λ c, (c =? 44) || is_control c) (decode name))
    (atPath (Errorf "route name %q holds a comma" [name]) [key "name"]) ;;
  refuse (mem_string name reservedRouteNames) (atPath (Errorf "route name %s is reserved" [name]) [key "name"]) ;;
  refuse (maxRouteDescribe <? slen (rt_Description r))
    (atPath (Errorf "route %s description longer than %d bytes" [name]) [key "description"]) ;;
  refuse (bool_decide (rt_Match r = []) || (maxRouteMatches <? length (rt_Match r))%nat)
    (atPath (Errorf "route %s needs 1 to %d match entries" [name]) [key "match"]) ;;
  items ← at_path [key "match"] (Wrapf "route %s: %w" [name]) (normalizeMatch (rt_Match r));
  refuse (maxRouteMatches <? length items)%nat
    (atPath (Errorf "route %s needs 1 to %d match entries" [name]) [key "match"]) ;;
  validate_program (rt_Program r) ;;
  Ok {| r with rt_Match := items |}.

(** The routes as [validateRoutes] leaves them. *)
Fixpoint validate_routes_from (i : nat) (seen : list string) (groups : gmap string Program) (routes : list Route)
    : result profileError (list Route) :=
  match routes with
  | [] => Ok []
  | route :: routes =>
      route ← at_path [PathIndex i] id (validate_route route);
      refuse (mem_string (rt_Name route) seen)
        (atPath (Errorf "two routes are named %s" [rt_Name route]) [PathIndex i; key "name"]) ;;
      refuse (bool_decide (is_Some (groups !! rt_Name route)))
        (atPath (Errorf "route %s takes its program on the route, not under groups" [rt_Name route])
           [PathIndex i; key "name"]) ;;
      rest ← validate_routes_from (S i) (rt_Name route :: seen) groups routes;
      Ok (route :: rest)
  end.

Definition validateRoutes (routes : list Route) (groups : gmap string Program) : result profileError (list Route) :=
  refuse (maxRoutes <? length routes)%nat (Errorf "more than %d routes" []) ;;
  validate_routes_from 0 [] groups routes.
End route.
