(* ===== verification/RouteFacts.v ===== *)
(** * Facts about routes

    What validation writes back reads as itself: a match entry prints as a
    text that parses to it, and validated routes validate unchanged. *)

From S2P Require Import Prelude GoText TextFacts Profile Route.

(** ** The rule types are plain upper-case words *)

Definition plain_type (t : string) : bool :=
  all_ascii t && negb (has_byte "," t) && negb (empty t) &&
  forallb (λ b, negb (ascii_lower b) && negb (ascii_space b)) (bytes_of t).

Lemma types_plain : forallb (λ p, plain_type p.1) (map_to_list routeTypes) = true.
Proof. vm_compute. reflexivity. Qed.

Lemma type_plain t takes : routeTypes !! t = Some takes → plain_type t = true.
Proof.
  intros Ht%elem_of_map_to_list%list_elem_of_In. exact (proj1 (forallb_forall _ _) types_plain (t, takes) Ht).
Qed.

Section facts.
Context `{U : Unicode} {UA : UnicodeAscii} `{Netip}.

Lemma plain_ends t : plain_type t = true →
  all_ascii t = true ∧ has_byte "," t = false ∧ t ≠ EmptyString ∧ TrimSpace t = t ∧ ToUpper t = t.
Proof.
  unfold plain_type. intros [[[Ha Hc]%andb_true_iff He]%andb_true_iff Hb]%andb_true_iff.
  rewrite forallb_forall in Hb. apply negb_true_iff in Hc, He. apply empty_false in He.
  assert (Hs : ∀ b, b ∈ bytes_of t → ascii_lower b = false ∧ ascii_space b = false).
  { intros b Hin%list_elem_of_In. apply Hb in Hin. apply andb_true_iff in Hin as [H1 H2].
    by apply negb_true_iff in H1, H2. }
  split_and!; [done..| |].
  - apply TrimSpace_plain; [done|]. intros b Hin. by apply Hs.
  - apply ToUpper_plain; [done|]. intros b Hin. by apply Hs.
Qed.

Lemma no_resolve_plain : TrimSpace "no-resolve" = "no-resolve"%string.
Proof.
  apply TrimSpace_plain; [done|]. intros b Hin. cbn in Hin.
  repeat (apply elem_of_cons in Hin as [->|Hin]; [done|]). by apply elem_of_nil in Hin.
Qed.

(** ** A parsed match entry *)

Lemma match_options_found type takes found params b :
  match_options type takes found params = Ok b → b = true → found = true ∨ takes = true.
Proof.
  revert found. induction params as [|param params IH]; intros found; cbn [match_options]; [intros [= ->]; auto|].
  case_if; [done|]. apply orb_false_iff in E as [_ E]. apply negb_false_iff in E. auto.
Qed.

(** The pieces of a parsed entry: a known type, a trimmed payload that holds
    no comma unless it is a pattern, and no-resolve where the type takes it. *)
Record match_ok (m : RouteMatch) (takes : bool) : Prop := {
  mo_type : routeTypes !! rm_Type m = Some takes;
  mo_trim : TrimSpace (rm_Payload m) = rm_Payload m;
  mo_some : rm_Payload m ≠ EmptyString;
  mo_comma : rm_Type m = "DOMAIN-REGEX"%string ∧ rm_NoResolve m = false ∨
             rm_Type m ≠ "DOMAIN-REGEX"%string ∧ has_byte "," (rm_Payload m) = false ∧
               (rm_NoResolve m = true → takes = true);
  mo_check : check_payload m = Ok tt;
}.

Lemma parse_match_ok entry m : ParseRouteMatch entry = Ok m → ∃ takes, match_ok m takes.
Proof.
  unfold ParseRouteMatch. destruct (Cut entry ",") as [[kind rest] found].
  destruct (routeTypes !! ToUpper (TrimSpace kind)) as [takes|] eqn:Et; [|done].
  intros (m0 & Hm & (u & Hr & (v & Hc & Hok)%result_bind_Ok)%result_bind_Ok)%result_bind_Ok. simplify_eq.
  exists takes. destruct v. unfold refuse in Hr. case_if_in Hr; [done|]. apply empty_false in E.
  case_if_in Hm.
  - apply eqs_true in E0. simplify_eq. split; cbn; [done | apply TrimSpace_idem | done | by left | done].
  - apply eqs_false in E0. destruct (Split rest ",") as [|payload params] eqn:Es; [done|].
    apply result_bind_Ok in Hm as (b & Hb & Hm). simplify_eq. cbn [rm_Payload rm_Type rm_NoResolve] in *.
    split; cbn; [done | apply TrimSpace_idem | done | | done]. right. split_and!; [done | |].
    + apply TrimSpace_no_sep. eapply Split_no_sep. rewrite Es. left.
    + intros ->. by destruct (match_options_found _ _ _ _ _ Hb eq_refl).
Qed.

Lemma match_ok_parse m takes : match_ok m takes → ParseRouteMatch (match_string m) = Ok m.
Proof.
  intros [Ht Htrim Hne Hcomma Hcheck]. destruct (plain_ends _ (type_plain _ _ Ht)) as (_ & Hc & _ & Hts & Hup).
  unfold ParseRouteMatch, match_string.
  change (rm_Type m +:+ "," +:+ rm_Payload m +:+ (if rm_NoResolve m then ",no-resolve" else ""))
    with (rm_Type m +:+ String "," (rm_Payload m +:+ (if rm_NoResolve m then ",no-resolve" else ""))).
  rewrite Cut_app, Hts, Hup, Ht by done.
  assert (Hfin : ∀ (r : result profileError RouteMatch) e, r = Ok m →
    (m0 ← r; refuse (empty (rm_Payload m0)) e ;; check_payload m0 ;; Ok m0) = Ok m).
  { intros r e ->. cbn [mbind result_bind]. unfold refuse, empty. rewrite bool_decide_eq_false_2 by done.
    cbn [mbind result_bind]. by rewrite Hcheck. }
  destruct Hcomma as [[Hx Hn]|(Hx & Hp & Hn)].
  - unfold eqs. rewrite Hx, bool_decide_eq_true_2, Hn, append_nil_r, Htrim by done. rewrite <- Hx.
    refine (Hfin (Ok _) _ _). destruct m. cbn in *. by subst.
  - rewrite (proj2 (eqs_false _ _) Hx). destruct (rm_NoResolve m) eqn:Enr.
    + rewrite (Hn eq_refl) in *. change ",no-resolve" with (String "," "no-resolve"). rewrite Split_app by done.
      change (Split "no-resolve" ",") with ["no-resolve"%string]. cbn [match_options]. rewrite no_resolve_plain.
      cbn. rewrite Htrim. refine (Hfin (Ok _) _ _). destruct m. cbn in *. by subst.
    + rewrite append_nil_r, Split_none by done. cbn. rewrite Htrim. refine (Hfin (Ok _) _ _). destruct m. cbn in *. by subst.
Qed.

(** ** A normalised list of entries *)

Lemma ToUpper_has_comma s : has_byte "," s = true → has_byte "," (ToUpper s) = true.
Proof.
  intros Hc. assert (Hs : ∃ a b, s = a +:+ String "," b).
  { clear -Hc. induction s as [|c s IH]; [done|]. cbn [has_byte] in Hc. apply orb_true_iff in Hc as [Hc|Hc].
    - apply bool_decide_eq_true in Hc as ->. by exists EmptyString, s.
    - destruct (IH Hc) as (a & b & ->). by exists (String c a), b. }
  destruct Hs as (a & b & ->). unfold ToUpper, map_runes. rewrite decode_app by done.
  change (String "," b) with (str1 "," +:+ b). unfold decode at 2. rewrite chunks_step by done.
  change (decode1 (str1 "," +:+ b)) with (44, 1%nat). cbn [fst snd fmap list_fmap].
  rewrite fmap_app. unfold encode. rewrite fmap_app, concat_app, has_byte_app. apply orb_true_iff. right.
  cbn [fmap list_fmap]. rewrite upper_ascii by lia. done.
Qed.

Lemma chunks_comma s : rune_chunks (String "," s) 0 = (44, str1 ",") :: rune_chunks s 0.
Proof. rewrite chunks_step by done. reflexivity. Qed.

(** A printed entry has no spaces around it. *)
Lemma match_string_trim m takes : match_ok m takes → TrimSpace (match_string m) = match_string m.
Proof.
  intros [Ht Htrim Hne _ _]. destruct (plain_ends _ (type_plain _ _ Ht)) as (_ & _ & Hty & Hts & _).
  pose proof (chunks_TrimSpace (rm_Type m)) as Et. rewrite Hts in Et.
  pose proof (chunks_TrimSpace (rm_Payload m)) as Ep. rewrite Htrim in Ep.
  apply TrimSpace_id. unfold match_string.
  set (opt := if rm_NoResolve m then ",no-resolve" else ""). change ("," +:+ rm_Payload m +:+ opt) with (String "," (rm_Payload m +:+ opt)).
  rewrite chunks_app, chunks_comma by done. rewrite (chunks_app (rm_Payload m)) by (unfold opt; by destruct (rm_NoResolve m)).
  assert (Hnt : rune_chunks (rm_Type m) 0 ≠ []) by (by intros ?%chunks_nil).
  assert (Hnp : rune_chunks (rm_Payload m) 0 ≠ []) by (by intros ?%chunks_nil).
  intros c [Hh|Hl].
  - apply (trim_ends spacy (rune_chunks (rm_Type m) 0)). left. rewrite <- Et.
    by destruct (rune_chunks (rm_Type m) 0).
  - rewrite last_app_cons, last_cons in Hl.
    destruct (rune_chunks opt 0) as [|o os] eqn:Eo.
    + rewrite app_nil_r in Hl. apply (trim_ends spacy (rune_chunks (rm_Payload m) 0)). right. rewrite <- Ep.
      destruct (last (rune_chunks (rm_Payload m) 0)) eqn:El; [done|]. by apply last_None in El.
    + rewrite last_app_cons in Hl. unfold opt in Eo. destruct (rm_NoResolve m); [|done].
      vm_compute in Eo. injection Eo as <- <-. cbn in Hl. injection Hl as <-. cbn. by rewrite space_ascii by lia.
Qed.

Lemma normalize_fix fuel : ∀ i j items out, normalize_from fuel i items = Ok out →
  (length out <= length items)%nat ∧ (items ≠ [] → out ≠ []) ∧
  ∀ fuel', (length out <= fuel')%nat → normalize_from fuel' j out = Ok out.
Proof.
  induction fuel as [|fuel IH]; intros i j items out; [destruct items; [|done]; intros [= <-]; split_and!; [done..|by intros []]|].
  destruct items as [|item rest]; [intros [= <-]; split_and!; [done..|by intros []]|]. cbn [normalize_from].
  set (step := match rest with [] => _ | _ :: _ => _ end).
  assert (Hlen : (length step.1.2 <= length rest)%nat).
  { unfold step. destruct rest as [|v rest]; [done|]. case_bool_decide; [|done].
    destruct rest as [|o rest]; [cbn; lia|]. case_if; cbn; lia. }
  destruct step as [[entry rest'] used]. cbn [fst snd] in Hlen.
  destruct (ParseRouteMatch entry) as [m|e] eqn:Em; [|done]. intros (o & Ho & E)%result_bind_Ok. simplify_eq.
  destruct (parse_match_ok _ _ Em) as [takes Hm].
  destruct (IH (i + used)%nat (j + 1)%nat rest' o Ho) as (Hl & _ & Hfix).
  split_and!; [cbn; lia | done|]. intros [|fuel'] Hf; cbn in Hf; [lia|]. cbn [normalize_from].
  rewrite (match_string_trim _ _ Hm).
  assert (Hno : routeTypes !! ToUpper (match_string m) = None).
  { destruct (routeTypes !! ToUpper (match_string m)) as [b|] eqn:Er; [|done].
    destruct (plain_ends _ (type_plain _ _ Er)) as (_ & Hc & _). rewrite ToUpper_has_comma in Hc; [done|].
    unfold match_string. rewrite !has_byte_app. apply orb_true_iff. by right. }
  rewrite Hno. rewrite (bool_decide_eq_false_2 (is_Some None)) by (by intros []).
  destruct o as [|o1 o]; cbn [mbind result_bind]; rewrite (match_ok_parse _ _ Hm), Hfix by lia; done.
Qed.

(** The fuel of [normalizeMatch] is enough: more changes nothing. *)
Lemma normalize_fuel f : ∀ g i items, (length items <= f)%nat → (length items <= g)%nat →
  normalize_from f i items = normalize_from g i items.
Proof.
  induction f as [|f IH]; intros g i items Hf Hg; [destruct items; [by destruct g | cbn in Hf; lia]|].
  destruct items as [|item rest]; [by destruct g|]. destruct g as [|g]; [cbn in Hg; lia|]. cbn [normalize_from].
  set (step := match rest with [] => _ | _ :: _ => _ end).
  assert (Hlen : (length step.1.2 <= length rest)%nat).
  { unfold step. destruct rest as [|v rest]; [done|]. case_bool_decide; [|done].
    destruct rest as [|o rest]; [cbn; lia|]. case_if; cbn; lia. }
  destruct step as [[entry rest'] used]. cbn [fst snd length] in *.
  destruct (ParseRouteMatch entry); [|done]. by rewrite (IH g) by lia.
Qed.

Lemma refuse_Ok b e u : refuse b e = Ok u ↔ b = false.
Proof. unfold refuse. destruct b, u; done. Qed.

(** A validated route: its entries are in their printed form. *)
Lemma validate_route_fix r r' : validate_route r = Ok r' →
  validate_route r' = Ok r' ∧ rt_Name r' = rt_Name r ∧ rt_Program r' = rt_Program r.
Proof.
  unfold validate_route. intros (u1 & E1 & (u2 & E2 & (u3 & E3 & (u4 & E4 & (u5 & E5 & (items & E6 & (u7 & E7 &
    (u8 & E8 & E9)%result_bind_Ok)%result_bind_Ok)%result_bind_Ok)%result_bind_Ok)%result_bind_Ok)%result_bind_Ok)%result_bind_Ok)%result_bind_Ok.
  simplify_eq. cbn [rt_Name rt_Description rt_Match rt_Program].
  apply refuse_Ok in E5, E7. rewrite E1, E2, E3, E4. cbn [mbind result_bind].
  unfold at_path in *. destruct (normalizeMatch (rt_Match r)) as [items'|e] eqn:En; [|done]. injection E6 as ->.
  destruct (normalize_fix _ 0 0 _ _ En) as (_ & Hne & Hfix).
  apply orb_false_iff in E5 as [Enil _]. apply bool_decide_eq_false in Enil.
  unfold refuse. rewrite (bool_decide_eq_false_2 _ (Hne Enil)), E7. cbn [orb mbind result_bind].
  unfold normalizeMatch. rewrite Hfix by done. cbn [mbind result_bind]. rewrite ?E7. cbn [mbind result_bind].
  rewrite E8. done.
Qed.

Lemma validate_routes_fix i seen groups routes out :
  validate_routes_from i seen groups routes = Ok out →
  validate_routes_from i seen groups out = Ok out ∧ length out = length routes.
Proof.
  revert i seen out. induction routes as [|r routes IH]; intros i seen out; [by intros [= <-]|].
  cbn [validate_routes_from]. intros (r' & E1 & (u & E2 & (u' & E3 & (rest & E4 & E5)%result_bind_Ok)%result_bind_Ok)%result_bind_Ok)%result_bind_Ok.
  simplify_eq. unfold at_path in E1. destruct (validate_route r) as [r1|e] eqn:Er; [|done]. injection E1 as ->.
  destruct (validate_route_fix _ _ Er) as (Hfix & _). destruct (IH _ _ _ E4) as [Hrest Hlen]. cbn [validate_routes_from].
  rewrite Hfix. cbn [at_path mbind result_bind]. rewrite E2, E3. cbn [mbind result_bind]. rewrite Hrest.
  split; [done | cbn; by rewrite Hlen].
Qed.

(** Validated routes are a fixed point. The match entries of a route are
    rewritten to one text form when it is validated; validating the routes
    again, as a reload of what was written does, accepts them and changes
    nothing: every entry parses back to the type, the payload and the option
    it was printed from, whatever spaces, letter case and split forms the
    first reading accepted. *)
Theorem routes_roundtrip routes groups out :
  validateRoutes routes groups = Ok out → validateRoutes out groups = Ok out.
Proof.
  unfold validateRoutes. intros (u & E1 & E2)%result_bind_Ok. destruct (validate_routes_fix _ _ _ _ _ E2) as [Hfix Hlen].
  rewrite Hlen, E1. exact Hfix.
Qed.
End facts.

(** ** An example *)

Module Sample.

#[local] Existing Instance ascii_tables.
#[local] Existing Instance ascii_tables_ok.
#[local] Instance no_prefixes : Netip := {| parse_prefix _ := false |}.

Definition no_program : Program :=
  {| pg_Profile := ""; pg_Pool := {| po_Include := ""; po_Exclude := "" |}; pg_Prefer := []; pg_To := "" |}.
Definition written : Route :=
  {| rt_Name := "Video"; rt_Description := ""; rt_Match := ["GEOSITE"; "youtube"; " geoip, us , no-resolve"];
     rt_Program := no_program |}.
Definition printed : Route := {| written with rt_Match := ["GEOSITE,youtube"; "GEOIP,us,no-resolve"] |}.

Lemma routes_roundtrip_witness : validateRoutes [printed] ∅ = Ok [printed].
Proof. apply (routes_roundtrip [written] ∅ [printed]). vm_compute. reflexivity. Defined.

End Sample.
