(* ===== verification/Scenario.v ===== *)
(** * Scenarios: core/rcx/scenario.go

    The connection-wide auto control: per network kind it holds the tunnel
    mode and assigns programs to groups. *)

From S2P Require Import Prelude GoText Cond CondSyntax Profile Policy Library Route.

Record ScenarioLayer := { sl_Mode : string; sl_Groups : gmap string Program }.

Record Scenario := {
  sc_RCX : Z;
  sc_Title : string;
  sc_Description : string;
  sc_Tags : gmap string string;
  sc_Network : NetworkSpec;
  sc_Mode : string;
  sc_Groups : gmap string Program;
  sc_Routes : list Route;
  sc_On : gmap string ScenarioLayer;
  sc_L10n : gmap string (gmap string string);
}.

Definition validMode (mode : string) : bool := mem_string mode [""; "rule"; "global"; "direct"].

Record compiledScenario := {
  cs_id : string;
  cs_title : string;
  cs_stags : gmap string string;
  cs_net : Policy;
  cs_mode : string;
  cs_modeOn : gmap string string;
  cs_base : gmap string Program;
  cs_on : gmap string (gmap string Program);
  cs_routes : list Route;
}.

Definition modeFor (s : compiledScenario) (kind : string) : string :=
  or_string (default EmptyString (cs_modeOn s !! kind)) (cs_mode s).

Definition holdsMode (s : compiledScenario) : bool :=
  negb (empty (cs_mode s)) || existsb (λ '(_, mode), negb (empty mode)) (map_to_list (cs_modeOn s)).

Definition programs (s : compiledScenario) (kind : string) : gmap string Program :=
  match cs_on s !! kind with Some layered => layered | None => cs_base s end.

(** ** Assignments *)

Record assignment := { as_Key : string; as_Program : Program }.

(** [if _, named := out[name]; !named { out[name] = a }]. *)
Definition assign (a : assignment) (name : string) (out : gmap string assignment) : gmap string assignment :=
  match out !! name with Some _ => out | None => <[name := a]> out end.

Definition named_programs (ps : gmap string Program) : gmap string assignment :=
  map_imap (λ key p, if eqs key AllTarget || eqs key MainTarget then None
                     else Some {| as_Key := key; as_Program := p |}) ps.

Definition assign_route (routeGroups : list string) (out : gmap string assignment) (r : Route)
    : gmap string assignment :=
  if empty (pg_To (rt_Program r)) && mem_string (rt_Name r) routeGroups
  then assign {| as_Key := rt_Name r; as_Program := rt_Program r |} (rt_Name r) out else out.

Definition assign_main (ps : gmap string Program) (main : string) (out : gmap string assignment)
    : gmap string assignment :=
  match ps !! MainTarget with
  | Some p => if empty main then out else assign {| as_Key := MainTarget; as_Program := p |} main out
  | None => out
  end.

Definition assign_all (ps : gmap string Program) (groups : list string) (out : gmap string assignment)
    : gmap string assignment :=
  match ps !! AllTarget with
  | Some p => foldl (λ out name, if eqs name GlobalTarget then out
                                 else assign {| as_Key := AllTarget; as_Program := p |} name out) out groups
  | None => out
  end.

Definition sc_targets (s : compiledScenario) (kind : string) (groups : list string) (main : string)
    (routeGroups : list string) : gmap string assignment :=
  let ps := programs s kind in
  let out := named_programs ps in
  let out := foldl (assign_route routeGroups) out (cs_routes s) in
  let out := assign_main ps main out in
  assign_all ps groups out.

Definition scenarioKey (id : string) : string := "scenario:" +:+ id.

Definition fixedMembers (s : compiledScenario) : list string :=
  sorted_strings (elements (list_to_set (C := gset string)
    (filter (λ t, negb (empty t))
      ((λ p, pg_To p.2) <$> ((cs_base s :: (map_to_list (cs_on s)).*2) ≫= map_to_list))))).

Section scenario.
Context `{Unicode} `{Regexp} `{Url} `{PublicSuffix} `{IpText} `{RangeOrder} `{Netip}.

(** ** Validation *)

Definition validatePrograms (ps : gmap string Program) : result profileError unit :=
  refuse (maxPrograms <? size ps)%nat (Errorf "more than %d groups" []) ;;
  each (λ _ target,
    refuse (empty (TrimSpace target) || (maxTargetLength <? length (decode target))%nat)
      (atPath (Errorf "group %q needs a name of 1 to %d characters" [target]) [key target]) ;;
    match ps !! target with
    | Some p => at_path [key target] (Wrapf "group %s: %w" [target]) (validate_program p)
    | None => Ok tt
    end) 0 (sorted_keys ps).

Definition validate_layer_on (on : gmap string ScenarioLayer) : result profileError unit :=
  refuse (maxKinds <? size on)%nat (atPath (Errorf "more than %d network overrides" []) [key "on"]) ;;
  each (λ _ kind, match on !! kind with
    | None => Ok tt
    | Some l =>
        refuse (negb (validName kind))
          (atPath (Errorf "network kind %q is not a short lowercase name" [kind]) [key "on"; key kind]) ;;
        refuse (negb (validMode (sl_Mode l)))
          (atPath (Errorf "on %s: mode %q is not rule, global or direct" [kind; sl_Mode l])
             [key "on"; key kind; key "mode"]) ;;
        at_path [key "on"; key kind; key "groups"] (Wrapf "on %s: %w" [kind]) (validatePrograms (sl_Groups l))
    end) 0 (sorted_keys on).

(** [Scenario.validate]: the scenario with its routes normalised. *)
Definition validate_scenario (s : Scenario) : result profileError Scenario :=
  refuse (FormatVersion <? sc_RCX s)
    (Errorf "scenario format %d is newer than this app understands (%d)" []) ;;
  refuse (maxTags <? size (sc_Tags s))%nat (atPath (Errorf "more than %d tags" []) [key "tags"]) ;;
  refuse (negb (validMode (sc_Mode s)))
    (atPath (Errorf "mode %q is not rule, global or direct" [sc_Mode s]) [key "mode"]) ;;
  at_path [key "groups"] id (validatePrograms (sc_Groups s)) ;;
  routes ← at_path [key "routes"] id (validateRoutes (sc_Routes s) (sc_Groups s));
  at_path [key "network"] id (validate_network (sc_Network s)) ;;
  validate_layer_on (sc_On s) ;;
  validateL10n (sc_L10n s) ;;
  Ok {| s with sc_Routes := routes |}.

(** ** Compiling *)

Definition checkProgram (lib : Library) (target : string) (p : Program) (tags : gset string)
    (path : list PathItem) : result profileError unit :=
  scope ← (if empty (pg_Profile p)
           then Ok {| cs_tags := Some tags; cs_checks := ∅; cs_diags := None |}
           else match lib_Resolve lib (pg_Profile p) with
                | Err e => Err (atPath (Wrapf "group %s: %w" [target] e) (path ++ [key "profile"]))
                | Ok profile => Ok {| cs_tags := Some (tags ∪ dom (pr_Tags profile));
                                      cs_checks := dom (pr_Checks profile); cs_diags := None |}
                end);
  if empty (pg_Profile p) && (negb (is_pool_empty (pg_Pool p)) || negb (bool_decide (pg_Prefer p = [])))
  then Ok tt
  else
    cond_at scope (po_Include (pg_Pool p)) "group %s pool include: %w" [target]
      (path ++ [key "pool"; key "include"]) ;;
    cond_at scope (po_Exclude (pg_Pool p)) "group %s pool exclude: %w" [target]
      (path ++ [key "pool"; key "exclude"]) ;;
    each (λ i tier,
      cond_at scope (ts_When tier) "group %s prefer %d: %w" [target; Itoa (Z.of_nat i + 1)]
        (path ++ [key "prefer"; PathIndex i; key "when"]) ;; Ok tt) 0 (pg_Prefer p).

Definition checkPrograms (lib : Library) (ps : gmap string Program) (tags : gset string)
    (path : list PathItem) : result profileError unit :=
  each (λ _ target, match ps !! target with
                    | Some p => checkProgram lib target p tags (path ++ [key target])
                    | None => Ok tt
                    end) 0 (sorted_keys ps).

(** The network policy a scenario classifies with: a [Policy] of which only
    the id and the network part are set. *)
Definition network_policy (id : string) (n : CompiledNetwork) : Policy :=
  {| pl_ID := id; pl_Title := ""; pl_Level := ""; pl_Include := None; pl_Exclude := None; pl_Tags := [];
     pl_Tiers := []; pl_RankBy := ""; pl_Tolerance := 0; pl_Improve := false; pl_Dwell := 0;
     pl_MinGainMs := 0; pl_MinGainPct := 0; pl_Confirm := 0; pl_MaxPerHour := 0; pl_Stranded := "";
     pl_Energy := ""; pl_Fixed := ""; pl_Checks := ∅; pl_CheckIDs := []; pl_UsesExit := false;
     pl_Egress := {| eg_Echo := []; eg_Agree := 0 |};
     pl_Diagnostics := cn_Diagnostics n; pl_Kinds := cn_Kinds n; pl_DirectSplit := cn_DirectSplit n |}.

Definition compile_on (lib : Library) (s : Scenario) (net : Policy) (tags : gset string) (kind : string)
    : result profileError (string * (string * gmap string Program)) :=
  if existsb (λ rule, eqs (kr_Kind rule) kind) (pl_Kinds net) then
    match sc_On s !! kind with
    | None => Err (Errorf "unreachable" [])
    | Some l =>
        checkPrograms lib (sl_Groups l) tags [key "on"; key kind; key "groups"] ;;
        Ok (kind, (sl_Mode l, mergeMap (sc_Groups s) (sl_Groups l)))
    end
  else Err (atPath (Errorf "on %s: the scenario declares no network kind %s" [kind; kind]) [key "on"; key kind]).

Definition compileScenario (lib : Library) (id : string) (s : Scenario) : result profileError compiledScenario :=
  network ← compileNetwork {| no_profile with pr_Network := sc_Network s |};
  let net := network_policy id network in
  let tags := dom (sc_Tags s) in
  compileTags (sc_Tags s) ;;
  checkPrograms lib (sc_Groups s) tags [key "groups"] ;;
  each (λ i route, checkProgram lib (rt_Name route) (rt_Program route) tags [key "routes"; PathIndex i])
    0 (sc_Routes s) ;;
  on ← collect (λ _ kind, compile_on lib s net tags kind) 0 (sorted_keys (sc_On s));
  Ok {| cs_id := id; cs_title := sc_Title s; cs_stags := sc_Tags s; cs_net := net; cs_mode := sc_Mode s;
        cs_modeOn := list_to_map ((λ p, (p.1, p.2.1)) <$> on); cs_base := sc_Groups s;
        cs_on := list_to_map ((λ p, (p.1, p.2.2)) <$> on); cs_routes := sc_Routes s |}.

(** The hosts a subscription's scenario would contact without leave. *)
Definition scenarioConsent (lib : Library) (id source : string) (s : Scenario) : result profileError unit :=
  if negb (eqs source SubscriptionSource) then Ok tt
  else
    let hosts := list_to_set (C := gset string)
      (filter (λ h, negb (allows (lb_builtin lib) (lb_trust lib) h))
         (ep_Host <$> endpoints {| no_profile with pr_Network := sc_Network s |})) in
    if decide (hosts = ∅) then Ok tt else Err (ConsentError id (sorted_strings (elements hosts))).
End scenario.

(** ** Facts about scenarios

    Which program drives which group. *)

(** The program of one group, read off the precedence: its own name, a route
    of its name that has no fixed member, the final rule's group, then every
    other group but GLOBAL. *)
Definition target_of (s : compiledScenario) (kind : string) (groups : list string) (main : string)
    (routeGroups : list string) (name : string) : option assignment :=
  let ps := programs s kind in
  let own := if eqs name AllTarget || eqs name MainTarget then None else ps !! name in
  let route := List.find (λ r, eqs (rt_Name r) name && empty (pg_To (rt_Program r)) && mem_string (rt_Name r) routeGroups)
                 (cs_routes s) in
  match own, route, ps !! MainTarget, ps !! AllTarget with
  | Some p, _, _, _ => Some {| as_Key := name; as_Program := p |}
  | None, Some r, _, _ => Some {| as_Key := name; as_Program := rt_Program r |}
  | None, None, main_program, all_program =>
      match main_program with
      | Some p => if negb (empty main) && eqs name main then Some {| as_Key := MainTarget; as_Program := p |}
                  else p ← all_program;
                       if mem_string name groups && negb (eqs name GlobalTarget)
                       then Some {| as_Key := AllTarget; as_Program := p |} else None
      | None => p ← all_program;
                if mem_string name groups && negb (eqs name GlobalTarget)
                then Some {| as_Key := AllTarget; as_Program := p |} else None
      end
  end.

Lemma assign_lookup a name out n :
  assign a name out !! n = match out !! n with Some x => Some x | None => if eqs n name then Some a else None end.
Proof.
  unfold assign, eqs. destruct (out !! name) as [x|] eqn:E; case_bool_decide as Hn; subst.
  - by rewrite E.
  - by destruct (out !! n).
  - by rewrite E, lookup_insert_eq.
  - rewrite lookup_insert_ne by done. by destruct (out !! n).
Qed.

Lemma assign_routes_lookup rg routes out n :
  foldl (assign_route rg) out routes !! n =
  match out !! n with
  | Some x => Some x
  | None => (λ r, {| as_Key := n; as_Program := rt_Program r |}) <$>
      List.find (λ r, eqs (rt_Name r) n && empty (pg_To (rt_Program r)) && mem_string (rt_Name r) rg) routes
  end.
Proof.
  revert out. induction routes as [|r routes IH]; intros out; cbn [foldl List.find]; [by destruct (out !! n)|].
  rewrite IH. unfold assign_route. destruct (empty (pg_To (rt_Program r)) && mem_string (rt_Name r) rg) eqn:E.
  - rewrite assign_lookup. destruct (out !! n); [done|]. rewrite <- andb_assoc, E, andb_true_r.
    unfold eqs. rewrite (bool_decide_ext (n = rt_Name r) (rt_Name r = n)) by naive_solver.
    case_bool_decide; [by subst | done].
  - rewrite <- andb_assoc, E, andb_false_r. done.
Qed.

Lemma assign_all_lookup p groups out n :
  foldl (λ out name, if eqs name GlobalTarget then out
                     else assign {| as_Key := AllTarget; as_Program := p |} name out) out groups !! n =
  match out !! n with
  | Some x => Some x
  | None => if mem_string n groups && negb (eqs n GlobalTarget)
            then Some {| as_Key := AllTarget; as_Program := p |} else None
  end.
Proof.
  revert out. induction groups as [|g groups IH]; intros out; cbn [foldl]; [by destruct (out !! n)|]. rewrite IH.
  rewrite mem_string_cons. destruct (eqs g GlobalTarget) eqn:Eg.
  - apply eqs_true in Eg as ->. destruct (out !! n); [done|]. unfold eqs.
    destruct (decide (n = GlobalTarget)) as [->|Hn]; [by rewrite (bool_decide_eq_true_2 (GlobalTarget = _)), !andb_false_r|].
    by rewrite (bool_decide_eq_false_2 _ Hn).
  - rewrite assign_lookup. destruct (out !! n); [done|]. destruct (eqs n g) eqn:En; [|done].
    apply eqs_true in En as ->. by rewrite Eg.
Qed.

(** Which program drives a group. Whatever order the programs, routes and
    groups are listed in, a group is driven by the program named after it, else
    by the first active route of its name that holds no fixed member, else, if
    it is the group of the final rule, by [$main], else by [*], which never
    drives GLOBAL; every other name is driven by nothing. *)
Theorem targets_precedence s kind groups main routeGroups name :
  sc_targets s kind groups main routeGroups !! name = target_of s kind groups main routeGroups name.
Proof.
  unfold sc_targets, target_of. cbn zeta. set (ps := programs s kind).
  assert (Hown : named_programs ps !! name =
    (λ p, {| as_Key := name; as_Program := p |}) <$> (if eqs name AllTarget || eqs name MainTarget then None else ps !! name)).
  { unfold named_programs. rewrite map_lookup_imap. destruct (ps !! name) as [p|]; cbn; [by case_if | by case_if]. }
  set (routed := foldl (assign_route routeGroups) (named_programs ps) (cs_routes s)).
  assert (Hrouted : routed !! name = match (if eqs name AllTarget || eqs name MainTarget then None else ps !! name) with
    | Some p => Some {| as_Key := name; as_Program := p |}
    | None => (λ r, {| as_Key := name; as_Program := rt_Program r |}) <$>
        List.find (λ r, eqs (rt_Name r) name && empty (pg_To (rt_Program r)) && mem_string (rt_Name r) routeGroups) (cs_routes s)
    end).
  { unfold routed. rewrite assign_routes_lookup, Hown. by destruct (if eqs name AllTarget || _ then _ else _). }
  assert (Hmain : assign_main ps main routed !! name = match routed !! name with
    | Some x => Some x
    | None => match ps !! MainTarget with
              | Some p => if negb (empty main) && eqs name main then Some {| as_Key := MainTarget; as_Program := p |} else None
              | None => None
              end
    end).
  { unfold assign_main. destruct (ps !! MainTarget) as [p|]; [|by destruct (routed !! name)].
    destruct (empty main); [by destruct (routed !! name)|]. rewrite assign_lookup. by destruct (routed !! name). }
  assert (Hall : assign_all ps groups (assign_main ps main routed) !! name =
    match assign_main ps main routed !! name with
    | Some x => Some x
    | None => p ← ps !! AllTarget; if mem_string name groups && negb (eqs name GlobalTarget)
                                   then Some {| as_Key := AllTarget; as_Program := p |} else None
    end).
  { unfold assign_all. destruct (ps !! AllTarget) as [p|]; [apply assign_all_lookup|].
    by destruct (assign_main ps main routed !! name). }
  rewrite Hall, Hmain, Hrouted. destruct (if eqs name AllTarget || _ then _ else _); [done|].
  destruct (List.find _ _); [done|]. cbn [fmap option_fmap option_map]. destruct (ps !! MainTarget); [|done].
  by destruct (negb (empty main) && eqs name main).
Qed.
