(* ===== verification/Layers.v ===== *)
(** * The layers and the loaded library: profile.go, policy.go, scenario.go

    What the subscription and the user bring, the library built from both,
    and the scenario that runs for them. YAML decoding and the embedded files
    are parameters: their output is what the code validates and compiles. *)

From S2P Require Import Prelude GoText Cond CondSyntax Profile Policy Library Route Scenario.

Definition maxProfileBytes : Z := 65536.

(** The errors a loaded entry keeps the text of: a decoding error of the
    YAML library, or one of the code's own. *)
Inductive loadError := TooLarge (kind : string) | YamlError (text : string) | Invalid (err : profileError).

(** go.yaml.in/yaml: decoding with known fields only, marshalling of the
    untyped nodes a subscription carries, and the text [FormatScenario] has
    its encoder write. *)
Class Yaml := {
  yaml_any : Type;
  yaml_marshal : yaml_any → result string string;
  yaml_profile : string → result string Profile;
  yaml_scenario : string → result string Scenario;
  yaml_format : Scenario → result string string;
}.

(** The files embedded from core/rcx/builtin, by base name. *)
Class Embedded := {
  builtin_profiles : list (string * string);
  builtin_scenarios : list (string * string);
}.

(** The text of an error, as [Error()] writes it. *)
Class ErrorText := { error_text : loadError → string }.

Record UserLayer := {
  ul_Groups : gmap string Binding;
  ul_Profiles : gmap string string;
  ul_Scenario : string;
  ul_ScenarioOff : bool;
  ul_Scenarios : gmap string string;
  ul_ManualMode : bool;
  ul_ProviderHosts : list string;
  ul_Trusted : list string;
}.

Record SubscriptionLayer `{Yaml} := {
  su_Groups : gmap string Binding;
  su_Profiles : gmap string yaml_any;
  su_Scenarios : gmap string yaml_any;
  su_Scenario : string;
}.

Record scenarioEntry := { se_info : ProfileInfo; se_scenario : option Scenario }.

(** [Library] whole: the profiles of Library.v and the scenarios. *)
Record FullLibrary := { fl_profiles : Library; fl_scenarios : gmap string scenarioEntry }.

(** [Kind], [Source], [ID] and [Title] of a fresh entry. *)
Definition new_info (id kind source : string) : ProfileInfo :=
  {| pi_ID := id; pi_Kind := kind; pi_Title := id; pi_Description := ""; pi_Level := "";
     pi_Source := source; pi_Extends := ""; pi_Error := ""; pi_L10n := ∅; pi_Consent := [] |}.

Section layers.
Context `{Unicode} `{Regexp} `{Url} `{PublicSuffix} `{IpText} `{RangeOrder} `{Netip}.
Context `{Yaml} `{Embedded} `{ErrorText}.

Definition empty_user : UserLayer :=
  {| ul_Groups := ∅; ul_Profiles := ∅; ul_Scenario := ""; ul_ScenarioOff := false; ul_Scenarios := ∅;
     ul_ManualMode := false; ul_ProviderHosts := []; ul_Trusted := [] |}.

Definition empty_subscription : SubscriptionLayer :=
  {| su_Groups := ∅; su_Profiles := ∅; su_Scenarios := ∅; su_Scenario := "" |}.

Definition of_yaml {A} (r : result string A) : result loadError A :=
  match r with Ok a => Ok a | Err e => Err (YamlError e) end.

Definition of_invalid {A} (r : result profileError A) : result loadError A :=
  match r with Ok a => Ok a | Err e => Err (Invalid e) end.

Definition ParseProfile (data : string) : result loadError Profile :=
  if maxProfileBytes <? slen data then Err (TooLarge "profile")
  else profile ← of_yaml (yaml_profile data);
       of_invalid (validate profile) ;;
       Ok profile.

Definition ParseScenario (data : string) : result loadError Scenario :=
  if maxProfileBytes <? slen data then Err (TooLarge "scenario")
  else s ← of_yaml (yaml_scenario data);
       of_invalid (validate_scenario s).

(** [lib.add] of what a document parsed to. *)
Definition add_parsed (lib : Library) (id source : string) (r : result loadError Profile) : Library :=
  match r with
  | Ok profile => lib_add lib id source (Some profile) None
  | Err e => lib_add lib id source None (Some (error_text e))
  end.

Definition named (source name : string) : string := source +:+ "/" +:+ name.

(** A profile of the subscription: its untyped node goes through YAML text. *)
Definition parse_node (node : yaml_any) : result loadError Profile :=
  data ← of_yaml (yaml_marshal node); ParseProfile data.

Definition load_profiles (lib : Library) (sub : SubscriptionLayer) (user : UserLayer) : Library :=
  let lib := foldl (λ lib '(name, data), add_parsed lib (named BuiltinSource name) BuiltinSource (ParseProfile data))
               lib builtin_profiles in
  let lib := foldl (λ lib '(name, node), add_parsed lib (named SubscriptionSource name) SubscriptionSource (parse_node node))
               lib (range_map (su_Profiles sub)) in
  foldl (λ lib '(name, text), add_parsed lib (named UserSource name) UserSource (ParseProfile text))
    lib (range_map (ul_Profiles user)).

(** The second pass of [NewLibrary] over one entry: its translations and
    description through extends, and the hosts it needs leave for. *)
Definition finish_entry (lib : Library) (id : string) (entry : libraryEntry) : libraryEntry :=
  match le_profile entry with
  | None => entry
  | Some profile =>
      let info := {| (le_info entry) with pi_L10n := pr_L10n profile |} in
      let info := match lib_Resolve lib id with
                  | Ok resolved => {| info with pi_L10n := pr_L10n resolved; pi_Description := pr_Description resolved |}
                  | Err _ => info
                  end in
      let info := match consent lib id with
                  | Err e => match as_consent e with
                             | Some (_, hosts) => {| info with pi_Consent := hosts |}
                             | None => info
                             end
                  | Ok _ => info
                  end in
      {| entry with le_info := info |}
  end.

Definition addScenario (lib : FullLibrary) (id source data : string) : FullLibrary :=
  let info := new_info id "scenario" source in
  let entry :=
    match ParseScenario data with
    | Err e => {| se_info := {| info with pi_Error := error_text e |}; se_scenario := None |}
    | Ok s =>
        let info := {| info with pi_Title := or_string (sc_Title s) id;
                                 pi_Description := sc_Description s; pi_L10n := sc_L10n s |} in
        let info := match compileScenario (fl_profiles lib) id s with
                    | Err e => {| info with pi_Error := error_text (Invalid e) |}
                    | Ok _ => info
                    end in
        let info := match scenarioConsent (fl_profiles lib) id source s with
                    | Err e => match as_consent e with
                               | Some (_, hosts) => {| info with pi_Consent := hosts |}
                               | None => info
                               end
                    | Ok _ => info
                    end in
        {| se_info := info; se_scenario := Some s |}
    end in
  {| lib with fl_scenarios := <[id := entry]> (fl_scenarios lib) |}.

(** The canonical layout of a scenario that parses, any other text as is. *)
Definition canonical (data : string) : string :=
  match ParseScenario data with
  | Ok s => match yaml_format s with Ok text => text | Err _ => data end
  | Err _ => data
  end.

Definition loadScenarios (lib : FullLibrary) (sub : SubscriptionLayer) (user : UserLayer) : FullLibrary :=
  let lib := foldl (λ lib '(name, data), addScenario lib (named BuiltinSource name) BuiltinSource data)
               lib builtin_scenarios in
  let lib := foldl (λ lib '(name, node),
               match yaml_marshal node with
               | Err _ => lib
               | Ok data => addScenario lib (named SubscriptionSource name) SubscriptionSource (canonical data)
               end) lib (range_map (su_Scenarios sub)) in
  foldl (λ lib '(name, text), addScenario lib (named UserSource name) UserSource text)
    lib (range_map (ul_Scenarios user)).

(** The embedded profiles that parse, for [neutralHosts]. *)
Definition builtin_parsed : list Profile :=
  omap (λ p, match ParseProfile p.2 with Ok profile => Some profile | Err _ => None end) builtin_profiles.

Definition NewLibrary (sub : SubscriptionLayer) (user : UserLayer) : FullLibrary :=
  let lib := {| lb_entries := ∅; lb_trust := newTrust (ul_ProviderHosts user) (ul_Trusted user);
                lb_builtin := builtin_parsed |} in
  let lib := load_profiles lib sub user in
  let lib := {| lib with lb_entries := map_imap (λ id entry, Some (finish_entry lib id entry)) (lb_entries lib) |} in
  loadScenarios {| fl_profiles := lib; fl_scenarios := ∅ |} sub user.

(** ** The scenario that runs *)

Definition activeScenario (sub : SubscriptionLayer) (user : UserLayer) : string :=
  if ul_ScenarioOff user then EmptyString
  else or_string (CanonicalID (ul_Scenario user)) (CanonicalID (su_Scenario sub)).

(** Why a scenario cannot run: the entry's own error text, or an error of
    the compiler. *)
Inductive scenarioError := ScenarioMissing (id : string) | ScenarioBroken (text : string) | ScenarioInvalid (err : profileError).

Definition CompileScenario (lib : FullLibrary) (id : string) : scenarioError + compiledScenario :=
  match fl_scenarios lib !! CanonicalID id with
  | None => inl (ScenarioMissing id)
  | Some entry =>
      match se_scenario entry with
      | None => inl (ScenarioBroken (pi_Error (se_info entry)))
      | Some s =>
          match scenarioConsent (fl_profiles lib) (pi_ID (se_info entry)) (pi_Source (se_info entry)) s with
          | Err e => inl (ScenarioInvalid e)
          | Ok _ => match compileScenario (fl_profiles lib) (pi_ID (se_info entry)) s with
                    | Err e => inl (ScenarioInvalid e)
                    | Ok c => inr c
                    end
          end
      end
  end.

(** Every group the scenario names on any network kind. *)
Definition allTargets (s : compiledScenario) (groups : list string) (main : string) : list string :=
  sorted_strings (elements (list_to_set (C := gset string)
    ((EmptyString :: (map_to_list (cs_on s)).*1) ≫= λ kind, (map_to_list (sc_targets s kind groups main [])).*1))).

(** ** Chips *)

(** The loop of [usableChips]; [out] is kept in order. *)
Fixpoint chips_from (tags : gset string) (seen : gset string) (out : list Chip) (chips : list Chip) : list Chip :=
  match chips with
  | [] => out
  | chip :: chips =>
      if empty (ch_Label chip) || bool_decide (ch_Include chip ∈ seen) || (length out =? maxChips)%nat
      then chips_from tags seen out chips
      else match ParseCond (ch_Include chip) (Some tags) with
           | Ok (Some _) => chips_from tags ({[ch_Include chip]} ∪ seen) (out ++ [chip]) chips
           | _ => chips_from tags seen out chips
           end
  end.

Definition usableChips (chips : list Chip) (policy : option Policy) : list Chip :=
  let tags := match policy with
              | Some p => list_to_set (nc_Name <$> pl_Tags p)
              | None => ∅
              end in
  chips_from tags ∅ [] chips.
End layers.
