(* ===== verification/Machine.v ===== *)
(** * The machine's state: core/rcx/machine.go

    The data of the engine's machine, how it reads evidence, and the parts of
    it that only look: modes, groups by key, the network a group is on. A
    handler takes the machine and returns it; what it asks of the core is
    appended to [mc_calls]. *)

From S2P Require Import Prelude GoText Cond Evidence Journal Identity Country Profile Policy Library.
From S2P Require Import Decide Budget Route Scenario Layers.

(** ** The core, as the engine sees it *)

(** The calls of the [Runtime] interface. *)
Inductive Call :=
  | CallSelect (group : string) (via : list string) (node : string)
  | CallClose (group node : string)
  | CallSuppress (providers : list string)
  | CallMode (mode : string).

(** Whether [Select] fails, after the calls made so far. *)
Class Runtime := { select_error : list Call → string → list string → string → option string }.

(** crypto/rand: the bytes of a fresh salt. *)
Class Random := { random_salt : string }.

(** ** Data *)

Record GroupTopology := { gt_Name : string; gt_Now : string; gt_Members : list Node }.

Record AppliedRoutes := {
  ar_Applied : bool;
  ar_Key : string;
  ar_Groups : list string;
  ar_Problems : gmap string Reason;
}.

(** [Topology] without [User], which the engine takes out first. *)
Record Topology `{Yaml} := {
  tp_Groups : list GroupTopology;
  tp_Subscription : SubscriptionLayer;
  tp_Main : string;
  tp_Providers : gmap string (list string);
  tp_Leaves : list string;
  tp_Routes : AppliedRoutes;
}.

Record controlRecord := {
  cr_Control : Control;
  cr_Excluded : gmap string time;
  cr_Switches : list time;
  cr_LastSwitch : time;
}.

(** [&controlRecord{Control: Control{Mode: AutoMode}}]. *)
Definition auto_control : Control :=
  {| ct_Mode := AutoMode; ct_Pin := ""; ct_PinName := ""; ct_PinEnv := "" |}.
Definition new_control : controlRecord :=
  {| cr_Control := auto_control; cr_Excluded := ∅; cr_Switches := []; cr_LastSwitch := zero_time |}.

Record kindState := { kd_kind : string; kd_next : string; kd_votes : Z; kd_netSeq : Z }.

(** [kindState{}]. *)
Definition no_kind : kindState := {| kd_kind := ""; kd_next := ""; kd_votes := 0; kd_netSeq := 0 |}.

Record confirmation := {
  cf_key : string;
  cf_standby : string;
  cf_pending : Z;
  cf_failed : bool;
  cf_standbyDown : bool;
}.

Record groupState := {
  gs_name : string;
  gs_source : string;
  gs_offered : list string;
  gs_binding : Binding;
  gs_profileID : string;
  gs_policy : option LayeredPolicy;
  gs_problem : option Reason;
  gs_members : list Member;
  gs_byName : gmap string nat;
  gs_now : string;
  gs_decision : Decision;
  gs_force : bool;
  gs_suspect : bool;
  gs_confirm : option confirmation;
  gs_recoverPass : Z;
  gs_recoverAt : time;
  gs_recoverArmed : bool;
  gs_maintainAt : time;
  gs_kind : kindState;
  gs_program : string;
}.

(** [Decision{}]. Its action is the empty string, none of the four: the code
    compares it only with [StrandedAction] and in [sameDecision], which the
    empty reason code already fails. *)
Definition no_decision : Decision :=
  {| dc_Action := HoldAction; dc_Target := ""; dc_Reason := reason "" []; dc_Tier := "";
     dc_Until := None; dc_Ranking := []; dc_Needs := [] |}.

(** [&groupState{name: name}]. *)
Definition new_group (name : string) : groupState :=
  {| gs_name := name; gs_source := ""; gs_offered := []; gs_binding := no_binding; gs_profileID := "";
     gs_policy := None; gs_problem := None; gs_members := []; gs_byName := ∅; gs_now := "";
     gs_decision := no_decision; gs_force := false; gs_suspect := false; gs_confirm := None;
     gs_recoverPass := 0; gs_recoverAt := zero_time; gs_recoverArmed := false;
     gs_maintainAt := zero_time; gs_kind := no_kind; gs_program := "" |}.

Record scenarioState := {
  ss_kind : kindState;
  ss_id : string;
  ss_c : option compiledScenario;
  ss_problem : option Reason;
  ss_groups : gmap string string;
  ss_appliedKind : string;
}.

Definition no_scenario : scenarioState :=
  {| ss_kind := no_kind; ss_id := ""; ss_c := None; ss_problem := None; ss_groups := ∅;
     ss_appliedKind := "" |}.

Record machine `{Yaml} := {
  mc_libraryGen : Z;
  mc_salt : string;
  mc_ids : list Identity;
  mc_evidence : Evidence;
  mc_controls : gmap string controlRecord;
  mc_journal : journal;
  mc_budget : budget;
  mc_topology : Topology;
  mc_user : UserLayer;
  mc_library : FullLibrary;
  mc_scn : scenarioState;
  mc_userMode : string;
  mc_modeWish : string;
  mc_groups : gmap string groupState;
  mc_order : list string;
  mc_keyNames : gmap string (list string);
  mc_nameCountries : gmap string string;
  mc_running : bool;
  mc_power : Power;
  mc_envKey : string;
  mc_envLabel : string;
  mc_windowUntil : time;
  mc_wakeAt : time;
  mc_transport : string;
  mc_portal : bool;
  mc_netSeq : Z;
  mc_diagNext : time;
  mc_diagStep : Z;
  mc_diagBusy : bool;
  mc_diagForced : bool;
  mc_split : string;
  mc_inflight : gmap string probeJob;
  mc_lastProbe : gmap string time;
  mc_linkOKAt : time;
  mc_dirty : bool;
  mc_statusDirty : bool;
  mc_calls : list Call;
}.

(** [earliest] and [latest]: of engine.go and machine.go. *)
Definition earliest (a b : time) : time :=
  if is_zero a || (negb (is_zero b) && before b a) then b else a.
Definition latest (a b : time) : time := if after a b then a else b.

(** Indexing a backoff table: [table[min(i, len(table)-1)]]; [i] counts up
    from zero. *)
Definition backoff (table : list duration) (i : Z) : duration :=
  table !!! Z.to_nat (Z.min i (Z.of_nat (length table) - 1)).

Definition trimTimes (times : list time) (cutoff : time) : list time := filter (λ t, after t cutoff) times.

Definition switchesSince (c : controlRecord) (cutoff : time) : Z :=
  Z.of_nat (length (filter (λ t, after t cutoff) (cr_Switches c))).

(** The policy in force: [g.policy.forKind(g.kind)]. *)
Definition active (g : groupState) (lp : LayeredPolicy) : Policy := forKind lp (kd_kind (gs_kind g)).

Definition via (g : groupState) (node : string) : list string :=
  match gs_byName g !! node with
  | Some i => match gs_members g !! i with Some m => nd_Via (mb_Node m) | None => [] end
  | None => []
  end.

Definition sameDecision (a b : Decision) : bool :=
  bool_decide (dc_Action a = dc_Action b) && eqs (dc_Target a) (dc_Target b) &&
  eqs (rs_Code (dc_Reason a)) (rs_Code (dc_Reason b)) && eqs (dc_Tier a) (dc_Tier b) &&
  match dc_Until a, dc_Until b with
  | None, None => true
  | Some u, Some v => eqs (rs_Code u) (rs_Code v)
  | _, _ => false
  end.


(** ** Classifying the network *)

(** [&Subject{Net: n}]. *)
Definition net_only (n : NetSubject) : Subject :=
  {| sj_Name := ""; sj_Provider := ""; sj_Type := ""; sj_Server := ""; sj_UDP := false; sj_Alive := false;
     sj_Dead := false; sj_Measured := false; sj_Current := false; sj_Latency := 0; sj_Tags := ∅;
     sj_Exit := ""; sj_Entry := ""; sj_Country := ""; sj_Checks := ∅; sj_Net := Some n |}.

(** The vote of one decided classification: whether the confirmed kind
    changes, and the state after. A kind comes to a network that had none at
    once; to replace or to leave one takes [kindRounds] votes in a row. *)
Definition vote (ks : kindState) (kind : string) : bool * kindState :=
  let ks := if eqs kind (kd_next ks) then {| ks with kd_votes := kd_votes ks +i 1 |}
            else {| ks with kd_next := kind; kd_votes := 1 |} in
  if (negb (empty (kd_kind ks)) || empty kind) && (kd_votes ks <? kindRounds) then (false, ks)
  else (true, {| ks with kd_kind := kind; kd_next := EmptyString; kd_votes := 0 |}).

Section machine.
Context `{Unicode} `{Regexp} `{RangeOrder} `{Yaml}.

(** First match over the kinds of a policy; [None] is undecided. *)
Fixpoint classify_rules (kinds : list KindRule) (s : Subject) : option string :=
  match kinds with
  | [] => Some EmptyString
  | rule :: kinds =>
      match Test (kr_When rule) s with
      | triYes => Some (kr_Kind rule)
      | triUnknown => None
      | _ => classify_rules kinds s
      end
  end.

Definition policy_classify (p : Policy) (n : NetSubject) : option string :=
  classify_rules (pl_Kinds p) (net_only n).

(** ** Evidence *)

Definition env_at (m : machine) (now : time) : Environment * machine :=
  let '(env, e) := evidence_env (mc_evidence m) (mc_envKey m) now in
  (env, {| m with mc_evidence := e |}).

(** Write the current environment back through its pointer. *)
Definition put_env_at (m : machine) (env : Environment) : machine :=
  {| m with mc_evidence := put_env (mc_evidence m) (mc_envKey m) env |}.

(** [m.facts(key, now)]: the facts, created when missing. *)
Definition facts_at (m : machine) (key : string) (now : time) : Facts * machine :=
  let '(env, m) := env_at m now in
  let '(f, env) := env_facts env key in
  (f, put_env_at m env).

(** Write facts back through the pointer [facts_at] returned. *)
Definition put_facts (m : machine) (key : string) (f : Facts) : machine :=
  {| m with mc_evidence := {| (mc_evidence m) with ed_Envs :=
       alter (λ env, {| env with env_Nodes := <[key := f]> (env_Nodes env) |}) (mc_envKey m)
         (ed_Envs (mc_evidence m)) |} |}.

Definition mark_status (m : machine) : machine := {| m with mc_statusDirty := true |}.
Definition mark_dirty (m : machine) : machine := {| m with mc_dirty := true; mc_statusDirty := true |}.

Definition note (m : machine) (now : time) (group kind from to : string) (why : Reason) : machine :=
  {| m with mc_journal := journal_add (mc_journal m)
       {| je_Seq := 0; je_At := now; je_Group := group; je_Kind := kind; je_From := from; je_To := to;
          je_Reason := why |} |}.

Definition put_group (m : machine) (name : string) (g : groupState) : machine :=
  {| m with mc_groups := <[name := g]> (mc_groups m) |}.

Definition put_control (m : machine) (name : string) (c : controlRecord) : machine :=
  {| m with mc_controls := <[name := c]> (mc_controls m) |}.

Definition call (m : machine) (c : Call) : machine := {| m with mc_calls := mc_calls m ++ [c] |}.

(** [m.groups[name]] and [m.controls[name]] where the machine's invariant
    keeps them present. *)
Definition group_of (m : machine) (name : string) : groupState := default (new_group name) (mc_groups m !! name).
Definition control_of (m : machine) (name : string) : controlRecord := default new_control (mc_controls m !! name).

Definition is_manual (m : machine) (name : string) : bool := is_mode (ct_Mode (cr_Control (control_of m name))) ManualMode.

(** ** Modes *)

Definition max_level (best : energyLevel) (g : groupState) : energyLevel :=
  match gs_policy g with
  | None => best
  | Some lp =>
      match energyLevels !! pl_Energy (lp_Base lp) with
      | Some level => if el_rank best <? el_rank level then level else best
      | None => best
      end
  end.

Definition level (m : machine) : energyLevel :=
  let best := foldl max_level eco_level (range_map (mc_groups m)).*2 in
  if power_eco (mc_power m) then eco_level else best.

Definition mode (m : machine) (now : time) : Mode :=
  if negb (mc_running m) then StoppedMode
  else if pw_Doze (mc_power m) then SleepMode
  else if negb (pw_Screen (mc_power m)) then BackgroundMode
  else if power_eco (mc_power m) then EcoMode
  else if before now (mc_windowUntil m) then ActiveMode
  else IdleMode.

Definition openWindow (m : machine) (now : time) (length : duration) : machine :=
  let until := time_add now length in
  if after until (mc_windowUntil m) then {| m with mc_windowUntil := until |} else m.

Definition tunnelMode (m : machine) : string := or_string (mc_modeWish m) (or_string (mc_userMode m) "rule").

Definition idle (m : machine) (name : string) : bool :=
  if eqs (tunnelMode m) "global" then negb (eqs name GlobalTarget)
  else if eqs (tunnelMode m) "direct" then true
  else eqs name GlobalTarget.

Definition paused (g : groupState) : bool :=
  match gs_policy g with Some lp => pauses (lp_Base lp) (kd_kind (gs_kind g)) | None => false end.

Definition linkProven (m : machine) (now : time) : bool :=
  negb (is_zero (mc_linkOKAt m)) && (time_sub now (mc_linkOKAt m) <=? linkWindow).

(** ** Groups by key *)

Definition has_key (g : groupState) (key : string) : bool := existsb (λ m, eqs (mb_Key m) key) (gs_members g).

(** The names of the groups a key is in, in order. *)
Definition groupOf (m : machine) (key : string) : list string :=
  filter (λ name, has_key (group_of m name) key) (mc_order m).

(** The key of the member [byName] gives for a name. *)
Definition group_key (g : groupState) (node : string) : option string :=
  i ← gs_byName g !! node; mb_Key <$> gs_members g !! i.

Definition keyOf (m : machine) (group node : string) : option string :=
  g ← mc_groups m !! group; group_key g node.

Definition keyFor (m : machine) (group node : string) : string := default EmptyString (keyOf m group node).

(** [g.byName[g.now]] is a member with the key. *)
Definition current_has (g : groupState) (key : string) : bool :=
  bool_decide (group_key g (gs_now g) = Some key).

Definition currentOf (m : machine) (key : string) : bool :=
  existsb (λ name, current_has (group_of m name) key) (groupOf m key).

Definition keysOf (m : machine) (node : string) : list string :=
  foldl (λ keys name, match keyOf m name node with
                      | Some key => if mem_string key keys then keys else keys ++ [key]
                      | None => keys
                      end) [] (mc_order m).

(** ** The network a group is on *)

Definition netSubject (m : machine) (kind : string) (policy : Policy) (now : time) : NetSubject * machine :=
  let n := {| ns_Kind := kind; ns_Transport := mc_transport m; ns_Portal := mc_portal m;
              ns_Metered := pw_Metered (mc_power m); ns_Diag := ∅ |} in
  if (size (pl_Diagnostics policy) =? 0)%nat then (n, m)
  else let '(env, m) := env_at m now in
       ({| n with ns_Diag := (λ targets, diagnosis env (target_string <$> targets)) <$> pl_Diagnostics policy |}, m).

(** [m.recall(ks, memory, now)]: a state that starts on what the network is
    remembered as. *)
Definition recall (m : machine) (memory : string) (now : time) : kindState * machine :=
  let ks := {| no_kind with kd_netSeq := -1 |} in
  if empty memory then (ks, m)
  else let '(env, m) := env_at m now in
       ({| ks with kd_kind := default EmptyString (env_Kinds env !! memory) |}, m).

Definition recallKind (m : machine) (g : groupState) (now : time) : groupState * machine :=
  let '(ks, m) := recall m (match gs_policy g with Some lp => pl_ID (lp_Base lp) | None => EmptyString end) now in
  ({| g with gs_kind := ks |}, m).

(** [env.Kinds[memory] = kind], or its removal. *)
Definition remember_kind (m : machine) (memory kind : string) (now : time) : machine :=
  let '(env, m) := env_at m now in
  let kinds := <[memory := kind]> (env_Kinds env) in
  put_env_at m {| env with env_Kinds := if empty kind then delete memory kinds else kinds |}.

(** Whether the confirmed kind changed, and the state after. *)
Definition classifyKind (m : machine) (ks : kindState) (policy : Policy) (memory group : string) (now : time)
    : bool * kindState * machine :=
  if bool_decide (pl_Kinds policy = []) || (kd_netSeq ks =? mc_netSeq m) then (false, ks, m)
  else
    let ks := {| ks with kd_netSeq := mc_netSeq m |} in
    let '(n, m) := netSubject m (kd_kind ks) policy now in
    match policy_classify policy n with
    | None => (false, {| ks with kd_next := EmptyString; kd_votes := 0 |}, m)
    | Some kind =>
        if eqs kind (kd_kind ks) then (false, {| ks with kd_next := EmptyString; kd_votes := 0 |}, m)
        else
          let from := kd_kind ks in
          let '(changed, ks) := vote ks kind in
          if changed then
            let m := remember_kind m memory kind now in
            let m := note m now group "network" from kind (reason "network.kind" [AS "kind" kind]) in
            (true, ks, mark_dirty m)
          else
            (false, ks, {| m with mc_diagNext := earliest (mc_diagNext m) (time_add now diagConfirmGap);
                                  mc_diagForced := true |})
    end.

Definition classify (m : machine) (g : groupState) (now : time) : groupState * machine :=
  match gs_policy g with
  | None => (g, m)
  | Some lp =>
      let '(changed, ks, m) := classifyKind m (gs_kind g) (lp_Base lp) (pl_ID (lp_Base lp)) (gs_name g) now in
      let g := {| g with gs_kind := ks |} in
      (if (changed : bool) then {| g with gs_maintainAt := now |} else g, m)
  end.

(** ** Deciding for a group *)

(** The control in force: a pin for another network counts as auto. *)
Definition control_here (m : machine) (c : Control) : Control :=
  if is_mode (ct_Mode c) PinnedMode && negb (empty (ct_PinEnv c)) && negb (eqs (ct_PinEnv c) (mc_envKey m))
  then {| c with ct_Mode := AutoMode |} else c.

Definition decideWith (m : machine) (g : groupState) (base policy : Policy) (now : time) : Decision * machine :=
  let ctl := control_of m (gs_name g) in
  let '(env, m) := env_at m now in
  let '(net, m) := netSubject m (kd_kind (gs_kind g)) base now in
  (Decide {| di_Policy := policy;
             di_Members := (λ mb, {| mb with mb_Facts := env_Nodes env !! mb_Key mb;
                                             mb_Exit := ed_Exits (mc_evidence m) !! mb_Key mb |}) <$> gs_members g;
             di_Now := gs_now g;
             di_Control := control_here m (cr_Control ctl);
             di_Env := mc_envKey m;
             di_Excluded := cr_Excluded ctl;
             di_LastSwitch := cr_LastSwitch ctl;
             di_SwitchesHour := switchesSince ctl (time_add now (- Hour));
             di_Freshness := Freshness env now;
             di_At := now;
             di_ForceSwitch := gs_force g;
             di_Net := Some net;
             di_Paused := paused g |}, m).

Definition decideGroup (m : machine) (g : groupState) (lp : LayeredPolicy) (now : time) : Decision * machine :=
  decideWith m g (lp_Base lp) (active g lp) now.

(** ** Providers *)

(** The providers that serve a group the engine looks after. *)
Definition group_providers (m : machine) (g : groupState) : list string :=
  if is_none (gs_policy g) || is_manual m (gs_name g) || idle m (gs_name g) then []
  else gs_members g ≫= λ mb, default [] (tp_Providers (mc_topology m) !! mb_Name mb).

Definition suppressed (m : machine) : gset string :=
  list_to_set ((range_map (mc_groups m)).*2 ≫= group_providers m).

Definition suppressProviders (m : machine) : machine :=
  call m (CallSuppress (sorted_strings (elements (suppressed m)))).
End machine.
