(* ===== verification/Flatten.v ===== *)
(** * The topology the host reports: core/rcx_runtime.go and core/proxy.go

    The engine sees each select group of the core as a list of nodes. A
    selector nested in a smart group that nothing else uses is flattened: its
    members become members of the group, with the selectors on the way to
    them, and the engine picks through them. *)

From S2P Require Import Prelude GoText Identity Route Machine ProviderPolicy.

Definition maxFlattenDepth : nat := 4.
Definition globalProxyName : string := GlobalTarget.

(** The rest of what the code asks of mihomo's proxies: a [Selector] adapter,
    [GetProxies(false)] of any group, and what a node is reported with. The
    groups do not change while they are read. *)
Class Selectors `{Mihomo} := {
  Selector : Type;
  px_selector : Proxy → option Selector;
  sl_Name : Selector → string;
  sl_Now : Selector → string;
  sl_Proxies : Selector → list Proxy;
  sl_Providers : Selector → list (string * list Proxy);
  px_all_members : Proxy → option (list Proxy);
  px_TypeName : Proxy → string;
  px_UDP : Proxy → bool;
  px_Addr : Proxy → string;
  px_ProviderName : Proxy → string;
  px_EndpointFingerprint : Proxy → string;
}.

(** A rule, by whether it is a MATCH and where it routes. *)
Record Rule := { ru_match : bool; ru_Adapter : string }.

Definition appendUnique (l : list string) (value : string) : list string :=
  if mem_string value l then l else l ++ [value].

Section flatten.
Context `{Selectors}.

Definition isProxyGroupType (ty : Z) : bool :=
  existsb (Z.eqb ty) [ty_Selector; ty_URLTest; ty_Fallback; ty_Relay; ty_LoadBalance].

Definition proxyGroupNames (nameList : list string) (typeOf : string → option Z) : list string :=
  let isGroup name := match typeOf name with Some ty => isProxyGroupType ty | None => false end in
  let names := filter (λ name, isGroup name = true) nameList in
  if negb (mem_string globalProxyName nameList) && isGroup globalProxyName then globalProxyName :: names else names.

Definition rcxLeaves (proxies : gmap string Proxy) : list string :=
  sorted_strings (map_to_list (filter (λ np, isProxyGroupType (px_Type np.2) ||
    existsb (Z.eqb (px_Type np.2)) [ty_Direct; ty_Reject; ty_RejectDrop; ty_Pass; ty_Compatible; ty_Dns] = false) proxies)).*1.

Definition selector_of (proxies : gmap string Proxy) (name : string) : option Selector := p ← proxies !! name; px_selector p.

(** The select group the final MATCH rule routes to. *)
Definition rcxMainGroup (proxies : gmap string Proxy) (rules : list Rule) : string :=
  match last rules with
  | Some rule =>
      if ru_match rule then
        match selector_of proxies (ru_Adapter rule) with Some _ => ru_Adapter rule | None => EmptyString end
      else EmptyString
  | None => EmptyString
  end.

Definition rcxSelectors (proxies : gmap string Proxy) (names : list string) : list string :=
  filter (λ name, is_Some (selector_of proxies name)) names.

(** How often each name is used by a group or a rule. *)
Definition count (refs : gmap string Z) (name : string) : gmap string Z := <[name := default 0 (refs !! name) + 1]> refs.

Definition rcxReferences (proxies : gmap string Proxy) (groups : list string) (rules : list Rule) : gmap string Z :=
  let uses := groups ≫= λ name,
    if eqs name globalProxyName then []
    else match proxies !! name with
         | Some p => px_Name <$> default [] (px_all_members p)
         | None => []
         end in
  foldl count ∅ (uses ++ (ru_Adapter <$> rules)).

(** Only a nested selector the smart group alone uses is flattened. *)
Definition rcxFlattens (name : string) (refs : gmap string Z) (smart : gset string) (flat : gmap string string) : bool :=
  (default 0 (refs !! name) =? 1) && negb (bool_decide (name ∈ smart)) && negb (bool_decide (is_Some (flat !! name))).

(** What is selected in the end: [steps] turns of the loop. *)
Fixpoint leaf_go (steps : nat) (proxies : gmap string Proxy) (flat : gmap string string) (name : string) : string :=
  match steps with
  | O => name
  | S steps =>
      match flat !! name with
      | None => name
      | Some _ => match selector_of proxies name with
                  | Some selector => leaf_go steps proxies flat (sl_Now selector)
                  | None => name
                  end
      end
  end.

Definition rcxLeaf (proxies : gmap string Proxy) (flat : gmap string string) (name : string) : string :=
  leaf_go (maxFlattenDepth + 1) proxies flat name.

(** A pick of a flattened selector, or inside one, picks its leaf in the
    owner. *)
Definition rcxPickOf (proxies : gmap string Proxy) (flat : gmap string string) (group name : string) : string * string :=
  (default group (flat !! group), rcxLeaf proxies flat name).

Definition rcxNode (proxy : Proxy) : Node :=
  let outbound (s : string) := if px_outbound proxy then s else EmptyString in
  let '(host, _, found) := Cut (px_Addr proxy) ":" in
  {| nd_Name := px_Name proxy; nd_Provider := outbound (px_ProviderName proxy); nd_Type := px_TypeName proxy;
     nd_UDP := px_UDP proxy; nd_Server := if found then host else px_Addr proxy;
     nd_Strong := outbound (px_RouteFingerprint proxy); nd_Endpoint := outbound (px_EndpointFingerprint proxy);
     nd_Entry := EmptyString; nd_NameCountry := EmptyString; nd_Via := [] |}.

(** ** Walking a group *)

(** [fl_seen] tells where the node of a name is in [fl_members]. *)
Record walk_state := {
  fl_flat : gmap string string;
  fl_seen : gmap string nat;
  fl_members : list Node;
  fl_providers : gmap string (list string);
}.

Definition set_flat (st : walk_state) (name group : string) : walk_state :=
  {| st with fl_flat := <[name := group]> (fl_flat st) |}.

(** A server reached twice keeps the shortest path. *)
Definition add_node (st : walk_state) (node : Node) : walk_state :=
  match fl_seen st !! nd_Name node with
  | Some i =>
      match fl_members st !! i with
      | Some old => if (length (nd_Via node) <? length (nd_Via old))%nat then {| st with fl_members := <[i := node]> (fl_members st) |} else st
      | None => st
      end
  | None => {| st with fl_seen := <[nd_Name node := length (fl_members st)]> (fl_seen st);
                       fl_members := fl_members st ++ [node] |}
  end.

Definition add_provider (sl : Selector) (providers : gmap string (list string)) (pd : string * list Proxy) : gmap string (list string) :=
  foldl (λ ps member, if eqs pd.1 (sl_Name sl) then ps
                      else <[px_Name member := appendUnique (default [] (ps !! px_Name member)) pd.1]> ps) providers pd.2.

Definition add_providers (sl : Selector) (st : walk_state) : walk_state :=
  {| st with fl_providers := foldl (add_provider sl) (fl_providers st) (sl_Providers sl) |}.

Section group.
Context (candidate : Proxy → bool) (smart : gset string) (refs : gmap string Z) (name : string).

(** The selector a member is flattened into, if it is. *)
Definition flattens (via : list string) (st : walk_state) (member : Proxy) : option Selector :=
  match px_selector member with
  | Some inner =>
      if bool_decide (name ∈ smart) && negb (eqs name globalProxyName) && (length via <? maxFlattenDepth)%nat &&
         rcxFlattens (px_Name member) refs smart (fl_flat st) then Some inner else None
  | None => None
  end.

(** The function [walk]; [fuel] is one more than the levels left, so it never
    ends before the depth does. *)
Fixpoint walk (fuel : nat) (sl : Selector) (via : list string) (st : walk_state) : walk_state :=
  match fuel with
  | O => st
  | S fuel =>
      add_providers sl
        (foldl (λ st member,
           if eqs name globalProxyName && negb (candidate member) then st
           else match flattens via st member with
                | Some inner => walk fuel inner (via ++ [px_Name member]) (set_flat st (px_Name member) name)
                | None => add_node st {| (rcxNode member) with nd_Via := via |}
                end) st (sl_Proxies sl))
  end.
End group.

Definition walk_fuel : nat := S maxFlattenDepth.

(** ** All the groups *)

Section topology.
Context (policy : option providerPolicy) (proxies : gmap string Proxy) (smart : gset string) (refs : gmap string Z).

Definition global_candidate (p : Proxy) : bool := providerPolicyCandidate (λ name, proxies !! name) policy p.

Record topology_state := {
  ts_groups : list GroupTopology;
  ts_flat : gmap string string;
  ts_providers : gmap string (list string);
}.

Definition add_group (st : topology_state) (name : string) : topology_state :=
  match selector_of proxies name with
  | None => st
  | Some sl =>
      if eqs name globalProxyName && negb (bool_decide (name ∈ smart)) then st
      else
        let w := walk global_candidate smart refs name walk_fuel sl []
                   {| fl_flat := ts_flat st; fl_seen := ∅; fl_members := []; fl_providers := ts_providers st |} in
        {| ts_groups := ts_groups st ++
             [{| gt_Name := name; gt_Now := rcxLeaf proxies (fl_flat w) (sl_Now sl); gt_Members := fl_members w |}];
           ts_flat := fl_flat w; ts_providers := fl_providers w |}
  end.

Definition rcxTopologyOf (names : list string) : topology_state :=
  foldl add_group {| ts_groups := []; ts_flat := ∅; ts_providers := ∅ |} names.
End topology.
End flatten.
