(* ===== verification/Host.v ===== *)
(** * Carrying out what the engine asks: core/rcx_runtime.go

    Selecting a node through the selectors on the way to it; the tunnel mode
    a scenario holds over the user's; the user layer on its way to the
    engine; the destinations that stay local; what the applied config brings
    for the engine. Where two goroutines of the host meet, each atomic
    operation or locked section is a step of its own. *)

From S2P Require Import Prelude GoText Cond Profile Layers Machine Goroutines.

(** ** Selecting through nested selectors *)

(** The groups of the core: how [selectableGroup] finds one, [Set] of
    mihomo's groups, which may refuse, and [Now]. *)
Inductive foundGroup := NoSuchGroup | NotAdapter | NotPickable | PickableGroup.
Inductive selectError := errGroupNotFound | errGroupInvalidType | errGroupNotSelect | SetError (text : string).

Class Groups := {
  core : Type;
  core_group : core → string → foundGroup;
  core_now : core → string → string;
  core_set : core → string → string → result string core;
}.

(** [Set] selects the node in the group it is called on, and there alone. *)
Class GroupsLaws `{Groups} : Prop := {
  core_set_now : ∀ c group node c', core_set c group node = Ok c' →
    ∀ name, core_now c' name = if eqs name group then node else core_now c name;
}.

Section select.
Context `{Groups}.

Definition selectableGroup (c : core) (group : string) : option selectError :=
  match core_group c group with
  | NoSuchGroup => Some errGroupNotFound
  | NotAdapter => Some errGroupInvalidType
  | NotPickable => Some errGroupNotSelect
  | PickableGroup => None
  end.

(** One turn of the loop: [group] takes [node]. *)
Definition select_one (c : core) (group node : string) : result selectError core :=
  match selectableGroup c group with
  | Some err => Err err
  | None => match core_set c group node with Ok c' => Ok c' | Err text => Err (SetError text) end
  end.

(** The loop from index [i - 1] of the chain down to its start. *)
Fixpoint select_down (i : nat) (chain : list string) (c : core) : core * option selectError :=
  match i with
  | O => (c, None)
  | S i =>
      match select_one c (nth i chain EmptyString) (nth (S i) chain EmptyString) with
      | Err err => (c, Some err)
      | Ok c => select_down i chain c
      end
  end.

Definition Select (c : core) (group : string) (via : list string) (node : string) : core * option selectError :=
  let chain := group :: via ++ [node] in
  select_down (length chain - 1) chain c.

(** ** What a selection leaves behind *)

Section groups.
Context {laws : GroupsLaws} (groups : list string) (node : string) (Hgroups : NoDup groups).

#[local] Notation chain := (groups ++ [node]).

Lemma nth_groups_inj i j : (i < length groups)%nat → (j < length groups)%nat →
  nth i chain EmptyString = nth j chain EmptyString → i = j.
Proof using Hgroups.
  intros Hi Hj. rewrite !nth_lookup, !lookup_app_l by done.
  destruct (lookup_lt_is_Some_2 _ _ Hi) as [x Hx], (lookup_lt_is_Some_2 _ _ Hj) as [y Hy].
  rewrite Hx, Hy. cbn. intros ->. by eapply NoDup_lookup.
Qed.

Lemma select_one_now c group c' member : select_one c group member = Ok c' →
  ∀ name, core_now c' name = if eqs name group then member else core_now c name.
Proof using laws.
  unfold select_one. destruct (selectableGroup c group); [done|]. destruct (core_set c group member) eqn:E; [|done].
  intros [= <-]. by apply core_set_now.
Qed.

(** The loop stops at some [k]: from there inward the chain is selected, and
    everything else is as before. *)
Lemma select_down_spec i : ∀ c, (i <= length groups)%nat →
  let '(c', err) := select_down i chain c in
  ∃ k, (k <= i)%nat ∧ (err = None ↔ k = 0%nat) ∧
  (∀ j, (k <= j < i)%nat → core_now c' (nth j chain EmptyString) = nth (S j) chain EmptyString) ∧
  ∀ name, (∀ j, (k <= j < i)%nat → nth j chain EmptyString ≠ name) → core_now c' name = core_now c name.
Proof using laws Hgroups.
  induction i as [|i IH]; intros c Hi; cbn [select_down].
  { exists 0%nat. split_and!; [lia | done | lia | done]. }
  destruct (select_one c (nth i chain EmptyString) (nth (S i) chain EmptyString)) as [c1|err] eqn:E.
  - specialize (IH c1 ltac:(lia)). destruct (select_down i chain c1) as [c' err]. destruct IH as (k & Hk & Herr & Hset & Hrest).
    pose proof (select_one_now _ _ _ _ E) as Hone. exists k. split_and!; [lia | done | |].
    + intros j Hj. destruct (decide (j = i)) as [->|Hne]; [|apply Hset; lia].
      rewrite Hrest, Hone, eqs_refl; [done|]. intros j' Hj' Heq. apply nth_groups_inj in Heq; lia.
    + intros name Hname. rewrite Hrest, Hone by (intros; apply Hname; lia).
      rewrite (proj2 (eqs_false _ _)); [done|]. intros Heq. apply (Hname i); [lia | done].
  - exists (S i). split_and!; [lia | split; [done | lia] | lia | done].
Qed.

Lemma iter_along (now : string → string) k i : (k <= i <= length groups)%nat →
  (∀ j, (k <= j < length groups)%nat → now (nth j chain EmptyString) = nth (S j) chain EmptyString) →
  Nat.iter (length groups - i) now (nth i chain EmptyString) = node.
Proof using Type.
  intros Hi Hnow. remember (length groups - i)%nat as n eqn:En. revert i Hi En. induction n as [|n IH]; intros i Hi En.
  - replace i with (length groups) by lia. by rewrite nth_middle.
  - rewrite Nat.iter_succ_r, Hnow by lia. apply IH; lia.
Qed.
End groups.
End select.

(** Selecting through nested selectors. When it succeeds, following what
    is selected from the group ends at the node. When it fails somewhere on
    the way, the selectors from there inward already lead to the node and all
    outside them, the group first, still select what they did: the group
    never routes through a selector changed halfway. No other group moves. *)
Theorem select_route `{Hg : Groups} `{!GroupsLaws} c group via node :
  NoDup (group :: via) →
  let chain := group :: via ++ [node] in
  let '(c', err) := Select c group via node in
  (err = None → Nat.iter (S (length via)) (core_now c') group = node) ∧
  (err ≠ None → core_now c' group = core_now c group) ∧
  (∀ name, name ∉ group :: via → core_now c' name = core_now c name) ∧
  ∃ k, (k <= S (length via))%nat ∧ (err = None ↔ k = 0%nat) ∧
    (∀ i, (i < k)%nat → core_now c' (nth i chain EmptyString) = core_now c (nth i chain EmptyString)) ∧
    (∀ i, (k <= i <= S (length via))%nat → Nat.iter (S (length via) - i) (core_now c') (nth i chain EmptyString) = node).
Proof.
  intros Hnd chain. unfold Select. change (group :: via ++ [node]) with ((group :: via) ++ [node]).
  replace (length ((group :: via) ++ [node]) - 1)%nat with (length (group :: via)) by (rewrite length_app; cbn; lia).
  pose proof (select_down_spec (group :: via) node Hnd (length (group :: via)) c ltac:(lia)) as Hspec.
  destruct (select_down _ _ c) as [c' err]. destruct Hspec as (k & Hk & Herr & Hset & Hrest).
  assert (Hiter : ∀ i, (k <= i <= S (length via))%nat → Nat.iter (S (length via) - i) (core_now c') (nth i chain EmptyString) = node).
  { intros i Hi. by apply (iter_along (group :: via) node (core_now c') k i). }
  assert (Hout : ∀ i, (i < k)%nat → core_now c' (nth i chain EmptyString) = core_now c (nth i chain EmptyString)).
  { intros i Hi. apply Hrest. intros j Hj Heq.
    apply (nth_groups_inj (group :: via) node Hnd) in Heq; cbn [length] in *; lia. }
  split_and!.
  - intros E. specialize (Hiter 0%nat). rewrite Nat.sub_0_r in Hiter. apply Hiter. apply Herr in E. lia.
  - intros E. apply (Hout 0%nat). destruct k; [|lia]. by destruct E; apply Herr.
  - intros name Hname. apply Hrest. intros j Hj <-. apply Hname. rewrite nth_lookup, lookup_app_l by (cbn; cbn in Hj; lia).
    destruct (lookup_lt_is_Some_2 (group :: via) j) as [x Hx]; [lia|]. rewrite Hx. by eapply list_elem_of_lookup_2.
  - by exists k.
Qed.

(** ** The tunnel mode *)

(** mihomo's [TunnelMode], with [UnmarshalText]. *)
Class TunnelModes := {
  mode : Type;
  Rule : mode;
  mode_eq :: EqDecision mode;
  mode_parse : string → option mode;
}.

(** [rcxModeWish], [rcxUserMode] and the mode in the tunnel. *)
Record modes `{TunnelModes} := {
  md_wish : option mode;
  md_user : option mode;
  md_tunnel : mode;
}.

Section mode.
Context `{TunnelModes}.

Definition rcxEffectiveMode (s : modes) (user : mode) : mode := default user (md_wish s).

(** The mode that should be in the tunnel. *)
Definition mode_due (s : modes) : mode := rcxEffectiveMode s (default Rule (md_user s)).

(** Where a call of [ApplyMode] is, or one of [tunnel.SetMode(rcxSetUserMode(m))]. *)
Inductive mode_pc :=
  | ApplyStart (text : string)  (** before [rcxModeWish.Store] *)
  | ApplyUser                   (** before [rcxUserMode.Load] *)
  | ApplyWish (user : mode)     (** before [rcxModeWish.Load] *)
  | ApplyRead (target : mode)   (** before [tunnel.Mode] *)
  | ApplySet (target : mode)    (** before [tunnel.SetMode] *)
  | UserStart (user : mode)     (** before [rcxUserMode.Store] *)
  | UserWish (user : mode)      (** before [rcxModeWish.Load] *)
  | UserSet (target : mode)     (** before [tunnel.SetMode] *)
  | ModeEnd.

Definition mode_ended (pc : mode_pc) : bool := match pc with ModeEnd => true | _ => false end.
Definition mode_begins (pc : mode_pc) : Prop := match pc with ApplyStart _ | UserStart _ => True | _ => False end.

Definition mode_step (s : modes) (pc : mode_pc) : modes * mode_pc :=
  match pc with
  | ApplyStart text =>
      if empty text then ({| s with md_wish := None |}, ApplyUser)
      else match mode_parse text with
           | None => (s, ModeEnd)
           | Some wish => ({| s with md_wish := Some wish |}, ApplyUser)
           end
  | ApplyUser => (s, ApplyWish (default Rule (md_user s)))
  | ApplyWish user => (s, ApplyRead (rcxEffectiveMode s user))
  | ApplyRead target => (s, if decide (md_tunnel s = target) then ModeEnd else ApplySet target)
  | ApplySet target => ({| s with md_tunnel := target |}, ModeEnd)
  | UserStart user => ({| s with md_user := Some user |}, UserWish user)
  | UserWish user => (s, UserSet (rcxEffectiveMode s user))
  | UserSet target => ({| s with md_tunnel := target |}, ModeEnd)
  | ModeEnd => (s, ModeEnd)
  end.

Definition first_modes : modes := {| md_wish := None; md_user := None; md_tunnel := Rule |}.

Definition mode_runs (serial : bool) : modes → gmap nat mode_pc → Prop :=
  interleaved mode_step mode_ended mode_begins first_modes serial.

Definition mode_during (s : modes) (pc : mode_pc) : Prop :=
  match pc with
  | ApplyStart _ | UserStart _ => md_tunnel s = mode_due s
  | ApplyUser | ModeEnd => True
  | ApplyWish user => user = default Rule (md_user s)
  | ApplyRead target | ApplySet target | UserSet target => target = mode_due s
  | UserWish user => md_user s = Some user
  end.

Lemma mode_step_during s pc : mode_during s pc → mode_ended pc = false →
  let '(s', pc') := mode_step s pc in if mode_ended pc' then md_tunnel s' = mode_due s' else mode_during s' pc'.
Proof using Type.
  destruct pc; cbn; try done; intros Hd _.
  - destruct (empty text); [done|]. by destruct (mode_parse text).
  - by subst user.
  - case_decide; cbn; congruence.
  - unfold mode_due, rcxEffectiveMode. by rewrite Hd.
Qed.

(** A call of [tunnel.SetMode(rcxSetUserMode(Rule))] with a call of
    [ApplyMode] between its last two operations. *)
Definition crossed_calls (text : string) : list move :=
  [Begin 0 (UserStart Rule); Next 0; Next 0; Begin 1 (ApplyStart text); Next 1; Next 1; Next 1; Next 1; Next 1; Next 0].

Lemma crossed_modes text wish : text ≠ EmptyString → mode_parse text = Some wish → wish ≠ Rule →
  ∃ g, mode_runs false {| md_wish := Some wish; md_user := Some Rule; md_tunnel := Rule |} g ∧ all_ended mode_ended g.
Proof using Type.
  intros Ht%empty_false Hp Hne.
  assert (∃ g, play mode_step mode_ended (first_modes, ∅) (crossed_calls text) =
    Some ({| md_wish := Some wish; md_user := Some Rule; md_tunnel := Rule |}, g) ∧ all_ended mode_ended g) as (g & E & Hg).
  { eexists. split.
    - unfold crossed_calls. repeat (play_out; rewrite ?Ht, ?Hp; try (rewrite (decide_False (P := Rule = wish)) by congruence)). reflexivity.
    - intros t pc. rewrite !lookup_insert_Some, lookup_empty. naive_solver. }
  exists g. split; [|done]. apply (play_interleaved mode_step mode_ended mode_begins first_modes _ _ _) with (3 := E); [|constructor].
  repeat constructor.
Qed.

(** C33: the tunnel mode in force. Whenever calls of [ApplyMode] and of
    [rcxSetUserMode] come one after another, the tunnel ends up in the mode
    the scenario holds, else the one the user set, else rule mode. They hold
    different locks, though: when a scenario takes the mode over while a
    config is being applied, the tunnel may be left in the user's mode with
    nothing on its way to correct it. *)
Theorem mode_in_force :
  (∀ s g, mode_runs true s g → all_ended mode_ended g →
    md_tunnel s = match md_wish s with Some wish => wish | None => default Rule (md_user s) end) ∧
  ∀ text wish, text ≠ EmptyString → mode_parse text = Some wish → wish ≠ Rule →
    ∃ s g, mode_runs false s g ∧ all_ended mode_ended g ∧ md_wish s = Some wish ∧ md_tunnel s = Rule.
Proof using Type.
  split.
  - intros s g Hrun Hend.
    assert (md_tunnel s = mode_due s) as ->; [|unfold mode_due, rcxEffectiveMode; by destruct (md_wish s)].
    apply (serial_rest mode_step mode_ended mode_begins first_modes (λ s, md_tunnel s = mode_due s) mode_during) with (g := g); try done.
    + by intros s' [] Hb Hr.
    + apply mode_step_during.
  - intros text wish Ht Hp Hne. destruct (crossed_modes text wish Ht Hp Hne) as (g & Hrun & Hg). by eexists _, g.
Qed.
End mode.

(** ** The user layer on its way to the engine *)

(** What the host holds under [rcxMu], the file it saves the user layer to,
    and what the engine was last given. *)
Record layers `{Yaml} := {
  ly_subscription : SubscriptionLayer;
  ly_routes : AppliedRoutes;
  ly_user : UserLayer;
  ly_pending : bool;
  ly_saved : UserLayer;
  ly_engine : UserLayer;
  ly_given : option (SubscriptionLayer * AppliedRoutes);
}.

Section layer.
Context `{Yaml}.

(** Where a call of [rcxApplyConfig], [rcxSetUser] or [rcxRefreshTopology] is.
    The refresh each of the first two requests is a goroutine of its own. *)
Inductive layer_pc :=
  | ConfigStore (user : option UserLayer) (subscription : SubscriptionLayer) (routes : AppliedRoutes)
  | ConfigSave (user : UserLayer)     (** before [rcxSaveUser] *)
  | UserStore (user : UserLayer)
  | UserSave (user : UserLayer)       (** before [rcxSaveUser] *)
  | UserGive (user : UserLayer)       (** before [e.SetUserLayer] *)
  | RefreshTake
  | RefreshGive (user : option UserLayer) (subscription : SubscriptionLayer) (routes : AppliedRoutes)  (** before [e.SetTopology] *)
  | LayerEnd.

Definition layer_ended (pc : layer_pc) : bool := match pc with LayerEnd => true | _ => false end.
Definition layer_begins (pc : layer_pc) : Prop :=
  match pc with ConfigStore _ _ _ | UserStore _ | RefreshTake => True | _ => False end.

Definition layer_step (s : layers) (pc : layer_pc) : layers * layer_pc :=
  match pc with
  | ConfigStore user subscription routes =>
      let s := {| s with ly_subscription := subscription; ly_routes := routes |} in
      match user with
      | Some u => ({| s with ly_user := u; ly_pending := true |}, ConfigSave u)
      | None => (s, LayerEnd)
      end
  | ConfigSave u => ({| s with ly_saved := u |}, LayerEnd)
  | UserStore u => ({| s with ly_user := u |}, UserSave u)
  | UserSave u => ({| s with ly_saved := u |}, UserGive u)
  | UserGive u => ({| s with ly_engine := u |}, LayerEnd)
  | RefreshTake =>
      ({| s with ly_pending := false |},
       RefreshGive (if ly_pending s then Some (ly_user s) else None) (ly_subscription s) (ly_routes s))
  | RefreshGive user subscription routes =>
      ({| s with ly_engine := default (ly_engine s) user; ly_given := Some (subscription, routes) |}, LayerEnd)
  | LayerEnd => (s, LayerEnd)
  end.

Definition no_routes : AppliedRoutes := {| ar_Applied := false; ar_Key := ""; ar_Groups := []; ar_Problems := ∅ |}.

(** After [rcxReady]: the engine has the layer the file held. *)
Definition first_layers (user : UserLayer) : layers :=
  {| ly_subscription := empty_subscription; ly_routes := no_routes; ly_user := user; ly_pending := false;
     ly_saved := user; ly_engine := user; ly_given := None |}.

Definition layer_runs (user : UserLayer) (serial : bool) : layers → gmap nat layer_pc → Prop :=
  interleaved layer_step layer_ended layer_begins (first_layers user) serial.

Definition layer_rest (s : layers) : Prop := ly_saved s = ly_user s ∧ (ly_pending s = false → ly_engine s = ly_user s).

Definition layer_during (s : layers) (pc : layer_pc) : Prop :=
  match pc with
  | ConfigStore _ _ _ | UserStore _ | RefreshTake => layer_rest s
  | ConfigSave u => ly_user s = u ∧ ly_pending s = true
  | UserSave u => ly_user s = u
  | UserGive u => ly_user s = u ∧ ly_saved s = u
  | RefreshGive user _ _ => ly_saved s = ly_user s ∧ default (ly_engine s) user = ly_user s
  | LayerEnd => True
  end.

Lemma layer_step_during s pc : layer_during s pc → layer_ended pc = false →
  let '(s', pc') := layer_step s pc in if layer_ended pc' then layer_rest s' else layer_during s' pc'.
Proof using Type.
  destruct pc as [[u|] sub routes|u|u|u|u| |user sub routes|]; cbn; unfold layer_rest; cbn; try done;
    try destruct (ly_pending s); cbn; intuition congruence.
Qed.

(** A call of [rcxSetUser] from beginning to end while a refresh is building
    the topology it hands over with the layer it took. *)
Definition crossed_refresh (old new : UserLayer) (subscription : SubscriptionLayer) (routes : AppliedRoutes) : list move :=
  [Begin 0 (ConfigStore (Some old) subscription routes); Next 0; Next 0; Begin 1 RefreshTake; Next 1;
   Begin 2 (UserStore new); Next 2; Next 2; Next 2; Next 1].

Lemma crossed_layers u0 old new (sub : SubscriptionLayer) (routes : AppliedRoutes) :
  ∃ s g, layer_runs u0 false s g ∧ all_ended layer_ended g ∧
    ly_pending s = false ∧ ly_user s = new ∧ ly_saved s = new ∧ ly_engine s = old.
Proof using Type.
  assert (∃ s g, play layer_step layer_ended (first_layers u0, ∅) (crossed_refresh old new sub routes) = Some (s, g) ∧
    all_ended layer_ended g ∧ ly_pending s = false ∧ ly_user s = new ∧ ly_saved s = new ∧ ly_engine s = old)
    as (s & g & E & Hg & Hs).
  { eexists _, _. split; [unfold crossed_refresh; repeat play_out; reflexivity|]. split; [|done].
    intros t pc. rewrite !lookup_insert_Some, lookup_empty. naive_solver. }
  exists s, g. split; [|done]. apply (play_interleaved layer_step layer_ended layer_begins (first_layers u0) _ _ _) with (3 := E); [|constructor].
  repeat constructor.
Qed.

(** The user layer in force. Whenever calls of [rcxApplyConfig],
    [rcxSetUser] and the topology refreshes come one after another, what is
    saved is what the user set last, and so is what the engine runs on unless
    a refresh is still to hand it over. But the engine is given the layer
    outside the lock it was read under: when the user changes it while a
    refresh is on its way with an older one, the engine is left on the older
    layer although nothing is pending. *)
Theorem user_layer_in_force (u0 : UserLayer) :
  (∀ s g, layer_runs u0 true s g → all_ended layer_ended g →
    ly_saved s = ly_user s ∧ (ly_pending s = false → ly_engine s = ly_user s)) ∧
  ∀ old new, ∃ s g, layer_runs u0 false s g ∧ all_ended layer_ended g ∧
    ly_pending s = false ∧ ly_user s = new ∧ ly_saved s = new ∧ ly_engine s = old.
Proof using Type.
  split.
  - intros s g Hrun Hend.
    apply (serial_rest layer_step layer_ended layer_begins (first_layers u0) layer_rest layer_during) with (g := g); try done.
    + by intros s' [] Hb Hr.
    + apply layer_step_during.
  - intros old new. apply (crossed_layers u0 old new empty_subscription no_routes).
Qed.
End layer.

(** ** Local destinations *)

(** net/netip's [Addr], zones aside: no address, or one of 32 or 128 bits. *)
Inductive Addr := NoAddr | Addr4 (z : Z) | Addr6 (z : Z).

Definition mapped_prefix : Z := 65535.

Definition Unmap (ip : Addr) : Addr :=
  match ip with
  | Addr6 z => if Z.shiftr z 32 =? mapped_prefix then Addr4 (Z.land z (2 ^ 32 - 1)) else ip
  | _ => ip
  end.

Definition IsPrivate (ip : Addr) : bool :=
  match ip with
  | Addr4 z => (Z.shiftr z 24 =? 10) || (Z.shiftr z 24 =? 172) && (Z.land (Z.shiftr z 16) 240 =? 16) ||
               (Z.shiftr z 24 =? 192) && (Z.land (Z.shiftr z 16) 255 =? 168)
  | Addr6 z => Z.land (Z.shiftr z 120) 254 =? 252
  | NoAddr => false
  end.

Definition IsLoopback (ip : Addr) : bool :=
  match ip with Addr4 z => Z.shiftr z 24 =? 127 | Addr6 z => z =? 1 | NoAddr => false end.

Definition IsLinkLocalUnicast (ip : Addr) : bool :=
  match ip with
  | Addr4 z => (Z.shiftr z 24 =? 169) && (Z.land (Z.shiftr z 16) 255 =? 254)
  | Addr6 z => Z.land (Z.shiftr z 112) 65472 =? 65152
  | NoAddr => false
  end.

Definition IsLinkLocalMulticast (ip : Addr) : bool :=
  match ip with
  | Addr4 z => (Z.shiftr z 24 =? 224) && (Z.land (Z.shiftr z 16) 255 =? 0) && (Z.land (Z.shiftr z 8) 255 =? 0)
  | Addr6 z => Z.land (Z.shiftr z 112) 65295 =? 65282
  | NoAddr => false
  end.

Definition IsMulticast (ip : Addr) : bool :=
  match ip with
  | Addr4 z => Z.land (Z.shiftr z 24) 240 =? 224
  | Addr6 z => Z.shiftr z 120 =? 255
  | NoAddr => false
  end.

Definition IsUnspecified (ip : Addr) : bool := match ip with Addr4 z | Addr6 z => z =? 0 | NoAddr => false end.

Definition dotted (a b c d : Z) : Z := ((a * 256 + b) * 256 + c) * 256 + d.

(** [rcxCGNAT.Contains], of 100.64.0.0/10. *)
Definition rcxCGNAT (ip : Addr) : bool :=
  match ip with Addr4 z => Z.shiftr (Z.lxor z (dotted 100 64 0 0)) 22 =? 0 | _ => false end.

Definition local_addr (ip : Addr) : bool :=
  let ip := Unmap ip in
  IsPrivate ip || IsLoopback ip || IsLinkLocalUnicast ip || IsLinkLocalMulticast ip || IsMulticast ip || IsUnspecified ip || rcxCGNAT ip.

Definition HasSuffix (s suffix : string) : bool :=
  let n := (String.length s - String.length suffix)%nat in
  (String.length suffix <=? String.length s)%nat && eqs (String.substring n (String.length suffix) s) suffix.

Definition local_suffixes : list string := [".local"; ".lan"; ".home.arpa"; ".internal"; ".localdomain"; ".localhost"].

Section local.
Context `{Unicode}.

Definition local_host (host : string) : bool :=
  let host := TrimSuffix (ToLower host) "." in
  if empty host then false
  else if negb (Contains host ".") then true
  else existsb (HasSuffix host) local_suffixes.

(** Of [Metadata], its [DstIP] and [Host]. *)
Definition rcxLocal (dst : Addr) (host : string) : bool := local_addr dst || local_host host.

(** [target] is the engine's [SplitTarget], once there is an engine. *)
Definition rcxDirectSplit (target : option string) (dst : Addr) (host : string) : string :=
  match target with
  | None => EmptyString
  | Some target => if empty target || rcxLocal dst host then EmptyString else target
  end.

End local.

(** The blocks an IPv4 destination is local in, by first and last address. *)
Definition local_blocks : list (Z * Z) :=
  [ (dotted 0 0 0 0, dotted 0 0 0 0);
    (dotted 10 0 0 0, dotted 10 255 255 255);
    (dotted 100 64 0 0, dotted 100 127 255 255);
    (dotted 127 0 0 0, dotted 127 255 255 255);
    (dotted 169 254 0 0, dotted 169 254 255 255);
    (dotted 172 16 0 0, dotted 172 31 255 255);
    (dotted 192 168 0 0, dotted 192 168 255 255);
    (dotted 224 0 0 0, dotted 239 255 255 255) ].

(** And an IPv6 one: ::, ::1, fc00::/7, fe80::/10 and ff00::/8. *)
Definition local_blocks6 : list (Z * Z) :=
  [ (0, 0); (1, 1);
    (Z.shiftl 252 120, Z.shiftl 254 120 - 1);
    (Z.shiftl 65152 112, Z.shiftl 65216 112 - 1);
    (Z.shiftl 255 120, Z.shiftl 256 120 - 1) ].

Definition in_block (z : Z) (b : Z * Z) : Prop := b.1 <= z <= b.2.

Fixpoint zrange (n : nat) (z : Z) : list Z := match n with O => [] | S n => z :: zrange n (z + 1) end.

(** Masks on small numbers, by trying them all. *)
Lemma small_cases (P : Z → bool) n : forallb P (zrange (Z.to_nat n) 0) = true → ∀ b, 0 <= b < n → P b = true.
Proof.
  assert (∀ k z, forallb P (zrange k z) = true → ∀ b, z <= b < z + Z.of_nat k → P b = true) as Hall.
  { induction k as [|k IH]; cbn; intros z Hz b Hb; [lia|]. apply andb_true_iff in Hz as [Hz Hk].
    destruct (decide (b = z)) as [->|Hne]; [done|]. apply (IH (z + 1)); [done | lia]. }
  intros HP b Hb. apply (Hall _ 0 HP). lia.
Qed.

Lemma mask_range m v lo hi n :
  forallb (λ b, Bool.eqb (Z.land b m =? v) ((lo <=? b) && (b <? hi))) (zrange (Z.to_nat n) 0) = true →
  ∀ b, 0 <= b < n → (Z.land b m = v ↔ lo <= b < hi).
Proof.
  intros Hall b Hb. apply (small_cases _ n Hall), Bool.eqb_prop in Hb.
  by rewrite <- Z.eqb_eq, Hb, andb_true_iff, Z.leb_le, Z.ltb_lt.
Qed.

Lemma mask_240_16 b : 0 <= b < 256 → (Z.land b 240 = 16 ↔ 16 <= b < 32).
Proof. apply mask_range. by vm_compute. Qed.

Lemma mask_240_224 b : 0 <= b < 256 → (Z.land b 240 = 224 ↔ 224 <= b < 240).
Proof. apply mask_range. by vm_compute. Qed.

Lemma mask_254 b : 0 <= b < 256 → (Z.land b 254 = 252 ↔ 252 <= b < 254).
Proof. apply mask_range. by vm_compute. Qed.

Lemma mask_65472 b : 0 <= b < 65536 → (Z.land b 65472 = 65152 ↔ 65152 <= b < 65216).
Proof. apply mask_range. by vm_compute. Qed.

Lemma mask_65295 b : 0 <= b < 65536 → Z.land b 65295 = 65282 → Z.shiftr b 8 = 255.
Proof.
  intros Hb Hm. apply Z.eqb_eq. apply Z.eqb_eq in Hm. apply (implb_true_iff (Z.land b 65295 =? 65282)); [|done]. clear Hm.
  revert b Hb. apply (small_cases (λ b, implb (Z.land b 65295 =? 65282) (Z.shiftr b 8 =? 255))). by vm_compute.
Qed.

Lemma shiftr_eq z n v : 0 <= n → Z.shiftr z n = v ↔ v * 2 ^ n <= z < (v + 1) * 2 ^ n.
Proof.
  intros Hn. rewrite Z.shiftr_div_pow2 by done. pose proof (Z.pow_pos_nonneg 2 n ltac:(lia) Hn) as Hp.
  pose proof (Z.div_mod z (2 ^ n) ltac:(lia)). pose proof (Z.mod_pos_bound z (2 ^ n) Hp).
  split; [intros <-; nia | intros; symmetry; apply (Z.div_unique _ _ _ (z - v * 2 ^ n)); nia].
Qed.

Lemma low_byte z m : Z.land 255 m = m → Z.land z m = Z.land (z mod 256) m.
Proof. intros Hm. rewrite <- Hm at 1. rewrite Z.land_assoc. change 255 with (Z.ones 8). by rewrite Z.land_ones. Qed.

Lemma byte_mod z : Z.land z 255 = z mod 256.
Proof. change 255 with (Z.ones 8). by rewrite Z.land_ones. Qed.

Lemma cgnat_eq z : rcxCGNAT (Addr4 z) = true ↔ Z.shiftr z 22 = Z.shiftr (dotted 100 64 0 0) 22.
Proof. unfold rcxCGNAT. by rewrite Z.eqb_eq, Z.shiftr_lxor, Z.lxor_eq_0_iff. Qed.

(** An IPv4 address by its bytes. *)
Lemma local_addr4 z : 0 <= z < 2 ^ 32 → local_addr (Addr4 z) = true ↔ Exists (in_block z) local_blocks.
Proof.
  intros Hz. unfold local_addr. cbn [Unmap]. rewrite !orb_true_iff, cgnat_eq.
  unfold IsPrivate, IsLoopback, IsLinkLocalUnicast, IsLinkLocalMulticast, IsMulticast, IsUnspecified.
  rewrite !orb_true_iff, !andb_true_iff, !Z.eqb_eq, !byte_mod.
  rewrite (low_byte (Z.shiftr z 16) 240 eq_refl), mask_240_16 by (apply Z.mod_pos_bound; lia).
  assert (0 <= Z.shiftr z 24 < 256) as H24 by (rewrite Z.shiftr_div_pow2 by lia; split; [apply Z.div_pos | apply Z.div_lt_upper_bound]; lia).
  rewrite (mask_240_224 _ H24). change (Z.shiftr (dotted 100 64 0 0) 22) with 401.
  unfold local_blocks. rewrite !Exists_cons, Exists_nil. unfold in_block, dotted. cbn [fst snd].
  rewrite !Z.shiftr_div_pow2 in * by lia. change (2 ^ 24) with 16777216 in *. change (2 ^ 16) with 65536. change (2 ^ 22) with 4194304.
  change (2 ^ 8) with 256. change (2 ^ 32) with 4294967296 in Hz.
  replace (z / 16777216) with (z / 65536 / 256) in * by (by rewrite Z.div_div).
  replace (z / 4194304) with (z / 65536 / 64) by (by rewrite Z.div_div).
  pose proof (Z.div_mod z 65536 ltac:(done)) as Hh. pose proof (Z.mod_pos_bound z 65536 eq_refl) as Hr.
  set (h := z / 65536) in *. set (r := z mod 65536) in *. set (k := (z / 256) mod 256). clearbody h r k. subst z.
  pose proof (Z.div_mod h 256 ltac:(done)). pose proof (Z.mod_pos_bound h 256 eq_refl).
  pose proof (Z.div_mod h 64 ltac:(done)). pose proof (Z.mod_pos_bound h 64 eq_refl).
  set (a := h / 256) in *. set (b := h mod 256) in *. set (q := h / 64) in *. clearbody a b q.
  split; intros; lia.
Qed.

(** An IPv6 address of its own, by its first group and the rest. *)
Lemma local_addr6 z : 0 <= z < 2 ^ 128 → Z.shiftr z 32 ≠ mapped_prefix →
  local_addr (Addr6 z) = true ↔ Exists (in_block z) local_blocks6.
Proof.
  intros Hz Hm. unfold local_addr. cbn [Unmap]. rewrite (proj2 (Z.eqb_neq _ _) Hm).
  unfold IsPrivate, IsLoopback, IsLinkLocalUnicast, IsLinkLocalMulticast, IsMulticast, IsUnspecified, rcxCGNAT.
  rewrite !orb_true_iff, !Z.eqb_eq.
  assert (0 <= Z.shiftr z 120 < 256) as H120
    by (rewrite Z.shiftr_div_pow2 by lia; split; [apply Z.div_pos | apply Z.div_lt_upper_bound]; lia).
  assert (0 <= Z.shiftr z 112 < 65536) as H112
    by (rewrite Z.shiftr_div_pow2 by lia; split; [apply Z.div_pos | apply Z.div_lt_upper_bound]; lia).
  rewrite (mask_254 _ H120), (mask_65472 _ H112).
  assert (Z.land (Z.shiftr z 112) 65295 = 65282 → Z.shiftr z 120 = 255) as Hmc.
  { intros E%mask_65295; [|done]. rewrite <- E, Z.shiftr_shiftr by lia. done. }
  unfold local_blocks6. rewrite !Exists_cons, Exists_nil. unfold in_block. cbn [fst snd].
  rewrite !Z.shiftl_mul_pow2 by lia. rewrite !Z.shiftr_div_pow2 in * by lia.
  pose proof (Z.div_mod z (2 ^ 112) ltac:(lia)). pose proof (Z.mod_pos_bound z (2 ^ 112) ltac:(lia)).
  pose proof (Z.div_mod z (2 ^ 120) ltac:(lia)). pose proof (Z.mod_pos_bound z (2 ^ 120) ltac:(lia)).
  set (m := Z.land (z / 2 ^ 112) 65295) in *. set (g := z / 2 ^ 112) in *. set (b := z / 2 ^ 120) in *. clearbody m g b.
  split; intros; lia.
Qed.

(** Which addresses stay off the direct split. An IPv4 destination is
    local exactly in the private, shared, loopback, link-local and multicast
    blocks and at 0.0.0.0, whether it is written as IPv4 or mapped into IPv6;
    an IPv6 one in ::, ::1, fc00::/7, fe80::/10 and ff00::/8. *)
Theorem local_addresses :
  (∀ z, 0 <= z < 2 ^ 32 → local_addr (Addr4 z) = true ↔ Exists (in_block z) local_blocks) ∧
  (∀ z, 0 <= z < 2 ^ 32 → local_addr (Addr6 (Z.shiftl mapped_prefix 32 + z)) = local_addr (Addr4 z)) ∧
  (∀ z, 0 <= z < 2 ^ 128 → Z.shiftr z 32 ≠ mapped_prefix → local_addr (Addr6 z) = true ↔ Exists (in_block z) local_blocks6) ∧
  local_addr NoAddr = false.
Proof.
  split_and!; [apply local_addr4 | | apply local_addr6 | done]. intros z Hz. unfold local_addr. cbn [Unmap].
  assert (Z.shiftr (Z.shiftl mapped_prefix 32 + z) 32 = mapped_prefix) as ->.
  { apply shiftr_eq; [lia|]. rewrite Z.shiftl_mul_pow2 by lia. lia. }
  rewrite Z.eqb_refl. change (2 ^ 32 - 1) with (Z.ones 32).
  rewrite Z.land_ones, Z.shiftl_mul_pow2, Z.add_comm, Z.mod_add, Z.mod_small by lia. done.
Qed.

(** ** What the applied config brings for the engine *)

(** [rcxReadSubscription] and [rcxReadBundle] decode two files. *)
Record rawConfig `{Yaml} := {
  rc_groups : list (string * option Binding);
  rc_Profiles : gmap string yaml_any;
  rc_Scenarios : gmap string yaml_any;
  rc_Scenario : string;
}.

(** The files of the core, and what YAML makes of them. *)
Class CoreFiles `{Yaml} := {
  readCoreFile : string → option string;
  decode_config : string → option rawConfig;
  decode_bundle : string → option SubscriptionLayer;
  path_ext : string → string;
}.

Definition rcxBundleLimit : Z := 256 * 1024.

Section subscription.
Context `{CoreFiles}.

Definition rcxBundlePath (path : string) : string := TrimSuffix path (path_ext path) +:+ ".routing.yaml".

Definition rcxReadBundle (path : string) : SubscriptionLayer :=
  match readCoreFile path with
  | None => empty_subscription
  | Some buf => if rcxBundleLimit <? slen buf then empty_subscription else default empty_subscription (decode_bundle buf)
  end.

(** The groups of the config in order: a later one of the same name wins. *)
Definition bind_group (groups : gmap string Binding) (group : string * option Binding) : gmap string Binding :=
  match group.2 with
  | Some binding => if empty group.1 then groups else <[group.1 := binding]> groups
  | None => groups
  end.

Definition rcxReadSubscription (path : string) : SubscriptionLayer :=
  let layer := rcxReadBundle (rcxBundlePath path) in
  match readCoreFile path with
  | None => layer
  | Some buf =>
      if negb (Contains buf "rcx") then layer
      else match decode_config buf with
           | None => layer
           | Some raw =>
               {| su_Groups := foldl bind_group (su_Groups layer) (rc_groups raw);
                  su_Profiles := rc_Profiles raw ∪ su_Profiles layer;
                  su_Scenarios := rc_Scenarios raw ∪ su_Scenarios layer;
                  su_Scenario := if empty (rc_Scenario raw) then su_Scenario layer else rc_Scenario raw |}
           end
  end.
End subscription.

(** ** Concrete inputs *)

Module Sample.
(** A core whose groups take the members listed for them. *)
Definition members : list (string * list string) :=
  [("Main", ["Auto"; "one"]); ("Auto", ["Asia"; "two"]); ("Asia", ["three"])]%string.

Definition has_member (group node : string) : bool :=
  existsb (λ g, eqs g.1 group && mem_string node g.2) members.

#[local] Instance groups : Groups := {|
  core := string → string;
  core_group _ name := if existsb (λ g, eqs g.1 name) members then PickableGroup else NoSuchGroup;
  core_now c := c;
  core_set c group node := if has_member group node then Ok (λ name, if eqs name group then node else c name) else Err "not a member"%string;
|}.

#[local] Instance groups_laws : GroupsLaws.
Proof. split. intros c group node c'. unfold core_set, core_now, groups. destruct (has_member group node); [|done]. intros [= <-] name. done. Qed.

Definition first_core : core := λ name, (if eqs name "Main" then "one" else if eqs name "Auto" then "two" else "three")%string.

Lemma route_groups : NoDup ["Main"; "Auto"; "Asia"]%string.
Proof. apply (bool_decide_unpack _). vm_compute. exact I. Qed.

(** A way that exists, and one that breaks halfway. *)
Lemma select_route_witness :
  Nat.iter 3 (core_now (Select first_core "Main" ["Auto"; "Asia"] "three").1) "Main"%string = "three"%string ∧
  core_now (Select first_core "Main" ["Asia"; "Auto"] "two").1 "Main"%string = "one"%string.
Proof.
  assert (NoDup ["Main"; "Asia"; "Auto"]%string) as Hnd by (apply (bool_decide_unpack _); vm_compute; exact I).
  pose proof (select_route first_core "Main" ["Auto"; "Asia"] "three" route_groups) as H1.
  pose proof (select_route first_core "Main" ["Asia"; "Auto"] "two" Hnd) as H2. cbn zeta in H1, H2.
  destruct (Select first_core "Main" ["Auto"; "Asia"] "three") as [c1 err1] eqn:E1.
  destruct (Select first_core "Main" ["Asia"; "Auto"] "two") as [c2 err2] eqn:E2.
  assert (err1 = None) as Herr1 by (change err1 with (c1, err1).2; rewrite <- E1; vm_compute; reflexivity).
  assert (err2 ≠ None) as Herr2 by (change err2 with (c2, err2).2; rewrite <- E2; vm_compute; discriminate).
  split; [exact (proj1 H1 Herr1) | exact (proj1 (proj2 H2) Herr2)].
Defined.

Lemma local_addresses_witness :
  local_addr (Addr4 (dotted 100 100 7 7)) = true ∧
  local_addr (Addr6 (Z.shiftl mapped_prefix 32 + dotted 100 100 7 7)) = local_addr (Addr4 (dotted 100 100 7 7)).
Proof.
  destruct local_addresses as (H4 & Hm & _). split.
  - apply H4; [unfold dotted; lia|]. apply Exists_exists.
    exists (dotted 100 64 0 0, dotted 100 127 255 255). split; [repeat constructor|]. split; vm_compute; discriminate.
  - apply Hm. unfold dotted. lia.
Defined.
End Sample.
