(* ===== verification/RouteWatch.v ===== *)
(** * Watching the route: core/route.go

    The host shows where traffic goes out and keeps answers (a country, an
    exit address) as long as the route stands. The tracker numbers what it
    sees: a version for every change of a pick, a provider or a rule set, an
    epoch for every reset. Every operation holds [selectMu] or the tracker's
    lock, so a run is a sequence of operations. *)

From S2P Require Import Prelude GoText ProviderPolicy.

(** ** The tracker *)

Inductive routeChange := routeUnchanged | routeMoved | routeReset.
#[export] Instance routeChange_eq : EqDecision routeChange. Proof. solve_decision. Defined.

(** [max] on the constants. *)
Definition change_max (a b : routeChange) : routeChange :=
  match a, b with
  | routeReset, _ | _, routeReset => routeReset
  | routeMoved, _ | _, routeMoved => routeMoved
  | _, _ => routeUnchanged
  end.

Record RouteState := { CoreEpoch : Z; RouteVersion : Z }.

(** What [readPicks] and [readRuleSets] read of mihomo: the pick of every
    group that has one, the version of every provider, the strategy of every
    rule set, by its address. *)
Record reading := {
  rd_picks : gmap string string;
  rd_versions : gmap string Z;
  rd_ruleSets : gmap string Z;
}.

(** [None] is a nil map; [rt_polling] tells [stopPoll] from nil. *)
Record routeTracker := {
  rt_epoch : Z;
  rt_version : Z;
  rt_picks : gmap string string;
  rt_providerVersions : option (gmap string Z);
  rt_ruleSets : option (gmap string Z);
  rt_watched : bool;
  rt_watchSeq : Z;
  rt_polling : bool;
}.

Definition currentRoute : routeTracker :=
  {| rt_epoch := 0; rt_version := 0; rt_picks := ∅; rt_providerVersions := None; rt_ruleSets := None;
     rt_watched := false; rt_watchSeq := 0; rt_polling := false |}.

(** [uint64] addition. *)
Definition uint64_succ (z : Z) : Z := (z + 1) mod 2 ^ 64.

Definition routeStateLocked (rt : routeTracker) : RouteState :=
  {| CoreEpoch := rt_epoch rt; RouteVersion := rt_version rt |}.

Definition known_and_changed (now : gmap string Z) (before : option (gmap string Z)) : bool :=
  match before with None => false | Some before => negb (bool_decide (now = before)) end.

(** What a refresh makes of the change it was called with. *)
Definition change_seen (rt : routeTracker) (change : routeChange) (r : reading) : routeChange :=
  if known_and_changed (rd_versions r) (rt_providerVersions rt) || known_and_changed (rd_ruleSets r) (rt_ruleSets rt) ||
     negb (bool_decide (rd_picks r = rt_picks rt))
  then change_max change routeMoved else change.

(** [refreshRouteLocked], and what it publishes. *)
Definition refreshRouteLocked (rt : routeTracker) (change : routeChange) (r : reading) : routeTracker * option RouteState :=
  let change := change_seen rt change r in
  let rt := {| rt with rt_providerVersions := Some (rd_versions r); rt_ruleSets := Some (rd_ruleSets r); rt_picks := rd_picks r |} in
  let rt := if decide (change = routeReset) then {| rt with rt_epoch := uint64_succ (rt_epoch rt) |} else rt in
  if decide (change = routeUnchanged) then (rt, None)
  else
    let rt := {| rt with rt_version := uint64_succ (rt_version rt) |} in
    (rt, if rt_watched rt then Some (routeStateLocked rt) else None).

Definition changeRoute := refreshRouteLocked.
Definition refreshRoute (rt : routeTracker) (r : reading) := changeRoute rt routeUnchanged r.
Definition bumpRouteEpoch (rt : routeTracker) (r : reading) := changeRoute rt routeReset r.

(** The second section of [handleWatchRoute]. *)
Definition watch_section (rt : routeTracker) (watch : bool) (seq : Z) : routeTracker :=
  if seq <? rt_watchSeq rt then rt
  else {| rt with rt_watchSeq := seq; rt_watched := watch; rt_polling := watch |}.

Definition handleWatchRoute (rt : routeTracker) (watch : bool) (seq : Z) (r : reading) : routeTracker * option RouteState * RouteState :=
  let '(rt, published) := refreshRoute rt r in
  let rt := watch_section rt watch seq in
  (rt, published, routeStateLocked rt).

(** [seq] is the place [methodCallSeq.Add] gives the stop. *)
Definition stopRouteWatch (rt : routeTracker) (seq : Z) : routeTracker :=
  {| rt with rt_watchSeq := Z.max (rt_watchSeq rt) seq; rt_watched := false; rt_polling := false |}.

(** ** Runs *)

Inductive route_op := Refresh (change : routeChange) (r : reading) | Watch (watch : bool) (seq : Z) | StopWatch (seq : Z).

Definition route_step (rt : routeTracker) (op : route_op) : routeTracker * option RouteState :=
  match op with
  | Refresh change r => changeRoute rt change r
  | Watch watch seq => (watch_section rt watch seq, None)
  | StopWatch seq => (stopRouteWatch rt seq, None)
  end.

(** The tracker after a run, and what it published. *)
Fixpoint route_run (rt : routeTracker) (ops : list route_op) : routeTracker * list RouteState :=
  match ops with
  | [] => (rt, [])
  | op :: ops =>
      let '(rt, published) := route_step rt op in
      let '(rt, later) := route_run rt ops in
      (rt, option_list published ++ later)
  end.

(** ** A version stands for one route *)

(** How often the version moves. *)
Fixpoint moves (rt : routeTracker) (ops : list route_op) : Z :=
  match ops with
  | [] => 0
  | op :: ops =>
      (match op with Refresh change r => if decide (change_seen rt change r = routeUnchanged) then 0 else 1 | _ => 0 end)
      + moves (route_step rt op).1 ops
  end.

Definition in_uint64 (z : Z) : Prop := 0 <= z < 2 ^ 64.

Lemma moves_bounds ops : ∀ rt, 0 <= moves rt ops <= Z.of_nat (length ops).
Proof.
  induction ops as [|op ops IH]; intros rt; cbn [moves length]; [lia|]. specialize (IH (route_step rt op).1).
  destruct op; [case_decide|..]; lia.
Qed.

(** What the tracker holds of the route. *)
Definition route_of (rt : routeTracker) : gmap string string * option (gmap string Z) * option (gmap string Z) :=
  (rt_picks rt, rt_providerVersions rt, rt_ruleSets rt).

Lemma step_version rt op : in_uint64 (rt_version rt) →
  rt_version (route_step rt op).1 =
    (rt_version rt + match op with Refresh change r => if decide (change_seen rt change r = routeUnchanged) then 0 else 1 | _ => 0 end) mod 2 ^ 64.
Proof.
  intros Hv. unfold in_uint64 in Hv. destruct op as [change r|watch seq|seq]; cbn.
  - unfold changeRoute, refreshRouteLocked. do 2 case_decide; cbn; unfold uint64_succ; rewrite ?Z.add_0_r; try done;
      by rewrite Z.mod_small.
  - unfold watch_section. case_if; cbn; by rewrite Z.add_0_r, Z.mod_small.
  - by rewrite Z.add_0_r, Z.mod_small.
Qed.

Lemma run_version ops : ∀ rt, in_uint64 (rt_version rt) →
  rt_version (route_run rt ops).1 = (rt_version rt + moves rt ops) mod 2 ^ 64.
Proof.
  induction ops as [|op ops IH]; intros rt Hv; cbn [route_run moves].
  { cbn. rewrite Z.add_0_r, Z.mod_small; [done | exact Hv]. }
  pose proof (step_version rt op Hv) as Hs. destruct (route_step rt op) as [rt' published]. cbn [fst] in *.
  specialize (IH rt'). destruct (route_run rt' ops) as [rt2 later]. cbn [fst] in *.
  rewrite IH, Hs, Z.add_mod_idemp_l by (try (unfold in_uint64; rewrite Hs; apply Z.mod_pos_bound); lia).
  f_equal. lia.
Qed.

(** Two trackers with nothing between them that counted as a change hold the
    same route, as far as it was known. *)
Definition same_route (rt rt' : routeTracker) : Prop :=
  rt_picks rt' = rt_picks rt ∧ rt_epoch rt' = rt_epoch rt ∧
  (∀ v, rt_providerVersions rt = Some v → rt_providerVersions rt' = Some v) ∧
  (∀ v, rt_ruleSets rt = Some v → rt_ruleSets rt' = Some v).

Lemma unchanged_seen rt change r : change_seen rt change r = routeUnchanged →
  change = routeUnchanged ∧ rd_picks r = rt_picks rt ∧
  (∀ v, rt_providerVersions rt = Some v → rd_versions r = v) ∧ (∀ v, rt_ruleSets rt = Some v → rd_ruleSets r = v).
Proof.
  unfold change_seen. case_if; [by destruct change|]. intros ->.
  apply orb_false_iff in E as [[E1 E2]%orb_false_iff E3%negb_false_iff%bool_decide_eq_true].
  unfold known_and_changed in E1, E2. split_and!; [done | done | |].
  - intros v Hv. rewrite Hv in E1. by apply negb_false_iff, bool_decide_eq_true in E1.
  - intros v Hv. rewrite Hv in E2. by apply negb_false_iff, bool_decide_eq_true in E2.
Qed.

Lemma unmoved_same ops : ∀ rt, moves rt ops = 0 → same_route rt (route_run rt ops).1 ∧ (route_run rt ops).2 = [].
Proof.
  induction ops as [|op ops IH]; intros rt Hm; cbn [route_run moves] in *; [done|].
  pose proof (moves_bounds ops (route_step rt op).1) as Hb.
  assert (moves (route_step rt op).1 ops = 0 ∧ same_route rt (route_step rt op).1 ∧ (route_step rt op).2 = None) as (Hm' & Hsame & Hpub).
  { destruct op as [change r|watch seq|seq].
    - case_decide as Hc; [|lia]. split; [lia|]. cbn. unfold changeRoute, refreshRouteLocked. rewrite Hc. repeat case_decide; try done.
      destruct (unchanged_seen _ _ _ Hc) as (_ & Hp & Hv & Hr). repeat split; cbn; [done | |].
      + intros v Hv'. f_equal. by apply Hv.
      + intros v Hr'. f_equal. by apply Hr.
    - split; [lia|]. cbn. unfold watch_section. by case_if.
    - split; [lia|]. done. }
  specialize (IH _ Hm'). destruct (route_step rt op) as [rt' published]. cbn [fst snd] in *. subst published.
  destruct (route_run rt' ops) as [rt2 later]. cbn [fst snd] in *. destruct IH as [(H1 & H2 & H3 & H4) ->]. split; [|done].
  destruct Hsame as (G1 & G2 & G3 & G4). repeat split; [congruence | congruence | auto | auto].
Qed.

Definition is_refresh (op : route_op) : bool := match op with Refresh _ _ => true | _ => false end.

(** The versions published while the host watches follow each other. *)
Lemma watched_run ops : ∀ rt, in_uint64 (rt_version rt) → rt_watched rt = true → Forall (λ op, is_refresh op = true) ops →
  RouteVersion <$> (route_run rt ops).2 = (λ i, (rt_version rt + i) mod 2 ^ 64) <$> seqZ 1 (moves rt ops).
Proof.
  induction ops as [|op ops IH]; intros rt Hv Hw Hops; cbn [route_run moves]; [done|].
  apply Forall_cons in Hops as [Hop Hops]. destruct op as [change r|watch seq|seq]; [|done..].
  pose proof (step_version rt (Refresh change r) Hv) as Hs.
  pose proof (moves_bounds ops (route_step rt (Refresh change r)).1) as Hb.
  assert (rt_watched (route_step rt (Refresh change r)).1 = true ∧
    (route_step rt (Refresh change r)).2 = if decide (change_seen rt change r = routeUnchanged) then None
                                           else Some (routeStateLocked (route_step rt (Refresh change r)).1)) as [Hw' Hpub].
  { cbn. unfold changeRoute, refreshRouteLocked. repeat case_decide; cbn; rewrite ?Hw; done. }
  specialize (IH (route_step rt (Refresh change r)).1).
  destruct (route_step rt (Refresh change r)) as [rt' published]. cbn [fst snd] in *.
  assert (in_uint64 (rt_version rt')) as Hv' by (unfold in_uint64; rewrite Hs; apply Z.mod_pos_bound; lia).
  specialize (IH Hv' Hw' Hops). destruct (route_run rt' ops) as [rt2 later]. cbn [fst snd] in *.
  rewrite fmap_app, IH, Hpub. case_decide.
  - cbn. rewrite Z.add_0_r, Z.mod_small in Hs by exact Hv. by rewrite Hs, Z.add_0_l.
  - rewrite (Z.add_comm 1), (seqZ_cons 1 (moves rt' ops + 1)) by lia. rewrite fmap_cons.
    change (RouteVersion <$> option_list (Some (routeStateLocked rt'))) with [rt_version rt']. cbn [app]. f_equal; [done|].
    replace (Z.pred (moves rt' ops + 1)) with (moves rt' ops) by lia.
    change (Z.succ 1) with (1 + 1). rewrite <- fmap_add_seqZ, <- list_fmap_compose. apply list_fmap_ext. intros _ i _.
    cbn. rewrite Hs, Z.add_mod_idemp_l by lia. f_equal. lia.
Qed.

(** *** Which call decides whether the host is told *)

Definition seq_of (op : route_op) : option Z :=
  match op with Refresh _ _ => None | Watch _ seq | StopWatch seq => Some seq end.

Lemma watch_seq_below pre s : ∀ rt, rt_watchSeq rt <= s → Forall (λ op, ∀ seq, seq_of op = Some seq → seq <= s) pre →
  rt_watchSeq (route_run rt pre).1 <= s.
Proof.
  induction pre as [|op pre IH]; intros rt Hs Hpre; cbn [route_run]; [done|]. apply Forall_cons in Hpre as [Hop Hpre].
  assert (rt_watchSeq (route_step rt op).1 <= s) as Hs'.
  { destruct op as [change r|watch seq|seq]; cbn in *.
    - unfold changeRoute, refreshRouteLocked. by repeat case_decide.
    - unfold watch_section. case_if; cbn; [done | by apply Hop].
    - specialize (Hop _ eq_refl). lia. }
  destruct (route_step rt op) as [rt' published]. specialize (IH rt' Hs' Hpre). by destruct (route_run rt' pre).
Qed.

Lemma watch_kept post s watch : ∀ rt, rt_watchSeq rt = s → rt_watched rt = watch →
  Forall (λ op, match op with Refresh _ _ => True | Watch _ seq => seq < s | StopWatch _ => False end) post →
  rt_watched (route_run rt post).1 = watch ∧ rt_watchSeq (route_run rt post).1 = s.
Proof.
  induction post as [|op post IH]; intros rt Hs Hw Hpost; cbn [route_run]; [done|]. apply Forall_cons in Hpost as [Hop Hpost].
  assert (rt_watchSeq (route_step rt op).1 = s ∧ rt_watched (route_step rt op).1 = watch) as [Hs' Hw'].
  { destruct op as [change r|w seq|seq]; cbn in *; [|by unfold watch_section; rewrite (proj2 (Z.ltb_lt _ _)) by lia|done].
    unfold changeRoute, refreshRouteLocked. by repeat case_decide. }
  destruct (route_step rt op) as [rt' published]. specialize (IH rt' Hs' Hw' Hpost). by destruct (route_run rt' post).
Qed.

Lemma route_run_app ops ops' : ∀ rt, (route_run rt (ops ++ ops')).1 = (route_run (route_run rt ops).1 ops').1.
Proof.
  induction ops as [|op ops IH]; intros rt; cbn [route_run app]; [done|].
  destruct (route_step rt op) as [rt' published]. specialize (IH rt').
  destruct (route_run rt' (ops ++ ops')), (route_run rt' ops). exact IH.
Qed.

(** A call ahead of all before it in the call order, with only older calls
    to watch after it, decides. *)
Lemma watch_latest rt pre op post s :
  seq_of op = Some s → rt_watchSeq rt <= s →
  Forall (λ op, ∀ seq, seq_of op = Some seq → seq <= s) pre →
  Forall (λ op, match op with Refresh _ _ => True | Watch _ seq => seq < s | StopWatch _ => False end) post →
  rt_watched (route_run rt (pre ++ op :: post)).1 = match op with Watch watch _ => watch | _ => false end.
Proof.
  intros Hop Hs Hpre Hpost. rewrite route_run_app. pose proof (watch_seq_below pre s rt Hs Hpre) as Hb.
  destruct (route_run rt pre) as [rt1 published]. cbn [fst] in *. cbn [route_run].
  pose proof (watch_kept post s (match op with Watch watch _ => watch | _ => false end) (route_step rt1 op).1) as Hk.
  destruct (route_step rt1 op) as [rt2 p2] eqn:E2. cbn [fst] in *. destruct (route_run rt2 post) as [rt3 p3]. cbn [fst] in *.
  apply Hk; [| |done]; destruct op as [change r|watch seq|seq]; cbn in *; simplify_eq; cbn; try lia; try done;
    unfold watch_section; by rewrite (proj2 (Z.ltb_ge _ _)) by lia.
Qed.

(** How often the route was reset. *)
Definition is_reset (op : route_op) : bool := match op with Refresh routeReset _ => true | _ => false end.
Definition resets (ops : list route_op) : Z := Z.of_nat (length (filter (λ op, is_reset op = true) ops)).

Lemma run_epoch ops : ∀ rt, in_uint64 (rt_epoch rt) → rt_epoch (route_run rt ops).1 = (rt_epoch rt + resets ops) mod 2 ^ 64.
Proof.
  unfold resets. induction ops as [|op ops IH]; intros rt Hv; cbn [route_run]; [cbn; unfold in_uint64 in Hv; by rewrite Z.add_0_r, Z.mod_small|].
  assert (rt_epoch (route_step rt op).1 = if is_reset op then uint64_succ (rt_epoch rt) else rt_epoch rt) as He.
  { destruct op as [change r|watch seq|seq]; cbn; [|unfold watch_section; by case_if|done].
    unfold changeRoute, refreshRouteLocked, change_seen. destruct change; case_if; cbn; repeat case_decide; done. }
  destruct (route_step rt op) as [rt1 published]. cbn [fst] in He.
  assert (in_uint64 (rt_epoch rt1)) as Hv1.
  { rewrite He. destruct (is_reset op); [|done]. unfold in_uint64, uint64_succ. by apply Z.mod_pos_bound. }
  specialize (IH rt1 Hv1). destruct (route_run rt1 ops) as [rt2 later]. cbn [fst] in *. rewrite IH, He, filter_cons.
  destruct (is_reset op); [rewrite decide_True by done | by rewrite decide_False by done]. unfold uint64_succ. rewrite Z.add_mod_idemp_l by lia. cbn [length]. f_equal. lia.
Qed.

(** C36: a route version stands for one route. Over a run of fewer than 2^64
    operations, if the version at the end is the one at the start, then no
    reset happened in between, every pick is what it was, and so is every
    provider and rule set that had been read; nothing was published. Otherwise
    the version moved once for each refresh that saw a change, and a host
    watching all along was told every version on the way, in order. The epoch
    moved once for each reset, and a call to watch or to stop that is ahead of
    all before it in the order of the calls, with only older calls to watch
    after it, decides whether the host is told, however the calls overtook
    each other on their goroutines. *)
Theorem route_version_identifies rt ops :
  in_uint64 (rt_version rt) → Z.of_nat (length ops) < 2 ^ 64 →
  let '(rt', published) := route_run rt ops in
  (rt_version rt' = rt_version rt → same_route rt rt' ∧ published = []) ∧
  rt_version rt' = (rt_version rt + moves rt ops) mod 2 ^ 64 ∧
  (rt_watched rt = true → Forall (λ op, is_refresh op = true) ops →
    RouteVersion <$> published = (λ i, (rt_version rt + i) mod 2 ^ 64) <$> seqZ 1 (moves rt ops)) ∧
  (in_uint64 (rt_epoch rt) → rt_epoch rt' = (rt_epoch rt + resets ops) mod 2 ^ 64) ∧
  (∀ pre op post s, ops = pre ++ op :: post → seq_of op = Some s → rt_watchSeq rt <= s →
    Forall (λ op, ∀ seq, seq_of op = Some seq → seq <= s) pre →
    Forall (λ op, match op with Refresh _ _ => True | Watch _ seq => seq < s | StopWatch _ => False end) post →
    rt_watched rt' = match op with Watch watch _ => watch | _ => false end).
Proof.
  intros Hv Hlen. pose proof (run_version ops rt Hv) as Hr. pose proof (moves_bounds ops rt) as Hb.
  pose proof (unmoved_same ops rt) as Hu. pose proof (watched_run ops rt Hv) as Hw. pose proof (run_epoch ops rt) as He.
  pose proof (λ pre op post s, watch_latest rt pre op post s) as Hl.
  destruct (route_run rt ops) as [rt' published] eqn:Erun. cbn [fst snd] in *. split_and!; [|done|done|done|].
  - intros E. apply Hu. rewrite Hr in E. unfold in_uint64 in Hv.
    destruct (decide (rt_version rt + moves rt ops < 2 ^ 64)) as [Hlt|Hge].
    + rewrite Z.mod_small in E by lia. lia.
    + rewrite <- (Z.mod_add _ (-1)), Z.mod_small in E by lia. lia.
  - intros pre op post s -> Hop Hs Hpre Hpost. specialize (Hl pre op post s Hop Hs Hpre Hpost). by rewrite Erun in Hl.
Qed.

(** ** Checking routes *)

Record RouteHit := { rh_Host : string; rh_Proxy : string; rh_Exit : string }.

(** mihomo: the groups' [Unwrap], [ResolveRoute], the metadata of a host, and
    how a proxy is named as an exit. *)
Class Exits `{Mihomo} := {
  px_Unwrap : Proxy → Metadata → option Proxy;
  px_exit_name : Proxy → string;
  px_lookup : string → option Proxy;
  probe_metadata : string → option Metadata;
  resolve_route : Metadata → option Proxy;
  no_metadata : Metadata;
}.

Section exits.
Context `{Exits}.

(** [exitThrough]: groups nest without end in no config that loads; [fuel] is
    how deep they are followed here. *)
Fixpoint exitThrough (fuel : nat) (proxy : option Proxy) (metadata : Metadata) : option string :=
  match proxy with
  | None => Some EmptyString
  | Some p =>
      if px_Type p =? ty_LoadBalance then Some (px_exit_name p)
      else match px_Unwrap p metadata with
           | None => Some (px_exit_name p)
           | Some next => match fuel with O => None | S fuel => exitThrough fuel (Some next) metadata end
           end
  end.

Definition resolveExit (fuel : nat) (host proxyName : string) : option string :=
  let metadata := probe_metadata host in
  if negb (empty proxyName) then exitThrough fuel (px_lookup proxyName) (default no_metadata metadata)
  else match metadata with
       | None => Some EmptyString
       | Some metadata => match resolve_route metadata with
                          | None => Some EmptyString
                          | Some proxy => exitThrough fuel (Some proxy) metadata
                          end
       end.

(** [exitOfChains]: from the outermost group inward to the first load
    balancer, else the hop that dialed out. *)
Definition exitOfChains (proxies : gmap string Proxy) (chains : list string) : string :=
  match chains with
  | [] => EmptyString
  | leaf :: groups =>
      let balancer name := match proxies !! name with Some p => if px_Type p =? ty_LoadBalance then Some p else None | None => None end in
      match omap balancer (rev groups) with
      | p :: _ => px_exit_name p
      | [] => match proxies !! leaf with Some p => px_exit_name p | None => EmptyString end
      end
  end.
End exits.

Section check.
Context (resolve : string → string → string).

(** The hits of one route, with the exits resolved so far by host and proxy. *)
Fixpoint route_held (hits : list RouteHit) (exits : gmap (string * string) string) : bool * gmap (string * string) string :=
  match hits with
  | [] => (true, exits)
  | hit :: hits =>
      let key := (rh_Host hit, rh_Proxy hit) in
      let '(exit, exits) := match exits !! key with
                            | Some exit => (exit, exits)
                            | None => let exit := resolve (rh_Host hit) (rh_Proxy hit) in (exit, <[key := exit]> exits)
                            end in
      if negb (eqs exit (rh_Exit hit)) then (false, exits) else route_held hits exits
  end.

Fixpoint routes_held (routes : list (list RouteHit)) (exits : gmap (string * string) string) : list bool :=
  match routes with
  | [] => []
  | route :: routes =>
      let '(held, exits) := route_held route exits in
      ((0 <? length route)%nat && held) :: routes_held routes exits
  end.

(** [handleCheckRoutes]: the stamp is read before any route resolves. *)
Definition handleCheckRoutes (rt : routeTracker) (routes : list (list RouteHit)) : RouteState * list bool :=
  (routeStateLocked rt, routes_held routes ∅).

Definition exits_ok (exits : gmap (string * string) string) : Prop :=
  ∀ host proxy exit, exits !! (host, proxy) = Some exit → exit = resolve host proxy.

Lemma route_held_spec hits : ∀ exits, exits_ok exits →
  (route_held hits exits).1 = forallb (λ h, eqs (resolve (rh_Host h) (rh_Proxy h)) (rh_Exit h)) hits ∧
  exits_ok (route_held hits exits).2.
Proof using Type.
  induction hits as [|h hits IH]; intros exits Hok; cbn [route_held forallb]; [done|].
  assert (∃ exits', (match exits !! (rh_Host h, rh_Proxy h) with
    | Some exit => (exit, exits)
    | None => (resolve (rh_Host h) (rh_Proxy h), <[(rh_Host h, rh_Proxy h) := resolve (rh_Host h) (rh_Proxy h)]> exits) end)
    = (resolve (rh_Host h) (rh_Proxy h), exits') ∧ exits_ok exits') as (exits' & -> & Hok').
  { destruct (exits !! (rh_Host h, rh_Proxy h)) as [exit|] eqn:E.
    - exists exits. by rewrite (Hok _ _ _ E).
    - eexists. split; [done|]. intros host proxy exit [[[= <- <-] <-]|[_ Hl]]%lookup_insert_Some; [done | by apply Hok]. }
  destruct (eqs _ _); cbn [negb andb]; [by apply IH | done].
Qed.

(** Resolving once per host and proxy changes no answer: a route is held when
    it has hits and each of them still leaves where it left. *)
Lemma routes_held_spec routes : ∀ exits, exits_ok exits →
  routes_held routes exits =
    (λ route, (0 <? length route)%nat && forallb (λ h, eqs (resolve (rh_Host h) (rh_Proxy h)) (rh_Exit h)) route) <$> routes.
Proof using Type.
  induction routes as [|route routes IH]; intros exits Hok; cbn; [done|].
  destruct (route_held_spec route exits Hok) as [H1 H2]. destruct (route_held route exits) as [held exits']. cbn in *.
  by rewrite H1, IH.
Qed.
End check.

(** ** A run *)

Definition reading_of (pick : string) : reading :=
  {| rd_picks := {[ "Main"%string := pick ]}; rd_versions := ∅; rd_ruleSets := ∅ |}.

Definition sample_route_ops : list route_op :=
  [Refresh routeUnchanged (reading_of "a"); Refresh routeUnchanged (reading_of "a"); Refresh routeReset (reading_of "a")].

Definition watched_route : routeTracker := {| currentRoute with rt_watched := true |}.

Lemma route_version_identifies_witness :
  rt_version (route_run watched_route sample_route_ops).1 = moves watched_route sample_route_ops mod 2 ^ 64 ∧
  RouteVersion <$> (route_run watched_route sample_route_ops).2 = [1; 2] ∧
  rt_epoch (route_run watched_route sample_route_ops).1 = 1.
Proof.
  pose proof (route_version_identifies watched_route sample_route_ops ltac:(split; vm_compute; congruence) ltac:(vm_compute; reflexivity)) as H.
  destruct (route_run watched_route sample_route_ops) as [rt' published]. destruct H as (_ & Hv & Hp & He & _).
  split; [exact Hv|]. cbn [fst snd]. split; [rewrite Hp; [vm_compute; reflexivity | reflexivity | repeat constructor]|].
  rewrite He; [vm_compute; reflexivity | split; vm_compute; congruence].
Defined.
