(* ===== verification/Float64.v ===== *)
(** * float64 of Go, beyond its arithmetic

    Conversion to integers, [math.Min] and [math.Max], [time.Duration.Seconds]
    and sorting, on the floats of the Standard Library ([SpecFloat]); and how
    large what the operations give can be. *)

From Stdlib Require Import SpecFloat.
From S2P Require Import Prelude Budget.

(** A decimal constant of the source, [n/10^k]. *)
Definition decimal (n : Z) (scale : Z) : float64 := f64_div (f64 n) (f64 scale).

(** [math.Max] and [math.Min]: a NaN is contagious, and -0 is less than 0. *)
Definition is_nan (f : float64) : bool := match f with S754_nan => true | _ => false end.
Definition is_inf (s : bool) (f : float64) : bool := match f with S754_infinity s' => Bool.eqb s s' | _ => false end.
Definition signbit (f : float64) : bool := match f with S754_zero s | S754_infinity s | S754_finite s _ _ => s | S754_nan => false end.

Definition math_Max (a b : float64) : float64 :=
  if is_inf false a || is_inf false b then S754_infinity false
  else if is_nan a || is_nan b then S754_nan
  else if SFeqb a (f64 0) && SFeqb a b then (if signbit a then b else a)
  else if SFltb b a then a else b.

Definition math_Min (a b : float64) : float64 :=
  if is_inf true a || is_inf true b then S754_infinity true
  else if is_nan a || is_nan b then S754_nan
  else if SFeqb a (f64 0) && SFeqb a b then (if signbit a then a else b)
  else if SFltb a b then a else b.

(** [time.Duration.Seconds]. *)
Definition Seconds (d : duration) : float64 := f64_add (f64 (Z.quot d Second)) (f64_div (f64 (Z.rem d Second)) (f64 Second)).

(** What is left of [m * 2^e] without its fraction. *)
Definition truncated (m : positive) (e : Z) : Z := Z.shiftl (Zpos m) e.

Section conversion.
(** What the processor makes of a float no int64 is; Go leaves it open. *)
Context (unrepresentable : float64 → Z).

Definition int64_of (f : float64) : Z :=
  match f with
  | S754_zero _ => 0
  | S754_finite s m e =>
      let v := if s then - truncated m e else truncated m e in
      if (min64 <=? v) && (v <=? max64) then v else unrepresentable f
  | _ => unrepresentable f
  end.
End conversion.

(** [slices.Sort] of floats that are numbers. *)
Fixpoint insert_float (f : float64) (l : list float64) : list float64 :=
  match l with [] => [f] | g :: l' => if SFleb f g then f :: l else g :: insert_float f l' end.
Definition sort_floats : list float64 → list float64 := foldr insert_float [].

(** ** How large a result can be *)

(** [f] is not negative and less than [2^B]. *)
Definition under (B : Z) (f : float64) : Prop :=
  match f with
  | S754_zero false => True
  | S754_finite false m e => ∃ k, 0 ≤ k ∧ Zpos m < 2 ^ k ∧ k + e ≤ B
  | _ => False
  end.

Lemma shr_1_half mrs : 0 ≤ shr_m mrs → shr_m (shr_1 mrs) = shr_m mrs / 2.
Proof.
  destruct mrs as [m r s]. cbn. intros Hm. destruct m as [|p|p]; [done | | lia]. destruct p as [p|p|]; cbn [shr_m]; [| | done].
  - rewrite Pos2Z.inj_xI. rewrite (Z.mul_comm 2), Z.div_add_l by lia. by rewrite (Z.div_small 1 2), Z.add_0_r by lia.
  - rewrite Pos2Z.inj_xO, (Z.mul_comm 2). by rewrite Z.div_mul.
Qed.

Lemma shr_iter p : ∀ mrs, 0 ≤ shr_m mrs → shr_m (SpecFloat.iter_pos shr_1 p mrs) = shr_m mrs / 2 ^ Zpos p.
Proof.
  assert (Hpos : ∀ m q, 0 ≤ m → 0 ≤ m / 2 ^ Zpos q) by (intros; apply Z.div_pos; [done | apply Z.pow_pos_nonneg; lia]).
  induction p as [p IH|p IH|]; intros mrs Hm; cbn [SpecFloat.iter_pos]; [| |by apply shr_1_half].
  - assert (H1 : 0 ≤ shr_m (shr_1 mrs)) by (rewrite shr_1_half by done; apply Z.div_pos; lia).
    rewrite !IH, shr_1_half; [| done | done | by rewrite IH; auto]. rewrite !Zdiv_Zdiv by (try apply Z.pow_nonneg; lia).
    replace (Zpos p~1) with (1 + Zpos p + Zpos p) by lia. rewrite !Z.pow_add_r by lia. rewrite Z.pow_1_r, ?Z.mul_assoc. done.
  - rewrite !IH; [| done | by rewrite IH; auto]. rewrite Zdiv_Zdiv by (try apply Z.pow_nonneg; lia).
    replace (Zpos p~0) with (Zpos p + Zpos p) by lia. by rewrite Z.pow_add_r by lia.
Qed.

Lemma shr_shape mrs e n : 0 ≤ shr_m mrs → shr_m (shr mrs e n).1 = shr_m mrs / 2 ^ Z.max 0 n ∧ (shr mrs e n).2 = e + Z.max 0 n.
Proof.
  intros Hm. assert (Hid : shr_m mrs = shr_m mrs / 2 ^ 0) by (by rewrite Z.pow_0_r, Z.div_1_r).
  unfold shr. destruct n as [|p|p]; cbn [fst snd].
  - rewrite Z.max_id. split; [done | lia].
  - rewrite Z.max_r by lia. split; [by apply shr_iter | done].
  - rewrite Z.max_l by lia. split; [done | lia].
Qed.

Lemma digits_pos m : Zpos (digits2_pos m) = Z.log2 (Zpos m) + 1.
Proof. induction m as [m IH|m IH|]; [| |done]; cbn [digits2_pos]; rewrite Pos2Z.inj_succ, IH.
  - rewrite Pos2Z.inj_xI, Z.log2_succ_double by lia. lia.
  - rewrite Pos2Z.inj_xO, Z.log2_double by lia. lia.
Qed.

Lemma digits_le m k : 0 ≤ k → 0 ≤ m < 2 ^ k → 0 ≤ Zdigits2 m ≤ k.
Proof.
  intros Hk Hm. destruct m as [|m|m]; cbn [Zdigits2]; [lia | | lia]. rewrite digits_pos. assert (H := Z.log2_lt_pow2 (Zpos m) k).
  assert (Z.log2 (Zpos m) < k) by (apply H; lia). assert (Hn := Z.log2_nonneg (Zpos m)). lia.
Qed.

Lemma div_pow_lt m k n : 0 ≤ k → 0 ≤ n → 0 ≤ m < 2 ^ k → 0 ≤ m / 2 ^ n < 2 ^ Z.max 0 (k - n).
Proof.
  intros Hk Hn Hm. assert (Hp : 0 < 2 ^ n) by (apply Z.pow_pos_nonneg; lia). split; [apply Z.div_pos; lia|].
  apply Z.div_lt_upper_bound; [done|]. rewrite <- Z.pow_add_r by lia. eapply Z.lt_le_trans; [apply Hm|]. apply Z.pow_le_mono_r; lia.
Qed.

(** One rounding of [m * 2^e], when it is less than [2^B]. *)
Lemma shr_fexp_under m e l k B : 0 ≤ k → 0 ≤ m < 2 ^ k → k + e ≤ B → -1074 ≤ B →
  let '(mrs, e') := shr_fexp 53 1024 m e l in ∃ k', 0 ≤ k' ∧ 0 ≤ shr_m mrs < 2 ^ k' ∧ k' + e' ≤ B.
Proof.
  intros Hk Hm Hke HB. unfold shr_fexp. set (n := fexp 53 1024 (Zdigits2 m + e) - e).
  assert (Hrec : shr_m (shr_record_of_loc m l) = m) by (by destruct l as [|[]]).
  assert (Hs := shr_shape (shr_record_of_loc m l) e n). rewrite Hrec in Hs. destruct (shr _ _ _) as [mrs e'].
  destruct Hs as [Hm' He']; [lia|]. cbn [fst snd] in Hm', He'. exists (Z.max 0 (k - Z.max 0 n)). rewrite Hm'.
  assert (Hd := digits_le m k Hk Hm). split; [lia|]. split; [apply div_pow_lt; lia|]. unfold fexp, emin in n. lia.
Qed.

Lemma round_under m l k : 0 ≤ k → 0 ≤ m < 2 ^ k → 0 ≤ round_nearest_even m l < 2 ^ (k + 1).
Proof.
  intros Hk Hm. assert (Hp : 2 ^ (k + 1) = 2 * 2 ^ k) by (rewrite Z.pow_add_r by lia; lia). rewrite Hp.
  destruct l as [|[]]; cbn; try destruct (Z.even m); lia.
Qed.

Lemma binary_round_aux_under m e l k B : 0 ≤ k → 0 ≤ m < 2 ^ k → k + e ≤ B → -1074 ≤ B ≤ 970 →
  under (B + 1) (binary_round_aux 53 1024 false m e l).
Proof.
  intros Hk Hm Hke HB. unfold binary_round_aux. assert (H1 := shr_fexp_under m e l k B Hk Hm Hke).
  destruct (shr_fexp _ _ m e l) as [mrs1 e1]. destruct H1 as (k1 & Hk1 & Hm1 & Hke1); [lia|].
  set (m2 := round_nearest_even _ _). assert (Hm2 : 0 ≤ m2 < 2 ^ (k1 + 1)) by (by apply round_under).
  assert (H3 := shr_fexp_under m2 e1 loc_Exact (k1 + 1) (B + 1)). destruct (shr_fexp _ _ m2 e1 _) as [mrs3 e3].
  destruct H3 as (k3 & Hk3 & Hm3 & Hke3); [lia | done | lia | lia |]. destruct (shr_m mrs3) as [|m3|m3]; [done | | lia].
  rewrite (proj2 (Z.leb_le e3 (1024 - 53))) by lia. cbn. exists k3. split_and!; [done | apply Hm3 | done].
Qed.

Lemma shl_align_shape mx ex ex' : ∃ d, 0 ≤ d ∧ Zpos (shl_align mx ex ex').1 = Zpos mx * 2 ^ d ∧ (shl_align mx ex ex').2 = ex - d ∧
  (ex' ≤ ex → d = ex - ex').
Proof.
  unfold shl_align. destruct (ex' - ex) as [|d|d] eqn:E; cbn [fst snd].
  1,2: exists 0; split_and!; lia.
  exists (Zpos d). split_and!; [lia | | lia | lia]. clear. induction d as [|d IH] using Pos.peano_ind; [cbn; lia|].
  rewrite Pos.iter_succ, Pos2Z.inj_xO, IH, Pos2Z.inj_succ, Z.pow_succ_r by lia. lia.
Qed.

Lemma f64_under z k : 0 ≤ z < 2 ^ k → 0 ≤ k ≤ 970 → under (k + 1) (f64 z).
Proof.
  intros Hz Hk. unfold f64, binary_normalize. destruct z as [|p|p]; [done | | lia]. unfold binary_round.
  destruct (shl_align_shape p 0 (fexp 53 1024 (Zpos (digits2_pos p) + 0))) as (d & Hd & Hm & He & _). destruct (shl_align _ _ _) as [mz ez].
  cbn [fst snd] in Hm, He. apply (binary_round_aux_under _ _ _ (k + d)); [lia | | lia | lia]. rewrite Hm. split; [lia|].
  rewrite Z.pow_add_r by lia. apply Z.mul_lt_mono_pos_r; [apply Z.pow_pos_nonneg; lia | lia].
Qed.

Lemma f64_mul_under a b A B : under A a → under B b → -1074 ≤ A + B ≤ 970 → under (A + B + 1) (f64_mul a b).
Proof.
  intros Ha Hb HAB. unfold f64_mul, SFmul. destruct a as [[]|[]| |[] ma ea], b as [[]|[]| |[] mb eb]; try done.
  destruct Ha as (ka & Hka & Hma & Ha), Hb as (kb & Hkb & Hmb & Hb). cbn [xorb].
  apply (binary_round_aux_under _ _ _ (ka + kb)); [lia | | lia | lia]. split; [lia|]. rewrite Pos2Z.inj_mul, Z.pow_add_r by lia.
  apply Z.mul_lt_mono_nonneg; lia.
Qed.

(** [f] is at least [2^L]. *)
Definition over (L : Z) (f : float64) : Prop :=
  match f with S754_finite false m e => ∃ j, 0 ≤ j ∧ 2 ^ j ≤ Zpos m ∧ L ≤ j + e | _ => False end.

Lemma f64_div_under a b B L : under B a → over L b → -1074 ≤ B - L ≤ 970 → under (B - L + 1) (f64_div a b).
Proof.
  intros Ha Hb HBL. unfold f64_div, SFdiv. destruct a as [[]|[]| |[] ma ea], b as [[]|[]| |[] mb eb]; try done.
  destruct Ha as (k & Hk & Hma & Ha), Hb as (j & Hj & Hmb & Hb). cbn [xorb]. unfold SFdiv_core_binary.
  set (e' := Z.min _ _). set (s := ea - eb - e').
  assert (Hs : 0 ≤ s) by lia. assert (Hm' : match s with 0 => Zpos ma | Zpos _ => Z.shiftl (Zpos ma) s | Zneg _ => 0 end = Zpos ma * 2 ^ s).
  { destruct s eqn:Es; [by rewrite Z.pow_0_r, Z.mul_1_r | by rewrite Z.shiftl_mul_pow2 by lia | lia]. }
  rewrite Hm'. destruct (Z.div_eucl _ _) as [q r] eqn:Eq. assert (Hq : q = Zpos ma * 2 ^ s / Zpos mb) by (unfold Z.div; by rewrite Eq).
  assert (Hda := digits_le (Zpos ma) k Hk (conj (Zle_0_pos _) Hma)).
  assert (Hdb : j + 1 ≤ Zdigits2 (Zpos mb)) by (cbn [Zdigits2]; rewrite digits_pos; assert (j ≤ Z.log2 (Zpos mb)) by (apply Z.log2_le_pow2; lia); lia).
  assert (He' : e' ≤ B - L) by (unfold e', fexp, emin; lia).
  apply (binary_round_aux_under _ _ _ (Z.max 0 (k + s - j))); [lia | | lia | lia]. rewrite Hq.
  assert (Hle : Zpos ma * 2 ^ s / Zpos mb ≤ Zpos ma * 2 ^ s / 2 ^ j).
  { apply Z.div_le_compat_l; [|split; [apply Z.pow_pos_nonneg; lia | done]]. apply Z.mul_nonneg_nonneg; [lia | apply Z.pow_nonneg; lia]. }
  split; [apply Z.div_pos; [apply Z.mul_nonneg_nonneg; [lia | apply Z.pow_nonneg; lia] | lia]|]. eapply Z.le_lt_trans; [exact Hle|].
  apply div_pow_lt; [lia | lia |]. split; [apply Z.mul_nonneg_nonneg; [lia | apply Z.pow_nonneg; lia]|].
  rewrite Z.pow_add_r by lia. apply Z.mul_lt_mono_pos_r; [apply Z.pow_pos_nonneg; lia | done].
Qed.

Lemma round_exact m e : 53 ≤ Zdigits2 (Zpos m) ≤ 53 → -1074 ≤ e ≤ 971 →
  binary_round_aux 53 1024 false (Zpos m) e loc_Exact = S754_finite false m e.
Proof.
  intros Hd He. assert (Hshr : shr_fexp 53 1024 (Zpos m) e loc_Exact = ({| shr_m := Zpos m; shr_r := false; shr_s := false |}, e)).
  { unfold shr_fexp, shr. replace (fexp 53 1024 (Zdigits2 (Zpos m) + e) - e) with 0; [done|]. unfold fexp, emin. lia. }
  unfold binary_round_aux. rewrite Hshr. cbn [shr_m loc_of_shr_record round_nearest_even]. rewrite Hshr. cbn [shr_m].
  by rewrite (proj2 (Z.leb_le e (1024 - 53))) by lia.
Qed.

Lemma f64_over z L : 0 ≤ L → 2 ^ L ≤ z < 2 ^ 53 → over L (f64 z).
Proof.
  intros HL Hz. assert (Hpow : 0 < 2 ^ L) by (apply Z.pow_pos_nonneg; lia). unfold f64, binary_normalize.
  destruct z as [|p|p]; [lia | | lia]. unfold binary_round.
  assert (Hd := digits_pos p). assert (Hlog : L ≤ Z.log2 (Zpos p)) by (apply Z.log2_le_pow2; lia).
  assert (Hlog2 : Z.log2 (Zpos p) < 53) by (apply Z.log2_lt_pow2; lia).
  destruct (shl_align_shape p 0 (fexp 53 1024 (Zpos (digits2_pos p) + 0))) as (d & Hd0 & Hm & He & Hdd). destruct (shl_align _ _ _) as [mz ez].
  cbn [fst snd] in Hm, He. assert (Hdv : d = 53 - Zpos (digits2_pos p)) by (unfold fexp, emin in Hdd; lia).
  assert (Hdz : Zdigits2 (Zpos mz) = 53).
  { cbn [Zdigits2]. rewrite digits_pos, Hm, Z.log2_mul_pow2 by lia. lia. }
  rewrite round_exact by lia. cbn. exists 52. split_and!; [lia | | lia].
  assert (Hl : Z.log2 (Zpos mz) = 52) by (cbn [Zdigits2] in Hdz; rewrite digits_pos in Hdz; lia).
  assert (Hspec := Z.log2_spec (Zpos mz)). rewrite Hl in Hspec. lia.
Qed.

Lemma truncated_under m e k B : 0 ≤ k → Zpos m < 2 ^ k → k + e ≤ B → 0 ≤ B → 0 ≤ truncated m e < 2 ^ B.
Proof.
  intros Hk Hm Hke HB. unfold truncated. destruct (Z.le_ge_cases 0 e) as [He|He].
  - rewrite Z.shiftl_mul_pow2 by done. assert (Hp : 0 < 2 ^ e) by (apply Z.pow_pos_nonneg; lia). split; [lia|].
    eapply Z.lt_le_trans; [by apply Z.mul_lt_mono_pos_r; [|exact Hm]|]. rewrite <- Z.pow_add_r by lia. apply Z.pow_le_mono_r; lia.
  - rewrite Z.shiftl_div_pow2 by done. assert (Hdiv := div_pow_lt (Zpos m) k (- e) Hk). destruct Hdiv as [H0 H1]; [lia | lia |].
    split; [done|]. eapply Z.lt_le_trans; [exact H1|]. apply Z.pow_le_mono_r; lia.
Qed.

(** Such a float is an int64. *)
Lemma int64_of_under unrepresentable B f : under B f → 0 ≤ B ≤ 63 → 0 ≤ int64_of unrepresentable f < 2 ^ B.
Proof.
  intros Hf HB. destruct f as [[]|[]| |[] m e]; try done; cbn [int64_of].
  - split; [lia | apply Z.pow_pos_nonneg; lia].
  - destruct Hf as (k & Hk & Hm & Hke). assert (Ht := truncated_under m e k B Hk Hm Hke (proj1 HB)).
    assert (Hmax : 2 ^ B ≤ 2 ^ 63) by (apply Z.pow_le_mono_r; lia).
    rewrite (proj2 (Z.leb_le min64 _)), (proj2 (Z.leb_le _ max64)); [done | |]; unfold min64, max64 in *; lia.
Qed.
