(* ===== verification/SpeedTest.v ===== *)
(** * Speed tests: core/speed_test_run.go

    The manager runs one test at a time and keeps one more waiting; a new
    request replaces the one that waits and cancels the last. Requests that
    were cancelled are remembered for a while, so that a start that arrives
    after its cancellation does nothing. Every operation of the manager is a
    locked section; the worker's steps and the clock come between them. What
    a test measures is the outcome of its work. *)

From Stdlib Require Import SpecFloat.
From S2P Require Import Prelude GoText Budget RouteWatch Goroutines.

Definition speedTestDeadline : duration := 150 * Second.
Definition speedTestMaxStreams : Z := 16.
Definition speedTestMaxTombstones : nat := 128.
Definition speedTestDefaultBytes : Z := 100 * 1024 * 1024.
Definition speedTestMaxBytes : Z := 1024 * 1024 * 1024.

Record SpeedTestServer := {
  sv_ID : string; sv_Name : string; sv_Host : string; sv_Country : string; sv_Sponsor : string; sv_LatencyMs : option float64
}.

Record SpeedTestParams := {
  sp_RequestID : string;
  sp_BackendID : string;
  sp_DurationSeconds : Z;
  sp_Streams : Z;
  sp_Protocol : string;
  sp_Mode : string;
  sp_ByteLimit : Z;
  sp_ProxyName : string;
  sp_Direct : bool;
  sp_UseSystemDNS : bool;
  sp_Server : option SpeedTestServer;
}.

Record SpeedTestLatencySummary := { sl_MedianMs : float64; sl_JitterMs : option float64; sl_Count : Z }.
Record SpeedTestSample := { ss_ElapsedMs : Z; ss_Mbps : float64 }.

Record SpeedTestSnapshot := {
  sn_RequestID : string;
  sn_BackendID : string;
  sn_Phase : string;
  sn_Stage : string;
  sn_DownloadMbps : option float64;
  sn_UploadMbps : option float64;
  sn_LiveMbps : option float64;
  sn_Latency : option SpeedTestLatencySummary;
  sn_DownloadLatency : option SpeedTestLatencySummary;
  sn_UploadLatency : option SpeedTestLatencySummary;
  sn_RPM : option Z;
  sn_TransferredBytes : Z;
  sn_ByteLimit : Z;
  sn_ElapsedMs : Z;
  sn_Progress : float64;
  sn_ViaVPN : bool;
  sn_ProxyName : string;
  sn_Chains : list string;
  sn_Server : option SpeedTestServer;
  sn_Protocol : string;
  sn_ProtocolFallback : bool;
  sn_Limited : bool;
  sn_Errors : list string;
  sn_Failure : string;
  sn_DownloadSamples : list SpeedTestSample;
  sn_UploadSamples : list SpeedTestSample;
  sn_CoreEpoch : Z;
  sn_RouteVersion : Z;
  sn_Hits : list RouteHit;
}.

(** ** What may be asked for *)

Inductive startError :=
  | InvalidRequest | UnknownBackend | InvalidProtocol | InvalidMode | InvalidServerField | InvalidServerLatency
  | UnknownProxy (name : string) | RejectedProxy.

Section params.
(** [lookupProxy] of mihomo: whether the name is part of the applied config,
    and whether it rejects. *)
Context `{Unicode} (proxies : gmap string bool).

Definition validSpeedTestID (id : string) : bool := negb (empty (TrimSpace id)) && (slen id <=? 128).

Definition finite (f : float64) : bool := match f with S754_infinity _ | S754_nan => false | _ => true end.

Definition validateSpeedTestServer (server : SpeedTestServer) : option startError :=
  if existsb (λ value, 512 <? slen value) [sv_ID server; sv_Name server; sv_Host server; sv_Country server; sv_Sponsor server]
  then Some InvalidServerField
  else match sv_LatencyMs server with
       | Some ms => if negb (finite ms) || SFltb ms (f64 0) then Some InvalidServerLatency else None
       | None => None
       end.

Definition validateSpeedTestProxy (name : string) : option startError :=
  if empty name then None
  else match proxies !! name with
       | None => Some (UnknownProxy name)
       | Some true => Some RejectedProxy
       | Some false => None
       end.

Definition default_positive (n default : Z) : Z := if n <=? 0 then default else n.

Definition normalizeSpeedTestParams (p : SpeedTestParams) : result startError SpeedTestParams :=
  if negb (validSpeedTestID (sp_RequestID p)) || (1024 <? slen (sp_ProxyName p)) then Err InvalidRequest
  else
    let p := {| p with sp_BackendID := or_string (sp_BackendID p) "cloudflare" |} in
    if negb (mem_string (sp_BackendID p) ["cloudflare"; "apple"; "speedtest"; "librespeed"]) then Err UnknownBackend
    else
      let p := {| p with sp_Protocol := or_string (sp_Protocol p) "h2" |} in
      if negb (mem_string (sp_Protocol p) ["h1"; "h2"; "h3"]) then Err InvalidProtocol
      else
        let p := {| p with sp_Mode := or_string (sp_Mode p) "complete" |} in
        if negb (mem_string (sp_Mode p) ["complete"; "latencyOnly"]) then Err InvalidMode
        else
          let p := {| p with sp_DurationSeconds := Z.min (default_positive (sp_DurationSeconds p) 10) 30;
                             sp_Streams := Z.min (default_positive (sp_Streams p) 8) speedTestMaxStreams;
                             sp_ByteLimit := Z.min (default_positive (sp_ByteLimit p) speedTestDefaultBytes) speedTestMaxBytes;
                             sp_UseSystemDNS := sp_Direct p && sp_UseSystemDNS p |} in
          match sp_Server p ≫= validateSpeedTestServer with
          | Some e => Err e
          | None => match validateSpeedTestProxy (sp_ProxyName p) with Some e => Err e | None => Ok p end
          end.
End params.

(** ** One run *)

Inductive ctxError := Canceled | DeadlineExceeded.
#[export] Instance ctxError_eq : EqDecision ctxError. Proof. solve_decision. Defined.

(** How the work of a run ends, when its context did not end it. *)
Inductive runError := CtxError (e : ctxError) | ErrRejected | ErrPanic | ErrOther.

Record speedTestRun := {
  ru_params : SpeedTestParams;
  ru_ctx : option ctxError;
  ru_completed : bool;
  ru_started : time;
  ru_state : SpeedTestSnapshot;
}.

Definition newSpeedTestRun (params : SpeedTestParams) (now : time) (epoch version : Z) : speedTestRun :=
  {| ru_params := params; ru_ctx := None; ru_completed := false; ru_started := now;
     ru_state := {| sn_RequestID := sp_RequestID params; sn_BackendID := sp_BackendID params; sn_Phase := "running"; sn_Stage := "warmup";
       sn_DownloadMbps := None; sn_UploadMbps := None; sn_LiveMbps := None; sn_Latency := None; sn_DownloadLatency := None;
       sn_UploadLatency := None; sn_RPM := None; sn_TransferredBytes := 0; sn_ByteLimit := sp_ByteLimit params; sn_ElapsedMs := 0;
       sn_Progress := f64 0; sn_ViaVPN := negb (sp_Direct params); sn_ProxyName := sp_ProxyName params; sn_Chains := [];
       sn_Server := None; sn_Protocol := "h1"; sn_ProtocolFallback := false; sn_Limited := false; sn_Errors := []; sn_Failure := "";
       sn_DownloadSamples := []; sn_UploadSamples := []; sn_CoreEpoch := epoch; sn_RouteVersion := version; sn_Hits := [] |} |}.

(** The context's own [cancel]: the first to end it names the error. *)
Definition end_ctx (r : speedTestRun) (e : ctxError) : speedTestRun :=
  {| r with ru_ctx := match ru_ctx r with Some e => Some e | None => Some e end |}.

Definition update (r : speedTestRun) (f : SpeedTestSnapshot → SpeedTestSnapshot) : speedTestRun :=
  if eqs (sn_Phase (ru_state r)) "running" then {| r with ru_state := f (ru_state r) |} else r.

Definition setStage (r : speedTestRun) (stage : string) (progress : float64) : speedTestRun :=
  update r (λ s, {| s with sn_Stage := stage; sn_Progress := progress; sn_LiveMbps := None |}).

Definition stageError (r : speedTestRun) (stage : string) : speedTestRun :=
  update r (λ s, if mem_string stage (sn_Errors s) then s else {| s with sn_Errors := sn_Errors s ++ [stage] |}).

Definition limited (r : speedTestRun) : speedTestRun := update r (λ s, {| s with sn_Limited := true |}).

(** What the clock, the budget and the transport say of a run. *)
Record reading := { rg_now : time; rg_spent : Z; rg_evidence : option (list string * list RouteHit) }.

Definition Milliseconds (d : duration) : Z := Z.quot d Millisecond.

Definition measured (s : SpeedTestSnapshot) (started : time) (g : reading) : SpeedTestSnapshot :=
  let s := {| s with sn_ElapsedMs := Milliseconds (time_sub (rg_now g) started); sn_TransferredBytes := rg_spent g |} in
  match rg_evidence g with Some (chains, hits) => {| s with sn_Chains := chains; sn_Hits := hits |} | None => s end.

Definition outcome (err : option runError) (s : SpeedTestSnapshot) : SpeedTestSnapshot :=
  match err with
  | Some (CtxError Canceled) => {| s with sn_Phase := "cancelled" |}
  | Some e =>
      {| s with sn_Phase := "failed";
                sn_Failure := match e with CtxError _ => "timeout" | ErrRejected => "rejected" | ErrPanic => "internal_error" | ErrOther => "unavailable" end |}
  | None =>
      match sn_Latency s, sn_DownloadMbps s, sn_UploadMbps s with
      | None, None, None => {| s with sn_Phase := "failed"; sn_Failure := "unavailable" |}
      | _, _, _ => {| s with sn_Phase := "done"; sn_Progress := f64 1 |}
      end
  end.

Definition complete (r : speedTestRun) (err : option runError) (g : reading) : speedTestRun :=
  if ru_completed r then r
  else {| r with ru_completed := true;
                 ru_state := outcome err {| (measured (ru_state r) (ru_started r) g) with sn_LiveMbps := None |} |}.

Definition snapshot (r : speedTestRun) (g : reading) : SpeedTestSnapshot :=
  if eqs (sn_Phase (ru_state r)) "running" then measured (ru_state r) (ru_started r) g else ru_state r.

(** ** The manager *)

Record speedTestTombstone := { tb_id : string; tb_at : time }.

(** A discovery of servers, and whether it was cancelled. *)
Record speedTestDiscovery := { di_id : string; di_cancelled : bool }.

(** Runs and discoveries are pointers into [sm_runs] and [sm_discoveries]. *)
Record speedTestManager := {
  sm_latest : option nat;
  sm_pending : option nat;
  sm_running : option nat;
  sm_worker : bool;
  sm_discovery : option nat;
  sm_cancelled : list speedTestTombstone;
  sm_runs : list speedTestRun;
  sm_discoveries : list speedTestDiscovery;
}.

Definition newManager : speedTestManager :=
  {| sm_latest := None; sm_pending := None; sm_running := None; sm_worker := false; sm_discovery := None; sm_cancelled := [];
     sm_runs := []; sm_discoveries := [] |}.

Definition on_run (f : speedTestRun → speedTestRun) (i : nat) (m : speedTestManager) : speedTestManager :=
  {| m with sm_runs := alter f i (sm_runs m) |}.

Definition on_each (f : speedTestRun → speedTestRun) (o : option nat) (m : speedTestManager) : speedTestManager :=
  match o with Some i => on_run f i m | None => m end.

Definition cancel_run (r : speedTestRun) : speedTestRun := end_ctx r Canceled.

Definition cancel_discovery (m : speedTestManager) : speedTestManager :=
  match sm_discovery m with
  | Some i => {| m with sm_discoveries := alter (λ d, {| d with di_cancelled := true |}) i (sm_discoveries m) |}
  | None => m
  end.

(** [cancelledLocked]: the tombstones that are left, and whether [id] has one. *)
Definition live (now : time) (tombs : list speedTestTombstone) : list speedTestTombstone :=
  filter (λ t, before (tb_at t) (time_add now (- (2 * speedTestDeadline))) = false) tombs.
Definition has_tomb (id : string) (tombs : list speedTestTombstone) : bool := existsb (λ t, eqs (tb_id t) id) tombs.

Definition rememberCancelLocked (id : string) (now : time) (m : speedTestManager) : speedTestManager :=
  let tombs := live now (sm_cancelled m) in
  {| m with sm_cancelled :=
       if has_tomb id tombs then tombs
       else (if (length tombs =? speedTestMaxTombstones)%nat then drop 1 tombs else tombs) ++ [{| tb_id := id; tb_at := now |}] |}.

Definition run_id (m : speedTestManager) (o : option nat) : option string := i ← o; r ← sm_runs m !! i; Some (sp_RequestID (ru_params r)).
Definition discovery_id (m : speedTestManager) : option string := i ← sm_discovery m; d ← sm_discoveries m !! i; Some (di_id d).

Definition remember_run (o : option nat) (now : time) (m : speedTestManager) : speedTestManager :=
  match run_id m o with Some id => rememberCancelLocked id now m | None => m end.

(** The locked section of [start]: the answer, and whether a worker must be
    started. *)
Definition start_locked (params : SpeedTestParams) (g : reading) (epoch version : Z) (m : speedTestManager) : speedTestManager * bool * bool :=
  let now := rg_now g in
  let m := {| m with sm_cancelled := live now (sm_cancelled m) |} in
  if has_tomb (sp_RequestID params) (sm_cancelled m) then (m, false, false)
  else if bool_decide (run_id m (sm_latest m) = Some (sp_RequestID params)) then (m, true, false)
  else
    let m := remember_run (sm_latest m) now (on_each cancel_run (sm_latest m) m) in
    let m := on_each (λ r, complete r (Some (CtxError Canceled)) g) (sm_pending m) m in
    let m := cancel_discovery m in
    let run := length (sm_runs m) in
    let started := negb (sm_worker m) in
    ({| m with sm_runs := sm_runs m ++ [newSpeedTestRun params now epoch version]; sm_latest := Some run; sm_pending := Some run;
               sm_worker := true |}, true, started).

Definition get (id : string) (g : reading) (m : speedTestManager) : option SpeedTestSnapshot :=
  i ← sm_latest m; r ← sm_runs m !! i; if eqs (sp_RequestID (ru_params r)) id then Some (snapshot r g) else None.

Definition cancel `{Unicode} (id : string) (now : time) (m : speedTestManager) : speedTestManager * bool :=
  if negb (validSpeedTestID id) then (m, false)
  else
    let m := rememberCancelLocked id now m in
    let latest := bool_decide (run_id m (sm_latest m) = Some id) in
    let found := bool_decide (discovery_id m = Some id) in
    let m := if latest then on_each cancel_run (sm_latest m) m else m in
    (if found then cancel_discovery m else m, latest || found).

Definition stop (now : time) (m : speedTestManager) : speedTestManager :=
  let m := remember_run (sm_latest m) now (on_each cancel_run (sm_latest m) m) in
  let m := on_each cancel_run (sm_running m) m in
  match discovery_id m with Some id => rememberCancelLocked id now (cancel_discovery m) | None => m end.

(** [handleSpeedTestServers]: its section before the discovery, and after. *)
Definition begin_discovery (id : string) (now : time) (m : speedTestManager) : speedTestManager * option nat :=
  let m := {| m with sm_cancelled := live now (sm_cancelled m) |} in
  if has_tomb id (sm_cancelled m) then (m, None)
  else
    let m := cancel_discovery m in
    let d := length (sm_discoveries m) in
    ({| m with sm_discoveries := sm_discoveries m ++ [{| di_id := id; di_cancelled := false |}]; sm_discovery := Some d |}, Some d).

Definition end_discovery (d : nat) (m : speedTestManager) : speedTestManager :=
  if bool_decide (sm_discovery m = Some d) then {| m with sm_discovery := None |} else m.

(** ** The worker *)

(** Where a goroutine in [work] is: before its first lock; in [run], before it
    looks at its context; at work; before its second lock; gone. *)
Inductive worker_pc := AtTake | AtRun (run : nat) | AtWork (run : nat) | AtClear (run : nat) | Exited.

(** The deferred end of [run]: what ended it, the context first. *)
Definition finish (err : option runError) (g : reading) (r : speedTestRun) : speedTestRun :=
  let err := match ru_ctx r with Some e => Some (CtxError e) | None => err end in
  complete (cancel_run r) err g.

(** A step of the worker; [err] is how its work ends. *)
Definition work_step (m : speedTestManager) (pc : worker_pc) (err : option runError) (g : reading) : speedTestManager * worker_pc :=
  match pc with
  | AtTake =>
      match sm_pending m with
      | None => ({| m with sm_worker := false |}, Exited)
      | Some run => ({| m with sm_pending := None; sm_running := Some run |}, AtRun run)
      end
  | AtRun run =>
      match sm_runs m !! run ≫= ru_ctx with
      | Some _ => (on_run (finish None g) run m, AtClear run)
      | None => (m, AtWork run)
      end
  | AtWork run => (on_run (finish err g) run m, AtClear run)
  | AtClear run => ({| m with sm_running := None |}, AtTake)
  | Exited => (m, Exited)
  end.

(** ** Runs of it all *)

Record tests := { te_manager : speedTestManager; te_workers : gmap nat worker_pc }.

Inductive test_op :=
  | Start (params : SpeedTestParams) (epoch version : Z) (worker : nat)  (** [worker] names the goroutine it may start *)
  | Cancel (id : string)
  | Stop
  | BeginDiscovery (id : string)
  | EndDiscovery (d : nat)
  | Expire (run : nat)                                     (** the deadline of a run's context *)
  | Publish (run : nat) (f : SpeedTestSnapshot → SpeedTestSnapshot)  (** a measurement, by [update] *)
  | Work (worker : nat) (err : option runError).

Definition set_manager (t : tests) (m : speedTestManager) : tests := {| t with te_manager := m |}.

(** An operation, at the time of [g]. *)
Definition test_step `{Unicode} (t : tests) (op : test_op) (g : reading) : tests :=
  let m := te_manager t in
  match op with
  | Start params epoch version worker =>
      let '(m, _, spawned) := start_locked params g epoch version m in
      {| te_manager := m; te_workers := if spawned then <[worker := AtTake]> (te_workers t) else te_workers t |}
  | Cancel id => set_manager t (cancel id (rg_now g) m).1
  | Stop => set_manager t (stop (rg_now g) m)
  | BeginDiscovery id => set_manager t (begin_discovery id (rg_now g) m).1
  | EndDiscovery d => set_manager t (end_discovery d m)
  | Expire run => set_manager t (on_run (λ r, end_ctx r DeadlineExceeded) run m)
  | Publish run f => set_manager t (on_run (λ r, update r f) run m)
  | Work worker err =>
      match te_workers t !! worker with
      | Some pc => let '(m, pc) := work_step m pc err g in {| te_manager := m; te_workers := <[worker := pc]> (te_workers t) |}
      | None => t
      end
  end.

(** A goroutine that is started has a name of its own, and only a run at work
    publishes; nothing it publishes is the end of the run. *)
Definition legal_op (t : tests) (op : test_op) : Prop :=
  match op with
  | Start _ _ _ worker => te_workers t !! worker = None
  | Publish run f => ∀ s, sn_Phase s = "running"%string → sn_Phase (f s) = "running"%string
  | _ => True
  end.

Inductive tests_run `{Unicode} : tests → Prop :=
  | tests_new : tests_run {| te_manager := newManager; te_workers := ∅ |}
  | tests_next t op g : tests_run t → legal_op t op → tests_run (test_step t op g).
