(* ===== verification/SpeedTestFacts.v ===== *)
(** * What the manager of speed tests guarantees *)

From Stdlib Require Import SpecFloat.
From S2P Require Import Prelude GoText Budget RouteWatch Goroutines SpeedTest.

(** ** What may be asked for *)

Lemma default_positive_bounds n d top : 1 ≤ d ≤ top → 1 ≤ Z.min (default_positive n d) top ≤ top ∧
  Z.min (default_positive (Z.min (default_positive n d) top) d) top = Z.min (default_positive n d) top.
Proof.
  unfold default_positive. intros H. set (v := Z.min (if n <=? 0 then d else n) top).
  assert (Hv : 1 ≤ v ≤ top) by (unfold v; destruct (Z.leb_spec n 0); lia). split; [done|]. rewrite (proj2 (Z.leb_gt v 0)) by lia. lia.
Qed.

(** What is accepted is within the bounds, and accepted again as it is. *)
Theorem params_normalized `{Unicode} proxies p q : normalizeSpeedTestParams proxies p = Ok q →
  1 ≤ sp_DurationSeconds q ≤ 30 ∧ 1 ≤ sp_Streams q ≤ speedTestMaxStreams ∧ 1 ≤ sp_ByteLimit q ≤ speedTestMaxBytes ∧
  (sp_UseSystemDNS q = true → sp_Direct q = true) ∧ sp_RequestID q = sp_RequestID p ∧ normalizeSpeedTestParams proxies q = Ok q.
Proof.
  assert (H1 := default_positive_bounds (sp_DurationSeconds p) 10 30 ltac:(lia)).
  assert (H2 := default_positive_bounds (sp_Streams p) 8 speedTestMaxStreams ltac:(done)).
  assert (H3 := default_positive_bounds (sp_ByteLimit p) speedTestDefaultBytes speedTestMaxBytes ltac:(done)).
  destruct H1 as [B1 E1], H2 as [B2 E2], H3 as [B3 E3]. unfold normalizeSpeedTestParams at 1.
  destruct (_ || _) eqn:EID; [done|]. cbn [sp_BackendID sp_Protocol sp_Mode sp_Server sp_ProxyName].
  destruct (mem_string (or_string (sp_BackendID p) _) _) eqn:EB; [cbn [negb]|done].
  destruct (mem_string (or_string (sp_Protocol p) _) _) eqn:EP; [cbn [negb]|done].
  destruct (mem_string (or_string (sp_Mode p) _) _) eqn:EM; [cbn [negb]|done].
  destruct (sp_Server p ≫= _) eqn:ES; [done|]. destruct (validateSpeedTestProxy _ _) eqn:EX; [done|]. intros [= <-].
  split; [exact B1|]. split; [exact B2|]. split; [exact B3|]. split; [cbn; by destruct (sp_Direct p)|]. split; [done|].
  assert (Hor : ∀ s d, or_string (or_string s d) d = or_string s d) by (intros s x; unfold or_string; destruct s, x; done).
  unfold normalizeSpeedTestParams. cbn [sp_RequestID sp_BackendID sp_DurationSeconds sp_Streams sp_Protocol sp_Mode sp_ByteLimit sp_ProxyName sp_Direct
    sp_UseSystemDNS sp_Server]. rewrite EID, !Hor, EB, EP, EM, E1, E2, E3. cbn [negb]. rewrite ES, EX. by destruct (sp_Direct p).
Qed.

(** ** What becomes of a run *)

Definition running (r : speedTestRun) : Prop := sn_Phase (ru_state r) = "running"%string.

(** Changed without being completed. *)
Record goes_on (r r' : speedTestRun) : Prop := {
  go_params : ru_params r' = ru_params r;
  go_ctx : ru_ctx r ≠ None → ru_ctx r' ≠ None;
  go_completed : ru_completed r' = ru_completed r;
  go_state : ¬ running r → ru_state r' = ru_state r;
  go_running : running r → running r';
}.

Lemma goes_on_refl r : goes_on r r.
Proof. by split. Qed.

Lemma goes_on_trans r r1 r2 : goes_on r r1 → goes_on r1 r2 → goes_on r r2.
Proof.
  intros [] []. split; [congruence | auto | congruence | | auto].
  intros Hn. rewrite go_state1; [by apply go_state0|]. unfold running in *. by rewrite go_state0.
Qed.

Lemma cancel_goes_on r : goes_on r (cancel_run r).
Proof. split; try done. unfold cancel_run, end_ctx. cbn. by destruct (ru_ctx r). Qed.

Lemma end_ctx_goes_on r e : goes_on r (end_ctx r e).
Proof. split; try done. unfold end_ctx. cbn. by destruct (ru_ctx r). Qed.

Lemma update_goes_on r f : (∀ s, sn_Phase s = "running"%string → sn_Phase (f s) = "running"%string) → goes_on r (update r f).
Proof.
  intros Hf. unfold update. destruct (eqs _ _) eqn:E; [|apply goes_on_refl]. apply eqs_true in E.
  split; unfold running; cbn; auto. by intros Hn.
Qed.

Lemma cancel_ended r : ru_ctx (cancel_run r) ≠ None.
Proof. unfold cancel_run, end_ctx. cbn. by destruct (ru_ctx r). Qed.

(** ** What the operations of the manager touch *)

(** The same but for runs that go on, tombstones and discoveries. *)
Record same_jobs (m m' : speedTestManager) : Prop := {
  sj_latest : sm_latest m' = sm_latest m;
  sj_pending : sm_pending m' = sm_pending m;
  sj_running : sm_running m' = sm_running m;
  sj_worker : sm_worker m' = sm_worker m;
  sj_runs : Forall2 goes_on (sm_runs m) (sm_runs m');
}.

Lemma Forall2_goes_on_refl rs : Forall2 goes_on rs rs.
Proof. apply Forall_Forall2_diag, Forall_true, goes_on_refl. Qed.

Lemma Forall2_goes_on_trans rs rs1 rs2 : Forall2 goes_on rs rs1 → Forall2 goes_on rs1 rs2 → Forall2 goes_on rs rs2.
Proof.
  intros H. revert rs2. induction H as [|r r1 rs rs1 Hr _ IH]; intros rs2 H2; inversion H2; subst; constructor; [by eapply goes_on_trans | auto].
Qed.

Lemma same_jobs_refl m : same_jobs m m.
Proof. split; try done. apply Forall2_goes_on_refl. Qed.

Lemma same_jobs_trans m m1 m2 : same_jobs m m1 → same_jobs m1 m2 → same_jobs m m2.
Proof. intros [] []. split; try congruence. by eapply Forall2_goes_on_trans. Qed.

Lemma same_jobs_on_run f i m : (∀ r, goes_on r (f r)) → same_jobs m (on_run f i m).
Proof.
  intros Hf. split; try done. cbn. apply Forall2_lookup. intros j. rewrite list_lookup_alter. case_decide as Hd.
  - subst. destruct (sm_runs m !! j); constructor. apply Hf.
  - destruct (sm_runs m !! j); constructor. apply goes_on_refl.
Qed.

Lemma same_jobs_on_each f o m : (∀ r, goes_on r (f r)) → same_jobs m (on_each f o m).
Proof. intros Hf. destruct o; [by apply same_jobs_on_run | apply same_jobs_refl]. Qed.

Lemma same_jobs_tombs m tombs : same_jobs m {| m with sm_cancelled := tombs |}.
Proof. split; try done. apply Forall2_goes_on_refl. Qed.

Lemma same_jobs_remember id now m : same_jobs m (rememberCancelLocked id now m).
Proof. apply same_jobs_tombs. Qed.

Lemma same_jobs_remember_run o now m : same_jobs m (remember_run o now m).
Proof. unfold remember_run. destruct (run_id m o); [apply same_jobs_remember | apply same_jobs_refl]. Qed.

Lemma same_jobs_cancel_discovery m : same_jobs m (cancel_discovery m).
Proof. unfold cancel_discovery. destruct (sm_discovery m); [split; try done; apply Forall2_goes_on_refl | apply same_jobs_refl]. Qed.

Create HintDb jobs.
#[export] Hint Resolve same_jobs_refl same_jobs_on_each same_jobs_on_run same_jobs_tombs same_jobs_remember same_jobs_remember_run
  same_jobs_cancel_discovery cancel_goes_on end_ctx_goes_on : jobs.

Lemma same_jobs_cancel `{Unicode} id now m : same_jobs m (cancel id now m).1.
Proof.
  unfold cancel. destruct (negb _); [auto with jobs|]. cbn.
  eapply same_jobs_trans; [apply same_jobs_remember|]. set (m1 := rememberCancelLocked id now m).
  set (m2 := if bool_decide (run_id m1 (sm_latest m1) = Some id) then on_each cancel_run (sm_latest m1) m1 else m1). assert (Hs2 : same_jobs m1 m2).
  { unfold m2. case_bool_decide; [apply same_jobs_on_each, cancel_goes_on | apply same_jobs_refl]. }
  eapply same_jobs_trans; [exact Hs2|]. case_bool_decide; [apply same_jobs_cancel_discovery | apply same_jobs_refl].
Qed.

Lemma same_jobs_stop now m : same_jobs m (stop now m).
Proof.
  unfold stop. set (m1 := on_each cancel_run (sm_latest m) m). assert (Hs1 : same_jobs m m1) by (apply same_jobs_on_each, cancel_goes_on).
  set (m2 := remember_run (sm_latest m) now m1). assert (Hs2 : same_jobs m m2) by (eapply same_jobs_trans; [exact Hs1 | apply same_jobs_remember_run]).
  set (m3 := on_each cancel_run (sm_running m2) m2). assert (Hs3 : same_jobs m m3) by (eapply same_jobs_trans; [exact Hs2 | apply same_jobs_on_each, cancel_goes_on]).
  destruct (discovery_id m3); [|exact Hs3]. eapply same_jobs_trans; [exact Hs3|]. eapply same_jobs_trans; [apply same_jobs_cancel_discovery | auto with jobs].
Qed.

Lemma same_jobs_begin id now m : same_jobs m (begin_discovery id now m).1.
Proof.
  unfold begin_discovery. destruct (has_tomb _ _); cbn; [auto with jobs|].
  eapply same_jobs_trans; [apply (same_jobs_tombs m (live now (sm_cancelled m)))|].
  eapply same_jobs_trans; [apply same_jobs_cancel_discovery|]. split; try done. apply Forall2_goes_on_refl.
Qed.

Lemma same_jobs_end d m : same_jobs m (end_discovery d m).
Proof. unfold end_discovery. case_bool_decide; [split; try done; apply Forall2_goes_on_refl | apply same_jobs_refl]. Qed.

(** ** The invariant *)

Definition working (pc : worker_pc) : bool := match pc with Exited => false | _ => true end.

Definition in_hand (pc : worker_pc) : option nat := match pc with AtRun r | AtWork r => Some r | _ => None end.

(** What the manager says of the run a worker has. *)
Definition pc_ok (m : speedTestManager) (pc : worker_pc) : Prop :=
  match pc with
  | AtTake => sm_running m = None
  | AtRun r | AtWork r => sm_running m = Some r ∧ ∃ run, sm_runs m !! r = Some run ∧ ru_completed run = false
  | AtClear r => sm_running m = Some r
  | Exited => True
  end.

Record tests_ok (t : tests) : Prop := {
  to_worker : token_ok working (te_workers t) (sm_worker (te_manager t));
  to_idle : sm_worker (te_manager t) = false → sm_running (te_manager t) = None ∧ sm_pending (te_manager t) = None;
  to_pending : ∀ r, sm_pending (te_manager t) = Some r → sm_latest (te_manager t) = Some r ∧
    (∃ run, sm_runs (te_manager t) !! r = Some run ∧ ru_completed run = false) ∧
    ∀ w pc, te_workers t !! w = Some pc → in_hand pc ≠ Some r;
  to_hand : ∀ w pc, te_workers t !! w = Some pc → pc_ok (te_manager t) pc;
  to_unfinished : ∀ r run, sm_runs (te_manager t) !! r = Some run → ru_completed run = false →
    sm_pending (te_manager t) = Some r ∨ ∃ w pc, te_workers t !! w = Some pc ∧ in_hand pc = Some r;
  to_phase : ∀ r run, sm_runs (te_manager t) !! r = Some run → ru_completed run = false ↔ running run;
  to_latest : ∀ r run, sm_runs (te_manager t) !! r = Some run → sm_latest (te_manager t) ≠ Some r → ru_ctx run ≠ None;
  to_exists : ∀ r, sm_latest (te_manager t) = Some r → is_Some (sm_runs (te_manager t) !! r);
}.

Lemma goes_on_back rs rs' r run' : Forall2 goes_on rs rs' → rs' !! r = Some run' → ∃ run, rs !! r = Some run ∧ goes_on run run'.
Proof. intros Hf Hr. destruct (Forall2_lookup_r _ _ _ _ _ Hf Hr) as (run & ? & ?). by exists run. Qed.

Lemma goes_on_there rs rs' r run : Forall2 goes_on rs rs' → rs !! r = Some run → ∃ run', rs' !! r = Some run' ∧ goes_on run run'.
Proof. intros Hf Hr. destruct (Forall2_lookup_l _ _ _ _ _ Hf Hr) as (run' & ? & ?). by exists run'. Qed.

(** An operation that leaves the jobs alone keeps it. *)
Lemma tests_ok_same t m' : tests_ok t → same_jobs (te_manager t) m' → tests_ok (set_manager t m').
Proof.
  intros [Hw Hi Hp Hh Hu Hph Hl He] [E1 E2 E3 E4 Hruns]. split; cbn; rewrite ?E1, ?E2, ?E3, ?E4; try done.
  - intros r Hr. destruct (Hp r Hr) as (Hla & (run & Hrun & Hc) & Hno). split_and!; [done | | done].
    destruct (goes_on_there _ _ r run Hruns Hrun) as (run' & Hrun' & Hgo). exists run'. split; [done|]. by rewrite (go_completed _ _ Hgo).
  - intros w pc Hpc. specialize (Hh w pc Hpc). destruct pc as [|r|r|r|]; cbn in *; rewrite ?E3; try done;
      destruct Hh as [Hr (run & Hrun & Hc)]; (split; [done|]); destruct (goes_on_there _ _ r run Hruns Hrun) as (run' & Hrun' & Hgo);
      exists run'; by rewrite (go_completed _ _ Hgo).
  - intros r run' Hr Hc. destruct (goes_on_back _ _ r run' Hruns Hr) as (run & Hrun & Hgo). apply (Hu r run Hrun). by rewrite <- (go_completed _ _ Hgo).
  - intros r run' Hr. destruct (goes_on_back _ _ r run' Hruns Hr) as (run & Hrun & Hgo). rewrite (go_completed _ _ Hgo), (Hph r run Hrun).
    split; [apply (go_running _ _ Hgo)|]. intros Hr'. destruct (decide (sn_Phase (ru_state run) = "running"%string)) as [|Hn]; [done|].
    unfold running in *. by rewrite (go_state _ _ Hgo Hn) in Hr'.
  - intros r run' Hr Hne. destruct (goes_on_back _ _ r run' Hruns Hr) as (run & Hrun & Hgo). apply (go_ctx _ _ Hgo). by apply (Hl r run).
  - intros r Hr. destruct (He r Hr) as [run Hrun]. destruct (goes_on_there _ _ r run Hruns Hrun) as (run' & ? & _). by exists run'.
Qed.

(** Completing ends the phase. *)
Lemma complete_done r err g : ru_completed (complete r err g) = true ∧ (ru_completed r = false → ¬ running (complete r err g)) ∧
  ru_ctx (complete r err g) = ru_ctx r ∧ ru_params (complete r err g) = ru_params r.
Proof.
  unfold complete. destruct (ru_completed r) eqn:E; [split_and!; done|]. split_and!; try done. intros _. unfold running. cbn.
  unfold outcome. destruct err as [[[|]| | |]|]; cbn; try done. unfold measured. cbn.
  destruct (rg_evidence g) as [[chains hits]|]; cbn; by destruct (sn_Latency _), (sn_DownloadMbps _), (sn_UploadMbps _).
Qed.

Lemma finish_done r err g : ru_completed (finish err g r) = true ∧ (ru_completed r = false → ¬ running (finish err g r)) ∧
  ru_ctx (finish err g r) ≠ None ∧ ru_params (finish err g r) = ru_params r.
Proof.
  unfold finish. destruct (complete_done (cancel_run r) match ru_ctx r with Some e => Some (CtxError e) | None => err end g) as (H1 & H2 & H3 & H4).
  rewrite H3. split_and!; [done | done | apply cancel_ended | done].
Qed.

Lemma finished_stays r err g : ru_completed r = true → complete r err g = r.
Proof. unfold complete. by intros ->. Qed.

(** ** The invariant holds *)

Lemma tests_ok_new : tests_ok {| te_manager := newManager; te_workers := ∅ |}.
Proof. split; try done. apply token_free. Qed.

Lemma others_exited t w pc w' pc' : tests_ok t → te_workers t !! w = Some pc → working pc = true → w' ≠ w →
  te_workers t !! w' = Some pc' → pc' = Exited.
Proof.
  intros Hok Hw Hp Hne Hw'. destruct (working pc') eqn:E; [|by destruct pc']. destruct Hne.
  by apply (tk_one _ _ _ (to_worker t Hok) w' w pc' pc).
Qed.

Lemma held_working t w pc : te_workers t !! w = Some pc → held_at working (te_workers t) w = working pc.
Proof. unfold held_at. by intros ->. Qed.

(** The worker moves from [pc] to [pc'], and the manager with it. *)
Lemma tests_ok_moved t w pc m' pc' : let m := te_manager t in
  tests_ok t → te_workers t !! w = Some pc → working pc = true →
  sm_worker m' = working pc' → (working pc' = false → sm_running m' = None ∧ sm_pending m' = None) → sm_latest m' = sm_latest m →
  (∀ r, sm_pending m' = Some r → sm_pending m = Some r ∧ in_hand pc' ≠ Some r ∧ sm_runs m' !! r = sm_runs m !! r) →
  pc_ok m' pc' →
  (∀ r run, sm_runs m' !! r = Some run → ru_completed run = false → sm_pending m' = Some r ∨ in_hand pc' = Some r) →
  (∀ r run', sm_runs m' !! r = Some run' → ∃ run, sm_runs m !! r = Some run ∧ (ru_completed run' = false ↔ running run') ∧
    (ru_ctx run ≠ None → ru_ctx run' ≠ None)) →
  (∀ r, is_Some (sm_runs m !! r) → is_Some (sm_runs m' !! r)) →
  tests_ok {| te_manager := m'; te_workers := <[w := pc']> (te_workers t) |}.
Proof.
  intros m. subst m. intros Hok Hw Hpc Hworker Hidle Hlatest Hpend Hpcok Hunf Hback Hthere.
  assert (Hothers : ∀ w' pc0, <[w := pc']> (te_workers t) !! w' = Some pc0 → pc0 = pc' ∨ pc0 = Exited).
  { intros w' pc0 [[_ <-]|[Hne Hw']]%lookup_insert_Some; [by left|]. right. by apply (others_exited t w pc w'). }
  split; cbn [te_manager te_workers].
  - apply (token_move _ _ (sm_worker (te_manager t))); [apply Hok | by rewrite (held_working t w pc Hw); left |].
    rewrite Hworker, (held_working t w pc Hw), Hpc. by destruct (working pc').
  - rewrite Hworker. exact Hidle.
  - intros r Hr. destruct (Hpend r Hr) as (Hr0 & Hno & Hsame). destruct (to_pending t Hok r Hr0) as (Hl & Hrun & _).
    rewrite Hlatest, Hsame. split_and!; [done..|]. intros w' pc0 [->| ->]%Hothers; done.
  - intros w' pc0 [->| ->]%Hothers; done.
  - intros r run Hr Hc. destruct (Hunf r run Hr Hc) as [|Hhand]; [by left | right]. exists w, pc'. by rewrite lookup_insert_eq.
  - intros r run' Hr. by destruct (Hback r run' Hr) as (run & _ & ? & _).
  - intros r run' Hr Hne. destruct (Hback r run' Hr) as (run & Hrun & _ & Hctx). apply Hctx. apply (to_latest t Hok r run Hrun).
    by rewrite <- Hlatest.
  - rewrite Hlatest. intros r Hr. by apply Hthere, (to_exists t Hok).
Qed.

Lemma on_run_back f i m r run' : sm_runs (on_run f i m) !! r = Some run' →
  ∃ run, sm_runs m !! r = Some run ∧ run' = (if decide (r = i) then f run else run).
Proof.
  cbn. intros Hr. rewrite list_lookup_alter in Hr. case_decide as Hd.
  - subst i. destruct (sm_runs m !! r) as [run|] eqn:E; [|done]. injection Hr as <-. exists run. by rewrite decide_True by done.
  - exists run'. by rewrite decide_False by done.
Qed.

Lemma on_run_there f i m r : is_Some (sm_runs m !! r) → is_Some (sm_runs (on_run f i m) !! r).
Proof. cbn. rewrite list_lookup_alter. case_decide; [subst; intros [run ->]; by eexists | done]. Qed.

(** The worker finishes the run it has in hand. *)
Lemma tests_ok_finish t w pc r err g : tests_ok t → te_workers t !! w = Some pc → in_hand pc = Some r →
  tests_ok {| te_manager := on_run (finish err g) r (te_manager t); te_workers := <[w := AtClear r]> (te_workers t) |}.
Proof.
  intros Hok Hw Hh. assert (Hp : working pc = true) by (by destruct pc). assert (Hpc := to_hand t Hok w pc Hw).
  assert (Hr : sm_running (te_manager t) = Some r ∧ ∃ run, sm_runs (te_manager t) !! r = Some run ∧ ru_completed run = false)
    by (destruct pc; try done; by injection Hh as ->).
  destruct Hr as [Hr _]. apply (tests_ok_moved t w pc); try done.
  - cbn. apply (tk_taken _ _ _ (to_worker t Hok)). eauto.
  - intros r' Hr'. cbn. destruct (to_pending t Hok r' Hr') as (_ & _ & Hno). split_and!; [done..|].
    apply list_lookup_alter_ne. intros ->. by apply (Hno w pc).
  - intros r' run' (run & Hrun & ->)%on_run_back Hc. case_decide as Hd.
    + destruct (finish_done run err g) as [Hf _]. by rewrite Hf in Hc.
    + destruct (to_unfinished t Hok r' run Hrun Hc) as [|(w' & pc' & Hw' & Hh')]; [by left|]. destruct (decide (w' = w)) as [->|Hne].
      * congruence.
      * rewrite (others_exited t w pc w' pc') in Hh' by done. done.
  - intros r' run' (run & Hrun & ->)%on_run_back. exists run. split; [done|]. case_decide as Hd.
    + destruct (finish_done run err g) as (Hf & Hrunning & Hctx & _). split; [|done]. rewrite Hf. split; [done|]. intros Hrr. exfalso.
      subst r'. destruct (ru_completed run) eqn:Hc; [|by apply Hrunning].
      assert (Hn : ¬ running run) by (rewrite <- (to_phase t Hok r run Hrun), Hc; done).
      unfold finish in Hrr. by rewrite (finished_stays (cancel_run run)) in Hrr by done.
    + split; [apply (to_phase t Hok r' run Hrun) | done].
  - intros r'. apply on_run_there.
Qed.

Lemma tests_ok_work t w pc err g : tests_ok t → te_workers t !! w = Some pc →
  tests_ok {| te_manager := (work_step (te_manager t) pc err g).1; te_workers := <[w := (work_step (te_manager t) pc err g).2]> (te_workers t) |}.
Proof.
  intros Hok Hw. assert (Hpc := to_hand t Hok w pc Hw).
  assert (Hlone : working pc = true → ∀ r run, sm_runs (te_manager t) !! r = Some run → ru_completed run = false →
    sm_pending (te_manager t) = Some r ∨ in_hand pc = Some r).
  { intros Hp r run Hr Hc. destruct (to_unfinished t Hok r run Hr Hc) as [|(w' & pc' & Hw' & Hh')]; [by left | right].
    destruct (decide (w' = w)) as [->|Hne]; [congruence|]. by rewrite (others_exited t w pc w' pc') in Hh' by done. }
  assert (Hsame : ∀ r run, sm_runs (te_manager t) !! r = Some run → ∃ run0, sm_runs (te_manager t) !! r = Some run0 ∧
    (ru_completed run = false ↔ running run) ∧ (ru_ctx run0 ≠ None → ru_ctx run ≠ None)).
  { intros r run Hr. exists run. split_and!; [done | apply (to_phase t Hok r run Hr) | done]. }
  assert (Hworker : working pc = true → sm_worker (te_manager t) = true).
  { intros Hp. apply (tk_taken _ _ _ (to_worker t Hok)). eauto. }
  destruct pc as [|r|r|r|]; cbn [work_step].
  - destruct (sm_pending (te_manager t)) as [r|] eqn:Ep; cbn.
    + destruct (to_pending t Hok r Ep) as (_ & Hrun & _). apply (tests_ok_moved t w AtTake); try done; cbn.
      * by apply Hworker.
      * intros r' run Hr Hc. destruct (Hlone eq_refl r' run Hr Hc) as [Hr'|]; [|done]. by right.
    + apply (tests_ok_moved t w AtTake); try done; cbn.
      * intros r run Hr Hc. destruct (Hlone eq_refl r run Hr Hc); [left; congruence | done].
  - destruct (sm_runs (te_manager t) !! r ≫= ru_ctx) eqn:E; cbn; [by apply (tests_ok_finish t w (AtRun r))|].
    apply (tests_ok_moved t w (AtRun r)); try done; cbn.
    + by apply Hworker.
    + intros r' Hr'. destruct (to_pending t Hok r' Hr') as (_ & _ & Hno). split_and!; try done. apply (Hno w (AtRun r) Hw).
    + apply (Hlone eq_refl).
  - by apply (tests_ok_finish t w (AtWork r)).
  - apply (tests_ok_moved t w (AtClear r)); try done; cbn; [by apply Hworker | apply (Hlone eq_refl)].
  - cbn. rewrite insert_id by done. by destruct t.
Qed.

(** *** Starting a run *)

Definition as_started (m m' : speedTestManager) : Prop :=
  sm_latest m' = sm_latest m ∧ sm_pending m' = sm_pending m ∧ sm_running m' = sm_running m ∧ sm_worker m' = sm_worker m ∧
  sm_runs m' = sm_runs m.

Lemma cancel_discovery_runs m : as_started m (cancel_discovery m).
Proof. unfold cancel_discovery, as_started. by destruct (sm_discovery m). Qed.

Lemma remember_run_runs o now m : as_started m (remember_run o now m).
Proof. unfold remember_run, as_started. by destruct (run_id m o). Qed.

(** A new run takes the place of the one that waits. *)
Definition replaced (new : speedTestRun) (g : reading) (m m' : speedTestManager) : Prop :=
  sm_runs m' = sm_runs (on_each (λ r, complete r (Some (CtxError Canceled)) g) (sm_pending m) m) ++ [new] ∧
  sm_latest m' = Some (length (sm_runs m)) ∧ sm_pending m' = Some (length (sm_runs m)) ∧ sm_worker m' = true ∧ sm_running m' = sm_running m.

Lemma replaced_length (f : speedTestRun → speedTestRun) m : length (sm_runs (on_each f (sm_pending m) m)) = length (sm_runs m).
Proof. destruct (sm_pending m); cbn; [apply length_alter | done]. Qed.

Lemma replaced_new new g m m' : replaced new g m m' → sm_runs m' !! length (sm_runs m) = Some new.
Proof. intros (Hruns & _). rewrite Hruns, lookup_app_r; rewrite replaced_length; [by rewrite Nat.sub_diag | done]. Qed.

Lemma replaced_back new g m m' r run' : replaced new g m m' → sm_runs m' !! r = Some run' →
  (r = length (sm_runs m) ∧ run' = new) ∨
  ∃ run, sm_runs m !! r = Some run ∧ r ≠ length (sm_runs m) ∧
    run' = (if decide (sm_pending m = Some r) then complete run (Some (CtxError Canceled)) g else run).
Proof.
  intros (Hruns & _) Hr. rewrite Hruns in Hr. apply lookup_app_Some in Hr as [Hr|[Hlen Hr]].
  - right. assert (∃ run, sm_runs m !! r = Some run ∧ run' = (if decide (sm_pending m = Some r) then complete run (Some (CtxError Canceled)) g else run))
      as (run & Hrun & ->).
    { destruct (sm_pending m) as [p|]; cbn [on_each] in Hr; [|by exists run'].
      apply on_run_back in Hr as (run & Hrun & ->). exists run. split; [done|]. repeat case_decide; congruence. }
    exists run. split_and!; [done | | done]. apply lookup_lt_Some in Hrun. lia.
  - left. rewrite replaced_length in Hr, Hlen. apply list_lookup_singleton_Some in Hr as [Hz ->]. split; [lia | done].
Qed.

Lemma replaced_there new g m m' r run : replaced new g m m' → sm_runs m !! r = Some run →
  sm_runs m' !! r = Some (if decide (sm_pending m = Some r) then complete run (Some (CtxError Canceled)) g else run).
Proof.
  intros (Hruns & _) Hr. rewrite Hruns. apply lookup_app_l_Some. destruct (sm_pending m) as [p|]; cbn; [|by rewrite decide_False].
  destruct (decide (p = r)) as [->|Hne].
  - by rewrite list_lookup_alter_eq, Hr, decide_True.
  - rewrite list_lookup_alter_ne, decide_False by congruence. done.
Qed.

Lemma tests_ok_replaced t m' new g ws : let m := te_manager t in
  tests_ok t → replaced new g m m' → ru_completed new = false → running new →
  (∀ r run, sm_latest m = Some r → sm_runs m !! r = Some run → ru_ctx run ≠ None) →
  (sm_worker m = true ∧ ws = te_workers t ∨ sm_worker m = false ∧ ∃ w, te_workers t !! w = None ∧ ws = <[w := AtTake]> (te_workers t)) →
  tests_ok {| te_manager := m'; te_workers := ws |}.
Proof.
  intros m. subst m. intros Hok Hrep Hnew Hrunning Hended Hws. set (m := te_manager t) in *.
  assert (Hback := λ r run', replaced_back new g m m' r run' Hrep). assert (Hthere := λ r run, replaced_there new g m m' r run Hrep).
  assert (Hlast := replaced_new new g m m' Hrep). destruct Hrep as (_ & Hl & Hp & Hwork & Hr).
  assert (Hold : ∀ w pc, ws !! w = Some pc → te_workers t !! w = Some pc ∨ pc = AtTake ∧ sm_running m = None).
  { intros w pc Hpc. destruct Hws as [[_ ->]|[Hfree (w0 & Hw0 & ->)]]; [by left|]. apply lookup_insert_Some in Hpc as [[_ <-]|[_ ?]]; [|by left].
    right. split; [done|]. by apply (to_idle t Hok). }
  assert (Hkept : ∀ r run, sm_runs m !! r = Some run → sm_pending m ≠ Some r → sm_runs m' !! r = Some run).
  { intros r run Hrun Hn. by rewrite (Hthere r run Hrun), decide_False. }
  split; cbn [te_manager te_workers].
  - rewrite Hwork. destruct Hws as [[Hbusy ->]|[Hfree (w & Hw & ->)]]; [rewrite <- Hbusy; apply Hok|].
    apply (token_move _ _ (sm_worker m)); [apply Hok | by right | done].
  - by rewrite Hwork.
  - rewrite Hp, Hl. intros r [= <-]. split_and!; [done | |].
    + by exists new.
    + intros w pc [Hpc|[-> _]]%Hold; [|done]. intros Hh. assert (Hpcok := to_hand t Hok w pc Hpc).
      destruct pc; try done; injection Hh as ->; destruct Hpcok as (_ & run & Hrun%lookup_lt_Some & _); fold m in Hrun; lia.
  - intros w pc [Hpc|[-> Hidle]]%Hold; [|cbn; congruence]. assert (Hpcok := to_hand t Hok w pc Hpc).
    assert (Hno := λ r Hr, proj2 (proj2 (to_pending t Hok r Hr)) w pc Hpc).
    change (te_manager t) with m in Hpcok. destruct pc as [|r|r|r|]; cbn in Hpcok, Hno |- *; rewrite ?Hr; try done;
      destruct Hpcok as [Hrr (run & Hrun & Hc)]; (split; [congruence|]); exists run; (split; [|done]); apply Hkept; [done | | done |]; intros Hx; by apply (Hno r).
  - intros r run' Hrun' Hc. rewrite Hp. destruct (Hback r run' Hrun') as [[-> _]|(run & Hrun & Hne & ->)]; [by left | right].
    case_decide as Hd; [by rewrite (proj1 (complete_done _ _ _)) in Hc|].
    destruct (to_unfinished t Hok r run Hrun Hc) as [|(w & pc & Hpc & Hh)]; [done|]. exists w, pc. split; [|done].
    destruct Hws as [[_ ->]|[_ (w0 & Hw0 & ->)]]; [done|]. rewrite lookup_insert_ne; [done|]. congruence.
  - intros r run' Hrun'. destruct (Hback r run' Hrun') as [[_ ->]|(run & Hrun & _ & ->)]; [done|]. case_decide as Hd.
    + destruct (to_pending t Hok r Hd) as (_ & (run0 & Hrun0 & Hc0) & _). fold m in Hrun0. simplify_eq.
      destruct (complete_done run (Some (CtxError Canceled)) g) as (H1 & H2 & _). rewrite H1. split; [done|]. intros Hx. by destruct (H2 Hc0).
    + apply (to_phase t Hok r run Hrun).
  - intros r run' Hrun' Hne. destruct (Hback r run' Hrun') as [[-> _]|(run & Hrun & _ & ->)]; [by rewrite Hl in Hne|].
    assert (Hctx : ru_ctx run ≠ None).
    { destruct (decide (sm_latest m = Some r)) as [Hlr|Hlr]; [by apply (Hended r run) | by apply (to_latest t Hok r run)]. }
    case_decide; [|done]. by rewrite (proj1 (proj2 (proj2 (complete_done _ _ _)))).
  - rewrite Hl. intros r [= <-]. by exists new.
Qed.

(** The manager once the last run is cancelled. *)
Lemma same_jobs_prepared tombs now m :
  same_jobs m (remember_run (sm_latest m) now (on_each cancel_run (sm_latest m) {| m with sm_cancelled := tombs |})).
Proof.
  eapply same_jobs_trans; [apply (same_jobs_tombs _ tombs)|]. eapply same_jobs_trans; [|apply same_jobs_remember_run].
  apply same_jobs_on_each, cancel_goes_on.
Qed.

(** What the locked section of [start] does, in three cases. *)
Lemma start_cases params g epoch version m :
  let m0 := {| m with sm_cancelled := live (rg_now g) (sm_cancelled m) |} in
  let '(m', answer, spawned) := start_locked params g epoch version m in
  (has_tomb (sp_RequestID params) (sm_cancelled m0) = true ∧ m' = m0 ∧ answer = false ∧ spawned = false) ∨
  (run_id m (sm_latest m) = Some (sp_RequestID params) ∧ m' = m0 ∧ answer = true ∧ spawned = false) ∨
  (has_tomb (sp_RequestID params) (sm_cancelled m0) = false ∧ answer = true ∧ spawned = negb (sm_worker m) ∧ ∃ m1,
    m1 = remember_run (sm_latest m) (rg_now g) (on_each cancel_run (sm_latest m) m0) ∧
    replaced (newSpeedTestRun params (rg_now g) epoch version) g m1 m' ∧ sm_cancelled m' = sm_cancelled m1).
Proof.
  cbn zeta. unfold start_locked. set (m0 := {| m with sm_cancelled := _ |}). destruct (has_tomb _ _) eqn:Et; cbv iota beta; [by left|].
  case_bool_decide as Hid; cbv zeta iota beta; [by right; left|]. right. right. split_and!; [done | done | |].
  - assert (Hs := same_jobs_prepared (live (rg_now g) (sm_cancelled m)) (rg_now g) m). fold m0 in Hs. change (sm_latest m0) with (sm_latest m).
    set (m1 := remember_run _ _ _) in *. f_equal.
    unfold cancel_discovery. destruct (sm_pending m1); cbn; destruct (sm_discovery m1); cbn; by rewrite (sj_worker _ _ Hs).
  - eexists. split; [done|]. change (sm_latest m0) with (sm_latest m). set (m1 := remember_run _ _ _). unfold replaced, cancel_discovery.
    destruct (sm_pending m1) as [p|] eqn:Ep; cbn; destruct (sm_discovery m1); cbn; rewrite ?length_alter, ?Ep; done.
Qed.

Lemma latest_ended m o now r run : sm_runs (remember_run o now (on_each cancel_run o m)) !! r = Some run → o = Some r → ru_ctx run ≠ None.
Proof.
  destruct (remember_run_runs o now (on_each cancel_run o m)) as (_ & _ & _ & _ & ->). intros Hr ->. cbn [on_each] in Hr.
  apply on_run_back in Hr as (run0 & _ & ->). rewrite decide_True by done. apply cancel_ended.
Qed.

Lemma tests_ok_step `{Unicode} t op g : tests_ok t → legal_op t op → tests_ok (test_step t op g).
Proof.
  intros Hok Hl. destruct op as [params epoch version w|id| |id|d|r|r f|w err]; cbn [test_step];
    try (apply tests_ok_same; [done|]; auto with jobs).
  - assert (Hs := start_cases params g epoch version (te_manager t)). destruct (start_locked _ _ _ _ _) as [[m' answer] spawned].
    destruct Hs as [(_ & -> & _ & ->)|[(_ & -> & _ & ->)|(_ & _ & -> & m1 & -> & Hrep & _)]]; [apply tests_ok_same; auto with jobs..|].
    set (m1 := remember_run _ _ _) in *. assert (Hs : same_jobs (te_manager t) m1) by apply same_jobs_prepared.
    apply (tests_ok_replaced (set_manager t m1) m' (newSpeedTestRun params (rg_now g) epoch version) g); [by apply tests_ok_same | exact Hrep | done | done | |].
    + intros r run Hr Hrun. eapply latest_ended; [exact Hrun|]. cbn in Hr. by rewrite (sj_latest _ _ Hs) in Hr.
    + cbn. rewrite (sj_worker _ _ Hs). destruct (sm_worker _); [by left | right]. eauto.
  - apply same_jobs_cancel.
  - apply same_jobs_stop.
  - apply same_jobs_begin.
  - apply same_jobs_end.
  - apply same_jobs_on_run. intros. by apply update_goes_on.
  - destruct (te_workers t !! w) as [pc|] eqn:Hw; [|done]. assert (Hwork := tests_ok_work t w pc err g Hok Hw).
    by destruct (work_step _ _ _ _).
Qed.

Lemma tests_ok_run `{Unicode} t : tests_run t → tests_ok t.
Proof. induction 1; [apply tests_ok_new | by apply tests_ok_step]. Qed.

(** ** What becomes of a run, step by step *)

Record carried (r r' : speedTestRun) : Prop := {
  ca_params : ru_params r' = ru_params r;
  ca_ended : ru_ctx r ≠ None → ru_ctx r' ≠ None;
  ca_done : ru_completed r = true → ru_completed r' = true ∧ ru_state r' = ru_state r;
}.

Lemma carried_refl r : carried r r.
Proof. by split. Qed.

Lemma carried_trans r r1 r2 : carried r r1 → carried r1 r2 → carried r r2.
Proof.
  intros [P1 C1 D1] [P2 C2 D2]. split; [congruence | auto |]. intros Hd. destruct (D1 Hd) as [Hd1 E1]. destruct (D2 Hd1). split; congruence.
Qed.

Lemma complete_carried r err g : carried r (complete r err g).
Proof. split; unfold complete; destruct (ru_completed r) eqn:E; try done. Qed.

Lemma finish_carried r err g : carried r (finish err g r).
Proof.
  unfold finish. eapply carried_trans; [|apply complete_carried]. split; try done. unfold cancel_run, end_ctx. cbn. by destruct (ru_ctx r).
Qed.

Lemma goes_on_carried r r' : (ru_completed r = false ↔ running r) → goes_on r r' → carried r r'.
Proof.
  intros Hph [P C D S R]. split; [done | done |]. intros Hd. split; [congruence|]. apply S. rewrite <- Hph, Hd. done.
Qed.

Lemma carried_same m m' r run : (ru_completed run = false ↔ running run) → same_jobs m m' → sm_runs m !! r = Some run →
  ∃ run', sm_runs m' !! r = Some run' ∧ carried run run'.
Proof.
  intros Hph Hs Hr. destruct (goes_on_there _ _ r run (sj_runs _ _ Hs) Hr) as (run' & ? & Hgo). exists run'. split; [done|].
  by apply goes_on_carried.
Qed.

Lemma carried_on_run f i m r run : (∀ run, carried run (f run)) → sm_runs m !! r = Some run →
  ∃ run', sm_runs (on_run f i m) !! r = Some run' ∧ carried run run' ∧ (r = i → run' = f run).
Proof.
  intros Hf Hr. cbn. destruct (decide (i = r)) as [->|Hne].
  - rewrite list_lookup_alter_eq, Hr. cbn. eauto.
  - rewrite list_lookup_alter_ne, Hr by done. exists run. split_and!; [done | apply carried_refl | congruence].
Qed.

Lemma carried_work m pc err g r run : sm_runs m !! r = Some run →
  ∃ run', sm_runs (work_step m pc err g).1 !! r = Some run' ∧ carried run run' ∧
    (in_hand pc = Some r → in_hand (work_step m pc err g).2 ≠ Some r → ru_completed run' = true).
Proof.
  intros Hr. assert (Hid : ∃ run', sm_runs m !! r = Some run' ∧ carried run run') by (exists run; split; [done | apply carried_refl]).
  destruct Hid as (run0 & Hr0 & Hca).
  destruct pc as [|x|x|x|]; cbn [work_step]; [destruct (sm_pending m) | destruct (sm_runs m !! x ≫= ru_ctx) | | |]; cbn [fst snd in_hand sm_runs];
    try (by exists run0; split_and!).
  all: destruct (carried_on_run (λ run, finish err g run) x m r run (λ run, finish_carried run err g) Hr) as (run1 & H1 & H2 & H3).
  all: destruct (carried_on_run (λ run, finish None g run) x m r run (λ run, finish_carried run None g) Hr) as (run2 & H4 & H5 & H6).
  - exists run2. split_and!; [done..|]. intros [= ->] _. rewrite (H6 eq_refl). by destruct (finish_done run None g).
  - exists run1. split_and!; [done..|]. intros [= ->] _. rewrite (H3 eq_refl). by destruct (finish_done run err g).
Qed.

Lemma carried_step `{Unicode} t op g r run : tests_ok t → legal_op t op → sm_runs (te_manager t) !! r = Some run →
  ∃ run', sm_runs (te_manager (test_step t op g)) !! r = Some run' ∧ carried run run'.
Proof.
  intros Hok Hl Hr. assert (Hph := to_phase t Hok r run Hr).
  destruct op as [params epoch version w|id| |id|d|x|x f|w err]; cbn [test_step];
    lazymatch goal with |- context [set_manager] => apply (carried_same (te_manager t)); [done | cbn [set_manager te_manager]; auto with jobs | done] | _ => idtac end.
  - assert (Hs := start_cases params g epoch version (te_manager t)). destruct (start_locked _ _ _ _ _) as [[m' answer] spawned]. cbn.
    destruct Hs as [(_ & -> & _)|[(_ & -> & _)|(_ & _ & _ & m1 & -> & Hrep & _)]]; [exists run; split; [done | apply carried_refl]..|].
    set (m1 := remember_run _ _ _) in *. assert (Hs : same_jobs (te_manager t) m1) by apply same_jobs_prepared.
    destruct (carried_same _ m1 r run Hph Hs Hr) as (run1 & Hr1 & Hca). rewrite (replaced_there _ g m1 m' r run1 Hrep Hr1). eexists. split; [done|].
    eapply carried_trans; [exact Hca|]. case_decide; [apply complete_carried | apply carried_refl].
  - apply same_jobs_cancel.
  - apply same_jobs_stop.
  - apply same_jobs_begin.
  - apply same_jobs_end.
  - apply same_jobs_on_run. intros. by apply update_goes_on.
  - destruct (te_workers t !! w) as [pc|]; [|exists run; split; [done | apply carried_refl]].
    destruct (carried_work (te_manager t) pc err g r run Hr) as (run' & ? & ? & _). destruct (work_step _ _ _ _). by exists run'.
Qed.

(** ** How long a run is left *)

(** The steps of the worker before it has done with [r]. *)
Definition wait (pc : worker_pc) (r : nat) : nat :=
  match pc with
  | AtRun x => if decide (x = r) then 2 else 6
  | AtWork x => if decide (x = r) then 1 else 5
  | AtClear _ => 4
  | AtTake => 3
  | Exited => 0
  end.

(** A step of a goroutine that is in [work]. *)
Definition works (t : tests) (op : test_op) : nat :=
  match op with Work w _ => if held_at working (te_workers t) w then 1 else 0 | _ => 0 end.

(** What legal operations make of the tests, counting the worker's steps. *)
Inductive later `{Unicode} : nat → tests → tests → Prop :=
  | later_now t : later 0 t t
  | later_next n t t' op g : later n t t' → legal_op t' op → later (works t' op + n) t (test_step t' op g).

Lemma unfinished_worker t r run : tests_ok t → sm_runs (te_manager t) !! r = Some run → ru_completed run = false →
  ∃ w pc, te_workers t !! w = Some pc ∧ working pc = true ∧ (sm_pending (te_manager t) = Some r ∨ in_hand pc = Some r).
Proof.
  intros Hok Hr Hc. destruct (to_unfinished t Hok r run Hr Hc) as [Hp|(w & pc & Hw & Hh)].
  - assert (Hwork : sm_worker (te_manager t) = true).
    { destruct (sm_worker (te_manager t)) eqn:E; [done|]. destruct (to_idle t Hok E) as [_ Hn]. congruence. }
    apply (tk_taken _ _ _ (to_worker t Hok)) in Hwork as (w & pc & Hw & Hpc). exists w, pc. eauto.
  - exists w, pc. split_and!; [done | by destruct pc | by right].
Qed.

(** Other goroutines stay where they are. *)
Lemma workers_stay `{Unicode} t op g w pc : legal_op t op → te_workers t !! w = Some pc → (∀ err, op ≠ Work w err) →
  te_workers (test_step t op g) !! w = Some pc.
Proof.
  intros Hl Hw Hop. destruct op as [params epoch version w'|id| |id|d|x|x f|w' err]; cbn [test_step]; try done.
  - destruct (start_locked _ _ _ _ _) as [[m' answer] spawned]. cbn. destruct spawned; [|done]. rewrite lookup_insert_ne; [done|].
    intros ->. cbn in Hl. congruence.
  - destruct (te_workers t !! w'); [|done]. destruct (work_step _ _ _ _). cbn. rewrite lookup_insert_ne; [done|]. intros ->. by destruct (Hop err).
Qed.

Lemma wait_work t w pc err g r : let '(m', pc') := work_step (te_manager t) pc err g in
  tests_ok t → te_workers t !! w = Some pc → working pc = true → (sm_pending (te_manager t) = Some r ∨ in_hand pc = Some r) →
  (in_hand pc = Some r ∧ in_hand pc' ≠ Some r) ∨ (working pc' = true ∧ wait pc' r + 1 ≤ wait pc r)%nat.
Proof.
  destruct (work_step _ _ _ _) as [m' pc'] eqn:E. intros Hok Hw Hp Hr. destruct pc as [|x|x|x|]; cbn in E, Hr |- *; [| | | |done].
  - destruct Hr as [Hr|]; [|done]. rewrite Hr in E. injection E as <- <-. right. cbn. rewrite decide_True by done. split; [done | lia].
  - destruct (sm_runs (te_manager t) !! x ≫= ru_ctx); injection E as <- <-; cbn.
    + destruct (decide (x = r)) as [->|]; [by left | right; split; [done | lia]].
    + right. split; [done|]. case_decide; lia.
  - injection E as <- <-. cbn. destruct (decide (x = r)) as [->|]; [by left | right; split; [done | lia]].
  - injection E as <- <-. right. cbn. split; [done | lia].
Qed.

(** What is known of a run after [n] steps of the worker. *)
Definition attended (t : tests) (n r : nat) (run : speedTestRun) : Prop := ∃ run', sm_runs (te_manager t) !! r = Some run' ∧ carried run run' ∧
  (ru_completed run' = true ∨ ∃ w pc, te_workers t !! w = Some pc ∧ working pc = true ∧ wait pc r + n ≤ 6)%nat.

Lemma attended_step `{Unicode} t n r run op g : tests_ok t → legal_op t op → attended t n r run → attended (test_step t op g) (works t op + n) r run.
Proof.
  intros Hok Hl (run1 & Hr1 & Hca & Hleft). destruct (carried_step t op g r run1 Hok Hl Hr1) as (run2 & Hr2 & Hca2).
  exists run2. split_and!; [done | by eapply carried_trans |]. destruct (ru_completed run1) eqn:Hc.
  { left. by apply (ca_done _ _ Hca2). }
  destruct Hleft as [|(w & pc & Hw & Hp & Hwait)]; [done|].
  destruct (unfinished_worker t r run1 Hok Hr1 Hc) as (w0 & pc0 & Hw0 & Hp0 & Hjob).
  assert (w0 = w) as -> by exact (tk_one _ _ _ (to_worker t Hok) w0 w pc0 pc Hw0 Hw Hp0 Hp). simplify_eq.
  assert (Hother : (∀ err, op ≠ Work w err) → works t op = 0%nat → ru_completed run2 = true ∨
    (∃ w pc, te_workers (test_step t op g) !! w = Some pc ∧ working pc = true ∧ wait pc r + (works t op + n) ≤ 6)%nat).
  { intros Hop ->. right. exists w, pc. split_and!; [by apply workers_stay | done..]. }
  destruct op as [params epoch version w'|id| |id|d|x|x f|w' err]; try (by apply Hother).
  destruct (decide (w' = w)) as [->|Hne].
  - cbn [works]. rewrite (held_working t w pc Hw), Hp. cbn [test_step] in Hr2 |- *. rewrite Hw in Hr2 |- *.
    assert (Hwork := wait_work t w pc err g r). destruct (carried_work (te_manager t) pc err g r run1 Hr1) as (run3 & Hr3 & _ & Hdone).
    destruct (work_step _ _ _ _) as [m' pc']. cbn in Hr2, Hr3, Hdone |- *. simplify_eq.
    destruct (Hwork Hok Hw Hp Hjob) as [[Hh Hh']|[Hp' Hless]]; [left; auto|]. right. exists w, pc'. rewrite lookup_insert_eq. split_and!; [done | done | lia].
  - apply Hother; [congruence|]. cbn [works]. unfold held_at. destruct (te_workers t !! w') as [pc'|] eqn:Hw'; [|done].
    by rewrite (others_exited t w pc w' pc' Hok Hw Hp Hne Hw').
Qed.

Lemma later_run `{Unicode} n t t' : later n t t' → tests_run t → tests_run t'.
Proof. induction 1; [done|]. intros. apply tests_next; auto. Qed.

(** C9: A run of a speed test ends, and ends once. From any state the
    manager can reach, by starts, cancellations, stops, discoveries, expired
    deadlines, published measurements and steps of the worker in any order:
    a run whose phase is still "running" has a worker that is at it or that
    will take it; when that worker has taken six more steps, whatever came
    between them and however the work went, the run is complete and its
    phase is an end; and what a complete run said of itself is what it says
    ever after. *)
Theorem run_ends `{Unicode} t n t' r run : tests_run t → later n t t' → sm_runs (te_manager t) !! r = Some run →
  (running run ↔ ∃ w pc, te_workers t !! w = Some pc ∧ working pc = true ∧ (sm_pending (te_manager t) = Some r ∨ in_hand pc = Some r)) ∧
  ∃ run', sm_runs (te_manager t') !! r = Some run' ∧ ru_params run' = ru_params run ∧
    (6 ≤ n → ¬ running run')%nat ∧
    (¬ running run → ru_state run' = ru_state run).
Proof.
  intros Hrun Hlater Hr. assert (Hok := tests_ok_run t Hrun). assert (Hph := to_phase t Hok r run Hr). split.
  - rewrite <- Hph. split; [by apply unfinished_worker|]. intros (w & pc & Hw & Hp & [Hpend|Hh]).
    + destruct (to_pending t Hok r Hpend) as (_ & (run0 & Hr0 & Hc) & _). congruence.
    + assert (Hpc := to_hand t Hok w pc Hw). destruct pc; try done; injection Hh as ->; destruct Hpc as (_ & run0 & Hr0 & Hc); congruence.
  - assert (Hatt : attended t' n r run).
    { clear Hph. induction Hlater as [t|n t t' op g Hlater IH Hl].
      - exists run. split_and!; [done | apply carried_refl |]. destruct (ru_completed run) eqn:Hc; [by left | right].
        destruct (unfinished_worker t r run Hok Hr Hc) as (w & pc & Hw & Hp & _). exists w, pc. split_and!; [done..|].
        destruct pc; cbn; try case_decide; lia.
      - apply attended_step; [|done | by apply IH]. apply tests_ok_run. by eapply later_run. }
    destruct Hatt as (run' & Hr' & Hca & Hleft). exists run'. assert (Hok' : tests_ok t') by (apply tests_ok_run; by eapply later_run).
    assert (Hph' := to_phase t' Hok' r run' Hr'). split_and!; [done | by apply (ca_params _ _ Hca) | |].
    + intros Hn. rewrite <- Hph'. destruct Hleft as [-> | (w & pc & _ & Hp & Hwait)]; [done|]. exfalso.
      destruct pc; cbn in Hp, Hwait; try done; try case_decide; lia.
    + rewrite <- Hph. intros Hd%not_false_is_true. by apply (ca_done _ _ Hca).
Qed.

(** ** A cancellation is remembered *)

(** A tombstone of [id], not older than [t0], with at most [k] after it. *)
Definition kept (id : string) (t0 : time) (k : nat) (tombs : list speedTestTombstone) : Prop :=
  ∃ pre tb post, tombs = pre ++ tb :: post ∧ tb_id tb = id ∧ t0 ≤ tb_at tb ∧ (length post ≤ k)%nat.

(** How long it is kept. *)
Definition in_time (t0 now : time) : Prop := now ≤ time_add t0 (2 * speedTestDeadline).

Lemma kept_has id t0 k tombs : kept id t0 k tombs → has_tomb id tombs = true.
Proof.
  intros (pre & tb & post & -> & Hid & _). unfold has_tomb. rewrite existsb_app. cbn. rewrite (proj2 (eqs_true _ _) Hid). by rewrite orb_true_r.
Qed.

Lemma kept_le id t0 k k' tombs : kept id t0 k tombs → (k ≤ k')%nat → kept id t0 k' tombs.
Proof. intros (pre & tb & post & ? & ? & ? & ?) ?. exists pre, tb, post. split_and!; [done.. | lia]. Qed.

Lemma kept_live id t0 k now tombs : in_time t0 now → kept id t0 k tombs → kept id t0 k (live now tombs).
Proof.
  intros Hnow (pre & tb & post & -> & Hid & Hat & Hlen). exists (live now pre), tb, (live now post). unfold live. rewrite filter_app, filter_cons_True.
  - split_and!; [done.. |]. etrans; [apply length_filter | done].
  - unfold in_time, before, time_add in *. lia.
Qed.

Lemma kept_remember id t0 k id' now m : in_time t0 now → (k < 127)%nat → kept id t0 k (sm_cancelled m) →
  kept id t0 (S k) (sm_cancelled (rememberCancelLocked id' now m)).
Proof.
  intros Hnow Hk Hm. apply (kept_live _ _ _ now) in Hm; [|done]. unfold rememberCancelLocked. cbn.
  destruct (has_tomb id' _); [by eapply kept_le; [|apply Nat.le_succ_diag_r]|]. destruct Hm as (pre & tb & post & -> & Hid & Hat & Hlen).
  destruct (Nat.eqb_spec (length (pre ++ tb :: post)) speedTestMaxTombstones) as [Hfull|_].
  - assert (Hp : pre ≠ []).
    { intros ->. cbn in Hfull. unfold speedTestMaxTombstones in Hfull. lia. }
    destruct pre as [|x pre]; [done|]. exists pre, tb, (post ++ [{| tb_id := id'; tb_at := now |}]). rewrite <- app_comm_cons, skipn_cons, drop_0.
    rewrite <- app_assoc, length_app. cbn [length app]. split_and!; [done.. | lia].
  - exists pre, tb, (post ++ [{| tb_id := id'; tb_at := now |}]). rewrite <- app_assoc, length_app. cbn [length app].
    split_and!; [done.. | lia].
Qed.

Lemma on_each_tombs f o m : sm_cancelled (on_each f o m) = sm_cancelled m.
Proof. by destruct o. Qed.

Lemma cancel_discovery_tombs m : sm_cancelled (cancel_discovery m) = sm_cancelled m.
Proof. unfold cancel_discovery. by destruct (sm_discovery m). Qed.

Lemma kept_remember_run id t0 k o now m : in_time t0 now → (k < 127)%nat → kept id t0 k (sm_cancelled m) →
  kept id t0 (S k) (sm_cancelled (remember_run o now m)).
Proof.
  intros. unfold remember_run. destruct (run_id m o); [by apply kept_remember | by eapply kept_le; [|apply Nat.le_succ_diag_r]].
Qed.

(** How many cancellations an operation can add. *)
Definition remembers (op : test_op) : nat := match op with Start _ _ _ _ | Cancel _ => 1 | Stop => 2 | _ => 0 end.

Lemma kept_step `{Unicode} id t0 k t op g : in_time t0 (rg_now g) → (remembers op + k ≤ 127)%nat →
  kept id t0 k (sm_cancelled (te_manager t)) → kept id t0 (remembers op + k) (sm_cancelled (te_manager (test_step t op g))).
Proof.
  intros Hnow Hk Hkept. destruct op as [params epoch version w|id'| |id'|d|x|x f|w err]; cbn [test_step remembers Nat.add set_manager te_manager] in *;
    try done.
  - assert (Hs := start_cases params g epoch version (te_manager t)). destruct (start_locked _ _ _ _ _) as [[m' answer] spawned]. cbn.
    assert (Hlive : kept id t0 (S k) (live (rg_now g) (sm_cancelled (te_manager t)))).
    { apply kept_live; [done|]. eapply kept_le; [done | lia]. }
    destruct Hs as [(_ & -> & _)|[(_ & -> & _)|(_ & _ & _ & m1 & -> & _ & ->)]]; [done..|].
    apply kept_remember_run; [done | lia |]. rewrite on_each_tombs. by apply kept_live.
  - unfold cancel. destruct (negb _); cbn; [eapply kept_le; [done | lia]|].
    repeat case_bool_decide; rewrite ?cancel_discovery_tombs, ?on_each_tombs; apply kept_remember; done || lia.
  - unfold stop. set (m1 := remember_run _ _ _). assert (Hm1 : kept id t0 (S k) (sm_cancelled m1)).
    { apply kept_remember_run; [done | lia | by rewrite on_each_tombs]. }
    destruct (discovery_id _).
    + apply kept_remember; [done | lia | by rewrite cancel_discovery_tombs, on_each_tombs].
    + rewrite on_each_tombs. eapply kept_le; [done | lia].
  - unfold begin_discovery. destruct (has_tomb _ _); cbn; [by apply kept_live|]. rewrite cancel_discovery_tombs. cbn. by apply kept_live.
  - unfold end_discovery. by case_bool_decide.
  - destruct (te_workers t !! w) as [pc|]; [|done]. destruct pc as [|r|r|r|]; cbn; try done.
    + by destruct (sm_pending (te_manager t)).
    + by destruct (sm_runs (te_manager t) !! r ≫= ru_ctx).
Qed.

(** Only a start makes a run, and only of what is not cancelled. *)
Lemma step_back `{Unicode} t op g r run' : legal_op t op → sm_runs (te_manager (test_step t op g)) !! r = Some run' → is_Some (sm_runs (te_manager t) !! r) ∨
  ∃ params epoch version w, op = Start params epoch version w ∧ ru_params run' = params ∧
    has_tomb (sp_RequestID params) (live (rg_now g) (sm_cancelled (te_manager t))) = false.
Proof.
  intros Hl. assert (Hsame : ∀ m' run1, same_jobs (te_manager t) m' → sm_runs m' !! r = Some run1 → is_Some (sm_runs (te_manager t) !! r)).
  { intros m' run1 Hs Hr. destruct (goes_on_back _ _ r run1 (sj_runs _ _ Hs) Hr) as (run & -> & _). by eexists. }
  destruct op as [params epoch version w|id| |id|d|x|x f|w err]; cbn [test_step];
    lazymatch goal with |- context [set_manager] => cbn [set_manager te_manager]; intros Hr; left; eapply Hsame; [|exact Hr] | _ => idtac end.
  - assert (Hs := start_cases params g epoch version (te_manager t)). destruct (start_locked _ _ _ _ _) as [[m' answer] spawned]. cbn. intros Hr.
    destruct Hs as [(_ & -> & _)|[(_ & -> & _)|(Hno & _ & _ & m1 & -> & Hrep & _)]]; [left; by eexists..|].
    destruct (replaced_back _ g _ m' r run' Hrep Hr) as [[_ ->]|(run & Hrun & _)]; [by right; exists params, epoch, version, w | left].
    eapply Hsame; [|exact Hrun]. apply same_jobs_prepared.
  - apply same_jobs_cancel.
  - apply same_jobs_stop.
  - apply same_jobs_begin.
  - apply same_jobs_end.
  - auto with jobs.
  - apply same_jobs_on_run. intros. by apply update_goes_on.
  - intros Hr. left. rewrite <- (not_eq_None_Some (sm_runs (te_manager t) !! r)). intros Hnone. apply lookup_ge_None in Hnone.
    apply lookup_lt_Some in Hr. destruct (te_workers t !! w) as [pc|]; [|lia].
    destruct pc as [|y|y|y|]; cbn in Hr; [destruct (sm_pending (te_manager t)) | destruct (sm_runs (te_manager t) !! y ≫= ru_ctx) | | |]; cbn in Hr;
      rewrite ?length_alter in Hr; lia.
Qed.

(** Legal operations up to a time, counting the cancellations remembered. *)
Inductive soon `{Unicode} (until : time) : nat → tests → tests → Prop :=
  | soon_now t : soon until 0 t t
  | soon_next k t t' op g : soon until k t t' → legal_op t' op → rg_now g ≤ until → soon until (remembers op + k) t (test_step t' op g).

(** The runs asked for as [id] are over or told to end. *)
Definition called_off (id : string) (t : tests) : Prop :=
  ∀ r run, sm_runs (te_manager t) !! r = Some run → sp_RequestID (ru_params run) = id → ru_ctx run ≠ None.

Lemma called_off_step `{Unicode} id t0 k t op g : tests_ok t → legal_op t op → in_time t0 (rg_now g) → kept id t0 k (sm_cancelled (te_manager t)) →
  called_off id t → called_off id (test_step t op g).
Proof.
  intros Hok Hl Hnow Hkept Hoff r run' Hr Hid. destruct (step_back t op g r run' Hl Hr) as [[run Hrun]|(params & epoch & version & w & _ & Hp & Hno)].
  - destruct (carried_step t op g r run Hok Hl Hrun) as (run2 & Hr2 & Hca). simplify_eq. apply (ca_ended _ _ Hca), (Hoff r run Hrun).
    by rewrite <- (ca_params _ _ Hca).
  - rewrite <- Hp, Hid in Hno. by rewrite (kept_has id t0 k) in Hno by (by apply kept_live).
Qed.

Lemma called_off_cancel `{Unicode} id g t : tests_ok t → validSpeedTestID id = true → has_tomb id (live (rg_now g) (sm_cancelled (te_manager t))) = false →
  let t' := test_step t (Cancel id) g in kept id (rg_now g) 0 (sm_cancelled (te_manager t')) ∧ called_off id t'.
Proof.
  intros Hok Hv Hnew. cbn zeta. split.
  - cbn. unfold cancel. rewrite Hv. cbn [negb]. cbn.
    assert (Hk : kept id (rg_now g) 0 (sm_cancelled (rememberCancelLocked id (rg_now g) (te_manager t)))).
    { unfold rememberCancelLocked. cbn. rewrite Hnew. eexists _, {| tb_id := id; tb_at := rg_now g |}, []. cbn. split_and!; [done | done | lia | done]. }
    repeat case_bool_decide; rewrite ?cancel_discovery_tombs, ?on_each_tombs; exact Hk.
  - intros r run' Hr Hid. destruct (step_back t (Cancel id) g r run' I Hr) as [[run Hrun]|(? & ? & ? & ? & ? & _)]; [|done].
    destruct (carried_step t (Cancel id) g r run Hok I Hrun) as (run2 & Hr2 & Hca). rewrite Hr in Hr2. injection Hr2 as <-.
    destruct (decide (sm_latest (te_manager t) = Some r)) as [Hlat|Hlat]; [|by apply (ca_ended _ _ Hca), (to_latest t Hok r run)].
    cbn in Hr. unfold cancel in Hr. rewrite Hv in Hr. cbn [negb fst] in Hr. set (m1 := rememberCancelLocked _ _ _) in Hr.
    assert (Hlid : run_id m1 (sm_latest m1) = Some id).
    { unfold run_id. change (sm_latest m1) with (sm_latest (te_manager t)). change (sm_runs m1) with (sm_runs (te_manager t)). rewrite Hlat. cbn.
      rewrite Hrun. cbn. by rewrite <- Hid, (ca_params _ _ Hca). }
    rewrite (bool_decide_true _ Hlid) in Hr. change (sm_latest m1) with (sm_latest (te_manager t)) in Hr. rewrite Hlat in Hr.
    assert (Hr3 : sm_runs (on_run cancel_run r m1) !! r = Some run').
    { revert Hr. case_bool_decide; [|done]. by destruct (cancel_discovery_runs (on_each cancel_run (Some r) m1)) as (_ & _ & _ & _ & ->). }
    apply on_run_back in Hr3 as (run0 & _ & ->). rewrite decide_True by done. apply cancel_ended.
Qed.

Lemma kept_soon `{Unicode} id t0 k t t' : soon (time_add t0 (2 * speedTestDeadline)) k t t' → (k ≤ 127)%nat → tests_ok t →
  kept id t0 0 (sm_cancelled (te_manager t)) → called_off id t → kept id t0 k (sm_cancelled (te_manager t')) ∧ called_off id t'.
Proof.
  intros Hsoon Hk Hok Hkept Hoff. assert (tests_ok t' ∧ kept id t0 k (sm_cancelled (te_manager t')) ∧ called_off id t'); [|tauto].
  induction Hsoon as [t|k t t' op g Hs IH Hl Hg]; [done|]. destruct IH as (Hok' & Hkept' & Hoff'); [lia | done.. |]. split_and!.
  - by apply tests_ok_step.
  - by apply kept_step.
  - by eapply called_off_step.
Qed.

(** C26: A cancelled speed test does not come back. When a request that is
    not among the remembered ones is cancelled, then, for five minutes (twice
    the deadline of a test) and as long as fewer than 128 cancellations are
    remembered, whatever starts, cancellations, stops, discoveries and worker
    steps follow in any order: a start of that request is refused and leaves
    every run as it is, a discovery of that request is refused too, and every
    run that was ever made for it has its context ended. *)
Theorem cancelled_stays `{Unicode} t id g0 k t' params g epoch version :
  tests_run t → validSpeedTestID id = true → has_tomb id (live (rg_now g0) (sm_cancelled (te_manager t))) = false →
  let until := time_add (rg_now g0) (2 * speedTestDeadline) in
  soon until k (test_step t (Cancel id) g0) t' → (k ≤ 127)%nat → sp_RequestID params = id → rg_now g ≤ until →
  called_off id t' ∧
  (∃ m, start_locked params g epoch version (te_manager t') = (m, false, false) ∧ sm_runs m = sm_runs (te_manager t')) ∧
  (begin_discovery id (rg_now g) (te_manager t')).2 = None.
Proof.
  intros Hrun Hv Hnew until Hsoon Hk Hid Hnow. assert (Hok := tests_ok_run t Hrun). destruct (called_off_cancel id g0 t Hok Hv Hnew) as [Hkept Hoff].
  destruct (kept_soon id (rg_now g0) k _ t' Hsoon Hk (tests_ok_step t (Cancel id) g0 Hok I) Hkept Hoff) as [Hkept' Hoff'].
  split; [done|].
  assert (Htomb : has_tomb id (live (rg_now g) (sm_cancelled (te_manager t'))) = true) by (by eapply kept_has, kept_live).
  split.
  - unfold start_locked. cbn -[has_tomb live]. rewrite Hid, Htomb. by eexists.
  - unfold begin_discovery. cbn -[has_tomb live]. by rewrite Htomb.
Qed.

(** ** Tests played out *)

Module Sample.
#[local] Existing Instance ascii_tables.

Definition at_time (s : Z) : reading := {| rg_now := s * Second; rg_spent := 0; rg_evidence := None |}.

(** What happens, and in which second. *)
Fixpoint plays (t : tests) (ops : list (test_op * Z)) : tests :=
  match ops with [] => t | (op, s) :: ops => plays (test_step t op (at_time s)) ops end.

Fixpoint legal_all (t : tests) (ops : list (test_op * Z)) : Prop :=
  match ops with [] => True | (op, s) :: ops => legal_op t op ∧ legal_all (test_step t op (at_time s)) ops end.

Fixpoint steps_of (t : tests) (ops : list (test_op * Z)) : nat :=
  match ops with [] => 0 | (op, s) :: ops => steps_of (test_step t op (at_time s)) ops + works t op end.

Lemma plays_run ops : ∀ t, tests_run t → legal_all t ops → tests_run (plays t ops).
Proof. induction ops as [|[op s] ops IH]; intros t Ht; [done|]. intros [Hl Hops]. apply IH; [|done]. by apply tests_next. Qed.

Lemma later_first n t t' op g : legal_op t op → later n (test_step t op g) t' → later (n + works t op) t t'.
Proof.
  intros Hl Hlater. remember (test_step t op g) as t1 eqn:Et. revert Et. induction Hlater as [t1|n t1 t' op' g' Hlater IH Hl']; intros ->.
  - rewrite Nat.add_comm. apply later_next; [apply later_now | done].
  - rewrite <- Nat.add_assoc. apply later_next; auto.
Qed.

Lemma plays_later ops : ∀ t, legal_all t ops → later (steps_of t ops) t (plays t ops).
Proof. induction ops as [|[op s] ops IH]; intros t; [intros; apply later_now|]. intros [Hl Hops]. cbn. apply later_first with (g := at_time s); auto. Qed.

Lemma plays_soon until ops : ∀ t0 t k, soon until k t0 t → legal_all t ops → Forall (λ o, o.2 * Second ≤ until) ops →
  soon until (foldl (λ k o, remembers o.1 + k)%nat k ops) t0 (plays t ops).
Proof.
  induction ops as [|[op s] ops IH]; intros t0 t k Hs; [done|]. intros [Hl Hops] [Ht Htimes]%Forall_cons. cbn. apply IH; [|done..].
  by apply soon_next.
Qed.

Definition asked (id : string) : SpeedTestParams :=
  {| sp_RequestID := id; sp_BackendID := "cloudflare"; sp_DurationSeconds := 10; sp_Streams := 8; sp_Protocol := "h2"; sp_Mode := "complete";
     sp_ByteLimit := 1000; sp_ProxyName := ""; sp_Direct := true; sp_UseSystemDNS := false; sp_Server := None |}.

Definition fresh : tests := {| te_manager := newManager; te_workers := ∅ |}.
Definition start (id : string) (w : nat) : test_op := Start (asked id) 0 0 w.
Definition some_latency (s : SpeedTestSnapshot) : SpeedTestSnapshot :=
  {| s with sn_Latency := Some {| sl_MedianMs := f64 12; sl_JitterMs := None; sl_Count := 20 |} |}.
Definition phase (t : tests) (r : nat) : option string := (λ run, sn_Phase (ru_state run)) <$> (sm_runs (te_manager t) !! r).

Definition serving : list (test_op * Z) :=
  [(Work 0 None, 4); (Work 0 None, 5); (Work 0 None, 6); (Work 0 None, 7); (Publish 1 some_latency, 8); (Work 0 None, 9); (Work 0 None, 10)].

(** "b" is asked for while "a" is at work: "a" is cancelled, and "b" is done
    after the worker's sixth step. *)
Lemma run_ends_witness :
  let t := plays fresh [(start "a" 0, 0); (Work 0 None, 1); (Work 0 None, 2); (start "b" 1, 3)] in
  let t' := plays t serving in
  phase t 1 = Some "running"%string ∧ phase t' 0 = Some "cancelled"%string ∧ phase t' 1 = Some "done"%string ∧
  ∃ run', sm_runs (te_manager t') !! 1%nat = Some run' ∧ ¬ running run'.
Proof.
  intros t t'. split_and!; [vm_compute; reflexivity..|].
  assert (Hrun : tests_run t) by (apply plays_run; [apply tests_new | repeat split; vm_compute; reflexivity]).
  assert (Hlater : later 6 t t').
  { replace 6%nat with (steps_of t serving) by (vm_compute; reflexivity). apply (plays_later serving t). repeat split. intros s Hs. exact Hs. }
  destruct (sm_runs (te_manager t) !! 1%nat) as [run|] eqn:E; [|vm_compute in E; discriminate].
  destruct (run_ends t 6 t' 1 run Hrun Hlater E) as (_ & run' & Hr' & _ & Hend & _). exists run'. split; [done | by apply Hend].
Defined.

(** "a" is cancelled before it is asked for. *)
Lemma cancelled_stays_witness :
  let t' := plays (test_step fresh (Cancel "a") (at_time 0)) [(start "b" 0, 1); (Work 0 None, 2); (start "c" 1, 3); (Stop, 290)] in
  phase t' 0 = Some "running"%string ∧
  called_off "a" t' ∧ (∃ m, start_locked (asked "a") (at_time 300) 0 0 (te_manager t') = (m, false, false) ∧ sm_runs m = sm_runs (te_manager t')).
Proof.
  intros t'. split; [vm_compute; reflexivity|].
  assert (Hsoon : soon (300 * Second) 4 (test_step fresh (Cancel "a") (at_time 0)) t').
  { apply (plays_soon (300 * Second) [(start "b" 0, 1); (Work 0 None, 2); (start "c" 1, 3); (Stop, 290)] (test_step fresh (Cancel "a") (at_time 0)) _ 0); [apply soon_now | |].
    - repeat split; vm_compute; reflexivity.
    - repeat constructor; vm_compute; discriminate. }
  destruct (cancelled_stays fresh "a" (at_time 0) 4 t' (asked "a") (at_time 300) 0 0) as (Hoff & Hstart & _);
    [apply tests_new | vm_compute; reflexivity | vm_compute; reflexivity | exact Hsoon | lia | reflexivity | vm_compute; discriminate |].
  exact (conj Hoff Hstart).
Defined.
End Sample.
