(* ===== verification/SpeedMeter.v ===== *)
(** * What a speed test measures: core/speed_test_measurements.go

    Transfers report their bytes to a meter that keeps them in bins of a
    tenth of a second; its samples are the curve the speeds are read from.
    Every operation of the meter holds its lock. Durations stay below 30 s
    here, so products with the sample interval are not wrapped. *)

From Stdlib Require Import SpecFloat Sorted.
From S2P Require Import Prelude GoText Budget RouteWatch Float64 SpeedTest.

Definition speedTestSampleInterval : duration := 100 * Millisecond.
Definition speedTestMaxSamples : nat := 160.
Definition speedTestMaxPayload : Z := 25000000.

Record speedTestByteSample := { by_at : duration; by_bytes : Z }.

Record speedTestMeter := { mt_bins : list Z; mt_duration : duration; mt_frozen : bool }.

Definition newSpeedTestMeter (d : duration) : speedTestMeter :=
  let d := Z.min (Z.max d Nanosecond) (30 * Second) in
  {| mt_bins := replicate (Z.to_nat (Z.quot d speedTestSampleInterval + 1)) 0; mt_duration := d; mt_frozen := false |}.

(** [m.bins[index] += bytes]; none when the index is out of range. *)
Definition bump (index bytes : Z) (m : speedTestMeter) : option speedTestMeter :=
  if (0 <=? index) && (index <? Z.of_nat (length (mt_bins m)))
  then Some {| m with mt_bins := alter (λ b, (b +i bytes)%go) (Z.to_nat index) (mt_bins m) |}
  else None.

Definition add (at_ : duration) (bytes : Z) (m : speedTestMeter) : option speedTestMeter :=
  if negb (mt_frozen m) && (0 <=? at_) && (at_ <=? mt_duration m) && (0 <? bytes)
  then bump (Z.quot at_ speedTestSampleInterval) bytes m
  else Some m.

Section confirm.
Context (unrepresentable : float64 → Z).

(** The part of [bytes] that falls between [left] and [right]. *)
Definition part_of (bytes : Z) (start end_ left_ right_ : duration) : Z :=
  int64_of unrepresentable (f64_div (f64_mul (f64 bytes) (f64 (right_ - left_))) (f64 (end_ - start))).

Fixpoint spread (fuel : nat) (start end_ bytes index remaining : Z) (m : speedTestMeter) : option speedTestMeter :=
  match fuel with
  | O => None
  | S fuel =>
      if index * speedTestSampleInterval <? end_ then
        let left_ := Z.max start (index * speedTestSampleInterval) in
        let right_ := Z.min end_ ((index + 1) * speedTestSampleInterval) in
        let share := if right_ =? end_ then remaining else Z.min remaining (part_of bytes start end_ left_ right_) in
        m ← bump index share m;
        spread fuel start end_ bytes (index + 1) (remaining -i share)%go m
      else Some m
  end.

(** One turn for every interval up to [end_], and one to leave. *)
Definition confirm_fuel (end_ : duration) : nat := Z.to_nat (Z.quot end_ speedTestSampleInterval + 2).

Definition confirm (start end_ : duration) (bytes : Z) (m : speedTestMeter) : option speedTestMeter :=
  if mt_frozen m || (start <? 0) || (mt_duration m <? end_) || (end_ <? start) || (bytes <=? 0) then Some m
  else if end_ =? start then bump (Z.quot end_ speedTestSampleInterval) bytes m
  else spread (confirm_fuel end_) start end_ bytes (Z.quot start speedTestSampleInterval) bytes m.
End confirm.

Definition freeze (m : speedTestMeter) : speedTestMeter := {| m with mt_frozen := true |}.

(** The loop of [samples]; [prev] is the last sample it has. *)
Fixpoint sample_loop (elapsed : duration) (bins : list Z) (index total : Z) (prev : speedTestByteSample) : list speedTestByteSample :=
  match bins with
  | [] => [prev]
  | bin :: bins =>
      let left_ := index * speedTestSampleInterval in
      if elapsed <? left_ then [prev]
      else
        let total := (total +i bin)%go in
        let s := {| by_at := Z.min (left_ + speedTestSampleInterval) elapsed; by_bytes := total |} in
        if by_at s =? by_at prev then sample_loop elapsed bins (index + 1) total s
        else prev :: sample_loop elapsed bins (index + 1) total s
  end.

Definition samples (elapsed : duration) (m : speedTestMeter) : list speedTestByteSample :=
  sample_loop (Z.min (Z.max elapsed Nanosecond) (mt_duration m)) (mt_bins m) 0 0 {| by_at := 0; by_bytes := 0 |}.

(** ** Speeds *)

(** The loop of [speedTestWindowSpeed], back from the sample before the last. *)
Fixpoint window_first (window : duration) (last_at : duration) (earlier : list speedTestByteSample) (first : speedTestByteSample) : speedTestByteSample :=
  match earlier with
  | [] => first
  | s :: earlier => if window <=? last_at - by_at s then s else window_first window last_at earlier s
  end.

Definition speedTestWindowSpeed (l : list speedTestByteSample) (window : duration) : float64 :=
  match rev l with
  | last_ :: (_ :: _) as earlier =>
      let first := window_first window (by_at last_) earlier last_ in
      if by_at last_ <=? by_at first then f64 0
      else math_Max (f64 0) (f64_div (f64_div (f64_mul (f64 (by_bytes last_ -i by_bytes first)%go) (f64 8)) (Seconds (by_at last_ - by_at first))) (f64 1000000))
  | _ => f64 0
  end.

Section speeds.
Context (unrepresentable : float64 → Z).

Definition speedTestStableSpeed (l : list speedTestByteSample) : float64 :=
  match l, rev l with
  | first :: _ :: _, last_ :: _ =>
      let cut := int64_of unrepresentable (f64_mul (f64 (by_at last_)) (decimal 3 10)) in
      let first := default first (find (λ s, (cut <=? by_at s) && (by_at s <? by_at last_)) l) in
      speedTestWindowSpeed [first; last_] (by_at last_)
  | _, _ => f64 0
  end.

(** The curve [publishLoad] shows: every other sample, and the last. *)
Definition load_curve (l : list speedTestByteSample) : list SpeedTestSample :=
  let curve := omap (λ i, if negb (i mod 2 =? 0)%nat && negb (i =? length l - 1)%nat then None
    else s ← l !! i; Some {| ss_ElapsedMs := Milliseconds (by_at s); ss_Mbps := speedTestWindowSpeed (take (i + 1) l) Second |})
    (seq 1 (length l - 1)) in
  drop (length curve - speedTestMaxSamples) curve.

Definition speedTestMedian (values : list float64) : float64 :=
  match values with
  | [] => f64 0
  | _ =>
      let ordered := sort_floats values in
      let middle := (length ordered / 2)%nat in
      let value i := default (f64 0) (ordered !! i) in
      if (length ordered mod 2 =? 0)%nat then f64_div (f64_add (value (middle - 1)%nat) (value middle)) (f64 2) else value middle
  end.

Definition speedTestLatencyStats (values : list float64) : option SpeedTestLatencySummary :=
  let valid := filter (λ v, SFleb (f64 0) v && finite v = true) values in
  match valid with
  | [] => None
  | v :: rest =>
      let jitter := foldl (λ acc p, f64_add acc (SFabs (f64_sub p.2 p.1))) (f64 0) (zip valid rest) in
      Some {| sl_MedianMs := speedTestMedian valid; sl_Count := Z.of_nat (length valid);
              sl_JitterMs := if (1 <? length valid)%nat then Some (f64_div jitter (f64 (Z.of_nat (length valid) - 1))) else None |}
  end.

Definition speedTestRPM (loaded : list float64) : option Z :=
  l ← speedTestLatencyStats loaded;
  if SFleb (sl_MedianMs l) (f64 0) then None
  else Some (int64_of unrepresentable (math_Min (f64 2147483647) (f64_div (f64 60000) (sl_MedianMs l)))).

(** How much [transferLoop] asks for next, after [count] bytes in [took]. *)
Definition next_block (upload : bool) (count : Z) (took : duration) (block : Z) : Z :=
  let seconds := Seconds took in
  if SFltb (f64 0) seconds then
    int64_of unrepresentable (math_Min (f64 speedTestMaxPayload) (math_Max (f64 (64 * 1024))
      (f64_div (f64_mul (f64 count) (if upload then decimal 5 10 else f64 1)) seconds)))
  else block.
End speeds.

(** [observeProtocol]: the oldest protocol seen. *)
Definition observeProtocol (major : Z) (r : speedTestRun) : speedTestRun :=
  let protocol := "h" +:+ Itoa major in
  update r (λ s,
    let s := if (1 <=? major) && (major <=? 3) && (compareS protocol (sn_Protocol s) <? 0) then {| s with sn_Protocol := protocol |} else s in
    {| s with sn_ProtocolFallback := negb (eqs (sn_Protocol s) (sp_Protocol (ru_params r))) |}).

(** ** What a meter is told *)

Inductive meter_op := Add (at_ : duration) (bytes : Z) | Confirm (start end_ : duration) (bytes : Z) | Freeze.

Definition meter_step (unrepresentable : float64 → Z) (m : speedTestMeter) (op : meter_op) : option speedTestMeter :=
  match op with
  | Add at_ bytes => add at_ bytes m
  | Confirm start end_ bytes => confirm unrepresentable start end_ bytes m
  | Freeze => Some (freeze m)
  end.

Definition meter_run (unrepresentable : float64 → Z) (m : speedTestMeter) (ops : list meter_op) : option speedTestMeter :=
  foldl (λ m op, m ← m; meter_step unrepresentable m op) (Some m) ops.

(** ** The meter of a speed test accounts for every byte *)

(** The bytes a meter of duration [d] is told of while it runs. *)
Fixpoint told (d : duration) (ops : list meter_op) : Z :=
  match ops with
  | [] | Freeze :: _ => 0
  | Add at_ bytes :: ops => (if (0 <=? at_) && (at_ <=? d) && (0 <? bytes) then bytes else 0) + told d ops
  | Confirm start end_ bytes :: ops =>
      (if (0 <=? start) && (start <=? end_) && (end_ <=? d) && (0 <? bytes) then bytes else 0) + told d ops
  end.

Definition freezes (op : meter_op) : bool := match op with Freeze => true | _ => false end.

Definition total (l : list Z) : Z := foldr Z.add 0 l.

Lemma total_app l l' : total (l ++ l') = total l + total l'.
Proof. unfold total. induction l as [|x l IH]; cbn; [done|]. lia. Qed.

Lemma total_replicate n : total (replicate n 0) = 0.
Proof. unfold total. by induction n. Qed.

Lemma total_nonneg l : Forall (Z.le 0) l → 0 ≤ total l.
Proof. unfold total. induction 1; cbn; lia. Qed.

Lemma total_elem l i b : Forall (Z.le 0) l → l !! i = Some b → 0 ≤ b ≤ total l.
Proof.
  intros Hl Hi. rewrite <- (take_drop_middle l i b Hi), total_app. assert (Hb := Forall_lookup_1 _ _ _ _ Hl Hi).
  assert (H1 := total_nonneg (take i l) ltac:(by apply Forall_take)). assert (H2 := total_nonneg (drop (S i) l) ltac:(by apply Forall_drop)). unfold total in *. cbn. lia.
Qed.

Lemma total_alter l i b n : l !! i = Some b → total (alter (λ _, b + n) i l) = total l + n.
Proof.
  revert i. unfold total. induction l as [|x l IH]; intros [|i] Hi; try done; cbn in *.
  - injection Hi as ->. lia.
  - specialize (IH i Hi). change (list_alter _ i l) with (alter (λ _, b + n) i l). lia.
Qed.

(** *** The invariant of a meter *)

Definition fits (z : Z) : Prop := 0 ≤ z < 2 ^ 53.

Record meter_ok (m : speedTestMeter) : Prop := {
  mo_duration : 1 ≤ mt_duration m ≤ 30 * Second;
  mo_length : Z.of_nat (length (mt_bins m)) = Z.quot (mt_duration m) speedTestSampleInterval + 1;
  mo_bins : Forall (Z.le 0) (mt_bins m);
  mo_total : fits (total (mt_bins m));
}.

(** Nothing but the bins changed, and they hold [n] more. *)
Definition more (m : speedTestMeter) (n : Z) (m' : speedTestMeter) : Prop :=
  meter_ok m' ∧ mt_duration m' = mt_duration m ∧ mt_frozen m' = mt_frozen m ∧ total (mt_bins m') = total (mt_bins m) + n.

Lemma interval_pos : 0 < speedTestSampleInterval.
Proof. done. Qed.

Lemma meter_ok_new d : meter_ok (newSpeedTestMeter d) ∧ total (mt_bins (newSpeedTestMeter d)) = 0.
Proof.
  unfold newSpeedTestMeter. cbn. rewrite total_replicate. split; [|done]. set (d' := Z.min _ _).
  assert (Hd : 1 ≤ d' ≤ 30 * Second) by (unfold d', Nanosecond, Second; lia).
  assert (Hq : 0 ≤ Z.quot d' speedTestSampleInterval) by (apply Z.quot_pos; [lia | apply interval_pos]).
  split; cbn; [done | rewrite length_replicate; lia | by apply Forall_replicate | rewrite total_replicate; done].
Qed.

Lemma bump_spec m i n : meter_ok m → 0 ≤ n → fits (total (mt_bins m) + n) → 0 ≤ i ≤ Z.quot (mt_duration m) speedTestSampleInterval →
  ∃ m', bump i n m = Some m' ∧ more m n m'.
Proof.
  intros Hok Hn Hfits Hi. assert (Hlen := mo_length m Hok). unfold bump.
  rewrite (proj2 (Z.leb_le 0 i)) by lia. rewrite (proj2 (Z.ltb_lt i (Z.of_nat (length (mt_bins m))))) by lia. cbn [andb]. eexists. split; [reflexivity|].
  destruct (lookup_lt_is_Some_2 (mt_bins m) (Z.to_nat i)) as [b Hb]; [lia|]. assert (Hrange := total_elem _ _ _ (mo_bins m Hok) Hb).
  assert (Halter : alter (λ b, (b +i n)%go) (Z.to_nat i) (mt_bins m) = alter (λ _, b + n) (Z.to_nat i) (mt_bins m)).
  { apply list_alter_ext; [|done]. intros x Hx. assert (x = b) as -> by congruence. unfold fits in Hfits.
    rewrite wrap64_small; [done|]. unfold in64, min64, max64. lia. }
  unfold more. cbn [mt_bins mt_duration mt_frozen]. rewrite Halter, (total_alter _ _ b n Hb).
  split_and!; [|done..]. split; cbn [mt_bins mt_duration mt_frozen]; [apply Hok | by rewrite length_alter | |].
  - apply Forall_alter; [apply Hok|]. intros x _ _. cbn. lia.
  - by rewrite (total_alter _ _ b n Hb).
Qed.

Lemma more_trans m n m1 n1 m2 : more m n m1 → more m1 n1 m2 → more m (n + n1) m2.
Proof. intros (_ & D1 & F1 & T1) (Hok & D2 & F2 & T2). unfold more. split_and!; [done | congruence | congruence | lia]. Qed.

Lemma more_refl m : meter_ok m → more m 0 m.
Proof. intros. unfold more. split_and!; [done.. | lia]. Qed.

(** *** A confirmed upload is spread over its time, and nothing of it is lost *)

Section facts.
Context (unrepresentable : float64 → Z).

(** The share of an interval is not negative, and an int64. *)
Lemma part_of_nonneg bytes start end_ left_ right_ : 0 ≤ bytes < 2 ^ 53 → 0 < end_ - start < 2 ^ 53 → 0 ≤ right_ - left_ ≤ end_ - start →
  0 ≤ part_of unrepresentable bytes start end_ left_ right_.
Proof using Type.
  intros Hb Hd Hp. unfold part_of. set (L := Z.log2 (end_ - start)). assert (Hspec := Z.log2_spec (end_ - start) (proj1 Hd)). fold L in Hspec.
  assert (HL : 0 ≤ L < 53) by (split; [apply Z.log2_nonneg | apply Z.log2_lt_pow2; lia]).
  assert (Hbytes := f64_under bytes 53 Hb ltac:(lia)). assert (Hpart := f64_under (right_ - left_) (L + 1) ltac:(lia) ltac:(lia)).
  assert (Hwhole := f64_over (end_ - start) L ltac:(lia) ltac:(lia)).
  assert (Hmul := f64_mul_under _ _ _ _ Hbytes Hpart ltac:(lia)). assert (Hdiv := f64_div_under _ _ _ _ Hmul Hwhole ltac:(lia)).
  apply (int64_of_under unrepresentable _ _ Hdiv). lia.
Qed.

Lemma spread_spec start end_ bytes fuel : ∀ index remaining m, meter_ok m → 0 ≤ start < end_ → end_ ≤ mt_duration m → 0 < bytes < 2 ^ 53 →
  0 ≤ remaining → fits (total (mt_bins m) + remaining) → 0 ≤ index → start < (index + 1) * speedTestSampleInterval →
  (index * speedTestSampleInterval < end_ ∨ remaining = 0) → Z.quot end_ speedTestSampleInterval + 2 - index ≤ Z.of_nat fuel → (0 < fuel)%nat →
  ∃ m', spread unrepresentable fuel start end_ bytes index remaining m = Some m' ∧ more m remaining m'.
Proof using Type.
  induction fuel as [|fuel IH]; intros index remaining m Hok Hse Hend Hb Hrem Hfits Hi Hstart Hleft Hfuel H0; [lia|]. cbn [spread].
  assert (Hdur := mo_duration m Hok). assert (HI := interval_pos). assert (Ht := mo_total m Hok). unfold fits in Ht.
  assert (Hmod := Z.quot_rem' end_ speedTestSampleInterval). assert (Hrb := Z.rem_bound_pos end_ speedTestSampleInterval ltac:(lia) HI).
  destruct (Z.ltb_spec (index * speedTestSampleInterval) end_) as [Hlt|Hge].
  2: { destruct Hleft as [| ->]; [lia|]. exists m. split; [done | by apply more_refl]. }
  set (left_ := Z.max _ _). set (right_ := Z.min _ _).
  set (share := if right_ =? end_ then remaining else Z.min remaining (part_of unrepresentable bytes start end_ left_ right_)).
  assert (Hshare : 0 ≤ share ≤ remaining ∧ (right_ = end_ → share = remaining)).
  { unfold share. destruct (Z.eqb_spec right_ end_); [lia|]. assert (Hp := part_of_nonneg bytes start end_ left_ right_).
    assert (0 ≤ part_of unrepresentable bytes start end_ left_ right_); [|lia]. unfold Second in Hdur. apply Hp; unfold left_, right_ in *; lia. }
  destruct (bump_spec m index share) as (m1 & Hb1 & Hmore1); [done | lia | unfold fits in *; lia | |].
  { split; [done|]. apply Z.quot_le_lower_bound; lia. }
  rewrite Hb1. cbn [mbind option_bind]. rewrite wrap64_small by (unfold in64, min64, max64, fits in *; lia).
  destruct Hmore1 as (Hok1 & Hd1 & Hf1 & Ht1).
  destruct (IH (index + 1) (remaining - share) m1) as (m2 & Hs2 & Hmore2); try done; try lia.
  - unfold fits in *. lia.
  - assert (index ≤ Z.quot end_ speedTestSampleInterval) by (apply Z.quot_le_lower_bound; lia). lia.
  - exists m2. split; [done|]. replace remaining with (share + (remaining - share)) by lia. eapply more_trans; [|exact Hmore2]. done.
Qed.

Lemma add_spec m at_ bytes : meter_ok m → mt_frozen m = false →
  let n := if (0 <=? at_) && (at_ <=? mt_duration m) && (0 <? bytes) then bytes else 0 in
  fits (total (mt_bins m) + n) → ∃ m', add at_ bytes m = Some m' ∧ more m n m'.
Proof using Type.
  intros Hok Hf n Hfits. unfold add. rewrite Hf. cbn [negb andb]. unfold n in *. destruct (_ && _) eqn:E; [|exists m; split; [done | by apply more_refl]].
  apply andb_true_iff in E as [[H1 H2]%andb_true_iff H3]. apply bump_spec; [done | lia | done |]. split; [apply Z.quot_pos; [lia | apply interval_pos]|].
  apply Z.quot_le_mono; [apply interval_pos | lia].
Qed.

Lemma confirm_spec m start end_ bytes : meter_ok m → mt_frozen m = false →
  let n := if (0 <=? start) && (start <=? end_) && (end_ <=? mt_duration m) && (0 <? bytes) then bytes else 0 in
  fits (total (mt_bins m) + n) → ∃ m', confirm unrepresentable start end_ bytes m = Some m' ∧ more m n m'.
Proof using Type.
  intros Hok Hf n Hfits. unfold confirm. rewrite Hf. cbn [orb]. unfold n in *. assert (HI := interval_pos).
  destruct (_ || _ || _ || _) eqn:E.
  { replace (if _ && _ && _ && _ then bytes else 0) with 0 by (destruct (_ && _ && _ && _) eqn:E2; [lia | done]). exists m. split; [done | by apply more_refl]. }
  assert (Hin : 0 ≤ start ∧ start ≤ end_ ∧ end_ ≤ mt_duration m ∧ 0 < bytes) by lia.
  replace (if _ && _ && _ && _ then bytes else 0) with bytes in * by (destruct (_ && _ && _ && _) eqn:E2; [done | lia]).
  assert (Ht := mo_total m Hok). assert (Hdur := mo_duration m Hok). unfold fits in Hfits, Ht.
  destruct (Z.eqb_spec end_ start) as [->|Hne].
  - apply bump_spec; [done | lia | done |]. split; [apply Z.quot_pos; lia | apply Z.quot_le_mono; lia].
  - assert (Hmod := Z.quot_rem' start speedTestSampleInterval). assert (Hrb := Z.rem_bound_pos start speedTestSampleInterval ltac:(lia) HI).
    assert (Hq : 0 ≤ Z.quot start speedTestSampleInterval) by (apply Z.quot_pos; lia).
    assert (Hqe : 0 ≤ Z.quot end_ speedTestSampleInterval) by (apply Z.quot_pos; lia).
    apply spread_spec; unfold confirm_fuel; try done; try lia.
Qed.

Lemma meter_step_spec m op : meter_ok m → mt_frozen m = false →
  fits (total (mt_bins m) + told (mt_duration m) [op]) → ∃ m', meter_step unrepresentable m op = Some m' ∧ meter_ok m' ∧
    mt_duration m' = mt_duration m ∧ total (mt_bins m') = total (mt_bins m) + told (mt_duration m) [op] ∧
    mt_frozen m' = freezes op.
Proof using Type.
  intros Hok Hf Hfits. destruct op as [at_ bytes|start end_ bytes|]; cbn [told meter_step] in *; rewrite ?Z.add_0_r in Hfits |- *.
  - destruct (add_spec m at_ bytes Hok Hf Hfits) as (m' & E & H1 & H2 & H3 & H4). exists m'. split_and!; [done.. |]. by rewrite H3, Hf.
  - destruct (confirm_spec m start end_ bytes Hok Hf Hfits) as (m' & E & H1 & H2 & H3 & H4). exists m'. split_and!; [done.. |]. by rewrite H3, Hf.
  - exists (freeze m). split_and!; try done. destruct Hok. by split.
Qed.

Lemma frozen_step m op : mt_frozen m = true → ∃ m', meter_step unrepresentable m op = Some m' ∧ mt_frozen m' = true ∧ mt_bins m' = mt_bins m ∧
  mt_duration m' = mt_duration m.
Proof using Type.
  intros Hf. exists m. destruct op as [at_ bytes|start end_ bytes|]; cbn; unfold add, confirm; rewrite ?Hf; cbn; [done.. |].
  unfold freeze. destruct m. cbn in *. by subst.
Qed.

Lemma told_nonneg d ops : 0 ≤ told d ops.
Proof using Type. induction ops as [|[at_ b|s e b|] ops IH]; cbn [told]; [done | | | done]; destruct (_ && _) eqn:E; lia. Qed.

Lemma told_cons d op ops : told d (op :: ops) = told d [op] + (if freezes op then 0 else told d ops).
Proof using Type. destruct op; cbn [told freezes]; lia. Qed.

Lemma meter_run_spec ops : ∀ m, meter_ok m → fits (total (mt_bins m) + told (mt_duration m) ops) → mt_frozen m = false →
  ∃ m', meter_run unrepresentable m ops = Some m' ∧ meter_ok m' ∧ mt_duration m' = mt_duration m ∧
    total (mt_bins m') = total (mt_bins m) + told (mt_duration m) ops.
Proof using Type.
  unfold meter_run. induction ops as [|op ops IH]; intros m Hok Hfits Hf; [exists m; split_and!; [done.. | cbn; lia]|].
  rewrite told_cons in Hfits |- *. cbn [foldl mbind option_bind]. assert (Hn := told_nonneg (mt_duration m) ops).
  assert (Hn1 := total_nonneg _ (mo_bins m Hok)). assert (Hn2 := told_nonneg (mt_duration m) [op]).
  destruct (meter_step_spec m op Hok Hf) as (m1 & -> & Hok1 & Hd1 & Ht1 & Hf1).
  { unfold fits in *. destruct (freezes op); lia. }
  destruct (freezes op) eqn:Hop.
  - rewrite Z.add_0_r, <- Ht1, <- Hd1. clear -Hok1 Hf1.
    revert m1 Hok1 Hf1. induction ops as [|op ops IH]; intros m1 Hok1 Hfr; [by exists m1|]. cbn [foldl mbind option_bind].
    destruct (frozen_step m1 op Hfr) as (m2 & -> & Hf2 & Hb2 & Hd2). destruct (IH m2) as (m3 & -> & H1 & H2 & H3); [|done|].
    + destruct Hok1. split; rewrite ?Hb2, ?Hd2; done.
    + exists m3. split_and!; [done.. | congruence | congruence].
  - destruct (IH m1) as (m2 & -> & H1 & H2 & H3); [done | rewrite Hd1; unfold fits in *; lia | done |].
    exists m2. split_and!; [done.. | congruence | rewrite H3, Hd1; lia].
Qed.
End facts.

(** *** The samples *)

Definition earlier (a b : speedTestByteSample) : Prop := by_at a < by_at b ∧ by_bytes a ≤ by_bytes b.

(** How many of the bins from the [index]-th on begin by [elapsed]. *)
Definition begun (elapsed index : Z) : nat := Z.to_nat (Z.quot elapsed speedTestSampleInterval + 1 - index).

Lemma sample_loop_spec elapsed bins : ∀ index sum prev, 1 ≤ elapsed → 0 ≤ index → 0 ≤ sum → Forall (Z.le 0) bins → fits (sum + total bins) →
  by_bytes prev = sum → by_at prev = Z.min (index * speedTestSampleInterval) elapsed →
  let l := sample_loop elapsed bins index sum prev in
  StronglySorted earlier l ∧ Forall (λ s, by_at prev ≤ by_at s ∧ sum ≤ by_bytes s) l ∧
  ∃ s, last l = Some s ∧ by_bytes s = sum + total (take (begun elapsed index) bins) ∧
    (elapsed ≤ (index + Z.of_nat (length bins)) * speedTestSampleInterval → by_at s = elapsed).
Proof.
  assert (HI := interval_pos). induction bins as [|bin bins IH]; intros index sum prev He Hi Hsum Hbins Hfits Hb Ha; cbn [sample_loop].
  - split_and!; [repeat constructor | constructor; [lia | done] |]. exists prev. rewrite take_nil. cbn. split_and!; [done | lia | lia].
  - apply Forall_cons in Hbins as [Hbin Hbins]. cbn [total foldr] in Hfits. change (foldr Z.add 0 bins) with (total bins) in Hfits.
    assert (Htot := total_nonneg bins Hbins). assert (Hmod := Z.quot_rem' elapsed speedTestSampleInterval).
    assert (Hrb := Z.rem_bound_pos elapsed speedTestSampleInterval ltac:(lia) HI). unfold fits in Hfits.
    destruct (Z.ltb_spec elapsed (index * speedTestSampleInterval)) as [Hlt|Hge].
    + assert (Hnone : begun elapsed index = 0%nat).
      { unfold begun. assert (Z.quot elapsed speedTestSampleInterval < index) by (apply Z.quot_lt_upper_bound; lia). lia. }
      split_and!; [repeat constructor | constructor; [lia | done] |]. exists prev. rewrite Hnone. cbn. split_and!; [done | lia | lia].
    + assert (Hle : index ≤ Z.quot elapsed speedTestSampleInterval) by (apply Z.quot_le_lower_bound; lia).
      assert (Hmore : begun elapsed index = S (begun elapsed (index + 1))) by (unfold begun; lia).
      rewrite wrap64_small by (unfold in64, min64, max64; lia). set (s := {| by_at := _; by_bytes := _ |}).
      destruct (IH (index + 1) (sum + bin) s) as (Hsort & Hall & z & Hlast & Hz & Hat); [done | lia | lia | done | unfold fits; lia | done | cbn; lia |].
      assert (Hend : ∃ z, last (sample_loop elapsed bins (index + 1) (sum + bin) s) = Some z ∧
        by_bytes z = sum + total (take (begun elapsed index) (bin :: bins)) ∧
        (elapsed ≤ (index + Z.of_nat (length (bin :: bins))) * speedTestSampleInterval → by_at z = elapsed)).
      { exists z. rewrite Hmore. cbn [take total foldr length]. split_and!; [done | | intros; apply Hat; lia].
        rewrite Hz. change (foldr Z.add 0 (take (begun elapsed (index + 1)) bins)) with (total (take (begun elapsed (index + 1)) bins)). lia. }
      destruct (Z.eqb_spec (by_at s) (by_at prev)) as [Heq|Hne].
      * split_and!; [done | | done]. eapply Forall_impl; [exact Hall|]. intros x. cbn. lia.
      * assert (Hs : by_at prev < by_at s) by (cbn in Hne |- *; lia). split_and!.
        -- constructor; [done|]. eapply Forall_impl; [exact Hall|]. intros x. unfold earlier. cbn in *. lia.
        -- constructor; [lia|]. eapply Forall_impl; [exact Hall|]. intros x. cbn in *. lia.
        -- destruct Hend as (z' & Hl & ?). exists z'. split; [|done].
           destruct (sample_loop elapsed bins (index + 1) (sum + bin) s); [done|]. exact Hl.
Qed.

(** C28: The meter of a speed test accounts for every byte once. Whatever it
    is told, in any order, of less than 2^53 bytes: no index it computes is
    out of range and no loop of it runs on, so nothing panics; its bins are
    not negative, and together hold just the bytes received or confirmed
    within the test's duration and before it was frozen, a confirmed upload
    spread over the intervals of its request without losing any to rounding
    (and whatever an out-of-range conversion of a float would give). At any
    moment its samples start at zero, go forward in time without the count
    ever going back, end at that moment, and from the end of the test on their last one
    holds every byte accounted. *)
Theorem meter_exact unrepresentable d ops elapsed : told (mt_duration (newSpeedTestMeter d)) ops < 2 ^ 53 →
  ∃ m, meter_run unrepresentable (newSpeedTestMeter d) ops = Some m ∧
    Forall (Z.le 0) (mt_bins m) ∧ total (mt_bins m) = told (mt_duration m) ops ∧
    let moment := Z.min (Z.max elapsed Nanosecond) (mt_duration m) in
    ∃ s rest, samples elapsed m = {| by_at := 0; by_bytes := 0 |} :: rest ∧ StronglySorted earlier (samples elapsed m) ∧
      last (samples elapsed m) = Some s ∧ by_at s = moment ∧ by_bytes s = total (take (begun moment 0) (mt_bins m)) ∧
      (mt_duration m ≤ elapsed → by_bytes s = told (mt_duration m) ops).
Proof.
  intros Htold. destruct (meter_ok_new d) as [Hok Hzero]. assert (Hn := told_nonneg (mt_duration (newSpeedTestMeter d)) ops).
  destruct (meter_run_spec unrepresentable ops _ Hok) as (m & -> & Hok' & Hd & Ht); [rewrite Hzero; unfold fits; lia | done|].
  exists m. rewrite Hzero in Ht. rewrite <- Hd in Ht. split_and!; [done | apply Hok' | lia |]. intros moment.
  assert (Hdur := mo_duration m Hok'). assert (Hlen := mo_length m Hok'). assert (HI := interval_pos).
  assert (Hmom : 1 ≤ moment ≤ mt_duration m) by (unfold moment, Nanosecond; lia).
  assert (Hmod := Z.quot_rem' (mt_duration m) speedTestSampleInterval).
  assert (Hrb := Z.rem_bound_pos (mt_duration m) speedTestSampleInterval ltac:(lia) HI).
  destruct (sample_loop_spec moment (mt_bins m) 0 0 {| by_at := 0; by_bytes := 0 |}) as (Hsort & _ & s & Hlast & Hbytes & Hat);
    [lia | done | done | apply Hok' | apply Hok' | done | cbn; lia |].
  assert (Hfirst : ∃ rest, samples elapsed m = {| by_at := 0; by_bytes := 0 |} :: rest).
  { unfold samples. fold moment. destruct (mt_bins m) as [|bin bins]; [cbn in Hlen; assert (0 ≤ Z.quot (mt_duration m) speedTestSampleInterval) by (apply Z.quot_pos; lia); lia|].
    cbn [sample_loop]. rewrite (proj2 (Z.ltb_ge moment _)) by (cbn; lia). cbn [by_at].
    rewrite (proj2 (Z.eqb_neq _ 0)) by lia. by eexists. }
  destruct Hfirst as [rest Hrest]. exists s, rest. split_and!; [done | exact Hsort | exact Hlast | apply Hat; nia | exact Hbytes |].
  intros Hover. rewrite Hbytes, take_ge; [lia|]. unfold begun. assert (moment = mt_duration m) as -> by (unfold moment; lia). lia.
Qed.

(** *** A meter at work *)

Module Sample.
(** A download in the first interval, an upload confirmed over 170 ms of
    three, and one that comes after the freeze. *)
Definition ops : list meter_op :=
  [Add (50 * Millisecond) 100; Confirm (80 * Millisecond) (250 * Millisecond) 1000; Freeze; Add (300 * Millisecond) 7].

Lemma meter_exact_witness :
  let m := default (newSpeedTestMeter 0) (meter_run (λ _, -1) (newSpeedTestMeter Second) ops) in
  mt_bins m = [217; 588; 295; 0; 0; 0; 0; 0; 0; 0; 0] ∧ total (mt_bins m) = 1100 ∧
  ∃ s, last (samples Second m) = Some s ∧ by_bytes s = 1100.
Proof.
  intros m. split; [vm_compute; reflexivity|].
  destruct (meter_exact (λ _, -1) Second ops Second) as (m' & Hm & _ & Ht & s & rest & _ & _ & Hlast & _ & _ & Hend); [vm_compute; reflexivity|].
  assert (m = m') as <- by (unfold m; by rewrite Hm). split; [exact Ht|]. exists s. split; [exact Hlast|]. apply Hend. vm_compute. discriminate.
Defined.

(** The speed read from it: 1100 bytes in a second. *)
Example window_speed :
  speedTestWindowSpeed (samples Second (default (newSpeedTestMeter 0) (meter_run (λ _, -1) (newSpeedTestMeter Second) ops))) Second =
  f64_div (f64 8800) (f64 1000000).
Proof. vm_compute. reflexivity. Qed.

(** Idle latencies: one that is no number is not counted. *)
Example latency_stats :
  speedTestLatencyStats [f64 30; S754_nan; f64 10; f64 20] =
  Some {| sl_MedianMs := f64 20; sl_JitterMs := Some (f64 15); sl_Count := 3 |}.
Proof. vm_compute. reflexivity. Qed.
End Sample.
