(* ===== verification/Region.v ===== *)
(** * Country codes of services: core/region.go

    A code of two letters as it is, one of three by a binary search in a
    packed table. *)

From S2P Require Import Prelude GoText TextFacts.

Definition iso3166Packed : string :=
  "ABWAWAFGAFAGOAOAIAAIALAAXALBALANDADAREAEARGARARMAMASMASATAAQ" +:+
  "ATFTFATGAGAUSAUAUTATAZEAZBDIBIBELBEBENBJBESBQBFABFBGDBDBGRBG" +:+
  "BHRBHBHSBSBIHBABLMBLBLRBYBLZBZBMUBMBOLBOBRABRBRBBBBRNBNBTNBT" +:+
  "BVTBVBWABWCAFCFCANCACCKCCCHECHCHLCLCHNCNCIVCICMRCMCODCDCOGCG" +:+
  "COKCKCOLCOCOMKMCPVCVCRICRCUBCUCUWCWCXRCXCYMKYCYPCYCZECZDEUDE" +:+
  "DJIDJDMADMDNKDKDOMDODZADZECUECEGYEGERIERESHEHESPESESTEEETHET" +:+
  "FINFIFJIFJFLKFKFRAFRFROFOFSMFMGABGAGBRGBGEOGEGGYGGGHAGHGIBGI" +:+
  "GINGNGLPGPGMBGMGNBGWGNQGQGRCGRGRDGDGRLGLGTMGTGUFGFGUMGUGUYGY" +:+
  "HKGHKHMDHMHNDHNHRVHRHTIHTHUNHUIDNIDIMNIMINDINIOTIOIRLIEIRNIR" +:+
  "IRQIQISLISISRILITAITJAMJMJEYJEJORJOJPNJPKAZKZKENKEKGZKGKHMKH" +:+
  "KIRKIKNAKNKORKRKWTKWLAOLALBNLBLBRLRLBYLYLCALCLIELILKALKLSOLS" +:+
  "LTULTLUXLULVALVMACMOMAFMFMARMAMCOMCMDAMDMDGMGMDVMVMEXMXMHLMH" +:+
  "MKDMKMLIMLMLTMTMMRMMMNEMEMNGMNMNPMPMOZMZMRTMRMSRMSMTQMQMUSMU" +:+
  "MWIMWMYSMYMYTYTNAMNANCLNCNERNENFKNFNGANGNICNINIUNUNLDNLNORNO" +:+
  "NPLNPNRUNRNZLNZOMNOMPAKPKPANPAPCNPNPERPEPHLPHPLWPWPNGPGPOLPL" +:+
  "PRIPRPRKKPPRTPTPRYPYPSEPSPYFPFQATQAREUREROURORUSRURWARWSAUSA" +:+
  "SDNSDSENSNSGPSGSGSGSSHNSHSJMSJSLBSBSLESLSLVSVSMRSMSOMSOSPMPM" +:+
  "SRBRSSSDSSSTPSTSURSRSVKSKSVNSISWESESWZSZSXMSXSYCSCSYRSYTCATC" +:+
  "TCDTDTGOTGTHATHTJKTJTKLTKTKMTMTLSTLTONTOTTOTTTUNTNTURTRTUVTV" +:+
  "TWNTWTZATZUGAUGUKRUAUMIUMURYUYUSAUSUZBUZVATVAVCTVCVENVEVGBVG" +:+
  "VIRVIVNMVNVUTVUWLFWFWSMWSYEMYEZAFZAZMBZMZWEZW".

Definition isAsciiUpper (value : string) : bool := forallb (in_range 65 90) (decode value).

(** Bytes [i] to [j] of the table. *)
Definition slice (s : string) (i j : Z) : string := String.substring (Z.to_nat i) (Z.to_nat (j - i)) s.

(** The binary search between [low] and [high]; a turn halves what is left. *)
Fixpoint search (fuel : nat) (code : string) (low high : Z) : option string :=
  match fuel with
  | O => None
  | S fuel =>
      if low <? high then
        let mid := Z.quot (low + high) 2 in
        let order := compareS (slice iso3166Packed (mid * 5) (mid * 5 + 3)) code in
        if order <? 0 then search fuel code (mid + 1) high
        else if 0 <? order then search fuel code low mid
        else Some (slice iso3166Packed (mid * 5 + 3) (mid * 5 + 5))
      else Some EmptyString
  end.

Definition search_fuel : nat := 9.

Definition normalizeRegion `{Unicode} (code : string) : string :=
  let code := ToUpper (TrimSpace code) in
  if slen code =? 2 then (if isAsciiUpper code then code else EmptyString)
  else if slen code =? 3 then
    if negb (isAsciiUpper code) then EmptyString
    else default EmptyString (search search_fuel code 0 (Z.quot (slen iso3166Packed) 5))
  else EmptyString.

(** ** The search finds what the table has *)

Definition entry (i : Z) : string * string := (slice iso3166Packed (i * 5) (i * 5 + 3), slice iso3166Packed (i * 5 + 3) (i * 5 + 5)).
Definition entries_number : Z := Z.quot (slen iso3166Packed) 5.

(** The table by alpha-3 code. *)
Definition table : list (string * string) := Eval vm_compute in (λ i, entry (Z.of_nat i)) <$> seq 0 (Z.to_nat entries_number).

Definition alpha2_of (code : string) : string :=
  match find (λ e, eqs e.1 code) table with Some e => e.2 | None => EmptyString end.

Lemma table_entry i : 0 ≤ i < 249 → table !! Z.to_nat i = Some (entry i).
Proof.
  intros Hi. assert (Hall : forallb (λ i, bool_decide (table !! i = Some (entry (Z.of_nat i)))) (seq 0 249) = true) by (vm_compute; reflexivity).
  rewrite forallb_forall in Hall. specialize (Hall (Z.to_nat i)). rewrite bool_decide_eq_true, Z2Nat.id in Hall by lia.
  apply Hall, list_elem_of_In, elem_of_seq. lia.
Qed.

Lemma compareS_lt_trans a b c : compareS a b < 0 → compareS b c < 0 → compareS a c < 0.
Proof.
  intros Hab Hbc. assert (Hac := compareS_trans a b c ltac:(lia) ltac:(lia)). destruct (Z.eq_dec (compareS a c) 0) as [E|]; [|lia].
  apply compareS_0 in E as ->. rewrite compareS_opp in Hab. lia.
Qed.

Lemma table_sorted i j : 0 ≤ i < j → j < 249 → compareS (entry i).1 (entry j).1 < 0.
Proof.
  intros Hij Hj. assert (Hall : forallb (λ i, compareS (entry i).1 (entry (i + 1)).1 <? 0) (Z.of_nat <$> seq 0 248) = true) by (vm_compute; reflexivity).
  rewrite forallb_forall in Hall.
  assert (Hnext : ∀ i, 0 ≤ i < 248 → compareS (entry i).1 (entry (i + 1)).1 < 0).
  { intros k Hk. apply Z.ltb_lt, Hall, list_elem_of_In, list_elem_of_fmap. exists (Z.to_nat k). split; [lia|]. apply elem_of_seq. lia. }
  assert (Hgap : ∀ n, i + 1 + Z.of_nat n < 249 → compareS (entry i).1 (entry (i + 1 + Z.of_nat n)).1 < 0).
  { induction n as [|n IH]; intros Hn; [rewrite Z.add_0_r; apply Hnext; lia|].
    eapply compareS_lt_trans; [apply IH; lia|]. replace (i + 1 + Z.of_nat (S n)) with (i + 1 + Z.of_nat n + 1) by lia. apply Hnext. lia. }
  replace j with (i + 1 + Z.of_nat (Z.to_nat (j - i - 1))) by lia. apply Hgap. lia.
Qed.

Lemma in_table e : e ∈ table → ∃ i, 0 ≤ i < 249 ∧ e = entry i.
Proof.
  intros (i & Hi)%list_elem_of_lookup. assert (Hlt := lookup_lt_Some _ _ _ Hi). change (length table) with 249%nat in Hlt.
  exists (Z.of_nat i). split; [lia|]. assert (He := table_entry (Z.of_nat i) ltac:(lia)). rewrite Nat2Z.id, Hi in He. congruence.
Qed.

Lemma alpha2_found i : 0 ≤ i < 249 → alpha2_of (entry i).1 = (entry i).2.
Proof.
  intros Hi. unfold alpha2_of. destruct (find _ table) as [e|] eqn:E.
  - apply find_some in E as [Hin He%eqs_true]. apply list_elem_of_In, in_table in Hin as (j & Hj & ->).
    destruct (Z.lt_trichotomy i j) as [Hlt|[-> |Hlt]]; [|done|].
    + assert (H := table_sorted i j ltac:(lia) ltac:(lia)). rewrite He in H. assert (compareS (entry i).1 (entry i).1 = 0) by (by apply compareS_0). lia.
    + assert (H := table_sorted j i ltac:(lia) ltac:(lia)). rewrite He in H. assert (compareS (entry i).1 (entry i).1 = 0) by (by apply compareS_0). lia.
  - assert (Hin : In (entry i) table) by (apply list_elem_of_In, list_elem_of_lookup; exists (Z.to_nat i); by apply table_entry).
    assert (Hf := find_none _ _ E (entry i) Hin). cbv beta in Hf. by rewrite (proj2 (eqs_true _ _) eq_refl) in Hf.
Qed.

Lemma alpha2_missing code : (∀ i, 0 ≤ i < 249 → (entry i).1 ≠ code) → alpha2_of code = EmptyString.
Proof.
  intros Hno. unfold alpha2_of. destruct (find _ table) as [e|] eqn:E; [|done].
  apply find_some in E as [Hin He%eqs_true]. apply list_elem_of_In, in_table in Hin as (j & Hj & ->). by destruct (Hno j).
Qed.

Lemma search_spec fuel code : ∀ low high, 0 ≤ low ≤ high → high ≤ 249 → high - low < 2 ^ Z.of_nat fuel →
  (∀ i, 0 ≤ i < low → compareS (entry i).1 code < 0) → (∀ i, high ≤ i < 249 → compareS code (entry i).1 < 0) →
  search (S fuel) code low high = Some (alpha2_of code).
Proof.
  induction fuel as [|fuel IH]; intros low high Hl Hh Hgap Hbelow Habove; cbn [search];
  assert (Hrefl : ∀ c, compareS c c = 0) by (intros; by apply compareS_0); destruct (Z.ltb_spec low high) as [Hlt|Hge].
  1: { cbn in Hgap. lia. }
  1, 3: f_equal; symmetry; apply alpha2_missing; intros i Hi <-; destruct (Z.lt_ge_cases i low) as [Hx|Hx];
    [specialize (Hbelow i ltac:(lia)); rewrite Hrefl in Hbelow; lia | specialize (Habove i ltac:(lia)); rewrite Hrefl in Habove; lia].
  set (mid := Z.quot (low + high) 2). assert (Hmid : low ≤ mid < high) by (unfold mid; Z.quot_rem_to_equations; lia).
  change (slice iso3166Packed (mid * 5) (mid * 5 + 3)) with (entry mid).1.
  change (slice iso3166Packed (mid * 5 + 3) (mid * 5 + 5)) with (entry mid).2.
  rewrite Nat2Z.inj_succ, Z.pow_succ_r in Hgap by lia.
  assert (Hhalf : mid - low < 2 ^ Z.of_nat fuel ∧ high - (mid + 1) < 2 ^ Z.of_nat fuel) by (unfold mid; Z.quot_rem_to_equations; lia).
  destruct (Z.ltb_spec (compareS (entry mid).1 code) 0) as [Hc|Hc]; [|destruct (Z.ltb_spec 0 (compareS (entry mid).1 code)) as [Hc'|Hc']].
  - apply IH; [lia | lia | lia | | intros; apply Habove; lia]. intros i Hi. destruct (Z.eq_dec i mid) as [->|]; [done|].
    destruct (Z.lt_ge_cases i low); [apply Hbelow; lia|]. eapply compareS_lt_trans; [apply (table_sorted i mid); lia | done].
  - rewrite compareS_opp in Hc'. apply IH; [lia | lia | lia | intros; apply Hbelow; lia |]. intros i Hi. destruct (Z.eq_dec i mid) as [->|]; [lia|].
    destruct (Z.lt_ge_cases i high); [|apply Habove; lia]. eapply compareS_lt_trans; [|apply (table_sorted mid i); lia]. lia.
  - f_equal. assert (E : (entry mid).1 = code) by (apply compareS_0; lia). rewrite <- E. symmetry. apply alpha2_found. lia.
Qed.

Definition two_letters (region : string) : Prop := slen region = 2 ∧ isAsciiUpper region = true.

Lemma alpha2_shape code : alpha2_of code = EmptyString ∨ two_letters (alpha2_of code).
Proof.
  unfold alpha2_of. destruct (find _ table) as [e|] eqn:E; [right | by left]. apply find_some in E as [Hin _].
  assert (Hall : forallb (λ e, (slen e.2 =? 2) && isAsciiUpper e.2) table = true) by (vm_compute; reflexivity).
  rewrite forallb_forall in Hall. specialize (Hall e Hin). by apply andb_true_iff in Hall as [?%Z.eqb_eq ?].
Qed.

(** A country code of a service: two capital letters, found whatever the case
    and the blanks around it; by the table when it has three letters; and
    the binary search finds what the table has, in at most nine turns. *)
Theorem region_normalized `{Unicode} code : let upper := ToUpper (TrimSpace code) in
  normalizeRegion code =
    (if isAsciiUpper upper then
       if slen upper =? 2 then upper else if slen upper =? 3 then alpha2_of upper else EmptyString
     else EmptyString) ∧
  (normalizeRegion code = EmptyString ∨ two_letters (normalizeRegion code)).
Proof.
  intros upper. unfold normalizeRegion. fold upper.
  assert (Hsearch : search search_fuel upper 0 (Z.quot (slen iso3166Packed) 5) = Some (alpha2_of upper)).
  { apply (search_spec 8); [done | done | done | lia |]. intros i Hi. change (Z.quot (slen iso3166Packed) 5) with 249 in Hi. lia. }
  rewrite Hsearch. cbn [default]. destruct (isAsciiUpper upper) eqn:Eu; cbn [negb]; destruct (slen upper =? 2) eqn:E2, (slen upper =? 3) eqn:E3;
    (split; [done|]); try (by left); try apply alpha2_shape; right; split; [by apply Z.eqb_eq | done | by apply Z.eqb_eq | done].
Qed.
