(* ===== verification/UrlText.v ===== *)
(** * URLs, base64 and JSON text as Go writes them

    [net/url], [encoding/base64] and the strings of [encoding/json], as far
    as the share links use them; and that what is written reads back. *)

From S2P Require Import Prelude GoText TextFacts.

(** ** Percent encoding *)

Inductive encoding := encodeHost | encodeUserPassword | encodeQueryComponent | encodeFragment.
#[export] Instance encoding_eq : EqDecision encoding. Proof. solve_decision. Defined.

Definition one_of (l : list ascii) (c : ascii) : bool := existsb (λ d, bool_decide (c = d)) l.

Definition alphanumeric (c : ascii) : bool :=
  let b := byteZ c in in_range 97 122 b || in_range 65 90 b || in_range 48 57 b.

Definition double_quote : ascii := "034".

Definition shouldEscape (c : ascii) (mode : encoding) : bool :=
  if alphanumeric c then false
  else
    match mode with
    | encodeHost =>
        negb (one_of ["!"; "$"; "&"; "'"; "("; ")"; "*"; "+"; ","; ";"; "="; ":"; "["; "]"; "<"; ">"; double_quote; "-"; "_"; "."; "~"] c)
    | encodeUserPassword => negb (one_of ["-"; "_"; "."; "~"; "$"; "&"; "+"; ","; ";"; "="] c)
    | encodeQueryComponent => negb (one_of ["-"; "_"; "."; "~"] c)
    | encodeFragment =>
        negb (one_of ["-"; "_"; "."; "~"; "$"; "&"; "+"; ","; "/"; ":"; ";"; "="; "?"; "@"; "!"; "("; ")"; "*"] c)
    end%char.

Definition upperhex (n : Z) : ascii := if n <? 10 then Zbyte (48 + n) else Zbyte (55 + n).

Definition escape_byte (mode : encoding) (c : ascii) : string :=
  if shouldEscape c mode then
    if bool_decide (mode = encodeQueryComponent) && bool_decide (c = " "%char) then "+"
    else String "%" (String (upperhex (byteZ c / 16)) (str1 (upperhex (byteZ c mod 16))))
  else str1 c.

Fixpoint escape (mode : encoding) (s : string) : string :=
  match s with EmptyString => EmptyString | String c s => escape_byte mode c +:+ escape mode s end.

Definition QueryEscape : string → string := escape encodeQueryComponent.

(** ** url.Values, url.Userinfo, url.URL *)

Abbreviation Values := (gmap string string) (only parsing).

Definition entries (v : Values) : list (string * string) := (λ k, (k, default EmptyString (v !! k))) <$> sorted_keys v.

(** [Values.Encode], of values that were [Set]. *)
Definition Encode (v : Values) : string :=
  Join ((λ kv, QueryEscape kv.1 +:+ String "=" (QueryEscape kv.2)) <$> entries v) "&".

Record Userinfo := { ui_name : string; ui_password : option string }.
Definition User (name : string) : Userinfo := {| ui_name := name; ui_password := None |}.
Definition UserPassword (name password : string) : Userinfo := {| ui_name := name; ui_password := Some password |}.

Definition userinfo_text (u : Userinfo) : string :=
  escape encodeUserPassword (ui_name u) +:+
  match ui_password u with Some p => String ":" (escape encodeUserPassword p) | None => EmptyString end.

Record URL := { ur_Scheme : string; ur_User : option Userinfo; ur_Host : string; ur_RawQuery : string; ur_Fragment : string }.

(** [URL.String], of a URL with a scheme and no path. *)
Definition url_text (u : URL) : string :=
  ur_Scheme u +:+ String ":" (
    (if negb (empty (ur_Host u)) || bool_decide (is_Some (ur_User u)) then "//" else "") +:+
    match ur_User u with Some ui => userinfo_text ui +:+ "@" | None => EmptyString end +:+
    escape encodeHost (ur_Host u) +:+
    (if empty (ur_RawQuery u) then EmptyString else String "?" (ur_RawQuery u)) +:+
    (if empty (ur_Fragment u) then EmptyString else String "#" (escape encodeFragment (ur_Fragment u)))).

(** [net.JoinHostPort]. *)
Definition JoinHostPort (host port : string) : string :=
  if has_byte ":" host then "[" +:+ host +:+ "]:" +:+ port else host +:+ ":" +:+ port.

(** ** Base64 *)

Definition base64_char (url : bool) (i : Z) : ascii :=
  if i <? 26 then Zbyte (65 + i) else if i <? 52 then Zbyte (71 + i) else if i <? 62 then Zbyte (i - 4)
  else if i =? 62 then (if url then "-" else "+")%char else (if url then "_" else "/")%char.

(** [URLEncoding] or [StdEncoding], with its padding or without. *)
Fixpoint base64_bytes (url pad : bool) (l : list Z) : string :=
  let ch := base64_char url in
  match l with
  | [] => EmptyString
  | [a] => String (ch (a / 4)) (String (ch (a mod 4 * 16)) (if pad then "==" else ""))
  | [a; b] => String (ch (a / 4)) (String (ch (a mod 4 * 16 + b / 16)) (String (ch (b mod 16 * 4)) (if pad then "=" else "")))
  | a :: b :: c :: l =>
      String (ch (a / 4)) (String (ch (a mod 4 * 16 + b / 16)) (String (ch (b mod 16 * 4 + c / 64)) (String (ch (c mod 64))
        (base64_bytes url pad l))))
  end.

Definition base64 (url pad : bool) (s : string) : string := base64_bytes url pad (bytes_of s).

(** ** JSON strings *)

Definition lowerhex (n : Z) : ascii := if n <? 10 then Zbyte (48 + n) else Zbyte (87 + n).

Definition json_rune (r : rune) (bytes : string) : string :=
  if r =? 34 then "\" +:+ str1 double_quote
  else if r =? 92 then "\\"
  else if r =? 8 then "\b" else if r =? 12 then "\f" else if r =? 10 then "\n" else if r =? 13 then "\r" else if r =? 9 then "\t"
  else if (r <? 32) || (r =? 60) || (r =? 62) || (r =? 38)
  then "\u00" +:+ String (lowerhex (r / 16)) (str1 (lowerhex (r mod 16)))
  else if (r =? RuneError) && (String.length bytes =? 1)%nat then "\ufffd"
  else if (r =? 8232) || (r =? 8233) then "\u202" +:+ str1 (lowerhex (r mod 16))
  else bytes.

Definition json_string (s : string) : string :=
  str1 double_quote +:+ concat_strings ((λ c, json_rune c.1 c.2) <$> rune_chunks s 0) +:+ str1 double_quote.

(** [json.Marshal] of a map of strings. *)
Definition json_object (m : gmap string string) : string :=
  "{" +:+ Join ((λ kv, json_string kv.1 +:+ ":" +:+ json_string kv.2) <$> entries m) "," +:+ "}".

(** ** Reading back *)

Definition unhex (c : ascii) : option Z :=
  let b := byteZ c in
  if in_range 48 57 b then Some (b - 48) else if in_range 65 70 b then Some (b - 55) else if in_range 97 102 b then Some (b - 87) else None.

Lemma Cut_none s sep : has_byte sep s = false → Cut s sep = (s, EmptyString, false).
Proof.
  induction s as [|c s IH]; [done|]. cbn [has_byte Cut]. intros [Hc Hs]%orb_false_iff. rewrite bool_decide_eq_false in Hc.
  rewrite bool_decide_eq_false_2 by done. by rewrite (IH Hs).
Qed.

(** Percent-decoding; in a query a plus is a space. *)
Fixpoint unescape (mode : encoding) (s : string) : option string :=
  match s with
  | EmptyString => Some EmptyString
  | String c s =>
      if bool_decide (c = "%"%char) then
        match s with
        | String a (String b s) => x ← unhex a; y ← unhex b; rest ← unescape mode s; Some (String (Zbyte (16 * x + y)) rest)
        | _ => None
        end
      else rest ← unescape mode s; Some (String (if bool_decide (mode = encodeQueryComponent) && bool_decide (c = "+"%char) then " "%char else c) rest)
  end.

Lemma escape_byte_cases mode c :
  (∃ a b x y, escape_byte mode c = String "%" (String a (str1 b)) ∧ unhex a = Some x ∧ unhex b = Some y ∧ Zbyte (16 * x + y) = c) ∨
  (mode = encodeQueryComponent ∧ c = " "%char ∧ escape_byte mode c = "+") ∨
  (escape_byte mode c = str1 c ∧ c ≠ "%"%char ∧ (mode = encodeQueryComponent → c ≠ "+"%char)).
Proof.
  assert (Hhex : ∀ n, 0 ≤ n < 16 → unhex (upperhex n) = Some n).
  { intros n Hn. assert (n ∈ [0; 1; 2; 3; 4; 5; 6; 7; 8; 9; 10; 11; 12; 13; 14; 15]) as Hin by (rewrite !elem_of_cons; lia).
    repeat (apply elem_of_cons in Hin as [-> | Hin]; [reflexivity|]). by apply elem_of_nil in Hin. }
  unfold escape_byte. destruct (shouldEscape c mode) eqn:E; [destruct (_ && _) eqn:E2|].
  - apply andb_true_iff in E2 as [Hm%bool_decide_eq_true Hc%bool_decide_eq_true]. right. left. done.
  - left. assert (Hr := byteZ_range c). exists (upperhex (byteZ c / 16)), (upperhex (byteZ c mod 16)), (byteZ c / 16), (byteZ c mod 16).
    split_and!; [done | apply Hhex; Z.div_mod_to_equations; lia | apply Hhex; Z.div_mod_to_equations; lia |].
    rewrite <- (Z.div_mod (byteZ c) 16) by lia. apply Zbyte_byteZ.
  - right. right. split_and!; [done | |]; [intros ->; by destruct mode | by intros -> ->].
Qed.

Lemma unescape_escape mode s : unescape mode (escape mode s) = Some s.
Proof.
  induction s as [|c s IH]; [done|]. cbn [escape].
  destruct (escape_byte_cases mode c) as [(a & b & x & y & -> & Ha & Hb & Hc)|[(-> & -> & ->)|(-> & Hp & Hq)]].
  - unfold str1. rewrite !append_cons, append_nil_l. cbn. rewrite Ha, Hb, IH. cbn. by rewrite Hc.
  - rewrite append_cons, append_nil_l. cbn. by rewrite IH.
  - unfold str1. rewrite append_cons, append_nil_l. cbn. rewrite (bool_decide_false _ Hp), IH. cbn.
    destruct (bool_decide (mode = _)) eqn:Em; [|done]. apply bool_decide_eq_true in Em. by rewrite (bool_decide_false _ (Hq Em)).
Qed.

(** No part of a URL holds what ends it. *)
Definition delimiters (mode : encoding) : list ascii :=
  match mode with
  | encodeHost => ["#"; "?"; "/"; "@"]
  | encodeUserPassword => ["#"; "?"; "/"; "@"; ":"]
  | encodeQueryComponent => ["#"; "&"; "="]
  | encodeFragment => []
  end%char.

Lemma escape_byte_clean mode d c : d ∈ delimiters mode → has_byte d (escape_byte mode c) = false.
Proof.
  intros Hd. assert (Hall : forallb (λ d, negb (has_byte d (escape_byte mode c))) (delimiters mode) = true).
  { destruct mode; [| | |done]; destruct c as [[] [] [] [] [] [] [] []]; vm_compute; reflexivity. }
  rewrite forallb_forall in Hall. apply negb_true_iff, Hall. by apply list_elem_of_In.
Qed.

Lemma escape_clean mode d s : d ∈ delimiters mode → has_byte d (escape mode s) = false.
Proof.
  intros Hd. induction s as [|c s IH]; [done|]. cbn [escape]. by rewrite has_byte_app, escape_byte_clean, IH.
Qed.

(** A query, key and value by key and value. *)
Definition read_pair (p : string) : option (string * string) :=
  let '(k, v, _) := Cut p "=" in k ← unescape encodeQueryComponent k; v ← unescape encodeQueryComponent v; Some (k, v).

Definition read_query (q : string) : option (list (string * string)) := if empty q then Some [] else mapM read_pair (Split q "&").

Lemma read_pair_text k v : read_pair (QueryEscape k +:+ String "=" (QueryEscape v)) = Some (k, v).
Proof.
  unfold read_pair, QueryEscape. rewrite Cut_app by (apply escape_clean; set_solver). cbn. rewrite !unescape_escape. done.
Qed.

Lemma Split_Join sep l : l ≠ [] → Forall (λ p, has_byte sep p = false) l → Split (Join l (str1 sep)) sep = l.
Proof.
  intros Hne Hl. induction Hl as [|p l Hp Hl IH]; [done|]. destruct l as [|q l]; [by apply Split_none|].
  change (Join (p :: q :: l) (str1 sep)) with (p +:+ str1 sep +:+ Join (q :: l) (str1 sep)). unfold str1 at 1.
  rewrite append_cons, append_nil_l, Split_app by done. by rewrite IH.
Qed.

Lemma read_query_Encode v : read_query (Encode v) = Some (entries v).
Proof.
  unfold read_query, Encode. change ("&"%string) with (str1 "&"). destruct (entries v) as [|e es] eqn:E; [done|]. rewrite <- E.
  set (parts := (λ kv, _) <$> entries v). assert (Hne : parts ≠ []) by (unfold parts; by rewrite E).
  assert (Hclean : Forall (λ p, has_byte "&" p = false) parts).
  { apply Forall_fmap, Forall_true. intros [a b]. cbn. rewrite has_byte_app. cbn. unfold QueryEscape. by rewrite !escape_clean by set_solver. }
  assert (Hempty : empty (Join parts (str1 "&")) = false).
  { unfold parts. rewrite E. cbn [fmap list_fmap Join]. destruct ((λ kv, _) <$> es); cbn; destruct (QueryEscape e.1); done. }
  rewrite Hempty, Split_Join by done. unfold parts. generalize (entries v). intros l. induction l as [|[a b] l IH]; [done|].
  cbn. rewrite read_pair_text. cbn. by rewrite IH.
Qed.

(** What a link says, read from its end: the fragment, the query, the
    scheme, the user before the last of the authority. *)
Definition read_user (u : string) : option Userinfo :=
  let '(name, password, found) := Cut u ":" in
  name ← unescape encodeUserPassword name;
  if found : bool then password ← unescape encodeUserPassword password; Some (UserPassword name password) else Some (User name).

Definition read_url (s : string) : option (string * option Userinfo * string * list (string * string) * string) :=
  let '(s, fragment, _) := Cut s "#" in
  let '(s, query, _) := Cut s "?" in
  let '(scheme, rest, _) := Cut s ":" in
  let authority := string_drop 2 rest in
  let '(user, host, found) := Cut authority "@" in
  fragment ← unescape encodeFragment fragment; query ← read_query query;
  if found : bool then user ← read_user user; host ← unescape encodeHost host; Some (scheme, Some user, host, query, fragment)
  else host ← unescape encodeHost authority; Some (scheme, None, host, query, fragment).

Lemma read_user_text u : read_user (userinfo_text u) = Some u.
Proof.
  destruct u as [name [password|]]; unfold read_user, userinfo_text; cbn [ui_name ui_password].
  - rewrite Cut_app by (apply escape_clean; set_solver). by rewrite !unescape_escape.
  - rewrite append_nil_r. rewrite Cut_none by (apply escape_clean; set_solver). by rewrite unescape_escape.
Qed.

Lemma has_byte_Join c sep l : has_byte c sep = false → Forall (λ p, has_byte c p = false) l → has_byte c (Join l sep) = false.
Proof.
  intros Hs Hl. induction Hl as [|p l Hp Hl IH]; [done|]. destruct l as [|q l]; [done|].
  change (Join (p :: q :: l) sep) with (p +:+ sep +:+ Join (q :: l) sep). by rewrite !has_byte_app, Hp, Hs, IH.
Qed.

Lemma Encode_clean v : has_byte "#" (Encode v) = false.
Proof.
  apply has_byte_Join; [done|]. apply Forall_fmap, Forall_true. intros [a b]. cbn. rewrite has_byte_app. cbn. unfold QueryEscape.
  by rewrite !escape_clean by set_solver.
Qed.

Lemma userinfo_clean u d : d ∈ ["#"; "?"; "@"]%char → has_byte d (userinfo_text u) = false.
Proof.
  intros Hd. assert (Hin : d ∈ delimiters encodeUserPassword) by (cbn; set_solver). unfold userinfo_text. rewrite has_byte_app, escape_clean by done.
  destruct (ui_password u); cbn; [|done]. rewrite escape_clean, orb_false_r by done. apply bool_decide_false. intros <-. set_solver.
Qed.

(** The parts of a URL come back from its text. *)
Lemma read_url_text scheme user host v name : has_byte ":" scheme = false → has_byte "#" scheme = false → has_byte "?" scheme = false → host ≠ EmptyString →
  read_url (url_text {| ur_Scheme := scheme; ur_User := user; ur_Host := host; ur_RawQuery := Encode v; ur_Fragment := name |}) =
  Some (scheme, user, host, entries v, name).
Proof.
  intros H1 H2 H3 Hhost. unfold url_text. cbn [ur_Scheme ur_User ur_Host ur_RawQuery ur_Fragment].
  assert (empty host = false) as -> by (by destruct host). cbn [negb orb].
  set (U := match user with Some ui => _ | None => _ end). set (H := escape encodeHost host).
  assert (HU : ∀ d, d ∈ ["#"; "?"]%char → has_byte d U = false).
  { intros d Hd. unfold U. destruct user as [u|]; [|done]. rewrite has_byte_app, userinfo_clean by set_solver. cbn. rewrite orb_false_r.
    apply bool_decide_false. intros <-. set_solver. }
  assert (HH : ∀ d, d ∈ ["#"; "?"; "@"]%char → has_byte d H = false) by (intros d Hd; apply escape_clean; set_solver).
  set (body := scheme +:+ String ":" ("//" +:+ U +:+ H)).
  assert (Hbody : ∀ d, d ∈ ["#"; "?"]%char → has_byte d scheme = false → has_byte d body = false).
  { intros d Hd Hs. unfold body. rewrite has_byte_app, Hs. cbn [has_byte]. rewrite !has_byte_app, HU, HH by set_solver.
    cbn [has_byte orb]. rewrite !bool_decide_false; [done|..]; intros <-; set_solver. }
  set (Q := if empty (Encode v) then _ else _). set (F := if empty name then _ else _).
  assert (Hall : scheme +:+ String ":" ("//" +:+ U +:+ H +:+ Q +:+ F) = (body +:+ Q) +:+ F).
  { unfold body. rewrite !append_assoc, !append_cons, !append_nil_l, !append_assoc. done. }
  rewrite Hall. unfold read_url.
  assert (HQ : has_byte "#" (body +:+ Q) = false).
  { rewrite has_byte_app, Hbody by (done || set_solver). unfold Q. destruct (empty (Encode v)); [done|]. cbn. by rewrite Encode_clean. }
  assert (∃ found, Cut ((body +:+ Q) +:+ F) "#" = (body +:+ Q, escape encodeFragment name, found)) as [found ->].
  { unfold F. destruct name as [|c name].
    - cbn. rewrite append_nil_r, Cut_none by done. by exists false.
    - replace (empty (String c name)) with false by done. rewrite Cut_app by done. by exists true. }
  assert (∃ found, Cut (body +:+ Q) "?" = (body, Encode v, found)) as [found' ->].
  { unfold Q. destruct (Encode v) as [|c q].
    - cbn. rewrite append_nil_r, Cut_none by (apply Hbody; [set_solver | done]). by exists false.
    - replace (empty (String c q)) with false by done. rewrite Cut_app by (apply Hbody; [set_solver | done]). by exists true. }
  unfold body. rewrite Cut_app by done. change (string_drop 2 ("//" +:+ U +:+ H)) with (string_drop (String.length "//") ("//" +:+ (U +:+ H))).
  rewrite string_app_drop, unescape_escape, read_query_Encode. cbn [mbind option_bind]. unfold U. destruct user as [u|].
  - rewrite append_assoc, append_cons, append_nil_l, Cut_app by (apply userinfo_clean; set_solver).
    rewrite read_user_text. cbn [mbind option_bind]. unfold H. by rewrite unescape_escape.
  - rewrite append_nil_l, Cut_none by (apply HH; set_solver). unfold H. by rewrite unescape_escape.
Qed.

(** Base64 *)
Definition base64_value (c : ascii) : option Z :=
  let b := byteZ c in
  if in_range 65 90 b then Some (b - 65) else if in_range 97 122 b then Some (b - 71) else if in_range 48 57 b then Some (b + 4)
  else if (b =? 43) || (b =? 45) then Some 62 else if (b =? 47) || (b =? 95) then Some 63 else None.

Fixpoint unpadded (s : string) : string :=
  match s with EmptyString => EmptyString | String c s => if bool_decide (c = "="%char) then EmptyString else String c (unpadded s) end.

Fixpoint read_groups (s : string) : option (list Z) :=
  match s with
  | EmptyString => Some []
  | String p (String q EmptyString) => x ← base64_value p; y ← base64_value q; Some [x * 4 + y / 16]
  | String p (String q (String r EmptyString)) =>
      x ← base64_value p; y ← base64_value q; z ← base64_value r; Some [x * 4 + y / 16; y mod 16 * 16 + z / 4]
  | String p (String q (String r (String t s))) =>
      x ← base64_value p; y ← base64_value q; z ← base64_value r; w ← base64_value t;
      rest ← read_groups s; Some (x * 4 + y / 16 :: y mod 16 * 16 + z / 4 :: z mod 4 * 64 + w :: rest)
  | _ => None
  end.

Fixpoint text_of (l : list Z) : string := match l with [] => EmptyString | b :: l => String (Zbyte b) (text_of l) end.

Definition read_base64 (s : string) : option string := text_of <$> read_groups (unpadded s).

Lemma base64_char_value url i : 0 ≤ i < 64 → base64_value (base64_char url i) = Some i ∧ base64_char url i ≠ "="%char.
Proof.
  intros Hi. assert (Hall : forallb (λ i, bool_decide (base64_value (base64_char url i) = Some i ∧ base64_char url i ≠ "="%char)) (Z.of_nat <$> seq 0 64) = true)
    by (destruct url; vm_compute; reflexivity).
  rewrite forallb_forall in Hall. apply (bool_decide_eq_true (base64_value _ = Some i ∧ _)), Hall, list_elem_of_In, list_elem_of_fmap.
  exists (Z.to_nat i). split; [lia|]. apply elem_of_seq. lia.
Qed.

Definition bytes_ok (l : list Z) : Prop := Forall (λ b, 0 ≤ b < 256) l.

Lemma bytes_of_ok s : bytes_ok (bytes_of s).
Proof. induction s as [|c s IH]; cbn; [constructor|]. constructor; [apply byteZ_range | done]. Qed.

Lemma text_of_bytes s : text_of (bytes_of s) = s.
Proof. induction s as [|c s IH]; [done|]. cbn. by rewrite IH, Zbyte_byteZ. Qed.

Lemma unpadded_char url i s : 0 ≤ i < 64 → unpadded (String (base64_char url i) s) = String (base64_char url i) (unpadded s).
Proof. intros Hi. cbn. rewrite bool_decide_false; [done|]. apply (base64_char_value url i Hi). Qed.

Lemma three_ind {A} (P : list A → Prop) : P [] → (∀ a, P [a]) → (∀ a b, P [a; b]) → (∀ a b c l, P l → P (a :: b :: c :: l)) → ∀ l, P l.
Proof.
  intros H0 H1 H2 H3. fix go 1. intros [|a [|b [|c l]]]; [exact H0 | apply H1 | apply H2 | apply H3, go].
Qed.

Lemma read_base64_bytes url pad l : bytes_ok l → read_groups (unpadded (base64_bytes url pad l)) = Some l.
Proof.
  induction l as [|a|a b|a b c l IH] using three_ind; intros Hl; repeat (apply Forall_cons in Hl as [? Hl]); cbn [base64_bytes]; [done | | |].
  all: rewrite !unpadded_char by (Z.div_mod_to_equations; lia).
  - replace (unpadded (if pad then "==" else "")) with "" by (by destruct pad). cbn [read_groups].
    rewrite !(λ i Hi, proj1 (base64_char_value url i Hi)) by (Z.div_mod_to_equations; lia). cbn [mbind option_bind]. repeat f_equal.
    Z.div_mod_to_equations; lia.
  - replace (unpadded (if pad then "=" else "")) with "" by (by destruct pad). cbn [read_groups].
    rewrite !(λ i Hi, proj1 (base64_char_value url i Hi)) by (Z.div_mod_to_equations; lia). cbn [mbind option_bind]. repeat f_equal;
    Z.div_mod_to_equations; lia.
  - cbn [read_groups]. rewrite !(λ i Hi, proj1 (base64_char_value url i Hi)) by (Z.div_mod_to_equations; lia).
    rewrite (IH Hl). cbn [mbind option_bind]. repeat f_equal; Z.div_mod_to_equations; lia.
Qed.

Lemma read_base64_text url pad s : read_base64 (base64 url pad s) = Some s.
Proof. unfold read_base64, base64. rewrite read_base64_bytes by apply bytes_of_ok. cbn. by rewrite text_of_bytes. Qed.
