(* ===== verification/ServiceCheck.v ===== *)
(** * Checks of services: core/service_check.go, core/service_rules.go

    A check sends requests one after another and judges a service by the
    answers. It is a finite tree of requests, each with what follows from its
    answer; the network is whatever gives the answers. A newer check of a
    service cancels the older one by a table of claims.

    The regular expressions of the rules, the parsing of URLs and of one JSON
    document are parameters, and so are the context and the clock of a run.
    The slots a sweep waits for, the recorder of hits and what of an answer
    only travels on to the host are left out; a rule that panics, which a run
    turns into a failed item, has no counterpart, as no rule here can. *)

From S2P Require Import Prelude GoText TextFacts UrlText Region Goroutines.


(** Text of the source with its double quotes written as single ones. *)
Fixpoint quoted (s : string) : string :=
  match s with
  | EmptyString => EmptyString
  | String c s => String (if bool_decide (c = "'"%char) then double_quote else c) (quoted s)
  end.

(** ** What is asked and answered *)

Definition serviceHtmlMaxBody : Z := 512 * 1024.
Definition serviceSmallMaxBody : Z := 16 * 1024.
Definition serviceScanMaxBody : Z := 8 * 1024 * 1024.
Definition probeErrorTimeout : string := "timeout".

(** [probeRequest], less the recorder. *)
Record probeRequest := {
  pq_method : string;
  pq_url : string;
  pq_proxyName : string;
  pq_headers : gmap string string;
  pq_body : string;
  pq_timeout : duration;
  pq_maxBody : Z;
  pq_noRedirect : bool;
  pq_until : option (string → bool);
}.

(** [ProbeResult], the fields a rule reads; [pr_location] is the Location of its header, none without
    a header. *)
Record ProbeResult := {
  pr_StatusCode : Z;
  pr_Delay : Z;
  pr_Body : string;
  pr_Url : string;
  pr_Chains : list string;
  pr_Error : string;
  pr_location : option string;
}.

Inductive probe (A : Type) : Type :=
  | Done (a : A)
  | Ask (req : probeRequest) (k : option ProbeResult → probe A).
Arguments Done {A}.
Arguments Ask {A}.

#[export] Instance probe_ret : MRet probe := @Done.
Fixpoint probe_bind {A B} (f : A → probe B) (p : probe A) : probe B :=
  match p with Done a => f a | Ask req k => Ask req (λ r, probe_bind f (k r)) end.
#[export] Instance probe_mbind : MBind probe := @probe_bind.

Record serviceEnv := { en_proxyName : string; en_timeout : duration }.

Definition browserUserAgent : string :=
  "Mozilla/5.0 (Windows NT 10.0; Win64; x64) AppleWebKit/537.36 (KHTML, like Gecko) Chrome/120.0.0.0 Safari/537.36".

Definition addressed (e : serviceEnv) (req : probeRequest) : probeRequest :=
  {| req with pq_proxyName := en_proxyName e; pq_timeout := en_timeout e; pq_headers := pq_headers req ∪ {["User-Agent" := browserUserAgent]} |}.

Definition send (e : serviceEnv) (req : probeRequest) : probe (option ProbeResult) := Ask (addressed e req) Done.

(** A request of a method to a URL, with the zero value of every other field. *)
Definition request (method url : string) : probeRequest :=
  {| pq_method := method; pq_url := url; pq_proxyName := ""; pq_headers := ∅; pq_body := ""; pq_timeout := 0; pq_maxBody := 0;
     pq_noRedirect := false; pq_until := None |}.

Definition get (e : serviceEnv) (url : string) (maxBody : Z) : probe (option ProbeResult) :=
  send e {| (request "GET" url) with pq_maxBody := maxBody |}.

Definition scan (e : serviceEnv) (url : string) (until : string → bool) : probe (option ProbeResult) :=
  send e {| (request "GET" url) with pq_maxBody := serviceScanMaxBody; pq_until := Some until |}.

(** ** Items *)

Definition serviceAvailable : string := "available".
Definition serviceUnavailable : string := "unavailable".
Definition serviceRestricted : string := "restricted".
Definition serviceDisallowedIsp : string := "disallowed-isp".
Definition serviceBlocked : string := "blocked".
Definition serviceUnsupportedRegion : string := "unsupported-region".
Definition serviceOriginalsOnly : string := "originals-only".
Definition serviceComingSoon : string := "coming-soon".
Definition serviceTimeout : string := "timeout".
Definition serviceFailed : string := "failed".

(** [ServiceCheckItem], less the hits. *)
Record ServiceCheckItem := {
  si_Name : string;
  si_Status : string;
  si_Region : string;
  si_Delay : Z;
  si_Chains : list string;
  si_CheckedAt : Z;
  si_CoreEpoch : Z;
  si_RouteVersion : Z;
}.

Definition no_item : ServiceCheckItem :=
  {| si_Name := ""; si_Status := ""; si_Region := ""; si_Delay := 0; si_Chains := []; si_CheckedAt := 0; si_CoreEpoch := 0; si_RouteVersion := 0 |}.

Definition with_status (item : ServiceCheckItem) (status : string) : ServiceCheckItem := {| item with si_Status := status |}.

Definition itemFrom (result : option ProbeResult) : ServiceCheckItem :=
  match result with
  | None => with_status no_item serviceFailed
  | Some r =>
      let item := {| no_item with si_Delay := pr_Delay r; si_Chains := pr_Chains r |} in
      if empty (pr_Error r) then item
      else {| item with si_Status := if eqs (pr_Error r) probeErrorTimeout then serviceTimeout else serviceFailed; si_Delay := 0 |}
  end.

(** [answered], with the result it guards. *)
Definition answered (item : ServiceCheckItem) (result : option ProbeResult) : option ProbeResult :=
  if empty (si_Status item) then result else None.

Definition statusFromCode (code : Z) : string :=
  if (200 <=? code) && (code <? 300) then serviceAvailable
  else if (code =? 401) || (code =? 403) || (code =? 429) || (code =? 451) then serviceRestricted
  else serviceUnavailable.

(** The regular expressions of the rules, by name. *)
Inductive pattern :=
  | youTubeRegionPattern (i : nat) | tikTokRegionPattern | primeRegionPattern | disneyAssertionPattern | disneyRefreshPattern
  | disneyCountryPattern | disneySupportedPattern | spotifyCountryPattern | discordCountryPattern | bilibiliCodePattern.

Class Web := {
  FindStringSubmatch : pattern → string → list string;   (** empty when nothing matches *)
  MatchString : pattern → string → bool;
  parse_url : string → option (string * string);         (** the host name and the path *)
  fast_countries : string → option (list string);        (** the countries of a reply of fast.com *)
}.

Section rules.
Context `{Unicode} `{Web}.

Definition bodyContains (r : ProbeResult) (needles : list string) : bool :=
  let lower := ToLower (pr_Body r) in existsb (Contains lower) needles.

Definition traceValue (body key : string) : string :=
  match find (λ line, HasPrefix line (key +:+ "=")) (Split body "010") with
  | Some line => TrimSpace (string_drop (String.length key + 1) line)
  | None => ""
  end.

Definition firstSubmatch (p : pattern) (body : string) : string :=
  match FindStringSubmatch p body with _ :: m :: _ => m | _ => "" end.

(** A rule that judges one answered result. *)
Definition judged (result : option ProbeResult) (f : ServiceCheckItem → ProbeResult → ServiceCheckItem) : ServiceCheckItem :=
  let item := itemFrom result in
  match answered item result with None => item | Some r => f item r end.

(** ** The rules *)

Definition checkReachable (url : string) (e : serviceEnv) : probe ServiceCheckItem :=
  result ← get e url 0; Done (judged result (λ item r, with_status item (statusFromCode (pr_StatusCode r)))).

Definition challenge_paths : list string := ["showcaptcha"; "checkcaptcha"; "/captcha"; "/challenge"].
Definition challenge_pages : list string :=
  ["<title>access denied"; "<title>just a moment"; "<title>captcha"; "<title>проверка браузера"; "<title>ой!"; "<title>доступ ограничен";
   "/cdn-cgi/challenge-platform/"; "smartcaptcha.yandexcloud.net/captcha.js"; quoted "id='challenge-form'"; quoted "id='checkbox-captcha-form'";
   quoted "id='advanced-captcha-form'"].

Definition publicWebsiteStatus (target : string) (r : ProbeResult) : string :=
  let status := statusFromCode (pr_StatusCode r) in
  if negb (eqs status serviceAvailable) then status
  else
    match parse_url target, parse_url (pr_Url r) with
    | Some (requested, _), Some (final, path) =>
        if empty final then serviceFailed
        else if negb (EqualFold requested final) then serviceRestricted
        else if existsb (Contains (ToLower path)) challenge_paths then serviceRestricted
        else if bodyContains r challenge_pages then serviceRestricted
        else serviceAvailable
    | _, _ => serviceFailed
    end.

Definition checkPublicWebsite (target : string) (e : serviceEnv) : probe ServiceCheckItem :=
  result ← get e target serviceHtmlMaxBody; Done (judged result (λ item r, with_status item (publicWebsiteStatus target r))).

Definition claudeBlockedRegions : list string := ["AF"; "BY"; "CN"; "CU"; "HK"; "IR"; "KP"; "MO"; "RU"; "SY"].
Definition geminiBlockedRegions : list string := ["CHN"; "RUS"; "BLR"; "CUB"; "IRN"; "PRK"; "SYR"; "HKG"; "MAC"].

Definition judgeClaude (item : ServiceCheckItem) (r : ProbeResult) : ServiceCheckItem :=
  let region := normalizeRegion (traceValue (pr_Body r) "loc") in
  if empty region then with_status item serviceFailed
  else {| item with si_Region := region;
                    si_Status := if mem_string region claudeBlockedRegions then serviceUnsupportedRegion else serviceAvailable |}.

Definition checkClaude (e : serviceEnv) : probe ServiceCheckItem :=
  result ← get e "https://claude.ai/cdn-cgi/trace" serviceSmallMaxBody; Done (judged result judgeClaude).

Definition geminiRegionMarker : string := quoted ",2,1,200,'".

(** The three bytes after the marker, when they are there. *)
Definition gemini_code (text : string) : option string :=
  index ← Index text geminiRegionMarker;
  let start := (index + String.length geminiRegionMarker)%nat in
  if (start + 3 <=? String.length text)%nat then Some (String.substring start 3 text) else None.

Definition judgeGemini (item : ServiceCheckItem) (r : ProbeResult) : ServiceCheckItem :=
  match gemini_code (pr_Body r) with
  | None => with_status item serviceFailed
  | Some code =>
      if negb (isAsciiUpper code) then with_status item serviceFailed
      else {| item with si_Region := normalizeRegion code;
                        si_Status := if mem_string code geminiBlockedRegions then serviceUnsupportedRegion else serviceAvailable |}
  end.

Definition checkGemini (e : serviceEnv) : probe ServiceCheckItem :=
  result ← scan e "https://gemini.google.com" (λ tail, bool_decide (is_Some (gemini_code tail))); Done (judged result judgeGemini).

Definition chatGptIosStatus (r : ProbeResult) : string :=
  if bodyContains r ["you may be connected to a disallowed isp"] then serviceDisallowedIsp
  else if bodyContains r ["sorry, you have been blocked"] then serviceBlocked
  else if bodyContains r ["request is not allowed. please try again later."] then serviceAvailable
  else serviceFailed.

Definition checkChatGpt (e : serviceEnv) : probe ServiceCheckItem :=
  ios ← get e "https://ios.chat.openai.com/" serviceSmallMaxBody;
  let item := judged ios (λ item r, with_status item (chatGptIosStatus r)) in
  trace ← get e "https://chat.openai.com/cdn-cgi/trace" serviceSmallMaxBody;
  let item := match answered (itemFrom trace) trace with
              | Some r => {| item with si_Region := normalizeRegion (traceValue (pr_Body r) "loc") |}
              | None => item
              end in
  web ← get e "https://api.openai.com/compliance/cookie_requirements" serviceSmallMaxBody;
  Done match answered (itemFrom web) web with
       | Some r => if bodyContains r ["unsupported_country"] then with_status item serviceUnsupportedRegion else item
       | None => item
       end.

(** The region is the first of the patterns' that is not blank. *)
Definition youTube_region (body : string) : string :=
  match find (λ code, negb (empty code)) ((λ i, firstSubmatch (youTubeRegionPattern i) body) <$> seq 0 4) with
  | Some code => normalizeRegion code
  | None => ""
  end.

Definition youTube_status (r : ProbeResult) : string :=
  if bodyContains r ["youtube premium is not available in your country"; "premium is not available in your country";
                     "premium is not available in your region"] then serviceUnsupportedRegion
  else if (200 <=? pr_StatusCode r) && (pr_StatusCode r <? 300) &&
          bodyContains r ["youtube premium"; "ad-free"; quoted "'browseid':'spunlimited'"] then serviceAvailable
  else statusFromCode (pr_StatusCode r).

Definition checkYouTubePremium (e : serviceEnv) : probe ServiceCheckItem :=
  result ← get e "https://www.youtube.com/premium?hl=en" serviceHtmlMaxBody;
  Done (judged result (λ item r, {| item with si_Region := youTube_region (pr_Body r); si_Status := youTube_status r |})).

(** [strings.Trim(path, "/")]. *)
Definition trim_slashes (path : string) : string :=
  let drop_slashes := drop_while (λ c, bool_decide (c = "/"%char)) in
  String.string_of_list_ascii (reverse (drop_slashes (reverse (drop_slashes (String.list_ascii_of_string path))))).

Definition first_of (l : list string) : string := default "" (head l).

Definition spotifyRegion (r : ProbeResult) : string :=
  let named := firstSubmatch spotifyCountryPattern (pr_Body r) in
  match parse_url (pr_Url r) with
  | Some (_, path) =>
      let first := first_of (Split (trim_slashes path) "/") in
      if negb (empty first) && negb (eqs first "api") then first_of (Split first "-") else named
  | None => named
  end.

Definition judgeSpotify (item : ServiceCheckItem) (r : ProbeResult) : ServiceCheckItem :=
  let code := pr_StatusCode r in
  {| item with si_Region := normalizeRegion (spotifyRegion r);
               si_Status :=
                 if (code =? 403) || (code =? 451) then serviceUnsupportedRegion
                 else if (code <? 200) || (300 <=? code) then statusFromCode code
                 else if bodyContains r ["not available in your country"] then serviceUnsupportedRegion
                 else serviceAvailable |}.

Definition checkSpotify (e : serviceEnv) : probe ServiceCheckItem :=
  result ← get e "https://www.spotify.com/api/content/v1/country-selector?platform=web&format=json" serviceSmallMaxBody;
  Done (judged result judgeSpotify).

Definition tikTokStatus (r : ProbeResult) : string :=
  let code := pr_StatusCode r in
  if (code =? 403) || (code =? 451) then serviceUnsupportedRegion
  else if (code <? 200) || (300 <=? code) then serviceFailed
  else if bodyContains r ["access denied"; "not available in your region"; "tiktok is not available"] then serviceUnsupportedRegion
  else serviceAvailable.

Definition tikTokRegion (body : string) : string := normalizeRegion (firstSubmatch tikTokRegionPattern body).

Definition checkTikTok (e : serviceEnv) : probe ServiceCheckItem :=
  result ← scan e "https://www.tiktok.com/" (MatchString tikTokRegionPattern);
  Done (judged result (λ item r, {| item with si_Status := tikTokStatus r; si_Region := tikTokRegion (pr_Body r) |})).

Definition bilibiliStatus (body : string) : string :=
  let code := firstSubmatch bilibiliCodePattern body in
  if eqs code "0" then serviceAvailable else if eqs code "-10403" then serviceUnsupportedRegion else serviceFailed.

Definition bilibiliEpisode (e : serviceEnv) (url : string) : probe ServiceCheckItem :=
  result ← get e url serviceSmallMaxBody; Done (judged result (λ item r, with_status item (bilibiliStatus (pr_Body r)))).

Definition bilibili_mainland : string :=
  "https://api.bilibili.com/pgc/player/web/playurl?avid=82846771&qn=0&type=&otype=json&ep_id=307247&fourk=1&fnver=0&fnval=16&module=bangumi".
Definition bilibili_others : string :=
  "https://api.bilibili.com/pgc/player/web/playurl?avid=18281381&cid=29892777&qn=0&type=&otype=json&ep_id=183799&fourk=1&fnver=0&fnval=16&module=bangumi".

Definition checkBilibili (e : serviceEnv) : probe ServiceCheckItem :=
  item ← bilibiliEpisode e bilibili_mainland;
  if eqs (si_Status item) serviceAvailable then Done {| item with si_Region := "CN" |}
  else if eqs (si_Status item) serviceUnsupportedRegion then bilibiliEpisode e bilibili_others
  else Done item.

Definition judgeDiscord (item : ServiceCheckItem) (r : ProbeResult) : ServiceCheckItem :=
  let status := statusFromCode (pr_StatusCode r) in
  {| item with si_Status := status;
               si_Region := if eqs status serviceAvailable then normalizeRegion (firstSubmatch discordCountryPattern (pr_Body r)) else si_Region item |}.

Definition checkDiscord (e : serviceEnv) : probe ServiceCheckItem :=
  result ← get e "https://discord.com/api/v9/auth/location-metadata" serviceSmallMaxBody; Done (judged result judgeDiscord).

Definition judgePrimeVideo (item : ServiceCheckItem) (r : ProbeResult) : ServiceCheckItem :=
  if Contains (pr_Body r) "isServiceRestricted" then with_status item serviceUnsupportedRegion
  else
    let region := firstSubmatch primeRegionPattern (pr_Body r) in
    if empty region then with_status item serviceFailed
    else {| item with si_Region := normalizeRegion region; si_Status := serviceAvailable |}.

Definition checkPrimeVideo (e : serviceEnv) : probe ServiceCheckItem :=
  result ← scan e "https://www.primevideo.com" (λ tail, Contains tail "isServiceRestricted" || MatchString primeRegionPattern tail);
  Done (judged result judgePrimeVideo).

Definition judgeNetflixCdn (item : ServiceCheckItem) (r : ProbeResult) : ServiceCheckItem :=
  if pr_StatusCode r =? 403 then with_status item serviceBlocked
  else
    match fast_countries (pr_Body r) with
    | Some (country :: _) => {| item with si_Region := normalizeRegion country; si_Status := serviceAvailable |}
    | _ => with_status item serviceFailed
    end.

Definition netflixFromCdn (e : serviceEnv) : probe ServiceCheckItem :=
  result ← get e "https://api.fast.com/netflix/speedtest/v2?https=true&token=YXNkZmFzZGxmbnNkYWZoYXNkZmhrYWxm&urlCount=5" serviceSmallMaxBody;
  Done (judged result judgeNetflixCdn).

Definition netflixServed (code : Z) : bool := (code =? 200) || (code =? 301).

Definition netflixRegion (e : serviceEnv) : probe string :=
  result ← send e {| (request "GET" "https://www.netflix.com/title/80018499") with pq_noRedirect := true |};
  Done match result with
       | Some r =>
           match pr_location r with
           | Some location =>
               match Split location "/" with
               | _ :: _ :: _ :: segment :: _ => if empty (pr_Error r) then normalizeRegion (first_of (Split segment "-")) else ""
               | _ => ""
               end
           | None => ""
           end
       | None => ""
       end.

Definition checkNetflix (e : serviceEnv) : probe ServiceCheckItem :=
  cdn ← netflixFromCdn e;
  if eqs (si_Status cdn) serviceAvailable || eqs (si_Status cdn) serviceBlocked then Done cdn
  else
    first ← get e "https://www.netflix.com/title/81280792" 0;
    match answered (itemFrom first) first with
    | None => Done (itemFrom first)
    | Some r1 =>
        second ← get e "https://www.netflix.com/title/70143836" 0;
        match answered (itemFrom second) second with
        | None => Done (itemFrom second)
        | Some r2 =>
            let item := itemFrom first in
            if (pr_StatusCode r1 =? 404) && (pr_StatusCode r2 =? 404) then Done (with_status item serviceOriginalsOnly)
            else if (pr_StatusCode r1 =? 403) || (pr_StatusCode r2 =? 403) then Done (with_status item serviceUnsupportedRegion)
            else if netflixServed (pr_StatusCode r1) || netflixServed (pr_StatusCode r2) then
              region ← netflixRegion e; Done {| item with si_Status := serviceAvailable; si_Region := region |}
            else Done (with_status item (statusFromCode (pr_StatusCode r1)))
        end
    end.

Definition disneyAuthHeader : string :=
  "Bearer ZGlzbmV5JmJyb3dzZXImMS4wLjA.Cu56AgSfBTDag5NiRA81oLHkDZfu5L3CKadnefEAY84".

Definition disney_post (url content_type body : string) : probeRequest :=
  {| (request "POST" url) with pq_headers := list_to_map [("authorization", disneyAuthHeader); ("content-type", content_type)]%string;
       pq_body := body; pq_maxBody := serviceSmallMaxBody |}.

Definition disney_device : probeRequest :=
  disney_post "https://disney.api.edge.bamgrid.com/devices" "application/json; charset=UTF-8"
    (quoted "{'deviceFamily':'browser','applicationRuntime':'chrome','deviceProfile':'windows','attributes':{}}").

Definition disney_token (assertion : string) : probeRequest :=
  disney_post "https://disney.api.edge.bamgrid.com/token" "application/x-www-form-urlencoded"
    ("grant_type=urn:ietf:params:oauth:grant-type:token-exchange&latitude=0&longitude=0&platform=browser&subject_token=" +:+
     QueryEscape assertion +:+ "&subject_token_type=urn:bamtech:params:oauth:token-type:device").

Definition disney_session (refresh : string) : probeRequest :=
  disney_post "https://disney.api.edge.bamgrid.com/graph/v1/device/graphql" "application/json"
    (quoted "{'query':'mutation refreshToken($input: RefreshTokenInput!) { refreshToken(refreshToken: $input) { activeSession { sessionId } } }','variables':{'input':{'refreshToken':'"
     +:+ refresh +:+ quoted "'}}}").

(** The last judgement, of the session's answer, on the item of the device. *)
Definition judgeDisney (item : ServiceCheckItem) (session : option ProbeResult) : ServiceCheckItem :=
  match answered (itemFrom session) session with
  | None => with_status item serviceFailed
  | Some r =>
      if empty (pr_Body r) || (400 <=? pr_StatusCode r) then with_status item serviceFailed
      else
        let region := normalizeRegion (firstSubmatch disneyCountryPattern (pr_Body r)) in
        if empty region then with_status item serviceUnavailable
        else
          let supported := firstSubmatch disneySupportedPattern (pr_Body r) in
          {| item with si_Region := region;
                       si_Status := if eqs supported "true" then serviceAvailable
                                    else if eqs supported "false" then serviceComingSoon else serviceFailed |}
  end.

Definition checkDisneyPlus (e : serviceEnv) : probe ServiceCheckItem :=
  device ← send e disney_device;
  let item := itemFrom device in
  match answered item device with
  | None => Done item
  | Some d =>
      if pr_StatusCode d =? 403 then Done (with_status item serviceBlocked)
      else
        let assertion := firstSubmatch disneyAssertionPattern (pr_Body d) in
        if empty assertion then Done (with_status item serviceFailed)
        else
          token ← send e (disney_token assertion);
          match answered (itemFrom token) token with
          | None => Done (itemFrom token)
          | Some t =>
              if Contains (pr_Body t) "forbidden-location" || Contains (pr_Body t) "403 ERROR" then Done (with_status item serviceBlocked)
              else
                let refresh := firstSubmatch disneyRefreshPattern (pr_Body t) in
                if empty refresh then Done (with_status item serviceFailed)
                else session ← send e (disney_session refresh); Done (judgeDisney item session)
          end
  end.

(** ** A sweep *)

Definition serviceCheckers : list (string * (serviceEnv → probe ServiceCheckItem)) := [
  ("google", checkReachable "https://www.google.com/generate_204");
  ("github", checkReachable "https://github.com/");
  ("telegram", checkPublicWebsite "https://web.telegram.org/");
  ("sberbank", checkPublicWebsite "https://online.sberbank.ru/CSAFront/index.do");
  ("gosuslugi", checkPublicWebsite "https://www.gosuslugi.ru/");
  ("vk", checkPublicWebsite "https://vk.com/");
  ("kinopoisk", checkPublicWebsite "https://www.kinopoisk.ru/");
  ("yandex", checkPublicWebsite "https://ya.ru/");
  ("youtube", checkYouTubePremium);
  ("chatgpt", checkChatGpt);
  ("claude", checkClaude);
  ("gemini", checkGemini);
  ("netflix", checkNetflix);
  ("disney-plus", checkDisneyPlus);
  ("prime-video", checkPrimeVideo);
  ("spotify", checkSpotify);
  ("tiktok", checkTikTok);
  ("discord", checkDiscord);
  ("bilibili", checkBilibili)]%string.

Definition selectedCheckers (names : list string) : list (string * (serviceEnv → probe ServiceCheckItem)) :=
  match names with
  | [] => serviceCheckers
  | _ => omap (λ name, find (λ c, eqs c.1 name) serviceCheckers) names
  end.

(** What [runServiceCheck] finds around a check: whether its context is over
    before it starts, whether time is left for a second try, and what it
    stamps. *)
Record surroundings := { su_over : bool; su_budget : bool; su_epoch : Z; su_version : Z; su_checked : Z }.

Definition runServiceCheck (s : surroundings) (checker : string * (serviceEnv → probe ServiceCheckItem)) (e : serviceEnv) : probe ServiceCheckItem :=
  item ← (if su_over s then Done (with_status no_item serviceFailed)
          else
            item ← checker.2 e;
            if eqs (si_Status item) serviceTimeout && su_budget s then checker.2 e else Done item);
  Done {| item with si_Name := checker.1; si_CheckedAt := su_checked s; si_CoreEpoch := su_epoch s; si_RouteVersion := su_version s |}.

(** ** A network that answers *)

(** What a tree comes to when the [n]-th request is answered by [answers n],
    and what was asked and answered on the way. *)
Fixpoint run {A} (answers : nat → probeRequest → option ProbeResult) (n : nat) (p : probe A) : A * list (probeRequest * option ProbeResult) :=
  match p with
  | Done a => (a, [])
  | Ask req k =>
      let r := answers n req in
      let '(a, trace) := run answers (S n) (k r) in (a, (req, r) :: trace)
  end.
End rules.

(** ** Claims *)

(** [serviceClaims], the claims that are cancelled, and how many were made. *)
Record claims := { cl_held : gmap string nat; cl_cancelled : gset nat; cl_made : list string }.

Definition no_claims : claims := {| cl_held := ∅; cl_cancelled := ∅; cl_made := [] |}.

(** The locked section of [claimService]; the claim is numbered by its place. *)
Definition claim (name : string) (c : claims) : claims * nat :=
  let id := length (cl_made c) in
  ({| cl_held := <[name := id]> (cl_held c);
      cl_cancelled := match cl_held c !! name with Some previous => {[previous]} ∪ cl_cancelled c | None => cl_cancelled c end;
      cl_made := cl_made c ++ [name] |}, id).

(** A sweep that claims one service: about to claim, at work, released its
    context but not yet its claim, gone. *)
Inductive claim_pc := ToClaim (name : string) | Holding (name : string) (id : nat) | Cancelled (name : string) (id : nat) | Released.

Definition claim_step (c : claims) (pc : claim_pc) : claims * claim_pc :=
  match pc with
  | ToClaim name => let '(c, id) := claim name c in (c, Holding name id)
  | Holding name id => ({| c with cl_cancelled := {[id]} ∪ cl_cancelled c |}, Cancelled name id)
  | Cancelled name id =>
      (if bool_decide (cl_held c !! name = Some id) then {| c with cl_held := delete name (cl_held c) |} else c, Released)
  | Released => (c, Released)
  end.

Definition claim_gone (pc : claim_pc) : bool := match pc with Released => true | _ => false end.
Definition claim_begins (pc : claim_pc) : Prop := ∃ name, pc = ToClaim name.

(** ** Every rule comes to a verdict *)

(** What a rule says of an answer; and all that a check may say. *)
Definition verdicts : list string :=
  [serviceAvailable; serviceUnavailable; serviceRestricted; serviceDisallowedIsp; serviceBlocked; serviceUnsupportedRegion; serviceOriginalsOnly;
   serviceComingSoon; serviceFailed].
Definition statuses : list string := serviceTimeout :: verdicts.

Definition answer_in (trace : list (probeRequest * option ProbeResult)) (r : ProbeResult) : Prop := ∃ req, (req, Some r) ∈ trace.

Definition region_ok (region : string) : Prop := region = EmptyString ∨ two_letters region.

(** What an item may say after the requests of [trace]. *)
Record sound (trace : list (probeRequest * option ProbeResult)) (item : ServiceCheckItem) : Prop := {
  so_status : mem_string (si_Status item) statuses = true;
  so_answered : mem_string (si_Status item) [serviceFailed; serviceTimeout] = false → ∃ r, answer_in trace r ∧ pr_Error r = EmptyString;
  so_timeout : si_Status item = serviceTimeout → ∃ r, answer_in trace r ∧ pr_Error r = probeErrorTimeout;
  so_region : region_ok (si_Region item);
  so_delay : si_Delay item ≠ 0 → ∃ r, answer_in trace r ∧ pr_Error r = EmptyString ∧ si_Delay item = pr_Delay r ∧ si_Chains item = pr_Chains r;
}.

(** What a rule makes of the item of an answer. *)
Record decides (item0 item : ServiceCheckItem) : Prop := {
  de_status : mem_string (si_Status item) verdicts = true;
  de_region : region_ok (si_Region item);
  de_delay : si_Delay item = si_Delay item0;
  de_chains : si_Chains item = si_Chains item0;
}.

Lemma sound_more trace trace' item : trace ⊆ trace' → sound trace item → sound trace' item.
Proof.
  intros Hsub [S A T R D]. assert (Hin : ∀ r, answer_in trace r → answer_in trace' r) by (intros r [req Hr]; exists req; by apply Hsub).
  split; [done | | | done |]; intros Hx.
  - destruct (A Hx) as (r & ? & ?). eauto.
  - destruct (T Hx) as (r & ? & ?). eauto.
  - destruct (D Hx) as (r & ? & ? & ? & ?). exists r. split_and!; auto.
Qed.

Lemma answered_some result r : answered (itemFrom result) result = Some r → result = Some r ∧ pr_Error r = EmptyString.
Proof.
  unfold answered. destruct result as [r'|]; cbn; [|done]. destruct (empty (pr_Error r')) eqn:E; cbn.
  - intros [= ->]. split; [done|]. by apply bool_decide_eq_true in E.
  - destruct (eqs _ _); done.
Qed.

Lemma sound_unanswered trace req result : (req, result) ∈ trace → answered (itemFrom result) result = None → sound trace (itemFrom result).
Proof.
  intros Hin Hno. destruct result as [r|]; [|split; cbn; try done; by left].
  unfold answered in Hno. cbn in *. destruct (empty (pr_Error r)) eqn:E; [done|]. split; cbn; [by destruct (eqs _ _) | | | by left | done].
  - by destruct (eqs _ _).
  - destruct (eqs (pr_Error r) probeErrorTimeout) eqn:Et; [|done]. apply eqs_true in Et. intros _. exists r. split; [by exists req | done].
Qed.

Lemma sound_decided trace req r item : (req, Some r) ∈ trace → pr_Error r = EmptyString → decides (itemFrom (Some r)) item → sound trace item.
Proof.
  intros Hin He [S R D C]. assert (Ha : answer_in trace r) by (by exists req). cbn in D, C. rewrite He in D, C. cbn in D, C. split.
  - unfold statuses. rewrite mem_string_cons, S. apply orb_true_r.
  - eauto.
  - intros Et. by rewrite Et in S.
  - done.
  - intros _. exists r. done.
Qed.

Lemma sound_judged trace req result f : (req, result) ∈ trace → (∀ item r, si_Region item = EmptyString → decides item (f item r)) → sound trace (judged result f).
Proof.
  intros Hin Hf. unfold judged. destruct (answered (itemFrom result) result) as [r|] eqn:E; [|by eapply sound_unanswered].
  apply answered_some in E as [-> He]. eapply sound_decided; [done | done |]. apply Hf. cbn. by rewrite He.
Qed.

Section facts.
Context `{Unicode} `{Web}.

Lemma region_ok_normalized code : region_ok (normalizeRegion code).
Proof using Type. apply region_normalized. Qed.

Lemma region_ok_none : region_ok EmptyString.
Proof using Type. by left. Qed.

Hint Resolve region_ok_normalized region_ok_none : core.

Lemma statusFromCode_verdict code : mem_string (statusFromCode code) verdicts = true.
Proof using Type. unfold statusFromCode. repeat case_match; reflexivity. Qed.

Lemma decides_status item status : si_Region item = EmptyString → mem_string status verdicts = true → decides item (with_status item status).
Proof using Type. intros Hr Hs. split; cbn; [done | rewrite Hr; auto | done | done]. Qed.

Lemma website_verdict target r : mem_string (publicWebsiteStatus target r) verdicts = true.
Proof using Type.
  unfold publicWebsiteStatus. destruct (negb _); [apply statusFromCode_verdict|].
  destruct (parse_url target) as [[]|], (parse_url (pr_Url r)) as [[]|]; repeat case_match; reflexivity.
Qed.

Ltac verdicts := repeat case_match; first [reflexivity | apply statusFromCode_verdict].

Lemma claude_decides item r : si_Region item = EmptyString → decides item (judgeClaude item r).
Proof using Type. intros Hr. unfold judgeClaude. destruct (empty _); [by apply decides_status|]. split; cbn; auto. verdicts. Qed.

Lemma gemini_decides item r : si_Region item = EmptyString → decides item (judgeGemini item r).
Proof using Type.
  intros Hr. unfold judgeGemini. destruct (gemini_code _); [|by apply decides_status]. destruct (negb _); [by apply decides_status|].
  split; cbn; auto. verdicts.
Qed.

Lemma youTube_region_ok body : region_ok (youTube_region body).
Proof using Type. unfold youTube_region. destruct (find _ _); auto. Qed.

Lemma spotify_decides item r : si_Region item = EmptyString → decides item (judgeSpotify item r).
Proof using Type. intros Hr. split; cbn; auto. verdicts. Qed.

Lemma discord_decides item r : si_Region item = EmptyString → decides item (judgeDiscord item r).
Proof using Type. intros Hr. split; cbn; auto; [apply statusFromCode_verdict|]. destruct (eqs _ _); [auto|]. rewrite Hr. auto. Qed.

Lemma prime_decides item r : si_Region item = EmptyString → decides item (judgePrimeVideo item r).
Proof using Type.
  intros Hr. unfold judgePrimeVideo. destruct (Contains _ _); [by apply decides_status|]. destruct (empty _); [by apply decides_status|]. split; cbn; auto.
Qed.

Lemma cdn_decides item r : si_Region item = EmptyString → decides item (judgeNetflixCdn item r).
Proof using Type.
  intros Hr. unfold judgeNetflixCdn. destruct (_ =? _); [by apply decides_status|].
  destruct (fast_countries _) as [[|country ?]|]; [by apply decides_status | | by apply decides_status]. split; cbn; auto.
Qed.

Lemma disney_decides item session : si_Region item = EmptyString → decides item (judgeDisney item session).
Proof using Type.
  intros Hr. unfold judgeDisney. destruct (answered _ _); [|by apply decides_status].
  destruct (_ || _); [by apply decides_status|]. destruct (empty _); [by apply decides_status|]. split; cbn; auto. verdicts.
Qed.

Lemma item_region result : si_Region (itemFrom result) = EmptyString.
Proof using Type. destruct result as [r|]; cbn; [|done]. by destruct (empty _). Qed.

(** ** Every check asks a few requests and comes to one *)

(** A request goes the way it was asked to, as a browser. *)
Definition sent_by (e : serviceEnv) (req : probeRequest) : Prop :=
  pq_proxyName req = en_proxyName e ∧ pq_timeout req = en_timeout e ∧ pq_headers req !! "User-Agent"%string = Some browserUserAgent.

Definition comes_to (e : serviceEnv) (p : probe ServiceCheckItem) (answers : nat → probeRequest → option ProbeResult) (n : nat) : Prop :=
  let '(item, trace) := run answers n p in
  sound trace item ∧ (1 ≤ length trace ≤ 4)%nat ∧ Forall (λ qr, sent_by e qr.1) trace.

Lemma run_send {A} e req (f : option ProbeResult → probe A) answers n : run answers n (send e req ≫= f) =
  let r := answers n (addressed e req) in let '(a, trace) := run answers (S n) (f r) in (a, (addressed e req, r) :: trace).
Proof using Type. done. Qed.

Lemma addressed_sent e req : pq_headers req !! "User-Agent"%string = None → sent_by e (addressed e req).
Proof using Type. intros Hn. unfold sent_by, addressed. cbn. split_and!; [done..|]. rewrite lookup_union_r by done. by rewrite lookup_singleton_eq. Qed.

Lemma one_request e req f answers n : pq_headers req !! "User-Agent"%string = None → (∀ item r, si_Region item = EmptyString → decides item (f item r)) →
  comes_to e (result ← send e req; Done (judged result f)) answers n.
Proof using Type.
  intros Hh Hf. unfold comes_to. rewrite run_send. cbn [run]. split_and!; [|cbn; lia..|].
  - eapply sound_judged; [left | exact Hf].
  - repeat constructor. by apply addressed_sent.
Qed.

Lemma run_bind {A B} (p : probe A) (f : A → probe B) answers : ∀ n, run answers n (p ≫= f) =
  let '(a, t1) := run answers n p in let '(b, t2) := run answers (n + length t1) (f a) in (b, t1 ++ t2).
Proof using Type.
  induction p as [a|req k IH]; intros n.
  - cbn. rewrite Nat.add_0_r. by destruct (run answers n (f a)).
  - cbn. rewrite IH. destruct (run answers (S n) _) as [a t1]. cbn. rewrite Nat.add_succ_r. by destruct (run answers _ (f a)).
Qed.

Lemma sound_region trace item region : region_ok region → sound trace item → sound trace {| item with si_Region := region |}.
Proof using Type. intros Hr [S A T R D]. by split. Qed.

Lemma bilibili_episode e url answers n : comes_to e (bilibiliEpisode e url) answers n.
Proof using Type.
  apply one_request; [done|]. intros item r Hr. apply decides_status; [done|]. unfold bilibiliStatus. by repeat case_match.
Qed.

Lemma bilibili_comes e answers n : comes_to e (checkBilibili e) answers n.
Proof using Type.
  unfold comes_to, checkBilibili. rewrite run_bind. assert (H1 := bilibili_episode e bilibili_mainland answers n). unfold comes_to in H1.
  destruct (run answers n (bilibiliEpisode e bilibili_mainland)) as [item t1] eqn:E1. destruct H1 as (Hs & Hl & Hf).
  assert (Hone : length t1 = 1%nat) by (unfold bilibiliEpisode, get in E1; rewrite run_send in E1; cbn [run] in E1; by injection E1 as <- <-).
  destruct (eqs _ serviceAvailable); [cbn; rewrite app_nil_r; split_and!; [|lia..|done]|].
  { apply sound_region; [by right; split; vm_compute | done]. }
  destruct (eqs _ serviceUnsupportedRegion); [|cbn; rewrite app_nil_r; done].
  assert (H2 := bilibili_episode e bilibili_others answers (n + length t1)). unfold comes_to in H2.
  destruct (run answers _ (bilibiliEpisode e bilibili_others)) as [item2 t2] eqn:E2. destruct H2 as (Hs2 & Hl2 & Hf2).
  assert (Htwo : length t2 = 1%nat) by (unfold bilibiliEpisode, get in E2; rewrite run_send in E2; cbn [run] in E2; by injection E2 as <- <-).
  rewrite length_app. split_and!; [|lia..|by apply Forall_app]. eapply sound_more; [|exact Hs2]. set_solver.
Qed.

(** A trace of requests that went the way they were asked to. *)
Ltac sent := repeat (apply Forall_cons; split; [first [assumption | by apply addressed_sent]|]); by apply Forall_nil.

Lemma chatgpt_comes e answers n : comes_to e (checkChatGpt e) answers n.
Proof using Type.
  unfold comes_to, checkChatGpt, get. do 3 (rewrite run_send; cbv zeta). cbn [run].
  set (r1 := answers n _). set (r2 := answers (S n) _). set (r3 := answers (S (S n)) _). clearbody r1 r2 r3.
  split_and!; [|cbn; lia..|sent]. set (trace := _ :: _ :: _).
  assert (H1 : sound trace (judged r1 (λ item r, with_status item (chatGptIosStatus r)))).
  { eapply sound_judged; [left|]. intros item r Hr. apply decides_status; [done|]. unfold chatGptIosStatus. by repeat case_match. }
  set (item1 := judged r1 _) in *. set (item2 := match answered (itemFrom r2) r2 with Some r => _ | None => _ end).
  assert (H2 : sound trace item2) by (unfold item2; destruct (answered (itemFrom r2) r2); [apply sound_region; auto | done]).
  destruct (answered (itemFrom r3) r3) as [r|] eqn:E3; [|done]. destruct (bodyContains _ _); [|done].
  apply answered_some in E3 as [-> He]. destruct H2 as [S A T R D]. split; try done. intros _. exists r. split; [|done]. eexists. right. right. left.
Qed.

Lemma disney_comes e answers n : comes_to e (checkDisneyPlus e) answers n.
Proof using Type.
  unfold comes_to, checkDisneyPlus. rewrite run_send. cbv zeta. set (d := answers n _). clearbody d.
  assert (Hd : ∀ status trace r, answered (itemFrom d) d = Some r → (addressed e disney_device, d) ∈ trace → mem_string status verdicts = true →
    sound trace (with_status (itemFrom d) status)).
  { intros status trace r (-> & He)%answered_some Hin Hs. eapply sound_decided; [exact Hin | done|]. apply decides_status; [apply item_region | done]. }
  destruct (answered (itemFrom d) d) as [r|] eqn:Ed.
  2: { cbn [run]. split_and!; [|cbn; lia..|sent]. eapply sound_unanswered; [left | done]. }
  destruct (pr_StatusCode r =? 403); [cbn [run]; split_and!; [eapply Hd; [done | left | done] | cbn; lia.. | sent]|].
  destruct (empty (firstSubmatch disneyAssertionPattern _)); [cbn [run]; split_and!; [eapply Hd; [done | left | done] | cbn; lia.. | sent]|].
  rewrite run_send. cbv zeta. set (t := answers (S n) _). clearbody t. destruct (answered (itemFrom t) t) as [t'|] eqn:Et.
  2: { cbn [run]. split_and!; [|cbn; lia..|sent]. eapply sound_unanswered; [right; left | done]. }
  destruct (_ || _); [cbn [run]; split_and!; [eapply Hd; [done | left | done] | cbn; lia.. | sent]|].
  destruct (empty (firstSubmatch disneyRefreshPattern _)); [cbn [run]; split_and!; [eapply Hd; [done | left | done] | cbn; lia.. | sent]|].
  rewrite run_send. cbv zeta. set (session := answers (S (S n)) _). clearbody session. cbn [run]. split_and!; [|cbn; lia..|sent].
  apply answered_some in Ed as [-> He]. eapply sound_decided; [left | done|]. apply disney_decides, item_region.
Qed.

Lemma netflix_comes e answers n : comes_to e (checkNetflix e) answers n.
Proof using Type.
  unfold comes_to, checkNetflix, netflixFromCdn, get. rewrite run_bind, run_send. cbv zeta. set (c := answers n _). clearbody c. cbn [run].
  set (q := addressed e _). assert (Hq : sent_by e q) by (by apply addressed_sent).
  assert (Hcdn : ∀ trace, (q, c) ∈ trace → sound trace (judged c judgeNetflixCdn)) by (intros; eapply sound_judged; [done | apply cdn_decides]).
  set (cdn := judged c judgeNetflixCdn) in *. clearbody cdn q. destruct (_ || _); [cbn [run]; rewrite app_nil_r; split_and!; [apply Hcdn; left | cbn; lia.. | sent]|].
  rewrite run_send. cbv zeta. set (first := answers _ _). clearbody first. destruct (answered (itemFrom first) first) as [r1|] eqn:E1.
  2: { cbn [run app]. split_and!; [|cbn; lia..|sent]. eapply sound_unanswered; [right; left | done]. }
  rewrite run_send. cbv zeta. set (second := answers _ _). clearbody second. destruct (answered (itemFrom second) second) as [r2|] eqn:E2.
  2: { cbn [run app]. split_and!; [|cbn; lia..|sent]. eapply sound_unanswered; [right; right; left | done]. }
  apply answered_some in E1 as [-> He]. assert (Hd := λ status, decides_status (itemFrom (Some r1)) status (item_region (Some r1))).
  destruct (_ && _); [cbn [run app]; split_and!; [eapply sound_decided; [right; left | done | by apply Hd] | cbn; lia.. | sent]|].
  destruct (_ || _); [cbn [run app]; split_and!; [eapply sound_decided; [right; left | done | by apply Hd] | cbn; lia.. | sent]|].
  destruct (_ || _).
  2: { cbn [run app]. split_and!; [|cbn; lia..|sent].
       eapply sound_decided; [right; left | done|]. apply Hd, statusFromCode_verdict. }
  unfold netflixRegion. rewrite run_bind, run_send. cbv zeta. set (last := answers _ _). clearbody last. cbn [run app].
  split_and!; [|cbn; lia..|sent]. apply (sound_region _ (with_status (itemFrom (Some r1)) serviceAvailable)).
  - destruct last as [r|]; [|auto]. destruct (pr_location r); [|auto]. destruct (Split _ _) as [|? [|? [|? [|segment ?]]]]; auto. destruct (empty _); auto.
  - eapply sound_decided; [right; left | done | by apply Hd].
Qed.

(** What every rule asks and says. *)
Lemma checkers_come_to checker e answers n : checker ∈ serviceCheckers → comes_to e (checker.2 e) answers n.
Proof using Type.
  intros Hin. unfold serviceCheckers in Hin. repeat (apply elem_of_cons in Hin as [->|Hin]); [.. | by apply not_elem_of_nil in Hin]; cbn [snd].
  1-2: apply one_request; [done|]; intros; apply decides_status; [done | apply statusFromCode_verdict].
  1-6: apply one_request; [done|]; intros; apply decides_status; [done | apply website_verdict].
  - apply one_request; [done|]. intros item r Hr. split; cbn; auto using youTube_region_ok. unfold youTube_status. verdicts.
  - apply chatgpt_comes.
  - apply one_request; [done | apply claude_decides].
  - apply one_request; [done | apply gemini_decides].
  - apply netflix_comes.
  - apply disney_comes.
  - apply one_request; [done | apply prime_decides].
  - apply one_request; [done | apply spotify_decides].
  - apply one_request; [done|]. intros item r Hr. split; cbn; [unfold tikTokStatus; by repeat case_match | apply region_ok_normalized | done..].
  - apply one_request; [done | apply discord_decides].
  - apply bilibili_comes.
Qed.

(** ** What the answers bear out

    The verdicts of the services as a table of what was answered: [bears name
    answers status region] when the answers to one try, in order, speak for
    the status and the region. *)

Definition answers_well (r : ProbeResult) : Prop := pr_Error r = EmptyString.

(** An answer that did not come, and the status that stands for it. *)
Inductive unanswered : option ProbeResult → string → Prop :=
  | no_result : unanswered None "failed"
  | timed_out r : pr_Error r = "timeout"%string → unanswered (Some r) "timeout"
  | went_wrong r : pr_Error r ≠ EmptyString → pr_Error r ≠ "timeout"%string → unanswered (Some r) "failed".

Definition succeeds (code : Z) : Prop := 200 <= code < 300.

Inductive code_says (code : Z) : string → Prop :=
  | code_succeeds : succeeds code → code_says code "available"
  | code_refused : code ∈ [401; 403; 429; 451] → code_says code "restricted"
  | code_else : ¬ succeeds code → code ∉ [401; 403; 429; 451] → code_says code "unavailable".

(** A page of a website that shows itself, or another, or a challenge. *)
Definition challenges (path : string) (r : ProbeResult) : Prop :=
  (∃ c, c ∈ challenge_paths ∧ Contains (ToLower path) c = true) ∨ ∃ c, c ∈ challenge_pages ∧ Contains (ToLower (pr_Body r)) c = true.

Inductive website_says (target : string) (r : ProbeResult) : string → Prop :=
  | site_code st : ¬ succeeds (pr_StatusCode r) → code_says (pr_StatusCode r) st → website_says target r st
  | site_lost : succeeds (pr_StatusCode r) →
      parse_url target = None ∨ parse_url (pr_Url r) = None ∨ (∃ path, parse_url (pr_Url r) = Some (EmptyString, path)) →
      website_says target r "failed"
  | site_elsewhere requested p final path : succeeds (pr_StatusCode r) →
      parse_url target = Some (requested, p) → parse_url (pr_Url r) = Some (final, path) → final ≠ EmptyString →
      EqualFold requested final = false → website_says target r "restricted"
  | site_challenged requested p final path : succeeds (pr_StatusCode r) →
      parse_url target = Some (requested, p) → parse_url (pr_Url r) = Some (final, path) → final ≠ EmptyString →
      EqualFold requested final = true → challenges path r → website_says target r "restricted"
  | site_shown requested p final path : succeeds (pr_StatusCode r) →
      parse_url target = Some (requested, p) → parse_url (pr_Url r) = Some (final, path) → final ≠ EmptyString →
      EqualFold requested final = true → ¬ challenges path r → website_says target r "available".

(** The page of YouTube says which country it is for; the first pattern that
    finds one names it. *)
Inductive youTube_country (body : string) : string → Prop :=
  | country_found i : (i < 4)%nat → firstSubmatch (youTubeRegionPattern i) body ≠ EmptyString →
      (∀ j, (j < i)%nat → firstSubmatch (youTubeRegionPattern j) body = EmptyString) →
      youTube_country body (normalizeRegion (firstSubmatch (youTubeRegionPattern i) body))
  | country_unknown : (∀ j, (j < 4)%nat → firstSubmatch (youTubeRegionPattern j) body = EmptyString) → youTube_country body EmptyString.

Definition premium_refused : list string :=
  ["youtube premium is not available in your country"; "premium is not available in your country"; "premium is not available in your region"].
Definition premium_offered : list string := ["youtube premium"; "ad-free"; quoted "'browseid':'spunlimited'"].

Inductive youTube_says (r : ProbeResult) : string → Prop :=
  | premium_away : bodyContains r premium_refused = true → youTube_says r "unsupported-region"
  | premium_here : bodyContains r premium_refused = false → succeeds (pr_StatusCode r) → bodyContains r premium_offered = true →
      youTube_says r "available"
  | premium_code st : bodyContains r premium_refused = false → ¬ (succeeds (pr_StatusCode r) ∧ bodyContains r premium_offered = true) →
      code_says (pr_StatusCode r) st → youTube_says r st.

Definition websites : list (string * string) :=
  [("telegram", "https://web.telegram.org/"); ("sberbank", "https://online.sberbank.ru/CSAFront/index.do");
   ("gosuslugi", "https://www.gosuslugi.ru/"); ("vk", "https://vk.com/"); ("kinopoisk", "https://www.kinopoisk.ru/"); ("yandex", "https://ya.ru/")].

(** The services judged by one page, and their verdict on it. *)
Definition pages : list string :=
  ["google"; "github"; "telegram"; "sberbank"; "gosuslugi"; "vk"; "kinopoisk"; "yandex"; "youtube"; "claude"; "gemini"; "prime-video"; "spotify";
   "tiktok"; "discord"].

Definition claude_region (r : ProbeResult) : string := normalizeRegion (traceValue (pr_Body r) "loc").
Definition prime_territory (r : ProbeResult) : string := firstSubmatch primeRegionPattern (pr_Body r).
Definition tikTok_refusals : list string := ["access denied"; "not available in your region"; "tiktok is not available"].

Inductive page_says : string → ProbeResult → string → string → Prop :=
  | reach_says name r st : name ∈ ["google"; "github"]%string → code_says (pr_StatusCode r) st → page_says name r st EmptyString
  | site_says name target r st : (name, target) ∈ websites → website_says target r st → page_says name r st EmptyString
  | premium_says r st region : youTube_says r st → youTube_country (pr_Body r) region → page_says "youtube" r st region
  | claude_unknown r : claude_region r = EmptyString → page_says "claude" r "failed" EmptyString
  | claude_away r : claude_region r ∈ ["AF"; "BY"; "CN"; "CU"; "HK"; "IR"; "KP"; "MO"; "RU"; "SY"]%string →
      page_says "claude" r "unsupported-region" (claude_region r)
  | claude_here r : claude_region r ∉ ["AF"; "BY"; "CN"; "CU"; "HK"; "IR"; "KP"; "MO"; "RU"; "SY"]%string → claude_region r ≠ EmptyString →
      page_says "claude" r "available" (claude_region r)
  | gemini_unknown r : (∀ code, gemini_code (pr_Body r) = Some code → isAsciiUpper code = false) → page_says "gemini" r "failed" EmptyString
  | gemini_away r code : gemini_code (pr_Body r) = Some code → isAsciiUpper code = true →
      code ∈ ["CHN"; "RUS"; "BLR"; "CUB"; "IRN"; "PRK"; "SYR"; "HKG"; "MAC"]%string →
      page_says "gemini" r "unsupported-region" (normalizeRegion code)
  | gemini_here r code : gemini_code (pr_Body r) = Some code → isAsciiUpper code = true →
      code ∉ ["CHN"; "RUS"; "BLR"; "CUB"; "IRN"; "PRK"; "SYR"; "HKG"; "MAC"]%string →
      page_says "gemini" r "available" (normalizeRegion code)
  | prime_away r : Contains (pr_Body r) "isServiceRestricted" = true → page_says "prime-video" r "unsupported-region" EmptyString
  | prime_unknown r : Contains (pr_Body r) "isServiceRestricted" = false → prime_territory r = EmptyString →
      page_says "prime-video" r "failed" EmptyString
  | prime_here r : Contains (pr_Body r) "isServiceRestricted" = false → prime_territory r ≠ EmptyString →
      page_says "prime-video" r "available" (normalizeRegion (prime_territory r))
  | spotify_refused r : pr_StatusCode r ∈ [403; 451] → page_says "spotify" r "unsupported-region" (normalizeRegion (spotifyRegion r))
  | spotify_code r st : pr_StatusCode r ∉ [403; 451] → ¬ succeeds (pr_StatusCode r) → code_says (pr_StatusCode r) st →
      page_says "spotify" r st (normalizeRegion (spotifyRegion r))
  | spotify_away r : succeeds (pr_StatusCode r) → bodyContains r ["not available in your country"] = true →
      page_says "spotify" r "unsupported-region" (normalizeRegion (spotifyRegion r))
  | spotify_here r : succeeds (pr_StatusCode r) → bodyContains r ["not available in your country"] = false →
      page_says "spotify" r "available" (normalizeRegion (spotifyRegion r))
  | tikTok_refused r : pr_StatusCode r ∈ [403; 451] → page_says "tiktok" r "unsupported-region" (tikTokRegion (pr_Body r))
  | tikTok_failed r : pr_StatusCode r ∉ [403; 451] → ¬ succeeds (pr_StatusCode r) → page_says "tiktok" r "failed" (tikTokRegion (pr_Body r))
  | tikTok_away r : succeeds (pr_StatusCode r) → bodyContains r tikTok_refusals = true →
      page_says "tiktok" r "unsupported-region" (tikTokRegion (pr_Body r))
  | tikTok_here r : succeeds (pr_StatusCode r) → bodyContains r tikTok_refusals = false →
      page_says "tiktok" r "available" (tikTokRegion (pr_Body r))
  | discord_here r : succeeds (pr_StatusCode r) →
      page_says "discord" r "available" (normalizeRegion (firstSubmatch discordCountryPattern (pr_Body r)))
  | discord_code r st : ¬ succeeds (pr_StatusCode r) → code_says (pr_StatusCode r) st → page_says "discord" r st EmptyString.

(** The pages of ChatGPT: the app's, the trace of where it is, the compliance
    of the country. *)
Inductive ios_says (r : ProbeResult) : string → Prop :=
  | ios_isp : bodyContains r ["you may be connected to a disallowed isp"] = true → ios_says r "disallowed-isp"
  | ios_blocked : bodyContains r ["you may be connected to a disallowed isp"] = false →
      bodyContains r ["sorry, you have been blocked"] = true → ios_says r "blocked"
  | ios_turned : bodyContains r ["you may be connected to a disallowed isp"] = false →
      bodyContains r ["sorry, you have been blocked"] = false →
      bodyContains r ["request is not allowed. please try again later."] = true → ios_says r "available"
  | ios_else : bodyContains r ["you may be connected to a disallowed isp"] = false →
      bodyContains r ["sorry, you have been blocked"] = false →
      bodyContains r ["request is not allowed. please try again later."] = false → ios_says r "failed".

Inductive app_says : option ProbeResult → string → Prop :=
  | app_lost x st : unanswered x st → app_says x st
  | app_answers r st : answers_well r → ios_says r st → app_says (Some r) st.

Inductive trace_says : option ProbeResult → string → Prop :=
  | trace_lost x st : unanswered x st → trace_says x EmptyString
  | trace_answers r : answers_well r → trace_says (Some r) (normalizeRegion (traceValue (pr_Body r) "loc")).

Definition web_refuses (x : option ProbeResult) : Prop :=
  ∃ r, x = Some r ∧ answers_well r ∧ bodyContains r ["unsupported_country"] = true.

Inductive episode_says : option ProbeResult → string → Prop :=
  | episode_lost x st : unanswered x st → episode_says x st
  | episode_served r : answers_well r → firstSubmatch bilibiliCodePattern (pr_Body r) = "0"%string → episode_says (Some r) "available"
  | episode_away r : answers_well r → firstSubmatch bilibiliCodePattern (pr_Body r) = "-10403"%string →
      episode_says (Some r) "unsupported-region"
  | episode_failed r : answers_well r → firstSubmatch bilibiliCodePattern (pr_Body r) ∉ ["0"; "-10403"]%string → episode_says (Some r) "failed".

(** A reply of the delivery network of Netflix that settles nothing. *)
Inductive cdn_unsettled : option ProbeResult → Prop :=
  | cdn_lost x st : unanswered x st → cdn_unsettled x
  | cdn_nowhere r : answers_well r → pr_StatusCode r ≠ 403 → fast_countries (pr_Body r) ∈ [None; Some []] → cdn_unsettled (Some r).

(** The country Netflix would send a visitor to. *)
Inductive sent_to_country (x : option ProbeResult) : string → Prop :=
  | sent_there r location a b c segment rest : x = Some r → answers_well r → pr_location r = Some location →
      Split location "/" = a :: b :: c :: segment :: rest → sent_to_country x (normalizeRegion (first_of (Split segment "-")))
  | sent_nowhere : (∀ r location a b c segment rest, x = Some r → answers_well r → pr_location r = Some location →
      Split location "/" ≠ a :: b :: c :: segment :: rest) → sent_to_country x EmptyString.

(** The session of Disney+ says where it landed. *)
Inductive session_says : option ProbeResult → string → string → Prop :=
  | session_lost x st : unanswered x st → session_says x "failed" EmptyString
  | session_refused r : answers_well r → pr_Body r = EmptyString ∨ 400 <= pr_StatusCode r → session_says (Some r) "failed" EmptyString
  | session_nowhere r : answers_well r → pr_Body r ≠ EmptyString → pr_StatusCode r < 400 →
      normalizeRegion (firstSubmatch disneyCountryPattern (pr_Body r)) = EmptyString → session_says (Some r) "unavailable" EmptyString
  | session_lands r region st : answers_well r → pr_Body r ≠ EmptyString → pr_StatusCode r < 400 →
      normalizeRegion (firstSubmatch disneyCountryPattern (pr_Body r)) = region → region ≠ EmptyString →
      (firstSubmatch disneySupportedPattern (pr_Body r), st) ∈ [("true", "available"); ("false", "coming-soon")]%string ∨
        (firstSubmatch disneySupportedPattern (pr_Body r) ∉ ["true"; "false"]%string ∧ st = "failed"%string) →
      session_says (Some r) st region.

Definition forbidden_location (t : ProbeResult) : Prop :=
  Contains (pr_Body t) "forbidden-location" = true ∨ Contains (pr_Body t) "403 ERROR" = true.

Inductive bears : string → list (option ProbeResult) → string → string → Prop :=
  | page_lost name x st : name ∈ pages → unanswered x st → bears name [x] st EmptyString
  | page_answers name r st region : answers_well r → page_says name r st region → bears name [Some r] st region
  | chatgpt_refused app trace web region : web_refuses web → trace_says trace region →
      bears "chatgpt" [app; trace; web] "unsupported-region" region
  | chatgpt_app app trace web st region : ¬ web_refuses web → trace_says trace region → app_says app st →
      bears "chatgpt" [app; trace; web] st region
  | bilibili_here x : episode_says x "available" → bears "bilibili" [x] "available" "CN"
  | bilibili_elsewhere x y st : episode_says x "unsupported-region" → episode_says y st → bears "bilibili" [x; y] st EmptyString
  | bilibili_lost x st : episode_says x st → st ∉ ["available"; "unsupported-region"]%string → bears "bilibili" [x] st EmptyString
  | netflix_blocked c : answers_well c → pr_StatusCode c = 403 → bears "netflix" [Some c] "blocked" EmptyString
  | netflix_cdn c country rest : answers_well c → pr_StatusCode c ≠ 403 → fast_countries (pr_Body c) = Some (country :: rest) →
      bears "netflix" [Some c] "available" (normalizeRegion country)
  | netflix_first_lost c x st : cdn_unsettled c → unanswered x st → bears "netflix" [c; x] st EmptyString
  | netflix_second_lost c r x st : cdn_unsettled c → answers_well r → unanswered x st → bears "netflix" [c; Some r; x] st EmptyString
  | netflix_originals c r1 r2 : cdn_unsettled c → answers_well r1 → answers_well r2 →
      pr_StatusCode r1 = 404 → pr_StatusCode r2 = 404 → bears "netflix" [c; Some r1; Some r2] "originals-only" EmptyString
  | netflix_away c r1 r2 : cdn_unsettled c → answers_well r1 → answers_well r2 →
      pr_StatusCode r1 = 403 ∨ pr_StatusCode r2 = 403 → bears "netflix" [c; Some r1; Some r2] "unsupported-region" EmptyString
  | netflix_served c r1 r2 x region : cdn_unsettled c → answers_well r1 → answers_well r2 →
      pr_StatusCode r1 ≠ 403 → pr_StatusCode r2 ≠ 403 → pr_StatusCode r1 ∈ [200; 301] ∨ pr_StatusCode r2 ∈ [200; 301] →
      sent_to_country x region → bears "netflix" [c; Some r1; Some r2; x] "available" region
  | netflix_code c r1 r2 st : cdn_unsettled c → answers_well r1 → answers_well r2 →
      ¬ (pr_StatusCode r1 = 404 ∧ pr_StatusCode r2 = 404) → pr_StatusCode r1 ∉ [200; 301; 403] → pr_StatusCode r2 ∉ [200; 301; 403] →
      code_says (pr_StatusCode r1) st → bears "netflix" [c; Some r1; Some r2] st EmptyString
  | disney_lost x st : unanswered x st → bears "disney-plus" [x] st EmptyString
  | disney_blocked d : answers_well d → pr_StatusCode d = 403 → bears "disney-plus" [Some d] "blocked" EmptyString
  | disney_no_device d : answers_well d → pr_StatusCode d ≠ 403 → firstSubmatch disneyAssertionPattern (pr_Body d) = EmptyString →
      bears "disney-plus" [Some d] "failed" EmptyString
  | disney_token_lost d x st : answers_well d → pr_StatusCode d ≠ 403 → firstSubmatch disneyAssertionPattern (pr_Body d) ≠ EmptyString →
      unanswered x st → bears "disney-plus" [Some d; x] st EmptyString
  | disney_forbidden d t : answers_well d → pr_StatusCode d ≠ 403 → firstSubmatch disneyAssertionPattern (pr_Body d) ≠ EmptyString →
      answers_well t → forbidden_location t → bears "disney-plus" [Some d; Some t] "blocked" EmptyString
  | disney_no_token d t : answers_well d → pr_StatusCode d ≠ 403 → firstSubmatch disneyAssertionPattern (pr_Body d) ≠ EmptyString →
      answers_well t → ¬ forbidden_location t → firstSubmatch disneyRefreshPattern (pr_Body t) = EmptyString →
      bears "disney-plus" [Some d; Some t] "failed" EmptyString
  | disney_lands d t x st region : answers_well d → pr_StatusCode d ≠ 403 → firstSubmatch disneyAssertionPattern (pr_Body d) ≠ EmptyString →
      answers_well t → ¬ forbidden_location t → firstSubmatch disneyRefreshPattern (pr_Body t) ≠ EmptyString →
      session_says x st region → bears "disney-plus" [Some d; Some t; x] st region.

(** *** Each rule goes by the table *)

Definition service_pages (name : string) : list string :=
  match find (λ site, eqs site.1 name) (websites ++
    [("google", "https://www.google.com/generate_204"); ("github", "https://github.com/"); ("youtube", "https://www.youtube.com/premium?hl=en");
     ("claude", "https://claude.ai/cdn-cgi/trace"); ("gemini", "https://gemini.google.com"); ("prime-video", "https://www.primevideo.com");
     ("spotify", "https://www.spotify.com/api/content/v1/country-selector?platform=web&format=json"); ("tiktok", "https://www.tiktok.com/");
     ("discord", "https://discord.com/api/v9/auth/location-metadata")]%string) with
  | Some site => [site.2]
  | None =>
      if eqs name "chatgpt" then
        ["https://ios.chat.openai.com/"; "https://chat.openai.com/cdn-cgi/trace"; "https://api.openai.com/compliance/cookie_requirements"]
      else if eqs name "bilibili" then [bilibili_mainland; bilibili_others]
      else if eqs name "netflix" then
        ["https://api.fast.com/netflix/speedtest/v2?https=true&token=YXNkZmFzZGxmbnNkYWZoYXNkZmhrYWxm&urlCount=5";
         "https://www.netflix.com/title/81280792"; "https://www.netflix.com/title/70143836"; "https://www.netflix.com/title/80018499"]
      else if eqs name "disney-plus" then
        ["https://disney.api.edge.bamgrid.com/devices"; "https://disney.api.edge.bamgrid.com/token";
         "https://disney.api.edge.bamgrid.com/graph/v1/device/graphql"]
      else []
  end%string.

(** One try of a check: it asks the service's pages in order, and its verdict
    is what the answers bear out. *)
Definition tries (name : string) (trace : list (probeRequest * option ProbeResult)) (status region : string) : Prop :=
  pq_url <$> trace.*1 = take (length trace) (service_pages name) ∧ bears name trace.*2 status region.

Definition goes_by (name : string) (e : serviceEnv) (p : probe ServiceCheckItem) (answers : nat → probeRequest → option ProbeResult) (n : nat) : Prop :=
  let '(item, trace) := run answers n p in tries name trace (si_Status item) (si_Region item).

Lemma unanswered_item x : answered (itemFrom x) x = None → unanswered x (si_Status (itemFrom x)).
Proof using Type.
  destruct x as [r|]; [|constructor]. unfold answered. cbn. destruct (empty (pr_Error r)) eqn:E; [done|]. intros _.
  apply bool_decide_eq_false in E. unfold eqs. case_bool_decide as Et; cbn; [by constructor|]. by constructor.
Qed.

(** A string on a list, by tests. *)
Lemma mem_string_spec x l : mem_string x l = true ↔ x ∈ l.
Proof using Type. unfold mem_string. apply bool_decide_eq_true. Qed.

Lemma mem_string_not x l : mem_string x l = false ↔ x ∉ l.
Proof using Type. unfold mem_string. apply bool_decide_eq_false. Qed.

Lemma succeeds_spec code : (200 <=? code) && (code <? 300) = true ↔ succeeds code.
Proof using Type. unfold succeeds. rewrite andb_true_iff, Z.leb_le, Z.ltb_lt. done. Qed.

Lemma fails_spec code : (code <? 200) || (300 <=? code) = true ↔ ¬ succeeds code.
Proof using Type. unfold succeeds. rewrite orb_true_iff, Z.leb_le, Z.ltb_lt. lia. Qed.

Lemma code_says_spec code : code_says code (statusFromCode code).
Proof using Type.
  unfold statusFromCode. destruct (_ && _) eqn:E1; [by apply code_succeeds, succeeds_spec|].
  assert (¬ succeeds code) by (rewrite <- succeeds_spec; congruence). destruct (_ || _) eqn:E2.
  - apply code_refused. rewrite !orb_true_iff, !Z.eqb_eq in E2. set_solver.
  - apply code_else; [done|]. rewrite !orb_false_iff, !Z.eqb_neq in E2. set_solver.
Qed.

Lemma website_says_spec target r : website_says target r (publicWebsiteStatus target r).
Proof using Type.
  unfold publicWebsiteStatus. pose proof (code_says_spec (pr_StatusCode r)) as Hcode.
  destruct (eqs (statusFromCode _) serviceAvailable) eqn:E; cbn [negb].
  2: { apply site_code; [|done]. rewrite <- succeeds_spec. unfold statusFromCode in E. destruct (_ && _); done. }
  assert (succeeds (pr_StatusCode r)) as Hs.
  { apply succeeds_spec. unfold statusFromCode in E. destruct (_ && _); [done|]. by destruct (_ || _). }
  destruct (parse_url target) as [[requested p]|] eqn:E1; [|by apply site_lost; auto].
  destruct (parse_url (pr_Url r)) as [[final path]|] eqn:E2; [|by apply site_lost; auto].
  destruct (empty final) eqn:E3; [apply empty_true in E3 as ->; apply site_lost; [done | right; right; by exists path]|].
  apply empty_false in E3. destruct (EqualFold requested final) eqn:E4; cbn [negb]; [|by eapply site_elsewhere].
  assert (challenges path r ↔ existsb (Contains (ToLower path)) challenge_paths = true ∨ bodyContains r challenge_pages = true) as Hch.
  { unfold challenges, bodyContains. cbv zeta. rewrite !existsb_exists. by setoid_rewrite list_elem_of_In. }
  destruct (existsb (Contains (ToLower path)) challenge_paths) eqn:E5; [eapply site_challenged; eauto; apply Hch; by left|].
  destruct (bodyContains r challenge_pages) eqn:E6; [eapply site_challenged; eauto; apply Hch; by right|].
  eapply site_shown; eauto. rewrite Hch. by intros [?|?].
Qed.

Lemma page_goes name e req f answers n : name ∈ pages → [pq_url req] = service_pages name →
  (∀ item r, si_Region item = EmptyString → page_says name r (si_Status (f item r)) (si_Region (f item r))) →
  goes_by name e (result ← send e req; Done (judged result f)) answers n.
Proof using Type.
  intros Hname Hurl Hf. unfold goes_by. rewrite run_send. cbn [run]. split; [by rewrite <- Hurl|].
  set (x := answers n _). change ([(_, x)].*2) with [x]. unfold judged.
  destruct (answered (itemFrom x) x) as [r|] eqn:Ex.
  - apply answered_some in Ex as [-> He]. apply page_answers; [done|]. apply Hf, item_region.
  - rewrite item_region. apply page_lost; [done|]. by apply unanswered_item.
Qed.

Lemma youTube_country_spec body : youTube_country body (youTube_region body).
Proof using Type.
  unfold youTube_region. set (found j := firstSubmatch (youTubeRegionPattern j) body).
  assert (∀ n k, (∀ j, (j < k)%nat → found j = EmptyString) → (k + n = 4)%nat →
    youTube_country body match find (λ code, negb (empty code)) (found <$> seq k n) with
                         | Some code => normalizeRegion code | None => EmptyString end) as Hall; [|by apply (Hall 4%nat 0%nat); [lia|]].
  induction n as [|n IH]; intros k Hk Hn; cbn [seq fmap list_fmap find].
  - apply country_unknown. intros j Hj. apply Hk. lia.
  - destruct (empty (found k)) eqn:E; cbn [negb].
    + apply empty_true in E. apply IH; [|lia]. intros j Hj. destruct (decide (j = k)) as [->|]; [done|]. apply Hk. lia.
    + apply empty_false in E. apply country_found; [lia | done | done].
Qed.

Lemma youTube_says_spec r : youTube_says r (youTube_status r).
Proof using Type.
  unfold youTube_status. fold premium_refused premium_offered. destruct (bodyContains r premium_refused) eqn:E1; [by apply premium_away|].
  destruct ((200 <=? _) && _) eqn:E2; cbn [andb].
  - apply succeeds_spec in E2. destruct (bodyContains r premium_offered) eqn:E3; [by apply premium_here|].
    apply premium_code; [done | by intros [_ ?]; congruence | apply code_says_spec].
  - apply premium_code; [done | | apply code_says_spec]. intros [?%succeeds_spec _]. congruence.
Qed.

Lemma claude_says item r : si_Region item = EmptyString → page_says "claude" r (si_Status (judgeClaude item r)) (si_Region (judgeClaude item r)).
Proof using Type.
  intros Hr. unfold judgeClaude. fold (claude_region r). destruct (empty (claude_region r)) eqn:E; cbn.
  - apply empty_true in E. rewrite Hr. by apply claude_unknown.
  - apply empty_false in E. destruct (mem_string _ _) eqn:Em; [apply mem_string_spec in Em | apply mem_string_not in Em].
    + by apply claude_away.
    + by apply claude_here.
Qed.

Lemma gemini_says item r : si_Region item = EmptyString → page_says "gemini" r (si_Status (judgeGemini item r)) (si_Region (judgeGemini item r)).
Proof using Type.
  intros Hr. unfold judgeGemini. destruct (gemini_code (pr_Body r)) as [code|] eqn:E; cbn.
  2: { rewrite Hr. apply gemini_unknown. intros ? [=]; congruence. }
  destruct (isAsciiUpper code) eqn:Eu; cbn.
  2: { rewrite Hr. apply gemini_unknown. intros code' [=]; congruence. }
  destruct (mem_string _ _) eqn:Em; [apply mem_string_spec in Em | apply mem_string_not in Em].
  - by apply gemini_away.
  - by apply gemini_here.
Qed.

Lemma prime_says item r : si_Region item = EmptyString →
  page_says "prime-video" r (si_Status (judgePrimeVideo item r)) (si_Region (judgePrimeVideo item r)).
Proof using Type.
  intros Hr. unfold judgePrimeVideo. fold (prime_territory r). destruct (Contains _ _) eqn:E; cbn; [rewrite Hr; by apply prime_away|].
  destruct (empty (prime_territory r)) eqn:Et; cbn.
  - apply empty_true in Et. rewrite Hr. by apply prime_unknown.
  - apply empty_false in Et. by apply prime_here.
Qed.

Lemma refused_spec code : (code =? 403) || (code =? 451) = true ↔ code ∈ [403; 451].
Proof using Type. rewrite orb_true_iff, !Z.eqb_eq. set_solver. Qed.

Lemma refused_fails code : code ∈ [403; 451] → ¬ succeeds code.
Proof using Type. rewrite <- refused_spec, orb_true_iff, !Z.eqb_eq. unfold succeeds. lia. Qed.

Lemma spotify_says item r : page_says "spotify" r (si_Status (judgeSpotify item r)) (si_Region (judgeSpotify item r)).
Proof using Type.
  unfold judgeSpotify. cbn [si_Status si_Region]. destruct ((_ =? 403) || _) eqn:E1; [by apply spotify_refused, refused_spec|].
  assert (pr_StatusCode r ∉ [403; 451]) by (rewrite <- refused_spec; congruence).
  destruct ((_ <? 200) || _) eqn:E2; [apply fails_spec in E2; apply spotify_code; [done.. | apply code_says_spec]|].
  assert (succeeds (pr_StatusCode r)) by (destruct (decide (200 <= pr_StatusCode r < 300)); [done|]; apply fails_spec in n; congruence).
  destruct (bodyContains r ["not available in your country"]) eqn:E3; [by apply spotify_away | by apply spotify_here].
Qed.

Lemma tikTok_says r : page_says "tiktok" r (tikTokStatus r) (tikTokRegion (pr_Body r)).
Proof using Type.
  unfold tikTokStatus. fold tikTok_refusals. destruct ((_ =? 403) || _) eqn:E1; [by apply tikTok_refused, refused_spec|].
  assert (pr_StatusCode r ∉ [403; 451]) by (rewrite <- refused_spec; congruence).
  destruct ((_ <? 200) || _) eqn:E2; [apply fails_spec in E2; by apply tikTok_failed|].
  assert (succeeds (pr_StatusCode r)) by (destruct (decide (200 <= pr_StatusCode r < 300)); [done|]; apply fails_spec in n; congruence).
  destruct (bodyContains r tikTok_refusals) eqn:E3; [by apply tikTok_away | by apply tikTok_here].
Qed.

Lemma discord_says item r : si_Region item = EmptyString → page_says "discord" r (si_Status (judgeDiscord item r)) (si_Region (judgeDiscord item r)).
Proof using Type.
  intros Hr. unfold judgeDiscord. cbn. pose proof (code_says_spec (pr_StatusCode r)) as Hc.
  destruct (decide (succeeds (pr_StatusCode r))) as [Hs|Hs].
  - apply succeeds_spec in Hs as Hs'. unfold statusFromCode. rewrite Hs'. by apply discord_here.
  - destruct (eqs _ _) eqn:E; [|by rewrite Hr; apply discord_code]. exfalso. apply eqs_true in E. apply Hs. apply succeeds_spec.
    unfold statusFromCode in E. destruct (_ && _); [done|]. by destruct (_ || _).
Qed.

Lemma app_says_spec x : app_says x (si_Status (judged x (λ item r, with_status item (chatGptIosStatus r)))).
Proof using Type.
  unfold judged. destruct (answered (itemFrom x) x) as [r|] eqn:E; [|by apply app_lost, unanswered_item].
  apply answered_some in E as [-> He]. apply app_answers; [done|]. change (ios_says r (chatGptIosStatus r)). unfold chatGptIosStatus.
  destruct (bodyContains r ["you may be connected to a disallowed isp"]) eqn:E1; [by apply ios_isp|]. destruct (bodyContains r ["sorry, you have been blocked"]) eqn:E2; [by apply ios_blocked|].
  destruct (bodyContains r ["request is not allowed. please try again later."]) eqn:E3; [by apply ios_turned | by apply ios_else].
Qed.

Lemma chatgpt_goes e answers n : goes_by "chatgpt" e (checkChatGpt e) answers n.
Proof using Type.
  unfold goes_by, checkChatGpt, get. do 3 (rewrite run_send; cbv zeta). cbn [run].
  set (x1 := answers n _). set (x2 := answers (S n) _). set (x3 := answers (S (S n)) _). clearbody x1 x2 x3.
  split; [done|]. change (bears "chatgpt" [x1; x2; x3]) with (bears "chatgpt" ([x1; x2; x3])). cbn [fmap list_fmap snd].
  pose proof (app_says_spec x1) as Happ. set (item1 := judged x1 _) in *.
  assert (si_Region item1 = EmptyString) as Hr1.
  { unfold item1, judged. destruct (answered _ _); apply item_region. }
  clearbody item1. set (item2 := match answered (itemFrom x2) x2 with Some r => _ | None => item1 end).
  assert (si_Status item2 = si_Status item1) as Hst by (unfold item2; by destruct (answered _ _)).
  assert (trace_says x2 (si_Region item2)) as Htr.
  { unfold item2. destruct (answered (itemFrom x2) x2) as [r|] eqn:E.
    - apply answered_some in E as [-> He]. by apply trace_answers.
    - rewrite Hr1. eapply trace_lost. by apply unanswered_item. }
  destruct (answered (itemFrom x3) x3) as [r|] eqn:E3.
  - apply answered_some in E3 as [-> He]. destruct (bodyContains r ["unsupported_country"]) eqn:Eb; cbn.
    + apply chatgpt_refused; [by exists r | done].
    + apply chatgpt_app; [|done | by rewrite Hst]. intros (r' & [= <-] & _ & ?). congruence.
  - apply chatgpt_app; [|done | by rewrite Hst]. intros (r' & -> & He & _). unfold answered in E3. cbn in E3. by rewrite He in E3.
Qed.

Lemma unanswered_lost x st : unanswered x st → st ∉ ["available"; "unsupported-region"]%string.
Proof using Type. destruct 1; set_solver. Qed.

Lemma episode_run e url answers n : ∃ x item req, run answers n (bilibiliEpisode e url) = (item, [(req, x)]) ∧ pq_url req = url ∧
  episode_says x (si_Status item) ∧ si_Region item = EmptyString.
Proof using Type.
  unfold bilibiliEpisode, get. rewrite run_send. cbn [run]. eexists _, _, _. split_and!; [done | done | |].
  - set (x := answers n _). clearbody x. unfold judged. destruct (answered (itemFrom x) x) as [r|] eqn:E; [|by apply episode_lost, unanswered_item].
    apply answered_some in E as [-> He]. cbn [with_status si_Status]. unfold bilibiliStatus.
    destruct (eqs _ "0") eqn:E0; [by apply episode_served; [|apply eqs_true]|].
    destruct (eqs _ "-10403") eqn:E1; [by apply episode_away; [|apply eqs_true]|].
    apply episode_failed; [done|]. apply eqs_false in E0, E1. set_solver.
  - unfold judged. destruct (answered _ _); apply item_region.
Qed.

Lemma bilibili_goes e answers n : goes_by "bilibili" e (checkBilibili e) answers n.
Proof using Type.
  unfold goes_by, checkBilibili. rewrite run_bind.
  destruct (episode_run e bilibili_mainland answers n) as (x & item & req & -> & Hurl & Hx & Hr). cbn [length].
  destruct (eqs (si_Status item) serviceAvailable) eqn:E1; [|destruct (eqs (si_Status item) serviceUnsupportedRegion) eqn:E2].
  - cbn [run app]. apply eqs_true in E1. split; [by cbn; rewrite Hurl|]. cbn. rewrite E1 in *. by apply bilibili_here.
  - destruct (episode_run e bilibili_others answers (n + 1)) as (y & item2 & req2 & -> & Hurl2 & Hy & Hr2).
    apply eqs_true in E2. split; [by cbn; rewrite Hurl, Hurl2|]. cbn. rewrite Hr2. rewrite E2 in Hx. by apply bilibili_elsewhere.
  - cbn [run app]. apply eqs_false in E1, E2. split; [by cbn; rewrite Hurl|]. cbn. rewrite Hr. apply bilibili_lost; [done|]. set_solver.
Qed.

Lemma cdn_says x : let item := judged x judgeNetflixCdn in
  if eqs (si_Status item) serviceAvailable || eqs (si_Status item) serviceBlocked
  then bears "netflix" [x] (si_Status item) (si_Region item) else cdn_unsettled x.
Proof using Type.
  unfold judged. destruct (answered (itemFrom x) x) as [r|] eqn:E.
  2: { apply unanswered_item in E. cbv zeta. destruct (_ || _) eqn:Eb; [|by eapply cdn_lost].
       rewrite orb_true_iff, !eqs_true in Eb. exfalso. destruct E; by destruct Eb. }
  apply answered_some in E as [-> He]. assert (Hr := item_region (Some r)). unfold judgeNetflixCdn.
  destruct (pr_StatusCode r =? 403) eqn:E4; [apply Z.eqb_eq in E4|apply Z.eqb_neq in E4].
  - cbv zeta. change (bears "netflix" [Some r] "blocked" (si_Region (itemFrom (Some r)))). rewrite Hr. by apply netflix_blocked.
  - destruct (fast_countries (pr_Body r)) as [[|country rest]|] eqn:Ef; cbv zeta.
    + apply cdn_nowhere; [done..|]. rewrite Ef. set_solver.
    + by eapply netflix_cdn.
    + apply cdn_nowhere; [done..|]. rewrite Ef. set_solver.
Qed.

Lemma netflix_place x : sent_to_country x
  match x with
  | Some r =>
      match pr_location r with
      | Some location =>
          match Split location "/" with
          | _ :: _ :: _ :: segment :: _ => if empty (pr_Error r) then normalizeRegion (first_of (Split segment "-")) else ""
          | _ => ""
          end
      | None => ""
      end
  | None => ""
  end.
Proof using Type.
  destruct x as [r|]; [|by apply sent_nowhere]. destruct (pr_location r) as [location|] eqn:El.
  2: { apply sent_nowhere. intros r' location a b c segment rest [= <-] _ ?. congruence. }
  destruct (Split location "/") as [|a [|b [|c [|segment rest]]]] eqn:Es.
  1-4: apply sent_nowhere; intros r' location' a' b' c' segment' rest' [= <-] _ Hl; rewrite El in Hl; injection Hl as <-; by rewrite Es.
  destruct (empty (pr_Error r)) eqn:E; [apply empty_true in E; by eapply sent_there|]. apply empty_false in E.
  apply sent_nowhere. intros r' location' a' b' c' segment' rest' [= <-] He. by destruct E.
Qed.

Lemma netflix_goes e answers n : goes_by "netflix" e (checkNetflix e) answers n.
Proof using Type.
  unfold goes_by, checkNetflix, netflixFromCdn, get. rewrite run_bind, run_send. cbv zeta. set (c := answers n _). cbn [run length].
  pose proof (cdn_says c) as Hcdn. cbv zeta in Hcdn. clearbody c. set (cdn := judged c judgeNetflixCdn) in *. clearbody cdn.
  destruct (_ || _); [cbn [run]; by split|].
  rewrite run_send. cbv zeta. set (first := answers _ _). clearbody first. destruct (answered (itemFrom first) first) as [r1|] eqn:E1.
  2: { cbn [run app]. split; [done|]. cbn [fmap list_fmap snd]. rewrite item_region. by apply netflix_first_lost, unanswered_item. }
  rewrite run_send. cbv zeta. set (second := answers _ _). clearbody second. apply answered_some in E1 as [-> H1].
  destruct (answered (itemFrom second) second) as [r2|] eqn:E2.
  2: { cbn [run app]. split; [done|]. cbn [fmap list_fmap snd]. rewrite item_region. by apply netflix_second_lost, unanswered_item. }
  apply answered_some in E2 as [-> H2]. assert (Hr := item_region (Some r1)). set (item := itemFrom (Some r1)) in *. clearbody item.
  destruct ((_ =? 404) && _) eqn:E4.
  { cbn [run app]. split; [done|]. cbn. rewrite Hr. apply andb_true_iff in E4 as [?%Z.eqb_eq ?%Z.eqb_eq]. by apply netflix_originals. }
  destruct ((_ =? 403) || _) eqn:E3.
  { cbn [run app]. split; [done|]. cbn. rewrite Hr. rewrite orb_true_iff, !Z.eqb_eq in E3. by apply netflix_away. }
  rewrite orb_false_iff, !Z.eqb_neq in E3. destruct E3 as [E31 E32].
  assert (Hserved : ∀ r, netflixServed (pr_StatusCode r) = true ↔ pr_StatusCode r ∈ [200; 301]).
  { intros r. unfold netflixServed. rewrite orb_true_iff, !Z.eqb_eq. set_solver. }
  destruct (netflixServed (pr_StatusCode r1) || netflixServed (pr_StatusCode r2)) eqn:Es.
  - unfold netflixRegion. rewrite run_bind, run_send. cbv zeta. set (last := answers _ _). clearbody last. cbn [run app].
    rewrite orb_true_iff, !Hserved in Es. split; [done|]. cbn. apply netflix_served; [done.. | apply netflix_place].
  - cbn [run app]. split; [done|]. cbn. rewrite Hr. apply orb_false_iff in Es as [Es1 Es2].
    apply netflix_code; [done..| | | | apply code_says_spec].
    + intros [E5 E6]. rewrite E5, E6 in E4. done.
    + rewrite <- not_true_iff_false, Hserved in Es1. set_solver.
    + rewrite <- not_true_iff_false, Hserved in Es2. set_solver.
Qed.

Lemma session_says_spec item x : si_Region item = EmptyString → session_says x (si_Status (judgeDisney item x)) (si_Region (judgeDisney item x)).
Proof using Type.
  intros Hr. unfold judgeDisney. destruct (answered (itemFrom x) x) as [r|] eqn:E.
  2: { cbn. rewrite Hr. eapply session_lost. by apply unanswered_item. }
  apply answered_some in E as [-> He]. destruct (empty (pr_Body r) || _) eqn:E1.
  { cbn. rewrite Hr. rewrite orb_true_iff, empty_true, Z.leb_le in E1. by apply session_refused. }
  rewrite orb_false_iff, empty_false, Z.leb_gt in E1. destruct E1 as [E1 E2].
  set (region := normalizeRegion _). cbv zeta. destruct (empty region) eqn:E3.
  { cbn. rewrite Hr. apply empty_true in E3. by apply session_nowhere. }
  apply empty_false in E3. cbn. apply session_lands; [done..|].
  destruct (eqs _ "true") eqn:Et; [apply eqs_true in Et; rewrite Et; left; left|].
  destruct (eqs _ "false") eqn:Ef; [apply eqs_true in Ef; rewrite Ef; left; right; left|].
  right. apply eqs_false in Et, Ef. set_solver.
Qed.

Lemma forbidden_spec t : Contains (pr_Body t) "forbidden-location" || Contains (pr_Body t) "403 ERROR" = true ↔ forbidden_location t.
Proof using Type. apply orb_true_iff. Qed.

Lemma disney_goes e answers n : goes_by "disney-plus" e (checkDisneyPlus e) answers n.
Proof using Type.
  unfold goes_by, checkDisneyPlus. rewrite run_send. cbv zeta. set (d := answers n _). clearbody d.
  assert (Hr := item_region d). destruct (answered (itemFrom d) d) as [r|] eqn:Ed.
  2: { cbn [run]. split; [done|]. rewrite Hr. by apply disney_lost, unanswered_item. }
  apply answered_some in Ed as [-> He]. set (item := itemFrom (Some r)) in *. clearbody item.
  destruct (pr_StatusCode r =? 403) eqn:E4; [apply Z.eqb_eq in E4|apply Z.eqb_neq in E4].
  { cbn [run]. split; [done|]. cbn. rewrite Hr. by apply disney_blocked. }
  destruct (empty (firstSubmatch disneyAssertionPattern _)) eqn:Ea; [apply empty_true in Ea|apply empty_false in Ea].
  { cbn [run]. split; [done|]. cbn. rewrite Hr. by apply disney_no_device. }
  rewrite run_send. cbv zeta. set (x := answers (S n) _). clearbody x. destruct (answered (itemFrom x) x) as [t|] eqn:Et.
  2: { cbn [run]. split; [done|]. cbn [fmap list_fmap snd]. rewrite item_region. by apply disney_token_lost; [..|apply unanswered_item]. }
  apply answered_some in Et as [-> Ht]. destruct (_ || _) eqn:Ef.
  { cbn [run]. split; [done|]. cbn. rewrite Hr. apply forbidden_spec in Ef. by apply disney_forbidden. }
  assert (¬ forbidden_location t) by (rewrite <- forbidden_spec; congruence).
  destruct (empty (firstSubmatch disneyRefreshPattern _)) eqn:Eb; [apply empty_true in Eb|apply empty_false in Eb].
  { cbn [run]. split; [done|]. cbn. rewrite Hr. by apply disney_no_token. }
  rewrite run_send. cbv zeta. set (session := answers (S (S n)) _). clearbody session. cbn [run].
  split; [done|]. cbn [fmap list_fmap snd]. by apply disney_lands, session_says_spec.
Qed.

(** What every rule says, and of whom it asks. *)
Lemma checkers_go_by checker e answers n : checker ∈ serviceCheckers → goes_by checker.1 e (checker.2 e) answers n.
Proof using Type.
  intros Hin. unfold serviceCheckers in Hin. repeat (apply elem_of_cons in Hin as [->|Hin]); [.. | by apply not_elem_of_nil in Hin]; cbn [fst snd].
  1-2: apply page_goes; [by apply mem_string_spec; vm_compute | done |]; intros item r Hr; cbn; rewrite Hr;
    apply reach_says; [by apply mem_string_spec; vm_compute | apply code_says_spec].
  1-6: apply page_goes; [by apply mem_string_spec; vm_compute | done |]; intros item r Hr; cbn [si_Status si_Region with_status]; rewrite Hr;
    eapply site_says; [|apply website_says_spec]; unfold websites; set_solver.
  - apply page_goes; [by apply mem_string_spec; vm_compute | done |]. intros item r _. cbn [si_Status si_Region].
    apply premium_says; [apply youTube_says_spec | apply youTube_country_spec].
  - apply chatgpt_goes.
  - apply page_goes; [by apply mem_string_spec; vm_compute | done | apply claude_says].
  - apply page_goes; [by apply mem_string_spec; vm_compute | done | apply gemini_says].
  - apply netflix_goes.
  - apply disney_goes.
  - apply page_goes; [by apply mem_string_spec; vm_compute | done | apply prime_says].
  - apply page_goes; [by apply mem_string_spec; vm_compute | done | intros; apply spotify_says].
  - apply page_goes; [by apply mem_string_spec; vm_compute | done | intros; apply tikTok_says].
  - apply page_goes; [by apply mem_string_spec; vm_compute | done | apply discord_says].
  - apply bilibili_goes.
Qed.

(** A check as a whole: over before it starts, settled by one try, or tried
    again after a try that timed out while time was left. *)
Inductive settles (s : surroundings) (name : string) : list (probeRequest * option ProbeResult) → string → string → Prop :=
  | settles_over : su_over s = true → settles s name [] "failed" EmptyString
  | settles_once trace st region : su_over s = false → tries name trace st region → ¬ (st = "timeout"%string ∧ su_budget s = true) →
      settles s name trace st region
  | settles_twice first region' second st region : su_over s = false → su_budget s = true → tries name first "timeout" region' →
      tries name second st region → settles s name (first ++ second) st region.

Lemma settles_spec s checker e answers : checker ∈ serviceCheckers →
  let '(item, trace) := run answers 0 (if su_over s then Done (with_status no_item serviceFailed)
    else item ← checker.2 e; if eqs (si_Status item) serviceTimeout && su_budget s then checker.2 e else Done item) in
  settles s checker.1 trace (si_Status item) (si_Region item).
Proof using Type.
  intros Hin. destruct (su_over s) eqn:Eo; [by apply settles_over|].
  rewrite run_bind. assert (H1 := checkers_go_by checker e answers 0 Hin). unfold goes_by in H1.
  destruct (run answers 0 (checker.2 e)) as [item t1]. destruct (eqs (si_Status item) serviceTimeout && su_budget s) eqn:E.
  - apply andb_true_iff in E as [Et%eqs_true Eb]. assert (H2 := checkers_go_by checker e answers (0 + length t1) Hin). unfold goes_by in H2.
    destruct (run answers (0 + length t1) (checker.2 e)) as [item2 t2]. rewrite Et in H1. by eapply settles_twice.
  - cbn [run]. rewrite app_nil_r. apply settles_once; [done..|]. intros [Et Eb]. rewrite Et, Eb in E. done.
Qed.

(** What the first try and the second come to together. *)
Definition tries_to (s : surroundings) (e : serviceEnv) (item : ServiceCheckItem) (trace : list (probeRequest * option ProbeResult)) : Prop :=
  sound trace item ∧ (length trace ≤ 8)%nat ∧ Forall (λ qr, sent_by e qr.1) trace ∧
  (su_over s = true → trace = []) ∧ (su_over s = false → trace ≠ []) ∧
  ((4 < length trace)%nat → su_budget s = true ∧ ∃ r, answer_in (take 4 trace) r ∧ pr_Error r = probeErrorTimeout).

Lemma tries_come_to s checker e answers : checker ∈ serviceCheckers →
  let '(item, trace) := run answers 0 (if su_over s then Done (with_status no_item serviceFailed)
    else item ← checker.2 e; if eqs (si_Status item) serviceTimeout && su_budget s then checker.2 e else Done item) in
  tries_to s e item trace.
Proof using Type.
  intros Hin. unfold tries_to. destruct (su_over s) eqn:Eo.
  { cbn [run]. split_and!; [|cbn; lia | by constructor | done | done | cbn; lia]. split; cbn; try done; by left. }
  rewrite run_bind. assert (H1 := checkers_come_to checker e answers 0 Hin). unfold comes_to in H1.
  destruct (run answers 0 (checker.2 e)) as [item t1]. destruct H1 as (Hs1 & Hl1 & Hf1).
  destruct (eqs (si_Status item) serviceTimeout && su_budget s) eqn:E.
  2: { cbn [run]. rewrite app_nil_r. split_and!; [done | lia | done | done | intros _ ->; cbn in Hl1; lia | lia]. }
  apply andb_true_iff in E as [Et%eqs_true Eb].
  assert (H2 := checkers_come_to checker e answers (0 + length t1) Hin). unfold comes_to in H2.
  destruct (run answers (0 + length t1) (checker.2 e)) as [item2 t2]. destruct H2 as (Hs2 & Hl2 & Hf2). rewrite length_app.
  split_and!; [eapply sound_more; [|exact Hs2]; set_solver | lia | by apply Forall_app | done | intros _ [-> _]%app_nil; cbn in Hl1; lia |].
  intros _. split; [done|]. destruct (so_timeout _ _ Hs1 Et) as (r & (req & Hr) & He). exists r. split; [|done]. exists req.
  rewrite take_app, take_ge by lia. apply elem_of_app. by left.
Qed.

(** C32: the verdict on a service. Whatever the network answers, the check of
    any service ends: it asks the pages of the service in their order, at most
    four, and once more only when time is left after a try that timed out; a
    check that is over before it starts asks none. Every request goes through
    the proxy asked for, as a browser. The item bears the service's name and
    the stamps of the run; its status and its region are those that the answers
    bear out, by the table [bears] of what each service says to which answers;
    so the status is other than failed or timed out only when some request was
    answered, and timed out only when one timed out. Its region is empty or
    two capital letters; its delay is that of a request that was answered. *)
Theorem service_verdict s checker e answers : checker ∈ serviceCheckers →
  let '(item, trace) := run answers 0 (runServiceCheck s checker e) in
  (si_Name item = checker.1 ∧ si_CheckedAt item = su_checked s ∧ si_CoreEpoch item = su_epoch s ∧ si_RouteVersion item = su_version s) ∧
  settles s checker.1 trace (si_Status item) (si_Region item) ∧
  sound trace item ∧ (length trace ≤ 8)%nat ∧ Forall (λ qr, sent_by e qr.1) trace ∧
  (su_over s = true → trace = []) ∧ (su_over s = false → trace ≠ []) ∧
  ((4 < length trace)%nat → su_budget s = true ∧ ∃ r, answer_in (take 4 trace) r ∧ pr_Error r = probeErrorTimeout).
Proof using Type.
  intros Hin. unfold runServiceCheck. rewrite run_bind. assert (Ht := tries_come_to s checker e answers Hin). cbv zeta in Ht.
  assert (Hb := settles_spec s checker e answers Hin). destruct (run answers 0 _) as [item trace]. destruct Ht as (Hs & Ht).
  cbn [run]. rewrite app_nil_r. split; [by split_and!|]. split; [exact Hb|]. split; [by destruct Hs | exact Ht].
Qed.
End facts.

(** ** The claims of a run *)

Definition claim_runs : claims → gmap nat claim_pc → Prop := interleaved claim_step claim_gone claim_begins no_claims false.

Definition pc_claim (pc : claim_pc) : option (string * nat) :=
  match pc with Holding name id | Cancelled name id => Some (name, id) | ToClaim _ | Released => None end.

(** The last claim made of a service. *)
Definition newest (made : list string) (name : string) (id : nat) : Prop :=
  made !! id = Some name ∧ ∀ later, made !! later = Some name → (later ≤ id)%nat.

Definition claimed_by (g : gmap nat claim_pc) (t : nat) (name : string) (id : nat) : Prop :=
  ∃ pc, g !! t = Some pc ∧ pc_claim pc = Some (name, id).

Record claims_ok (s : claims) (g : gmap nat claim_pc) : Prop := {
  ok_made : ∀ t name id, claimed_by g t name id → cl_made s !! id = Some name;
  ok_own : ∀ t t' name name' id, claimed_by g t name id → claimed_by g t' name' id → t = t';
  ok_held : ∀ name id, cl_held s !! name = Some id ↔ newest (cl_made s) name id ∧ ∃ t, claimed_by g t name id;
  ok_older : ∀ id later name, cl_made s !! id = Some name → cl_made s !! later = Some name → (id < later)%nat → id ∈ cl_cancelled s;
  ok_gone : ∀ id name, cl_made s !! id = Some name → id ∉ cl_cancelled s → ∃ t, g !! t = Some (Holding name id);
  ok_bound : ∀ id, id ∈ cl_cancelled s → (id < length (cl_made s))%nat;
  ok_cause : ∀ t name id, g !! t = Some (Holding name id) → id ∈ cl_cancelled s → ∃ later, (id < later)%nat ∧ cl_made s !! later = Some name;
}.

Lemma claimed_insert g t pc t' name id : claimed_by (<[t := pc]> g) t' name id ↔
  (t' = t ∧ pc_claim pc = Some (name, id)) ∨ (t' ≠ t ∧ claimed_by g t' name id).
Proof.
  unfold claimed_by. destruct (decide (t' = t)) as [->|Hne].
  - rewrite lookup_insert_eq. naive_solver.
  - rewrite lookup_insert_ne by done. naive_solver.
Qed.

Lemma claimed_kept g t pc pc' : g !! t = Some pc → pc_claim pc = pc_claim pc' → ∀ t' name id,
  claimed_by (<[t := pc']> g) t' name id ↔ claimed_by g t' name id.
Proof.
  intros Ht Hpc t' name id. rewrite claimed_insert, <- Hpc. unfold claimed_by. destruct (decide (t' = t)) as [->|]; naive_solver.
Qed.

Lemma newest_app made name name' id : newest (made ++ [name]) name' id ↔ if decide (name' = name) then id = length made else newest made name' id.
Proof.
  unfold newest. assert (Hl : ∀ i, (made ++ [name]) !! i = Some name' ↔ made !! i = Some name' ∨ (i = length made ∧ name = name')).
  { intros i. rewrite lookup_snoc_Some. naive_solver eauto using lookup_lt_Some. }
  setoid_rewrite Hl. case_decide as Hn; [subst name'|naive_solver].
  split; [intros [[H1|[-> _]] H2]; [|done] | intros ->; split; [by right|]].
  - apply lookup_lt_Some in H1. specialize (H2 (length made) (or_intror (conj eq_refl eq_refl))). lia.
  - intros later [H1%lookup_lt_Some|[-> _]]; lia.
Qed.

Lemma begin_claim s g t name : g !! t = None → claims_ok s g → claims_ok s (<[t := ToClaim name]> g).
Proof.
  intros Ht [M O He Ol G B C].
  assert (Hk : ∀ t' name' id, claimed_by (<[t := ToClaim name]> g) t' name' id ↔ claimed_by g t' name' id).
  { intros t' name' id. rewrite claimed_insert. unfold claimed_by. destruct (decide (t' = t)) as [->|]; naive_solver. }
  split; [| | | done | | done |].
  - intros t' name' id. rewrite Hk. apply M.
  - intros t1 t2 n1 n2 id. rewrite !Hk. apply O.
  - intros name' id. rewrite He. by setoid_rewrite Hk.
  - intros id name' H1 H2. destruct (G id name' H1 H2) as [t' Ht']. exists t'. rewrite lookup_insert_ne by congruence. done.
  - intros t' name' id. rewrite lookup_insert_Some. intros [[_ ?]|[_ Ht']]; [done | by eapply C].
Qed.

(** The locked section of a claim. *)
Lemma make_claim s g t name : g !! t = Some (ToClaim name) → claims_ok s g →
  claims_ok (claim name s).1 (<[t := Holding name (length (cl_made s))]> g).
Proof.
  intros Ht [M O He Ol G B C]. set (id0 := length (cl_made s)).
  assert (Hlt : ∀ t' name' id, claimed_by g t' name' id → (id < id0)%nat) by (intros; eapply lookup_lt_Some, M; eauto).
  assert (Hnone : ∀ name' id, ¬ claimed_by g t name' id) by (intros name' id (pc & E & ?); rewrite Ht in E; by injection E as <-).
  assert (Hk : ∀ t' name' id, claimed_by (<[t := Holding name id0]> g) t' name' id ↔ (t' = t ∧ name' = name ∧ id = id0) ∨ claimed_by g t' name' id).
  { intros t' name' id. rewrite claimed_insert. cbn. destruct (decide (t' = t)) as [->|]; naive_solver. }
  assert (Hb : ∀ id, id ∈ cl_cancelled (claim name s).1 → (id < id0)%nat).
  { cbn. intros id Hi. destruct (cl_held s !! name) as [previous|] eqn:E; [|by apply B]. apply elem_of_union in Hi as [->%elem_of_singleton|Hi]; [|by apply B].
    apply He in E as [[E _] _]. by apply lookup_lt_Some in E. }
  split; cbn.
  - intros t' name' id [(-> & -> & ->)|Hc%M]%Hk; [apply lookup_snoc_Some; by right | by apply lookup_app_l_Some].
  - intros t1 t2 n1 n2 id [(-> & -> & ->)|H1]%Hk [(-> & -> & ?)|H2]%Hk; [done | | | by eapply O].
    + apply Hlt in H2. lia.
    + subst id. apply Hlt in H1. lia.
  - intros name' id. rewrite newest_app. destruct (decide (name' = name)) as [->|Hne].
    + rewrite lookup_insert_eq. setoid_rewrite Hk. split; [intros [= <-] | intros [-> _]]; [|done]. split; [done|]. exists t. by left.
    + rewrite lookup_insert_ne, He by done. setoid_rewrite Hk. naive_solver.
  - intros id later name' [[_ H1]|[Hi _]]%lookup_snoc_Some [[_ H2]|[Hl <-]]%lookup_snoc_Some Hlater; [| | apply lookup_lt_Some in H2; lia | lia].
    + assert (id ∈ cl_cancelled s) by (by eapply Ol). destruct (cl_held s !! name); set_solver.
    + destruct (decide (id ∈ cl_cancelled s)) as [|Hid]; [destruct (cl_held s !! name); set_solver|].
      rewrite (proj2 (He name id)); [set_solver|]. split; [|destruct (G id name H1 Hid) as [t' Ht']; exists t'; by eexists]. split; [done|].
      intros j Hj. destruct (decide (j ≤ id)%nat); [done|]. destruct Hid. eapply (Ol id j); [done.. | lia].
  - intros id name' [[_ H1]|[-> <-]]%lookup_snoc_Some Hid; [|by exists t; rewrite lookup_insert_eq].
    destruct (G id name' H1) as [t' Ht']; [destruct (cl_held s !! name); set_solver|]. exists t'. rewrite lookup_insert_ne by congruence. done.
  - intros id Hi%Hb. rewrite length_app. lia.
  - intros t' name' id [[_ [= <- <-]]|[_ Ht']]%lookup_insert_Some Hi; [apply Hb in Hi; lia|].
    assert (H1 : cl_made s !! id = Some name') by (eapply M; by eexists).
    destruct (decide (id ∈ cl_cancelled s)) as [Hid|Hid].
    + destruct (C _ _ _ Ht' Hid) as (later & ? & ?). exists later. split; [done|]. by apply lookup_app_l_Some.
    + destruct (cl_held s !! name) as [previous|] eqn:E; [|done]. assert (id = previous) as -> by set_solver.
      apply He in E as [[E _] _]. rewrite E in H1. injection H1 as <-. exists id0. split; [by eapply lookup_lt_Some|].
      apply lookup_snoc_Some. by right.
Qed.

Lemma cancel_claim s g t name id : g !! t = Some (Holding name id) → claims_ok s g →
  claims_ok {| s with cl_cancelled := {[id]} ∪ cl_cancelled s |} (<[t := Cancelled name id]> g).
Proof.
  intros Ht [M O He Ol G B C]. assert (Hk := claimed_kept g t _ (Cancelled name id) Ht eq_refl).
  assert (Hc : claimed_by g t name id) by (by eexists). split; cbn [cl_made cl_held cl_cancelled].
  - intros t' name' id'. rewrite Hk. apply M.
  - intros t1 t2 n1 n2 id'. rewrite !Hk. apply O.
  - intros name' id'. rewrite He. by setoid_rewrite Hk.
  - intros id' later name' ? ? ?. apply elem_of_union_r. by eapply Ol.
  - intros id' name' H1 [Hne Hid]%not_elem_of_union. destruct (G id' name' H1 Hid) as [t' Ht']. exists t'.
    rewrite lookup_insert_ne; [done|]. intros ->. rewrite Ht in Ht'. injection Ht' as <- <-. set_solver.
  - intros id' [->%elem_of_singleton|Hi]%elem_of_union; [by eapply lookup_lt_Some, M | by apply B].
  - intros t' name' id' [[_ ?]|[Hne Ht']]%lookup_insert_Some Hi; [done|]. eapply C; [done|].
    apply elem_of_union in Hi as [->%elem_of_singleton|Hi]; [|done]. destruct Hne. eapply O; [done | by eexists].
Qed.

Lemma release_claim s g t name id : g !! t = Some (Cancelled name id) → claims_ok s g →
  claims_ok (claim_step s (Cancelled name id)).1 (<[t := Released]> g).
Proof.
  intros Ht [M O He Ol G B C]. assert (Hc : claimed_by g t name id) by (by eexists).
  assert (Hk : ∀ t' name' id', claimed_by (<[t := Released]> g) t' name' id' ↔ t' ≠ t ∧ claimed_by g t' name' id') by (intros; rewrite claimed_insert; naive_solver).
  assert (Hmade : cl_made (claim_step s (Cancelled name id)).1 = cl_made s) by (cbn; by case_bool_decide).
  assert (Hcan : cl_cancelled (claim_step s (Cancelled name id)).1 = cl_cancelled s) by (cbn; by case_bool_decide).
  assert (Hothers : ∀ t' name', claimed_by g t' name' id → t' = t) by (intros; by eapply O).
  split; rewrite ?Hmade, ?Hcan; [| | | done | | done |].
  - intros t' name' id' [_ ?%M]%Hk. done.
  - intros t1 t2 n1 n2 id' [_ H1]%Hk [_ H2]%Hk. by eapply O.
  - intros name' id'. cbn. assert (Hid : cl_held s !! name' = Some id' → id' = id → name' = name).
    { intros Hh ->. apply He in Hh as [[Hh _] _]. apply M in Hc. congruence. }
    trans (cl_held s !! name' = Some id' ∧ id' ≠ id).
    + case_bool_decide as E; cbn; [rewrite lookup_delete_Some|]; [|naive_solver congruence]. split; [intros [? ?]|]; naive_solver congruence.
    + rewrite He. setoid_rewrite Hk. split.
      * intros [[Hn (t' & Hc')] Hne]. split; [done|]. exists t'. split; [|done]. intros ->. destruct Hc as (pc & E1 & E2), Hc' as (pc' & E1' & E2').
        congruence.
      * intros [Hn (t' & Hne & Hc')]. split; [eauto|]. intros ->. by eapply Hne, Hothers.
  - intros id' name' H1 Hid. destruct (G id' name' H1 Hid) as [t' Ht']. exists t'. rewrite lookup_insert_ne; [done|]. intros ->. congruence.
  - intros t' name' id' [[_ ?]|[_ Ht']]%lookup_insert_Some Hi; [done|]. by eapply C.
Qed.

Lemma claims_always_ok s g : claim_runs s g → claims_ok s g.
Proof.
  induction 1 as [|s g t pc _ IH Ht [name ->] _|s g t pc _ IH Ht He].
  - split; cbn; intros; try set_solver; [destruct H as (? & ? & ?); set_solver..|]. rewrite lookup_empty. split; [done|]. by intros [[? _] _].
  - by apply begin_claim.
  - destruct pc as [name|name id|name id|]; [by apply make_claim | by apply cancel_claim | by apply release_claim | done].
Qed.

(** C22: the claims on services. However sweeps claim services, end and
    release them, a check at work is cancelled exactly when its service has
    been asked for again since, so that at most one check of a service goes
    on; the table holds, of each service, the newest claim until it is
    released, and nothing once all sweeps are gone. *)
Theorem service_claims s g : claim_runs s g →
  (∀ t name id, g !! t = Some (Holding name id) → id ∈ cl_cancelled s ↔ ∃ later, (id < later)%nat ∧ cl_made s !! later = Some name) ∧
  (∀ t t' name id id', g !! t = Some (Holding name id) → g !! t' = Some (Holding name id') → id ∉ cl_cancelled s → id' ∉ cl_cancelled s → t = t') ∧
  (∀ name id, cl_held s !! name = Some id ↔ newest (cl_made s) name id ∧ ∃ t, claimed_by g t name id) ∧
  (all_ended claim_gone g → cl_held s = ∅).
Proof.
  intros Hr%claims_always_ok. assert (Hmade : ∀ t name id, g !! t = Some (Holding name id) → cl_made s !! id = Some name).
  { intros t name id Ht. eapply ok_made; [done | by eexists]. }
  split_and!.
  - intros t name id Ht. split; [by eapply ok_cause|]. intros (later & Hl & Hm). eapply ok_older; eauto.
  - intros t t' name id id' Ht Ht' Hi Hi'. assert (¬ (id < id')%nat) by (intros ?; destruct Hi; by eapply (ok_older s g Hr id id'); eauto).
    assert (¬ (id' < id)%nat) by (intros ?; destruct Hi'; by eapply (ok_older s g Hr id' id); eauto). assert (id = id') as <- by lia. eapply ok_own; [done | by eexists..].
  - by apply ok_held.
  - intros Hall. apply map_empty. intros name. apply eq_None_not_Some. intros [id [_ (t & pc & Ht & Hp)]%(ok_held s g)]; [|done].
    specialize (Hall _ _ Ht). by destruct pc.
Qed.

(** ** A check and two sweeps *)

Module Sample.
(** Expressions that take the whole of a page. *)
Definition whole : Web :=
  {| FindStringSubmatch := λ _ body, [body; body]; MatchString := λ _ _, true; parse_url := λ _, None; fast_countries := λ _, None |}.

Definition reply (text error : string) : ProbeResult :=
  {| pr_StatusCode := 200; pr_Delay := 40; pr_Body := text; pr_Url := ""; pr_Chains := ["DE"]%string; pr_Error := error; pr_location := None |}.

(** The first request times out; the second try finds the mainland episode
    refused and the other one served. *)
Definition network (n : nat) (req : probeRequest) : option ProbeResult :=
  nth_error [reply "" probeErrorTimeout; reply "-10403" ""; reply "0" ""] n.

Definition around : surroundings := {| su_over := false; su_budget := true; su_epoch := 3; su_version := 8; su_checked := 1700000000000 |}.

Lemma service_verdict_witness :
  let env := {| en_proxyName := "auto"; en_timeout := 5000 |} in
  let out := run network 0 (runServiceCheck around ("bilibili"%string, @checkBilibili whole) env) in
  si_Status out.1 = serviceAvailable ∧ si_Delay out.1 = 40 ∧ length out.2 = 3%nat ∧ sound out.2 out.1 ∧
  @settles ascii_tables whole around "bilibili" out.2 "available" "".
Proof.
  intros env out. do 3 (split; [vm_compute; reflexivity|]).
  assert (Hin : ("bilibili"%string, @checkBilibili whole) ∈ @serviceCheckers ascii_tables whole) by (do 18 right; left).
  assert (T := @service_verdict ascii_tables whole around _ env network Hin). fold out in T.
  assert (Hst : si_Status out.1 = "available"%string) by (vm_compute; reflexivity).
  assert (Hre : si_Region out.1 = EmptyString) by (vm_compute; reflexivity).
  destruct out as [item trace]. destruct T as (_ & Hsettles & Hsound & _). split; [exact Hsound|].
  cbn in Hst, Hre. rewrite Hst, Hre in Hsettles. exact Hsettles.
Defined.

(** Two sweeps that claim the same service. *)
Definition twice : list move := [Begin 0 (ToClaim "vk"); Next 0; Begin 1 (ToClaim "vk"); Next 1].

Lemma service_claims_witness : ∃ s g, claim_runs s g ∧ g !! 0%nat = Some (Holding "vk" 0) ∧ 0%nat ∈ cl_cancelled s ∧
  g !! 1%nat = Some (Holding "vk" 1) ∧ 1%nat ∉ cl_cancelled s.
Proof.
  assert (∃ sg, play claim_step claim_gone (no_claims, ∅) twice = Some sg ∧ sg.2 !! 0%nat = Some (Holding "vk" 0) ∧
    sg.2 !! 1%nat = Some (Holding "vk" 1) ∧ cl_made sg.1 = ["vk"; "vk"]%string) as (sg & E & H0 & H1 & Hm).
  { eexists. split_and!; vm_compute; reflexivity. }
  assert (Hr : claim_runs sg.1 sg.2).
  { apply (play_interleaved claim_step claim_gone claim_begins no_claims _ _ _) with (3 := E); [|constructor]. repeat constructor; by eexists. }
  destruct (service_claims _ _ Hr) as (T & _). exists sg.1, sg.2. split; [exact Hr|]. split; [exact H0|].
  split; [apply (T 0%nat _ _ H0); exists 1%nat; by rewrite Hm; split; [lia|]|]. split; [exact H1|].
  intros Hc. apply (T 1%nat _ _ H1) in Hc as (later & Hl & Hin). rewrite Hm in Hin. destruct later as [|[|?]]; [lia | lia | done].
Defined.
End Sample.
