(* ===== verification/ShareLink.v ===== *)
(** * Share links: core/share_link.go

    A proxy of a config becomes the link other clients read. A mapping of
    the config is a list of its entries; a value that is no text, bool, list
    or mapping stands for itself by what [fmt.Sprint] makes of it. *)

From S2P Require Import Prelude GoText TextFacts UrlText.

Inductive any :=
  | Nil
  | ABool (b : bool)
  | AStr (s : string)
  | AStrs (l : list string)
  | AList (l : list any)
  | AMap (m : list (string * any))
  | AOther (text : string).

(** [fmt.Sprint]; maps by their keys in order. *)
Fixpoint Sprint (v : any) : string :=
  match v with
  | Nil => "<nil>"
  | ABool b => if b then "true" else "false"
  | AStr s => s
  | AStrs l => "[" +:+ Join l " " +:+ "]"
  | AList l => "[" +:+ Join (map Sprint l) " " +:+ "]"
  | AMap m =>
      "map[" +:+ Join (map (λ kv, kv.1 +:+ ":" +:+ kv.2)
        (sort_stable (λ a b, compareS a.1 b.1) (map (λ kv, (kv.1, Sprint kv.2)) m))) " " +:+ "]"
  | AOther text => text
  end.

(** ** proxyFields *)

Definition proxyFields := list (string * any).

Definition field (f : proxyFields) (key : string) : any :=
  match find (λ kv, eqs kv.1 key) f with Some kv => kv.2 | None => Nil end.

Definition str (f : proxyFields) (key : string) : string :=
  match field f key with Nil => EmptyString | v => Sprint v end.

Definition flag (f : proxyFields) (key : string) : bool :=
  match field f key with ABool b => b | AStr s => eqs s "true" | _ => false end.

Definition sub (f : proxyFields) (key : string) : proxyFields := match field f key with AMap m => m | _ => [] end.

Definition list_ (f : proxyFields) (key : string) : list string :=
  match field f key with
  | AStrs l => l
  | AList l => Sprint <$> l
  | AStr s => if empty s then [] else [s]
  | _ => []
  end.

Definition first_ (f : proxyFields) (key : string) : string := default EmptyString (head (list_ f key)).

(** [query.Set], and [setIf]. *)
Definition set_ (key value : string) (q : Values) : Values := <[key := value]> q.
Definition setIf (key value : string) (q : Values) : Values := if empty value then q else set_ key value q.
Definition set_when (b : bool) (key value : string) (q : Values) : Values := if b then set_ key value q else q.

Declare Scope share_scope.
Notation "q |> g" := ((g : Values → Values) q) (at level 58, left associativity, only parsing) : share_scope.
#[local] Open Scope share_scope.

Definition shareURL (scheme : string) (user : option Userinfo) (host : string) (query : Values) (name : string) : string :=
  url_text {| ur_Scheme := scheme; ur_User := user; ur_Host := host; ur_RawQuery := Encode query; ur_Fragment := name |}.

Definition hostPort (f : proxyFields) : string := JoinHostPort (str f "server") (str f "port").
Definition alpn (f : proxyFields) : string := Join (list_ f "alpn") ",".

(** ** The links *)

(** The plugin of a link; none for a plugin that has no link form. *)
Definition shadowsocks_plugin (f : proxyFields) (q : Values) : option Values :=
  let opts := sub f "plugin-opts" in
  let plugin := str f "plugin" in
  if empty plugin then Some q
  else if eqs plugin "obfs" then Some (set_ "plugin" ("obfs-local;obfs=" +:+ str opts "mode" +:+ ";obfs-host=" +:+ str opts "host") q)
  else if eqs plugin "v2ray-plugin" then
    Some (set_ "plugin" ("v2ray-plugin;mode=" +:+ str opts "mode" +:+ ";host=" +:+ str opts "host" +:+ ";path=" +:+ str opts "path" +:+
      (if flag opts "tls" then ";tls" else "")) q)
  else None.

Definition encodeShadowsocks (f : proxyFields) : string :=
  match shadowsocks_plugin f (set_when (flag f "udp-over-tcp") "uot" "1" ∅) with
  | None => EmptyString
  | Some query => shareURL "ss" (Some (UserPassword (str f "cipher") (str f "password"))) (hostPort f) query (str f "name")
  end.

Definition raw_base64 (value : string) : string := base64 true false value.

Definition ssr_body (f : proxyFields) : string :=
  Join [str f "server"; str f "port"; str f "protocol"; str f "cipher"; str f "obfs"; raw_base64 (str f "password")] ":" +:+
  "/?obfsparam=" +:+ raw_base64 (str f "obfs-param") +:+ "&protoparam=" +:+ raw_base64 (str f "protocol-param") +:+
  "&remarks=" +:+ raw_base64 (str f "name").

Definition encodeShadowsocksR (f : proxyFields) : string :=
  if has_byte ":" (str f "server") then EmptyString else "ssr://" +:+ raw_base64 (ssr_body f).

(** [url.Parse] of a path and the parameter [ed] set in its query; none when
    the path does not parse. *)
Class UrlPaths := { with_ed : string → string → option string }.

Section links.
Context `{UrlPaths}.

Definition set_number (s : string) : bool := negb (empty s) && negb (eqs s "0").

Definition wsEarlyDataPath (path : string) (opts : proxyFields) : string :=
  let earlyData := str opts "max-early-data" in
  if negb (set_number earlyData) then path else default path (with_ed path earlyData).

(** The Xray transport parameters. *)
Definition security_query (f : proxyFields) (q : Values) : Values :=
  if flag f "tls" then
    let reality := sub f "reality-opts" in
    let publicKey := str reality "public-key" in
    let q :=
      if negb (empty publicKey) then
        q |> set_ "security" "reality" |> set_ "pbk" publicKey |> setIf "sid" (str reality "short-id")
          |> setIf "support-x25519mlkem768" (str reality "support-x25519mlkem768")
      else set_ "security" "tls" q in
    q |> setIf "fp" (str f "client-fingerprint") |> setIf "alpn" (alpn f) |> setIf "pcs" (str f "fingerprint")
  else q.

Definition packet_query (f : proxyFields) (q : Values) : Values :=
  if flag f "packet-addr" then set_ "packetEncoding" "packet" q
  else if negb (flag f "xudp") then set_ "packetEncoding" "none" q else q.

Definition transport_query (f : proxyFields) (q : Values) : Values :=
  let network := str f "network" in
  if empty network || eqs network "tcp" then q
  else if eqs network "http" then
    let opts := sub f "http-opts" in
    q |> set_ "type" "tcp" |> set_ "headerType" "http" |> setIf "path" (first_ opts "path")
      |> setIf "host" (first_ (sub opts "headers") "Host") |> setIf "method" (str opts "method")
  else if eqs network "h2" then
    let opts := sub f "h2-opts" in
    q |> set_ "type" "http" |> setIf "path" (str opts "path") |> setIf "host" (first_ opts "host")
  else if eqs network "ws" || eqs network "httpupgrade" then
    let opts := sub f "ws-opts" in
    let q := q |> set_ "type" network |> setIf "path" (str opts "path") |> setIf "host" (str (sub opts "headers") "Host") in
    if eqs network "ws" then
      let earlyData := str opts "max-early-data" in
      let header := str opts "early-data-header-name" in
      q |> set_when (set_number earlyData) "ed" earlyData
        |> set_when (negb (empty header) && negb (eqs header "Sec-WebSocket-Protocol")) "eh" header
    else set_when (flag opts "v2ray-http-upgrade-fast-open") "ed" "0" q
  else if eqs network "grpc" then
    q |> set_ "type" "grpc" |> setIf "serviceName" (str (sub f "grpc-opts") "grpc-service-name")
  else if eqs network "xhttp" then
    let opts := sub f "xhttp-opts" in
    q |> set_ "type" "xhttp" |> setIf "path" (str opts "path") |> setIf "host" (str opts "host") |> setIf "mode" (str opts "mode")
  else set_ "type" network q.

Definition vShareQuery (f : proxyFields) : Values :=
  transport_query f (packet_query f (setIf "sni" (str f "servername") (security_query f ∅))).

(** The JSON of v2rayN, of a proxy with an alterId. *)
Definition v2rayn (f : proxyFields) : gmap string string :=
  let values : gmap string string := list_to_map [("v", "2"); ("ps", str f "name"); ("add", str f "server"); ("port", str f "port");
    ("id", str f "uuid"); ("aid", or_string (str f "alterId") "0"); ("scy", str f "cipher"); ("net", "tcp"); ("type", "none"); ("host", "");
    ("path", ""); ("tls", "")]%string in
  let network := str f "network" in
  let values :=
    if eqs network "ws" || eqs network "httpupgrade" then
      let opts := sub f "ws-opts" in
      values |> set_ "net" network |> set_ "host" (str (sub opts "headers") "Host")
        |> set_ "path" (if eqs network "ws" then wsEarlyDataPath (str opts "path") opts else str opts "path")
    else if eqs network "http" then
      let opts := sub f "http-opts" in
      values |> set_ "type" "http" |> set_ "host" (first_ (sub opts "headers") "Host") |> set_ "path" (first_ opts "path")
    else if eqs network "h2" then
      let opts := sub f "h2-opts" in
      values |> set_ "net" "h2" |> set_ "host" (first_ opts "host") |> set_ "path" (str opts "path")
    else if eqs network "grpc" then
      values |> set_ "net" "grpc" |> set_ "path" (str (sub f "grpc-opts") "grpc-service-name")
    else values in
  if flag f "tls" then
    values |> set_ "tls" "tls" |> set_ "sni" (str f "servername") |> set_ "alpn" (alpn f) |> set_ "fp" (str f "client-fingerprint")
  else values.

Definition plain_vmess (f : proxyFields) : bool := negb (set_number (str f "alterId")).

Definition vmess_query (f : proxyFields) : Values :=
  let cipher := str f "cipher" in
  set_when (negb (empty cipher) && negb (eqs cipher "auto")) "encryption" cipher (vShareQuery f).

Definition encodeVmess (f : proxyFields) : string :=
  if plain_vmess f then shareURL "vmess" (Some (User (str f "uuid"))) (hostPort f) (vmess_query f) (str f "name")
  else "vmess://" +:+ base64 false true (json_object (v2rayn f)).

Definition vless_query (f : proxyFields) : Values :=
  vShareQuery f |> setIf "flow" (str f "flow") |> setIf "encryption" (str f "encryption").

Definition encodeVless (f : proxyFields) : string :=
  shareURL "vless" (Some (User (str f "uuid"))) (hostPort f) (vless_query f) (str f "name").

(** None for a transport whose host the link cannot hold. *)
Definition trojan_query (f : proxyFields) : option Values :=
  let q := (∅ : Values) |> set_when (flag f "skip-cert-verify") "allowInsecure" "1" |> setIf "sni" (str f "sni") |> setIf "alpn" (alpn f) in
  let network := str f "network" in
  q ← (if eqs network "ws" then
         let opts := sub f "ws-opts" in
         if negb (empty (str (sub opts "headers") "Host")) then None
         else Some (q |> set_ "type" "ws" |> setIf "path" (str opts "path"))
       else if eqs network "grpc" then
         Some (q |> set_ "type" "grpc" |> setIf "serviceName" (str (sub f "grpc-opts") "grpc-service-name"))
       else Some q);
  Some (q |> setIf "fp" (str f "client-fingerprint") |> setIf "pcs" (str f "fingerprint")).

Definition encodeTrojan (f : proxyFields) : string :=
  match trojan_query f with
  | Some q => shareURL "trojan" (Some (User (str f "password"))) (hostPort f) q (str f "name")
  | None => EmptyString
  end.

Definition hysteria_query (f : proxyFields) : Values :=
  (∅ : Values) |> setIf "peer" (str f "sni") |> setIf "obfs" (str f "obfs") |> setIf "alpn" (alpn f)
    |> setIf "auth" (or_string (str f "auth-str") (str f "auth_str")) |> setIf "protocol" (str f "protocol")
    |> setIf "up" (str f "up") |> setIf "down" (str f "down") |> set_when (flag f "skip-cert-verify") "insecure" "1".

Definition encodeHysteria (f : proxyFields) : string := shareURL "hysteria" None (hostPort f) (hysteria_query f) (str f "name").

Definition hysteria2_host (f : proxyFields) : string :=
  let ports := str f "ports" in
  if negb (empty ports) && negb (has_byte ":" (str f "server")) then str f "server" +:+ ":" +:+ ports else hostPort f.

Definition hysteria2_user (f : proxyFields) : option Userinfo :=
  let password := str f "password" in if empty password then None else Some (User password).

Definition hysteria2_query (f : proxyFields) : Values :=
  (∅ : Values) |> setIf "sni" (str f "sni") |> setIf "obfs" (str f "obfs") |> setIf "obfs-password" (str f "obfs-password")
    |> set_when (flag f "skip-cert-verify") "insecure" "1" |> setIf "alpn" (alpn f) |> setIf "pinSHA256" (str f "fingerprint")
    |> setIf "up" (str f "up") |> setIf "down" (str f "down").

Definition realm (f : proxyFields) : bool := flag (sub f "realm-opts") "enable".

Definition encodeHysteria2 (f : proxyFields) : string :=
  if realm f then EmptyString else shareURL "hysteria2" (hysteria2_user f) (hysteria2_host f) (hysteria2_query f) (str f "name").

Definition tuic_user (f : proxyFields) : Userinfo :=
  if empty (str f "uuid") then User (str f "token") else UserPassword (str f "uuid") (str f "password").

Definition tuic_query (f : proxyFields) : Values :=
  (∅ : Values) |> setIf "congestion_control" (str f "congestion-controller") |> setIf "alpn" (alpn f) |> setIf "sni" (str f "sni")
    |> set_when (flag f "disable-sni") "disable_sni" "1" |> setIf "udp_relay_mode" (str f "udp-relay-mode").

Definition encodeTuic (f : proxyFields) : string := shareURL "tuic" (Some (tuic_user f)) (hostPort f) (tuic_query f) (str f "name").

Definition socks_user (f : proxyFields) : option Userinfo :=
  let username := str f "username" in
  let password := str f "password" in
  if negb (empty username) || negb (empty password) then Some (UserPassword username password) else None.

Definition encodeSocks (f : proxyFields) (scheme : string) : string := shareURL scheme (socks_user f) (hostPort f) ∅ (str f "name").

Definition anytls_query (f : proxyFields) : Values :=
  (∅ : Values) |> setIf "sni" (str f "sni") |> set_when (flag f "skip-cert-verify") "insecure" "1" |> setIf "hpkp" (str f "fingerprint").

Definition encodeAnyTLS (f : proxyFields) : string :=
  shareURL "anytls" (Some (User (str f "password"))) (hostPort f) (anytls_query f) (str f "name").

Definition mieru_query (f : proxyFields) : Values :=
  (∅ : Values) |> set_ "port" (or_string (str f "port-range") (str f "port")) |> set_ "protocol" (or_string (str f "transport") "TCP")
    |> setIf "multiplexing" (str f "multiplexing") |> setIf "handshake-mode" (str f "handshake-mode")
    |> setIf "traffic-pattern" (str f "traffic-pattern").

Definition mieru_host (f : proxyFields) : string :=
  let host := str f "server" in if has_byte ":" host then "[" +:+ host +:+ "]" else host.

Definition encodeMieru (f : proxyFields) : string :=
  shareURL "mierus" (Some (UserPassword (str f "username") (str f "password"))) (mieru_host f) (mieru_query f) (str f "name").

Definition encodeShareLink (f : proxyFields) : string :=
  if empty (str f "server") then EmptyString
  else
    let type := str f "type" in
    if eqs type "ss" then encodeShadowsocks f
    else if eqs type "ssr" then encodeShadowsocksR f
    else if eqs type "vmess" then encodeVmess f
    else if eqs type "vless" then encodeVless f
    else if eqs type "trojan" then encodeTrojan f
    else if eqs type "hysteria" then encodeHysteria f
    else if eqs type "hysteria2" then encodeHysteria2 f
    else if eqs type "tuic" then encodeTuic f
    else if eqs type "socks5" then encodeSocks f "socks5"
    else if eqs type "http" then encodeSocks f (if flag f "tls" then "https" else "http")
    else if eqs type "anytls" then encodeAnyTLS f
    else if eqs type "mieru" then encodeMieru f
    else EmptyString.

Definition handleEncodeShareLinks (mappings : list proxyFields) : list string := encodeShareLink <$> mappings.
End links.

(** [convert.ConvertsV2Ray] of mihomo. *)
Class Converter := { ConvertsV2Ray : string → option (list proxyFields) }.

Definition handleDecodeShareLinks `{Converter} (lines : list string) : list (list proxyFields) :=
  (λ line, default [] (ConvertsV2Ray line)) <$> lines.

(** ** What a share link says reads back *)

Section facts.
Context `{UrlPaths}.

Definition type_is (f : proxyFields) (type : string) : bool := eqs (str f "type") type.

Definition types : list string :=
  ["ss"; "ssr"; "vmess"; "vless"; "trojan"; "hysteria"; "hysteria2"; "tuic"; "socks5"; "http"; "anytls"; "mieru"].

(** The proxies that have no link: without a server, of another type, or
    with what the form of the link has no place for. *)
Definition no_link (f : proxyFields) : bool :=
  empty (str f "server") || negb (existsb (type_is f) types) ||
  type_is f "ss" && negb (existsb (eqs (str f "plugin")) [""; "obfs"; "v2ray-plugin"]) ||
  type_is f "ssr" && has_byte ":" (str f "server") ||
  type_is f "trojan" && eqs (str f "network") "ws" && negb (empty (str (sub (sub f "ws-opts") "headers") "Host")) ||
  type_is f "hysteria2" && flag (sub f "realm-opts") "enable".

(** Those whose link is base64 of a text of its own: ssr, and vmess with an
    alterId. *)
Definition legacy_vmess (f : proxyFields) : bool := type_is f "vmess" && negb (existsb (eqs (str f "alterId")) [""; "0"]).

Definition encoded_body (f : proxyFields) : option string :=
  if type_is f "ssr" then Some (ssr_body f)
  else if legacy_vmess f then Some (json_object (v2rayn f))
  else None.

(** What the URL of another proxy says: user, host and query. *)
Definition url_user (f : proxyFields) : option Userinfo :=
  let username := str f "username" in
  let password := str f "password" in
  let uuid := str f "uuid" in
  if type_is f "ss" then Some (UserPassword (str f "cipher") password)
  else if type_is f "vmess" || type_is f "vless" then Some (User uuid)
  else if type_is f "trojan" || type_is f "anytls" then Some (User password)
  else if type_is f "hysteria" then None
  else if type_is f "hysteria2" then (if empty password then None else Some (User password))
  else if type_is f "tuic" then Some (if empty uuid then User (str f "token") else UserPassword uuid password)
  else if type_is f "mieru" then Some (UserPassword username password)
  else if empty username && empty password then None else Some (UserPassword username password).

Definition url_scheme (f : proxyFields) : string :=
  if type_is f "http" then (if flag f "tls" then "https" else "http") else if type_is f "mieru" then "mierus" else str f "type".

(** The server with its port, or with the ports it hops over; a mieru link
    has the port in its query. *)
Definition url_host (f : proxyFields) : string :=
  let server := str f "server" in
  let ports := str f "ports" in
  if type_is f "mieru" then (if has_byte ":" server then "[" +:+ server +:+ "]" else server)
  else if type_is f "hysteria2" && negb (empty ports) && negb (has_byte ":" server) then server +:+ ":" +:+ ports
  else JoinHostPort server (str f "port").

(** What the encoder puts in the query. *)
Definition url_query (f : proxyFields) : Values :=
  if type_is f "ss" then default ∅ (shadowsocks_plugin f (set_when (flag f "udp-over-tcp") "uot" "1" ∅))
  else if type_is f "vmess" then vmess_query f
  else if type_is f "vless" then vless_query f
  else if type_is f "trojan" then default ∅ (trojan_query f)
  else if type_is f "hysteria" then hysteria_query f
  else if type_is f "hysteria2" then hysteria2_query f
  else if type_is f "tuic" then tuic_query f
  else if type_is f "anytls" then anytls_query f
  else if type_is f "mieru" then mieru_query f
  else ∅.

(** *** The parameters of a link

    Each key of a link once: when it is there, and what field of the proxy
    it says. *)

Definition table := list (string * (bool * string)).

Definition said (t : table) (key : string) : option string :=
  match find (λ row, eqs row.1 key) t with
  | Some (_, (true, value)) => Some value
  | _ => None
  end.

(** A value that is said unless it is empty. *)
Definition if_any (value : string) : bool * string := (negb (empty value), value).
Definition if_any_when (b : bool) (value : string) : bool * string := (b && negb (empty value), value).

Definition insecure (key : string) (f : proxyFields) : string * (bool * string) := (key, (flag f "skip-cert-verify", "1"%string)).

(** Of vmess and vless, in the form of Xray. *)
Definition security_table (f : proxyFields) : table :=
  let tls := flag f "tls" in
  let reality := sub f "reality-opts" in
  let key := str reality "public-key" in
  let has_key := tls && negb (empty key) in
  [("security", (tls, if has_key then "reality" else "tls"));
   ("pbk", (has_key, key));
   ("sid", if_any_when has_key (str reality "short-id"));
   ("support-x25519mlkem768", if_any_when has_key (str reality "support-x25519mlkem768"));
   ("fp", if_any_when tls (str f "client-fingerprint"));
   ("alpn", if_any_when tls (Join (list_ f "alpn") ","));
   ("pcs", if_any_when tls (str f "fingerprint"));
   ("sni", if_any (str f "servername"));
   ("packetEncoding", (flag f "packet-addr" || negb (flag f "xudp"), if flag f "packet-addr" then "packet" else "none"))]%string.

Definition transport_table (f : proxyFields) : table :=
  let network := str f "network" in
  let over name := eqs network name in
  let http := sub f "http-opts" in
  let h2 := sub f "h2-opts" in
  let ws := sub f "ws-opts" in
  let xhttp := sub f "xhttp-opts" in
  let early := str ws "max-early-data" in
  let header := str ws "early-data-header-name" in
  [("type", (negb (empty network) && negb (over "tcp"), if over "http" then "tcp" else if over "h2" then "http" else network));
   ("headerType", (over "http", "http"));
   ("path", if_any (if over "http" then first_ http "path" else if over "h2" then str h2 "path"
                    else if over "ws" || over "httpupgrade" then str ws "path" else if over "xhttp" then str xhttp "path" else ""));
   ("host", if_any (if over "http" then first_ (sub http "headers") "Host" else if over "h2" then first_ h2 "host"
                    else if over "ws" || over "httpupgrade" then str (sub ws "headers") "Host"
                    else if over "xhttp" then str xhttp "host" else ""));
   ("method", if_any_when (over "http") (str http "method"));
   ("ed", (if over "ws" then negb (existsb (eqs early) [""; "0"]) else over "httpupgrade" && flag ws "v2ray-http-upgrade-fast-open",
           if over "ws" then early else "0"));
   ("eh", (over "ws" && negb (existsb (eqs header) [""; "Sec-WebSocket-Protocol"]), header));
   ("serviceName", if_any_when (over "grpc") (str (sub f "grpc-opts") "grpc-service-name"));
   ("mode", if_any_when (over "xhttp") (str xhttp "mode"))]%string.

Definition xray_table (f : proxyFields) : table := security_table f ++ transport_table f.

Definition url_table (f : proxyFields) : table :=
  let opts := sub f "plugin-opts" in
  let cipher := str f "cipher" in
  let over name := eqs (str f "network") name in
  (if type_is f "ss" then
    [("uot", (flag f "udp-over-tcp", "1"));
     ("plugin", (negb (empty (str f "plugin")),
       if eqs (str f "plugin") "obfs" then "obfs-local;obfs=" +:+ str opts "mode" +:+ ";obfs-host=" +:+ str opts "host"
       else "v2ray-plugin;mode=" +:+ str opts "mode" +:+ ";host=" +:+ str opts "host" +:+ ";path=" +:+ str opts "path" +:+
         (if flag opts "tls" then ";tls" else "")))]
  else if type_is f "vmess" then
    (xray_table f ++ [("encryption", (negb (existsb (eqs cipher) [""; "auto"]), cipher))])%list
  else if type_is f "vless" then
    (xray_table f ++ [("flow", if_any (str f "flow")); ("encryption", if_any (str f "encryption"))])%list
  else if type_is f "trojan" then
    [insecure "allowInsecure" f; ("sni", if_any (str f "sni")); ("alpn", if_any (Join (list_ f "alpn") ","));
     ("type", (over "ws" || over "grpc", str f "network")); ("path", if_any_when (over "ws") (str (sub f "ws-opts") "path"));
     ("serviceName", if_any_when (over "grpc") (str (sub f "grpc-opts") "grpc-service-name"));
     ("fp", if_any (str f "client-fingerprint")); ("pcs", if_any (str f "fingerprint"))]
  else if type_is f "hysteria" then
    [("peer", if_any (str f "sni")); ("obfs", if_any (str f "obfs")); ("alpn", if_any (Join (list_ f "alpn") ","));
     ("auth", if_any (if empty (str f "auth-str") then str f "auth_str" else str f "auth-str"));
     ("protocol", if_any (str f "protocol")); ("up", if_any (str f "up")); ("down", if_any (str f "down")); insecure "insecure" f]
  else if type_is f "hysteria2" then
    [("sni", if_any (str f "sni")); ("obfs", if_any (str f "obfs")); ("obfs-password", if_any (str f "obfs-password"));
     insecure "insecure" f; ("alpn", if_any (Join (list_ f "alpn") ",")); ("pinSHA256", if_any (str f "fingerprint"));
     ("up", if_any (str f "up")); ("down", if_any (str f "down"))]
  else if type_is f "tuic" then
    [("congestion_control", if_any (str f "congestion-controller")); ("alpn", if_any (Join (list_ f "alpn") ","));
     ("sni", if_any (str f "sni")); ("disable_sni", (flag f "disable-sni", "1")); ("udp_relay_mode", if_any (str f "udp-relay-mode"))]
  else if type_is f "anytls" then
    [("sni", if_any (str f "sni")); insecure "insecure" f; ("hpkp", if_any (str f "fingerprint"))]
  else if type_is f "mieru" then
    [("port", (true, if empty (str f "port-range") then str f "port" else str f "port-range"));
     ("protocol", (true, if empty (str f "transport") then "TCP" else str f "transport"));
     ("multiplexing", if_any (str f "multiplexing")); ("handshake-mode", if_any (str f "handshake-mode"));
     ("traffic-pattern", if_any (str f "traffic-pattern"))]
  else [])%string.

(** Of the JSON of a vmess proxy with an alterId. *)
Definition json_table (f : proxyFields) : table :=
  let tls := flag f "tls" in
  let over name := eqs (str f "network") name in
  let http := sub f "http-opts" in
  let h2 := sub f "h2-opts" in
  let ws := sub f "ws-opts" in
  let early := str ws "max-early-data" in
  let path := str ws "path" in
  [("v", (true, "2")); ("ps", (true, str f "name")); ("add", (true, str f "server")); ("port", (true, str f "port"));
   ("id", (true, str f "uuid")); ("aid", (true, str f "alterId")); ("scy", (true, str f "cipher"));
   ("net", (true, if over "ws" || over "httpupgrade" || over "h2" || over "grpc" then str f "network" else "tcp"));
   ("type", (true, if over "http" then "http" else "none"));
   ("host", (true, if over "ws" || over "httpupgrade" then str (sub ws "headers") "Host"
                   else if over "http" then first_ (sub http "headers") "Host" else if over "h2" then first_ h2 "host" else ""));
   ("path", (true, if over "ws" then (if negb (existsb (eqs early) [""; "0"]) then default path (with_ed path early) else path)
                   else if over "httpupgrade" then path else if over "http" then first_ http "path"
                   else if over "h2" then str h2 "path" else if over "grpc" then str (sub f "grpc-opts") "grpc-service-name" else ""));
   ("tls", (true, if tls then "tls" else ""));
   ("sni", (tls, str f "servername")); ("alpn", (tls, Join (list_ f "alpn") ",")); ("fp", (tls, str f "client-fingerprint"))]%string.

(** *** A map says a table *)

Definition says (q : Values) (t : table) : Prop := ∀ key, q !! key = said t key.

(** What [q'] has over [q]. *)
Definition adds (q q' : Values) (t : table) : Prop := ∀ key, q' !! key = match said t key with Some v => Some v | None => q !! key end.

Lemma said_none t key : existsb (eqs key) t.*1 = false → said t key = None.
Proof using Type.
  unfold said. induction t as [|[k gv] t IH]; [done|]. cbn. rewrite orb_false_iff. intros [Hk Ht].
  replace (eqs k key) with (eqs key k) by (unfold eqs; case_bool_decide; case_bool_decide; congruence). rewrite Hk. by apply IH.
Qed.

Lemma said_app t t' key : said (t ++ t') key = if existsb (eqs key) t.*1 then said t key else said t' key.
Proof using Type.
  unfold said. induction t as [|[k gv] t IH]; [done|]. cbn.
  replace (eqs k key) with (eqs key k) by (unfold eqs; case_bool_decide; case_bool_decide; congruence). by destruct (eqs key k).
Qed.

Lemma says_more q q' t t' : says q t → adds q q' t' → forallb (λ row, negb (existsb (eqs row.1) t'.*1)) t = true → says q' (t ++ t').
Proof using Type.
  intros Hq Hq' Hnew key. rewrite Hq', said_app, Hq. destruct (existsb (eqs key) t.*1) eqn:E.
  - rewrite (said_none t'); [done|]. apply existsb_exists in E as (k & Hk & <-%eqs_true).
    apply list_elem_of_In, list_elem_of_fmap in Hk as (row & -> & Hrow%list_elem_of_In).
    rewrite forallb_forall in Hnew. by apply negb_true_iff, Hnew.
  - rewrite (said_none t) by done. by destruct (said t' key).
Qed.

Lemma lookup_set key k v q : set_ k v q !! key = if eqs k key then Some v else q !! key.
Proof using Type.
  unfold set_, eqs. case_bool_decide as E; [subst; by rewrite lookup_insert_eq | by rewrite lookup_insert_ne].
Qed.

Lemma lookup_put key k v (q : Values) : <[k := v]> q !! key = if eqs k key then Some v else q !! key.
Proof using Type. apply lookup_set. Qed.

Lemma lookup_setIf key k v q : setIf k v q !! key = if eqs k key && negb (empty v) then Some v else q !! key.
Proof using Type. unfold setIf. destruct (empty v); cbn; [by rewrite andb_false_r | by rewrite lookup_set, andb_true_r]. Qed.

Lemma lookup_set_when key b k v q : set_when b k v q !! key = if eqs k key && b then Some v else q !! key.
Proof using Type. unfold set_when. destruct b; cbn; [by rewrite lookup_set, andb_true_r | by rewrite andb_false_r]. Qed.

Lemma lookup_if (b : bool) (q q' : Values) key : (if b then q else q') !! key = if b then q !! key else q' !! key.
Proof using Type. by destruct b. Qed.

(** Comparisons of constants compute. *)
Ltac eval_eqs :=
  repeat match goal with
         | |- context [eqs (String ?a ?x) (String ?b ?y)] =>
             let v := eval vm_compute in (eqs (String a x) (String b y)) in change (eqs (String a x) (String b y)) with v
         | |- context [eqs (String ?a ?x) EmptyString] => change (eqs (String a x) EmptyString) with false
         | |- context [eqs EmptyString (String ?a ?x)] => change (eqs EmptyString (String a x)) with false
         | |- context [eqs EmptyString EmptyString] => change (eqs EmptyString EmptyString) with true
         | |- context [empty (String ?a ?x)] => change (empty (String a x)) with false
         | |- context [empty EmptyString] => change (empty EmptyString) with true
         end.

(** A value is one of [names] or none of them. *)
Lemma one_of (s : string) (names : list string) :
  s ∈ names ∨ ∀ k, existsb (eqs k) names = true → eqs s k = false ∧ eqs k s = false.
Proof using Type.
  destruct (decide (s ∈ names)) as [Hin|Hout]; [by left|right]. intros k (x & Hx & <-%eqs_true)%existsb_exists.
  apply list_elem_of_In in Hx. unfold eqs. split; apply bool_decide_eq_false; congruence.
Qed.

Ltac none_of H := repeat match goal with
  | |- context [eqs ?k ?s] => first [rewrite (proj1 (H s eq_refl)) | rewrite (proj2 (H k eq_refl))]
  end.

Lemma neither (x y : string) : negb (existsb (eqs x) [EmptyString; y]) = negb (empty x) && negb (eqs x y).
Proof using Type. cbn [existsb]. by rewrite orb_false_r, negb_orb. Qed.

(** Each key of a table in turn, then any other. *)
Ltac each_key keys :=
  let key := fresh "key" in let Hno := fresh "Hno" in let Hin := fresh "Hin" in
  intros key; rewrite ?neither; unfold said, find, fst, if_any, if_any_when, insecure, alpn;
  repeat first [rewrite lookup_set | rewrite lookup_put | rewrite lookup_setIf | rewrite lookup_set_when | rewrite lookup_if];
  destruct (one_of key keys) as [Hin|Hno];
    [repeat (apply elem_of_cons in Hin as [-> | Hin]); [..|by apply elem_of_nil in Hin]; eval_eqs; cbn [andb orb negb]
    |none_of Hno; cbn [andb orb negb]].

Ltac cases_done :=
  repeat match goal with |- context [if ?b then _ else _] => destruct b eqn:?; cbn [andb orb negb] end; try done.

(** Every test that is left, both ways. *)
Ltac both_ways :=
  repeat match goal with
         | |- context [if ?b then _ else _] =>
             match b with
             | negb ?c => destruct c eqn:?
             | ?c && _ => destruct c eqn:?
             | ?c || _ => destruct c eqn:?
             | _ => destruct b eqn:?
             end; cbn [andb orb negb]
         end; rewrite ?lookup_empty; done.

Definition networks : list string := [""; "tcp"; "http"; "h2"; "ws"; "httpupgrade"; "grpc"; "xhttp"].

(** The network is one that is known by name or another. *)
Ltac each_network f :=
  let Hin := fresh in
  destruct (one_of (str f "network") networks) as [Hin|Hin];
    [unfold networks in Hin; repeat (apply elem_of_cons in Hin as [-> | Hin]); [..|by apply elem_of_nil in Hin]; eval_eqs
    |unfold empty; none_of Hin];
  cbn [andb orb negb].

Lemma says_security f : says (packet_query f (setIf "sni" (str f "servername") (security_query f ∅))) (security_table f).
Proof using Type.
  unfold packet_query, security_query, security_table. cbv zeta.
  each_key ["security"; "pbk"; "sid"; "support-x25519mlkem768"; "fp"; "alpn"; "pcs"; "sni"; "packetEncoding"]; both_ways.
Qed.

Lemma adds_transport f q : adds q (transport_query f q) (transport_table f).
Proof using Type.
  unfold transport_query, transport_table, set_number. cbv zeta. each_network f.
  all: each_key ["type"; "headerType"; "path"; "host"; "method"; "ed"; "eh"; "serviceName"; "mode"]; both_ways.
Qed.

Lemma says_xray f : says (vShareQuery f) (xray_table f).
Proof using Type. eapply says_more; [apply says_security | apply adds_transport | reflexivity]. Qed.

Lemma says_vmess f : type_is f "vmess" = true → says (vmess_query f) (url_table f).
Proof using Type.
  intros Et%eqs_true. unfold url_table, type_is. rewrite Et. eval_eqs. cbv iota zeta.
  eapply says_more; [apply says_xray | | reflexivity]. unfold vmess_query. cbv zeta. each_key ["encryption"]; both_ways.
Qed.

Lemma says_vless f : type_is f "vless" = true → says (vless_query f) (url_table f).
Proof using Type.
  intros Et%eqs_true. unfold url_table, type_is. rewrite Et. eval_eqs. cbv iota zeta.
  eapply says_more; [apply says_xray | | reflexivity]. unfold vless_query. each_key ["flow"; "encryption"]; both_ways.
Qed.

Lemma says_ss f : type_is f "ss" = true → no_link f = false →
  says (default ∅ (shadowsocks_plugin f (set_when (flag f "udp-over-tcp") "uot" "1" ∅))) (url_table f).
Proof using Type.
  intros Et%eqs_true Hno. unfold url_table, type_is. rewrite Et. eval_eqs. cbv iota zeta.
  unfold no_link, type_is in Hno. rewrite Et in Hno. rewrite !orb_false_iff in Hno. destruct Hno as [[[[_ Hp] _] _] _].
  apply andb_false_iff in Hp as [Hp|Hp]; [by vm_compute in Hp|]. cbn [existsb] in Hp. rewrite orb_false_r in Hp. fold (empty (str f "plugin")) in Hp.
  unfold shadowsocks_plugin. cbv zeta.
  destruct (empty (str f "plugin")) eqn:E1; [|destruct (eqs (str f "plugin") "obfs") eqn:E2; [|destruct (eqs (str f "plugin") "v2ray-plugin") eqn:E3]];
    [..|by unfold empty, eqs in *; rewrite E1 in Hp]; cbn [default from_option id]; each_key ["uot"; "plugin"]; both_ways.
Qed.

Lemma says_trojan f : type_is f "trojan" = true → no_link f = false → says (default ∅ (trojan_query f)) (url_table f).
Proof using Type.
  intros Et%eqs_true Hno. unfold url_table, type_is. rewrite Et. eval_eqs. cbv iota zeta.
  unfold no_link, type_is in Hno. rewrite Et in Hno. rewrite !orb_false_iff in Hno. destruct Hno as [[_ Hp] _].
  rewrite <- andb_assoc in Hp. apply andb_false_iff in Hp as [Hp|Hp]; [by vm_compute in Hp|].
  unfold trojan_query. cbv zeta. revert Hp. each_network f; intros Hp; try (apply negb_false_iff in Hp; rewrite Hp).
  all: cbn [negb default from_option id mbind option_bind].
  all: each_key ["allowInsecure"; "sni"; "alpn"; "type"; "path"; "serviceName"; "fp"; "pcs"]; both_ways.
Qed.

(** The type is [name]. *)
Ltac of_type E := unfold url_query, url_table, encoded_body, legacy_vmess, type_is; rewrite E; eval_eqs; cbv iota zeta.

(** The query of every URL says the table of its type. *)
Lemma says_url f : no_link f = false → encoded_body f = None → says (url_query f) (url_table f).
Proof using Type.
  intros Hno Hbody. assert (Hknown : ∃ t, t ∈ types ∧ str f "type" = t).
  { unfold no_link in Hno. rewrite !orb_false_iff in Hno. destruct Hno as [[[[[_ Ht] _] _] _] _].
    apply negb_false_iff, existsb_exists in Ht as (t & Hin & Ht%eqs_true). exists t. split; [by apply list_elem_of_In | done]. }
  destruct Hknown as (t & Hin & Et). unfold types in Hin.
  repeat (apply elem_of_cons in Hin as [-> | Hin]); [..|by apply elem_of_nil in Hin].
  - pose proof (says_ss f ltac:(by apply eqs_true) Hno) as Hs. revert Hs. by of_type Et.
  - unfold encoded_body, type_is in Hbody. by rewrite Et in Hbody.
  - pose proof (says_vmess f ltac:(by apply eqs_true)) as Hs. revert Hs. by of_type Et.
  - pose proof (says_vless f ltac:(by apply eqs_true)) as Hs. revert Hs. by of_type Et.
  - pose proof (says_trojan f ltac:(by apply eqs_true) Hno) as Hs. revert Hs. by of_type Et.
  - of_type Et. unfold hysteria_query, or_string.
    each_key ["peer"; "obfs"; "alpn"; "auth"; "protocol"; "up"; "down"; "insecure"]; both_ways.
  - of_type Et. unfold hysteria2_query.
    each_key ["sni"; "obfs"; "obfs-password"; "insecure"; "alpn"; "pinSHA256"; "up"; "down"]; both_ways.
  - of_type Et. unfold tuic_query. each_key ["congestion_control"; "alpn"; "sni"; "disable_sni"; "udp_relay_mode"]; both_ways.
  - of_type Et. intros key. apply lookup_empty.
  - of_type Et. intros key. apply lookup_empty.
  - of_type Et. unfold anytls_query. each_key ["sni"; "insecure"; "hpkp"]; both_ways.
  - of_type Et. unfold mieru_query, or_string.
    each_key ["port"; "protocol"; "multiplexing"; "handshake-mode"; "traffic-pattern"]; both_ways.
Qed.

Lemma plain_legacy f : type_is f "vmess" = true → plain_vmess f = negb (legacy_vmess f).
Proof using Type.
  intros Ht. unfold plain_vmess, legacy_vmess, set_number. rewrite Ht. cbn [andb]. by rewrite neither.
Qed.

(** The JSON says the table of it. *)
Lemma says_json f : legacy_vmess f = true → says (v2rayn f) (json_table f).
Proof using Type.
  unfold legacy_vmess. intros [_ Hid]%andb_true_iff. rewrite neither in Hid. apply andb_true_iff in Hid as [Hid%negb_true_iff _].
  unfold v2rayn, json_table, or_string, wsEarlyDataPath, set_number. cbv zeta. cbn [list_to_map foldr fst snd]. rewrite Hid.
  each_network f; each_key ["v"; "ps"; "add"; "port"; "id"; "aid"; "scy"; "net"; "type"; "host"; "path"; "tls"; "sni"; "alpn"; "fp"]; both_ways.
Qed.

(** *** Every case of a link *)

Inductive link_case (f : proxyFields) (link : string) : Prop :=
  | no_link_case : no_link f = true → link = EmptyString → link_case f link
  | encoded_case scheme body : no_link f = false → encoded_body f = Some body → (∃ pad url, link = scheme +:+ base64 url pad body) →
      scheme = (if type_is f "ssr" then "ssr://" else "vmess://") → link_case f link
  | url_case : no_link f = false → encoded_body f = None →
      link = shareURL (url_scheme f) (url_user f) (url_host f) (url_query f) (str f "name") → link_case f link.

Lemma trojan_query_none f : trojan_query f = None ↔ eqs (str f "network") "ws" && negb (empty (str (sub (sub f "ws-opts") "headers") "Host")) = true.
Proof using Type.
  unfold trojan_query. destruct (eqs (str f "network") "ws"); cbn [andb]; [|by destruct (eqs _ _)].
  by destruct (empty _).
Qed.

Lemma plugin_none f q : shadowsocks_plugin f q = None ↔ existsb (eqs (str f "plugin")) [""; "obfs"; "v2ray-plugin"] = false.
Proof using Type.
  unfold shadowsocks_plugin. cbn [existsb]. rewrite orb_false_r. unfold empty. fold (eqs (str f "plugin") "").
  by destruct (eqs _ ""), (eqs _ "obfs"), (eqs _ "v2ray-plugin").
Qed.

(** Once the type is a constant, the tests of it compute. *)
Ltac eval_types E :=
  unfold no_link, encoded_body, legacy_vmess, url_scheme, url_user, url_host, url_query, type_is; rewrite ?E; cbn [existsb types];
  eval_eqs; cbn [orb andb negb].

Lemma links f : link_case f (encodeShareLink f).
Proof using Type.
  unfold encodeShareLink. destruct (empty (str f "server")) eqn:Es; [by apply no_link_case; [unfold no_link; rewrite Es|]|].
  destruct (existsb (type_is f) types) eqn:Eknown.
  2: { assert (Hno : ∀ t, t ∈ types → eqs (str f "type") t = false).
       { intros t Ht. apply not_true_is_false. intros Et. apply not_true_iff_false in Eknown. apply Eknown. apply existsb_exists.
         exists t. split; [by apply list_elem_of_In | done]. }
       rewrite !Hno by (unfold types; set_solver). apply no_link_case; [|done]. unfold no_link. by rewrite Es, Eknown. }
  apply existsb_exists in Eknown as (t & Hin & Et%eqs_true). unfold types in Hin. cbn [In] in Hin.
  repeat (destruct Hin as [<- | Hin]; [rewrite Et; eval_eqs; cbv iota |]); [..|done].
  - unfold encodeShadowsocks. assert (Hnone := plugin_none f (set_when (flag f "udp-over-tcp") "uot" "1" ∅)). cbn [existsb] in Hnone.
    destruct (shadowsocks_plugin _ _) as [q|] eqn:Eq.
    + apply url_case; eval_types Et; [|done | by rewrite Eq]. rewrite Es. destruct (eqs (str f "plugin") "" || _) eqn:E2; [done|]. by specialize (proj2 Hnone eq_refl).
    + apply no_link_case; [|done]. eval_types Et. rewrite Es. by rewrite (proj1 Hnone eq_refl).
  - unfold encodeShadowsocksR. destruct (has_byte ":" (str f "server")) eqn:Ec.
    + apply no_link_case; [|done]. eval_types Et. by rewrite Es, Ec.
    + apply (encoded_case _ _ "ssr://" (ssr_body f)); eval_types Et; [by rewrite Es, Ec | done | | done]. by exists false, true.
  - unfold encodeVmess. destruct (plain_vmess f) eqn:Ep.
    + rewrite plain_legacy in Ep by (by apply eqs_true). apply negb_true_iff in Ep.
      apply url_case; [by eval_types Et; rewrite Es | | by eval_types Et]. unfold encoded_body. rewrite Ep. unfold type_is. by rewrite Et.
    + rewrite plain_legacy in Ep by (by apply eqs_true). apply negb_false_iff in Ep.
      apply (encoded_case _ _ "vmess://" (json_object (v2rayn f))); [by eval_types Et; rewrite Es | | by exists true, false | by eval_types Et].
      unfold encoded_body. rewrite Ep. unfold type_is. by rewrite Et.
  - apply url_case; eval_types Et; [by rewrite Es | done | done].
  - unfold encodeTrojan. destruct (trojan_query f) as [q|] eqn:Eq.
    + apply url_case; eval_types Et; [|done | by rewrite Eq]. rewrite Es, orb_false_r. cbn [orb]. apply not_true_is_false. intros Hx. apply trojan_query_none in Hx. congruence.
    + apply no_link_case; [|done]. eval_types Et. rewrite Es. by rewrite (proj1 (trojan_query_none f) Eq).
  - apply url_case; eval_types Et; [by rewrite Es | done | done].
  - unfold encodeHysteria2, realm. destruct (flag _ "enable") eqn:Er.
    + apply no_link_case; [|done]. eval_types Et. by rewrite Es, Er.
    + apply url_case; eval_types Et; [by rewrite Es, Er | done |]. unfold hysteria2_user, hysteria2_host, hostPort. cbv zeta.
      by destruct (empty (str f "ports")), (has_byte ":" (str f "server")).
  - apply url_case; eval_types Et; [by rewrite Es | done |]. unfold encodeTuic, tuic_user. by destruct (empty (str f "uuid")).
  - apply url_case; eval_types Et; [by rewrite Es | done |]. unfold encodeSocks, socks_user. cbv zeta. by destruct (empty (str f "username")), (empty (str f "password")).
  - apply url_case; eval_types Et; [by rewrite Es | done |]. unfold encodeSocks, socks_user. cbv zeta. by destruct (empty (str f "username")), (empty (str f "password")).
  - apply url_case; eval_types Et; [by rewrite Es | done | done].
  - apply url_case; eval_types Et; [by rewrite Es | done | done].
Qed.

Lemma raw_base64_clean d s : d ∈ [":"; "/"; "&"; "="]%char → has_byte d (raw_base64 s) = false.
Proof using Type.
  intros Hd. unfold raw_base64, base64. assert (Hok := bytes_of_ok s). revert Hok. generalize (bytes_of s). intros l.
  assert (Hch : ∀ i, 0 ≤ i < 64 → base64_char true i ≠ d).
  { intros i Hi. assert (Hall : forallb (λ i, forallb (λ d, negb (bool_decide (base64_char true i = d))) [":"; "/"; "&"; "="]%char) (Z.of_nat <$> seq 0 64) = true)
      by (vm_compute; reflexivity).
    rewrite forallb_forall in Hall. specialize (Hall i). rewrite forallb_forall in Hall. specialize (Hall ltac:(apply list_elem_of_In, list_elem_of_fmap;
      exists (Z.to_nat i); split; [lia | apply elem_of_seq; lia]) d ltac:(by apply list_elem_of_In)). by apply negb_true_iff, bool_decide_eq_false in Hall. }
  induction l as [|a|a b|a b c l IH] using three_ind; intros Hl; repeat (apply Forall_cons in Hl as [? Hl]); cbn [base64_bytes has_byte]; [done| | |];
    rewrite !bool_decide_false by (apply Hch; Z.div_mod_to_equations; lia); cbn [orb]; [done | done | by apply IH].
Qed.

(** The text of an ssr link, split as readers split it: the fields up to the
    first slash by colons, then the parameters. *)
Definition read_ssr (body : string) : option (list string) :=
  let '(before, rest, _) := Cut body "/" in
  let values := (λ p, (Cut p "=").1.2) <$> Split (string_drop 1 rest) "&" in
  match Split before ":" with
  | [server; port; protocol; cipher; obfs; password] =>
      password ← read_base64 password; values ← mapM read_base64 values;
      Some ([server; port; protocol; cipher; obfs; password] ++ values)
  | _ => None
  end.

Lemma read_raw s : read_base64 (raw_base64 s) = Some s.
Proof using Type. apply read_base64_text. Qed.

Definition plain_fields (f : proxyFields) : bool :=
  forallb (λ key, negb (has_byte ":" (str f key)) && negb (has_byte "/" (str f key))) ["server"; "port"; "protocol"; "cipher"; "obfs"].

Lemma read_ssr_body f : plain_fields f = true →
  read_ssr (ssr_body f) = Some (str f <$> ["server"; "port"; "protocol"; "cipher"; "obfs"; "password"; "obfs-param"; "protocol-param"; "name"]).
Proof using Type.
  unfold plain_fields. rewrite forallb_forall. intros Hplain.
  assert (Hf : ∀ d key, d ∈ [":"; "/"]%char → key ∈ ["server"; "port"; "protocol"; "cipher"; "obfs"] → has_byte d (str f key) = false).
  { intros d key Hd Hk. specialize (Hplain key ltac:(by apply list_elem_of_In)). apply andb_true_iff in Hplain as [H1%negb_true_iff H2%negb_true_iff].
    apply elem_of_cons in Hd as [-> | Hd]; [done|]. by apply list_elem_of_singleton in Hd as ->. }
  unfold read_ssr, ssr_body. set (fields := [str f "server"; _; _; _; _; _]).
  assert (Hfields : ∀ d, d ∈ [":"; "/"]%char → Forall (λ p, has_byte d p = false) fields).
  { intros d Hd. unfold fields. repeat constructor; try (apply Hf; [done | set_solver]). apply raw_base64_clean. set_solver. }
  change ("/?obfsparam=" +:+ ?x) with (String "/" ("?obfsparam=" +:+ x)).
  rewrite Cut_app by (apply has_byte_Join; [done | apply Hfields; set_solver]).
  change (":"%string) with (str1 ":"). rewrite Split_Join by (done || (apply Hfields; set_solver)). unfold fields at 1. cbv iota.
  rewrite read_raw. cbn [mbind option_bind].
  change (string_drop 1 ("?obfsparam=" +:+ ?x)) with (string_drop (String.length "?") ("?" +:+ ("obfsparam=" +:+ x))). rewrite string_app_drop.
  set (a := raw_base64 (str f "obfs-param")). set (b := raw_base64 (str f "protocol-param")). set (c := raw_base64 (str f "name")).
  change ("obfsparam=" +:+ a +:+ "&protoparam=" +:+ b +:+ "&remarks=" +:+ c) with
    ("obfsparam=" +:+ a +:+ String "&" ("protoparam=" +:+ b +:+ String "&" ("remarks=" +:+ c))).
  rewrite <- !append_assoc, !Split_app, Split_none by (rewrite ?has_byte_app; apply raw_base64_clean; set_solver).
  change ("obfsparam=" +:+ ?x) with ("obfsparam" +:+ String "=" x). change ("protoparam=" +:+ ?x) with ("protoparam" +:+ String "=" x).
  change ("remarks=" +:+ ?x) with ("remarks" +:+ String "=" x). cbn [fmap list_fmap]. rewrite !Cut_app by done. cbn [fst snd].
  cbn [mapM]. unfold a, b, c. rewrite !read_raw. done.
Qed.

Lemma no_link_known f : no_link f = false → empty (str f "server") = false ∧ ∃ t, t ∈ types ∧ str f "type" = t.
Proof using Type.
  unfold no_link. intros Hno. rewrite !orb_false_iff in Hno. destruct Hno as [[[[[Hs Ht] _] _] _] _]. split; [done|].
  apply negb_false_iff, existsb_exists in Ht as (t & Hin & Ht%eqs_true). exists t. split; [by apply list_elem_of_In | done].
Qed.

Lemma scheme_plain f d : no_link f = false → d ∈ [":"; "#"; "?"]%char → has_byte d (url_scheme f) = false.
Proof using Type.
  intros (_ & t & Ht & Et)%no_link_known Hd.
  assert (Hall : forallb (λ s, forallb (λ d, negb (has_byte d s)) [":"; "#"; "?"]%char) ("https" :: "http" :: "mierus" :: types) = true)
    by (vm_compute; reflexivity).
  rewrite forallb_forall in Hall. assert (Hin : url_scheme f ∈ "https" :: "http" :: "mierus" :: types).
  { unfold url_scheme. destruct (type_is f "http"), (type_is f "mieru"), (flag f "tls"); rewrite ?Et; set_solver. }
  specialize (Hall _ (proj1 (list_elem_of_In _ _) Hin)). rewrite forallb_forall in Hall.
  by apply negb_true_iff, Hall, list_elem_of_In.
Qed.

Lemma host_some f : no_link f = false → url_host f ≠ EmptyString.
Proof using Type.
  intros [Hs _]%no_link_known. assert (Hne : str f "server" ≠ EmptyString) by (intros E; by rewrite E in Hs).
  unfold url_host, hysteria2_host, mieru_host, hostPort, JoinHostPort.
  repeat match goal with |- context [if ?b then _ else _] => destruct b end; by destruct (str f "server").
Qed.

(** The parameters of a query, as a reader finds them. *)
Lemma entries_keys q : (entries q).*1 = sorted_keys q.
Proof using Type.
  unfold entries. induction (sorted_keys q) as [|k ks IH]; [done|]. cbn. by rewrite IH.
Qed.

Lemma elem_of_entries q key value : (key, value) ∈ entries q ↔ q !! key = Some value.
Proof using Type.
  unfold entries. rewrite list_elem_of_fmap. split.
  - intros (k & [= -> ->] & [v Hv]%elem_of_sorted_keys). by rewrite Hv.
  - intros Hv. exists key. rewrite Hv. split; [done|]. by apply elem_of_sorted_keys; rewrite Hv.
Qed.

Lemma entries_say q t : says q t → NoDup (entries q).*1 ∧ ∀ key value, (key, value) ∈ entries q ↔ said t key = Some value.
Proof using Type.
  intros Hs. split; [rewrite entries_keys; apply NoDup_sorted_keys|]. intros key value. by rewrite elem_of_entries, Hs.
Qed.

Lemma encoded_ssr f : type_is f "ssr" = true → encoded_body f = Some (ssr_body f).
Proof using Type. unfold encoded_body. by intros ->. Qed.

(** C31: A share link says what it was written from. A proxy has no link
    (the empty string) exactly when it has no server, is of a type without
    a link, or holds what its link has no place for: another plugin, an IPv6
    server in ssr, a host header of a trojan websocket, a realm hop. The link
    of an ssr proxy is base64 of a text that splits back into its nine values,
    unless one of the first five has a colon or a slash; that of a vmess proxy
    with an alterId is base64 of the JSON of a map with the values of
    [json_table]. Any other link is a URL: read back by percent-decoding,
    whatever bytes they hold, it has the scheme, the user and password and the
    host and port of the proxy, its name, and of the parameters each of the
    table of its type ([url_table], key by key) that applies, once, with the
    value of its field, and no other. *)
Theorem share_link_reads_back f : let link := encodeShareLink f in
  (link = EmptyString ↔ no_link f = true) ∧
  (no_link f = false →
    if type_is f "ssr" then
      ∃ text body, link = "ssr://" +:+ text ∧ read_base64 text = Some body ∧
        (plain_fields f = true → read_ssr body =
          Some (str f <$> ["server"; "port"; "protocol"; "cipher"; "obfs"; "password"; "obfs-param"; "protocol-param"; "name"]))
    else if legacy_vmess f then
      ∃ text values, link = "vmess://" +:+ text ∧ read_base64 text = Some (json_object values) ∧
        ∀ key, values !! key = said (json_table f) key
    else
      ∃ query, read_url link = Some (url_scheme f, url_user f, url_host f, query, str f "name") ∧
        NoDup query.*1 ∧ ∀ key value, (key, value) ∈ query ↔ said (url_table f) key = Some value).
Proof using Type.
  intros link. split.
  - destruct (links f) as [Hno Hl|scheme body Hno _ (pad & url & Hl) Hs|Hno _ Hl]; fold link in Hl; rewrite Hl, Hno; [done| |].
    + rewrite Hs. by destruct (type_is f "ssr").
    + split; [|done]. unfold shareURL, url_text. cbn [ur_Scheme]. by destruct (url_scheme f).
  - intros Hyes. destruct (links f) as [Hno _|scheme body _ Henc (pad & url & Hl) Hs|_ Henc Hl]; try fold link in Hl; [congruence| |].
    + destruct (type_is f "ssr") eqn:Et; [|destruct (legacy_vmess f) eqn:Ev].
      * rewrite encoded_ssr in Henc by done. injection Henc as <-. exists (base64 url pad (ssr_body f)), (ssr_body f).
        rewrite <- Hs. split_and!; [done | apply read_base64_text | apply read_ssr_body].
      * unfold encoded_body in Henc. rewrite Et, Ev in Henc. injection Henc as <-.
        exists (base64 url pad (json_object (v2rayn f))), (v2rayn f). rewrite <- Hs.
        split_and!; [done | apply read_base64_text | by apply says_json].
      * unfold encoded_body in Henc. by rewrite Et, Ev in Henc.
    + unfold encoded_body in Henc. destruct (type_is f "ssr") eqn:Et; [done|]. destruct (legacy_vmess f) eqn:Ev; [done|].
      exists (entries (url_query f)). split; [|apply entries_say, says_url; [done | unfold encoded_body; by rewrite Et, Ev]].
      rewrite Hl. unfold shareURL. apply read_url_text; [apply scheme_plain; [done | set_solver].. | by apply host_some].
Qed.
End facts.

(** *** Links *)

Module Sample.
#[local] Instance some_paths : UrlPaths := {| with_ed path ed := Some (path +:+ "?ed=" +:+ ed) |}.

Definition vless : proxyFields :=
  [("name", AStr "#1 & more"); ("type", AStr "vless"); ("server", AStr "2001:db8::1"); ("port", AOther "443"); ("uuid", AStr "a:b@c");
   ("tls", ABool true); ("reality-opts", AMap [("public-key", AStr "k/+="); ("short-id", AStr "01")]); ("alpn", AList [AStr "h2"; AStr "http/1.1"]);
   ("flow", AStr "xtls"); ("xudp", ABool true)].

Definition ssr : proxyFields :=
  [("name", AStr "n"); ("type", AStr "ssr"); ("server", AStr "host"); ("port", AOther "8388"); ("protocol", AStr "origin"); ("cipher", AStr "rc4");
   ("obfs", AStr "plain"); ("password", AStr "p:w/")].

(** A trojan websocket with a host header has no link. *)
Definition trojan : proxyFields :=
  [("type", AStr "trojan"); ("server", AStr "host"); ("network", AStr "ws"); ("ws-opts", AMap [("headers", AMap [("Host", AStr "h")])])].

Example vless_link : encodeShareLink vless =
  "vless://a%3Ab%40c@[2001:db8::1]:443?alpn=h2%2Chttp%2F1.1&flow=xtls&pbk=k%2F%2B%3D&security=reality&sid=01#%231%20&%20more".
Proof. vm_compute. reflexivity. Qed.

(** A legacy vmess over a websocket. *)
Definition vmess : proxyFields :=
  [("name", AStr "n"); ("type", AStr "vmess"); ("server", AStr "host"); ("port", AOther "80"); ("uuid", AStr "u"); ("alterId", AOther "4");
   ("network", AStr "ws"); ("ws-opts", AMap [("path", AStr "/p"); ("max-early-data", AOther "2048")])].

Lemma share_link_reads_back_witness :
  (∃ query, read_url (encodeShareLink vless) = Some ("vless", Some (User "a:b@c"), "[2001:db8::1]:443", query, "#1 & more") ∧
    ("alpn", "h2,http/1.1") ∈ query ∧ ("flow", "xtls") ∈ query ∧ ("pbk", "k/+=") ∈ query ∧ ("security", "reality") ∈ query ∧
    ("sid", "01") ∈ query ∧ (∀ value, ("packetEncoding", value) ∉ query)) ∧
  (∃ text values, encodeShareLink vmess = "vmess://" +:+ text ∧ read_base64 text = Some (json_object values) ∧
    values !! "path" = Some "/p?ed=2048" ∧ values !! "sni" = None) ∧
  (∃ text body, encodeShareLink ssr = "ssr://" +:+ text ∧ read_base64 text = Some body ∧
    read_ssr body = Some ["host"; "8388"; "origin"; "rc4"; "plain"; "p:w/"; ""; ""; "n"]) ∧
  encodeShareLink trojan = "".
Proof.
  destruct (share_link_reads_back vless) as (_ & Hv). destruct (Hv ltac:(vm_compute; reflexivity)) as (query & Hread & _ & Hquery).
  destruct (share_link_reads_back vmess) as (_ & Hm). destruct (Hm ltac:(vm_compute; reflexivity)) as (text & values & Hlink & Htext & Hvalues).
  destruct (share_link_reads_back ssr) as (_ & Hs). destruct (Hs ltac:(vm_compute; reflexivity)) as (text' & body & Hlink' & Htext' & Hbody).
  destruct (share_link_reads_back trojan) as ([_ Ht] & _). split_and!; [| | |by apply Ht; vm_compute].
  - exists query. split; [exact Hread|]. split_and!; [apply Hquery; vm_compute; reflexivity..|].
    intros value Hin%Hquery. vm_compute in Hin. discriminate.
  - exists text, values. split_and!; [exact Hlink | exact Htext | rewrite Hvalues; vm_compute; reflexivity..].
  - exists text', body. split_and!; [exact Hlink' | exact Htext' | exact (Hbody eq_refl)].
Defined.
End Sample.
