(* ===== verification/Messages.v ===== *)
(** * Messages to the host: core/message.go

    Events of the core reach the interface through three bounded channels and
    one goroutine that batches them. State messages are refused when their
    channel is full, the others push the oldest out, except lookups and
    traffic, which share the bulk channel and never push. Every channel
    operation is a step of its own: senders and the batcher interleave. *)

From S2P Require Import Prelude.

Definition messageBatchSize : nat := 32.
Definition messageQueueSize : nat := 256.
Definition messagePriorityBurst : nat := 8.
Definition messageEvictAttempts : nat := 4.

Section messages.
Context {data : Type}.

Record Message := { ms_Type : string; ms_Data : data }.

Inductive messageClass := stateMessageClass | priorityMessageClass | bulkMessageClass | yieldingBulkMessageClass.

Definition classOfMessage (m : Message) : messageClass :=
  if mem_string (ms_Type m) ["loaded"; "geoUpdate"; "routeChanged"; "rcxStatus"]%string then stateMessageClass
  else if mem_string (ms_Type m) ["log"; "request"]%string then bulkMessageClass
  else if mem_string (ms_Type m) ["dns"; "requestTraffic"]%string then yieldingBulkMessageClass
  else priorityMessageClass.

Inductive queue := QState | QPriority | QBulk.
#[local] Instance queue_eq : EqDecision queue. Proof. solve_decision. Defined.

Definition queue_of (m : Message) : queue :=
  match classOfMessage m with
  | stateMessageClass => QState
  | priorityMessageClass => QPriority
  | bulkMessageClass | yieldingBulkMessageClass => QBulk
  end.

(** [enqueueState] for these, [enqueueLatest] for the others. *)
Definition evicts (m : Message) : bool :=
  match classOfMessage m with priorityMessageClass | bulkMessageClass => true | _ => false end.

(** Where a call of [sendMessage] is: before an attempt to send, before
    taking the oldest message out, or returned, with whether it was queued. *)
Inductive sender := AtPut (attempt : nat) (m : Message) | AtEvict (attempt : nat) (m : Message) | Returned (queued : bool).

(** Where the batcher is: at the head of its loop with the first [select]; at
    the bulk messages a long burst leaves a turn to; at the priority
    messages; in the [select] that waits; or past the loop. *)
Inductive batcher := AtHead | AtBulk | AtPriority | Waiting | Ended.

(** The channels, the senders and the batcher's variables. [ml_put] and
    [ml_out] record what went into each channel and what came out of it, to
    the batcher or pushed out: no step reads them. *)
Record mail := {
  ml_items : queue → list Message;
  ml_closed : queue → bool;
  ml_senders : gmap nat sender;
  ml_at : batcher;
  ml_nil : queue → bool;
  ml_batch : list Message;
  ml_deadline : bool;
  ml_burst : nat;
  ml_sent : list (list Message);
  ml_put : queue → list Message;
  ml_out : queue → list (Message * bool);
}.

Definition new_mail : mail :=
  {| ml_items _ := []; ml_closed _ := false; ml_senders := ∅; ml_at := AtHead; ml_nil _ := false; ml_batch := [];
     ml_deadline := false; ml_burst := 0; ml_sent := []; ml_put _ := []; ml_out _ := [] |}.

Definition upd {A} (f : queue → A) (q : queue) (a : A) : queue → A := λ q', if decide (q' = q) then a else f q'.

(** ** Senders *)

(** A send that does not block: it needs room. *)
Definition try_put (s : mail) (m : Message) : option mail :=
  let q := queue_of m in
  if (length (ml_items s q) <? messageQueueSize)%nat
  then Some {| s with ml_items := upd (ml_items s) q (ml_items s q ++ [m]); ml_put := upd (ml_put s) q (ml_put s q ++ [m]) |}
  else None.

(** A receive that does not block, whose message is dropped. *)
Definition evict_oldest (s : mail) (q : queue) : mail :=
  match ml_items s q with
  | [] => s
  | old :: rest => {| s with ml_items := upd (ml_items s) q rest; ml_out := upd (ml_out s) q (ml_out s q ++ [(old, false)]) |}
  end.

Definition sender_step (s : mail) (pc : sender) : mail * sender :=
  match pc with
  | AtPut attempt m =>
      match try_put s m with
      | Some s => (s, Returned true)
      | None => (s, if evicts m then AtEvict attempt m else Returned false)
      end
  | AtEvict attempt m =>
      (evict_oldest s (queue_of m),
       if (S attempt <? messageEvictAttempts)%nat then AtPut (S attempt) m else Returned false)
  | Returned _ => (s, pc)
  end.

Definition sender_queue (pc : sender) : option queue :=
  match pc with AtPut _ m | AtEvict _ m => Some (queue_of m) | Returned _ => None end.

(** ** The batcher *)

Definition flush (s : mail) : mail :=
  match ml_batch s with
  | [] => s
  | batch => {| s with ml_deadline := false; ml_batch := []; ml_sent := ml_sent s ++ [batch] |}
  end.

(** [take] of a message. *)
Definition take_message (s : mail) (m : Message) : mail :=
  let s := {| s with ml_deadline := true; ml_batch := ml_batch s ++ [m] |} in
  if (messageBatchSize <=? length (ml_batch s))%nat then flush s else s.

(** A receive with [take]; [None] when it would block, and whether a message
    came. A closed channel is taken out of the loop once it is drained. *)
Definition receive (s : mail) (q : queue) : option (mail * bool) :=
  if ml_nil s q then None
  else match ml_items s q with
       | m :: rest =>
           Some (take_message {| s with ml_items := upd (ml_items s) q rest; ml_out := upd (ml_out s) q (ml_out s q ++ [(m, true)]) |} m, true)
       | [] => if ml_closed s q then Some ({| s with ml_nil := upd (ml_nil s) q true |}, false) else None
       end.

Definition goto (s : mail) (pc : batcher) : mail := {| s with ml_at := pc |}.
Definition set_burst (s : mail) (n : nat) : mail := {| s with ml_burst := n |}.

Definition take_priority (r : mail * bool) : mail := if r.2 then set_burst r.1 (S (ml_burst r.1)) else r.1.

(** What wakes the [select] that waits. *)
Inductive wake := Got (q : queue) | Deadline.

Definition batcher_step (s : mail) (choice : wake) : option mail :=
  match ml_at s with
  | AtHead =>
      if ml_nil s QState && ml_nil s QPriority && ml_nil s QBulk then Some (goto (flush s) Ended)
      else Some (match receive s QState with
                 | Some (s, _) => goto s AtHead
                 | None => goto s (if (messagePriorityBurst <=? ml_burst s)%nat && negb (ml_nil s QBulk) then AtBulk else AtPriority)
                 end)
  | AtBulk =>
      let s := set_burst s 0 in
      Some (match receive s QBulk with Some (s, _) => goto s AtHead | None => goto s AtPriority end)
  | AtPriority => Some (match receive s QPriority with Some r => goto (take_priority r) AtHead | None => goto s Waiting end)
  | Waiting =>
      match choice with
      | Got QState => '(s, _) ← receive s QState; Some (goto s AtHead)
      | Got QPriority => r ← receive s QPriority; Some (goto (take_priority r) AtHead)
      | Got QBulk => '(s, _) ← receive s QBulk; Some (goto (set_burst s 0) AtHead)
      | Deadline => if ml_deadline s then Some (goto (flush s) AtHead) else None
      end
  | Ended => None
  end.

(** What came out of a channel for the batcher. *)
Definition kept (out : list (Message * bool)) : list Message := (filter (λ x, x.2 = true) out).*1.

(** How many priority messages the batcher has taken since the bulk messages
    had a turn: one was taken, or the batcher stopped to look for one. *)
Definition ahead (n : nat) (s s' : mail) : nat :=
  let took q := (length (kept (ml_out s q)) <? length (kept (ml_out s' q)))%nat in
  match ml_at s with
  | AtBulk => 0
  | _ => if took QBulk then 0 else if took QPriority then S n else n
  end.

(** Senders come and go, channels may be closed, after which nothing is sent
    on them, and the batcher runs; with the priority messages it let ahead. *)
Inductive mail_reachable : mail → nat → Prop :=
  | mail_start : mail_reachable new_mail 0
  | mail_send s n t m : mail_reachable s n → ml_senders s !! t = None →
      mail_reachable {| s with ml_senders := <[t := AtPut 0 m]> (ml_senders s) |} n
  | mail_sender s n t pc : mail_reachable s n → ml_senders s !! t = Some pc →
      (∀ q, sender_queue pc = Some q → ml_closed s q = false) →
      mail_reachable {| (sender_step s pc).1 with ml_senders := <[t := (sender_step s pc).2]> (ml_senders s) |} n
  | mail_batch s n choice s' : mail_reachable s n → batcher_step s choice = Some s' → mail_reachable s' (ahead n s s')
  | mail_close s n q : mail_reachable s n → mail_reachable {| s with ml_closed := upd (ml_closed s) q true |} n.

(** ** The invariant *)

(** All the batcher took, in order. *)
Definition taken (s : mail) : list Message := concat (ml_sent s) ++ ml_batch s.
Definition from_queue (q : queue) (l : list Message) : list Message := filter (λ m, queue_of m = q) l.

#[local] Arguments kept : simpl never.
#[local] Arguments taken : simpl never.
#[local] Arguments from_queue : simpl never.

(** The channels and the batch, of [most] messages at most, wherever the
    goroutines are. *)
Record books_ok (most : nat) (s : mail) : Prop := {
  bk_fifo : ∀ q, ml_put s q = (ml_out s q).*1 ++ ml_items s q;
  bk_taken : ∀ q, from_queue q (taken s) = kept (ml_out s q);
  bk_state : Forall (λ x, x.2 = true) (ml_out s QState);
  bk_room : ∀ q, (length (ml_items s q) <= messageQueueSize)%nat;
  bk_queue : ∀ q, Forall (λ m, queue_of m = q) (ml_items s q);
  bk_batch : (length (ml_batch s) <= most)%nat;
  bk_sent : Forall (λ b, (0 < length b <= messageBatchSize)%nat) (ml_sent s);
  bk_deadline : ml_batch s ≠ [] → ml_deadline s = true;
  bk_nil : ∀ q, ml_nil s q = true → ml_closed s q = true ∧ ml_items s q = [];
  bk_evictors : ∀ t attempt m, ml_senders s !! t = Some (AtEvict attempt m) → evicts m = true;
}.

(** The bound on priority bursts, and the end of the loop. *)
Record batcher_ok (s : mail) : Prop := {
  bt_burst : ml_nil s QBulk = true ∨ (ml_burst s <= messagePriorityBurst)%nat;
  bt_spare : ml_at s = AtPriority ∨ ml_at s = Waiting → ml_nil s QBulk = true ∨ (ml_burst s < messagePriorityBurst)%nat;
  bt_ended : ml_at s = Ended → ml_batch s = [] ∧ ∀ q, ml_nil s q = true;
}.

Lemma upd_eq {A} (f : queue → A) q a : upd f q a q = a.
Proof using Type. unfold upd. by rewrite decide_True. Qed.

Lemma upd_ne {A} (f : queue → A) q q' a : q' ≠ q → upd f q a q' = f q'.
Proof using Type. unfold upd. intros. by rewrite decide_False. Qed.

Lemma from_queue_app q l l' : from_queue q (l ++ l') = from_queue q l ++ from_queue q l'.
Proof using Type. apply filter_app. Qed.

Lemma kept_app l l' : kept (l ++ l') = kept l ++ kept l'.
Proof using Type. unfold kept. by rewrite filter_app, fmap_app. Qed.

Lemma state_not_evicting m : evicts m = true → queue_of m ≠ QState.
Proof using Type. unfold evicts, queue_of. by destruct (classOfMessage m). Qed.

Lemma taken_flush s : taken (flush s) = taken s.
Proof using Type.
  unfold taken, flush. destruct (ml_batch s) as [|m batch] eqn:E; cbn [ml_sent ml_batch]; [by rewrite E|].
  rewrite concat_app. cbn. by rewrite !app_nil_r.
Qed.

Lemma flush_frame s : ml_items (flush s) = ml_items s ∧ ml_closed (flush s) = ml_closed s ∧ ml_senders (flush s) = ml_senders s ∧
  ml_nil (flush s) = ml_nil s ∧ ml_burst (flush s) = ml_burst s ∧ ml_put (flush s) = ml_put s ∧ ml_out (flush s) = ml_out s ∧
  ml_at (flush s) = ml_at s ∧ ml_batch (flush s) = [].
Proof using Type. unfold flush. destruct (ml_batch s) eqn:E; cbn; rewrite ?E; done. Qed.

(** Flushing a batch that may be full. *)
Lemma flush_sent s : (length (ml_batch s) <= messageBatchSize)%nat →
  Forall (λ b, (0 < length b <= messageBatchSize)%nat) (ml_sent s) →
  Forall (λ b, (0 < length b <= messageBatchSize)%nat) (ml_sent (flush s)).
Proof using Type.
  intros Hb Hs. unfold flush. destruct (ml_batch s) as [|m batch]; [done|]. cbn [ml_sent].
  apply Forall_app. split; [done|]. apply Forall_singleton. cbn in *. lia.
Qed.

Lemma flush_ok most s : (most <= messageBatchSize)%nat → books_ok most s → books_ok 31 (flush s).
Proof using Type.
  intros Hmost Hs. pose proof (taken_flush s) as Ht.
  pose proof (flush_sent s ltac:(pose proof (bk_batch _ _ Hs); lia) (bk_sent _ _ Hs)).
  destruct (flush_frame s) as (E1 & E2 & E3 & E4 & _ & E6 & E7 & _ & E9). destruct Hs.
  split; rewrite ?Ht, ?E1, ?E2, ?E3, ?E4, ?E6, ?E7, ?E9; try done. cbn. lia.
Qed.

Lemma put_ok s m s' : books_ok 31 s → ml_closed s (queue_of m) = false → try_put s m = Some s' → books_ok 31 s'.
Proof using Type.
  intros Hs Hopen. unfold try_put. case_if; [|done]. apply Nat.ltb_lt in E. intros [= <-].
  destruct Hs as [H1 H2 H3 H4 H5 H6 H7 H8 H9 H10]. split; cbn; try done.
  - intros q. destruct (decide (q = queue_of m)) as [->|Hne]; [|by rewrite !upd_ne].
    by rewrite !upd_eq, H1, app_assoc.
  - intros q. destruct (decide (q = queue_of m)) as [->|Hne]; [rewrite upd_eq, length_app; cbn; lia | by rewrite upd_ne].
  - intros q. destruct (decide (q = queue_of m)) as [->|Hne]; [|by rewrite upd_ne].
    rewrite upd_eq. apply Forall_app. split; [done | by apply Forall_singleton].
  - intros q Hq. destruct (H9 q Hq). rewrite upd_ne by (intros ->; congruence). by split.
Qed.

Lemma evict_ok s q : books_ok 31 s → q ≠ QState → books_ok 31 (evict_oldest s q).
Proof using Type.
  intros Hs Hq. unfold evict_oldest. destruct (ml_items s q) as [|old rest] eqn:E; [done|].
  destruct Hs as [H1 H2 H3 H4 H5 H6 H7 H8 H9 H10]. split; cbn; try done.
  - intros q'. destruct (decide (q' = q)) as [->|Hne]; [|by rewrite !upd_ne].
    rewrite !upd_eq, H1, E, fmap_app, <- app_assoc. done.
  - intros q'. destruct (decide (q' = q)) as [->|Hne]; [|by rewrite upd_ne, <- H2].
    rewrite upd_eq, kept_app, <- H2. unfold kept. cbn. by rewrite app_nil_r.
  - by rewrite upd_ne.
  - intros q'. destruct (decide (q' = q)) as [->|Hne]; [|by rewrite upd_ne]. rewrite upd_eq.
    specialize (H4 q). rewrite E in H4. cbn in H4. lia.
  - intros q'. destruct (decide (q' = q)) as [->|Hne]; [|by rewrite upd_ne]. rewrite upd_eq.
    specialize (H5 q). rewrite E in H5. by apply Forall_cons in H5 as [_ H5].
  - intros q' Hn. destruct (H9 q' Hn) as [Hc Hi]. rewrite upd_ne by (intros ->; congruence). by split.
Qed.

Lemma take_ok s q m rest : books_ok 31 s → ml_items s q = m :: rest →
  books_ok 31 (take_message {| s with ml_items := upd (ml_items s) q rest; ml_out := upd (ml_out s) q (ml_out s q ++ [(m, true)]) |} m).
Proof using Type.
  intros Hs E. unfold take_message. cbn [ml_batch ml_items ml_closed ml_senders ml_at ml_nil ml_burst ml_sent ml_put ml_out].
  set (s1 := Build_mail _ _ _ _ _ _ _ _ _ _ _).
  assert (books_ok messageBatchSize s1) as Hs1.
  { destruct Hs as [H1 H2 H3 H4 H5 H6 H7 H8 H9 H10]. pose proof (Forall_inv (eq_ind _ _ (H5 q) _ E)) as Hm. split; cbn; try done.
    - intros q'. destruct (decide (q' = q)) as [->|Hne]; [|by rewrite !upd_ne].
      rewrite !upd_eq, H1, E, fmap_app, <- app_assoc. done.
    - intros q'. unfold taken. cbn [ml_sent ml_batch s1]. rewrite app_assoc, from_queue_app. fold (taken s).
      rewrite H2. destruct (decide (q' = q)) as [->|Hne].
      + rewrite upd_eq, kept_app. f_equal. unfold from_queue. by rewrite filter_cons_True.
      + rewrite upd_ne by done. unfold from_queue. rewrite filter_cons_False by congruence. by rewrite app_nil_r.
    - unfold upd. case_decide; [|done]. subst q. apply Forall_app. split; [done | by apply Forall_singleton].
    - intros q'. destruct (decide (q' = q)) as [->|Hne]; [|by rewrite upd_ne]. rewrite upd_eq.
      specialize (H4 q). rewrite E in H4. cbn in H4. lia.
    - intros q'. destruct (decide (q' = q)) as [->|Hne]; [|by rewrite upd_ne]. rewrite upd_eq.
      specialize (H5 q). rewrite E in H5. by apply Forall_cons in H5 as [_ H5].
    - rewrite length_app. cbn. unfold messageBatchSize. lia.
    - intros q' Hn'. destruct (H9 q' Hn') as [Hc Hi]. rewrite upd_ne by (intros ->; congruence). by split. }
  case_if.
  - by apply (flush_ok messageBatchSize).
  - apply Nat.leb_gt in E0. unfold messageBatchSize in E0. destruct Hs1. split; try done.
    apply Nat.lt_succ_r. exact E0.
Qed.

(** What a receive leaves as it was. *)
Lemma receive_ok s q s' got : books_ok 31 s → receive s q = Some (s', got) →
  books_ok 31 s' ∧ ml_burst s' = ml_burst s ∧ ml_senders s' = ml_senders s ∧ ml_closed s' = ml_closed s ∧
  (ml_nil s QBulk = true → ml_nil s' QBulk = true).
Proof using Type.
  intros Hs. unfold receive. destruct (ml_nil s q) eqn:En; [done|]. destruct (ml_items s q) as [|m rest] eqn:E.
  - destruct (ml_closed s q) eqn:Ec; [|done]. intros [= <- <-]. split; [|split_and!; try done].
    + destruct Hs as [H1 H2 H3 H4 H5 H6 H7 H8 H9 H10]. split; cbn; try done.
      intros q'. destruct (decide (q' = q)) as [->|Hne]; [done | rewrite upd_ne by done; apply H9].
    + intros Hn. cbn. unfold upd. by case_decide.
  - intros [= <- <-]. split; [by apply take_ok|]. unfold take_message.
    case_if; [|done]. destruct (flush_frame (Build_mail (upd (ml_items s) q rest) (ml_closed s) (ml_senders s) (ml_at s) (ml_nil s)
      (ml_batch s ++ [m]) true (ml_burst s) (ml_sent s) (ml_put s) (upd (ml_out s) q (ml_out s q ++ [(m, true)]))))
      as (_ & E2 & E3 & E4 & E5 & _). cbn in *. by rewrite E2, E3, E4, E5.
Qed.

(** Moving on, changing the burst, or a sender, leaves the books alone. *)
Lemma books_ok_same s s' : books_ok 31 s → ml_items s' = ml_items s → ml_closed s' = ml_closed s → ml_nil s' = ml_nil s →
  ml_batch s' = ml_batch s → ml_deadline s' = ml_deadline s → ml_sent s' = ml_sent s → ml_put s' = ml_put s → ml_out s' = ml_out s →
  (∀ t attempt m, ml_senders s' !! t = Some (AtEvict attempt m) → evicts m = true) → books_ok 31 s'.
Proof using Type.
  intros [H1 H2 H3 H4 H5 H6 H7 H8 H9 H10] E1 E2 E3 E4 E5 E6 E7 E8 He.
  assert (taken s' = taken s) as Et by (unfold taken; by rewrite E4, E6).
  split; rewrite ?Et, ?E1, ?E2, ?E3, ?E4, ?E5, ?E6, ?E7, ?E8; done.
Qed.

Lemma goto_ok s pc : books_ok 31 s → books_ok 31 (goto s pc).
Proof using Type. intros Hs. apply (books_ok_same s); try done. apply Hs. Qed.

Lemma set_burst_ok s n : books_ok 31 s → books_ok 31 (set_burst s n).
Proof using Type. intros Hs. apply (books_ok_same s); try done. apply Hs. Qed.

Lemma sender_step_ok s t pc : books_ok 31 s → ml_senders s !! t = Some pc →
  (∀ q, sender_queue pc = Some q → ml_closed s q = false) →
  let s' := {| (sender_step s pc).1 with ml_senders := <[t := (sender_step s pc).2]> (ml_senders s) |} in books_ok 31 s'.
Proof using Type.
  intros Hs Ht Hopen s'.
  assert (Hevict : ∀ pc', (∀ attempt m, pc' = AtEvict attempt m → evicts m = true) →
    ∀ t' attempt m, <[t := pc']> (ml_senders s) !! t' = Some (AtEvict attempt m) → evicts m = true).
  { intros pc' Hpc t' attempt m [[_ ->]|[_ Hl]]%lookup_insert_Some; [by eapply Hpc | by eapply Hs]. }
  subst s'. destruct pc as [attempt m|attempt m|queued]; cbn [sender_step].
  - destruct (try_put s m) as [s1|] eqn:E.
    + apply (books_ok_same s1); try done; [eapply put_ok; [exact Hs | by apply Hopen | done]|]. by apply Hevict.
    + apply (books_ok_same s); try done. apply Hevict. destruct (evicts m) eqn:Ee; [|done]. intros ? ? [= <- <-]. done.
  - apply (books_ok_same (evict_oldest s (queue_of m))); try done.
    + apply evict_ok; [done|]. apply state_not_evicting. by eapply (bk_evictors _ _ Hs).
    + apply Hevict. by case_if.
  - apply (books_ok_same s); try done. by apply Hevict.
Qed.

(** A sender touches nothing of the batcher's but the channels. *)
Lemma sender_step_frame s pc : let s' := (sender_step s pc).1 in
  ml_at s' = ml_at s ∧ ml_nil s' = ml_nil s ∧ ml_burst s' = ml_burst s ∧ ml_batch s' = ml_batch s.
Proof using Type.
  destruct pc as [attempt m|attempt m|queued]; cbn [sender_step]; [| |done].
  - unfold try_put. destruct (length (ml_items s (queue_of m)) <? messageQueueSize)%nat; done.
  - cbn [fst]. unfold evict_oldest. destruct (ml_items s (queue_of m)); done.
Qed.

Lemma batcher_ok_head s : ml_nil s QBulk = true ∨ (ml_burst s <= messagePriorityBurst)%nat → batcher_ok (goto s AtHead).
Proof using Type. intros Hb. split; cbn; [done | by intros [|] | done]. Qed.

Lemma take_priority_ok r : books_ok 31 r.1 → books_ok 31 (take_priority r).
Proof using Type. intros Hr. unfold take_priority. destruct r.2; [by apply set_burst_ok | done]. Qed.

Lemma take_priority_burst s r : receive s QPriority = Some r → books_ok 31 s →
  (ml_nil s QBulk = true ∨ (ml_burst s < messagePriorityBurst)%nat) →
  ml_nil (take_priority r) QBulk = true ∨ (ml_burst (take_priority r) <= messagePriorityBurst)%nat.
Proof using Type.
  intros E Hs Hb. destruct r as [s' got]. destruct (receive_ok s _ s' got Hs E) as (_ & Hburst & _ & _ & Hnil).
  unfold take_priority. cbn. destruct Hb as [Hb|Hb]; [left; destruct got; cbn; auto | right; destruct got; cbn; lia].
Qed.

Lemma batcher_step_ok s choice s' : books_ok 31 s → batcher_ok s → batcher_step s choice = Some s' →
  books_ok 31 s' ∧ batcher_ok s'.
Proof using Type.
  intros Hs [Hb Hsp He]. unfold batcher_step. destruct (ml_at s) eqn:Ea.
  - case_if; [|destruct (receive s QState) as [[s1 got]|] eqn:Er]; intros [= <-].
    + apply andb_true_iff in E as [[H1 H2]%andb_true_iff H3]. split.
      * apply goto_ok. apply (flush_ok 31); [unfold messageBatchSize; lia | done].
      * destruct (flush_frame s) as (_ & _ & _ & E4 & E5 & _ & _ & _ & E9).
        split; cbn; rewrite ?E4, ?E5, ?E9; [done | by intros [|] | intros _; split; [done|]; by intros []].
    + destruct (receive_ok _ _ _ _ Hs Er) as (H1 & H2 & _ & _ & H5). split; [by apply goto_ok|].
      apply batcher_ok_head. rewrite H2. destruct Hb; auto.
    + split; [by apply goto_ok|]. destruct (ml_nil s QBulk) eqn:En; [rewrite andb_false_r | rewrite andb_true_r].
      * split; cbn; [by left | by left | done].
      * destruct Hb as [Hb|Hb]; [congruence|]. case_if; split; cbn; try done; [by right | by intros [|] | by right |].
        intros _. right. by apply Nat.leb_gt.
  - destruct (receive (set_burst s 0) QBulk) as [[s1 got]|] eqn:Er; intros [= <-].
    + destruct (receive_ok _ _ _ _ (set_burst_ok s 0 Hs) Er) as (H1 & H2 & _). split; [by apply goto_ok|].
      apply batcher_ok_head. right. rewrite H2. cbn. lia.
    + split; [by apply goto_ok, set_burst_ok|]. split; [right; apply Nat.le_0_l | intros _; right; apply Nat.lt_0_succ | done].
  - specialize (Hsp (or_introl eq_refl)). destruct (receive s QPriority) as [r|] eqn:Er; intros [= <-].
    + pose proof (take_priority_burst _ _ Er Hs Hsp). destruct r as [s1 got].
      destruct (receive_ok _ _ _ _ Hs Er) as (H1 & _). split; [by apply goto_ok, take_priority_ok | by apply batcher_ok_head].
    + split; [by apply goto_ok|]. split; cbn; [done | done | done].
  - specialize (Hsp (or_intror eq_refl)). destruct choice as [[]|].
    + destruct (receive s QState) as [[s1 got]|] eqn:Er; [|done]. intros [= <-].
      destruct (receive_ok _ _ _ _ Hs Er) as (H1 & H2 & _ & _ & H5). split; [by apply goto_ok|].
      apply batcher_ok_head. rewrite H2. destruct Hb; auto.
    + destruct (receive s QPriority) as [r|] eqn:Er; [|done]. intros [= <-].
      pose proof (take_priority_burst _ _ Er Hs Hsp). destruct r as [s1 got].
      destruct (receive_ok _ _ _ _ Hs Er) as (H1 & _). split; [by apply goto_ok, take_priority_ok | by apply batcher_ok_head].
    + destruct (receive s QBulk) as [[s1 got]|] eqn:Er; [|done]. intros [= <-].
      destruct (receive_ok _ _ _ _ Hs Er) as (H1 & _). split; [by apply goto_ok, set_burst_ok|].
      apply batcher_ok_head. right. cbn. lia.
    + case_if; [|done]. intros [= <-]. destruct (flush_frame s) as (_ & _ & _ & E4 & E5 & _). split.
      * apply goto_ok, (flush_ok 31); [unfold messageBatchSize; lia | done].
      * apply batcher_ok_head. by rewrite E4, E5.
  - done.
Qed.

Lemma new_mail_ok : books_ok 31 new_mail ∧ batcher_ok new_mail.
Proof using Type.
  split.
  - split; cbn; try done; try lia; intros; constructor || (unfold messageQueueSize; lia).
  - split; [right; apply Nat.le_0_l | by intros [|] | done].
Qed.

(** Of the channels a receive takes from the one it names only. *)
Lemma receive_kept s q s' got q' : receive s q = Some (s', got) → ml_at s' = ml_at s ∧
  length (kept (ml_out s' q')) = (length (kept (ml_out s q')) + if got && bool_decide (q' = q) then 1 else 0)%nat.
Proof using Type.
  unfold receive. destruct (ml_nil s q); [done|]. destruct (ml_items s q) as [|m rest].
  - destruct (ml_closed s q); [|done]. intros [= <- <-]. cbn. split; [done | lia].
  - intros [= <- <-]. unfold take_message. set (s1 := {| ml_items := _; ml_batch := _ ++ [m] |}).
    assert (Hout : ∀ s2, s2 = flush s1 ∨ s2 = s1 → ml_at s2 = ml_at s ∧ ml_out s2 = upd (ml_out s) q (ml_out s q ++ [(m, true)])).
    { intros s2 [-> | ->]; [|done]. destruct (flush_frame s1) as (_ & _ & _ & _ & _ & _ & E & E' & _). by rewrite E, E'. }
    destruct (Hout (if (messageBatchSize <=? length (ml_batch s1))%nat then flush s1 else s1)) as [E1 E2]; [case_if; auto|].
    rewrite E1, E2. split; [done|]. cbn. case_bool_decide as Hq; [subst; rewrite upd_eq, kept_app, length_app; done|].
    rewrite upd_ne by done. lia.
Qed.

Lemma receive_none s q s' : receive s q = Some (s', false) → ml_closed s q = true ∧ ml_nil s' q = true.
Proof using Type.
  unfold receive. destruct (ml_nil s q); [done|]. destruct (ml_items s q); [|done]. destruct (ml_closed s q); [|done].
  intros [= <-]. cbn. by rewrite upd_eq.
Qed.

Lemma goto_out s pc : ml_out (goto s pc) = ml_out s.
Proof using Type. done. Qed.

Lemma batcher_ahead s n choice s' : books_ok 31 s → batcher_step s choice = Some s' → ml_nil s QBulk = true ∨ n = ml_burst s →
  ml_nil s' QBulk = true ∨ ahead n s s' = ml_burst s'.
Proof using Type.
  intros Hs E Hn. assert (Hnil : ∀ q s1 got, receive s q = Some (s1, got) → ml_nil s QBulk = true → ml_nil s1 QBulk = true).
  { intros q s1 got Hr. by apply (receive_ok _ _ _ _ Hs Hr). }
  assert (Hb : ∀ q s1 got, receive s q = Some (s1, got) → ml_burst s1 = ml_burst s) by (intros q s1 got Hr; by apply (receive_ok _ _ _ _ Hs Hr)).
  unfold ahead, batcher_step in *. destruct (ml_at s) eqn:Ea.
  - destruct (ml_nil s QState && ml_nil s QPriority && ml_nil s QBulk); [injection E as <-|].
    { destruct (flush_frame s) as (_ & _ & _ & E4 & E5 & _ & E7 & _ & _). rewrite goto_out, E7, !Nat.ltb_irrefl. cbn. by rewrite E4, E5. }
    destruct (receive s QState) as [[s1 got]|] eqn:Er; injection E as <-.
    + rewrite goto_out. destruct (receive_kept _ _ _ _ QBulk Er) as [_ ->], (receive_kept _ _ _ _ QPriority Er) as [_ ->].
      rewrite !bool_decide_false, !andb_false_r, !Nat.add_0_r, !Nat.ltb_irrefl by done. cbn. rewrite (Hb _ _ _ Er).
      destruct Hn as [Hn|Hn]; [left; exact (Hnil _ _ _ Er Hn) | by right].
    + rewrite goto_out, !Nat.ltb_irrefl. done.
  - destruct (receive (set_burst s 0) QBulk) as [[s1 got]|] eqn:Er; injection E as <-; right; [|done].
    destruct (receive_ok _ _ _ _ (set_burst_ok s 0 Hs) Er) as (_ & E & _). cbn. by rewrite E.
  - destruct (receive s QPriority) as [[s1 got]|] eqn:Er; injection E as <-; [|rewrite goto_out, !Nat.ltb_irrefl; done].
    rewrite goto_out. assert (Ht : ml_out (take_priority (s1, got)) = ml_out s1) by (by destruct got).
    rewrite Ht. destruct (receive_kept _ _ _ _ QBulk Er) as [_ ->], (receive_kept _ _ _ _ QPriority Er) as [_ ->].
    rewrite bool_decide_false, andb_false_r, Nat.add_0_r, Nat.ltb_irrefl, bool_decide_true, andb_true_r by done.
    destruct Hn as [Hn|Hn]; [left; destruct got; exact (Hnil _ _ _ Er Hn)|]. right.
    destruct got; [rewrite (proj2 (Nat.ltb_lt _ _)) by lia | rewrite Nat.add_0_r, Nat.ltb_irrefl]; cbn; by rewrite (Hb _ _ _ Er), Hn.
  - destruct choice as [[]|].
    + destruct (receive s QState) as [[s1 got]|] eqn:Er; [|done]. injection E as <-.
      rewrite goto_out. destruct (receive_kept _ _ _ _ QBulk Er) as [_ ->], (receive_kept _ _ _ _ QPriority Er) as [_ ->].
      rewrite !bool_decide_false, !andb_false_r, !Nat.add_0_r, !Nat.ltb_irrefl by done. cbn. rewrite (Hb _ _ _ Er).
      destruct Hn as [Hn|Hn]; [left; exact (Hnil _ _ _ Er Hn) | by right].
    + destruct (receive s QPriority) as [[s1 got]|] eqn:Er; [|done]. injection E as <-.
      rewrite goto_out. assert (Ht : ml_out (take_priority (s1, got)) = ml_out s1) by (by destruct got).
      rewrite Ht. destruct (receive_kept _ _ _ _ QBulk Er) as [_ ->], (receive_kept _ _ _ _ QPriority Er) as [_ ->].
      rewrite bool_decide_false, andb_false_r, Nat.add_0_r, Nat.ltb_irrefl, bool_decide_true, andb_true_r by done.
      destruct Hn as [Hn|Hn]; [left; destruct got; exact (Hnil _ _ _ Er Hn)|]. right.
      destruct got; [rewrite (proj2 (Nat.ltb_lt _ _)) by lia | rewrite Nat.add_0_r, Nat.ltb_irrefl]; cbn; by rewrite (Hb _ _ _ Er), Hn.
    + destruct (receive s QBulk) as [[s1 got]|] eqn:Er; [|done]. injection E as <-. rewrite goto_out. cbn [set_burst ml_out ml_burst].
      destruct (receive_kept _ _ _ _ QBulk Er) as [_ ->], (receive_kept _ _ _ _ QPriority Er) as [_ ->].
      rewrite bool_decide_true, andb_true_r, (bool_decide_false (QPriority = QBulk)), andb_false_r, Nat.add_0_r, Nat.ltb_irrefl by done.
      destruct got; [right; by rewrite (proj2 (Nat.ltb_lt _ _)) by lia|]. left.
      destruct (receive_none _ _ _ Er) as [_ ?]. done.
    + destruct (ml_deadline s); [|done]. injection E as <-.
      destruct (flush_frame s) as (_ & _ & _ & E4 & E5 & _ & E7 & _ & _). rewrite goto_out, E7, !Nat.ltb_irrefl. cbn. by rewrite E4, E5.
  - done.
Qed.

Lemma mail_reachable_ok s n : mail_reachable s n → books_ok 31 s ∧ batcher_ok s ∧ (ml_nil s QBulk = true ∨ n = ml_burst s).
Proof using Type.
  induction 1 as [|s n t m _ (Hs & Hb & Hn) Ht|s n t pc _ (Hs & Hb & Hn) Ht Hopen|s n choice s' _ (Hs & Hb & Hn) E|s n q _ (Hs & Hb & Hn)].
  - destruct new_mail_ok. split_and!; [done | done | by right].
  - split_and!; [| by destruct Hb | done]. apply (books_ok_same s); try done.
    intros t' attempt m'. cbn. intros [[_ ?]|[_ Hl]]%lookup_insert_Some; [done | by eapply Hs].
  - destruct (sender_step_frame s pc) as (E1 & E2 & E3 & E4). split_and!; [by apply sender_step_ok | | cbn; by rewrite E2, E3].
    destruct Hb as [H1 H2 H3]. split; cbn; by rewrite ?E1, ?E2, ?E3, ?E4.
  - destruct (batcher_step_ok _ _ _ Hs Hb E). split_and!; [done | done | by eapply batcher_ahead].
  - split_and!; [| by destruct Hb | done]. destruct Hs as [H1 H2 H3 H4 H5 H6 H7 H8 H9 H10]. split; cbn; try done.
    intros q' Hq. destruct (H9 q' Hq) as [Hc Hi]. split; [|done]. unfold upd. by case_decide.
Qed.

(** C35: what the interface hears. However senders and the batcher interleave:
    each channel hands on its messages in the order they were accepted, once,
    and what is neither delivered, in the batch nor still in the channel was
    pushed out by a sender; of the state messages none is ever pushed out, so
    all that were accepted arrive. Batches hold one to thirty-two messages, a
    started batch always has its timer armed, a channel never holds more than
    it may, and no more than eight priority messages are taken before the bulk
    messages have a turn. When the batcher ends, nothing is left behind. *)
Theorem messages_delivered s n : mail_reachable s n →
  (∀ q, ∃ out, ml_put s q = out.*1 ++ ml_items s q ∧ from_queue q (concat (ml_sent s) ++ ml_batch s) = kept out) ∧
  ml_put s QState = from_queue QState (concat (ml_sent s) ++ ml_batch s) ++ ml_items s QState ∧
  Forall (λ b, (0 < length b <= messageBatchSize)%nat) (ml_sent s) ∧
  (length (ml_batch s) < messageBatchSize)%nat ∧ (ml_batch s ≠ [] → ml_deadline s = true) ∧
  (∀ q, (length (ml_items s q) <= messageQueueSize)%nat) ∧
  (ml_nil s QBulk = false → (ml_burst s <= messagePriorityBurst)%nat ∧ (n <= messagePriorityBurst)%nat) ∧
  (ml_at s = Ended → ml_batch s = [] ∧ ∀ q, ml_closed s q = true ∧ ml_items s q = []).
Proof using Type.
  intros (Hs & Hb & Hahead)%mail_reachable_ok. split_and!.
  - intros q. exists (ml_out s q). split; apply Hs.
  - rewrite (bk_fifo _ _ Hs). f_equal. change (concat (ml_sent s) ++ ml_batch s) with (taken s).
    rewrite (bk_taken _ _ Hs). unfold kept. f_equal. symmetry. apply list_filter_all, Hs.
  - apply Hs.
  - apply Nat.lt_succ_r, Hs.
  - apply Hs.
  - apply Hs.
  - intros Hn. destruct Hahead as [?| ->]; [congruence|]. destruct (bt_burst _ Hb); [congruence | done].
  - intros He. destruct (bt_ended _ Hb He) as [H1 H2]. split; [done|]. intros q. by apply (bk_nil _ _ Hs).
Qed.
End messages.

(** ** A run *)

Definition log_message (n : nat) : @Message nat := {| ms_Type := "log"; ms_Data := n |}.
Definition loaded_message (n : nat) : @Message nat := {| ms_Type := "loaded"; ms_Data := n |}.

Definition begin_send (s : mail) (t : nat) (m : @Message nat) : mail := {| s with ml_senders := <[t := AtPut 0 m]> (ml_senders s) |}.
Definition run_sender (s : mail) (t : nat) (m : @Message nat) : mail :=
  let r := sender_step s (AtPut 0 m) in {| (fst r) with ml_senders := <[t := r.2]> (ml_senders s) |}.
Definition next (s : @mail nat) (w : wake) : mail := default s (batcher_step s w).

(** Two messages sent; the batcher takes both, and its timer fires. *)
Definition two_messages : mail :=
  let s := run_sender (begin_send new_mail 0 (log_message 1)) 0 (log_message 1) in
  let s := run_sender (begin_send s 1 (loaded_message 2)) 1 (loaded_message 2) in
  foldl next s [Deadline; Deadline; Deadline; Got QBulk; Deadline; Deadline; Deadline; Deadline].

Lemma next_reachable ws : ∀ (s : @mail nat) n, mail_reachable s n → ∃ n', mail_reachable (foldl next s ws) n'.
Proof.
  induction ws as [|w ws IH]; intros s n Hs; cbn; [by exists n|]. unfold next at 2.
  destruct (batcher_step s w) eqn:E; cbn; [eapply IH; by eapply mail_batch | by eapply IH].
Qed.

Lemma two_messages_reachable : ∃ n, mail_reachable two_messages n.
Proof.
  apply (next_reachable _ _ 0%nat). apply (mail_sender _ _ 1 (AtPut 0 (loaded_message 2))); [|vm_compute; reflexivity | by intros q [= <-]].
  apply (mail_send _ _ 1); [|vm_compute; reflexivity].
  apply (mail_sender _ _ 0 (AtPut 0 (log_message 1))); [|vm_compute; reflexivity | by intros q [= <-]].
  apply (mail_send _ _ 0); [constructor | reflexivity].
Qed.

Lemma messages_delivered_witness :
  ml_put two_messages QState = from_queue QState (concat (ml_sent two_messages) ++ ml_batch two_messages) ++ ml_items two_messages QState ∧
  ml_sent two_messages = [[loaded_message 2; log_message 1]].
Proof.
  destruct two_messages_reachable as [n Hn]. destruct (messages_delivered two_messages n Hn) as (_ & Hstate & _).
  split; [exact Hstate | vm_compute; reflexivity].
Defined.
