(* ===== verification/RouteInject.v ===== *)
(** * Routes in front of the config's rules: core/rcx_routes.go

    The scenario's routes are injected into the config as read: a select
    group for each route without a target, its rules ahead of all others.
    What mihomo rejects is dropped with the reason and the parse retried. *)

From S2P Require Import Prelude GoText Journal Profile Route Machine.

(** A value of the untyped config: what the code looks at, and the rest. *)
Inductive value (other : Type) := VString (s : string) | VBool (b : bool) | VOther (o : other).
Arguments VString {other}.
Arguments VBool {other}.
Arguments VOther {other}.

(** mihomo's [RawConfig], of which the code reads four fields, and its
    parser. [parse_config] is [config.ParseRawConfig], with the text of its
    error, and [withPlatformLimits] comes after it. *)
Class Configs := {
  other : Type;
  rest : Type;
  config : Type;
}.

Record rawConfig `{Configs} := {
  rw_Proxy : list (gmap string (value other));
  rw_ProxyGroup : list (gmap string (value other));
  rw_Rule : list string;
  rw_RuleProvider : gset string;
  rw_rest : rest;
}.

Class ConfigParser `{Configs} := {
  ParseRawConfig : rawConfig → result string config;
  withPlatformLimits : config → config;
}.

Definition builtinTargets : list string := ["DIRECT"; "REJECT"; "REJECT-DROP"; "PASS"; "COMPATIBLE"; "GLOBAL"]%string.

Section inject.
Context `{Unicode} `{Netip} `{ConfigParser}.

#[local] Notation mapping := (gmap string (value other)).

Definition name_of (m : mapping) : option string :=
  match m !! "name"%string with Some (VString s) => Some s | _ => None end.

Definition select_group (name : string) : mapping :=
  {[ "name"%string := VString name; "type"%string := VString "select"; "include-all"%string := VBool true ]}.

(** One attempt: the config with the routes still in, the route each
    injected rule belongs to, and the injected groups. *)
Record routedConfig := {
  tr_raw : rawConfig;
  tr_ruleOwners : list string;
  tr_groups : list string;
}.

(** The names a config defines, and mihomo with it. *)
Definition taken_names (raw : rawConfig) : gset string :=
  list_to_set (builtinTargets ++ omap name_of (rw_Proxy raw) ++ omap name_of (rw_ProxyGroup raw)).

Definition rt_To (route : Route) : string := pg_To (rt_Program route).

(** What a route may send to: those, and the groups of the other routes. *)
Definition route_targets (taken : gset string) (routes : list Route) (dropped : gset string) : gset string :=
  foldl (λ targets route,
    if empty (rt_To route) && negb (bool_decide (rt_Name route ∈ dropped)) && negb (bool_decide (rt_Name route ∈ taken))
    then {[ rt_Name route ]} ∪ targets else targets) taken routes.

(** The entries that parse, unless one names a rule set the config lacks. *)
Fixpoint routeMatches (entries : list string) (providers : gset string) : result string (list RouteMatch) :=
  match entries with
  | [] => Ok []
  | entry :: entries =>
      match ParseRouteMatch entry with
      | Err _ => routeMatches entries providers
      | Ok m =>
          if eqs (rm_Type m) "RULE-SET" && negb (bool_decide (rm_Payload m ∈ providers)) then Err (rm_Payload m)
          else match routeMatches entries providers with Ok ms => Ok (m :: ms) | Err missing => Err missing end
      end
  end.

Definition routeInvalid (route message : string) : Reason :=
  reason "route.invalid" [("route", ArgString route); ("error", ArgString message)]%string.

(** Why a route stays out of an attempt, or what it injects. *)
Inductive outcome := Dropped | Problem (why : Reason) | Injected (group : option string) (matches : list RouteMatch) (target : string).

Definition route_outcome (raw : rawConfig) (taken targets dropped : gset string) (route : Route) : outcome :=
  if bool_decide (rt_Name route ∈ dropped) then Dropped
  else if empty (rt_To route) && bool_decide (rt_Name route ∈ taken)
  then Problem (reason "route.name-taken" [("route", ArgString (rt_Name route))]%string)
  else if negb (empty (rt_To route)) && negb (bool_decide (rt_To route ∈ targets))
  then Problem (reason "route.to-missing" [("route", ArgString (rt_Name route)); ("to", ArgString (rt_To route))]%string)
  else match routeMatches (rt_Match route) (rw_RuleProvider raw) with
       | Err missing => Problem (routeInvalid (rt_Name route) ("rule set " +:+ missing +:+ " is not in the config"))
       | Ok matches =>
           if empty (rt_To route) then Injected (Some (rt_Name route)) matches (rt_Name route)
           else Injected None matches (rt_To route)
       end.

(** One turn of the loop over the routes, which collects the rules. *)
Definition inject_one (raw : rawConfig) (taken targets dropped : gset string) (st : routedConfig * list string * gmap string Reason)
    (route : Route) : routedConfig * list string * gmap string Reason :=
  let '(out, rules, problems) := st in
  match route_outcome raw taken targets dropped route with
  | Dropped => st
  | Problem why => (out, rules, <[rt_Name route := why]> problems)
  | Injected group matches target =>
      let cfg := tr_raw out in
      ({| tr_raw := {| cfg with rw_ProxyGroup := rw_ProxyGroup cfg ++ (select_group <$> option_list group) |};
          tr_ruleOwners := tr_ruleOwners out ++ ((λ _, rt_Name route) <$> matches);
          tr_groups := tr_groups out ++ option_list group |},
       rules ++ ((λ m, match_rule m target) <$> matches), problems)
  end.

Definition injectRoutes (raw : rawConfig) (routes : list Route) (dropped : gset string) (problems : gmap string Reason)
    : routedConfig * gmap string Reason :=
  let out := {| tr_raw := raw; tr_ruleOwners := []; tr_groups := [] |} in
  match routes with
  | [] => (out, problems)
  | _ =>
      let taken := taken_names raw in
      let targets := route_targets taken routes dropped in
      let '(out, rules, problems) := foldl (inject_one raw taken targets dropped) (out, [], problems) routes in
      let cfg := tr_raw out in
      ({| out with tr_raw := {| cfg with rw_Rule := rules ++ rw_Rule raw |} |}, problems)
  end.

(** [^rules\[(\d+)\]] and its like: the digits after the prefix. *)
Definition error_index (prefix message : string) : option string :=
  if HasPrefix message prefix then
    let '(digits, _, found) := Cut (string_drop (String.length prefix) message) "]" in
    if found && negb (empty digits) && forallb ascii_digit (bytes_of digits) then Some digits else None
  else None.

(** [Atoi] returns the largest number for one out of range. *)
Definition index_of (digits : string) : Z := default max64 (Atoi digits).

(** [l[i]] behind [i < len(l)]. *)
Definition at_index {A} (l : list A) (i : Z) : option A := if i <? Z.of_nat (length l) then l !! Z.to_nat i else None.

(** The route an error of the parser is about; empty when it is none. *)
Definition owner (t : routedConfig) (message : string) : string :=
  let by_rule := d ← error_index "rules[" message; at_index (tr_ruleOwners t) (index_of d) in
  let by_group := d ← error_index "proxy group[" message; m ← at_index (rw_ProxyGroup (tr_raw t)) (index_of d);
                  let name := default EmptyString (name_of m) in
                  if mem_string name (tr_groups t) then Some name else None in
  match by_rule with Some o => o | None => default EmptyString by_group end.

Definition no_group_or_rule (t : routedConfig) : bool :=
  match tr_groups t, tr_ruleOwners t with [], [] => true | _, _ => false end.

(** The loop; each turn drops a route. [None] is out of fuel. *)
Fixpoint parse_loop (fuel : nat) (raw : rawConfig) (routes : list Route) (dropped : gset string) (problems : gmap string Reason)
    : option (result string config * list string * gmap string Reason) :=
  match fuel with
  | O => None
  | S fuel =>
      let '(trial, problems) := injectRoutes raw routes dropped problems in
      match ParseRawConfig (tr_raw trial) with
      | Ok cfg => Some (Ok (withPlatformLimits cfg), tr_groups trial, problems)
      | Err e =>
          let o := owner trial e in
          if empty o then
            if no_group_or_rule trial then Some (Err e, [], problems)
            else
              let problems := foldl (λ ps route, if bool_decide (is_Some (ps !! rt_Name route)) then ps
                                                 else <[rt_Name route := routeInvalid (rt_Name route) e]> ps) problems routes in
              match ParseRawConfig raw with
              | Err plain => Some (Err plain, [], problems)
              | Ok cfg => Some (Ok (withPlatformLimits cfg), [], problems)
              end
          else parse_loop fuel raw routes ({[ o ]} ∪ dropped) (<[o := routeInvalid o e]> problems)
      end
  end.

Definition parse_fuel (routes : list Route) : nat := S (length routes).

Definition parseRouted (raw : rawConfig) (routes : list Route) (key : string) : option (result string config * AppliedRoutes) :=
  '(cfg, groups, problems) ← parse_loop (parse_fuel routes) raw routes ∅ ∅;
  Some (cfg, {| ar_Applied := true; ar_Key := key; ar_Groups := groups; ar_Problems := problems |}).

(** ** What an attempt injects *)

Section attempt.
Context (raw : rawConfig) (taken targets dropped : gset string).

#[local] Notation outcome_of := (route_outcome raw taken targets dropped).

Definition groups_of (route : Route) : list string :=
  match outcome_of route with Injected group _ _ => option_list group | _ => [] end.
Definition owners_of (route : Route) : list string :=
  match outcome_of route with Injected _ matches _ => (λ _, rt_Name route) <$> matches | _ => [] end.
Definition rules_of (route : Route) : list string :=
  match outcome_of route with Injected _ matches target => (λ m, match_rule m target) <$> matches | _ => [] end.
Definition note_problem (problems : gmap string Reason) (route : Route) : gmap string Reason :=
  match outcome_of route with Problem why => <[rt_Name route := why]> problems | _ => problems end.

Lemma inject_fold routes : ∀ out rules problems,
  foldl (inject_one raw taken targets dropped) (out, rules, problems) routes =
  (let cfg := tr_raw out in
   {| tr_raw := {| cfg with rw_ProxyGroup := rw_ProxyGroup cfg ++ (select_group <$> (routes ≫= groups_of)) |};
      tr_ruleOwners := tr_ruleOwners out ++ (routes ≫= owners_of);
      tr_groups := tr_groups out ++ (routes ≫= groups_of) |},
   rules ++ (routes ≫= rules_of), foldl note_problem problems routes).
Proof using Type.
  induction routes as [|route routes IH]; intros out rules problems; cbn [foldl].
  - cbn. rewrite !app_nil_r. by destruct out as [[]].
  - assert (inject_one raw taken targets dropped (out, rules, problems) route =
      (let cfg := tr_raw out in
       {| tr_raw := {| cfg with rw_ProxyGroup := rw_ProxyGroup cfg ++ (select_group <$> groups_of route) |};
          tr_ruleOwners := tr_ruleOwners out ++ owners_of route; tr_groups := tr_groups out ++ groups_of route |},
       rules ++ rules_of route, note_problem problems route)) as ->.
    { unfold inject_one, groups_of, owners_of, rules_of, note_problem.
      destruct (outcome_of route); cbn; rewrite ?app_nil_r; [by destruct out as [[]] | by destruct out as [[]] | done]. }
    rewrite IH, !bind_cons. cbn. by rewrite fmap_app, !app_assoc.
Qed.

Lemma note_problems_lookup routes : ∀ problems name,
  is_Some (foldl note_problem problems routes !! name) ↔
    is_Some (problems !! name) ∨ ∃ route why, route ∈ routes ∧ rt_Name route = name ∧ outcome_of route = Problem why.
Proof using Type.
  induction routes as [|route routes IH]; intros problems name; cbn [foldl].
  - split; [by left | intros [?|(? & ? & Hr & _)]; [done | by apply not_elem_of_nil in Hr]].
  - rewrite IH. unfold note_problem. split.
    + intros [Hp|(r & why & Hr & Hn & Ho)]; [|right; exists r, why; by rewrite elem_of_cons; auto].
      destruct (outcome_of route) as [|why|] eqn:Eo; [by left| |by left].
      destruct (decide (rt_Name route = name)) as [En|Hne]; [right; exists route, why; by rewrite elem_of_cons; auto|].
      left. by rewrite lookup_insert_ne in Hp.
    + intros [Hp|(r & why & [->|Hr]%elem_of_cons & Hn & Ho)].
      * left. destruct (outcome_of route); [done| |done]. destruct (decide (rt_Name route = name)) as [->|Hne];
          [by rewrite lookup_insert_eq | by rewrite lookup_insert_ne].
      * left. by rewrite Ho, Hn, lookup_insert_eq.
      * right. by exists r, why.
Qed.
End attempt.

Section attempts.
Context (raw : rawConfig) (routes : list Route).

#[local] Notation taken := (taken_names raw).
#[local] Notation targets := (route_targets (taken_names raw) routes).
#[local] Notation outcome_at dropped := (route_outcome raw taken (targets dropped) dropped).

Definition attempt (dropped : gset string) : routedConfig :=
  let all (f : rawConfig → gset string → gset string → gset string → Route → list string) := routes ≫= f raw taken (targets dropped) dropped in
  {| tr_raw := {| raw with rw_ProxyGroup := rw_ProxyGroup raw ++ (select_group <$> all groups_of); rw_Rule := all rules_of ++ rw_Rule raw |};
     tr_ruleOwners := all owners_of; tr_groups := all groups_of |}.

Lemma injectRoutes_eq dropped problems : injectRoutes raw routes dropped problems =
  (attempt dropped, foldl (note_problem raw taken (targets dropped) dropped) problems routes).
Proof using Type.
  unfold injectRoutes, attempt. destruct routes as [|r rs]; [cbn; rewrite app_nil_r; by destruct raw|].
  rewrite inject_fold. reflexivity.
Qed.

Lemma elem_of_targets l (dropped : gset string) (x : string) : ∀ acc : gset string,
  x ∈ foldl (λ targets route,
    if empty (rt_To route) && negb (bool_decide (rt_Name route ∈ dropped)) && negb (bool_decide (rt_Name route ∈ taken))
    then {[ rt_Name route ]} ∪ targets else targets) acc l ↔
  x ∈ acc ∨ ∃ route, route ∈ l ∧ rt_Name route = x ∧ rt_To route = EmptyString ∧ x ∉ dropped ∧ x ∉ taken.
Proof using Type.
  induction l as [|route l IH]; intros acc; cbn [foldl].
  - split; [by left | intros [?|(? & Hr & _)]; [done | by apply not_elem_of_nil in Hr]].
  - rewrite IH. setoid_rewrite elem_of_cons. case_if.
    + apply andb_true_iff in E as [[E1%empty_true E2%negb_true_iff%bool_decide_eq_false]%andb_true_iff E3%negb_true_iff%bool_decide_eq_false].
      rewrite elem_of_union, elem_of_singleton. naive_solver.
    + assert (¬ (rt_To route = EmptyString ∧ rt_Name route ∉ dropped ∧ rt_Name route ∉ taken)) as Hno; [|naive_solver].
      intros (H1' & H2' & H3'). by rewrite H1', !bool_decide_eq_false_2 in E.
Qed.

Lemma elem_of_route_targets dropped x : x ∈ targets dropped ↔
  x ∈ taken ∨ ∃ route, route ∈ routes ∧ rt_Name route = x ∧ rt_To route = EmptyString ∧ x ∉ dropped ∧ x ∉ taken.
Proof using Type. apply elem_of_targets. Qed.

Definition is_problem (o : outcome) : Prop := match o with Problem _ => True | _ => False end.

(** Dropping more routes never brings a route back. *)
Lemma problem_stays dropped dropped' route : dropped ⊆ dropped' → rt_Name route ∉ dropped' →
  is_problem (outcome_at dropped route) → is_problem (outcome_at dropped' route).
Proof using Type.
  intros Hsub Hout. unfold route_outcome. rewrite (bool_decide_eq_false_2 _ Hout), (bool_decide_eq_false_2 (rt_Name route ∈ dropped)) by set_solver.
  destruct (empty (rt_To route) && bool_decide (rt_Name route ∈ taken)); [done|].
  destruct (negb (empty (rt_To route)) && negb (bool_decide (rt_To route ∈ targets dropped))) eqn:E.
  - intros _. apply andb_true_iff in E as [E1 E2%negb_true_iff%bool_decide_eq_false].
    rewrite E1, (bool_decide_eq_false_2 (rt_To route ∈ targets dropped')); [done|].
    intros Hin. apply E2. apply elem_of_route_targets in Hin as [Hin|(r & Hr & Hn & Ht & Hd & Htk)]; apply elem_of_route_targets;
      [by left | right; exists r; split_and!; try done; set_solver].
  - destruct (routeMatches _ _); [by destruct (empty (rt_To route))|]. intros _. by case_if.
Qed.

Definition is_injected (o : outcome) : Prop := match o with Injected _ _ _ => True | _ => False end.
Lemma problem_not_injected o : is_problem o → ¬ is_injected o.
Proof using Type. destruct o; cbn; tauto. Qed.

Definition names_of : gset string := list_to_set (rt_Name <$> routes).

Lemma owners_injected dropped name : name ∈ tr_ruleOwners (attempt dropped) ∨ name ∈ tr_groups (attempt dropped) →
  name ∈ names_of ∧ name ∉ dropped.
Proof using Type.
  assert (∀ route f, (f = owners_of ∨ f = groups_of) → name ∈ f raw taken (targets dropped) dropped route →
    name = rt_Name route ∧ rt_Name route ∉ dropped) as Hf.
  { intros route f Hf Hin. assert (is_injected (outcome_at dropped route) ∧ name = rt_Name route) as [Ho ->].
    { destruct Hf as [->| ->]; [unfold owners_of in Hin | unfold groups_of in Hin];
        destruct (outcome_at dropped route) as [| |group matches target] eqn:E; try by apply not_elem_of_nil in Hin.
      - split; [done|]. by apply list_elem_of_fmap in Hin as (? & -> & _).
      - split; [done|]. destruct group as [g|]; [|by apply not_elem_of_nil in Hin]. cbn in Hin. apply list_elem_of_singleton in Hin as ->.
        unfold route_outcome in E. repeat case_if_in E; try done; destruct (routeMatches _ _); try done; by simplify_eq. }
    split; [done|]. intros Hd. unfold route_outcome in Ho. by rewrite bool_decide_eq_true_2 in Ho. }
  assert (Hall : ∀ f, (f = owners_of ∨ f = groups_of) → name ∈ routes ≫= f raw taken (targets dropped) dropped →
    name ∈ names_of ∧ name ∉ dropped).
  { intros f Hf' (route & Hin & Hr)%list_elem_of_bind. destruct (Hf route f Hf' Hin) as [-> Hd]. split; [|done].
    apply elem_of_list_to_set, list_elem_of_fmap. by exists route. }
  intros [Hin|Hin]; [apply (Hall owners_of) | apply (Hall groups_of)]; auto.
Qed.

Lemma owner_injected dropped e : owner (attempt dropped) e ≠ EmptyString → owner (attempt dropped) e ∈ names_of ∧ owner (attempt dropped) e ∉ dropped.
Proof using Type.
  unfold owner. destruct (d ← error_index "rules[" e; _) as [o|] eqn:E1.
  - intros _. apply owners_injected. left. apply bind_Some in E1 as (d & _ & E1). unfold at_index in E1. case_if_in E1; [|done].
    by eapply list_elem_of_lookup_2.
  - destruct (d ← error_index "proxy group[" e; _) as [o|] eqn:E2; cbn; [|done]. intros _. apply owners_injected. right.
    apply bind_Some in E2 as (d & _ & E2). apply bind_Some in E2 as (m & _ & E2). case_if_in E2; [|done]. injection E2 as <-.
    unfold mem_string in E. by apply bool_decide_eq_true in E.
Qed.

(** What the loop keeps true of the dropped routes and the problems. *)
Record loop_ok (dropped : gset string) (problems : gmap string Reason) : Prop := {
  lo_names : dropped ⊆ names_of;
  lo_dropped : ∀ name, name ∈ dropped → is_Some (problems !! name);
  lo_problems : ∀ route, route ∈ routes → is_Some (problems !! rt_Name route) →
    rt_Name route ∈ dropped ∨ is_problem (outcome_at dropped route);
}.

Context (Hnames : NoDup (rt_Name <$> routes)).

Lemma route_by_name route route' : route ∈ routes → route' ∈ routes → rt_Name route = rt_Name route' → route = route'.
Proof using Hnames.
  intros [i Hi]%list_elem_of_lookup [j Hj]%list_elem_of_lookup Hn.
  assert (i = j) as ->; [|congruence]. apply (NoDup_lookup (rt_Name <$> routes) _ _ (rt_Name route)); [done| |];
    rewrite list_lookup_fmap, ?Hi, ?Hj; cbn; congruence.
Qed.

(** After an attempt, a route without a problem was injected. *)
Lemma attempt_accounts dropped problems : loop_ok dropped problems → ∀ route, route ∈ routes →
  (foldl (note_problem raw taken (targets dropped) dropped) problems routes !! rt_Name route = None ↔ is_injected (outcome_at dropped route)).
Proof using Hnames.
  intros [_ Hd Hp] route Hr.
  assert (is_Some (foldl (note_problem raw taken (targets dropped) dropped) problems routes !! rt_Name route) ↔
    ¬ is_injected (outcome_at dropped route)) as Hiff.
  { rewrite note_problems_lookup. split.
    - intros [Hs|(r & why & Hr' & Hn & Ho)].
      + destruct (Hp route Hr Hs) as [Hin|Hpr]; [|by apply problem_not_injected].
        unfold route_outcome. rewrite bool_decide_eq_true_2 by done. cbn. tauto.
      + rewrite (route_by_name r route Hr' Hr Hn) in Ho. rewrite Ho. cbn. tauto.
    - intros Hn. destruct (outcome_at dropped route) as [|why|] eqn:E; [|right; by exists route, why|done].
      left. apply Hd. unfold route_outcome in E. case_if_in E; [by apply bool_decide_eq_true in E0|].
      repeat case_if_in E; try done; destruct (routeMatches _ _); try done; by case_if_in E. }
  rewrite eq_None_not_Some, Hiff. destruct (outcome_at dropped route); cbn; tauto.
Qed.

Lemma loop_ok_next dropped problems o why : loop_ok dropped problems → o ∈ names_of →
  loop_ok ({[ o ]} ∪ dropped) (<[o := why]> (foldl (note_problem raw taken (targets dropped) dropped) problems routes)).
Proof using Hnames.
  intros Hok Ho. pose proof Hok as [Hn Hd Hp]. split.
  - set_solver.
  - intros name Hin. destruct (decide (name = o)) as [->|Hne]; [by rewrite lookup_insert_eq|]. rewrite lookup_insert_ne by done.
    apply note_problems_lookup. left. apply Hd. set_solver.
  - intros route Hr Hs. destruct (decide (rt_Name route ∈ {[ o ]} ∪ dropped)) as [Hin|Hout]; [by left|]. right.
    apply (problem_stays dropped); [set_solver | done |]. rewrite lookup_insert_ne in Hs by set_solver.
    apply note_problems_lookup in Hs as [Hs|(r & why' & Hr' & Hn' & Ho')].
    + destruct (Hp route Hr Hs) as [Hin|Hpr]; [set_solver | done].
    + rewrite (route_by_name r route Hr' Hr Hn') in Ho'. by rewrite Ho'.
Qed.

Lemma length_owners dropped l :
  length (l ≫= owners_of raw taken (targets dropped) dropped) = length (l ≫= rules_of raw taken (targets dropped) dropped).
Proof using Type.
  induction l as [|r l IH]; [done|]. rewrite !bind_cons, !length_app, IH. f_equal. unfold owners_of, rules_of.
  destruct (route_outcome _ _ _ _ _); [done..|]. by rewrite !length_fmap.
Qed.

Lemma no_injection dropped : no_group_or_rule (attempt dropped) = true → tr_raw (attempt dropped) = raw.
Proof using Type.
  unfold no_group_or_rule. destruct (tr_groups (attempt dropped)) eqn:Eg; [|done].
  destruct (tr_ruleOwners (attempt dropped)) eqn:Eo; [|done]. intros _. unfold attempt in *. cbn [tr_groups tr_ruleOwners tr_raw] in *.
  pose proof (length_owners dropped routes) as Hl. rewrite Eo in Hl. symmetry in Hl. apply length_zero_iff_nil in Hl.
  rewrite Eg, Hl. cbn. rewrite app_nil_r. by destruct raw.
Qed.

(** The problems a config gets that rejects all its routes. *)
Lemma blame_all e (l : list Route) : ∀ problems : gmap string Reason,
  let ps := foldl (λ ps route, if bool_decide (is_Some (ps !! rt_Name route)) then ps
                               else <[rt_Name route := routeInvalid (rt_Name route) e]> ps) problems l in
  (∀ name, is_Some (problems !! name) → is_Some (ps !! name)) ∧ ∀ route, route ∈ l → is_Some (ps !! rt_Name route).
Proof using Type.
  cbn. induction l as [|r l IH]; intros problems; cbn [foldl]; [split; [done | by intros ? ?%not_elem_of_nil]|].
  set (ps1 := if bool_decide (is_Some (problems !! rt_Name r)) then problems else _).
  assert (is_Some (ps1 !! rt_Name r)) as Hr by (unfold ps1; case_bool_decide; [done | by rewrite lookup_insert_eq]).
  destruct (IH ps1) as [IH1 IH2]. split.
  - intros name Hs. apply IH1. unfold ps1. case_bool_decide; [done|]. destruct (decide (name = rt_Name r)) as [->|];
      [by rewrite lookup_insert_eq | by rewrite lookup_insert_ne].
  - intros route [->|Hin]%elem_of_cons; [by apply IH1 | by apply IH2].
Qed.

(** How the loop ends: with an attempt that parsed, in which the routes that
    were not injected have a problem; with the config alone and a problem for
    every route; or with the config's own error. *)
Definition loop_result (res : result string config) (groups : list string) (problems : gmap string Reason) : Prop :=
  match res with
  | Err e => ParseRawConfig raw = Err e ∧ groups = []
  | Ok cfg => ∃ c, cfg = withPlatformLimits c ∧
      ((∃ dropped, ParseRawConfig (tr_raw (attempt dropped)) = Ok c ∧ groups = tr_groups (attempt dropped) ∧
        ∀ route, route ∈ routes → (problems !! rt_Name route = None ↔ is_injected (outcome_at dropped route))) ∨
      (ParseRawConfig raw = Ok c ∧ groups = [] ∧ ∀ route, route ∈ routes → is_Some (problems !! rt_Name route)))
  end.

Lemma size_dropped dropped : dropped ⊆ names_of → (size dropped <= length routes)%nat.
Proof using Type.
  intros Hsub. clear Hnames. etransitivity; [by apply subseteq_size|]. unfold names_of. rewrite <- (length_fmap rt_Name routes).
  induction (rt_Name <$> routes) as [|x l IH]; cbn; [by rewrite size_empty|].
  rewrite size_union_alt, size_singleton. apply le_n_S. etransitivity; [apply subseteq_size | exact IH]. set_solver.
Qed.

Lemma parse_loop_spec fuel : ∀ dropped problems, loop_ok dropped problems → (length routes < fuel + size dropped)%nat →
  ∃ res groups problems', parse_loop fuel raw routes dropped problems = Some (res, groups, problems') ∧ loop_result res groups problems'.
Proof using Hnames.
  induction fuel as [|fuel IH]; intros dropped problems Hok Hfuel.
  { pose proof (size_dropped dropped (lo_names _ _ Hok)). lia. }
  cbn [parse_loop]. rewrite injectRoutes_eq. destruct (ParseRawConfig (tr_raw (attempt dropped))) as [cfg|e] eqn:Ep.
  - eexists _, _, _. split; [done|]. exists cfg. split; [done|]. left. exists dropped. split_and!; [done | done|].
    by apply attempt_accounts.
  - case_if.
    + case_if.
      * eexists _, _, _. split; [done|]. split; [|done]. by rewrite <- (no_injection dropped).
      * destruct (ParseRawConfig raw) as [cfg|plain] eqn:Eplain; eexists _, _, _; (split; [done|]); [|done].
        exists cfg. split; [done|]. right. split_and!; [done | done|]. apply blame_all.
    + apply empty_false in E. destruct (owner_injected dropped e E) as [Hin Hout]. apply IH; [by apply loop_ok_next|].
      rewrite size_union by set_solver. rewrite size_singleton. lia.
Qed.
End attempts.

(** The routes an attempt injects, over whatever was dropped before. *)
Section shape.
Context (raw : rawConfig) (routes : list Route) (dropped : gset string).

#[local] Notation taken := (taken_names raw).
#[local] Notation outcome_of := (route_outcome raw taken (route_targets taken routes dropped) dropped).

Lemma injected_target route group matches target : outcome_of route = Injected group matches target →
  rt_Name route ∉ dropped ∧
  (group = Some (rt_Name route) ∧ target = rt_Name route ∧ rt_To route = EmptyString ∧ rt_Name route ∉ taken ∨
   group = None ∧ target = rt_To route ∧ target ∈ route_targets taken routes dropped).
Proof using Type.
  unfold route_outcome. case_if; [done|]. apply bool_decide_eq_false in E. case_if; [done|]. case_if; [done|].
  destruct (routeMatches _ _); [|done]. destruct (empty (rt_To route)) eqn:Et; intros [= <- <- <-]; (split; [done|]).
  - left. apply empty_true in Et. split_and!; try done. by apply bool_decide_eq_false in E0.
  - right. split_and!; try done. cbn in E1. by apply negb_false_iff, bool_decide_eq_true in E1.
Qed.

Lemma elem_of_groups l name : name ∈ l ≫= groups_of raw taken (route_targets taken routes dropped) dropped →
  name ∉ taken ∧ ∃ route, route ∈ l ∧ rt_Name route = name.
Proof using Type.
  intros (route & Hin & Hr)%list_elem_of_bind. unfold groups_of in Hin.
  destruct (outcome_of route) as [| |group matches target] eqn:E; try by apply not_elem_of_nil in Hin.
  apply injected_target in E as [_ [(-> & _ & _ & Ht)|(-> & _)]]; [|by apply not_elem_of_nil in Hin].
  cbn in Hin. apply list_elem_of_singleton in Hin as ->. split; [done|]. by exists route.
Qed.

Lemma NoDup_groups l : NoDup (rt_Name <$> l) → NoDup (l ≫= groups_of raw taken (route_targets taken routes dropped) dropped).
Proof using Type.
  induction l as [|route l IH]; [intros; constructor|]. rewrite bind_cons, fmap_cons. intros [Hn Hl]%NoDup_cons.
  apply NoDup_app. split_and!; [|intros x Hx Hx'|by apply IH].
  - unfold groups_of. destruct (outcome_of route); [constructor..|]. destruct group; [apply NoDup_singleton | constructor].
  - apply elem_of_groups in Hx' as [_ (r & Hr & <-)].
    assert (rt_Name r ∈ [route] ≫= groups_of raw taken (route_targets taken routes dropped) dropped) as Hx2
      by (cbn; by rewrite app_nil_r).
    apply elem_of_groups in Hx2 as [_ (r' & ->%list_elem_of_singleton & Hn')]. apply Hn. rewrite Hn'. apply list_elem_of_fmap. by exists r.
Qed.
End shape.

(** ** What a route adds, from its document *)

Lemma bind_filter {A B} (P : A → Prop) `{∀ x, Decision (P x)} (f g : A → list B) l :
  (∀ x, f x = if decide (P x) then g x else []) → l ≫= f = filter P l ≫= g.
Proof using Type.
  intros Hf. induction l as [|x l IH]; [done|]. rewrite bind_cons, filter_cons, Hf. destruct (decide _); [by rewrite bind_cons; f_equal | done].
Qed.

Section contribution.
Context (raw : rawConfig) (routes : list Route) (dropped : gset string).

#[local] Notation taken := (taken_names raw).
#[local] Notation targets := (route_targets (taken_names raw) routes dropped).
#[local] Notation outcome_of := (route_outcome raw taken targets dropped).

(** What a rule may be sent to: a proxy of mihomo's or the config's, or the
    group of a route that has no target and whose name is free. *)
Definition known_target (name : string) : Prop :=
  name ∈ taken ∨ ∃ r, r ∈ routes ∧ rt_Name r = name ∧ rt_To r = EmptyString ∧ name ∉ dropped ∧ name ∉ taken.

(** A route that is to be in the config. *)
Definition stays (route : Route) : Prop :=
  rt_Name route ∉ dropped ∧
  (rt_To route = EmptyString → rt_Name route ∉ taken) ∧ (rt_To route ≠ EmptyString → known_target (rt_To route)) ∧
  ∀ entry m, entry ∈ rt_Match route → ParseRouteMatch entry = Ok m → rm_Type m = "RULE-SET"%string → rm_Payload m ∈ rw_RuleProvider raw.

(** Where its rules go, and the rules: one for each entry that parses. *)
Definition sent_to (route : Route) : string := or_string (rt_To route) (rt_Name route).
Definition entry_rule (target entry : string) : option string :=
  match ParseRouteMatch entry with Ok m => Some (match_rule m target) | Err _ => None end.
Definition route_rules (route : Route) : list string := omap (entry_rule (sent_to route)) (rt_Match route).
Definition route_group (route : Route) : list string := if empty (rt_To route) then [rt_Name route] else [].

Lemma routeMatches_spec entries providers :
  match routeMatches entries providers with
  | Ok ms => (∀ target, (λ m, match_rule m target) <$> ms = omap (entry_rule target) entries) ∧
      ∀ entry m, entry ∈ entries → ParseRouteMatch entry = Ok m → rm_Type m = "RULE-SET"%string → rm_Payload m ∈ providers
  | Err _ => ∃ entry m, entry ∈ entries ∧ ParseRouteMatch entry = Ok m ∧ rm_Type m = "RULE-SET"%string ∧ rm_Payload m ∉ providers
  end.
Proof using Type.
  induction entries as [|entry entries IH]; cbn [routeMatches]; [split; [done | by intros ? ? ?%not_elem_of_nil]|].
  assert (Hcons : ∀ target, omap (entry_rule target) (entry :: entries) = option_list (entry_rule target entry) ++ omap (entry_rule target) entries)
    by (intros; cbn; by destruct (entry_rule _ _)).
  destruct (ParseRouteMatch entry) as [m|e] eqn:Ep.
  - assert (He : ∀ target, entry_rule target entry = Some (match_rule m target)) by (intros; unfold entry_rule; by rewrite Ep).
    destruct (eqs (rm_Type m) "RULE-SET" && _) eqn:E.
    + apply andb_true_iff in E as [E1%eqs_true E2%negb_true_iff%bool_decide_eq_false]. exists entry, m. split_and!; auto. by left.
    + destruct (routeMatches entries providers) as [ms|e].
      * destruct IH as [IH1 IH2]. split; [intros target; rewrite Hcons, He, <- IH1; done|]. intros entry' m' [->|Hin]%elem_of_cons Hp Ht; [|by eapply IH2].
        rewrite Ep in Hp. injection Hp as <-. rewrite Ht in E. cbn in E. by apply negb_false_iff, bool_decide_eq_true in E.
      * destruct IH as (entry' & m' & Hin & ?). exists entry', m'. split; [by right | done].
  - assert (He : ∀ target, entry_rule target entry = None) by (intros; unfold entry_rule; by rewrite Ep).
    destruct (routeMatches entries providers) as [ms|e'].
    + destruct IH as [IH1 IH2]. split; [intros target; by rewrite Hcons, He, <- IH1|]. intros entry' m' [->|Hin]%elem_of_cons Hp; [congruence | by eapply IH2].
    + destruct IH as (entry' & m' & Hin & ?). exists entry', m'. split; [by right | done].
Qed.

(** A route is injected exactly when it stays, and then with its rules. *)
Lemma outcome_spec route :
  match outcome_of route with
  | Injected group matches target => stays route ∧ target = sent_to route ∧ option_list group = route_group route ∧
      (λ m, match_rule m target) <$> matches = route_rules route
  | Dropped => rt_Name route ∈ dropped
  | Problem _ => rt_Name route ∉ dropped ∧ ¬ stays route
  end.
Proof using Type.
  assert (Hknown : known_target (rt_To route) ↔ rt_To route ∈ targets) by (symmetry; apply elem_of_route_targets).
  unfold route_outcome, stays. case_bool_decide as Hd; [done|].
  destruct (empty (rt_To route)) eqn:Et; cbn [andb negb].
  - apply empty_true in Et. case_bool_decide as Hn; [split; [done|]; naive_solver|]. pose proof (routeMatches_spec (rt_Match route) (rw_RuleProvider raw)) as Hm.
    destruct (routeMatches _ _) as [ms|e]; [|naive_solver]. destruct Hm as [H1' H2']. unfold route_rules, sent_to, route_group. rewrite Et, H1'. naive_solver.
  - assert (Hne : rt_To route ≠ EmptyString) by (intros E; by rewrite E in Et).
    case_bool_decide as Hn; cbn [negb]; [|split; [done|]; naive_solver]. pose proof (routeMatches_spec (rt_Match route) (rw_RuleProvider raw)) as Hm.
    destruct (routeMatches _ _) as [ms|e]; [|naive_solver]. destruct Hm as [H1' H2']. unfold route_rules, sent_to, route_group, or_string. rewrite Et, H1'. naive_solver.
Qed.

#[local] Instance injected_dec route : Decision (is_injected (outcome_of route)).
Proof. destruct (outcome_of route); solve_decision || (left; exact I) || (right; tauto). Defined.

Definition injected : list Route := filter (λ route, is_injected (outcome_of route)) routes.

End contribution.

(** C27: what injecting routes does to a config. The config keeps everything it
    had, in place: its own rules follow the injected ones unchanged, its
    groups come first, the rest is untouched. The injected rules are, route by
    route and entry by entry, those of the routes that stay: one for every
    match entry that parses, as the entry says, sent to the route's target or
    else to its group; each is booked to its route. The injected groups are
    those of the routes that stay and have no target, under fresh, distinct
    names. A route stays when it was not dropped, its group's name is free or
    its target is known, and the config has the rule sets it names; one that
    was not dropped and does not stay gets a problem. *)
Theorem inject_routes_safe raw routes dropped problems :
  NoDup (rt_Name <$> routes) →
  let '(t, problems') := injectRoutes raw routes dropped problems in
  ∃ inn, sublist inn routes ∧ (∀ route, route ∈ inn ↔ route ∈ routes ∧ stays raw routes dropped route) ∧
  rw_Rule (tr_raw t) = (inn ≫= route_rules) ++ rw_Rule raw ∧
  tr_ruleOwners t = (inn ≫= λ route, (λ _, rt_Name route) <$> route_rules route) ∧
  tr_groups t = inn ≫= route_group ∧
  rw_ProxyGroup (tr_raw t) = rw_ProxyGroup raw ++ (select_group <$> tr_groups t) ∧
  rw_Proxy (tr_raw t) = rw_Proxy raw ∧ rw_RuleProvider (tr_raw t) = rw_RuleProvider raw ∧ rw_rest (tr_raw t) = rw_rest raw ∧
  NoDup (tr_groups t) ∧ (∀ name, name ∈ tr_groups t → name ∉ taken_names raw) ∧
  ∀ route, route ∈ routes → rt_Name route ∉ dropped →
    (is_Some (problems' !! rt_Name route) ↔ is_Some (problems !! rt_Name route) ∨ ¬ stays raw routes dropped route).
Proof.
  intros Hnd. rewrite injectRoutes_eq. exists (injected raw routes dropped).
  assert (Hout := outcome_spec raw routes dropped). set (o := route_outcome raw (taken_names raw) (route_targets (taken_names raw) routes dropped) dropped) in *.
  assert (Hin : ∀ route, route ∈ injected raw routes dropped ↔ route ∈ routes ∧ stays raw routes dropped route).
  { intros route. unfold injected. rewrite list_elem_of_filter. fold o. specialize (Hout route). destruct (o route); cbn; [|tauto..]. unfold stays. tauto. }
  split_and!; try done.
  - apply sublist_filter.
  - cbn [attempt tr_raw rw_Rule]. f_equal. apply bind_filter. intros route. specialize (Hout route). unfold rules_of. fold o in Hout |- *.
    destruct (decide (is_injected _)) as [Hi|Hi]; destruct (o route); try done; by destruct Hout as (_ & _ & _ & ->).
  - cbn [attempt tr_ruleOwners]. apply bind_filter. intros route. specialize (Hout route). unfold owners_of. fold o in Hout |- *.
    destruct (decide (is_injected _)) as [Hi|Hi]; destruct (o route); try done.
    destruct Hout as (_ & _ & _ & <-). by rewrite <- list_fmap_compose.
  - cbn [attempt tr_groups]. apply bind_filter. intros route. specialize (Hout route). unfold groups_of. fold o in Hout |- *.
    destruct (decide (is_injected _)) as [Hi|Hi]; destruct (o route); try done; by destruct Hout as (_ & _ & -> & _).
  - by apply NoDup_groups.
  - intros name. apply (elem_of_groups raw routes dropped routes).
  - intros route Hr Hd. rewrite note_problems_lookup. fold o. specialize (Hout route). destruct (o route) as [|why|] eqn:E; [done| |].
    + split; [by intros _; right; apply Hout | intros _; right; by exists route, why].
    + split; [|by intros [|Hs]; [left | destruct Hs; apply Hout]]. intros [|(r & why & Hr' & Hn & Ho)]; [by left|].
      rewrite (route_by_name routes Hnd r route Hr' Hr Hn) in Ho. congruence.
Qed.

(** Parsing a config with routes ends, and is as good as parsing it
    without. The loop needs at most one turn more than there are routes; a
    config that parses without routes always parses with them, and one that
    does not fails with its own error or not at all. When it parses, every
    route is accounted for: it was injected into the config that parsed, or
    there is a problem saying why it was not. *)
Theorem parse_routed_total raw routes key :
  NoDup (rt_Name <$> routes) →
  ∃ res applied, parseRouted raw routes key = Some (res, applied) ∧ ar_Applied applied = true ∧ ar_Key applied = key ∧
  (∀ c, ParseRawConfig raw = Ok c → ∃ cfg, res = Ok cfg) ∧
  match res with
  | Err e => ParseRawConfig raw = Err e ∧ ar_Groups applied = []
  | Ok cfg => ∃ c, cfg = withPlatformLimits c ∧
      ((∃ dropped, let t := (injectRoutes raw routes dropped ∅).1 in
         ParseRawConfig (tr_raw t) = Ok c ∧ ar_Groups applied = tr_groups t ∧
         ∀ route, route ∈ routes → (ar_Problems applied !! rt_Name route = None ↔
           is_injected (route_outcome raw (taken_names raw) (route_targets (taken_names raw) routes dropped) dropped route))) ∨
       (ParseRawConfig raw = Ok c ∧ ar_Groups applied = [] ∧
         ∀ route, route ∈ routes → is_Some (ar_Problems applied !! rt_Name route)))
  end.
Proof.
  intros Hnd. destruct (parse_loop_spec raw routes Hnd (parse_fuel routes) ∅ ∅) as (res & groups & problems & E & Hres).
  { split; [set_solver | set_solver | intros route _ [why Hwhy]; by rewrite lookup_empty in Hwhy]. }
  { unfold parse_fuel. lia. }
  unfold parseRouted. rewrite E. cbn. eexists res, _. split; [done|]. split_and!; [done | done | |].
  - intros c Hc. destruct res as [cfg|e]; [by exists cfg|]. destruct Hres as [He _]. congruence.
  - destruct res as [cfg|e]; [|exact Hres]. destruct Hres as (c & -> & Hc). exists c. split; [done|].
    destruct Hc as [(dropped & Hp & Hg & Hr)|Hc]; [left; exists dropped | by right]. rewrite injectRoutes_eq. done.
Qed.
End inject.

Module Sample.
#[local] Existing Instance ascii_tables.
#[local] Instance netip : Netip := {| parse_prefix _ := true |}.
#[local] Instance configs : Configs := {| other := unit; rest := unit; config := list string |}.

(** A parser that refuses a rule for the host bad.example. *)
#[local] Instance parser : ConfigParser := {|
  ParseRawConfig raw :=
    match head (rw_Rule raw) with
    | Some rule => if HasPrefix rule "DOMAIN,bad.example" then Err "rules[0] [DOMAIN,bad.example] error"%string else Ok (rw_Rule raw)
    | None => Ok []
    end;
  withPlatformLimits c := c;
|}.

Definition raw : rawConfig :=
  {| rw_Proxy := [select_group "node"]; rw_ProxyGroup := [select_group "Main"]; rw_Rule := ["MATCH,Main"%string];
     rw_RuleProvider := ∅; rw_rest := tt |}.

Definition route_to (name entry to : string) : Route :=
  {| rt_Name := name; rt_Description := ""; rt_Match := [entry];
     rt_Program := {| pg_Profile := ""; pg_Pool := {| po_Include := ""; po_Exclude := "" |}; pg_Prefer := []; pg_To := to |} |}.

Definition routes : list Route :=
  [route_to "Broken" "DOMAIN,bad.example" "Main"; route_to "Video" "DOMAIN-SUFFIX,video.example" "";
   route_to "Lost" "DOMAIN,x.example" "Gone"].

Lemma names_distinct : NoDup (rt_Name <$> routes).
Proof. apply (bool_decide_unpack _). vm_compute. exact I. Qed.

Lemma parse_routed_total_witness :
  ∃ applied, parseRouted raw routes "key" = Some (Ok ["DOMAIN-SUFFIX,video.example,Video"; "MATCH,Main"]%string, applied) ∧
    ar_Groups applied = ["Video"%string] ∧ ar_Problems applied !! "Video"%string = None ∧
    is_Some (ar_Problems applied !! "Broken"%string) ∧ is_Some (ar_Problems applied !! "Lost"%string).
Proof.
  destruct (parse_routed_total raw routes "key" names_distinct) as (res & applied & E & _).
  assert (res = Ok ["DOMAIN-SUFFIX,video.example,Video"; "MATCH,Main"]%string) as ->.
  { assert (fst <$> parseRouted raw routes "key" = Some res) as H by (by rewrite E). vm_compute in H. congruence. }
  exists applied. split; [exact E|].
  assert (snd <$> parseRouted raw routes "key" = Some applied) as H by (by rewrite E). vm_compute in H. injection H as <-.
  split_and!; [reflexivity | reflexivity | eexists; reflexivity | eexists; reflexivity].
Defined.

Lemma inject_routes_safe_witness :
  let '(t, _) := injectRoutes raw routes ∅ ∅ in
  ∃ inn, (inn ≫= route_rules) ++ ["MATCH,Main"%string] =
      ["DOMAIN,bad.example,Main"; "DOMAIN-SUFFIX,video.example,Video"; "MATCH,Main"]%string ∧
    tr_ruleOwners t = ["Broken"; "Video"]%string ∧ tr_groups t = inn ≫= route_group ∧ tr_groups t = ["Video"%string].
Proof.
  generalize (inject_routes_safe raw routes ∅ ∅ names_distinct).
  destruct (injectRoutes raw routes ∅ ∅) as [t problems] eqn:E. intros (inn & _ & _ & Hr & _ & Hg & _).
  assert (t = (injectRoutes raw routes ∅ ∅).1) as Et by (by rewrite E). clear E.
  exists inn. split; [|split; [|split; [exact Hg|]]]; [|rewrite Et; vm_compute; reflexivity..].
  transitivity (rw_Rule (tr_raw t)); [symmetry; exact Hr|]. rewrite Et. vm_compute. reflexivity.
Defined.
End Sample.
