(* ===== verification/Bundle.v ===== *)
(** * Sharing profiles and scenarios: core/rcx/bundle.go

    A document that names other profiles travels as a bundle that carries
    them, renamed to user profiles; unpacking names what a bundle holds free
    of what the user has. The code collects the scalar nodes that name a
    profile and assigns through them; here [edit_refs] applies a function at
    those nodes of a tree and [profileRefs] lists their values. *)

From S2P Require Import Prelude GoText Cond CondSyntax Profile Policy Library Route Scenario Layers Merge.

Definition maxBundleBytes : Z := 262144.

Record BundleItem := { bi_kind : string; bi_name : string; bi_title : string; bi_text : string }.

(** go.yaml.in/yaml on nodes: the content of a document node, and a node as
    text. *)
Class YamlNodes := {
  yaml_content : string → result string (list node);
  yaml_encode : node → result string string;
}.

(** ** Names *)

Definition slug_rune (r : rune) : bool := ascii_lower r || ascii_digit r.

(** [nameRun.ReplaceAllString(s, "-")]; [gap] inside a run. *)
Fixpoint dash_runs (rs : list rune) (gap : bool) : string :=
  match rs with
  | [] => EmptyString
  | r :: rs =>
      if slug_rune r then String (Zbyte r) (dash_runs rs false)
      else if gap then dash_runs rs true else String "-" (dash_runs rs true)
  end.

(** [strings.Trim] with a single byte to cut. *)
Fixpoint TrimLeft (s : string) (c : ascii) : string :=
  match s with
  | String d rest => if bool_decide (d = c) then TrimLeft rest c else s
  | EmptyString => s
  end.
Fixpoint TrimRight (s : string) (c : ascii) : string :=
  match s with
  | String d rest =>
      let t := TrimRight rest c in
      if empty t && bool_decide (d = c) then EmptyString else String d t
  | EmptyString => s
  end.
Definition Trim (s : string) (c : ascii) : string := TrimRight (TrimLeft s c) c.

Definition numbered (base : string) (i : Z) : string := base +:+ "-" +:+ Itoa i.

(** The loop of [freeName]; [None] is out of fuel. *)
Fixpoint free_number (fuel : nat) (taken : gset string) (base : string) (i : Z) : option string :=
  match fuel with
  | O => None
  | S fuel => if bool_decide (numbered base i ∈ taken) then free_number fuel taken base (i + 1)
              else Some (numbered base i)
  end.

Section names.
Context `{Unicode}.

Definition name_base (title fallback : string) : string :=
  or_string (Trim (dash_runs (decode (ToLower title)) false) "-") fallback.

Definition freeName (taken : gset string) (title fallback : string) : option string :=
  let base := name_base title fallback in
  if bool_decide (base ∈ taken) then free_number (S (size taken)) taken base 2 else Some base.
End names.

(** ** Trees *)

Definition mapValue (n : node) (key : string) : option node :=
  if is_kind MappingNode n then find_value key (yn_Content n) else None.

Definition set_value (n : node) (value : string) : node := let 'Node k _ l c := n in Node k value l c.

Fixpoint edit_value (key : string) (g : node → node) (content : list node) : list node :=
  match content with
  | k :: v :: rest => if eqs (yn_Value k) key then k :: g v :: rest else k :: v :: edit_value key g rest
  | _ => content
  end.

Fixpoint edit_values (g : node → node) (content : list node) : list node :=
  match content with
  | k :: v :: rest => k :: g v :: edit_values g rest
  | _ => content
  end.

(** The value [mapValue] finds, changed. *)
Definition edit_at (key : string) (g : node → node) (n : node) : node :=
  if is_kind MappingNode n then with_content n (edit_value key g (yn_Content n)) else n.

Definition edit_all (g : node → node) (n : node) : node :=
  if is_kind MappingNode n then with_content n (edit_values g (yn_Content n)) else n.

Definition edit_items (g : node → node) (n : node) : node :=
  if is_kind SequenceNode n then with_content n (g <$> yn_Content n) else n.

(** A scalar that names something. *)
Definition names_ref (n : node) : bool := is_kind ScalarNode n && negb (empty (yn_Value n)).

Definition edit_scalar (f : string → string) (n : node) : node :=
  if names_ref n then set_value n (f (yn_Value n)) else n.

(** The closure [programs] and the whole of [profileRefs], as edits. *)
Definition edit_programs (f : string → string) : node → node := edit_all (edit_at "profile" (edit_scalar f)).

Definition edit_refs (f : string → string) (scenario : bool) (root : node) : node :=
  if scenario then
    edit_at "routes" (edit_items (edit_at "profile" (edit_scalar f)))
      (edit_at "on" (edit_all (edit_at "groups" (edit_programs f)))
        (edit_at "groups" (edit_programs f) root))
  else edit_at "extends" (edit_scalar f) root.

(** The values of the same nodes, in the order the code lists them. *)
Definition scalar_refs (n : option node) : list string :=
  match n with Some n => if names_ref n then [yn_Value n] else [] | None => [] end.

Definition mapping_values (n : node) : list node :=
  if is_kind MappingNode n then (pairs (yn_Content n)).*2 else [].

Definition program_refs (groups : option node) : list string :=
  match groups with
  | Some groups => mapping_values groups ≫= λ v, scalar_refs (mapValue v "profile")
  | None => []
  end.

Definition profileRefs (root : node) (scenario : bool) : list string :=
  if scenario then
    program_refs (mapValue root "groups") ++
    (match mapValue root "on" with
     | Some on => mapping_values on ≫= λ v, program_refs (mapValue v "groups")
     | None => []
     end) ++
    (match mapValue root "routes" with
     | Some routes => if is_kind SequenceNode routes then yn_Content routes ≫= λ r, scalar_refs (mapValue r "profile") else []
     | None => []
     end)
  else scalar_refs (mapValue root "extends").

(** ** Exporting *)

(** The documents behind the entries of a library, by canonical id. *)
Record Sources := { so_profiles : gmap string string; so_scenarios : gmap string string }.

Definition scalar (value : string) : node := Node ScalarNode value EmptyString [].
Definition mapping (content : list node) : node := Node MappingNode EmptyString EmptyString content.

Definition mapEntry (key value : string) : list node := [scalar key; scalar value].

(** [s[strings.LastIndex(s, "/")+1:]]. *)
Definition after_slash (s : string) : string :=
  match last_byte "/" s with Some i => string_drop (S i) s | None => s end.

(** What [Export] has found: the name of each profile, the names in use, and
    the profiles in the order they were reached. *)
Record found := {
  fd_names : gmap string string;
  fd_used : gset string;
  fd_order : list (string * node);
}.

Section bundle.
Context `{Unicode} `{YamlNodes}.

Definition docRoot (data : string) : result string node :=
  content ← yaml_content data;
  match content with root :: _ => Ok root | [] => Err "empty document"%string end.

Definition nodeText (n : node) : result string string := yaml_encode n.

Definition isBuiltinRef (ref : string) : bool := HasPrefix (CanonicalID ref) (BuiltinSource +:+ "/").

Definition so_Source (lib : Sources) (id : string) : result string string :=
  match so_profiles lib !! CanonicalID id with
  | Some source => Ok source
  | None => Err ("profile " +:+ id +:+ " not found")
  end.

Definition ScenarioSource (lib : Sources) (id : string) : result string string :=
  match so_scenarios lib !! CanonicalID id with
  | Some source => Ok source
  | None => Err ("scenario " +:+ id +:+ " not found")
  end.

(** A title, or the last part of an id. *)
Definition label_of (root : node) (id : string) : string :=
  match mapValue root "title" with
  | Some title => or_string (yn_Value title) (after_slash id)
  | None => after_slash id
  end.

(** The loop over the queue of references; [None] is out of fuel. *)
Fixpoint export_loop (fuel : nat) (lib : Sources) (st : found) (queue : list string) : option (result string found) :=
  match fuel with
  | O => None
  | S fuel =>
      match queue with
      | [] => Some (Ok st)
      | ref :: queue =>
          let canon := CanonicalID ref in
          if isBuiltinRef ref || bool_decide (is_Some (fd_names st !! canon)) then export_loop fuel lib st queue
          else match so_Source lib canon with
               | Err e => Some (Err e)
               | Ok source =>
                   match docRoot source with
                   | Err e => Some (Err ("profile " +:+ canon +:+ ": " +:+ e))
                   | Ok root =>
                       name ← freeName (fd_used st) (label_of root canon) "profile";
                       export_loop fuel lib
                         {| fd_names := <[canon := name]> (fd_names st);
                            fd_used := {[ name ]} ∪ fd_used st;
                            fd_order := fd_order st ++ [(canon, root)] |}
                         (queue ++ profileRefs root false)
                   end
               end
      end
  end.

Definition export_fuel (lib : Sources) (queue : list string) : nat := S (length queue + size (so_profiles lib)).

Definition nothing_found : found := {| fd_names := ∅; fd_used := ∅; fd_order := [] |}.

(** The new value of a reference the loop did not skip. *)
Definition rename_ref (names : gmap string string) (ref : string) : string :=
  if isBuiltinRef ref then ref
  else UserSource +:+ "/" +:+ default EmptyString (names !! CanonicalID ref).

Definition kind_name (scenario : bool) : string := if scenario then "scenario" else "profile".

(** The tree of the bundle around the renamed documents; [self] is the name
    of the exported one. *)
Definition bundle_tree (st : found) (scenario : bool) (title self : string) (root : node) : node :=
  let edit := edit_refs (rename_ref (fd_names st)) in
  let own := [scalar self; edit scenario root] in
  let carried := fd_order st ≫= λ '(canon, profile), [scalar (default EmptyString (fd_names st !! canon)); edit false profile] in
  mapping
    ([scalar "rcx"; Node ScalarNode "1" "!!int" []] ++ mapEntry "kind" "bundle" ++ mapEntry "title" title ++
     (if scenario then [scalar "scenarios"; mapping own] else []) ++
     [scalar "profiles"; mapping ((if scenario then [] else own) ++ carried)]).

Definition Export (lib : Sources) (id kind : string) : option (result string string) :=
  let scenario := eqs kind "scenario" in
  match if scenario then ScenarioSource lib id else so_Source lib id with
  | Err e => Some (Err e)
  | Ok data =>
      match docRoot data with
      | Err e => Some (Err e)
      | Ok root =>
          let queue := profileRefs root scenario in
          r ← export_loop (export_fuel lib queue) lib nothing_found queue;
          match r with
          | Err e => Some (Err e)
          | Ok st =>
              match fd_order st with
              | [] => Some (Ok data)
              | _ =>
                  let title := label_of root id in
                  self ← freeName (fd_used st) title (kind_name scenario);
                  Some (nodeText (bundle_tree st scenario title self root))
              end
          end
      end
  end.

(** ** Unpacking *)

Record bundleDoc := { bd_kind : string; bd_key : string; bd_node : node }.

Fixpoint read_section (key kind : string) (entries : list (node * node)) : result string (list bundleDoc) :=
  match entries with
  | [] => Ok []
  | (k, v) :: entries =>
      if is_kind MappingNode v
      then docs ← read_section key kind entries; Ok ({| bd_kind := kind; bd_key := yn_Value k; bd_node := v |} :: docs)
      else Err ("bundle " +:+ key +:+ "." +:+ yn_Value k +:+ " must be a mapping")
  end.

Definition bundle_section (root : node) (key kind : string) : result string (list bundleDoc) :=
  match mapValue root key with
  | None => Ok []
  | Some n => if is_kind MappingNode n then read_section key kind (pairs (yn_Content n))
              else Err ("bundle " +:+ key +:+ " must be a mapping")
  end.

(** The documents of both sections, profiles first. *)
Definition read_docs (root : node) : result string (list bundleDoc) :=
  profiles ← bundle_section root "profiles" "profile";
  scenarios ← bundle_section root "scenarios" "scenario";
  Ok (profiles ++ scenarios).

(** [None] when the text is no bundle. *)
Definition readBundle (data : string) : result string (option (list bundleDoc)) :=
  match docRoot data with
  | Err _ => Ok None
  | Ok root =>
      match mapValue root "kind" with
      | Some kind =>
          if negb (eqs (yn_Value kind) "bundle") then Ok None
          else if maxBundleBytes <? slen data then Err "bundle larger than 256 KiB"%string
          else docs ← read_docs root;
               match docs with
               | [] => Err "bundle holds no profiles or scenarios"%string
               | _ => Ok (Some docs)
               end
      | None => Ok None
      end
  end.

Definition title_of (root : node) : string :=
  match mapValue root "title" with Some title => yn_Value title | None => EmptyString end.

Definition is_scenario (d : bundleDoc) : bool := eqs (bd_kind d) "scenario".

(** The first loop of [Unpack]: a name for each document, and what the
    profiles are renamed to. *)
Fixpoint name_docs (used : gset string) (renamed : gmap string string) (docs : list bundleDoc)
    : option (list string * gmap string string) :=
  match docs with
  | [] => Some ([], renamed)
  | d :: docs =>
      name ← freeName used (bd_key d) (bd_kind d);
      let renamed := if eqs (bd_kind d) "profile" then <[bd_key d := name]> renamed else renamed in
      '(names, renamed) ← name_docs ({[ name ]} ∪ used) renamed docs;
      Some (name :: names, renamed)
  end.

(** [strings.CutPrefix]. *)
Definition CutPrefix (s prefix : string) : option string :=
  if HasPrefix s prefix then Some (string_drop (String.length prefix) s) else None.

Definition follow_ref (renamed : gmap string string) (ref : string) : string :=
  match CutPrefix ref (UserSource +:+ "/") with
  | Some old =>
      let name := default EmptyString (renamed !! old) in
      if empty name then ref else UserSource +:+ "/" +:+ name
  | None => ref
  end.

Definition unpacked_tree (renamed : gmap string string) (d : bundleDoc) : node :=
  edit_refs (follow_ref renamed) (is_scenario d) (bd_node d).

Fixpoint unpack_docs (renamed : gmap string string) (docs : list (bundleDoc * string)) : result string (list BundleItem) :=
  match docs with
  | [] => Ok []
  | (d, name) :: docs =>
      let n := unpacked_tree renamed d in
      text ← nodeText n;
      items ← unpack_docs renamed docs;
      Ok ({| bi_kind := bd_kind d; bi_name := name; bi_title := title_of n; bi_text := text |} :: items)
  end.
End bundle.

Section unpack.
Context `{Unicode} `{Regexp} `{Url} `{PublicSuffix} `{IpText} `{RangeOrder} `{Netip} `{Yaml} `{YamlNodes}.

Definition plainKind (data : string) : string :=
  match docRoot data with
  | Err _ => "profile"
  | Ok root =>
      if existsb (λ key, bool_decide (is_Some (mapValue root key))) ["groups"; "mode"; "routes"]%string then "scenario"
      else if negb (is_ok (ParseProfile data)) && is_ok (ParseScenario data) then "scenario" else "profile"
  end.

(** [Unpack]; [None] is out of fuel. *)
Definition Unpack (data : string) (taken : list string) : option (result string (list BundleItem)) :=
  let used : gset string := list_to_set taken in
  match readBundle data with
  | Err e => Some (Err e)
  | Ok None =>
      let kind := plainKind data in
      let title := match docRoot data with Ok root => title_of root | Err _ => EmptyString end in
      name ← freeName used title kind;
      Some (Ok [{| bi_kind := kind; bi_name := name; bi_title := title; bi_text := data |}])
  | Ok (Some docs) =>
      '(names, renamed) ← name_docs used ∅ docs;
      Some (unpack_docs renamed (zip docs names))
  end.
End unpack.
