(* ===== verification/BundleFacts.v ===== *)
(** * Bundles: names and trees

    The names documents get, editing the references of a tree, and canonical
    ids. *)

From S2P Require Import Prelude GoText TextFacts Cond CondSyntax Profile Policy Library Route Scenario Layers Merge Bundle.

(** ** Names

    The name of a user document: runs of letters and digits, single dashes
    between them. [dash] tells that the character before was a dash, or that
    there was none. *)

Definition slug_char (c : ascii) : bool := slug_rune (byteZ c).

Fixpoint named_from (dash : bool) (s : string) : bool :=
  match s with
  | EmptyString => negb dash
  | String c s => if bool_decide (c = "-"%char) then negb dash && named_from true s else slug_char c && named_from false s
  end.

Definition well_named (s : string) : Prop := named_from true s = true.

Lemma slug_rune_spec r : slug_rune r = true ↔ 97 <= r <= 122 ∨ 48 <= r <= 57.
Proof. unfold slug_rune, ascii_lower, ascii_digit, in_range. rewrite orb_true_iff, !andb_true_iff, !Z.leb_le. lia. Qed.

Lemma slug_byte r : slug_rune r = true → byteZ (Zbyte r) = r ∧ Zbyte r ≠ "-"%char.
Proof.
  intros H%slug_rune_spec. assert (byteZ (Zbyte r) = r) as E by (apply byteZ_Zbyte; lia).
  split; [done|]. intros E'. rewrite E' in E. change (45 = r) in E. lia.
Qed.

(** What is between runs of other characters; a trailing dash is left. *)
Fixpoint dashed_from (dash : bool) (s : string) : bool :=
  match s with
  | EmptyString => true
  | String c s => if bool_decide (c = "-"%char) then negb dash && dashed_from true s else slug_char c && dashed_from false s
  end.

Lemma dash_runs_dashed rs : ∀ gap, dashed_from gap (dash_runs rs gap) = true.
Proof.
  induction rs as [|r rs IH]; intros gap; [done|]. cbn [dash_runs]. destruct (slug_rune r) eqn:E.
  - destruct (slug_byte r E) as [Hb Hd]. cbn [dashed_from]. rewrite bool_decide_eq_false_2 by done.
    unfold slug_char. by rewrite Hb, E, IH.
  - destruct gap; [apply IH|]. cbn. apply IH.
Qed.

Lemma trim_left_dashed s : dashed_from false s = true → dashed_from true (TrimLeft s "-") = true.
Proof.
  destruct s as [|c s]; [done|]. cbn [TrimLeft dashed_from]. case_bool_decide as Hc.
  - cbn [negb andb]. destruct s as [|d s]; [done|]. cbn [TrimLeft dashed_from]. case_bool_decide; [done|]. cbn [dashed_from]. by rewrite bool_decide_eq_false_2.
  - cbn [dashed_from]. by rewrite bool_decide_eq_false_2.
Qed.

Lemma trim_right_named s : ∀ dash, dashed_from dash s = true →
  if empty (TrimRight s "-") then True else named_from dash (TrimRight s "-") = true.
Proof.
  induction s as [|c s IH]; intros dash; [done|]. cbn [TrimRight dashed_from].
  case_bool_decide as Hc.
  - intros [Hd Hs]%andb_true_iff. specialize (IH _ Hs). destruct (empty (TrimRight s "-")); [done|]. cbn [andb].
    unfold empty. rewrite bool_decide_eq_false_2 by done. cbn [named_from]. rewrite bool_decide_eq_true_2 by done. by rewrite Hd.
  - intros [Hd Hs]%andb_true_iff. specialize (IH _ Hs). rewrite andb_false_r.
    unfold empty at 1. rewrite bool_decide_eq_false_2 by done. cbn [named_from]. rewrite bool_decide_eq_false_2 by done.
    rewrite Hd. cbn [andb]. destruct (empty (TrimRight s "-")) eqn:E; [|done]. apply bool_decide_eq_true in E. by rewrite E.
Qed.

Lemma trim_dash_named s : dashed_from false s = true → let t := Trim s "-" in t = EmptyString ∨ well_named t.
Proof.
  intros Hs%trim_left_dashed. pose proof (trim_right_named _ _ Hs) as H. cbn zeta. unfold Trim.
  destruct (empty (TrimRight _ _)) eqn:E; [left; by apply bool_decide_eq_true in E | by right].
Qed.

(** A well-formed name is its own base. *)
Lemma named_ascii s : ∀ dash, named_from dash s = true → all_ascii s = true ∧ ∀ b, b ∈ bytes_of s → ascii_upper b = false.
Proof.
  induction s as [|c s IH]; intros dash; [split; [done | by intros b ?%elem_of_nil]|]. cbn [named_from all_ascii bytes_of].
  assert (Hc : ∀ dash', named_from dash' s = true → byteZ c < 128 ∧ ascii_upper (byteZ c) = false →
    (byteZ c <? 128) && all_ascii s = true ∧ ∀ b, b ∈ byteZ c :: bytes_of s → ascii_upper b = false).
  { intros dash' Hs [H1 H2]. destruct (IH _ Hs) as [Ha Hu]. split; [by rewrite (proj2 (Z.ltb_lt _ _) H1)|].
    intros b [->|Hb]%elem_of_cons; [done | by apply Hu]. }
  case_bool_decide as Hd.
  - intros [_ Hs]%andb_true_iff. apply (Hc true Hs). by subst.
  - intros [Hs' Hs]%andb_true_iff. apply (Hc false Hs). apply slug_rune_spec in Hs'.
    split; [lia|]. apply andb_false_iff. rewrite !Z.leb_gt. lia.
Qed.

Lemma dash_runs_named s : ∀ gap, named_from gap s = true → dash_runs (bytes_of s) gap = s.
Proof.
  induction s as [|c s IH]; intros gap; [done|]. cbn [named_from bytes_of dash_runs]. case_bool_decide as Hc.
  - subst. intros [Hg Hs]%andb_true_iff. apply negb_true_iff in Hg as ->.
    assert (slug_rune (byteZ "-") = false) as -> by done. by rewrite IH.
  - intros [Hs Hn]%andb_true_iff. unfold slug_char in Hs. rewrite Hs, Zbyte_byteZ. by rewrite IH.
Qed.

Lemma trim_left_named s : well_named s → TrimLeft s "-" = s.
Proof. unfold well_named. destruct s as [|c s]; [done|]. cbn. by case_bool_decide. Qed.

Lemma trim_right_id s : ∀ dash, named_from dash s = true → TrimRight s "-" = s.
Proof.
  induction s as [|c s IH]; intros dash; [done|]. cbn [named_from TrimRight]. case_bool_decide as Hc.
  - intros [_ Hs]%andb_true_iff. rewrite (IH _ Hs). by destruct s.
  - intros [_ Hs]%andb_true_iff. by rewrite (IH _ Hs), andb_false_r.
Qed.

Lemma named_ne s : well_named s → s ≠ EmptyString.
Proof. by intros H ->. Qed.

Lemma or_string_l a b : a ≠ EmptyString → or_string a b = a.
Proof. intros H. unfold or_string, empty. by rewrite bool_decide_eq_false_2. Qed.

Section names.
Context `{U : Unicode} {UA : UnicodeAscii}.

Lemma name_base_id s fallback : well_named s → name_base s fallback = s.
Proof using UA.
  intros Hs. destruct (named_ascii _ _ Hs) as [Ha Hu]. unfold name_base. rewrite ToLower_plain, decode_ascii by done.
  rewrite (dash_runs_named s false).
  - unfold Trim. rewrite trim_left_named, (trim_right_id s true) by done. by apply or_string_l, named_ne.
  - clear -Hs. unfold well_named in Hs. destruct s as [|c s]; [done|]. cbn in *. by case_bool_decide.
Qed.

Lemma name_base_named title fallback : well_named fallback → well_named (name_base title fallback).
Proof.
  intros Hf. unfold name_base. destruct (trim_dash_named (dash_runs (decode (ToLower title)) false)) as [E|Hn]; [apply dash_runs_dashed| |].
  - by rewrite E.
  - by rewrite or_string_l by by apply named_ne.
Qed.
End names.

(** ** The first free name *)

Lemma free_number_spec fuel taken base : ∀ i,
  match free_number fuel taken base i with
  | Some name => ∃ j, i <= j ∧ name = numbered base j ∧ name ∉ taken ∧ ∀ k, i <= k < j → numbered base k ∈ taken
  | None => ∀ k, i <= k < i + Z.of_nat fuel → numbered base k ∈ taken
  end.
Proof.
  induction fuel as [|fuel IH]; intros i; cbn [free_number]; [intros; lia|]. case_bool_decide as Hi.
  - specialize (IH (i + 1)). destruct (free_number _ _ _ _) as [name|].
    + destruct IH as (j & Hj & -> & Hn & Hk). exists j. split_and!; [lia|done|done|].
      intros k Hk'. destruct (decide (k = i)) as [->|]; [done | apply Hk; lia].
    + intros k Hk. destruct (decide (k = i)) as [->|]; [done | apply IH; lia].
  - exists i. split_and!; [lia|done|done|intros; lia].
Qed.

Lemma numbered_inj base i j : numbered base i = numbered base j → i = j.
Proof. unfold numbered. intros H%(inj _)%(inj _). by apply (inj Itoa). Qed.

(** Among one more candidate than there are taken names, one is free. *)
Lemma free_number_total taken base i : ∃ name, free_number (S (size taken)) taken base i = Some name.
Proof.
  pose proof (free_number_spec (S (size taken)) taken base i) as H. destruct (free_number _ _ _ _) as [name|]; [by exists name|].
  exfalso. set (l := (λ n, numbered base (i + Z.of_nat n)) <$> seq 0 (S (size taken))).
  assert (NoDup l) as Hl.
  { apply NoDup_fmap_2; [|apply NoDup_seq]. intros x y Hxy%numbered_inj. lia. }
  assert (size (list_to_set (C := gset string) l) <= size taken)%nat as Hs.
  { apply subseteq_size. intros x [n [-> Hn]]%elem_of_list_to_set%list_elem_of_fmap. apply elem_of_seq in Hn. apply H. lia. }
  rewrite size_list_to_set in Hs by done. unfold l in Hs. rewrite length_fmap, length_seq in Hs. lia.
Qed.

Lemma named_from_app s t : ∀ dash, named_from dash s = true → named_from dash (s +:+ t) = named_from false t.
Proof.
  induction s as [|c s IH]; intros dash; [by destruct dash|]. rewrite append_cons. cbn [named_from]. case_bool_decide.
  - intros [Hd Hs]%andb_true_iff. by rewrite Hd, (IH true).
  - intros [Hd Hs]%andb_true_iff. by rewrite Hd, (IH false).
Qed.

Lemma digits_named s : Forall (λ b, ascii_digit b = true) (bytes_of s) → s ≠ EmptyString → well_named s.
Proof.
  intros Hs Hne. assert (named_from false s = true) as H.
  { clear Hne. induction s as [|c s IH]; [done|]. cbn in Hs. inversion Hs as [|? ? Hc Hs']; subst. cbn [named_from].
    rewrite bool_decide_eq_false_2 by (by intros ->). unfold slug_char, slug_rune. by rewrite Hc, orb_true_r, IH. }
  unfold well_named. destruct s as [|c s]; [done|]. cbn [named_from] in *. by case_bool_decide as E; [rewrite E in Hs; inversion Hs|].
Qed.

Lemma numbered_named base i : well_named base → 0 <= i → well_named (numbered base i).
Proof.
  intros Hb Hi. unfold well_named, numbered. rewrite (named_from_app _ _ true) by done.
  destruct (Itoa_digits i Hi). by apply (digits_named (Itoa i)).
Qed.

Section free.
Context `{U : Unicode} {UA : UnicodeAscii}.

Definition first_free (taken : gset string) (base name : string) : Prop :=
  name ∉ taken ∧
  (name = base ∨ base ∈ taken ∧ ∃ j, 2 <= j ∧ name = numbered base j ∧ ∀ k, 2 <= k < j → numbered base k ∈ taken).

Lemma freeName_spec taken title fallback : ∃ name, freeName taken title fallback = Some name ∧
  first_free taken (name_base title fallback) name ∧ (well_named fallback → well_named name).
Proof using Type.
  unfold freeName. set (base := name_base title fallback). case_bool_decide as Hb.
  - destruct (free_number_total taken base 2) as [name E]. pose proof (free_number_spec (S (size taken)) taken base 2) as H.
    rewrite E in H. destruct H as (j & Hj & -> & Hn & Hk). exists (numbered base j). split; [done|]. split.
    + split; [done|]. right. split; [done|]. by exists j.
    + intros Hf. apply numbered_named; [by apply name_base_named | lia].
  - exists base. split; [done|]. split; [by split; [|left] | by apply name_base_named].
Qed.

Lemma freeName_fresh taken title fallback name : freeName taken title fallback = Some name → name ∉ taken.
Proof using Type. destruct (freeName_spec taken title fallback) as (n & -> & [Hn _] & _). congruence. Qed.

Lemma freeName_named taken title fallback name : well_named fallback → freeName taken title fallback = Some name → well_named name.
Proof using Type. intros Hf. destruct (freeName_spec taken title fallback) as (n & -> & _ & Hn). intros [= <-]. auto. Qed.

(** A well-formed name nobody has taken is kept. *)
Lemma freeName_id taken name fallback : well_named name → name ∉ taken → freeName taken name fallback = Some name.
Proof using UA. intros Hn Ht. unfold freeName. rewrite name_base_id by done. by rewrite bool_decide_eq_false_2. Qed.
End free.

(** ** Editing the references of a tree *)

Lemma with_content_id n c : yn_Content (with_content n c) = c ∧ yn_Kind (with_content n c) = yn_Kind n ∧ yn_Value (with_content n c) = yn_Value n.
Proof. by destruct n. Qed.

Lemma find_edit_value key g content k :
  find_value k (edit_value key g content) = if eqs key k then g <$> find_value k content else find_value k content.
Proof.
  unfold find_value. induction content as [| |x v l IH] using pairs_ind; [by case_match..|].
  cbn [edit_value]. destruct (eqs (yn_Value x) key) eqn:E1; cbn [pairs List.find fst snd].
  - apply eqs_true in E1. destruct (eqs (yn_Value x) k) eqn:E2, (eqs key k) eqn:E3; try done;
      (apply eqs_true in E2 || apply eqs_true in E3); subst; rewrite ?E2, ?E3 in *; try done;
      [rewrite (proj2 (eqs_true _ _) eq_refl) in E3|rewrite (proj2 (eqs_true _ _) eq_refl) in E2]; done.
  - destruct (eqs (yn_Value x) k) eqn:E2; [|done]. destruct (eqs key k) eqn:E3; [|done].
    apply eqs_true in E2, E3. subst. by rewrite (proj2 (eqs_true _ _) eq_refl) in E1.
Qed.

Lemma mapValue_edit_at key g n k : mapValue (edit_at key g n) k = if eqs key k then g <$> mapValue n k else mapValue n k.
Proof.
  unfold mapValue, edit_at. destruct (is_kind MappingNode n) eqn:E; [|rewrite E; by case_match].
  destruct (with_content_id n (edit_value key g (yn_Content n))) as (Hc & Hk & _).
  unfold is_kind in *. rewrite Hk, E, Hc. apply find_edit_value.
Qed.

Lemma edit_at_kind key g n : yn_Kind (edit_at key g n) = yn_Kind n.
Proof. unfold edit_at. case_match; [|done]. by destruct (with_content_id n (edit_value key g (yn_Content n))) as (_ & -> & _). Qed.

Lemma edit_refs_kind f s n : yn_Kind (edit_refs f s n) = yn_Kind n.
Proof. unfold edit_refs. destruct s; by rewrite !edit_at_kind. Qed.

Lemma values_edit g content : (pairs (edit_values g content)).*2 = g <$> (pairs content).*2.
Proof. induction content as [| |k v l IH] using pairs_ind; [done..|]. cbn. by f_equal. Qed.

Lemma mapping_values_edit_all g n : mapping_values (edit_all g n) = g <$> mapping_values n.
Proof.
  unfold mapping_values, edit_all. destruct (is_kind MappingNode n) eqn:E; [|by rewrite E].
  destruct (with_content_id n (edit_values g (yn_Content n))) as (Hc & Hk & _).
  unfold is_kind in *. rewrite Hk, E, Hc. apply values_edit.
Qed.

Lemma bind_same_refs (g : node → node) (h h' : node → list string) (f : string → string) l :
  (∀ n, h' (g n) = f <$> h n) → (g <$> l) ≫= h' = f <$> (l ≫= h).
Proof. intros Hg. induction l as [|n l IH]; [done|]. rewrite fmap_cons, !bind_cons, fmap_app, Hg. by f_equal. Qed.

Ltac eval_eqs := repeat match goal with |- context [eqs ?a ?b] => let v := eval vm_compute in (eqs a b) in change (eqs a b) with v end; cbn iota.

Section edit.
Variable f : string → string.
Hypothesis Hf : ∀ v, v ≠ EmptyString → f v ≠ EmptyString.

Lemma scalar_refs_edit (o : option node) : scalar_refs (edit_scalar f <$> o) = f <$> scalar_refs o.
Proof using Hf.
  destruct o as [n|]; [|done]. cbn. unfold edit_scalar. destruct (names_ref n) eqn:E; [|by rewrite E].
  assert (names_ref (set_value n (f (yn_Value n))) = true) as ->; [|by destruct n].
  unfold names_ref in *. apply andb_true_iff in E as [Hk Hv]. apply andb_true_iff. destruct n as [k v l c]. cbn in *. split; [done|].
  apply negb_true_iff, bool_decide_eq_false in Hv. by apply negb_true_iff, bool_decide_eq_false, Hf.
Qed.

Lemma scalar_refs_at key (n : node) : scalar_refs (mapValue (edit_at key (edit_scalar f) n) key) = f <$> scalar_refs (mapValue n key).
Proof using Hf. rewrite mapValue_edit_at, (proj2 (eqs_true _ _) eq_refl). apply scalar_refs_edit. Qed.

Lemma program_refs_edit (o : option node) : program_refs (edit_programs f <$> o) = f <$> program_refs o.
Proof using Hf.
  destruct o as [n|]; [|done]. cbn. unfold edit_programs. rewrite mapping_values_edit_all.
  apply bind_same_refs. intros v. apply scalar_refs_at.
Qed.

Lemma program_refs_at (n : node) :
  program_refs (mapValue (edit_at "groups" (edit_programs f) n) "groups") = f <$> program_refs (mapValue n "groups").
Proof using Hf. rewrite mapValue_edit_at. apply program_refs_edit. Qed.

(** What is listed after the edit is what was listed, changed. *)
Lemma profileRefs_edit s n : profileRefs (edit_refs f s n) s = f <$> profileRefs n s.
Proof using Hf.
  destruct s; [|apply scalar_refs_at]. unfold profileRefs, edit_refs.
  rewrite !mapValue_edit_at. eval_eqs. rewrite !fmap_app, program_refs_edit. f_equal. f_equal.
  - destruct (mapValue n "on") as [on|]; [|done]. cbn [fmap option_fmap option_map]. rewrite mapping_values_edit_all. apply bind_same_refs. intros v. apply program_refs_at.
  - destruct (mapValue n "routes") as [routes|]; [|done]. cbn [fmap option_fmap option_map]. unfold edit_items. destruct (is_kind SequenceNode routes) eqn:E; [|by rewrite E].
    destruct (with_content_id routes (edit_at "profile" (edit_scalar f) <$> yn_Content routes)) as (Hc & Hk & _).
    unfold is_kind in *. rewrite Hk, E, Hc. apply bind_same_refs. intros v. apply scalar_refs_at.
Qed.
End edit.

Lemma edit_refs_title f s n : mapValue (edit_refs f s n) "title" = mapValue n "title".
Proof. destruct s; cbn; by rewrite !mapValue_edit_at. Qed.

(** Two edits are one. *)
Lemma edit_value_ext key g h content : (∀ n, g n = h n) → edit_value key g content = edit_value key h content.
Proof. intros Hg. induction content as [| |k v l IH] using pairs_ind; [done..|]. cbn. by rewrite Hg, IH. Qed.

Lemma edit_value_compose key g h content : edit_value key g (edit_value key h content) = edit_value key (λ n, g (h n)) content.
Proof.
  induction content as [| |k v l IH] using pairs_ind; [done..|]. cbn. destruct (eqs (yn_Value k) key) eqn:E; cbn; rewrite E; [done | by f_equal; f_equal].
Qed.

Lemma edit_value_comm key key' g h content : key ≠ key' →
  edit_value key g (edit_value key' h content) = edit_value key' h (edit_value key g content).
Proof.
  intros Hk. induction content as [| |k v l IH] using pairs_ind; [done..|]. cbn.
  destruct (eqs (yn_Value k) key') eqn:E', (eqs (yn_Value k) key) eqn:E; cbn; rewrite ?E, ?E'; try done.
  - apply eqs_true in E, E'. congruence.
  - by f_equal; f_equal.
Qed.

Lemma edit_at_content key g n : is_kind MappingNode n = true → edit_at key g n = with_content n (edit_value key g (yn_Content n)).
Proof. intros E. unfold edit_at. by rewrite E. Qed.

Lemma edit_at_compose key g h n : edit_at key g (edit_at key h n) = edit_at key (λ n, g (h n)) n.
Proof. unfold edit_at. destruct (is_kind MappingNode n) eqn:E; [|by rewrite E]. destruct n as [k v l c]. unfold is_kind in *. cbn in *. rewrite E. cbn. by rewrite edit_value_compose. Qed.

Lemma edit_at_comm key key' g h n : key ≠ key' → edit_at key g (edit_at key' h n) = edit_at key' h (edit_at key g n).
Proof.
  intros Hk. unfold edit_at. destruct (is_kind MappingNode n) eqn:E; [|by rewrite E]. destruct n as [k v l c]. unfold is_kind in *. cbn in *.
  rewrite E. cbn. by rewrite edit_value_comm.
Qed.

Lemma edit_at_ext key g h n : (∀ n, g n = h n) → edit_at key g n = edit_at key h n.
Proof. intros Hg. unfold edit_at. case_match; [|done]. by rewrite (edit_value_ext _ _ _ _ Hg). Qed.

Lemma edit_all_compose g h k n : (∀ n, g (h n) = k n) → edit_all g (edit_all h n) = edit_all k n.
Proof.
  intros Hk. unfold edit_all. destruct (is_kind MappingNode n) eqn:E; [|by rewrite E]. destruct n as [kd v l c]. unfold is_kind in *. cbn in *. rewrite E. cbn.
  f_equal. induction c as [| |x y c IH] using pairs_ind; [done..|]. cbn. by rewrite Hk, IH.
Qed.

Lemma edit_items_compose g h k n : (∀ n, g (h n) = k n) → edit_items g (edit_items h n) = edit_items k n.
Proof.
  intros Hk. unfold edit_items. destruct (is_kind SequenceNode n) eqn:E; [|by rewrite E]. destruct n as [kd v l c]. unfold is_kind in *. cbn in *. rewrite E. cbn.
  f_equal. rewrite <- list_fmap_compose. apply list_fmap_ext. intros i x _. apply Hk.
Qed.

Lemma edit_refs_compose g f s n : (∀ v, v ≠ EmptyString → f v ≠ EmptyString) →
  edit_refs g s (edit_refs f s n) = edit_refs (λ v, g (f v)) s n.
Proof.
  intros Hf. assert (Hs : ∀ n, edit_scalar g (edit_scalar f n) = edit_scalar (λ v, g (f v)) n).
  { intros [[] v l c]; try done. unfold edit_scalar. assert (Hn : ∀ w, names_ref (Node ScalarNode w l c) = negb (empty w)) by done.
    rewrite !Hn. destruct (empty v) eqn:E; cbn [negb]; [by rewrite Hn, E|].
    apply bool_decide_eq_false in E. cbn [set_value yn_Value]. rewrite Hn.
    by assert (empty (f v) = false) as -> by by apply bool_decide_eq_false, Hf. }
  assert (Hprofile : ∀ n, edit_at "profile" (edit_scalar g) (edit_at "profile" (edit_scalar f) n) = edit_at "profile" (edit_scalar (λ v, g (f v))) n).
  { intros m. rewrite edit_at_compose. by apply edit_at_ext. }
  assert (Hprograms : ∀ n, edit_programs g (edit_programs f n) = edit_programs (λ v, g (f v)) n) by (intros m; by apply edit_all_compose).
  assert (Hgroups : ∀ n, edit_at "groups" (edit_programs g) (edit_at "groups" (edit_programs f) n) = edit_at "groups" (edit_programs (λ v, g (f v))) n).
  { intros m. rewrite edit_at_compose. by apply edit_at_ext. }
  destruct s; unfold edit_refs; [|rewrite edit_at_compose; by apply edit_at_ext].
  rewrite (edit_at_comm "groups" "routes"), (edit_at_comm "groups" "on"), (edit_at_comm "on" "routes"), Hgroups by done.
  rewrite !edit_at_compose. rewrite (edit_at_ext "routes" _ (edit_items (edit_at "profile" (edit_scalar (λ v, g (f v))))) _) by (intros m; by apply edit_items_compose).
  f_equal. apply edit_at_ext. intros m. by apply edit_all_compose.
Qed.

(** ** Trees as YAML writes them

    [plain] forgets what a node only carries along: tags, styles, comments.
    [formed] holds of the trees decoding gives: only scalars and aliases have
    a value, and it is UTF-8; a mapping alternates keys and values. *)

Fixpoint plain (n : node) : node := let 'Node k v _ c := n in Node k v EmptyString (List.map plain c).

(** The same tree, but for its looks. *)
Definition same_tree (a b : node) : Prop := plain a = plain b.

Definition utf8_text (v : string) : bool := eqs (encode (decode v)) v.

Definition formed_here (k : nodeKind) (v : string) (c : list node) : bool :=
  match k with
  | ScalarNode | AliasNode => utf8_text v && bool_decide (c = [])
  | SequenceNode => empty v
  | MappingNode => empty v && Nat.even (length c)
  end.

Fixpoint formed (n : node) : bool := let 'Node k v _ c := n in formed_here k v c && forallb formed c.

Lemma plain_eq k v l c : plain (Node k v l c) = Node k v EmptyString (plain <$> c).
Proof. done. Qed.
Lemma plain_kind n : yn_Kind (plain n) = yn_Kind n.
Proof. by destruct n. Qed.
Lemma plain_value n : yn_Value (plain n) = yn_Value n.
Proof. by destruct n. Qed.
Lemma plain_content n : yn_Content (plain n) = plain <$> yn_Content n.
Proof. by destruct n. Qed.
Lemma plain_is_kind k n : is_kind k (plain n) = is_kind k n.
Proof. unfold is_kind. by rewrite plain_kind. Qed.

Lemma pairs_fmap {A B} (f : A → B) l : pairs (f <$> l) = prod_map f f <$> pairs l.
Proof. induction l as [| |k v l IH] using pairs_ind; [done..|]. cbn. by f_equal. Qed.

Lemma plain_find key content : find_value key (plain <$> content) = plain <$> find_value key content.
Proof.
  unfold find_value. rewrite pairs_fmap. induction (pairs content) as [|[k v] l IH]; [done|]. cbn. rewrite plain_value. by destruct (eqs _ _).
Qed.

Lemma plain_mapValue n key : mapValue (plain n) key = plain <$> mapValue n key.
Proof. unfold mapValue. rewrite plain_is_kind, plain_content, plain_find. by destruct (is_kind _ _). Qed.

Lemma plain_names_ref n : names_ref (plain n) = names_ref n.
Proof. unfold names_ref. by rewrite plain_is_kind, plain_value. Qed.

Lemma plain_with_content n c : plain (with_content n c) = with_content (plain n) (plain <$> c).
Proof. by destruct n. Qed.

Section plain_edit.
Variables g : node → node.
Hypothesis Hg : ∀ n, plain (g n) = g (plain n).

Lemma plain_edit_at key n : plain (edit_at key g n) = edit_at key g (plain n).
Proof using Hg.
  unfold edit_at. rewrite plain_is_kind. destruct (is_kind _ _); [|done]. rewrite plain_with_content, plain_content. f_equal.
  induction (yn_Content n) as [| |k v l IH] using pairs_ind; [done..|]. cbn. rewrite plain_value. destruct (eqs _ _); cbn; [by rewrite Hg | by f_equal; f_equal].
Qed.

Lemma plain_edit_all n : plain (edit_all g n) = edit_all g (plain n).
Proof using Hg.
  unfold edit_all. rewrite plain_is_kind. destruct (is_kind _ _); [|done]. rewrite plain_with_content, plain_content. f_equal.
  induction (yn_Content n) as [| |k v l IH] using pairs_ind; [done..|]. cbn. rewrite Hg. by f_equal; f_equal.
Qed.

Lemma plain_edit_items n : plain (edit_items g n) = edit_items g (plain n).
Proof using Hg.
  unfold edit_items. rewrite plain_is_kind. destruct (is_kind _ _); [|done]. rewrite plain_with_content, plain_content. f_equal.
  rewrite <- !list_fmap_compose. apply list_fmap_ext. intros i x _. apply Hg.
Qed.
End plain_edit.

Lemma plain_edit_refs f s n : plain (edit_refs f s n) = edit_refs f s (plain n).
Proof.
  assert (Hs : ∀ m, plain (edit_scalar f m) = edit_scalar f (plain m)).
  { intros m. unfold edit_scalar. rewrite plain_names_ref, plain_value. destruct (names_ref m); [by destruct m | done]. }
  assert (Hp : ∀ m, plain (edit_at "profile" (edit_scalar f) m) = edit_at "profile" (edit_scalar f) (plain m)) by (intros; by apply plain_edit_at).
  assert (Hg : ∀ m, plain (edit_programs f m) = edit_programs f (plain m)) by (intros; by apply plain_edit_all).
  destruct s; cbn [edit_refs]; [|by apply plain_edit_at].
  rewrite plain_edit_at by (intros; by apply plain_edit_items). f_equal.
  rewrite plain_edit_at by (intros; apply plain_edit_all; intros; by apply plain_edit_at). f_equal. by apply plain_edit_at.
Qed.

Lemma same_edit_refs f s a b : same_tree a b → same_tree (edit_refs f s a) (edit_refs f s b).
Proof. unfold same_tree. rewrite !plain_edit_refs. by intros ->. Qed.

Lemma plain_scalar_refs o : scalar_refs (plain <$> o) = scalar_refs o.
Proof. destruct o as [n|]; [|done]. cbn. by rewrite plain_names_ref, plain_value. Qed.

Lemma plain_mapping_values n : mapping_values (plain n) = plain <$> mapping_values n.
Proof.
  unfold mapping_values. rewrite plain_is_kind, plain_content, pairs_fmap. destruct (is_kind _ _); [|done].
  rewrite <- !list_fmap_compose. by apply list_fmap_ext.
Qed.

Lemma plain_program_refs o : program_refs (plain <$> o) = program_refs o.
Proof.
  destruct o as [n|]; [|done]. cbn. rewrite plain_mapping_values. induction (mapping_values n) as [|m l IH]; [done|].
  rewrite fmap_cons, !bind_cons, IH, plain_mapValue, plain_scalar_refs. done.
Qed.

Lemma plain_profileRefs n s : profileRefs (plain n) s = profileRefs n s.
Proof.
  destruct s; cbn [profileRefs]; [|by rewrite plain_mapValue, plain_scalar_refs]. rewrite !plain_mapValue, plain_program_refs. f_equal. f_equal.
  - destruct (mapValue n "on") as [on|]; [|done]. cbn. rewrite plain_mapping_values. induction (mapping_values on) as [|m l IH]; [done|].
    rewrite fmap_cons, !bind_cons, IH, plain_mapValue, plain_program_refs. done.
  - destruct (mapValue n "routes") as [routes|]; [|done]. cbn. rewrite plain_is_kind, plain_content. destruct (is_kind _ _); [|done].
    induction (yn_Content routes) as [|m l IH]; [done|]. rewrite fmap_cons, !bind_cons, IH, plain_mapValue, plain_scalar_refs. done.
Qed.

Lemma same_profileRefs a b s : same_tree a b → profileRefs a s = profileRefs b s.
Proof. unfold same_tree. intros E. by rewrite <- (plain_profileRefs a), <- (plain_profileRefs b), E. Qed.

(** *** Edits keep a tree formed *)

Lemma formed_eq k v l c : formed (Node k v l c) = formed_here k v c && forallb formed c.
Proof. done. Qed.

Lemma utf8_ascii s : all_ascii s = true → utf8_text s = true.
Proof. intros Hs. unfold utf8_text. rewrite decode_ascii, encode_bytes by done. by apply eqs_true. Qed.

Section formed_edit.
Variable g : node → node.
Hypothesis Hg : ∀ n, formed n = true → formed (g n) = true.

Lemma formed_with_content n c : is_kind ScalarNode n = false → is_kind AliasNode n = false → formed n = true →
  forallb formed c = true → length c = length (yn_Content n) → formed (with_content n c) = true.
Proof using Type.
  destruct n as [k v l c0]. unfold is_kind. cbn [yn_Kind with_content yn_Content]. rewrite !bool_decide_eq_false, !formed_eq, !andb_true_iff.
  intros Hs Ha [Hh _] Hc Hl. split; [|done]. destruct k; [done | | done | done]. cbn in *. by rewrite Hl.
Qed.

Lemma formed_content n : formed n = true → forallb formed (yn_Content n) = true.
Proof using Type. destruct n as [k v l c]. rewrite formed_eq. by intros [_ ?]%andb_true_iff. Qed.

Lemma not_leaf n k : is_kind k n = true → k = MappingNode ∨ k = SequenceNode → is_kind ScalarNode n = false ∧ is_kind AliasNode n = false.
Proof using Type. unfold is_kind. rewrite bool_decide_eq_true, !bool_decide_eq_false. intros -> [->| ->]; done. Qed.

Lemma formed_edit_at key n : formed n = true → formed (edit_at key g n) = true.
Proof using Hg.
  intros Hn. unfold edit_at. destruct (is_kind MappingNode n) eqn:E; [|done]. destruct (not_leaf n _ E (or_introl eq_refl)) as [H1 H2].
  pose proof (formed_content n Hn) as Hc.
  assert (Hx : forallb formed (edit_value key g (yn_Content n)) = true ∧ length (edit_value key g (yn_Content n)) = length (yn_Content n)).
  { induction (yn_Content n) as [| |k v l IH] using pairs_ind; [done..|]. cbn in Hc |- *. rewrite !andb_true_iff in Hc. destruct Hc as (Hk & Hv & Hl).
    destruct (eqs _ _); cbn; [by rewrite Hk, Hl, Hg|]. destruct (IH Hl) as [-> ->]. by rewrite Hk, Hv. }
  destruct Hx as [Hx1 Hx2]. by apply formed_with_content.
Qed.

Lemma formed_edit_all n : formed n = true → formed (edit_all g n) = true.
Proof using Hg.
  intros Hn. unfold edit_all. destruct (is_kind MappingNode n) eqn:E; [|done]. destruct (not_leaf n _ E (or_introl eq_refl)) as [H1 H2].
  pose proof (formed_content n Hn) as Hc.
  assert (Hx : forallb formed (edit_values g (yn_Content n)) = true ∧ length (edit_values g (yn_Content n)) = length (yn_Content n)).
  { induction (yn_Content n) as [| |k v l IH] using pairs_ind; [done..|]. cbn in Hc |- *. rewrite !andb_true_iff in Hc. destruct Hc as (Hk & Hv & Hl).
    destruct (IH Hl) as [-> ->]. by rewrite Hk, Hg. }
  destruct Hx as [Hx1 Hx2]. by apply formed_with_content.
Qed.

Lemma formed_edit_items n : formed n = true → formed (edit_items g n) = true.
Proof using Hg.
  intros Hn. unfold edit_items. destruct (is_kind SequenceNode n) eqn:E; [|done]. destruct (not_leaf n _ E (or_intror eq_refl)) as [H1 H2].
  apply formed_with_content; [done..| |by rewrite length_fmap]. pose proof (formed_content n Hn) as Hc.
  induction (yn_Content n) as [|x l IH]; [done|]. cbn in *. apply andb_true_iff in Hc as [Hx Hl]. by rewrite Hg, IH.
Qed.
End formed_edit.

Lemma formed_edit_refs f s n : (∀ v, utf8_text v = true → utf8_text (f v) = true) → formed n = true → formed (edit_refs f s n) = true.
Proof.
  intros Hf. assert (Hs : ∀ m, formed m = true → formed (edit_scalar f m) = true).
  { intros [k v l c]. unfold edit_scalar. destruct (names_ref _) eqn:E; [|done]. unfold names_ref, is_kind in E.
    apply andb_true_iff in E as [Ek%bool_decide_eq_true _]. cbn in Ek. subst k. cbn. rewrite !andb_true_iff. intros [[Hv Hc] Ha]. auto. }
  assert (Hp : ∀ m, formed m = true → formed (edit_at "profile" (edit_scalar f) m) = true) by (intros; by apply formed_edit_at).
  assert (Hg : ∀ m, formed m = true → formed (edit_programs f m) = true) by (intros; by apply formed_edit_all).
  assert (Hgs : ∀ m, formed m = true → formed (edit_at "groups" (edit_programs f) m) = true) by (intros; by apply formed_edit_at).
  intros Hn. destruct s; cbn [edit_refs]; [|by apply formed_edit_at].
  apply formed_edit_at; [intros; by apply formed_edit_items|]. apply formed_edit_at; [intros; by apply formed_edit_all | auto].
Qed.

(** ** Canonical ids *)

Section ids.
Context `{U : Unicode} {UA : UnicodeAscii}.

Lemma TrimSpace_after s t : all_ascii s = true → (∀ c, head (rune_chunks s 0) = Some c → is_space c.1 = false) → s ≠ EmptyString →
  t ≠ EmptyString → TrimSpace t = t → TrimSpace (s +:+ t) = s +:+ t.
Proof using Type.
  intros Hs Hhead Hne Htne Ht. apply TrimSpace_id. intros c. rewrite chunks_app_ascii by done.
  rewrite head_app, last_app. destruct (rune_chunks s 0) as [|c0 cs] eqn:E; [by apply chunks_nil in E|].
  intros [Hc|Hc]; [apply Hhead; exact Hc|].
  destruct (last (rune_chunks t 0)) as [c'|] eqn:El; [|by apply last_None, chunks_nil in El]. simplify_eq.
  rewrite <- Ht, chunks_TrimSpace in El. apply (trim_ends spacy (rune_chunks t 0) c). by right.
Qed.

Lemma slash_contained s : Contains ("provider/" +:+ s) "/" = true.
Proof. apply bool_decide_eq_true. exists 8%nat. unfold Index. by rewrite !append_cons, append_nil_l; destruct s. Qed.

Lemma CanonicalID_idem id : CanonicalID (CanonicalID id) = CanonicalID id.
Proof using UA.
  unfold CanonicalID at 2 3. destruct (empty (TrimSpace id) || Contains (TrimSpace id) "/") eqn:E; unfold CanonicalID.
  - by rewrite TrimSpace_idem, E.
  - apply orb_false_iff in E as [E1 E2]. apply bool_decide_eq_false in E1.
    rewrite <- append_assoc, TrimSpace_after; [| | |done..|by apply TrimSpace_idem]; [|done|].
    + change (SubscriptionSource +:+ "/") with "provider/". by rewrite slash_contained, orb_true_r.
    + cbn. intros c [= <-]. by rewrite space_ascii by done.
Qed.
End ids.
