(* ===== verification/BundleExchange.v ===== *)
(** * Bundles: closed exports, consistent imports

    The loop of [Export], the bundle it writes and what [Unpack] makes of a
    bundle. *)

From S2P Require Import Prelude GoText TextFacts Cond CondSyntax Profile Policy Library Route Scenario Layers Merge Bundle BundleFacts.

(** ** What an export reaches *)

Section export.
Context `{U : Unicode} {UA : UnicodeAscii} `{YamlNodes}.
Variables (lib : Sources) (start : list string).

Definition order_refs (order : list (string * node)) : list string := order ≫= λ p, profileRefs p.2 false.

(** The state of the loop: the profiles found, each under a name of its own,
    and every reference seen either settled or in the queue. *)
Record export_ok (st : found) (queue : list string) : Prop := {
  eo_dom c : is_Some (fd_names st !! c) ↔ c ∈ (fd_order st).*1;
  eo_nodup : NoDup (fd_order st).*1;
  eo_inj c c' name : fd_names st !! c = Some name → fd_names st !! c' = Some name → c = c';
  eo_used c name : fd_names st !! c = Some name → name ∈ fd_used st ∧ well_named name;
  eo_doc c root : (c, root) ∈ fd_order st → CanonicalID c = c ∧ isBuiltinRef c = false ∧
    ∃ source, so_profiles lib !! c = Some source ∧ docRoot source = Ok root;
  eo_all ref : ref ∈ start ++ order_refs (fd_order st) →
    isBuiltinRef ref = true ∨ is_Some (fd_names st !! CanonicalID ref) ∨ ref ∈ queue;
}.

Lemma export_start : export_ok nothing_found start.
Proof using UA.
  split; cbn; try (intros; set_solver); [|by apply NoDup_nil_2].
  intros c. rewrite lookup_empty. split; [by intros [? [=]] | by intros ?%elem_of_nil].
Qed.

Lemma export_bound st queue : export_ok st queue → (length (fd_order st) <= size (so_profiles lib))%nat.
Proof using Type.
  intros Hok. rewrite <- (length_fmap fst), <- (size_list_to_set (C := gset string)) by apply (eo_nodup _ _ Hok).
  rewrite <- size_dom. apply subseteq_size. intros c Hc%elem_of_list_to_set%list_elem_of_fmap. destruct Hc as ([c' root] & -> & Hin).
  destruct (eo_doc _ _ Hok _ _ Hin) as (_ & _ & source & Hs & _). apply elem_of_dom. by exists source.
Qed.

Lemma export_skip st ref queue : export_ok st (ref :: queue) →
  isBuiltinRef ref || bool_decide (is_Some (fd_names st !! CanonicalID ref)) = true → export_ok st queue.
Proof using Type.
  intros [] Hskip. split; try done. intros r Hr. destruct (eo_all0 r Hr) as [|[|[->|]%elem_of_cons]]; [by left | by right; left | | by right; right].
  apply orb_true_iff in Hskip as [|Hs]; [by left|]. right; left. by apply bool_decide_eq_true in Hs.
Qed.

Lemma export_take st ref queue source root name :
  export_ok st (ref :: queue) → isBuiltinRef ref = false → fd_names st !! CanonicalID ref = None →
  so_profiles lib !! CanonicalID ref = Some source → docRoot source = Ok root → name ∉ fd_used st → well_named name →
  export_ok {| fd_names := <[CanonicalID ref := name]> (fd_names st); fd_used := {[ name ]} ∪ fd_used st;
               fd_order := fd_order st ++ [(CanonicalID ref, root)] |} (queue ++ profileRefs root false).
Proof using UA.
  intros [] Hb Hnone Hs Hroot Hname Hwell. set (canon := CanonicalID ref) in *.
  assert (Hfresh : ∀ c, fd_names st !! c = Some name → False) by (intros c Hc; by apply Hname, (eo_used0 c name)).
  split; cbn [fd_names fd_used fd_order].
  - intros c. rewrite lookup_insert_is_Some', eo_dom0, fmap_app, elem_of_app. cbn. rewrite list_elem_of_singleton. naive_solver.
  - rewrite fmap_app. apply NoDup_app. split; [done|]. split; [|apply NoDup_singleton].
    intros c Hc ->%list_elem_of_singleton. apply eo_dom0 in Hc. cbn in Hc. by rewrite Hnone in Hc; destruct Hc.
  - intros c c' n. rewrite !lookup_insert_Some. intros [[<- <-]|[_ Hc]] [[<- E]|[_ Hc']]; try done.
    + by destruct (Hfresh _ Hc').
    + subst. by destruct (Hfresh _ Hc).
    + by eapply eo_inj0.
  - intros c n. rewrite lookup_insert_Some. intros [[<- <-]|[_ Hc]]; [split; [set_solver | done]|].
    destruct (eo_used0 _ _ Hc). split; [set_solver | done].
  - intros c r [Hin|[= -> ->]%list_elem_of_singleton]%elem_of_app; [by apply eo_doc0|].
    split; [apply CanonicalID_idem|]. split; [|by exists source]. unfold isBuiltinRef, canon in *. by rewrite CanonicalID_idem.
  - intros r. unfold order_refs. rewrite bind_app, app_assoc, elem_of_app. cbn. rewrite app_nil_r. rewrite !elem_of_app.
    rewrite lookup_insert_is_Some'. intros [Hr|Hr]; [|naive_solver].
    rewrite <- elem_of_app in Hr. destruct (eo_all0 r Hr) as [|[|[->|]%elem_of_cons]]; [by left | by right; left; right | | by right; right; left].
    right; left. by left.
Qed.

Lemma length_profile_refs root : (length (profileRefs root false) <= 1)%nat.
Proof using Type. cbn. unfold scalar_refs. destruct (mapValue _ _); [|cbn; lia]. case_match; cbn; lia. Qed.

(** A reference the export cannot follow. *)
Definition broken (c : string) : Prop :=
  so_profiles lib !! c = None ∨ ∃ source e, so_profiles lib !! c = Some source ∧ docRoot source = Err e.

Lemma export_loop_spec fuel : ∀ st queue, export_ok st queue →
  (length queue + size (so_profiles lib) < fuel + length (fd_order st))%nat →
  ∃ r, export_loop fuel lib st queue = Some r ∧
    match r with Ok st' => export_ok st' [] | Err _ => ∃ c, isBuiltinRef c = false ∧ broken c end.
Proof using UA.
  induction fuel as [|fuel IH]; intros st queue Hok Hfuel.
  { pose proof (export_bound _ _ Hok). lia. }
  destruct queue as [|ref queue]; [by exists (Ok st)|]. cbn [export_loop length] in *.
  destruct (isBuiltinRef ref || _) eqn:Eskip.
  - apply IH; [by eapply export_skip | lia].
  - apply orb_false_iff in Eskip as [Hb Hn]. apply bool_decide_eq_false, eq_None_not_Some in Hn.
    assert (Hcanon : isBuiltinRef (CanonicalID ref) = false) by (unfold isBuiltinRef in *; by rewrite CanonicalID_idem).
    unfold so_Source. rewrite CanonicalID_idem. destruct (so_profiles lib !! CanonicalID ref) as [source|] eqn:Es.
    2: { eexists. split; [done|]. exists (CanonicalID ref). split; [done | by left]. }
    destruct (docRoot source) as [root|e] eqn:Er.
    2: { eexists. split; [done|]. exists (CanonicalID ref). split; [done|]. right. by exists source, e. }
    destruct (freeName_spec (fd_used st) (label_of root (CanonicalID ref)) "profile") as (name & -> & [Hfree _] & Hwell).
    cbn [mbind option_bind]. apply IH.
    + eapply export_take; try done. by apply Hwell.
    + cbn [fd_order]. rewrite !length_app. cbn [length]. pose proof (length_profile_refs root). lia.
Qed.
End export.

(** ** The bundle around the renamed documents *)

Section tree.
Context `{U : Unicode} {UA : UnicodeAscii} `{YamlNodes}.

Definition own_doc (names : gmap string string) (scenario : bool) (self : string) (root : node) : bundleDoc :=
  {| bd_kind := kind_name scenario; bd_key := self; bd_node := edit_refs (rename_ref names) scenario root |}.

Definition carried_doc (names : gmap string string) (p : string * node) : bundleDoc :=
  {| bd_kind := "profile"; bd_key := default EmptyString (names !! p.1); bd_node := edit_refs (rename_ref names) false p.2 |}.

Definition exported_docs (st : found) (scenario : bool) (self : string) (root : node) : list bundleDoc :=
  let own := [own_doc (fd_names st) scenario self root] in
  let carried := carried_doc (fd_names st) <$> fd_order st in
  if scenario then carried ++ own else own ++ carried.

Definition entry_of (d : bundleDoc) : list node := [scalar (bd_key d); bd_node d].

Lemma pairs_entries docs : pairs (docs ≫= entry_of) = (λ d, (scalar (bd_key d), bd_node d)) <$> docs.
Proof using Type. induction docs as [|d docs IH]; [done|]. rewrite bind_cons. cbn. by f_equal. Qed.

Definition all_mappings (docs : list bundleDoc) : bool := forallb (λ d, is_kind MappingNode (bd_node d)) docs.

Lemma read_entries key kind docs : Forall (λ d, bd_kind d = kind) docs →
  read_section key kind ((λ d, (scalar (bd_key d), bd_node d)) <$> docs) = Ok docs ∨
  all_mappings docs = false ∧ ∃ e, read_section key kind ((λ d, (scalar (bd_key d), bd_node d)) <$> docs) = Err e.
Proof using Type.
  induction 1 as [|d docs Hd _ IH]; [by left|]. cbn. destruct (is_kind MappingNode (bd_node d)); cbn; [|by right; eauto].
  destruct IH as [->|(Ha & e & ->)]; cbn; [left | right; by eauto]. destruct d. cbn in Hd. by subst.
Qed.

Lemma edit_bundle (st : found) scenario title self root :
  bundle_tree st scenario title self root =
  let profiles := if scenario then carried_doc (fd_names st) <$> fd_order st else exported_docs st false self root in
  let scenarios := if scenario then [own_doc (fd_names st) true self root] else [] in
  mapping
    ([scalar "rcx"; Node ScalarNode "1" "!!int" []] ++ mapEntry "kind" "bundle" ++ mapEntry "title" title ++
     (if scenario then [scalar "scenarios"; mapping (scenarios ≫= entry_of)] else []) ++
     [scalar "profiles"; mapping (profiles ≫= entry_of)]).
Proof using Type.
  unfold bundle_tree, exported_docs. assert (Hc : (fd_order st ≫= λ '(canon, profile),
      [scalar (default EmptyString (fd_names st !! canon)); edit_refs (rename_ref (fd_names st)) false profile]) =
    (carried_doc (fd_names st) <$> fd_order st) ≫= entry_of).
  { induction (fd_order st) as [|[c r] l IH]; [done|]. rewrite fmap_cons, !bind_cons. by f_equal. }
  rewrite Hc. by destruct scenario.
Qed.

Lemma mapValue_mapping content key : mapValue (mapping content) key = find_value key content.
Proof using Type. reflexivity. Qed.

Lemma find_value_cons k v rest key : find_value key (k :: v :: rest) = if eqs (yn_Value k) key then Some v else find_value key rest.
Proof using Type. unfold find_value. cbn. by case_match. Qed.

Lemma section_entries content key kind docs : find_value key content = Some (mapping (docs ≫= entry_of)) →
  bundle_section (mapping content) key kind = read_section key kind ((λ d, (scalar (bd_key d), bd_node d)) <$> docs).
Proof using Type. intros Hf. unfold bundle_section. rewrite mapValue_mapping, Hf. cbn. by rewrite pairs_entries. Qed.

(** Reading the bundle back gives the documents it was made of, unless one
    of them is not a mapping. *)
Lemma read_bundle_tree st scenario title self root :
  let tree := bundle_tree st scenario title self root in
  let docs := exported_docs st scenario self root in
  (read_docs tree = Ok docs ∨ all_mappings docs = false ∧ ∃ e, read_docs tree = Err e) ∧
  (∃ n, mapValue tree "kind" = Some n ∧ yn_Value n = "bundle"%string).
Proof using Type.
  cbn zeta. rewrite edit_bundle. cbn zeta. split; [|by destruct scenario; eexists]. unfold read_docs.
  destruct scenario.
  1: rewrite (section_entries _ "profiles" _ (carried_doc (fd_names st) <$> fd_order st)), (section_entries _ "scenarios" _ [own_doc (fd_names st) true self root])
       by (cbn [app mapEntry]; rewrite !find_value_cons; reflexivity).
  2: rewrite (section_entries _ "profiles" _ (exported_docs st false self root)) by (cbn [app mapEntry]; rewrite !find_value_cons; reflexivity).
  - destruct (read_entries "profiles" "profile" (carried_doc (fd_names st) <$> fd_order st)) as [->|(Ha & e & ->)].
    { by apply Forall_fmap, Forall_true. }
    + cbn [mbind result_bind]. destruct (read_entries "scenarios" "scenario" [own_doc (fd_names st) true self root]) as [->|(Ha & e & ->)];
        [by constructor | by left | right]. split; [|by exists e]. unfold exported_docs, all_mappings in *. rewrite forallb_app, Ha. by rewrite andb_false_r.
    + right. split; [|by exists e]. unfold exported_docs, all_mappings in *. by rewrite forallb_app, Ha.
  - destruct (read_entries "profiles" "profile" (exported_docs st false self root)) as [->|(Ha & e & ->)].
    { unfold exported_docs. constructor; [done|]. by apply Forall_fmap, Forall_true. }
    + left. cbn [mbind result_bind]. unfold bundle_section. rewrite mapValue_mapping. cbn [app mapEntry]. rewrite !find_value_cons.
      cbn [yn_Value scalar]. eval_eqs. cbn [find_value pairs List.find fmap option_fmap option_map mbind result_bind]. by rewrite app_nil_r.
    + right. split; [done | by exists e].
Qed.
(** Reading a tree that only looks different. *)
Definition plain_doc (d : bundleDoc) : bundleDoc := {| d with bd_node := plain (bd_node d) |}.

Lemma plain_read_section key kind entries : read_section key kind (prod_map plain plain <$> entries) =
  match read_section key kind entries with Ok docs => Ok (plain_doc <$> docs) | Err e => Err e end.
Proof using Type.
  induction entries as [|[k v] entries IH]; [done|]. cbn. rewrite plain_is_kind, plain_value, IH.
  destruct (is_kind MappingNode v); [|done]. by destruct (read_section key kind entries).
Qed.

Lemma plain_section n key kind : bundle_section (plain n) key kind =
  match bundle_section n key kind with Ok docs => Ok (plain_doc <$> docs) | Err e => Err e end.
Proof using Type.
  unfold bundle_section. rewrite plain_mapValue. destruct (mapValue n key) as [m|]; [|done]. cbn. rewrite plain_is_kind, plain_content, pairs_fmap.
  destruct (is_kind _ _); [apply plain_read_section | done].
Qed.

Lemma plain_read_docs n : read_docs (plain n) = match read_docs n with Ok docs => Ok (plain_doc <$> docs) | Err e => Err e end.
Proof using Type.
  unfold read_docs. rewrite !plain_section. destruct (bundle_section n "profiles" _) as [p|]; [|done]. cbn.
  destruct (bundle_section n "scenarios" _) as [q|]; [|done]. cbn. by rewrite fmap_app.
Qed.

Lemma same_read_docs a b : same_tree a b →
  match read_docs a, read_docs b with Ok x, Ok y => plain_doc <$> x = plain_doc <$> y | Err e, Err e' => e = e' | _, _ => False end.
Proof using Type.
  intros E. pose proof (plain_read_docs a) as Ha. rewrite E, plain_read_docs in Ha.
  destruct (read_docs a), (read_docs b); by simplify_eq.
Qed.

(** *** The bundle is formed *)

Lemma formed_mapping content : formed (mapping content) = Nat.even (length content) && forallb formed content.
Proof using Type. done. Qed.

Lemma utf8_named name : well_named name → utf8_text name = true.
Proof using Type. intros Hn. apply utf8_ascii. by destruct (named_ascii _ _ Hn). Qed.

Lemma formed_scalar v : formed (scalar v) = utf8_text v.
Proof using Type. unfold scalar. rewrite formed_eq. cbn. by rewrite !andb_true_r. Qed.

Lemma formed_entries docs : Forall (λ d, well_named (bd_key d) ∧ formed (bd_node d) = true) docs → formed (mapping (docs ≫= entry_of)) = true.
Proof using Type.
  intros Hd. rewrite formed_mapping. apply andb_true_iff. induction Hd as [|d docs [Hk Hn] _ [IH1 IH2]]; [done|].
  rewrite bind_cons. split; [exact IH1|]. rewrite forallb_app, IH2. unfold entry_of. cbn [forallb]. by rewrite formed_scalar, utf8_named, Hn.
Qed.
End tree.

(** ** A bundle is closed *)

Section closed.
Context `{U : Unicode} {UA : UnicodeAscii} `{YamlNodes}.
Variables (lib : Sources) (scenario : bool) (root : node) (st : found) (self : string).
Hypothesis Hok : export_ok lib (profileRefs root scenario) st [].
Hypothesis Hself : self ∉ fd_used st.
Hypothesis Hnamed : well_named self.

#[local] Notation docs := (exported_docs st scenario self root).
#[local] Notation rename := (rename_ref (fd_names st)).

Lemma user_ref_ne s : UserSource +:+ "/" +:+ s ≠ EmptyString.
Proof using Type. done. Qed.

Lemma rename_ne ref : ref ≠ EmptyString → rename ref ≠ EmptyString.
Proof using Type. intros Hr. unfold rename_ref. by case_match. Qed.

Lemma is_scenario_own : is_scenario (own_doc (fd_names st) scenario self root) = scenario.
Proof using Type. clear Hok. by destruct scenario. Qed.

Lemma elem_of_docs d : d ∈ docs ↔ d = own_doc (fd_names st) scenario self root ∨ ∃ p, p ∈ fd_order st ∧ d = carried_doc (fd_names st) p.
Proof using Type.
  clear Hok. unfold exported_docs. destruct scenario; rewrite elem_of_app, list_elem_of_singleton, list_elem_of_fmap; naive_solver.
Qed.

(** The profile a reference names is carried under its new name. *)
Lemma rename_carried ref : ref ∈ profileRefs root scenario ++ order_refs (fd_order st) →
  (isBuiltinRef ref = true ∧ rename ref = ref) ∨
  (isBuiltinRef ref = false ∧ ∃ p, p ∈ fd_order st ∧ p.1 = CanonicalID ref ∧
    rename ref = UserSource +:+ "/" +:+ bd_key (carried_doc (fd_names st) p)).
Proof using Hok.
  intros Hin. destruct (isBuiltinRef ref) eqn:Hb; [left; split; [done|]; unfold rename_ref; by rewrite Hb|right]. split; [done|].
  destruct (eo_all _ _ _ _ Hok ref Hin) as [|[[name Hn]|?%elem_of_nil]]; [congruence| |done].
  assert (Hc : CanonicalID ref ∈ (fd_order st).*1) by (apply (eo_dom _ _ _ _ Hok); by exists name).
  apply list_elem_of_fmap in Hc as ([c r] & Hc & Hp). cbn in Hc. exists (c, r). split; [done|]. split; [by rewrite Hc|].
  unfold rename_ref, carried_doc. cbn. by rewrite Hb, Hc.
Qed.

Lemma refs_of_doc d ref : d ∈ docs → ref ∈ profileRefs (bd_node d) (is_scenario d) →
  ∃ old, old ∈ profileRefs root scenario ++ order_refs (fd_order st) ∧ ref = rename old.
Proof using Type.
  intros [->|(p & Hp & ->)]%elem_of_docs; [rewrite is_scenario_own|]; cbn [bd_node own_doc carried_doc].
  - rewrite profileRefs_edit by apply rename_ne. intros (old & -> & Hin)%list_elem_of_fmap. exists old. split; [apply elem_of_app; by left | done].
  - change (is_scenario _) with false. rewrite profileRefs_edit by apply rename_ne. intros (old & -> & Hin)%list_elem_of_fmap.
    exists old. split; [|done]. apply elem_of_app. right. apply list_elem_of_bind. by exists p.
Qed.

Lemma docs_closed d ref : d ∈ docs → ref ∈ profileRefs (bd_node d) (is_scenario d) →
  isBuiltinRef ref = true ∨ ∃ d', d' ∈ docs ∧ bd_kind d' = "profile"%string ∧ ref = UserSource +:+ "/" +:+ bd_key d'.
Proof using Hok.
  intros Hd Hr. destruct (refs_of_doc d ref Hd Hr) as (old & Hold & ->).
  destruct (rename_carried old Hold) as [[Hb ->]|(_ & p & Hp & _ & ->)]; [by left | right].
  exists (carried_doc (fd_names st) p). split; [|done]. apply elem_of_docs. right. by exists p.
Qed.

Lemma carried_key p : p ∈ fd_order st → fd_names st !! p.1 = Some (bd_key (carried_doc (fd_names st) p)) ∧
  bd_key (carried_doc (fd_names st) p) ∈ fd_used st ∧ well_named (bd_key (carried_doc (fd_names st) p)).
Proof using Hok.
  intros Hp. assert (Hc : p.1 ∈ (fd_order st).*1) by by apply list_elem_of_fmap_2.
  apply (eo_dom _ _ _ _ Hok) in Hc as [name Hn]. unfold carried_doc. cbn. rewrite Hn. cbn. split; [done|]. by apply (eo_used _ _ _ _ Hok p.1).
Qed.

Lemma docs_keys : NoDup (bd_key <$> docs) ∧ Forall (λ d, well_named (bd_key d)) docs.
Proof using Hok Hself Hnamed.
  assert (Hc : NoDup (bd_key <$> (carried_doc (fd_names st) <$> fd_order st))).
  { pose proof (eo_nodup _ _ _ _ Hok) as Hnd. pose proof carried_key as Hkey. pose proof (eo_inj _ _ _ _ Hok) as Hinj.
    induction (fd_order st) as [|p l IH]; [by apply NoDup_nil_2|]. rewrite fmap_cons in Hnd. apply NoDup_cons in Hnd as [Hp Hnd].
    rewrite !fmap_cons. apply NoDup_cons. split; [|apply IH; [done|]; intros q Hq; apply Hkey; by right].
    intros (d & Hd & (q & -> & Hq)%list_elem_of_fmap)%list_elem_of_fmap. apply Hp.
    destruct (Hkey p) as (E1 & _); [by left|]. destruct (Hkey q) as (E2 & _); [by right|]. rewrite Hd in E1.
    rewrite (Hinj _ _ _ E1 E2). by apply list_elem_of_fmap_2. }
  assert (Hs : self ∉ bd_key <$> (carried_doc (fd_names st) <$> fd_order st)).
  { intros (d & Hd & (q & -> & Hq)%list_elem_of_fmap)%list_elem_of_fmap. apply Hself. rewrite Hd. by apply carried_key. }
  assert (Hw : Forall (λ d, well_named (bd_key d)) (carried_doc (fd_names st) <$> fd_order st)).
  { apply Forall_forall. intros d (q & -> & Hq)%list_elem_of_fmap. by apply carried_key. }
  unfold exported_docs. destruct scenario; rewrite fmap_app, Forall_app; split.
  - apply NoDup_app. split; [done|]. split; [|by apply NoDup_singleton]. intros x Hx ->%list_elem_of_singleton. done.
  - split; [done | by constructor].
  - apply NoDup_app. split; [by apply NoDup_singleton|]. split; [|done]. by intros x ->%list_elem_of_singleton.
  - split; [by constructor | done].
Qed.

Lemma rename_utf8 v : utf8_text v = true → utf8_text (rename v) = true.
Proof using Hok.
  intros Hv. unfold rename_ref. destruct (isBuiltinRef v); [done|]. destruct (fd_names st !! CanonicalID v) as [name|] eqn:E; [|done].
  apply utf8_ascii. rewrite !all_ascii_app. cbn. destruct (eo_used _ _ _ _ Hok _ _ E) as [_ Hw]. by destruct (named_ascii _ _ Hw).
Qed.

(** The whole bundle is a formed tree, if the documents are. *)
Lemma bundle_formed title : utf8_text title = true → formed root = true → (∀ p, p ∈ fd_order st → formed p.2 = true) →
  formed (bundle_tree st scenario title self root) = true.
Proof using Hok Hnamed.
  intros Ht Hr Hp. rewrite edit_bundle. cbn zeta.
  assert (Hown : well_named (bd_key (own_doc (fd_names st) scenario self root)) ∧ formed (bd_node (own_doc (fd_names st) scenario self root)) = true).
  { split; [done|]. apply formed_edit_refs; [apply rename_utf8 | done]. }
  assert (Hc : Forall (λ d, well_named (bd_key d) ∧ formed (bd_node d) = true) (carried_doc (fd_names st) <$> fd_order st)).
  { apply Forall_forall. intros d (p & -> & Hin)%list_elem_of_fmap. split; [by apply carried_key|].
    apply formed_edit_refs; [apply rename_utf8 | by apply Hp]. }
  assert (Hs : ∀ rest, formed (mapping rest) = true → formed (mapping ([scalar "rcx"; Node ScalarNode "1" "!!int" []] ++ mapEntry "kind" "bundle" ++ mapEntry "title" title ++ rest)) = true).
  { intros rest. rewrite !formed_mapping. cbn [app mapEntry length forallb Nat.even]. rewrite !formed_scalar. intros [-> ->]%andb_true_iff. rewrite Ht. vm_compute. done. }
  assert (Hcons : ∀ key m rest, all_ascii key = true → formed m = true → formed (mapping rest) = true → formed (mapping (scalar key :: m :: rest)) = true).
  { intros key m rest Hk Hm. rewrite !formed_mapping. cbn [length forallb Nat.even]. rewrite formed_scalar, utf8_ascii, Hm by done. done. }
  apply Hs. destruct scenario.
  - apply (Hcons "scenarios"%string); [done | by apply formed_entries, Forall_singleton|]. apply (Hcons "profiles"%string); [done | by apply formed_entries | done].
  - apply (Hcons "profiles"%string); [done | | done]. apply formed_entries. unfold exported_docs. apply Forall_cons. by split.
Qed.

Lemma docs_kinds d : d ∈ docs → bd_kind d = "profile"%string ∨ bd_kind d = "scenario"%string.
Proof using Type. clear Hok. intros [->|(p & _ & ->)]%elem_of_docs; [destruct scenario; auto | by left]. Qed.
End closed.

(** ** Unpacking *)

Section unpack.
Context `{U : Unicode} `{YamlNodes}.

Definition kind_named (d : bundleDoc) : Prop := bd_kind d = "profile"%string ∨ bd_kind d = "scenario"%string.

Lemma kind_well_named d : kind_named d → well_named (bd_kind d).
Proof. by intros [->| ->]. Qed.

(** What the first loop of [Unpack] hands on. *)
Record named_docs (used : gset string) (renamed0 : gmap string string) (docs : list bundleDoc)
    (names : list string) (renamed : gmap string string) : Prop := {
  nd_length : length names = length docs;
  nd_nodup : NoDup names;
  nd_free name : name ∈ names → name ∉ used ∧ (Forall kind_named docs → well_named name);
  nd_from k name : renamed !! k = Some name → renamed0 !! k = Some name ∨
    ∃ i d, docs !! i = Some d ∧ names !! i = Some name ∧ bd_kind d = "profile"%string ∧ bd_key d = k;
  nd_profile d : d ∈ docs → bd_kind d = "profile"%string → is_Some (renamed !! bd_key d);
  nd_other k : is_Some (renamed0 !! k) → is_Some (renamed !! k);
}.

Lemma name_docs_spec docs : ∀ used renamed0, ∃ names renamed,
  name_docs used renamed0 docs = Some (names, renamed) ∧ named_docs used renamed0 docs names renamed.
Proof.
  induction docs as [|d docs IH]; intros used renamed0.
  { exists [], renamed0. split; [done|]. split; try done; [apply NoDup_nil_2 | | |]; [by intros ? ?%elem_of_nil | by left | by intros ? ?%elem_of_nil]. }
  destruct (freeName_spec used (bd_key d) (bd_kind d)) as (name & E & [Hfree _] & Hwell).
  set (renamed1 := if eqs (bd_kind d) "profile" then <[bd_key d := name]> renamed0 else renamed0).
  destruct (IH ({[ name ]} ∪ used) renamed1) as (names & renamed & E' & [Hl Hnd Hf Hfrom Hp Ho]).
  exists (name :: names), renamed. split; [cbn [name_docs]; rewrite E; cbn; fold renamed1; by rewrite E'|]. split.
  - cbn. by rewrite Hl.
  - apply NoDup_cons. split; [|done]. intros [Hin _]%Hf. set_solver.
  - intros n [->|[Hn Hw]%Hf]%elem_of_cons; [split; [done|]|split; [set_solver|]].
    + intros Hk. inversion Hk; subst. by apply Hwell, kind_well_named.
    + intros Hk. inversion Hk; subst. by apply Hw.
  - intros k n [Hk|(i & d' & Hd' & Hn & Hkind & Hkey)]%Hfrom; [|right; by exists (S i), d'].
    unfold renamed1 in Hk. destruct (eqs (bd_kind d) "profile") eqn:Ek; [|by left].
    apply lookup_insert_Some in Hk as [[<- <-]|[_ Hk]]; [|by left]. right. exists 0%nat, d. apply eqs_true in Ek. done.
  - intros d' [->|Hd']%elem_of_cons Hkind; [|by apply Hp]. apply Ho. unfold renamed1. rewrite Hkind.
    change (eqs "profile" "profile") with true. cbn iota. rewrite lookup_insert_eq. by exists name.
  - intros k Hk. apply Ho. unfold renamed1. destruct (eqs (bd_kind d) "profile"); [|done]. apply lookup_insert_is_Some'. by right.
Qed.

Lemma unpack_docs_spec renamed docs : ∀ names items, length names = length docs → unpack_docs renamed (zip docs names) = Ok items →
  length items = length docs ∧
  ∀ i d item, docs !! i = Some d → items !! i = Some item →
    bi_kind item = bd_kind d ∧ names !! i = Some (bi_name item) ∧ bi_title item = title_of (bd_node d) ∧
    nodeText (unpacked_tree renamed d) = Ok (bi_text item).
Proof.
  induction docs as [|d docs IH]; intros [|name names] items Hlen Hun; try done.
  { cbn in Hun. by simplify_eq. }
  cbn [zip zip_with unpack_docs] in Hun. apply result_bind_Ok in Hun as (text & Et & Hun).
  apply result_bind_Ok in Hun as (rest & Er & Hun). injection Hun as <-.
  destruct (IH names rest) as [Hl Hi]; [cbn in Hlen; lia | done|]. split; [cbn; by rewrite Hl|].
  intros [|i] d' item Hd Hitem; cbn in Hd, Hitem; [|by apply Hi]. simplify_eq. cbn. split_and!; try done.
  unfold title_of, unpacked_tree. by rewrite edit_refs_title.
Qed.

Lemma follow_user renamed k : follow_ref renamed (UserSource +:+ "/" +:+ k) =
  match renamed !! k with
  | Some name => if empty name then UserSource +:+ "/" +:+ k else UserSource +:+ "/" +:+ name
  | None => UserSource +:+ "/" +:+ k
  end.
Proof.
  unfold follow_ref, CutPrefix. rewrite <- append_assoc, string_prefix_app, string_app_drop. by destruct (renamed !! k).
Qed.
End unpack.

(** ** Export and import *)

Section exchange.
Context `{U : Unicode} {UA : UnicodeAscii} `{YamlNodes}.

Definition source_of (lib : Sources) (scenario : bool) (id : string) : result string string :=
  if scenario then ScenarioSource lib id else so_Source lib id.

(** Why an export fails. *)
Inductive export_failure (lib : Sources) (scenario : bool) (id : string) : Prop :=
  | own_missing e : source_of lib scenario id = Err e → export_failure lib scenario id
  | own_unreadable data e : source_of lib scenario id = Ok data → docRoot data = Err e → export_failure lib scenario id
  | reference_broken c : isBuiltinRef c = false → broken lib c → export_failure lib scenario id
  | not_encoded tree e : nodeText tree = Err e → export_failure lib scenario id.

Lemma export_spec lib id kind : let scenario := eqs kind "scenario" in
  (∃ e, Export lib id kind = Some (Err e) ∧ export_failure lib scenario id) ∨
  ∃ data root, source_of lib scenario id = Ok data ∧ docRoot data = Ok root ∧
    ((Export lib id kind = Some (Ok data) ∧ ∀ ref, ref ∈ profileRefs root scenario → isBuiltinRef ref = true) ∨
     ∃ st self text, export_ok lib (profileRefs root scenario) st [] ∧ self ∉ fd_used st ∧ well_named self ∧
       nodeText (bundle_tree st scenario (label_of root id) self root) = Ok text ∧ Export lib id kind = Some (Ok text)).
Proof using UA.
  intros scenario. unfold Export. fold scenario. fold (source_of lib scenario id).
  destruct (source_of lib scenario id) as [data|e] eqn:Es; [|left; exists e; split; [done | by apply own_missing with e]].
  destruct (docRoot data) as [root|e] eqn:Er; [|left; exists e; split; [done | by eapply own_unreadable]].
  destruct (export_loop_spec lib (profileRefs root scenario) (export_fuel lib (profileRefs root scenario)) nothing_found (profileRefs root scenario))
    as ([st|e] & E & Hst); [by apply export_start | unfold export_fuel; cbn; lia | |].
  2: { rewrite E. cbn. left. exists e. split; [done|]. destruct Hst as (c & Hb & Hc). by eapply reference_broken. }
  rewrite E. cbn [mbind option_bind].
  destruct (fd_order st) as [|p order] eqn:Eo.
  - right. exists data, root. split_and!; [done..|]. left. split; [done|]. intros ref Hin.
    destruct (eo_all _ _ _ _ Hst ref) as [|[Hn|?%elem_of_nil]]; [apply elem_of_app; by left | done | | done].
    apply (eo_dom _ _ _ _ Hst) in Hn. rewrite Eo in Hn. by apply elem_of_nil in Hn.
  - destruct (freeName_spec (fd_used st) (label_of root id) (kind_name scenario)) as (self & -> & [Hself _] & Hwell). cbn.
    destruct (nodeText _) as [text|e] eqn:Et.
    + right. exists data, root. split_and!; [done..|]. right. exists st, self, text. split_and!; try done. apply Hwell. by destruct scenario.
    + left. exists e. split; [done | by eapply not_encoded].
Qed.

(** Exporting ends, and what it gives is complete. It fails only when
    the document or a profile it needs is missing or unreadable, or cannot be
    written. A document that names built-in profiles only is given as it is;
    otherwise the bundle holds the document and every profile it reaches, each
    once, under distinct well-formed names: each carried profile is the
    library's own, with its references renamed; and every reference in the
    bundle names a built-in profile or a profile of the bundle. *)
Theorem export_closed lib id kind :
  let scenario := eqs kind "scenario" in
  ∃ r, Export lib id kind = Some r ∧
  match r with
  | Err _ => export_failure lib scenario id
  | Ok text => ∃ data root, source_of lib scenario id = Ok data ∧ docRoot data = Ok root ∧
      (text = data ∧ (∀ ref, ref ∈ profileRefs root scenario → isBuiltinRef ref = true) ∨
       ∃ tree docs names own, nodeText tree = Ok text ∧
         (read_docs tree = Ok docs ∨ all_mappings docs = false) ∧
         own ∈ docs ∧ bd_kind own = kind_name scenario ∧ bd_node own = edit_refs (rename_ref names) scenario root ∧
         NoDup (bd_key <$> docs) ∧ Forall (λ d, well_named (bd_key d)) docs ∧
         (∀ d, d ∈ docs → d = own ∨ bd_kind d = "profile"%string ∧ ∃ c source profile, names !! c = Some (bd_key d) ∧
            so_profiles lib !! c = Some source ∧ docRoot source = Ok profile ∧ bd_node d = edit_refs (rename_ref names) false profile) ∧
         ∀ d ref, d ∈ docs → ref ∈ profileRefs (bd_node d) (is_scenario d) →
           isBuiltinRef ref = true ∨ ∃ d', d' ∈ docs ∧ bd_kind d' = "profile"%string ∧ ref = UserSource +:+ "/" +:+ bd_key d')
  end.
Proof using UA.
  intros scenario. destruct (export_spec lib id kind) as [(e & -> & Hf)|(data & root & Hs & Hr & [[-> Hb]|(st & self & text & Hok & Hself & Hw & Ht & ->)])].
  - by exists (Err e).
  - exists (Ok data). split; [done|]. exists data, root. split_and!; [done..|]. by left.
  - exists (Ok text). split; [done|]. exists data, root. split_and!; [done..|]. right. fold scenario in Hok, Ht.
    set (docs := exported_docs st scenario self root). set (own := own_doc (fd_names st) scenario self root).
    destruct (docs_keys lib scenario root st self Hok Hself Hw) as [Hk1 Hk2].
    exists (bundle_tree st scenario (label_of root id) self root), docs, (fd_names st), own. split_and!; try done.
    + destruct (read_bundle_tree st scenario (label_of root id) self root) as [[Hd|[Ha _]] _]; [by left | by right].
    + apply (elem_of_docs scenario root st self). by left.
    + intros d [->|(p & Hp & ->)]%(elem_of_docs scenario root st self); [by left | right]. split; [done|].
      destruct (carried_key lib scenario root st Hok p Hp) as (Hkey & _). destruct p as [c profile].
      destruct (eo_doc _ _ _ _ Hok _ _ Hp) as (_ & _ & source & Hsrc & Hdoc). by exists c, source, profile.
    + intros d ref. apply (docs_closed lib scenario root st self Hok).
Qed.
End exchange.

Section import.
Context `{U : Unicode} {UA : UnicodeAscii} `{YamlNodes}.

Lemma read_section_kind key kind entries : ∀ docs, read_section key kind entries = Ok docs → Forall (λ d, bd_kind d = kind) docs.
Proof.
  induction entries as [|[k v] entries IH]; intros docs; cbn [read_section]; [intros [= <-]; constructor|].
  case_match; [|done]. intros (rest & Hr & [= <-])%result_bind_Ok. constructor; [done | by apply IH].
Qed.

Lemma bundle_section_kind n key kind docs : bundle_section n key kind = Ok docs → Forall (λ d, bd_kind d = kind) docs.
Proof. unfold bundle_section. case_match; [|by intros [= <-]]. case_match; [|done]. apply read_section_kind. Qed.

Lemma readBundle_kinds data docs : readBundle data = Ok (Some docs) → Forall kind_named docs.
Proof.
  unfold readBundle. destruct (docRoot data) as [root|]; [|done]. destruct (mapValue root "kind"); [|done].
  case_if; [done|]. case_if; [done|]. unfold read_docs.
  intros (all & (p & Hp & (s & Hs & [= <-])%result_bind_Ok)%result_bind_Ok & Hall)%result_bind_Ok.
  assert (docs = p ++ s) as -> by (destruct (p ++ s); [done | by injection Hall]).
  apply Forall_app. split; [eapply Forall_impl; [by eapply bundle_section_kind|]; intros d Hd; by left|].
  eapply Forall_impl; [by eapply bundle_section_kind|]. intros d Hd. by right.
Qed.

(** Where a reference of a bundle points after the import. *)
Definition follows (docs : list bundleDoc) (names : list string) (g : string → string) : Prop := ∀ ref,
  (g ref = ref ∧ ∀ p, p ∈ docs → bd_kind p = "profile"%string → ref ≠ UserSource +:+ "/" +:+ bd_key p) ∨
  ∃ i p name, docs !! i = Some p ∧ bd_kind p = "profile"%string ∧ ref = UserSource +:+ "/" +:+ bd_key p ∧
    names !! i = Some name ∧ g ref = UserSource +:+ "/" +:+ name.

Lemma follow_ref_follows used docs names renamed : Forall kind_named docs → named_docs used ∅ docs names renamed →
  follows docs names (follow_ref renamed).
Proof.
  intros Hk [Hl Hnd Hfree Hfrom Hprof _] ref.
  assert (Hcase : ref = UserSource +:+ "/" +:+ string_drop (String.length (UserSource +:+ "/")) ref ∨
    (HasPrefix ref (UserSource +:+ "/") = false ∧ ∀ k, ref ≠ UserSource +:+ "/" +:+ k)).
  { destruct (HasPrefix ref (UserSource +:+ "/")) eqn:E; [left; rewrite (prefix_split _ _ E) at 1; by rewrite append_assoc|].
    right. split; [done|]. intros k ->. by rewrite <- append_assoc, string_prefix_app in E. }
  destruct Hcase as [E|[E Hno]].
  - set (k := string_drop (String.length (UserSource +:+ "/")) ref) in *. rewrite E, follow_user. destruct (renamed !! k) as [name|] eqn:Ek.
    + destruct (Hfrom _ _ Ek) as [Habs|(i & p & Hp & Hn & Hkind & Hkey)]; [by rewrite lookup_empty in Habs|].
      right. exists i, p, name. split_and!; try done; [by rewrite Hkey|].
      destruct (empty name) eqn:Ee; [|done]. apply bool_decide_eq_true in Ee. subst name.
      destruct (Hfree EmptyString) as [_ Hw]; [by eapply list_elem_of_lookup_2|]. by specialize (Hw Hk).
    + left. split; [done|]. intros p Hp Hkind Heq. apply (inj (String.append UserSource)), (inj (String.append "/")) in Heq.
      destruct (Hprof p Hp Hkind) as [name Hn]. rewrite <- Heq, Ek in Hn. done.
  - left. split; [unfold follow_ref, CutPrefix; by rewrite E|]. intros p _ _. apply Hno.
Qed.
End import.

Section unpacking.
Context `{U : Unicode} {UA : UnicodeAscii} `{Regexp} `{Url} `{PublicSuffix} `{IpText} `{RangeOrder} `{Netip} `{Yaml} `{YamlNodes}.

Lemma Unpack_spec data taken docs : readBundle data = Ok (Some docs) →
  ∃ names g r, Unpack data taken = Some r ∧ length names = length docs ∧ NoDup names ∧
    (∀ name, name ∈ names → name ∉ taken ∧ well_named name) ∧ follows docs names g ∧
    ∀ items, r = Ok items → length items = length docs ∧
      ∀ i d item, docs !! i = Some d → items !! i = Some item →
        bi_kind item = bd_kind d ∧ names !! i = Some (bi_name item) ∧ bi_title item = title_of (bd_node d) ∧
        nodeText (edit_refs g (is_scenario d) (bd_node d)) = Ok (bi_text item).
Proof.
  intros Hb. pose proof (readBundle_kinds _ _ Hb) as Hk. unfold Unpack. rewrite Hb.
  destruct (name_docs_spec docs (list_to_set taken) ∅) as (names & renamed & -> & Hn). cbn.
  exists names, (follow_ref renamed), (unpack_docs renamed (zip docs names)). split; [done|].
  pose proof Hn as [Hl Hnd Hfree _ _ _]. split_and!; [done..| | |].
  - intros name Hin. destruct (Hfree name Hin) as [Ht Hw]. split; [|by apply Hw]. intros Habs. by apply Ht, elem_of_list_to_set.
  - by eapply follow_ref_follows.
  - intros items Hi. by apply (unpack_docs_spec renamed docs names items).
Qed.

Lemma follows_ne docs names g v : follows docs names g → v ≠ EmptyString → g v ≠ EmptyString.
Proof using Type. intros Hg Hv. destruct (Hg v) as [[-> _]|(i & p & name & _ & _ & _ & _ & ->)]; done. Qed.

(** A reference to a profile of the bundle names its copy, one elsewhere is
    kept. *)
Lemma follows_doc docs names g p : follows docs names g → NoDup (bd_key <$> docs) → p ∈ docs → bd_kind p = "profile"%string →
  ∃ i name, docs !! i = Some p ∧ names !! i = Some name ∧ g (UserSource +:+ "/" +:+ bd_key p) = UserSource +:+ "/" +:+ name.
Proof using Type.
  intros Hg Hnd Hp Hkind. destruct (Hg (UserSource +:+ "/" +:+ bd_key p)) as [[_ Hno]|(i & p' & name & Hi & _ & E & Hn & Hgr)]; [by destruct (Hno p Hp Hkind)|].
  exists i, name. split_and!; try done. apply list_elem_of_lookup in Hp as [j Hj].
  apply (inj (String.append UserSource)), (inj (String.append "/")) in E.
  assert (i = j) as ->; [|done]. apply (NoDup_lookup (bd_key <$> docs) i j (bd_key p) Hnd); rewrite list_lookup_fmap; [by rewrite Hi, E | by rewrite Hj].
Qed.

Lemma named_spaces s : ∀ dash, named_from dash s = true → ∀ b, b ∈ bytes_of s → ascii_space b = false.
Proof using Type.
  induction s as [|c s IH]; intros dash; [by intros _ b ?%elem_of_nil|]. cbn [named_from bytes_of]. case_bool_decide as Hc.
  - intros [_ Hs]%andb_true_iff b [->|Hb]%elem_of_cons; [by subst | by eapply IH].
  - intros [Hc' Hs]%andb_true_iff b [->|Hb]%elem_of_cons; [|by eapply IH]. apply slug_rune_spec in Hc'.
    unfold ascii_space, in_range. apply orb_false_iff. rewrite andb_false_iff, !Z.leb_gt, Z.eqb_neq. lia.
Qed.

Lemma builtin_user k : well_named k → isBuiltinRef (UserSource +:+ "/" +:+ k) = false.
Proof using UA.
  intros Hk. destruct (named_ascii _ _ Hk) as [Ha _]. unfold isBuiltinRef, CanonicalID.
  assert (TrimSpace (UserSource +:+ "/" +:+ k) = UserSource +:+ "/" +:+ k) as ->.
  { apply TrimSpace_plain; [by rewrite !append_cons, !append_nil_l|]. unfold UserSource. rewrite !append_cons, !append_nil_l.
    intros b Hb. cbn [bytes_of] in Hb. repeat (apply elem_of_cons in Hb as [->|Hb]; [done|]). by apply (named_spaces _ _ Hk). }
  by case_match.
Qed.

Lemma follows_builtin docs names g ref : follows docs names g → Forall (λ d, well_named (bd_key d)) docs →
  isBuiltinRef ref = true → g ref = ref.
Proof using UA.
  intros Hg Hw Hb. destruct (Hg ref) as [[-> _]|(i & p & name & Hi & _ & -> & _ & _)]; [done|].
  rewrite builtin_user in Hb; [done|]. eapply Forall_lookup_1 in Hw; [|exact Hi]. done.
Qed.

Definition import_tree (g : string → string) (d : bundleDoc) : node := edit_refs g (is_scenario d) (bd_node d).

(** An exported text is read as the bundle it is, or refused. *)
Lemma bundle_read text read tree docs : docRoot text = Ok read → same_tree read tree → slen text <= maxBundleBytes →
  (read_docs tree = Ok docs ∨ all_mappings docs = false ∧ ∃ e, read_docs tree = Err e) ∧ (∃ n, mapValue tree "kind" = Some n ∧ yn_Value n = "bundle"%string) →
  docs ≠ [] → (∃ docs', readBundle text = Ok (Some docs') ∧ plain_doc <$> docs' = plain_doc <$> docs) ∨ ∃ e, readBundle text = Err e.
Proof using Type.
  intros Hroot Hsame Hsize [Hread (n & Hn & Hv)] Hne. unfold readBundle. rewrite Hroot.
  assert (Hk : plain <$> mapValue read "kind" = Some (plain n)) by (by rewrite <- plain_mapValue, Hsame, plain_mapValue, Hn).
  destruct (mapValue read "kind") as [k|]; [|done]. injection Hk as Hk. rewrite <- (plain_value k), Hk, plain_value, Hv. change (negb (eqs "bundle" "bundle")) with false. cbn iota.
  rewrite (proj2 (Z.ltb_ge _ _)) by done. pose proof (same_read_docs _ _ Hsame) as Hdocs.
  destruct Hread as [E|(_ & e & E)]; rewrite E in Hdocs; destruct (read_docs read) as [docs'|e']; try done; cbn [mbind result_bind]; [left | right; by eexists].
  exists docs'. split; [|done]. destruct docs' as [|d docs']; [|done]. cbn in Hdocs. symmetry in Hdocs. by apply fmap_nil_inv in Hdocs.
Qed.

Lemma docs_nonempty scenario root st self : exported_docs st scenario self root ≠ [].
Proof using Type. unfold exported_docs. destruct scenario; [by intros [_ ?]%app_nil | done]. Qed.

Section at_place.
Variables (docs : list bundleDoc) (names : list string) (items : list BundleItem) (g : string → string).
Hypothesis Hg : follows docs names g.
Hypothesis Hnd : NoDup (bd_key <$> docs).
Hypothesis Hlen : length items = length docs.
Hypothesis Hat : ∀ i d item, docs !! i = Some d → items !! i = Some item →
  bi_kind item = bd_kind d ∧ names !! i = Some (bi_name item) ∧ bi_title item = title_of (bd_node d) ∧
  nodeText (edit_refs g (is_scenario d) (bd_node d)) = Ok (bi_text item).

Lemma imported d : d ∈ docs → bd_kind d = "profile"%string →
  ∃ j copy, docs !! j = Some d ∧ items !! j = Some copy ∧ bi_kind copy = "profile"%string ∧
    g (UserSource +:+ "/" +:+ bd_key d) = UserSource +:+ "/" +:+ bi_name copy.
Proof using Hg Hnd Hlen Hat.
  intros Hd Hk. destruct (follows_doc docs names g d Hg Hnd Hd Hk) as (j & name & Hj & Hn & ->).
  destruct (lookup_lt_is_Some_2 items j) as [copy Hc]; [rewrite Hlen; by eapply lookup_lt_Some|].
  destruct (Hat j d copy Hj Hc) as (Hkind & Hname & _). rewrite Hn in Hname. exists j, copy. rewrite Hkind. by simplify_eq.
Qed.

Lemma items_names : length names = length docs → bi_name <$> items = names.
Proof using Hlen Hat.
  intros Hl. apply list_eq. intros i. rewrite list_lookup_fmap. destruct (items !! i) as [item|] eqn:E; cbn.
  - destruct (lookup_lt_is_Some_2 docs i) as [d Hd]; [rewrite <- Hlen; by eapply lookup_lt_Some|]. by destruct (Hat i d item Hd E) as (_ & -> & _).
  - symmetry. apply lookup_ge_None. apply lookup_ge_None in E. lia.
Qed.
End at_place.

(** Importing is consistent. It ends. A text that is no bundle becomes one
    item with that text under a free name. Of a bundle, the new names are well
    formed, distinct and free of the names taken; every document becomes the
    item of its kind at its place, whose text is the document with its
    references followed: one to a profile of the bundle names the imported
    copy, any other is kept. *)
Theorem unpack_consistent data taken :
  match readBundle data with
  | Err e => Unpack data taken = Some (Err e)
  | Ok None => ∃ item, Unpack data taken = Some (Ok [item]) ∧ bi_text item = data ∧ bi_name item ∉ taken ∧ well_named (bi_name item)
  | Ok (Some docs) =>
      ∃ names g r, Unpack data taken = Some r ∧ length names = length docs ∧ NoDup names ∧
        (∀ name, name ∈ names → name ∉ taken ∧ well_named name) ∧ follows docs names g ∧
        ∀ items, r = Ok items → length items = length docs ∧
          ∀ i d item, docs !! i = Some d → items !! i = Some item →
            bi_kind item = bd_kind d ∧ names !! i = Some (bi_name item) ∧ bi_title item = title_of (bd_node d) ∧
            nodeText (edit_refs g (is_scenario d) (bd_node d)) = Ok (bi_text item)
  end.
Proof.
  destruct (readBundle data) as [[docs|]|e] eqn:E; [by apply Unpack_spec | | by unfold Unpack; rewrite E].
  unfold Unpack. rewrite E. set (title := match docRoot data with Ok _ => _ | Err _ => _ end).
  assert (Hp : well_named (plainKind data)) by (unfold plainKind; destruct (docRoot data); [|done]; by repeat case_match).
  destruct (freeName_spec (list_to_set taken) title (plainKind data)) as (name & -> & [Hfree _] & Hw). cbn.
  eexists. split; [done|]. cbn. split_and!; [done | | by apply Hw]. intros Hin. by apply Hfree, elem_of_list_to_set.
Qed.

End unpacking.

(** ** There and back *)

(** What the trip relies on of go.yaml.in/yaml: decoding gives formed trees,
    and the text of a formed tree, when it reads, reads as that tree, looks
    aside. *)
Class YamlReads `{YamlNodes} : Prop := {
  decoded_formed text root : docRoot text = Ok root → formed root = true;
  written_read tree text read : formed tree = true → nodeText tree = Ok text → docRoot text = Ok read → same_tree read tree;
}.

Section roundtrip.
Context `{U : Unicode} {UA : UnicodeAscii} `{Regexp} `{Url} `{PublicSuffix} `{IpText} `{RangeOrder} `{Netip} `{Yaml} `{YR : YamlReads}.

Lemma formed_value n : formed n = true → utf8_text (yn_Value n) = true.
Proof using Type.
  destruct n as [k v l c]. rewrite formed_eq. intros [Hh _]%andb_true_iff. cbn [yn_Value].
  destruct k; cbn in Hh; rewrite ?andb_true_iff in Hh; [apply bool_decide_eq_true in Hh as ->; done | | by destruct Hh..].
  destruct Hh as [->%bool_decide_eq_true _]. done.
Qed.

Lemma formed_mapValue n key m : formed n = true → mapValue n key = Some m → formed m = true.
Proof using Type.
  intros Hn%formed_content. unfold mapValue, find_value. destruct (is_kind _ _); [|done].
  destruct (List.find _ _) as [kv|] eqn:E; [|done]. cbn. intros [= <-]. apply find_elem in E as [E _]. destruct kv as [k v]. apply elem_of_pairs in E as [_ E].
  rewrite forallb_forall in Hn. by apply Hn, list_elem_of_In.
Qed.

Lemma label_utf8 root id : formed root = true → utf8_text (after_slash id) = true → utf8_text (label_of root id) = true.
Proof using Type.
  intros Hr Hid. unfold label_of. destruct (mapValue root "title") as [t|] eqn:E; [|done].
  pose proof (formed_value t (formed_mapValue _ _ _ Hr E)). unfold or_string. by destruct (empty _).
Qed.

(** Two lists of documents that only look different. *)
Lemma plain_docs_at (docs docs0 : list bundleDoc) (i : nat) d : plain_doc <$> docs = plain_doc <$> docs0 → docs !! i = Some d →
  ∃ d0, docs0 !! i = Some d0 ∧ bd_kind d = bd_kind d0 ∧ bd_key d = bd_key d0 ∧ same_tree (bd_node d) (bd_node d0).
Proof using Type.
  intros E Hd. apply (f_equal (.!! i)) in E. rewrite !list_lookup_fmap, Hd in E. cbn in E.
  destruct (docs0 !! i) as [d0|]; [|done]. exists d0. split; [done|]. cbn in E. destruct d, d0. unfold plain_doc in E. cbn in *. injection E as E1 E2 E3. by split_and!.
Qed.

(** C23: what is exported arrives whole. When a document that names a profile
    other than the built-in ones is exported, the text is no larger than a
    bundle may be and it reads, then whatever names are taken where it is
    imported: each reference of each imported item names a built-in profile
    or a profile imported with it; and among the items is the exported
    document, tags, styles and comments aside, in which each reference to a
    built-in profile is as it was and each other one names the imported copy
    of the profile it named in the library, itself whole. *)
Theorem bundle_roundtrip lib id kind taken data root ref0 text read items :
  let scenario := eqs kind "scenario" in
  source_of lib scenario id = Ok data → docRoot data = Ok root → ref0 ∈ profileRefs root scenario → isBuiltinRef ref0 = false →
  Export lib id kind = Some (Ok text) → utf8_text (after_slash id) = true → slen text <= maxBundleBytes → docRoot text = Ok read →
  Unpack text taken = Some (Ok items) →
  ∃ trees, length trees = length items ∧ NoDup (bi_name <$> items) ∧
    (∀ i tree item, trees !! i = Some tree → items !! i = Some item → nodeText tree = Ok (bi_text item) ∧ bi_name item ∉ taken ∧
       ∀ ref, ref ∈ profileRefs tree (eqs (bi_kind item) "scenario") →
         isBuiltinRef ref = true ∨ ∃ copy, copy ∈ items ∧ bi_kind copy = "profile"%string ∧ ref = UserSource +:+ "/" +:+ bi_name copy) ∧
    ∃ i item tree g, items !! i = Some item ∧ bi_kind item = kind_name scenario ∧ trees !! i = Some tree ∧ same_tree tree (edit_refs g scenario root) ∧
      ∀ ref, ref ∈ profileRefs root scenario →
        if isBuiltinRef ref then g ref = ref
        else ∃ j copy profile carried g', items !! j = Some copy ∧ bi_kind copy = "profile"%string ∧ g ref = UserSource +:+ "/" +:+ bi_name copy ∧
               (source ← so_Source lib ref; docRoot source) = Ok profile ∧ trees !! j = Some carried ∧ same_tree carried (edit_refs g' false profile).
Proof.
  intros scenario Hsrc Hroot Href0 Hb0 Hexp Hid Hsize Hreads Hun.
  destruct (export_spec lib id kind) as [(e & He & _)|(data' & root' & Hs & Hr & [[_ Hb]|(st & self & text' & Hok & Hself & Hw & Ht & He)])]; [by simplify_eq| |];
    fold scenario in Hs; rewrite Hsrc in Hs; injection Hs as <-; rewrite Hroot in Hr; injection Hr as <-; [by rewrite (Hb ref0 Href0) in Hb0|].
  rewrite Hexp in He. injection He as <-. fold scenario in Hok, Ht. pose proof (decoded_formed _ _ Hroot) as Hformed.
  set (docs0 := exported_docs st scenario self root) in *. set (own := own_doc (fd_names st) scenario self root).
  assert (Hsame : same_tree read (bundle_tree st scenario (label_of root id) self root)).
  { eapply written_read; [|exact Ht|done]. apply (bundle_formed lib scenario root st self Hok Hw); [by apply label_utf8 | done|].
    intros [c p] Hp. destruct (eo_doc _ _ _ _ Hok _ _ Hp) as (_ & _ & source & _ & Hdoc). by apply decoded_formed in Hdoc. }
  destruct (bundle_read text read (bundle_tree st scenario (label_of root id) self root) docs0 Hreads Hsame Hsize
    (read_bundle_tree st scenario (label_of root id) self root) (docs_nonempty scenario root st self)) as [(docs & Hread & Hplain)|[e Hread]];
    [|unfold Unpack in Hun; by rewrite Hread in Hun].
  destruct (Unpack_spec text taken docs Hread) as (names & g & r & Hr' & Hlen & Hnd & Hfree & Hg & Hitems).
  rewrite Hun in Hr'. injection Hr' as <-. destruct (Hitems items eq_refl) as [Hl Hat].
  assert (Hkeys : bd_key <$> docs = bd_key <$> docs0).
  { apply (f_equal (fmap bd_key)) in Hplain. by rewrite <- !list_fmap_compose in Hplain. }
  destruct (docs_keys lib scenario root st self Hok Hself Hw) as [Hk1 Hk2]. fold docs0 in Hk1, Hk2. rewrite <- Hkeys in Hk1.
  assert (Hk2' : Forall (λ d, well_named (bd_key d)) docs).
  { apply Forall_forall. intros d Hd. assert (Hk : bd_key d ∈ bd_key <$> docs0) by (rewrite <- Hkeys; by apply list_elem_of_fmap_2).
    apply list_elem_of_fmap in Hk as (d0 & -> & Hd0). rewrite Forall_forall in Hk2. by apply Hk2. }
  (* what is at a place of the bundle arrives at the same place *)
  assert (Hplace : ∀ d0, d0 ∈ docs0 → ∃ i d item, docs !! i = Some d ∧ items !! i = Some item ∧ bi_kind item = bd_kind d0 ∧
    bd_kind d = bd_kind d0 ∧ bd_key d = bd_key d0 ∧ same_tree (bd_node d) (bd_node d0) ∧ (import_tree g <$> docs) !! i = Some (import_tree g d)).
  { intros d0 [i Hi]%list_elem_of_lookup. destruct (lookup_lt_is_Some_2 docs i) as [d Hd].
    { rewrite <- (length_fmap plain_doc), Hplain, length_fmap. by eapply lookup_lt_Some. }
    destruct (plain_docs_at _ _ _ _ Hplain Hd) as (d0' & Hd0 & E1 & E2 & E3). rewrite Hi in Hd0. injection Hd0 as <-.
    destruct (lookup_lt_is_Some_2 items i) as [item Hitem]; [rewrite Hl; by eapply lookup_lt_Some|].
    destruct (Hat i d item Hd Hitem) as (Hkind & _). exists i, d, item. rewrite Hkind, list_lookup_fmap, Hd. done. }
  assert (Himported : ∀ d0, d0 ∈ docs0 → bd_kind d0 = "profile"%string → ∃ j d copy, docs !! j = Some d ∧ items !! j = Some copy ∧
    bi_kind copy = "profile"%string ∧ same_tree (bd_node d) (bd_node d0) ∧ bd_kind d = "profile"%string ∧
    g (UserSource +:+ "/" +:+ bd_key d0) = UserSource +:+ "/" +:+ bi_name copy).
  { intros d0 Hd0 Hk. destruct (Hplace d0 Hd0) as (i & d & item & Hd & Hitem & _ & E1 & E2 & E3 & _). rewrite Hk in E1.
    destruct (imported docs names items g Hg Hk1 Hl Hat d) as (j & copy & Hj & Hc & Hck & Hgr); [by eapply list_elem_of_lookup_2 | done|].
    exists j, d, copy. rewrite E2 in Hgr. done. }
  exists (import_tree g <$> docs). split; [by rewrite length_fmap|]. split; [by rewrite (items_names docs names items g Hl Hat)|]. split.
  - intros i tree item Hi Hitem. apply list_lookup_fmap_Some in Hi as (d & -> & Hd).
    destruct (Hat i d item Hd Hitem) as (Hkind & Hname & _ & Htext). split; [done|].
    split; [by apply Hfree; eapply list_elem_of_lookup_2|]. rewrite Hkind. fold (is_scenario d). intros ref Hin.
    unfold import_tree in Hin. rewrite profileRefs_edit in Hin by (intros v; by apply (follows_ne docs names)).
    apply list_elem_of_fmap in Hin as (old & -> & Hold). destruct (plain_docs_at _ _ _ _ Hplain Hd) as (d0 & Hd0 & E1 & _ & E3).
    destruct (docs_closed lib scenario root st self Hok d0 old) as [Hbu|(d' & Hd' & Hkd & ->)]; [by eapply list_elem_of_lookup_2 | | |].
    + unfold is_scenario in *. by rewrite <- E1, <- (same_profileRefs _ _ _ E3).
    + left. by rewrite (follows_builtin docs names).
    + right. destruct (Himported d' Hd' Hkd) as (j & d1 & copy & _ & Hj & Hck & _ & _ & ->). exists copy. split; [by eapply list_elem_of_lookup_2 | done].
  - assert (Hown : own ∈ docs0) by (apply (elem_of_docs scenario root st self); by left).
    destruct (Hplace own Hown) as (i & d & item & Hd & Hitem & Hkind & E1 & _ & E3 & Htree).
    exists i, item, (import_tree g d), (λ v, g (rename_ref (fd_names st) v)). split_and!; [done..| |].
    + unfold import_tree. assert (is_scenario d = scenario) as ->.
      { unfold is_scenario. rewrite E1. apply (is_scenario_own scenario root st self). }
      rewrite <- (edit_refs_compose g (rename_ref (fd_names st)) scenario root) by apply rename_ne. by apply same_edit_refs.
    + intros ref Hin. destruct (rename_carried lib scenario root st Hok ref) as [[Hbu E]|(Hbu & [c profile] & Hp & Hc & E)];
        [apply elem_of_app; by left | cbn beta; rewrite Hbu, E; by apply (follows_builtin docs names) |]. cbn beta. rewrite Hbu, E. cbn in Hc. subst c.
      destruct (Himported (carried_doc (fd_names st) (CanonicalID ref, profile))) as (j & d1 & copy & Hdj & Hj & Hck & Hsn & Hkd & ->);
        [apply (elem_of_docs scenario root st self); right; by eexists | done |].
      exists j, copy, profile, (import_tree g d1), (λ v, g (rename_ref (fd_names st) v)). split_and!; [done..| | |].
      * destruct (eo_doc _ _ _ _ Hok _ _ Hp) as (_ & _ & source & Hsource & Hdoc). unfold so_Source. by rewrite Hsource.
      * by rewrite list_lookup_fmap, Hdj.
      * unfold import_tree. assert (is_scenario d1 = false) as -> by (unfold is_scenario; by rewrite Hkd).
        rewrite <- (edit_refs_compose g (rename_ref (fd_names st)) false profile) by apply rename_ne. by apply same_edit_refs.
Qed.
End roundtrip.

(** ** A scenario shared with its profile *)

Module Sample.
#[local] Existing Instance ascii_tables.
#[local] Existing Instance ascii_tables_ok.
#[local] Instance no_urls : Url := {| url_parse _ := None |}.
#[local] Instance no_prefixes : Netip := {| parse_prefix _ := false |}.
#[local] Existing Instance natural_order.

(** *** A plain notation for trees

    A leaf is a letter and its text, a dot before each byte; what holds nodes
    is between parentheses. Looks are not written. *)

Fixpoint spell (v : string) : string := match v with EmptyString => ";" | String c v => String "." (String c (spell v)) end.

Fixpoint write (n : node) : string :=
  let 'Node k v _ c := n in
  match k with
  | ScalarNode => "s" +:+ spell v
  | AliasNode => "a" +:+ spell v
  | SequenceNode => "[" +:+ foldr (λ m s, write m +:+ s) ")"%string c
  | MappingNode => "{" +:+ foldr (λ m s, write m +:+ s) ")"%string c
  end.

Fixpoint unspell (s : string) : option (string * string) :=
  match s with
  | String c1 s1 =>
      if bool_decide (c1 = ";"%char) then Some (EmptyString, s1)
      else match s1 with String c s2 => '(v, rest) ← unspell s2; Some (String c v, rest) | EmptyString => None end
  | EmptyString => None
  end.

Definition leaf (k : nodeKind) (s : string) : option (node * string) :=
  '(v, rest) ← unspell s; if utf8_text v then Some (Node k v EmptyString [], rest) else None.

Fixpoint parse (fuel : nat) (s : string) : option (node * string) :=
  match fuel, s with
  | S fuel, String c s =>
      if bool_decide (c = "s"%char) then leaf ScalarNode s
      else if bool_decide (c = "a"%char) then leaf AliasNode s
      else if bool_decide (c = "["%char) then '(l, rest) ← parse_all fuel s; Some (Node SequenceNode EmptyString EmptyString l, rest)
      else if bool_decide (c = "{"%char) then
        '(l, rest) ← parse_all fuel s; if Nat.even (length l) then Some (Node MappingNode EmptyString EmptyString l, rest) else None
      else None
  | _, _ => None
  end
with parse_all (fuel : nat) (s : string) : option (list node * string) :=
  match fuel, s with
  | S fuel, String c rest =>
      if bool_decide (c = ")"%char) then Some ([], rest)
      else '(n, s) ← parse fuel s; '(l, s) ← parse_all fuel s; Some (n :: l, s)
  | _, _ => None
  end.

Lemma unspell_spell v rest : unspell (spell v +:+ rest) = Some (v, rest).
Proof. induction v as [|c v IH]; [done|]. cbn [spell]. rewrite !append_cons. cbn. by rewrite IH. Qed.

Lemma spell_pos v rest : (String.length rest < String.length (spell v +:+ rest))%nat.
Proof. rewrite length_append. destruct v; cbn; lia. Qed.

Lemma parse_formed fuel : (∀ s n rest, parse fuel s = Some (n, rest) → formed n = true) ∧
  (∀ s l rest, parse_all fuel s = Some (l, rest) → forallb formed l = true).
Proof.
  induction fuel as [|fuel [IH1 IH2]]; [done|]. split.
  - intros [|c s] n rest; [done|]. cbn [parse].
    assert (Hleaf : ∀ k, k = ScalarNode ∨ k = AliasNode → leaf k s = Some (n, rest) → formed n = true).
    { intros k Hk. unfold leaf. destruct (unspell s) as [[v r]|]; [|done]. cbn. destruct (utf8_text v) eqn:Ev; [|done]. intros [= <- _].
      rewrite formed_eq. destruct Hk as [->| ->]; cbn; by rewrite Ev. }
    destruct (bool_decide (c = "s"%char)); [by apply Hleaf; left|]. destruct (bool_decide (c = "a"%char)); [by apply Hleaf; right|].
    destruct (bool_decide (c = "["%char)); [|destruct (bool_decide (c = "{"%char)); [|done]];
      (destruct (parse_all fuel s) as [[l r]|] eqn:E; [cbn|done]).
    + intros [= <- _]. rewrite formed_eq. by apply (IH2 _ _ _ E).
    + destruct (Nat.even (length l)) eqn:Ev; [|done]. intros [= <- _]. rewrite formed_eq. cbn [formed_here]. rewrite Ev. by apply (IH2 _ _ _ E).
  - intros [|c s] l rest; [done|]. cbn [parse_all]. destruct (bool_decide _); [by intros [= <- _]|].
    destruct (parse fuel _) as [[n r]|] eqn:E1; [cbn|done]. destruct (parse_all fuel r) as [[l' r']|] eqn:E2; [cbn|done].
    intros [= <- _]. cbn. by rewrite (IH1 _ _ _ E1), (IH2 _ _ _ E2).
Qed.

Lemma write_head n : ∃ c s, write n = String c s ∧ c ≠ ")"%char.
Proof. destruct n as [[] v l c]; cbn; by eexists _, _. Qed.

Lemma parse_write : ∀ n, formed n = true → ∀ fuel rest, (String.length (write n) ≤ fuel)%nat → parse fuel (write n +:+ rest) = Some (plain n, rest).
Proof.
  fix IH 1. intros [k v l c] Hf fuel rest Hfuel.
  assert (Hall : forallb formed c = true → ∀ fuel rest, (String.length (foldr (λ m s, write m +:+ s) ")"%string c) ≤ fuel)%nat →
    parse_all fuel (foldr (λ m s, write m +:+ s) ")"%string c +:+ rest) = Some (plain <$> c, rest)).
  { clear Hf Hfuel. induction c as [|m c IHc]; intros Hc fuel' rest' Hl; (destruct fuel' as [|fuel']; [cbn in Hl; rewrite ?length_append in Hl; cbn in Hl|]).
    - lia.
    - done.
    - destruct (write_head m) as (ch & s & Hw & _). rewrite Hw in Hl. cbn in Hl. lia.
    - cbn [forallb] in Hc. apply andb_true_iff in Hc as [Hm Hc]. cbn [foldr] in Hl |- *. destruct (write_head m) as (ch & s & Hw & Hne).
      rewrite length_append in Hl. assert (1 ≤ String.length (write m))%nat by (rewrite Hw; cbn; lia).
      assert (1 ≤ String.length (foldr (λ m s, write m +:+ s) ")"%string c))%nat by (destruct c; [done|]; cbn [foldr]; rewrite length_append; destruct (write_head n) as (? & ? & -> & _); cbn; lia).
      rewrite append_assoc. set (t := foldr _ _ c +:+ rest').
      assert (parse_all (S fuel') (write m +:+ t) = '(n, s) ← parse fuel' (write m +:+ t); '(l, s) ← parse_all fuel' s; Some (n :: l, s)) as ->.
      { rewrite Hw, append_cons. cbn [parse_all]. by rewrite bool_decide_eq_false_2. }
      rewrite (IH m Hm) by lia. cbn. unfold t. by rewrite IHc by (done || lia). }
  rewrite formed_eq in Hf. apply andb_true_iff in Hf as [Hh Hc].
  assert (Hnone : String.length (write (Node k v l c)) = 0%nat → False) by (destruct (write_head (Node k v l c)) as (? & ? & -> & _); done).
  destruct fuel as [|fuel]; [lia|]. rewrite plain_eq.
  destruct k; cbn [write] in Hfuel |- *; rewrite append_assoc, !append_cons, append_nil_l in *; cbn [formed_here] in Hh.
  - cbn in Hfuel. change (parse _ _) with ('(l, rest) ← parse_all fuel (foldr (λ m s, write m +:+ s) ")"%string c +:+ rest); Some (Node SequenceNode EmptyString EmptyString l, rest)).
    rewrite Hall by (done || lia). cbn. apply bool_decide_eq_true in Hh as ->. done.
  - cbn in Hfuel. apply andb_true_iff in Hh as [Hv He].
    change (parse _ _) with ('(l, rest) ← parse_all fuel (foldr (λ m s, write m +:+ s) ")"%string c +:+ rest);
      if Nat.even (length l) then Some (Node MappingNode EmptyString EmptyString l, rest) else None).
    rewrite Hall by (done || lia). cbn. rewrite length_fmap, He. apply bool_decide_eq_true in Hv as ->. done.
  - apply andb_true_iff in Hh as [Hv ->%bool_decide_eq_true]. change (parse _ _) with (leaf ScalarNode (spell v +:+ rest)).
    unfold leaf. rewrite unspell_spell. cbn. by rewrite Hv.
  - apply andb_true_iff in Hh as [Hv ->%bool_decide_eq_true]. change (parse _ _) with (leaf AliasNode (spell v +:+ rest)).
    unfold leaf. rewrite unspell_spell. cbn. by rewrite Hv.
Qed.

Lemma plain_plain : ∀ n, plain (plain n) = plain n.
Proof. fix IH 1. intros [k v l c]. rewrite !plain_eq. f_equal. induction c as [|m c IHc]; [done|]. rewrite !fmap_cons, IH. by f_equal. Qed.

#[local] Instance texts : YamlNodes := {|
  yaml_content s := match parse (String.length s) s with Some (n, EmptyString) => Ok [n] | _ => Err "unreadable"%string end;
  yaml_encode n := Ok (write n);
|}.

#[local] Instance texts_read : YamlReads.
Proof.
  split.
  - intros text root. unfold docRoot, yaml_content, texts. destruct (parse _ text) as [[n []]|] eqn:E; try done. cbn. intros [= <-].
    by apply (proj1 (parse_formed _) _ _ _ E).
  - intros tree text read Hf. unfold nodeText, yaml_encode, docRoot, yaml_content, texts. intros [= <-].
    rewrite <- (append_nil_r (write tree)) at 2. rewrite parse_write by done. cbn. intros [= <-]. apply plain_plain.
Qed.


Definition trip : node := mapping [scalar "groups"; mapping [scalar "G"; mapping [scalar "profile"; scalar "mine"]]].
Definition mine : node := mapping [scalar "title"; scalar "My Pick"; scalar "extends"; scalar "builtin/simple"].
#[local] Instance no_documents : Yaml := {|
  yaml_any := unit; yaml_marshal _ := Err EmptyString; yaml_profile _ := Err EmptyString; yaml_scenario _ := Err EmptyString; yaml_format _ := Err EmptyString;
|}.

Definition library : Sources :=
  {| so_profiles := {[ "provider/mine"%string := write mine ]}; so_scenarios := {[ "user/trip"%string := write trip ]} |}.

Definition shared : string := match Export library "user/trip" "scenario" with Some (Ok text) => text | _ => EmptyString end.
(** The trees that arrive, the profile under a name of its own. *)
Definition trip_there : node := mapping [scalar "groups"; mapping [scalar "G"; mapping [scalar "profile"; scalar "user/my-pick-2"]]].
Definition items : list BundleItem :=
  [{| bi_kind := "profile"; bi_name := "my-pick-2"; bi_title := "My Pick"; bi_text := write mine |};
   {| bi_kind := "scenario"; bi_name := "trip"; bi_title := ""; bi_text := write trip_there |}]%string.

Example unpack_trip : Unpack shared ["my-pick"]%string = Some (Ok items).
Proof. vm_compute. reflexivity. Qed.

(** A blank [extends] ends the chain of a profile that compiles, but the
    export looks for a profile without a name. *)
Example blank_extends : let blank := mapping [scalar "extends"; scalar "  "] in
  profileRefs blank false = ["  "%string] ∧ CanonicalID "  " = EmptyString ∧
  so_Source library (CanonicalID "  ") = Err "profile  not found"%string.
Proof. vm_compute. done. Qed.

Lemma bundle_roundtrip_witness :
  ∃ trees, length trees = length items ∧ NoDup (bi_name <$> items) ∧
    ∀ i tree item, trees !! i = Some tree → items !! i = Some item → nodeText tree = Ok (bi_text item) ∧ bi_name item ∉ ["my-pick"%string].
Proof.
  assert (Hread : ∃ read, docRoot shared = Ok read) by (vm_compute; by eexists). destruct Hread as [read Hread].
  destruct (bundle_roundtrip library "user/trip" "scenario" ["my-pick"%string] (write trip) trip "mine" shared read items) as (trees & Hl & Hnd & Hat & _);
    [reflexivity | vm_compute; reflexivity | vm_compute; by left | vm_compute; reflexivity | vm_compute; reflexivity | vm_compute; reflexivity
    | vm_compute; discriminate | exact Hread | exact unpack_trip |].
  exists trees. split; [exact Hl|]. split; [exact Hnd|]. intros i tree item Ht Hi. destruct (Hat i tree item Ht Hi) as (Htext & Hn & _). by split.
Defined.

Lemma export_closed_witness : ∃ r, Export library "user/trip" "scenario" = Some r.
Proof. destruct (export_closed library "user/trip" "scenario") as (r & Hr & _). exists r. exact Hr. Defined.
End Sample.
