(* ===== verification/Builder.v ===== *)
(** * The condition builder: core/rcx/builder.go

    The editor shows a condition as clauses joined by one operator when it is
    that flat, and writes the text of such a form back. *)

From S2P Require Import Prelude GoText TextFacts Cond CondSyntax Profile Route Scenario.

(** ** Forms *)

Record Clause := {
  cl_Not : bool;
  cl_Field : string;
  cl_Op : string;
  cl_Values : list string;
  cl_IgnoreCase : bool;
}.

Record CondForm := {
  cf_Join : string;
  cf_Clauses : list Clause;
  cf_Flat : bool;
  cf_Error : string;
}.

Record FieldInfo := {
  fi_Name : string;
  fi_Kind : string;
  fi_Network : bool;
  fi_Ops : list string;
  fi_Values : list string;
}.

Definition stringOps : list string := ["="; "!="; "in"; "~"]%string.
Definition numberOps : list string := ["="; "!="; "<"; "<="; ">"; ">="]%string.
Definition countryOps : list string := ["="; "!="; "in"]%string.
Definition keywords : gset string := {[ "and"; "or"; "not"; "in"; "ok"; "fail" ]}%string.

(** ** From a condition to a form *)

Definition leaf_clause (not : bool) (field op : string) (values : list string) : Clause :=
  {| cl_Not := not; cl_Field := field; cl_Op := op; cl_Values := values; cl_IgnoreCase := false |}.

(** The switch of [clauseOf] over the node under the negation. *)
Definition clause_under (not : bool) (n : condNode) : option Clause :=
  match n with
  | boolNode field => Some (leaf_clause not field "" [])
  | tagNode tag => Some (leaf_clause not "tag" "" [tag])
  | checkNode check pass => Some (leaf_clause not (if pass then "passes" else "fails") "" [check])
  | diagNode diag ok => Some (leaf_clause not "diag" (if ok then "ok" else "fail") [diag])
  | numberNode op value => Some (leaf_clause not "latency" op [Itoa value])
  | stringNode field op values None => Some (leaf_clause not field op values)
  | stringNode field op _ (Some re) =>
      let fold := HasPrefix re "(?i)" in
      let pattern := if fold then string_drop 4 re else re in
      Some {| cl_Not := not; cl_Field := field; cl_Op := op; cl_Values := [pattern]; cl_IgnoreCase := fold |}
  | notNode _ | andNode _ | orNode _ => None
  end.

Definition clauseOf (n : condNode) : option Clause :=
  match n with
  | notNode inner => clause_under true inner
  | _ => clause_under false n
  end.

Definition formOf (root : condNode) : CondForm :=
  let '(items, join) :=
    match root with
    | andNode items => (items, "and"%string)
    | orNode items => (items, "or"%string)
    | _ => ([root], "and"%string)
    end in
  match mapM clauseOf items with
  | Some clauses => {| cf_Join := join; cf_Clauses := clauses; cf_Flat := true; cf_Error := "" |}
  | None => {| cf_Join := join; cf_Clauses := []; cf_Flat := false; cf_Error := "" |}
  end.

(** ** From a form to a text *)

(** [strings.ReplaceAll] of one byte. *)
Fixpoint ReplaceByte (s : string) (old : ascii) (new : string) : string :=
  match s with
  | EmptyString => EmptyString
  | String c s => if bool_decide (c = old) then new +:+ ReplaceByte s old new else String c (ReplaceByte s old new)
  end.

Inductive formError :=
  | JoinUnknown (join : string)
  | FieldUnknown (field : string)
  | BothQuotes.

Section text.
Context `{Unicode}.

Definition quoteValue (v : string) : result formError string :=
  if negb (empty v) && negb (bool_decide (ToLower v ∈ keywords)) && forallb isWordRune (decode v) then Ok v
  else if negb (Contains v "'") then Ok ("'" +:+ v +:+ "'")
  else if negb (Contains v (str1 (Zbyte 34))) then Ok (str1 (Zbyte 34) +:+ v +:+ str1 (Zbyte 34))
  else Err BothQuotes.

Fixpoint quote_values (vs : list string) : result formError (list string) :=
  match vs with
  | [] => Ok []
  | v :: vs => quoted ← quoteValue v; rest ← quote_values vs; Ok (quoted :: rest)
  end.

Definition clauseText (c : Clause) : result formError string :=
  let field := cl_Field c in
  let first := default EmptyString (head (cl_Values c)) in
  if mem_string field ["tag"; "passes"; "fails"]%string then
    value ← quoteValue first; Ok (field +:+ "(" +:+ value +:+ ")")
  else if eqs field "diag" then Ok (first +:+ " " +:+ cl_Op c)
  else match condFields !! field with
       | None => Err (FieldUnknown field)
       | Some (boolField, _) => Ok field
       | Some (numberField, _) => Ok (field +:+ " " +:+ cl_Op c +:+ " " +:+ first)
       | Some (_, _) =>
           if eqs (cl_Op c) "~" then
             Ok (field +:+ " ~ " +:+ "/" +:+ ReplaceByte first "/" "\/" +:+ "/" +:+ (if cl_IgnoreCase c then "i" else ""))
           else if eqs (cl_Op c) "in" then
             values ← quote_values (cl_Values c); Ok (field +:+ " in [" +:+ Join values ", " +:+ "]")
           else value ← quoteValue first; Ok (field +:+ " " +:+ cl_Op c +:+ " " +:+ value)
       end.

Definition clause_part (c : Clause) : result formError string :=
  text ← clauseText c; Ok (if cl_Not c then "not " +:+ text else text).

Fixpoint clause_parts (cs : list Clause) : result formError (list string) :=
  match cs with
  | [] => Ok []
  | c :: cs => part ← clause_part c; parts ← clause_parts cs; Ok (part :: parts)
  end.

Definition formText (form : CondForm) : result formError string :=
  if negb (eqs (cf_Join form) "and") && negb (eqs (cf_Join form) "or") && (1 <? length (cf_Clauses form))%nat
  then Err (JoinUnknown (cf_Join form))
  else parts ← clause_parts (cf_Clauses form); Ok (Join parts (" " +:+ cf_Join form +:+ " ")).
End text.

(** ** The request of the editor *)

(** What [StudioRequest] carries for a condition, and the answer. *)
Record CondRequest := {
  cr_Profile : option Profile;
  cr_Scenario : option Scenario;
  cr_Network : bool;
  cr_Text : string;
  cr_Form : option CondForm;
}.

Record CondResult := { co_Fields : list FieldInfo; co_Text : string; co_Form : CondForm }.

Definition field_info (network : bool) (name : string) : option FieldInfo :=
  '(kind, fscope) ← condFields !! name;
  if network && negb (bool_decide (fscope = netField)) then None
  else
    let '(kind, ops) := match kind with
      | stringField => ("string"%string, stringOps)
      | countryField => ("country"%string, countryOps)
      | numberField => ("number"%string, numberOps)
      | boolField => ("bool"%string, [])
      end in
    Some {| fi_Name := name; fi_Kind := kind; fi_Network := bool_decide (fscope = netField); fi_Ops := ops; fi_Values := [] |}.

Definition names_info (name kind : string) (ops : list string) (network : bool) (names : gset string) : FieldInfo :=
  {| fi_Name := name; fi_Kind := kind; fi_Network := network; fi_Ops := ops; fi_Values := sorted_strings (elements names) |}.

Definition builderScope (profile : option Profile) (scenario : option Scenario) (network : bool) : condScope * list FieldInfo :=
  let tags : gset string := dom (default ∅ (pr_Tags <$> profile)) ∪ dom (default ∅ (sc_Tags <$> scenario)) in
  let checks : gset string := dom (default ∅ (pr_Checks <$> profile)) in
  let diags : gset string := dom (default ∅ ((λ p, nw_Diagnose (pr_Network p)) <$> profile)) ∪
                             dom (default ∅ ((λ s, nw_Diagnose (sc_Network s)) <$> scenario)) in
  let fields := omap (field_info network) (sorted_keys condFields) in
  if network then
    ({| cs_tags := None; cs_checks := ∅; cs_diags := Some diags |},
     fields ++ [names_info "diag" "diag" ["ok"; "fail"]%string true diags])
  else
    ({| cs_tags := Some tags; cs_checks := checks; cs_diags := None |},
     fields ++ [names_info "tag" "tag" [] false tags; names_info "passes" "check" [] false checks; names_info "fails" "check" [] false checks]).

(** The texts of the errors, as [Error()] writes them. *)
Class CondErrorText := { cond_error_text : condError → string; form_error_text : formError → string }.

Section request.
Context `{Unicode} `{Regexp} `{CondErrorText}.

(** The form shown for a text: of its condition, or of the clauses asked for
    with the error of the text they make. *)
Definition shown_form (scope : condScope) (asked : option CondForm) (text : string) : CondForm :=
  match parseCond scope text with
  | Err e =>
      {| cf_Join := "and"; cf_Clauses := default [] (cf_Clauses <$> asked);
         cf_Flat := bool_decide (is_Some asked); cf_Error := cond_error_text e |}
  | Ok None => {| cf_Join := "and"; cf_Clauses := []; cf_Flat := true; cf_Error := "" |}
  | Ok (Some cond) => formOf (cd_root cond)
  end.

Definition studioCond (req : CondRequest) : CondResult :=
  let '(scope, fields) := builderScope (cr_Profile req) (cr_Scenario req) (cr_Network req) in
  let answer text := {| co_Fields := fields; co_Text := text; co_Form := shown_form scope (cr_Form req) text |} in
  match cr_Form req with
  | None => answer (cr_Text req)
  | Some form =>
      match formText form with
      | Err e =>
          {| co_Fields := fields; co_Text := "";
             co_Form := {| cf_Join := cf_Join form; cf_Clauses := cf_Clauses form; cf_Flat := true; cf_Error := form_error_text e |} |}
      | Ok text => answer text
      end
  end.
End request.
