(* ===== verification/BuilderText.v ===== *)
(** * The condition builder: the texts it writes are read as meant

    Escaping and quoting on runes, and what the lexer reads from each piece of
    a text the builder writes. *)

From S2P Require Import Prelude GoText TextFacts Cond CondSyntax CondSyntaxFacts Builder.

(** ** Bytes of encoded runes *)

Lemma encode_app a b : encode (a ++ b) = encode a +:+ encode b.
Proof. unfold encode. by rewrite fmap_app, TextFacts.concat_app. Qed.

Lemma bytes_of_encode1 r : valid_rune r → 128 <= r → Forall (λ b, 128 <= b) (bytes_of (encode1 r)).
Proof.
  intros [Hr Hs] H128. unfold encode1. assert ((r <? 0) || (1114111 <? r) || in_range 55296 57343 r = false) as ->.
  { rewrite !orb_false_iff. split_and!; [apply Z.ltb_ge; lia | apply Z.ltb_ge; lia |]. apply not_true_iff_false. by rewrite in_range_spec. }
  destruct (digits64 r ltac:(lia)) as (a & b & c & d & -> & -> & -> & -> & -> & -> & E & Hb & Hc & Hd & Ha).
  rewrite (proj2 (Z.ltb_ge _ _)) by lia. unfold str1.
  repeat case_if; rewrite ?Z.ltb_lt, ?Z.ltb_ge in *; cbn [bytes_of]; rewrite !byteZ_Zbyte by lia; repeat constructor; lia.
Qed.

Lemma has_byte_bytes c s : has_byte c s = true ↔ byteZ c ∈ bytes_of s.
Proof.
  induction s as [|d s IH]; [by split; [|intros ?%elem_of_nil]|]. cbn. rewrite orb_true_iff, IH, bool_decide_eq_true, elem_of_cons.
  split; [intros [->|]; auto | intros [E|]; [left|by right]]. rewrite <- (Zbyte_byteZ c), E. by rewrite Zbyte_byteZ.
Qed.

Lemma has_byte_encode1 c r : valid_rune r → byteZ c < 128 → has_byte c (encode1 r) = bool_decide (r = byteZ c).
Proof.
  intros Hr Hc. apply eq_true_iff_eq. rewrite has_byte_bytes, bool_decide_eq_true. destruct (decide (r < 128)) as [Hlt|Hge].
  - rewrite encode1_ascii by (destruct Hr; lia). cbn. rewrite byteZ_Zbyte by (destruct Hr; lia). rewrite list_elem_of_singleton. done.
  - pose proof (bytes_of_encode1 r Hr ltac:(lia)) as Hb. rewrite Forall_forall in Hb. split; [|lia]. intros Hin%Hb. lia.
Qed.

Lemma has_byte_encode c rs : Forall valid_rune rs → byteZ c < 128 → has_byte c (encode rs) = bool_decide (byteZ c ∈ rs).
Proof.
  intros Hrs Hc. induction Hrs as [|r rs Hr _ IH]; [by rewrite bool_decide_eq_false_2 by apply not_elem_of_nil|].
  rewrite encode_cons, has_byte_app, IH, has_byte_encode1 by done. apply eq_true_iff_eq.
  rewrite orb_true_iff, !bool_decide_eq_true, elem_of_cons. naive_solver.
Qed.

Lemma Contains_byte s c : Contains s (str1 c) = has_byte c s.
Proof.
  apply eq_true_iff_eq. unfold Contains, Index. rewrite bool_decide_eq_true. induction s as [|d s IH].
  - cbn. split; [by intros [? [=]] | done].
  - cbn [has_byte]. rewrite orb_true_iff, bool_decide_eq_true, <- IH. cbn [String.index str1 String.prefix].
    destruct (ascii_dec c d) as [->|Hne].
    + assert (String.prefix EmptyString s = true) as -> by by destruct s. split; [by left | by eexists].
    + destruct (String.index 0 _ s) as [n|]; split; try naive_solver.
Qed.

(** ** Replacing a byte *)

Lemma ReplaceByte_app s t c new : ReplaceByte (s +:+ t) c new = ReplaceByte s c new +:+ ReplaceByte t c new.
Proof.
  induction s as [|d s IH]; [by rewrite !append_nil_l|]. rewrite append_cons. cbn [ReplaceByte]. rewrite IH.
  case_bool_decide; [by rewrite append_assoc | by rewrite append_cons].
Qed.

Lemma ReplaceByte_none s c new : has_byte c s = false → ReplaceByte s c new = s.
Proof. induction s as [|d s IH]; [done|]. cbn. intros [Hd Hs]%orb_false_iff. apply bool_decide_eq_false in Hd. by rewrite bool_decide_eq_false_2, IH. Qed.

(** A slash is written with a backslash before it. *)
Definition escape (rs : list rune) : list rune := rs ≫= λ r, if r =? r_slash then [r_backslash; r_slash] else [r].

Lemma escape_cons r rs : escape (r :: rs) = (if r =? r_slash then [r_backslash; r_slash] else [r]) ++ escape rs.
Proof. reflexivity. Qed.

Lemma ReplaceByte_escape rs : Forall valid_rune rs → ReplaceByte (encode rs) "/" "\/" = encode (escape rs).
Proof.
  induction 1 as [|r rs Hr _ IH]; [done|]. rewrite escape_cons, encode_cons, encode_app, ReplaceByte_app, IH. f_equal.
  destruct (Z.eqb_spec r r_slash) as [->|Hne]; [reflexivity|].
  rewrite ReplaceByte_none by (rewrite has_byte_encode1 by done; by apply bool_decide_eq_false).
  by rewrite encode_cons, append_nil_r.
Qed.

Lemma escape_valid rs : Forall valid_rune rs → Forall valid_rune (escape rs).
Proof.
  induction 1 as [|r rs Hr _ IH]; [constructor|]. rewrite escape_cons. apply Forall_app. split; [|done].
  case_if; rewrite !Forall_cons, Forall_nil; split_and!; try done; split; unfold r_backslash, r_slash; lia.
Qed.

(** What the lexer takes out of an escaped pattern is the pattern, unless the
    closing slash is read as part of it. *)
Lemma scan_escape rs rest : last rs ≠ Some r_backslash → scan_pattern (escape rs ++ r_slash :: rest) = Some (rs, rest).
Proof.
  induction rs as [|r rs IH]; intros Hl; [done|].
  assert (IH' : scan_pattern (escape rs ++ r_slash :: rest) = Some (rs, rest)).
  { destruct rs as [|r' rs]; [done|]. apply IH. by rewrite last_cons_cons in Hl. }
  rewrite escape_cons, <- app_assoc. destruct (Z.eqb_spec r r_slash) as [->|Hne].
  - change (scan_pattern (r_backslash :: r_slash :: escape rs ++ r_slash :: rest) = Some (r_slash :: rs, rest)).
    cbn [scan_pattern]. change (r_backslash =? r_slash) with false. change (r_backslash =? r_backslash) with true.
    change (r_slash =? r_slash) with true. cbn iota. by rewrite IH'.
  - cbn [app scan_pattern]. apply Z.eqb_neq in Hne as E. rewrite E, IH'.
    destruct (Z.eqb_spec r r_backslash) as [->|Hb]; [|done].
    destruct (escape rs ++ r_slash :: rest) as [|x l] eqn:El; [done|].
    destruct (Z.eqb_spec x r_slash) as [->|Hx]; [|done]. exfalso.
    destruct rs as [|r' rs]; [by apply Hl|]. rewrite escape_cons in El. destruct (Z.eqb_spec r' r_slash) as [|Hs]; [done|]. injection El as Es _. done.
Qed.

(** ** What the lexer reads *)

Definition string_tok (x : string) : condToken := {| tk_kind := stringToken; tk_text := x |}.
Definition op_tok (x : string) : condToken := {| tk_kind := opToken; tk_text := x |}.
Definition regex_tok (x : string) : condToken := {| tk_kind := regexToken; tk_text := x |}.

Section lex.
Context `{U : Unicode} {UA : UnicodeAscii} {US : UnicodeSpaces}.

Lemma word_not_space r : isWordRune r = true → is_space r = false.
Proof using UA US.
  unfold isWordRune. rewrite !orb_true_iff, !Z.eqb_eq. intros Hw. apply not_true_iff_false. intros Hs.
  destruct (space_apart r Hs) as [Hl Hd]. rewrite Hl, Hd in Hw.
  assert (Hr : r = r_underscore ∨ r = r_dash ∨ r = r_dot ∨ r = r_colon) by naive_solver.
  rewrite space_ascii in Hs by (unfold r_underscore, r_dash, r_dot, r_colon in Hr; lia).
  by destruct Hr as [->|[->|[->| ->]]].
Qed.

Lemma word_ascii r : 0 <= r < 128 → isWordRune r = ascii_upper r || ascii_lower r || ascii_digit r || (r =? 95) || (r =? 45) || (r =? 46) || (r =? 58).
Proof using UA US. intros Hr. unfold isWordRune. by rewrite letter_ascii, digit_ascii by done. Qed.

(** A rune of a word is none of those that begin another token. *)
Lemma word_rune r : isWordRune r = true → is_space r = false ∧ is_punct r = false ∧ (r =? r_eq) || (r =? r_tilde) = false ∧
  (r =? r_bang) || (r =? r_lt) || (r =? r_gt) = false ∧ (r =? r_quote) || (r =? r_dquote) = false ∧ (r =? r_slash) = false.
Proof using UA US.
  intros Hw. split; [by apply word_not_space|].
  assert (Hne : ∀ x, 0 <= x < 128 → isWordRune x = false → (r =? x) = false).
  { intros x Hx Hf. apply Z.eqb_neq. intros ->. congruence. }
  unfold is_punct, r_lparen, r_rparen, r_lbracket, r_rbracket, r_comma, r_eq, r_tilde, r_bang, r_lt, r_gt, r_quote, r_dquote, r_slash.
  rewrite !Hne by (lia || by rewrite word_ascii by lia). done.
Qed.

Lemma lex_runes_nil : lex_runes [] = Ok [].
Proof. done. Qed.

Lemma span_all {A} (p : A → bool) l : Forall (λ x, p x = true) l → span p l = (l, []).
Proof. induction 1 as [|x l Hx _ IH]; [done|]. cbn. by rewrite Hx, IH. Qed.

Lemma read_word rs : rs ≠ [] → Forall (λ r, isWordRune r = true) rs → lex_runes rs = Ok [word (encode rs)].
Proof using UA US.
  intros Hne Hw. destruct rs as [|r rs]; [done|]. rewrite lex_runes_cons. unfold lex_step.
  apply Forall_cons in Hw as [Hr Hw]. destruct (word_rune r Hr) as (-> & -> & -> & -> & -> & ->). rewrite Hr.
  rewrite (span_all isWordRune (r :: rs)) by by apply Forall_cons. by rewrite lex_runes_nil.
Qed.

Lemma read_space l ts : lex_runes l = Ok ts → lex_runes (32 :: l) = Ok ts.
Proof using UA US. intros Hl. rewrite lex_runes_cons. unfold lex_step. rewrite space_ascii by lia. cbn. by rewrite Hl. Qed.

Lemma read_punct r l ts : is_punct r = true → lex_runes l = Ok ts → lex_runes (r :: l) = Ok (punct (encode1 r) :: ts).
Proof using UA US.
  intros Hr Hl. rewrite lex_runes_cons. unfold lex_step.
  assert (is_space r = false) as ->.
  { unfold is_punct, r_lparen, r_rparen, r_lbracket, r_rbracket, r_comma in Hr. rewrite !orb_true_iff, !Z.eqb_eq in Hr.
    rewrite space_ascii by lia. unfold ascii_space, in_range. destruct Hr as [[[[->| ->]| ->]| ->]| ->]; done. }
  by rewrite Hr, Hl.
Qed.

Lemma scan_string_spec q rs rest : q ∉ rs → scan_string q (rs ++ q :: rest) = Some (rs, rest).
Proof using Type.
  clear. induction rs as [|r rs IH]; cbn; [by rewrite Z.eqb_refl|]. intros Hq. rewrite (proj2 (Z.eqb_neq r q)) by set_solver.
  rewrite IH by set_solver. done.
Qed.

Lemma read_quoted q rs : q = r_quote ∨ q = r_dquote → q ∉ rs → lex_runes (q :: rs ++ [q]) = Ok [string_tok (encode rs)].
Proof using UA US.
  intros Hq Hin. rewrite lex_runes_cons. unfold lex_step. rewrite space_ascii by (unfold r_quote, r_dquote in Hq; lia).
  rewrite (scan_string_spec q rs []) by done. by destruct Hq as [-> | ->].
Qed.

Lemma read_regex rs (fold : bool) : last rs ≠ Some r_backslash →
  lex_runes (r_slash :: escape rs ++ r_slash :: if fold then [105] else []) = Ok [regex_tok ((if fold then "(?i)" else "") +:+ encode rs)].
Proof using UA US.
  intros Hl. rewrite lex_runes_cons. unfold lex_step. rewrite space_ascii by (unfold r_slash; lia).
  change (ascii_space r_slash) with false. change (is_punct r_slash) with false.
  change ((r_slash =? r_eq) || (r_slash =? r_tilde)) with false. change ((r_slash =? r_bang) || (r_slash =? r_lt) || (r_slash =? r_gt)) with false.
  change ((r_slash =? r_quote) || (r_slash =? r_dquote)) with false. change (r_slash =? r_slash) with true. cbn iota.
  rewrite scan_escape by done. destruct fold; cbn [span]; [rewrite letter_ascii by lia; reflexivity | reflexivity].
Qed.

Lemma read_op op : op ∈ ["="; "!="; "<"; "<="; ">"; ">="; "~"]%string → lex_runes (bytes_of op) = Ok [op_tok op].
Proof using UA US.
  intros Hin. repeat (apply elem_of_cons in Hin as [->|Hin]; [match goal with |- context [bytes_of ?s] => let v := eval vm_compute in (bytes_of s) in change (bytes_of s) with v end;
    rewrite lex_runes_cons; unfold lex_step; rewrite space_ascii by lia; reflexivity|]).
  by apply elem_of_nil in Hin.
Qed.

(** Two pieces with a separator between them. *)
Lemma read_join l ts sep x us : separates sep → lex_runes l = Ok ts → lex_runes (sep :: x) = Ok us → lex_runes (l ++ sep :: x) = Ok (ts ++ us).
Proof. intros Hs Hl Hx. by rewrite (lex_runes_sep sep l ts x Hs Hl), Hx. Qed.

Lemma separates_ascii sep : sep ∈ [32; r_lparen; r_rparen; r_comma; r_rbracket] → separates sep.
Proof using UA US.
  unfold separates, r_lparen, r_rparen, r_comma, r_rbracket. intros Hin.
  repeat (apply elem_of_cons in Hin as [->|Hin]; [rewrite word_ascii, letter_ascii by lia; done|]). by apply elem_of_nil in Hin.
Qed.
End lex.
