(* ===== verification/BuilderFacts.v ===== *)
(** * The condition builder: a form says what its condition says

    What the lexer and the parser guarantee of the texts in a condition, what
    each clause is written as, and that it is read back as the same condition. *)

From S2P Require Import Prelude GoText TextFacts Cond CondSyntax CondSyntaxFacts Builder BuilderText.

(** ** The texts in a condition *)

Lemma scan_string_fact q l a b : scan_string q l = Some (a, b) → l = a ++ q :: b ∧ q ∉ a.
Proof.
  revert a b. induction l as [|r l IH]; cbn; [done|]. intros a b. destruct (Z.eqb_spec r q) as [->|Hne].
  - intros [= <- <-]. split; [done | apply not_elem_of_nil].
  - destruct (scan_string q l) as [[a' b']|]; [|done]. intros [= <- <-]. destruct (IH a' b' eq_refl) as [-> Hq]. split; [done|]. set_solver.
Qed.

Lemma scan_pattern_valid l : ∀ a b, scan_pattern l = Some (a, b) → Forall valid_rune l → Forall valid_rune a ∧ Forall valid_rune b.
Proof.
  induction l as [|r l IH1 IH2] using two_step_ind; [done|]. intros a b. cbn [scan_pattern]. destruct (r =? r_slash).
  { intros [= <- <-] [_ Hl]%Forall_cons. by split. }
  assert (Hkeep : ∀ a b, match scan_pattern l with Some (a, b) => Some (r :: a, b) | None => None end = Some (a, b) →
    Forall valid_rune (r :: l) → Forall valid_rune a ∧ Forall valid_rune b).
  { intros a' b' E [Hr Hl]%Forall_cons. destruct (scan_pattern l) as [[x y]|]; [|done]. injection E as <- <-.
    destruct (IH1 x y eq_refl Hl). split; [by apply Forall_cons | done]. }
  destruct (r =? r_backslash); [|apply Hkeep]. destruct l as [|r' l']; [done|]. destruct (r' =? r_slash); [|apply Hkeep].
  destruct (scan_pattern l') as [[x y]|] eqn:E; [|done]. intros [= <- <-] [Hr [Hr' Hl]%Forall_cons]%Forall_cons.
  destruct (IH2 r' l' eq_refl x y E Hl). split; [by apply Forall_cons | done].
Qed.

Lemma span_fact {A} (p : A → bool) l a b : span p l = (a, b) → l = a ++ b ∧ Forall (λ x, p x = true) a.
Proof.
  revert a b. induction l as [|x l IH]; cbn; intros a b E; [by injection E as <- <-|].
  destruct (p x) eqn:Ex; [|by injection E as <- <-]. destruct (span p l) as [a' b']. injection E as <- <-.
  destruct (IH a' b' eq_refl) as [-> Ha]. split; [done | by apply Forall_cons].
Qed.

Section texts.
Context `{U : Unicode} {UA : UnicodeAscii} {US : UnicodeSpaces} `{R : Regexp} (scope : condScope).

Definition textual (v : string) : Prop := ∃ rs, Forall valid_rune rs ∧ v = encode rs.
Definition quotable (v : string) : Prop := ∃ rs, Forall valid_rune rs ∧ v = encode rs ∧ (r_quote ∉ rs ∨ r_dquote ∉ rs).
Definition wordy (v : string) : Prop :=
  ∃ rs, rs ≠ [] ∧ Forall valid_rune rs ∧ Forall (λ r, isWordRune r = true) rs ∧ v = encode rs.

Definition token_ok (t : condToken) : Prop :=
  match tk_kind t with
  | wordToken => wordy (tk_text t)
  | stringToken => quotable (tk_text t)
  | regexToken => textual (tk_text t)
  | opToken | punctToken => True
  end.

Lemma wordy_quotable v : wordy v → quotable v.
Proof using UA US.
  intros (rs & _ & Hv & Hw & ->). exists rs. split_and!; [done..|]. left. intros Hin. rewrite Forall_forall in Hw.
  destruct (word_rune r_quote (Hw _ Hin)) as (_ & _ & _ & _ & Hq & _). done.
Qed.

Lemma quotable_textual v : quotable v → textual v.
Proof using Type. intros (rs & Hv & -> & _). by exists rs. Qed.

Lemma lex_step_ok r l t rest : lex_step r l = Ok (t, rest) → Forall valid_rune (r :: l) →
  Forall valid_rune rest ∧ ∀ tok, t = Some tok → token_ok tok.
Proof using UA US.
  unfold lex_step. intros E [Hr Hl]%Forall_cons.
  destruct (is_space r); [by injection E as <- <-|]. destruct (is_punct r); [by injection E as <- <-; split; [|intros ? [= <-]]|].
  destruct (_ || (r =? r_tilde)); [by injection E as <- <-; split; [|intros ? [= <-]]|].
  destruct (_ || (r =? r_gt)).
  { destruct l as [|r' l']; [|apply Forall_cons in Hl as [Hr' Hl]; case_if_in E];
      repeat case_if_in E; try done; injection E as <- <-; (split; [|by intros ? [= <-]]); try done; by apply Forall_cons. }
  destruct ((r =? r_quote) || (r =? r_dquote)) eqn:Eq.
  { destruct (scan_string r l) as [[body b]|] eqn:Es; [|done]. injection E as <- <-. apply scan_string_fact in Es as [-> Hin].
    apply Forall_app in Hl as [Hb Hl]. apply Forall_cons in Hl as [_ Hl]. split; [done|]. intros ? [= <-]. exists body. split_and!; [done..|].
    apply orb_true_iff in Eq as [->%Z.eqb_eq| ->%Z.eqb_eq]; [by left | by right]. }
  destruct (r =? r_slash).
  { destruct (scan_pattern l) as [[body b]|] eqn:Es; [|done]. destruct (scan_pattern_valid _ _ _ Es Hl) as [Hb Hl'].
    destruct (span is_letter b) as [flags b'] eqn:Ef. apply span_fact in Ef as [-> _]. apply Forall_app in Hl' as [_ Hb'].
    case_if_in E; [injection E as <- <-; split; [done|]; intros ? [= <-]; by exists body|]. case_if_in E; [|done].
    injection E as <- <-. split; [done|]. intros ? [= <-]. exists ([40; 63; 105; 41] ++ body). split; [|by rewrite encode_app].
    apply Forall_app. split; [|done]. rewrite !Forall_cons, Forall_nil. unfold valid_rune. lia. }
  destruct (isWordRune r) eqn:Ew; [|done]. cbn [span] in E. rewrite Ew in E. destruct (span isWordRune l) as [w b] eqn:Es. injection E as <- <-.
  apply span_fact in Es as [-> Hw]. apply Forall_app in Hl as [Hvw Hvb]. split; [done|]. intros ? [= <-]. exists (r :: w).
  split_and!; [done | by apply Forall_cons | by apply Forall_cons | done].
Qed.

Lemma lex_runes_ok l : ∀ ts, lex_runes l = Ok ts → Forall valid_rune l → Forall token_ok ts.
Proof using UA US.
  remember (length l) as n eqn:Hn. revert l Hn. induction n as [n IH] using (well_founded_induction lt_wf). intros l -> ts E Hv.
  destruct l as [|r l]; [injection E as <-; constructor|]. rewrite lex_runes_cons in E.
  destruct (lex_step r l) as [[t rest]|e] eqn:Es; [|done]. destruct (lex_step_ok _ _ _ _ Es Hv) as [Hr Ht].
  destruct (lex_runes rest) as [us|e] eqn:Er; [|done]. injection E as <-. apply lex_step_length in Es.
  pose proof (IH (length rest) ltac:(cbn; lia) rest eq_refl us Er Hr) as Hus. destruct t; [apply Forall_cons; auto | done].
Qed.

(** *** What the parser makes of them *)

Definition good (ts : list condToken) : Prop := Forall token_ok ts.

Definition node_text (n : condNode) : Prop :=
  match n with
  | tagNode v | checkNode v _ => quotable v
  | diagNode d _ => wordy d ∧ mem_string (ToLower d) ["tag"; "passes"; "fails"]%string = false ∧ EqualFold d "not" = false
  | stringNode _ op vs re => Forall quotable vs ∧ (∀ p, re = Some p → textual p ∧ slen p <= maxPatternLength) ∧
      (op ∈ ["="; "!="]%string → ∃ v, vs = [v])
  | _ => True
  end.

Lemma good_tail ts : good ts → good (tail ts).
Proof using Type. destruct ts; [done|]. by intros [_ Hts]%Forall_cons. Qed.

Lemma good_peek ts : good ts → token_ok (peek ts).
Proof using Type. destruct ts; [done|]. by intros [Ht _]%Forall_cons. Qed.

Lemma expect_good x ts ts' : expect x ts = Ok ts' → good ts → good ts'.
Proof using Type. unfold expect. cbn [next]. case_if; [done|]. intros [= <-]. apply good_tail. Qed.

Lemma value_quotable t : negb (is_kind wordToken t) && negb (is_kind stringToken t) = false → token_ok t → quotable (tk_text t).
Proof using UA US. unfold token_ok, is_kind. destruct (tk_kind t); try done. intros _. apply wordy_quotable. Qed.

Lemma p_value_good ts v ts' : p_value ts = Ok (v, ts') → good ts → quotable v ∧ good ts'.
Proof using UA US.
  unfold p_value. cbn [next]. case_if; [done|]. intros [= <- <-] Hg. split; [|by apply good_tail].
  by apply value_quotable, good_peek.
Qed.

Lemma p_call_good ts v ts' : p_call ts = Ok (v, ts') → good ts → quotable v ∧ good ts'.
Proof using UA US.
  unfold p_call. intros (ts1 & H1 & E)%result_bind_Ok Hg. cbn [next] in E. case_if_in E; [done|].
  apply result_bind_Ok in E as (ts2 & H2 & E). injection E as <- <-. pose proof (expect_good _ _ _ H1 Hg) as Hg1.
  split; [by apply value_quotable, good_peek|]. eapply expect_good; [exact H2 | by apply good_tail].
Qed.

Lemma p_values_good fuel : ∀ ts vs ts', p_values fuel ts = Ok (vs, ts') → good ts → Forall quotable vs ∧ good ts'.
Proof using UA US.
  induction fuel as [|fuel IH]; [done|]. intros ts vs ts'. cbn [p_values]. intros ([v ts1] & H1 & E)%result_bind_Ok Hg.
  destruct (p_value_good _ _ _ H1 Hg) as [Hv Hg1]. case_if_in E.
  - injection E as <- <-. split; [by apply Forall_singleton | by apply good_tail].
  - apply result_bind_Ok in E as (ts2 & H2 & ([ws ts3] & H3 & E)%result_bind_Ok). injection E as <- <-.
    destruct (IH _ _ _ H3) as [Hw Hg3]; [by eapply expect_good|]. split; [by apply Forall_cons | done].
Qed.

Lemma p_text_good f op ts n ts' : p_text f op ts = Ok (n, ts') → good ts → node_text n ∧ good ts'.
Proof using UA US.
  unfold p_text. cbn [next]. intros E Hg. case_if_in E.
  { case_if_in E; [done|]. case_if_in E; [done|]. case_if_in E; [done|]. injection E as <- <-. split; [|by apply good_tail].
    apply eqs_true in E0. subst op. split_and!; [constructor| |set_solver]. intros p [= <-]. split; [|bools; lia]. apply good_peek in Hg. unfold token_ok, is_kind in *.
    destruct (tk_kind (peek ts)); try done; by apply quotable_textual. }
  case_if_in E.
  { apply result_bind_Ok in E as (ts1 & H1 & ([vs ts2] & H2 & E)%result_bind_Ok). injection E as <- <-.
    destruct (p_values_good _ _ _ _ H2) as [Hv Hg']; [by eapply expect_good|]. apply eqs_true in E1. subst op. split; [split_and!; [done|done|set_solver] | done]. }
  case_if_in E; [|done]. apply result_bind_Ok in E as ([v ts1] & H1 & E). injection E as <- <-.
  destruct (p_value_good _ _ _ H1 Hg) as [Hv Hg']. split; [split_and!; [by apply Forall_singleton | done | by exists v] | done].
Qed.

Lemma p_number_good f op ts n ts' : p_number f op ts = Ok (n, ts') → good ts → node_text n ∧ good ts'.
Proof using Type.
  unfold p_number. cbn [next]. intros E Hg. case_if_in E; [done|]. destruct (Atoi _); [|done]. case_if_in E; [|done].
  injection E as <- <-. by split; [|apply good_tail].
Qed.

Lemma p_predicate_good ts n ts' : keyword "not" ts = false → p_predicate scope ts = Ok (n, ts') → good ts → node_text n ∧ good ts'.
Proof using UA US.
  unfold p_predicate. cbn [next]. intros Hnot E Hg. case_if_in E; [done|]. apply negb_false_iff in E0.
  pose proof (good_peek _ Hg) as Hp. pose proof (good_tail _ Hg) as Ht. case_if_in E.
  { apply result_bind_Ok in E as ([name ts1] & H1 & E). destruct (p_call_good _ _ _ H1 Ht) as [Hq Hg1].
    repeat case_if_in E; try done; injection E as <- <-; by split. }
  case_if_in E.
  { assert (Hw : wordy (tk_text (peek ts))) by (unfold token_ok, is_kind in *; by destruct (tk_kind (peek ts))).
    assert (Hf : EqualFold (tk_text (peek ts)) "not" = false) by (unfold keyword in Hnot; by rewrite E0 in Hnot).
    assert (Hm : mem_string (ToLower (tk_text (peek ts))) ["tag"; "passes"; "fails"]%string = false).
    { rewrite !mem_string_cons, orb_false_r, orb_assoc. exact E1. }
    repeat case_if_in E; try done; injection E as <- <-; (split; [done | by apply good_tail, good_tail]). }
  destruct (condFields !! _) as [[k sc]|]; [|done]. case_if_in E; [done|]. case_if_in E; [injection E as <- <-; by split|].
  case_if_in E; [done|]. case_if_in E; [eapply p_number_good | eapply p_text_good]; try exact E; by apply good_tail.
Qed.

(** Every node the parser builds has texts of this kind. *)
Definition tree_text (n : condNode) : Prop := Forall node_text (walk_node n).

Lemma tree_text_items (mk : list condNode → condNode) first items :
  (mk = andNode ∨ mk = orNode) → tree_text first → Forall tree_text items →
  tree_text (match items with [] => first | _ => mk (first :: items) end).
Proof using Type.
  intros Hmk Hf Hi. destruct items as [|i items]; [done|].
  assert (Hw : Forall node_text (concat (List.map walk_node (first :: i :: items)))).
  { apply Forall_concat, List.Forall_map. by constructor. }
  destruct Hmk as [->| ->]; by constructor.
Qed.

Lemma p_predicate_leaf ts n ts' : p_predicate scope ts = Ok (n, ts') → walk_node n = [n].
Proof using Type.
  unfold p_predicate. cbn [next]. intros E. case_if_in E; [done|]. case_if_in E.
  { apply result_bind_Ok in E as ([name ts1] & _ & E). repeat case_if_in E; try done; by injection E as <- <-. }
  case_if_in E; [repeat case_if_in E; try done; by injection E as <- <-|].
  destruct (condFields !! _) as [[k sc]|]; [|done]. case_if_in E; [done|]. case_if_in E; [by injection E as <- <-|].
  case_if_in E; [done|]. case_if_in E.
  - unfold p_number in E. cbn [next] in E. case_if_in E; [done|]. destruct (Atoi _); [|done]. case_if_in E; [|done]. by injection E as <- <-.
  - unfold p_text in E. cbn [next] in E. case_if_in E; [repeat case_if_in E; try done; by injection E as <- <-|].
    case_if_in E.
    { apply result_bind_Ok in E as (ts1 & _ & ([vs ts2] & _ & E)%result_bind_Ok). by injection E as <- <-. }
    case_if_in E; [|done]. apply result_bind_Ok in E as ([v ts1] & _ & E). by injection E as <- <-.
Qed.

Lemma parser_good fuel :
  (∀ d ts n ts', p_or scope fuel d ts = Ok (n, ts') → good ts → tree_text n ∧ good ts') ∧
  (∀ d ts ns ts', p_ors scope fuel d ts = Ok (ns, ts') → good ts → Forall tree_text ns ∧ good ts') ∧
  (∀ d ts n ts', p_and scope fuel d ts = Ok (n, ts') → good ts → tree_text n ∧ good ts') ∧
  (∀ d ts ns ts', p_ands scope fuel d ts = Ok (ns, ts') → good ts → Forall tree_text ns ∧ good ts') ∧
  (∀ d ts n ts', p_unary scope fuel d ts = Ok (n, ts') → good ts → tree_text n ∧ good ts').
Proof using UA US.
  induction fuel as [|fuel (IHor & IHors & IHand & IHands & IHun)]; [done|].
  split_and!; intros d ts n ts'; rewrite ?p_or_S, ?p_ors_S, ?p_and_S, ?p_ands_S, ?p_unary_S; intros E Hg.
  - case_if_in E; [done|]. apply result_bind_Ok in E as ([f ts1] & H1 & ([its ts2] & H2 & E)%result_bind_Ok). injection E as <- <-.
    destruct (IHand _ _ _ _ H1 Hg) as [Hf Hg1]. destruct (IHors _ _ _ _ H2 Hg1) as [Hi Hg2]. split; [apply tree_text_items; auto | done].
  - case_if_in E; [|injection E as <- <-; split; [constructor | done]].
    apply result_bind_Ok in E as ([f ts1] & H1 & ([its ts2] & H2 & E)%result_bind_Ok). injection E as <- <-.
    destruct (IHand _ _ _ _ H1) as [Hf Hg1]; [by apply good_tail|]. destruct (IHors _ _ _ _ H2 Hg1) as [Hi Hg2]. split; [by apply Forall_cons | done].
  - apply result_bind_Ok in E as ([f ts1] & H1 & ([its ts2] & H2 & E)%result_bind_Ok). injection E as <- <-.
    destruct (IHun _ _ _ _ H1 Hg) as [Hf Hg1]. destruct (IHands _ _ _ _ H2 Hg1) as [Hi Hg2]. split; [apply tree_text_items; auto | done].
  - case_if_in E; [|injection E as <- <-; split; [constructor | done]].
    apply result_bind_Ok in E as ([f ts1] & H1 & ([its ts2] & H2 & E)%result_bind_Ok). injection E as <- <-.
    destruct (IHun _ _ _ _ H1) as [Hf Hg1]; [by apply good_tail|]. destruct (IHands _ _ _ _ H2 Hg1) as [Hi Hg2]. split; [by apply Forall_cons | done].
  - case_if_in E.
    { apply result_bind_Ok in E as ([f ts1] & H1 & E). injection E as <- <-. destruct (IHun _ _ _ _ H1) as [Hf Hg1]; [by apply good_tail|].
      split; [by constructor | done]. }
    case_if_in E.
    { apply result_bind_Ok in E as ([f ts1] & H1 & (ts2 & H2 & E)%result_bind_Ok). injection E as <- <-.
      destruct (IHor _ _ _ _ H1) as [Hf Hg1]; [by apply good_tail|]. split; [done | by eapply expect_good]. }
    destruct (p_predicate_good ts n ts' E0 E Hg) as [Hn Hg']. split; [|done].
    unfold tree_text. rewrite (p_predicate_leaf ts n ts' E). by apply Forall_singleton.
Qed.

Lemma parseCond_text text c : parseCond scope text = Ok (Some c) → tree_text (cd_root c).
Proof using UA US.
  intros (ts & Hl & Hp%parse_tokens_Ok)%parseCond_Some. unfold lexCond in Hl.
  destruct (parser_good (parse_fuel ts)) as (Hor & _). eapply Hor; [exact Hp|]. eapply lex_runes_ok; [exact Hl | apply decode_valid].
Qed.
End texts.
