(* ===== verification/BuilderForms.v ===== *)
(** * The condition builder: a form says what its condition says

    Each clause of a form is written as a text that the lexer and the parser
    read as the clause's node again; joined, as the whole condition. *)

From S2P Require Import Prelude GoText TextFacts Cond CondSyntax CondSyntaxFacts Builder BuilderText BuilderFacts.

Section written.
Context `{U : Unicode} {UA : UnicodeAscii} {US : UnicodeSpaces} `{R : Regexp} (scope : condScope).

(** ** Texts and their tokens *)

Definition solid (rs : list rune) : Prop := rs ≠ [] ∧ ∀ r, head rs = Some r ∨ last rs = Some r → is_space r = false.

(** A text whose runes are read as the tokens [ts], with no space at its ends. *)
Definition written (s : string) (ts : list condToken) : Prop :=
  ∃ rs, Forall valid_rune rs ∧ s = encode rs ∧ lex_runes rs = Ok ts ∧ solid rs.

Lemma valid_ascii r : 0 <= r < 128 → valid_rune r.
Proof using Type. intros Hr. split; lia. Qed.

Lemma encode_ascii s : all_ascii s = true → s = encode (bytes_of s) ∧ Forall valid_rune (bytes_of s).
Proof using Type.
  intros Hs. split; [by rewrite encode_bytes|]. apply Forall_forall. intros b Hb. by apply valid_ascii, (bytes_ascii s).
Qed.

Lemma solid_app a b : solid a → solid b → ∀ m, solid (a ++ m ++ b).
Proof using Type.
  intros [Ha Hae] [Hb Hbe] m. split; [by intros [-> _]%app_nil|]. intros r [Hr|Hr].
  - apply Hae. left. by destruct a.
  - apply Hbe. right. destruct b as [|x b]; [done|]. by rewrite app_assoc, last_app_cons in Hr.
Qed.

Lemma solid_word rs : rs ≠ [] → Forall (λ r, isWordRune r = true) rs → solid rs.
Proof using UA US.
  intros Hne Hw. split; [done|]. intros r Hr. apply word_not_space. rewrite Forall_forall in Hw. apply Hw.
  destruct Hr as [Hr|Hr]; [by apply head_Some_elem_of | by apply last_Some_elem_of].
Qed.

Lemma written_word v : wordy v → written v [word v].
Proof using UA US. intros (rs & Hne & Hv & Hw & ->). exists rs. split_and!; [done..| by apply read_word | by apply solid_word]. Qed.

Lemma written_space s ts t us : written s ts → written t us → written (s +:+ " " +:+ t) (ts ++ us).
Proof using UA US.
  intros (rs & Hv & -> & Hl & Hs) (qs & Hw & -> & Hm & Hq). exists (rs ++ [32] ++ qs). split_and!.
  - rewrite !Forall_app, Forall_singleton. split_and!; [done | by apply valid_ascii | done].
  - by rewrite !encode_app.
  - apply read_join; [apply separates_ascii; set_solver | done | by apply read_space].
  - by apply solid_app.
Qed.

Lemma solid_ascii r s : 0 <= r < 128 → ascii_space r = false → solid s → solid (r :: s).
Proof using UA US.
  intros Hr Hsp [Hne Hs]. split; [done|]. intros x [[= <-]|Hx]; [by rewrite space_ascii|]. apply Hs. right. destruct s; [done|]. by rewrite last_cons_cons in Hx.
Qed.

Lemma solid_between (q : rune) rs : 0 <= q < 128 → ascii_space q = false → solid (q :: rs ++ [q]).
Proof using UA US.
  intros Hq Hs. split; [done|]. intros r [[= <-]|Hr]; [by rewrite space_ascii|].
  change (q :: rs ++ [q]) with ((q :: rs) ++ [q]) in Hr. rewrite last_snoc in Hr. injection Hr as <-. by rewrite space_ascii.
Qed.

(** A value is written so that it is read as one token with its text. *)
Lemma written_quote v : quotable v → ∃ q t, quoteValue v = Ok q ∧ written q [t] ∧ tk_text t = v ∧
  negb (is_kind wordToken t) && negb (is_kind stringToken t) = false.
Proof using UA US.
  intros (rs & Hv & -> & Hq). unfold quoteValue. rewrite TextFacts.decode_encode by done.
  destruct (negb (empty (encode rs)) && _ && forallb isWordRune rs) eqn:E.
  - apply andb_true_iff in E as [[Hne%negb_true_iff%bool_decide_eq_false _]%andb_true_iff Hw].
    exists (encode rs), (word (encode rs)). split_and!; try done. apply written_word. exists rs. split_and!; try done; [by intros ->|].
    apply Forall_forall. intros r Hr. rewrite forallb_forall in Hw. apply Hw. by apply list_elem_of_In.
  - clear E. assert (Hquote : ∀ q, q = r_quote ∨ q = r_dquote → q ∉ rs →
      written (encode [q] +:+ encode rs +:+ encode [q]) [string_tok (encode rs)]).
    { intros q Hq' Hin. exists (q :: rs ++ [q]). split_and!.
      - apply Forall_cons. split; [|apply Forall_app; split; [done|apply Forall_singleton]]; apply valid_ascii; unfold r_quote, r_dquote in Hq'; lia.
      - change (q :: rs ++ [q]) with ([q] ++ rs ++ [q]). by rewrite !encode_app.
      - by apply read_quoted.
      - apply solid_between; [unfold r_quote, r_dquote in Hq'; lia | by destruct Hq' as [-> | ->]]. }
    change "'"%string with (str1 "'"%char). rewrite !Contains_byte, !has_byte_encode by done. cbn [byteZ].
    change (byteZ "'") with r_quote. change (byteZ (Zbyte 34)) with r_dquote.
    destruct (decide (r_quote ∈ rs)) as [Hin|Hin].
    + destruct Hq as [Hq|Hq]; [done|]. rewrite bool_decide_eq_true_2, bool_decide_eq_false_2 by done. cbn [negb].
      eexists _, _. split; [done|]. split; [apply (Hquote r_dquote); auto | done].
    + rewrite bool_decide_eq_false_2 by done. cbn [negb]. eexists _, _. split; [done|]. split; [apply (Hquote r_quote); auto | done].
Qed.

(** [name(value)]. *)
Lemma written_call f q t : wordy f → written q [t] →
  written (f +:+ "(" +:+ q +:+ ")") [word f; punct "("; t; punct ")"].
Proof using UA US.
  intros (fs & Hne & Hv & Hw & ->) (qs & Hvq & -> & Hl & Hs). exists (fs ++ r_lparen :: qs ++ [r_rparen]). split_and!.
  - apply Forall_app. split; [done|]. apply Forall_cons. split; [by apply valid_ascii|]. apply Forall_app. split; [done|].
    apply Forall_singleton. by apply valid_ascii.
  - change (r_lparen :: qs ++ [r_rparen]) with ([r_lparen] ++ qs ++ [r_rparen]). by rewrite !encode_app.
  - apply (read_join fs [word (encode fs)]); [apply separates_ascii; set_solver | by apply read_word|].
    apply (read_punct r_lparen _ [t; punct ")"]); [done|]. apply (read_join qs [t]); [apply separates_ascii; set_solver | done|].
    by apply (read_punct r_rparen [] []).
  - change (fs ++ r_lparen :: qs ++ [r_rparen]) with (fs ++ (r_lparen :: qs) ++ [r_rparen]). apply solid_app; [by apply solid_word|].
    split; [done|]. by intros r [[= <-]|[= <-]]; rewrite space_ascii.
Qed.

(** The tokens of a list up to its closing bracket. *)
Fixpoint list_tokens (ts : list condToken) : list condToken :=
  match ts with
  | [] => [punct "]"]
  | [t] => [t; punct "]"]
  | t :: ts => t :: punct "," :: list_tokens ts
  end.

Lemma written_list qs ts : qs ≠ [] → Forall2 (λ q t, written q [t]) qs ts →
  ∃ rs, Forall valid_rune rs ∧ Join qs ", " +:+ "]" = encode rs ∧ lex_runes rs = Ok (list_tokens ts) ∧ last rs = Some r_rbracket.
Proof using UA US.
  intros Hne H. induction H as [|q t qs ts (rs & Hv & -> & Hl & Hs) Hall IH]; [done|]. destruct Hall as [|q' t' qs ts Hq Hall].
  - exists (rs ++ [r_rbracket]). split_and!.
    + apply Forall_app. split; [done|]. apply Forall_singleton. by apply valid_ascii.
    + by rewrite encode_app.
    + apply (read_join rs [t]); [apply separates_ascii; set_solver | done | by apply (read_punct r_rbracket [] [])].
    + by rewrite last_snoc.
  - destruct IH as (xs & Hx & E & Hlx & Hlast); [done|]. exists (rs ++ r_comma :: 32 :: xs). split_and!.
    + apply Forall_app. split; [done|]. apply Forall_cons. split; [by apply valid_ascii|]. apply Forall_cons. split; [by apply valid_ascii | done].
    + change (Join (encode rs :: q' :: qs) ", ") with (encode rs +:+ ", " +:+ Join (q' :: qs) ", ").
      change (r_comma :: 32 :: xs) with ([r_comma; 32] ++ xs). rewrite !encode_app, !append_assoc. by rewrite E.
    + apply (read_join rs [t]); [apply separates_ascii; set_solver | done|]. apply (read_punct r_comma _ (list_tokens (t' :: ts))); [done|].
      by apply read_space.
    + rewrite last_app_cons. destruct xs as [|x xs]; [done|]. by rewrite !last_cons_cons.
Qed.

(** ** Plain words: lower-case ASCII *)

Definition ascii_word (r : rune) : bool :=
  ascii_upper r || ascii_lower r || ascii_digit r || (r =? 95) || (r =? 45) || (r =? 46) || (r =? 58).

Definition plain_word (s : string) : bool :=
  negb (empty s) && all_ascii s && forallb (λ b, ascii_word b && negb (ascii_upper b)) (bytes_of s).

Lemma plain_wordy s : plain_word s = true → wordy s ∧ ToLower s = s.
Proof using UA US.
  unfold plain_word. intros [[Hne%negb_true_iff%bool_decide_eq_false Ha]%andb_true_iff Hb]%andb_true_iff.
  assert (Hb' : ∀ b, b ∈ bytes_of s → ascii_word b = true ∧ ascii_upper b = false).
  { intros b Hin. rewrite forallb_forall in Hb. apply list_elem_of_In in Hin as Hin'. apply Hb in Hin'.
    by apply andb_true_iff in Hin' as [? ?%negb_true_iff]. }
  split.
  - destruct (encode_ascii s Ha) as [E Hv]. exists (bytes_of s). split_and!; try done; [by destruct s|].
    apply Forall_forall. intros b Hin. rewrite word_ascii by by apply (bytes_ascii s). by apply Hb'.
  - apply ToLower_plain; [done|]. intros b Hin. by apply Hb'.
Qed.

Lemma fold_plain s : plain_word s = true → fold_rune <$> decode s = bytes_of s.
Proof using UA US.
  unfold plain_word. intros [[_ Ha]%andb_true_iff Hb]%andb_true_iff. rewrite decode_ascii by done.
  rewrite <- (list_fmap_id (bytes_of s)) at 2. apply list_fmap_ext. intros i b Hi. apply list_elem_of_lookup_2 in Hi.
  rewrite fold_ascii by by apply (bytes_ascii s). rewrite forallb_forall in Hb. apply list_elem_of_In in Hi. apply Hb in Hi.
  apply andb_true_iff in Hi as [_ ->%negb_true_iff]. done.
Qed.

Lemma bytes_of_inj s t : bytes_of s = bytes_of t → s = t.
Proof using Type.
  revert t. induction s as [|c s IH]; intros [|d t]; cbn; try done. intros [= Hc Hs].
  rewrite <- (Zbyte_byteZ c), Hc, Zbyte_byteZ. f_equal. by apply IH.
Qed.

Lemma fold_words s t : plain_word s = true → plain_word t = true → EqualFold s t = eqs s t.
Proof using UA US.
  intros Hs Ht. unfold EqualFold. rewrite !fold_plain by done. apply bool_decide_ext. split; [apply bytes_of_inj | by intros ->].
Qed.

Lemma Itoa_wordy v : wordy (Itoa v).
Proof using UA US.
  destruct (Itoa_bytes v) as [Hne Hb]. rewrite Forall_forall in Hb.
  assert (Hr : ∀ b, b ∈ bytes_of (Itoa v) → 0 <= b < 128).
  { intros b Hin. destruct (Hb b Hin) as [Hd|Hd]; [|lia]. unfold ascii_digit, in_range in Hd. apply andb_true_iff in Hd as [?%Z.leb_le ?%Z.leb_le]. lia. }
  assert (Ha : all_ascii (Itoa v) = true).
  { revert Hr. generalize (Itoa v). intros s Hr. induction s as [|c s IH]; [done|]. cbn in *. apply andb_true_iff. split.
    - apply Z.ltb_lt. apply (Hr (byteZ c)). by left.
    - apply IH. intros b Hin. apply Hr. by right. }
  destruct (encode_ascii _ Ha) as [E Hv]. exists (bytes_of (Itoa v)). split_and!; try done; [by destruct (Itoa v)|].
  apply Forall_forall. intros b Hin. rewrite word_ascii by by apply Hr. destruct (Hb b Hin) as [->| ->]; [|done].
  by rewrite orb_true_r.
Qed.

Lemma Itoa_no_suffix v : TrimSuffix (Itoa v) "ms" = Itoa v.
Proof using Type.
  apply (TrimSuffix_none _ _ "s"); [done|]. apply not_true_iff_false. rewrite has_byte_bytes. intros Hin.
  destruct (Itoa_bytes v) as [_ Hb]. rewrite Forall_forall in Hb. by destruct (Hb _ Hin).
Qed.

(** The fields of a condition are plain words; none is a keyword of the
    grammar. *)
Lemma field_plain f k sc : condFields !! f = Some (k, sc) →
  plain_word f = true ∧ mem_string f ["tag"; "passes"; "fails"]%string = false ∧ eqs f "not" = false ∧ eqs f "diag" = false.
Proof using Type.
  intros Hf. assert (Hin : f ∈ (map_to_list condFields).*1) by (apply list_elem_of_fmap; exists (f, (k, sc)); split; [done | by apply elem_of_map_to_list]).
  assert (Hall : forallb (λ f, plain_word f && negb (mem_string f ["tag"; "passes"; "fails"]%string) && negb (eqs f "not") && negb (eqs f "diag"))
    (map_to_list condFields).*1 = true) by (vm_compute; reflexivity).
  rewrite forallb_forall in Hall. apply list_elem_of_In, Hall in Hin. rewrite !andb_true_iff, !negb_true_iff in Hin. tauto.
Qed.
End written.

(** ** Clauses *)

Section clauses.
Context `{U : Unicode} {UA : UnicodeAscii} {US : UnicodeSpaces} `{R : Regexp} (scope : condScope).

(** No diagnostic is named as a field: it would hide it. *)
Hypothesis no_shadow : ∀ f, is_Some (condFields !! f) → scope_diag scope f = false.

(** A text read as a predicate, whatever follows it. *)
Definition reads_as (s : string) (n : condNode) : Prop :=
  ∃ ts, written s ts ∧ ts ≠ [] ∧ keyword "not" ts = false ∧ is_punct_text "(" (peek ts) = false ∧
    ∀ rest, p_predicate scope (ts ++ rest) = Ok (n, rest).

Lemma reads_word f ts (s : string) n : keyword "not" [word f] = false → written s (word f :: ts) →
  (∀ rest, p_predicate scope (word f :: ts ++ rest) = Ok (n, rest)) → reads_as s n.
Proof using Type. intros Hk Hw Hp. exists (word f :: ts). split_and!; try done. Qed.

Lemma plain_not f : plain_word f = true → eqs f "not" = false → keyword "not" [word f] = false.
Proof using UA US. intros Hf Hn. unfold keyword. cbn. by rewrite fold_words. Qed.

(** The first steps of [predicate] on a field. *)
Lemma predicate_field f k sc ts : condFields !! f = Some (k, sc) → in_scope scope sc →
  p_predicate scope (word f :: ts) =
    if bool_decide (k = boolField) then Ok (boolNode f, ts)
    else
      let '(op, ts) := next ts in
      if negb (is_kind opToken op) && negb (is_kind wordToken op && EqualFold (tk_text op) "in")
      then Err (NeedsOperator f (tk_text op))
      else let operator := ToLower (tk_text op) in
           if bool_decide (k = numberField) then p_number f operator ts else p_text f operator ts.
Proof using UA US no_shadow.
  intros Hf Hsc. destruct (field_plain f k sc Hf) as (Hp & Hm & _ & _). destruct (plain_wordy f Hp) as [_ Hl].
  unfold p_predicate. tok. cbn [word tk_kind tk_text is_kind negb]. rewrite Hl.
  rewrite !mem_string_cons in Hm. apply orb_false_iff in Hm as [-> Hm]. apply orb_false_iff in Hm as [-> Hm].
  apply orb_false_iff in Hm as [-> _]. cbn [orb]. rewrite no_shadow by by eexists. rewrite Hf.
  assert (bool_decide (is_Some (cs_diags scope)) && negb (bool_decide (sc = netField)) = false) as ->; [|done].
  apply andb_false_iff. rewrite negb_false_iff, bool_decide_eq_true, bool_decide_eq_false.
  destruct (decide (is_Some (cs_diags scope))) as [Hd|]; [right; by apply Hsc | by left].
Qed.

Lemma reads_bool f : node_wf scope (boolNode f) → reads_as f (boolNode f).
Proof using UA US no_shadow.
  intros (sc & Hf & Hsc). destruct (field_plain f _ _ Hf) as (Hp & _ & Hn & _).
  apply (reads_word f []); [by apply plain_not | by apply written_word, plain_wordy|]. intros rest. cbn [app].
  by rewrite (predicate_field f boolField sc) by done.
Qed.

Lemma expect_punct x l : expect x (punct x :: l) = Ok l.
Proof using Type. unfold expect. tok. cbn [punct tk_text tk_kind is_kind]. by rewrite (proj2 (eqs_true x x) eq_refl). Qed.

Lemma call_value t rest : negb (is_kind wordToken t) && negb (is_kind stringToken t) = false →
  p_call (punct "(" :: t :: punct ")" :: rest) = Ok (tk_text t, rest).
Proof using Type. intros Ht. unfold p_call. rewrite expect_punct. bindsimpl. tok. rewrite Ht, expect_punct. done. Qed.

Lemma mem_call f : mem_string f ["tag"; "passes"; "fails"]%string = true →
  plain_word f = true ∧ eqs f "not" = false ∧ eqs f "tag" || eqs f "passes" || eqs f "fails" = true.
Proof using Type.
  intros Hf%bool_decide_eq_true. repeat (apply elem_of_cons in Hf as [->|Hf]; [vm_compute; done|]). by apply elem_of_nil in Hf.
Qed.

(** [tag(v)], [passes(v)] and [fails(v)]. *)
Lemma reads_call f v n : mem_string f ["tag"; "passes"; "fails"]%string = true → quotable v →
  (∀ rest : list condToken, (if eqs f "tag" then
              if bool_decide (cs_tags scope = None) || bool_decide (is_Some (cs_diags scope)) then Err (TagNotAllowed v)
              else if negb (scope_tag scope v) then Err (UnknownTag v) else Ok (tagNode v, rest)
            else if negb (bool_decide (v ∈ cs_checks scope)) || bool_decide (is_Some (cs_diags scope)) then Err (UnknownCheck v)
            else Ok (checkNode v (eqs f "passes"), rest)) = Ok (E := condError) (n, rest)) →
  ∃ q, quoteValue v = Ok q ∧ reads_as (f +:+ "(" +:+ q +:+ ")") n.
Proof using UA US.
  intros Hf Hv Hn. destruct (mem_call f Hf) as (Hp & Hnot & Hm). destruct (plain_wordy f Hp) as [Hw Hl].
  destruct (written_quote v Hv) as (q & t & Hq & Hwq & Ht & Hk). exists q. split; [done|].
  apply (reads_word f [punct "("; t; punct ")"]); [by apply plain_not | by apply written_call|].
  intros rest. unfold p_predicate. tok. cbn [word tk_kind tk_text is_kind negb]. rewrite Hl, Hm. cbn [app].
  rewrite call_value by done. bindsimpl. rewrite Ht. apply Hn.
Qed.

Lemma reads_tag v : node_wf scope (tagNode v) → quotable v → ∃ q, quoteValue v = Ok q ∧ reads_as ("tag(" +:+ q +:+ ")") (tagNode v).
Proof using UA US.
  intros [Htag Hd] Hv. destruct (reads_call "tag" v (tagNode v)) as (q & Hq & Hr); [done | done | |by exists q].
  intros rest. change (eqs "tag" "tag") with true. cbn iota. rewrite Hd, Htag.
  rewrite bool_decide_eq_false_2 by (unfold scope_tag in Htag; by destruct (cs_tags scope)). by rewrite bool_decide_eq_false_2 by by intros [? [=]].
Qed.

Lemma reads_check v pass : node_wf scope (checkNode v pass) → quotable v →
  ∃ q, quoteValue v = Ok q ∧ reads_as ((if pass then "passes" else "fails") +:+ "(" +:+ q +:+ ")") (checkNode v pass).
Proof using UA US.
  intros [Hc Hd] Hv. apply (reads_call (if pass then "passes" else "fails") v (checkNode v pass)); [by destruct pass | done|].
  intros rest. assert (eqs (if pass then "passes" else "fails") "tag" = false) as -> by by destruct pass.
  rewrite Hd, bool_decide_eq_true_2, bool_decide_eq_false_2 by (done || by intros [? [=]]). cbn. by destruct pass.
Qed.

(** [name ok] and [name fail]. *)
Lemma reads_diag d (ok : bool) : node_wf scope (diagNode d ok) → node_text (diagNode d ok) →
  reads_as (d +:+ " " +:+ (if ok then "ok" else "fail")) (diagNode d ok).
Proof using UA US.
  intros Hd (Hw & Hm & Hn). set (state := (if ok then "ok" else "fail")%string).
  assert (Hs : plain_word state = true) by by destruct ok.
  apply (reads_word d [word state]); [unfold keyword; cbn; exact Hn|
    apply (written_space d [word d] state [word state]); [by apply written_word | by apply written_word, plain_wordy]|].
  intros rest. unfold p_predicate. tok. cbn [word tk_kind tk_text is_kind negb app].
  rewrite !mem_string_cons in Hm. apply orb_false_iff in Hm as [-> Hm]. apply orb_false_iff in Hm as [-> Hm].
  apply orb_false_iff in Hm as [-> _]. cbn [orb]. rewrite Hd. tok. cbn [tk_kind tk_text andb].
  rewrite !fold_words by done. by destruct ok.
Qed.

Lemma operator_plain op : op ∈ ["="; "!="; "<"; "<="; ">"; ">="; "~"]%string → ToLower op = op.
Proof using UA US.
  intros Hop. assert (H : all_ascii op && forallb (λ b, negb (ascii_upper b)) (bytes_of op) = true).
  { repeat (apply elem_of_cons in Hop as [->|Hop]; [reflexivity|]). by apply elem_of_nil in Hop. }
  apply andb_true_iff in H as [Ha Hb]. apply ToLower_plain; [done|]. intros b Hin. rewrite forallb_forall in Hb.
  apply list_elem_of_In, Hb in Hin. by apply negb_true_iff in Hin.
Qed.

Lemma written_op op : op ∈ ["="; "!="; "<"; "<="; ">"; ">="; "~"]%string → written op [op_tok op].
Proof using UA US.
  intros Hop. assert (H : all_ascii op && negb (empty op) && forallb (λ b, negb (ascii_space b)) (bytes_of op) = true).
  { clear -Hop. repeat (apply elem_of_cons in Hop as [->|Hop]; [reflexivity|]). by apply elem_of_nil in Hop. }
  apply andb_true_iff in H as [[Ha Hne%negb_true_iff%bool_decide_eq_false]%andb_true_iff Hb]. destruct (encode_ascii op Ha) as [E Hv].
  exists (bytes_of op). split_and!; [done | done | by apply read_op|]. split; [by destruct op|]. intros r Hr.
  assert (Hin : r ∈ bytes_of op) by (destruct Hr as [Hr|Hr]; [by apply head_Some_elem_of | by apply last_Some_elem_of]).
  rewrite space_ascii by by apply (bytes_ascii op). rewrite forallb_forall in Hb. apply list_elem_of_In, Hb in Hin. by apply negb_true_iff in Hin.
Qed.

(** The operator of a text or number field, and what follows it. *)
Lemma predicate_op f k sc op ts : condFields !! f = Some (k, sc) → in_scope scope sc → k ≠ boolField →
  op ∈ ["="; "!="; "<"; "<="; ">"; ">="; "~"]%string →
  p_predicate scope (word f :: op_tok op :: ts) = if bool_decide (k = numberField) then p_number f op ts else p_text f op ts.
Proof using UA US no_shadow.
  intros Hf Hsc Hk Hop. rewrite (predicate_field f k sc) by done. rewrite bool_decide_eq_false_2 by done.
  tok. cbn [op_tok is_kind tk_kind tk_text negb andb]. by rewrite operator_plain.
Qed.

Lemma reads_op f k sc op t x n : condFields !! f = Some (k, sc) → in_scope scope sc → k ≠ boolField →
  op ∈ ["="; "!="; "<"; "<="; ">"; ">="; "~"]%string → written x [t] →
  (∀ rest, (if bool_decide (k = numberField) then p_number f op (t :: rest) else p_text f op (t :: rest)) = Ok (n, rest)) →
  reads_as (f +:+ " " +:+ op +:+ " " +:+ x) n.
Proof using UA US no_shadow.
  intros Hf Hsc Hk Hop Hx Hn. destruct (field_plain f k sc Hf) as (Hp & _ & Hnot & _).
  apply (reads_word f [op_tok op; t]); [by apply plain_not| |].
  - apply (written_space f [word f] _ [op_tok op; t]); [by apply written_word, plain_wordy|].
    apply (written_space op [op_tok op] x [t]); [by apply written_op | done].
  - intros rest. cbn [app]. by rewrite (predicate_op f k sc op).
Qed.

Lemma reads_number op v : node_wf scope (numberNode op v) → reads_as ("latency" +:+ " " +:+ op +:+ " " +:+ Itoa v) (numberNode op v).
Proof using UA US no_shadow.
  intros (Hop & Hv & Hd). apply (reads_op "latency" numberField nodeField op (word (Itoa v))).
  - reflexivity.
  - intros Hs. by rewrite Hd in Hs; destruct Hs.
  - done.
  - set_solver.
  - by apply written_word, Itoa_wordy.
  - intros rest. rewrite bool_decide_eq_true_2 by done. unfold p_number.
    assert (mem_string op ["="; "!="; "<"; "<="; ">"; ">="]%string = true) as -> by by apply bool_decide_eq_true.
    tok. cbn [word tk_text tk_kind is_kind negb]. by rewrite Itoa_no_suffix, Atoi_Itoa_all.
Qed.

Definition value_kind (t : condToken) : Prop := negb (is_kind wordToken t) && negb (is_kind stringToken t) = false.

Lemma p_value_tok t rest : value_kind t → p_value (t :: rest) = Ok (tk_text t, rest).
Proof using Type. intros Ht. unfold p_value. tok. by rewrite Ht. Qed.

Definition text_kind (k : fieldKind) : Prop := k ≠ boolField ∧ k ≠ numberField.

Lemma reads_equal f k sc op v : condFields !! f = Some (k, sc) → in_scope scope sc → text_kind k → op ∈ ["="; "!="]%string → quotable v →
  ∃ q, quoteValue v = Ok q ∧ reads_as (f +:+ " " +:+ op +:+ " " +:+ q) (stringNode f op [v] None).
Proof using UA US no_shadow.
  intros Hf Hsc [Hk1 Hk2] Hop Hv. destruct (written_quote v Hv) as (q & t & Hq & Hw & Ht & Hkind). exists q. split; [done|].
  apply (reads_op f k sc op t); try done; [set_solver|]. intros rest. rewrite bool_decide_eq_false_2 by done. unfold p_text.
  assert (eqs op "~" = false ∧ eqs op "in" = false ∧ eqs op "=" || eqs op "!=" = true) as (-> & -> & ->).
  { repeat (apply elem_of_cons in Hop as [->|Hop]; [done|]). by apply elem_of_nil in Hop. }
  rewrite p_value_tok by done. bindsimpl. by rewrite Ht.
Qed.

Lemma quote_values_written vs : Forall quotable vs → ∃ qs ts, quote_values vs = Ok qs ∧ Forall2 (λ q t, written q [t]) qs ts ∧
  tk_text <$> ts = vs ∧ Forall value_kind ts.
Proof using UA US.
  induction 1 as [|v vs Hv _ (qs & ts & Hq & Hw & Ht & Hk)]; [by exists [], []|].
  destruct (written_quote v Hv) as (q & t & Hq' & Hw' & Ht' & Hk'). exists (q :: qs), (t :: ts). cbn [quote_values].
  rewrite Hq', Hq. split_and!; [done | by constructor | cbn; by rewrite Ht', Ht | by constructor].
Qed.

Lemma p_values_list ts rest : ∀ fuel, ts ≠ [] → Forall value_kind ts → (length ts <= fuel)%nat →
  p_values fuel (list_tokens ts ++ rest) = Ok (tk_text <$> ts, rest).
Proof using Type.
  induction ts as [|t ts IH]; intros fuel Hne Hk Hl; [done|]. destruct fuel as [|fuel]; [cbn in Hl; lia|].
  apply Forall_cons in Hk as [Ht Hk]. destruct ts as [|t' ts].
  - cbn [list_tokens app p_values]. rewrite p_value_tok by done. reflexivity.
  - change (list_tokens (t :: t' :: ts) ++ rest) with (t :: punct "," :: list_tokens (t' :: ts) ++ rest). cbn [p_values].
    rewrite p_value_tok by done. bindsimpl. tok. change (is_punct_text "]" (punct ",")) with false. cbn iota.
    rewrite expect_punct. bindsimpl. rewrite (IH fuel) by (done || cbn in *; lia). done.
Qed.

Lemma written_bracket qs ts : qs ≠ [] → Forall2 (λ q t, written q [t]) qs ts →
  written ("[" +:+ Join qs ", " +:+ "]") (punct "[" :: list_tokens ts).
Proof using UA US.
  intros Hne Hall. destruct (written_list qs ts Hne Hall) as (rs & Hv & E & Hl & Hlast). exists (r_lbracket :: rs). split_and!.
  - apply Forall_cons. split; [by apply valid_ascii | done].
  - rewrite E. by change (r_lbracket :: rs) with ([r_lbracket] ++ rs); rewrite encode_app.
  - by apply (read_punct r_lbracket rs (list_tokens ts)).
  - split; [done|]. intros r [[= <-]|Hr]; [by rewrite space_ascii|]. destruct rs; [done|]. rewrite last_cons_cons, Hlast in Hr.
    injection Hr as <-. by rewrite space_ascii.
Qed.

Lemma reads_in f k sc vs : condFields !! f = Some (k, sc) → in_scope scope sc → text_kind k → vs ≠ [] → Forall quotable vs →
  ∃ qs, quote_values vs = Ok qs ∧ reads_as (f +:+ " in [" +:+ Join qs ", " +:+ "]") (stringNode f "in" vs None).
Proof using UA US no_shadow.
  intros Hf Hsc [Hk1 Hk2] Hne Hv. destruct (quote_values_written vs Hv) as (qs & ts & Hq & Hw & Ht & Hk). exists qs. split; [done|].
  assert (Hqs : qs ≠ []) by (intros ->; inversion Hw; subst; done).
  assert (Hts : ts ≠ []) by (intros ->; by subst).
  destruct (field_plain f k sc Hf) as (Hp & _ & Hnot & _).
  apply (reads_word f (word "in" :: punct "[" :: list_tokens ts)); [by apply plain_not| |].
  - change (f +:+ " in [" +:+ Join qs ", " +:+ "]") with (f +:+ " " +:+ "in" +:+ " " +:+ "[" +:+ Join qs ", " +:+ "]").
    apply (written_space f [word f]); [by apply written_word, plain_wordy|].
    apply (written_space "in" [word "in"]); [by apply written_word, plain_wordy | by apply written_bracket].
  - intros rest. cbn [app]. rewrite (predicate_field f k sc) by done. rewrite bool_decide_eq_false_2 by done.
    tok. cbn [word is_kind tk_kind tk_text negb andb]. rewrite (EqualFold_refl "in"). cbn [negb].
    destruct (plain_wordy "in" eq_refl) as [_ ->]. rewrite bool_decide_eq_false_2 by done. unfold p_text.
    change (eqs "in" "~") with false. change (eqs "in" "in") with true. cbn iota. rewrite expect_punct. bindsimpl.
    rewrite p_values_list; [bindsimpl; by rewrite Ht | done | done|]. rewrite length_app.
    clear. assert (length ts <= length (list_tokens ts))%nat; [|lia]. induction ts as [|t [|t' ts] IH]; cbn in *; lia.
Qed.

Definition ends_backslash (s : string) : bool := bool_decide (last (bytes_of s) = Some 92).

Lemma ends_backslash_encode rs : last rs = Some r_backslash → ends_backslash (encode rs) = true.
Proof using Type.
  intros [l ->]%last_Some. apply bool_decide_eq_true. rewrite encode_app.
  change (encode [r_backslash]) with (str1 (Zbyte 92)). induction (encode l) as [|c e IH]; [reflexivity|].
  rewrite append_cons. cbn [bytes_of]. destruct (bytes_of (e +:+ str1 (Zbyte 92))); [done|]. by rewrite last_cons_cons.
Qed.

(** What follows a prefix of ASCII in the encoding of runes is one too. *)
Lemma textual_rest p rest : all_ascii p = true → textual (p +:+ rest) → textual rest.
Proof using Type.
  intros Hp (rs & Hv & E). assert (Hd : decode (p +:+ rest) = bytes_of p ++ decode rest).
  { unfold decode. rewrite chunks_app_ascii, fmap_app by done. f_equal. exact (decode_ascii p Hp). }
  rewrite E, TextFacts.decode_encode in Hd by done. exists (decode rest). subst rs. split; [by apply Forall_app in Hv as [_ Hv]|].
  rewrite encode_app, encode_bytes in E by done. by apply (inj (String.append p)) in E.
Qed.

Lemma reads_regex f k sc p : condFields !! f = Some (k, sc) → in_scope scope sc → text_kind k → textual p →
  slen p <= maxPatternLength → re_compiles p = true →
  let fold := HasPrefix p "(?i)" in
  let pattern := if fold then string_drop 4 p else p in
  ends_backslash pattern = false →
  reads_as (f +:+ " ~ " +:+ "/" +:+ ReplaceByte pattern "/" "\/" +:+ "/" +:+ (if fold then "i" else "")) (stringNode f "~" [] (Some p)).
Proof using UA US no_shadow.
  intros Hf Hsc [Hk1 Hk2] Ht Hl Hc fold pattern Hend.
  assert (Hp : p = (if fold then "(?i)" else "") +:+ pattern) by (unfold pattern; destruct fold eqn:E; [by apply (prefix_split p "(?i)") | done]).
  assert (Htp : textual pattern).
  { apply (textual_rest (if fold then "(?i)" else "")); [by destruct fold | by rewrite <- Hp]. }
  destruct Htp as (rs & Hv & Ers). rewrite Ers in *.
  assert (Hlast : last rs ≠ Some r_backslash) by (intros Hlast%ends_backslash_encode; congruence).
  apply (reads_op f k sc "~" (regex_tok p)); try done; [set_solver| |].
  - exists (r_slash :: escape rs ++ r_slash :: if fold then [105] else []). split_and!.
    + apply Forall_cons. split; [by apply valid_ascii|]. apply Forall_app. split; [by apply escape_valid|].
      apply Forall_cons. split; [by apply valid_ascii|]. destruct fold; [apply Forall_singleton; by apply valid_ascii | constructor].
    + rewrite ReplaceByte_escape by done. change (r_slash :: ?l) with ([r_slash] ++ l) at 1.
      change (r_slash :: if fold then [105] else []) with ([r_slash] ++ if fold then [105] else []). rewrite !encode_app. by destruct fold.
    + rewrite read_regex by done. by rewrite <- Hp.
    + split; [done|]. intros r [[= <-]|Hr]; [by rewrite space_ascii|].
      rewrite app_comm_cons, last_app_cons in Hr. destruct fold; cbn in Hr; injection Hr as <-; by rewrite space_ascii.
  - intros rest. rewrite bool_decide_eq_false_2 by done. unfold p_text. change (eqs "~" "~") with true. cbn iota. tok.
    cbn [regex_tok is_kind tk_kind tk_text negb andb]. rewrite (proj2 (Z.ltb_ge _ _)) by done. by rewrite Hc.
Qed.

(** ** Every leaf a form shows is written as it is read *)

(** No pattern of the clause ends in a backslash. *)
Definition writable (c : Clause) : Prop := cl_Op c = "~"%string → Forall (λ p, ends_backslash p = false) (cl_Values c).

Lemma not_call_field f k sc : condFields !! f = Some (k, sc) →
  mem_string f ["tag"; "passes"; "fails"]%string = false ∧ eqs f "diag" = false.
Proof using Type. intros Hf. destruct (field_plain f k sc Hf) as (_ & Hm & _ & Hd). done. Qed.

Lemma clause_reads neg n c : node_wf scope n → node_text n → clause_under neg n = Some c → writable c →
  ∃ s, clauseText c = Ok s ∧ reads_as s n.
Proof using UA US no_shadow.
  intros Hwf Ht Hc Hw. destruct n as [| | |f|v|v pass|d ok|f op vs re|op v]; try done; cbn [clause_under] in Hc.
  - injection Hc as <-. destruct Hwf as (sc & Hf & Hsc). destruct (not_call_field f _ _ Hf) as [Hm Hd]. exists f. split; [|apply reads_bool; by exists sc].
    unfold clauseText, leaf_clause. cbn [cl_Field cl_Values]. by rewrite Hm, Hd, Hf.
  - injection Hc as <-. destruct (reads_tag v Hwf Ht) as (q & Hq & Hr). eexists. split; [|exact Hr]. unfold clauseText, leaf_clause. cbn. by rewrite Hq.
  - injection Hc as <-. destruct (reads_check v pass Hwf Ht) as (q & Hq & Hr). eexists. split; [|exact Hr].
    unfold clauseText, leaf_clause. cbn [cl_Field cl_Values head default from_option id]. destruct pass; cbn; by rewrite Hq.
  - injection Hc as <-. eexists. split; [|apply (reads_diag d ok Hwf Ht)]. reflexivity.
  - destruct Hwf as [(k & sc & Hf & Hk1 & Hk2 & Hsc) Hop]. destruct (not_call_field f _ _ Hf) as [Hm Hd]. destruct Ht as (Hvs & Hre & Hone).
    destruct Hop as [(-> & -> & p & -> & Hcomp)|(Hop & Hne & ->)].
    + injection Hc as <-. destruct (Hre p eq_refl) as [Htx Hlen]. unfold writable in Hw. cbn [cl_Op cl_Values] in Hw.
      specialize (Hw eq_refl). rewrite Forall_singleton in Hw. eexists. split; [|exact (reads_regex f k sc p Hf Hsc (conj Hk1 Hk2) Htx Hlen Hcomp Hw)].
      unfold clauseText. cbn [cl_Field cl_Values cl_Op cl_IgnoreCase head default from_option id]. rewrite Hm, Hd, Hf.
      destruct k; done.
    + injection Hc as <-. unfold clauseText, leaf_clause. cbn [cl_Field cl_Values cl_Op]. rewrite Hm, Hd, Hf.
      assert (Hcase : op = "in"%string ∨ op ∈ ["="; "!="]%string) by set_solver. destruct Hcase as [->|Hop'].
      * destruct (reads_in f k sc vs Hf Hsc (conj Hk1 Hk2) Hne Hvs) as (qs & Hq & Hr). eexists. split; [|exact Hr]. rewrite Hq. by destruct k.
      * destruct (Hone Hop') as [v ->]. rewrite Forall_singleton in Hvs. destruct (reads_equal f k sc op v Hf Hsc (conj Hk1 Hk2) Hop' Hvs) as (q & Hq & Hr).
        eexists. split; [|exact Hr]. cbn [head default from_option id]. rewrite Hq.
        assert (eqs op "~" = false ∧ eqs op "in" = false) as [-> ->] by (repeat (apply elem_of_cons in Hop' as [->|Hop']; [done|]); by apply elem_of_nil in Hop').
        by destruct k.
  - injection Hc as <-. eexists. split; [|by apply (reads_number op v)]. reflexivity.
Qed.

Lemma clause_under_not neg n c : clause_under neg n = Some c → cl_Not c = neg.
Proof using Type. destruct n as [| | |f|v|v pass|d ok|f op vs [re|]|op v]; try done; cbn; by intros [= <-]. Qed.

(** *** With a negation before them *)

Definition unary_tokens (n : condNode) (ts : list condToken) : Prop :=
  ts ≠ [] ∧ ∀ fuel d rest, p_unary scope (S (S fuel)) d (ts ++ rest) = Ok (n, rest).

Lemma reads_unary s n : reads_as s n → ∃ ts, written s ts ∧ ts ≠ [] ∧ ∀ fuel d rest, p_unary scope (S fuel) d (ts ++ rest) = Ok (n, rest).
Proof using Type.
  intros (ts & Hw & Hne & Hk & Hp & Hr). exists ts. split_and!; try done. intros fuel d rest. rewrite p_unary_S.
  destruct ts as [|t ts]; [done|]. unfold keyword in *. cbn [app peek head default from_option id] in *. rewrite Hk, Hp. apply (Hr rest).
Qed.

Lemma item_written n c : tree_text n → cond_wf scope n → clauseOf n = Some c → writable c →
  ∃ s ts, clause_part c = Ok s ∧ written s ts ∧ unary_tokens n ts.
Proof using UA US no_shadow.
  intros Ht Hwf Hc Hw.
  assert (Hleaf : ∀ neg m, node_wf scope m → node_text m → clause_under neg m = Some c →
    ∃ s ts, clauseText c = Ok s ∧ written s ts ∧ ts ≠ [] ∧ ∀ fuel d rest, p_unary scope (S fuel) d (ts ++ rest) = Ok (m, rest)).
  { intros neg m Hm Hmt Hcm. destruct (clause_reads neg m c Hm Hmt Hcm Hw) as (s & Hs & Hr).
    destruct (reads_unary s m Hr) as (ts & Hts). by exists s, ts. }
  assert (Hplain : ∀ m, node_wf scope m → node_text m → clause_under false m = Some c → ∃ s ts, clause_part c = Ok s ∧ written s ts ∧ unary_tokens m ts).
  { intros m Hm Hmt Hcm. destruct (Hleaf false m Hm Hmt Hcm) as (s & ts & Hs & Hws & Hne & Hp). exists s, ts. unfold clause_part.
    rewrite Hs, (clause_under_not _ _ _ Hcm). bindsimpl. split_and!; [done..|]. split; [done|]. intros fuel d rest. apply Hp. }
  unfold tree_text, cond_wf in *. destruct n as [| |inner|f|v|v pass|d ok|f op vs re|op v]; try done;
    try (apply Hplain; [by apply Forall_inv in Hwf | by apply Forall_inv in Ht | done]).
  cbn [walk_node] in Ht, Hwf. apply Forall_cons in Ht as [_ Ht]. apply Forall_cons in Hwf as [_ Hwf].
  assert (Hin : inner ∈ walk_node inner) by (destruct inner; by left).
  rewrite Forall_forall in Ht, Hwf. destruct (Hleaf true inner (Hwf _ Hin) (Ht _ Hin) Hc) as (s & ts & Hs & Hws & Hne & Hp).
  exists ("not " +:+ s), (word "not" :: ts). unfold clause_part. rewrite Hs, (clause_under_not _ _ _ Hc). bindsimpl. split_and!; [done| |].
  - apply (written_space "not" [word "not"] s ts); [|done]. by apply written_word, plain_wordy.
  - split; [done|]. intros fuel d rest. cbn [app]. rewrite p_unary_S, keyword_word. cbn [tail]. rewrite Hp. done.
Qed.

(** ** Clauses joined by one operator *)

Definition chain_tokens (w : string) (tss : list (list condToken)) : list condToken := tss ≫= λ ts, word w :: ts.

Lemma written_chain w parts tss : plain_word w = true → Forall2 written parts tss → ∀ s ts, written s ts →
  written (Join (s :: parts) (" " +:+ w +:+ " ")) (ts ++ chain_tokens w tss).
Proof using UA US.
  intros Hw. induction 1 as [|p us parts tss Hp _ IH]; intros s ts Hs; [by rewrite app_nil_r|].
  change (Join (s :: p :: parts) (" " +:+ w +:+ " ")) with (s +:+ (" " +:+ w +:+ " ") +:+ Join (p :: parts) (" " +:+ w +:+ " ")).
  rewrite !append_assoc. apply (written_space s ts); [done|]. unfold chain_tokens. rewrite bind_cons.
  apply (written_space w [word w] _ (us ++ chain_tokens w tss)); [by apply written_word, plain_wordy | by apply IH].
Qed.

Lemma ands_read items tss : Forall2 unary_tokens items tss → ∀ fuel d, (length items + 3 <= fuel)%nat →
  p_ands scope fuel d (chain_tokens "and" tss) = Ok (items, []).
Proof using Type.
  induction 1 as [|n ts items tss [Hne Hu] _ IH]; intros fuel d Hf; destruct fuel as [|[|[|fuel]]]; cbn in Hf; try lia; [apply p_ands_nil|].
  rewrite p_ands_S. unfold chain_tokens. rewrite bind_cons. cbn [app]. rewrite keyword_word. cbn [tail]. rewrite Hu. bindsimpl.
  fold (chain_tokens "and" tss). by rewrite IH by lia.
Qed.

Lemma keyword_other w t rest : plain_word w = true → plain_word t = true → eqs t w = false → keyword w (word t :: rest) = false.
Proof using UA US. intros Hw Ht Hne. unfold keyword. cbn. by rewrite fold_words. Qed.

Lemma ors_read items tss : Forall2 unary_tokens items tss → ∀ fuel d, (length items + 4 <= fuel)%nat →
  p_ors scope fuel d (chain_tokens "or" tss) = Ok (items, []).
Proof using UA US.
  induction 1 as [|n ts items tss [Hne Hu] _ IH]; intros fuel d Hf; destruct fuel as [|[|[|[|fuel]]]]; cbn in Hf; try lia; [apply p_ors_nil|].
  rewrite p_ors_S. unfold chain_tokens. rewrite bind_cons. cbn [app]. rewrite keyword_word. cbn [tail]. rewrite p_and_S, Hu. bindsimpl.
  fold (chain_tokens "or" tss). rewrite p_ands_S.
  assert (keyword "and" (chain_tokens "or" tss) = false) as ->.
  { destruct tss as [|us tss]; [done|]. unfold chain_tokens. rewrite bind_cons. by apply keyword_other. }
  bindsimpl. by rewrite IH by lia.
Qed.

Lemma length_chain w tss items : Forall2 unary_tokens items tss → (length items <= length (chain_tokens w tss))%nat.
Proof using Type.
  induction 1 as [|n ts items tss _ _ IH]; [done|]. unfold chain_tokens in *. rewrite bind_cons, length_app. cbn. lia.
Qed.

(** The whole text, joined by either operator. *)
Lemma parse_chain (conj : bool) n ts items tss : unary_tokens n ts → Forall2 unary_tokens items tss →
  parse_tokens scope (ts ++ chain_tokens (if conj then "and" else "or") tss) =
    Ok (match items with [] => n | _ => if conj then andNode (n :: items) else orNode (n :: items) end).
Proof using UA US.
  intros [Hne Hu] Hall. set (w := (if conj then "and" else "or")%string). pose proof (length_chain w _ _ Hall) as Hlen.
  apply parse_tokens_Ok. unfold parse_fuel. rewrite length_app.
  assert (Hf : ∃ fuel, (4 * (length ts + length (chain_tokens w tss)) + 8 = S (S (S (S fuel))))%nat ∧ (length items + 4 <= S fuel)%nat).
  { exists (4 * (length ts + length (chain_tokens w tss)) + 4)%nat. lia. }
  destruct Hf as (fuel & -> & Hf). rewrite p_or_S. change (maxConditionDepth <? 0) with false. cbn iota. rewrite p_and_S, Hu. bindsimpl.
  destruct conj; subst w.
  - rewrite (ands_read items tss) by (done || lia). bindsimpl. rewrite p_ors_nil. bindsimpl. by destruct items.
  - rewrite p_ands_S. assert (keyword "and" (chain_tokens "or" tss) = false) as ->.
    { destruct tss as [|us tss]; [done|]. unfold chain_tokens. rewrite bind_cons. by apply keyword_other. }
    bindsimpl. rewrite (ors_read items tss) by (done || lia). bindsimpl. by destruct items.
Qed.
End clauses.

(** ** The round trip *)

Section roundtrip.
Context `{U : Unicode} {UA : UnicodeAscii} {US : UnicodeSpaces} `{R : Regexp} (scope : condScope).

Lemma written_parse s ts root : written s ts → parse_tokens scope ts = Ok root → slen s <= maxConditionLength →
  parseCond scope s = Ok (Some {| cd_Text := s; cd_root := root |}).
Proof using Type.
  intros (rs & Hv & -> & Hl & Hne & Hs) Hp Hlen. unfold parseCond.
  assert (Hd : decode (encode rs) = rs) by by apply TextFacts.decode_encode.
  assert (TrimSpace (encode rs) = encode rs) as ->.
  { apply TrimSpace_id. intros c Hc. apply Hs. rewrite <- Hd. unfold decode. rewrite fmap_last.
    destruct Hc as [Hc|Hc]; [left | right; by rewrite Hc]. destruct (rune_chunks (encode rs) 0); [done|]. cbn in Hc |- *. congruence. }
  destruct (encode rs) as [|a s] eqn:E; [by rewrite <- Hd in Hne|]. rewrite <- E in *.
  replace (empty (encode rs)) with false by (by rewrite E). rewrite (proj2 (Z.ltb_ge _ _)) by done.
  unfold lexCond. rewrite Hd, Hl. bindsimpl. by rewrite Hp.
Qed.

Lemma items_written items cs : (∀ f, is_Some (condFields !! f) → scope_diag scope f = false) →
  Forall tree_text items → Forall (cond_wf scope) items → mapM clauseOf items = Some cs → Forall writable cs →
  ∃ parts tss, clause_parts cs = Ok parts ∧ Forall2 written parts tss ∧ Forall2 (unary_tokens scope) items tss.
Proof using UA US.
  intros Hd Ht Hwf Hm%mapM_Some. induction Hm as [|n c items cs Hc _ IH]; intros Hw; [by exists [], []|].
  apply Forall_cons in Ht as [Ht Hts], Hwf as [Hwf Hwfs], Hw as [Hw Hws].
  destruct (item_written scope Hd n c Ht Hwf Hc Hw) as (s & ts & Hs & Hwr & Hu). destruct (IH Hts Hwfs Hws) as (parts & tss & Hp & H1 & H2).
  exists (s :: parts), (ts :: tss). cbn [clause_parts]. rewrite Hs, Hp. split_and!; [done | by constructor | by constructor].
Qed.

(** What a form shows of a root: its items, and how they are joined. *)
Lemma formOf_flat root : cf_Flat (formOf root) = true → ∃ (conj : bool) items, cf_Join (formOf root) = (if conj then "and" else "or")%string ∧
  mapM clauseOf items = Some (cf_Clauses (formOf root)) ∧
  (root = (if conj then andNode items else orNode items) ∨ items = [root] ∧ walk_node root = walk_node root ∧ conj = true).
Proof using Type.
  unfold formOf. destruct root as [items|items| | | | | | |].
  1: destruct (mapM clauseOf items) as [cs|] eqn:E; [|done]; intros _; by exists true, items; auto.
  1: destruct (mapM clauseOf items) as [cs|] eqn:E; [|done]; intros _; by exists false, items; auto.
  all: match goal with |- context [mapM clauseOf ?l] => destruct (mapM clauseOf l) as [cs|] eqn:E; [|done]; intros _; exists true, l; by auto 10 end.
Qed.

Lemma tree_items (P : condNode → Prop) root items (conj : bool) : Forall P (walk_node root) →
  root = (if conj then andNode items else orNode items) ∨ items = [root] → Forall (λ n, Forall P (walk_node n)) items.
Proof using Type.
  intros Hw [-> | ->]; [|by apply Forall_singleton]. assert (Hc : Forall P (concat (List.map walk_node items))).
  { destruct conj; cbn in Hw; by apply Forall_cons in Hw as [_ Hw]. }
  clear Hw. induction items as [|n items IH]; [constructor|]. cbn in Hc. apply Forall_app in Hc as [H1 H2]. apply Forall_cons. auto.
Qed.

(** C39: the builder's form is faithful. A condition that parses and is flat
    enough for the builder is written back by it, and the text it writes, if
    it is not too long, parses to the very same condition; unless a pattern
    ends in a backslash, which only a quoted pattern can, or a diagnostic has
    the name of a field. *)
Theorem form_roundtrip text c :
  (∀ f, is_Some (condFields !! f) → scope_diag scope f = false) →
  parseCond scope text = Ok (Some c) →
  let form := formOf (cd_root c) in
  cf_Flat form = true → Forall writable (cf_Clauses form) →
  ∃ text', formText form = Ok text' ∧
    (slen text' <= maxConditionLength → parseCond scope text' = Ok (Some {| cd_Text := text'; cd_root := cd_root c |})).
Proof using UA US.
  intros Hd Hc form Hflat Hw. destruct (formOf_flat _ Hflat) as (conj & items & Hj & Hm & Hroot).
  assert (Hroot' : cd_root c = (if conj then andNode items else orNode items) ∨ items = [cd_root c]) by naive_solver.
  pose proof (tree_items _ _ _ _ (parseCond_text scope text c Hc) Hroot') as Ht.
  pose proof (parseCond_wf_root scope text c Hc) as Hwf. pose proof (tree_items _ _ _ _ Hwf Hroot') as Hwfs.
  destruct (items_written items _ Hd Ht Hwfs Hm Hw) as (parts & tss & Hp & H1 & H2).
  assert (Hne : items ≠ []).
  { intros ->. destruct Hroot' as [E|]; [|done]. unfold cond_wf in Hwf. rewrite E in Hwf. by destruct conj; apply Forall_inv in Hwf; cbn in Hwf; lia. }
  destruct items as [|n items]; [done|]. inversion H2 as [|? ts ? tss' Hu Hus]; subst. inversion H1 as [|s ? parts' ? Hs Hss]; subst.
  exists (Join (s :: parts') (" " +:+ cf_Join form +:+ " ")). split.
  - unfold formText, form. rewrite Hj, Hp. by destruct conj.
  - intros Hlen. unfold form in *. rewrite Hj in Hlen |- *.
    assert (cd_root c = match items with [] => n | _ => if conj then andNode (n :: items) else orNode (n :: items) end) as ->.
    { destruct Hroot' as [E|E]; [|by injection E as -> ->]. destruct items as [|m items]; [|done]. unfold cond_wf in Hwf. rewrite E in Hwf.
      destruct conj; apply Forall_inv in Hwf; cbn in Hwf; lia. }
    eapply written_parse; [|by apply (parse_chain scope conj n ts items tss')|done].
    by apply written_chain; [destruct conj|..].
Qed.
End roundtrip.

(** ** On concrete conditions *)

Module Sample.
#[local] Existing Instance ascii_tables.
#[local] Existing Instance ascii_tables_ok.
#[local] Existing Instance ascii_tables_spaces.
#[local] Instance plain_regexp : Regexp := {| re_compiles p := negb (empty p); re_match _ _ := false |}.

Definition pool_scope : condScope := {| cs_tags := Some {[ "x y"; "home" ]}; cs_checks := {[ "video" ]}; cs_diags := None |}.
Definition network_scope (name : string) : condScope := {| cs_tags := None; cs_checks := ∅; cs_diags := Some {[ name ]} |}.

Definition sample_text : string := "name ~ /a\/b/i AND not( alive ) and tag( 'x y' ) and type in [ Vless,'and' ]".

Definition sample_cond : Cond := {|
  cd_Text := sample_text;
  cd_root := andNode [stringNode "name" "~" [] (Some "(?i)a/b"%string); notNode (boolNode "alive"); tagNode "x y";
    stringNode "type" "in" ["Vless"; "and"]%string None];
|}.
Definition sample_written : string := "name ~ /a\/b/i and not alive and tag('x y') and type in [Vless, 'and']".

Lemma form_roundtrip_witness : parseCond pool_scope sample_text = Ok (Some sample_cond) ∧
  ∃ text', text' = sample_written ∧ formText (formOf (cd_root sample_cond)) = Ok text' ∧
    parseCond pool_scope text' = Ok (Some {| cd_Text := text'; cd_root := cd_root sample_cond |}).
Proof.
  assert (Hc : parseCond pool_scope sample_text = Ok (Some sample_cond)) by (vm_compute; reflexivity). split; [exact Hc|].
  destruct (form_roundtrip pool_scope sample_text sample_cond) as (text' & Ht & Hp).
  - intros f _. reflexivity.
  - exact Hc.
  - reflexivity.
  - repeat (apply Forall_cons; split; [intros E; try discriminate E; apply Forall_singleton; reflexivity|]). apply Forall_nil; exact I.
  - assert (text' = sample_written) as E by (vm_compute in Ht; injection Ht as <-; reflexivity).
    exists text'. split; [exact E|]. split; [exact Ht|]. apply Hp. rewrite E. by apply Z.leb_le.
Defined.

(** A pattern that ends in a backslash is written as a pattern that does not. *)
Example trailing_backslash :
  parseCond pool_scope "name ~ 'a\'" = Ok (Some {| cd_Text := "name ~ 'a\'"; cd_root := stringNode "name" "~" [] (Some "a\"%string) |}) ∧
  formText (formOf (stringNode "name" "~" [] (Some "a\"%string))) = Ok "name ~ /a\/"%string ∧
  parseCond pool_scope "name ~ /a\/" = Err UnterminatedPattern.
Proof. vm_compute. done. Qed.

(** A field in another spelling than a diagnostic of its name is read as the
    field, and written as the diagnostic. *)
Example diag_hides_field :
  parseCond (network_scope "metered") "Metered" = Ok (Some {| cd_Text := "Metered"; cd_root := boolNode "metered" |}) ∧
  formText (formOf (boolNode "metered")) = Ok "metered"%string ∧
  parseCond (network_scope "metered") "metered" = Err (NeedsOkOrFail "metered" "end").
Proof. vm_compute. done. Qed.
End Sample.
