(* ===== verification/Studio.v ===== *)
(** * The profile editor: core/rcx/studio.go

    Linting a document as if it were saved: the faults it has, what it would
    never use, where in the text each issue is; and the canonical layout of a
    document. *)

From S2P Require Import Prelude GoText Cond CondSyntax Profile Policy Library Route Scenario Layers.
From S2P Require Import Evidence Journal Identity Decide Merge Bundle Machine.

(** ** Requests and results *)

Inductive IssueArg := IssueText (text : string) | IssueHosts (hosts : list string).

Record Issue := {
  is_Line : Z;
  is_Path : string;
  is_Code : string;
  is_Args : list (string * IssueArg);
  is_Message : string;
}.

#[export] Instance IssueArg_eq : EqDecision IssueArg. Proof. solve_decision. Defined.
#[export] Instance Issue_eq : EqDecision Issue. Proof. solve_decision. Defined.

(** An [Endpoint] with its [ThirdParty]. *)
Record MarkedEndpoint := { me_Endpoint : Endpoint; me_ThirdParty : bool }.

(** What [lint] fills of [StudioResult] for a document. *)
Record LintResult := {
  lr_Profile : option Profile;
  lr_Scenario : option Scenario;
  lr_Info : option ProfileInfo;
  lr_Errors : list Issue;
  lr_Warnings : list Issue;
  lr_Endpoints : list MarkedEndpoint;
}.

Definition no_lint : LintResult :=
  {| lr_Profile := None; lr_Scenario := None; lr_Info := None; lr_Errors := []; lr_Warnings := []; lr_Endpoints := [] |}.

Definition draftName : string := "draft".

(** ** Nodes with their place and style *)

Inductive nodeStyle := FlowStyle | OtherStyle (bits : Z).

Inductive ynode := YNode (kind : nodeKind) (value : string) (line : Z) (style : nodeStyle) (content : list ynode).

Definition yd_Kind (n : ynode) : nodeKind := let 'YNode k _ _ _ _ := n in k.
Definition yd_Value (n : ynode) : string := let 'YNode _ v _ _ _ := n in v.
Definition yd_Line (n : ynode) : Z := let 'YNode _ _ l _ _ := n in l.
Definition yd_Style (n : ynode) : nodeStyle := let 'YNode _ _ _ s _ := n in s.
Definition yd_Content (n : ynode) : list ynode := let 'YNode _ _ _ _ c := n in c.

Definition is_flow (n : ynode) : bool := match yd_Style n with FlowStyle => true | OtherStyle _ => false end.
Definition of_kind (k : nodeKind) (n : ynode) : bool := bool_decide (yd_Kind n = k).

(** go.yaml.in/yaml: the root of a text that decodes to a document, a
    document as nodes, and nodes as text. *)
Class YamlTree := {
  yaml_tree : string → option ynode;
  yaml_of_profile : Profile → result string ynode;
  yaml_of_scenario : Scenario → result string ynode;
  yaml_write : ynode → result string string;
}.

(** ** Where an issue is *)

Definition part_text (part : PathItem) : string :=
  match part with PathKey k => k | PathIndex i => Itoa (Z.of_nat i) end.

Definition pathString (path : list PathItem) : string := Join (part_text <$> path) ".".

(** The pair of a mapping's content with the key: the first one. *)
Definition entry_of (key : string) (content : list ynode) : option (ynode * ynode) :=
  List.find (λ kv, eqs (yd_Value kv.1) key) (pairs content).

(** One turn of the loop of [locate]: the node and the line the part leads
    to. *)
Definition step_to (node : ynode) (part : PathItem) : option (ynode * Z) :=
  match part with
  | PathKey key =>
      if negb (of_kind MappingNode node) then None
      else '(k, v) ← entry_of key (yd_Content node); Some (v, yd_Line k)
  | PathIndex i =>
      if negb (of_kind SequenceNode node) then None
      else next ← yd_Content node !! i; Some (next, yd_Line next)
  end.

Fixpoint locate_from (node : ynode) (line : Z) (path : list PathItem) : Z :=
  match path with
  | [] => line
  | part :: path =>
      match step_to node part with
      | None => line
      | Some (next, line) => locate_from next line path
      end
  end.

(** [yamlLine.FindStringSubmatch]: the digits after the first "line " that
    has any. *)
Fixpoint digit_prefix (s : string) : string :=
  match s with
  | String c s => if ascii_digit (byteZ c) then String c (digit_prefix s) else EmptyString
  | EmptyString => EmptyString
  end.
Fixpoint yaml_line (s : string) : option string :=
  match s with
  | EmptyString => None
  | String _ rest =>
      let found := digit_prefix (string_drop 5 s) in
      if HasPrefix s "line " && negb (empty found) then Some found else yaml_line rest
  end.

(** [strconv.Atoi] of digits, its error ignored: out of range it is the
    largest integer. *)
Definition line_number (s : string) : Z := default max64 (Atoi s).

Section issues.
Context `{YamlTree} `{ErrorText}.

Definition locate (text : string) (path : list PathItem) : Z :=
  match yaml_tree text with
  | None => 0
  | Some root => locate_from root 0 path
  end.

Definition issueAt (text code : string) (args : list (string * IssueArg)) (message : string) (path : list PathItem) : Issue :=
  {| is_Line := locate text path; is_Path := pathString path; is_Code := code; is_Args := args; is_Message := message |}.

(** The errors inside an error of loading a document. *)
Definition load_path (err : loadError) : option (list PathItem) :=
  match err with Invalid e => as_path e | _ => None end.
Definition load_consent (err : loadError) : option (string * list string) :=
  match err with Invalid e => as_consent e | _ => None end.

Definition issueOf (err : loadError) (text : string) : Issue :=
  let message := error_text err in
  let '(path, line) := match load_path err with
                       | Some p => (pathString p, locate text p)
                       | None => (EmptyString, 0)
                       end in
  let '(code, args) := match load_consent err with
                       | Some (_, hosts) => ("profile.consent"%string, [("hosts"%string, IssueHosts hosts)])
                       | None => (EmptyString, [])
                       end in
  let line := if line =? 0 then match yaml_line message with Some d => line_number d | None => line end else line in
  {| is_Line := line; is_Path := path; is_Code := code; is_Args := args; is_Message := message |}.
End issues.

(** ** What a document never uses *)

Definition tags_read (conds : list (option Cond)) : gset string :=
  list_to_set (omap (λ n, match n with tagNode tag => Some tag | _ => None end) (conds ≫= walk)).

Definition policy_conds (p : Policy) : list (option Cond) := (ti_When <$> pl_Tiers p) ++ [pl_Include p; pl_Exclude p].

(** The conditions of a policy and of those of its network kinds. *)
Definition all_conds (policy : LayeredPolicy) : list (option Cond) :=
  [pl_Include (lp_Base policy); pl_Exclude (lp_Base policy)] ++
  ((lp_Base policy :: (map_to_list (lp_On policy)).*2) ≫= policy_conds).

Section warnings.
Context `{Unicode} `{YamlTree}.

Definition unused_tag (text name : string) : Issue :=
  issueAt text "tag.unused" [("tag"%string, IssueText name)] ("tag " +:+ name +:+ " is never used") [key "tags"; key name].

Definition unused_check (text id : string) : Issue :=
  issueAt text "check.unused" [("check"%string, IssueText id)]
    ("check " +:+ id +:+ " is never used, so it never runs") [key "checks"; key id].

(** [strings.Join(strings.Fields(when), " ")]. *)
Definition squeeze (when : string) : string := Join (FieldsFunc when is_space) " ".

(** The loop over the tiers; [seen] is the label of the first tier with a
    condition. *)
Fixpoint repeated_tiers (text : string) (seen : gmap string string) (i : nat) (tiers : list TierSpec) : list Issue :=
  match tiers with
  | [] => []
  | tier :: tiers =>
      match seen !! squeeze (ts_When tier) with
      | Some first =>
          issueAt text "tier.unreachable" [("tier"%string, IssueText (ts_Label tier)); ("after"%string, IssueText first)]
            ("tier " +:+ ts_Label tier +:+ " repeats the condition of " +:+ first +:+ ", so nothing lands in it")
            [key "prefer"; PathIndex i; key "when"] :: repeated_tiers text seen (S i) tiers
      | None => repeated_tiers text (<[squeeze (ts_When tier) := ts_Label tier]> seen) (S i) tiers
      end
  end.

Definition unusedWarnings (profile : Profile) (policy : LayeredPolicy) (text : string) : list Issue :=
  let conds := all_conds policy in
  (unused_tag text <$> filter (λ name, name ∉ tags_read conds) (sorted_keys (pr_Tags profile))) ++
  (unused_check text <$> filter (λ id, id ∉ used_checks conds) (sorted_keys (pr_Checks profile))) ++
  repeated_tiers text ∅ 0 (pr_Prefer profile).

(** The rows the pool admits. *)
Definition admits (row : Ranked) : bool :=
  match rw_Excluded row with Some why => negb (HasPrefix (rs_Code why) "pool.") | None => true end.

(** The tiers a row is in, or may get into once it is checked. *)
Definition tiers_reached (row : Ranked) : list Z :=
  (if is_none (rw_Excluded row) then [rw_Tier row] else []) ++
  (if negb (empty (rw_Pending row)) then [rw_pendingTier row] else []).

Definition matchWarnings (policy : Policy) (d : Decision) (group text : string) : list Issue :=
  let admitted := filter (λ row, admits row = true) (dc_Ranking d) in
  let reached := admitted ≫= tiers_reached in
  if (length admitted =? 0)%nat && (0 <? length (dc_Ranking d))%nat then
    [issueAt text "pool.empty" [("group"%string, IssueText group)] ("the pool admits no server of " +:+ group)
       [key "pool"; key "include"]]
  else
    omap (λ '(i, tier),
      if bool_decide (Z.of_nat i ∈ reached) || ti_LastResort tier then None
      else Some (issueAt text "tier.empty" [("tier"%string, IssueText (ti_Label tier)); ("group"%string, IssueText group)]
             ("no server of " +:+ group +:+ " is in " +:+ ti_Label tier +:+ " right now")
             [key "prefer"; PathIndex (ti_Source tier); key "when"]))
      (imap pair (pl_Tiers policy)).
End warnings.

(** ** Linting a profile *)

(** [strings.SplitN(id, "/", 2)[0]]. *)
Definition before_slash (id : string) : string := (Cut id "/").1.1.

Section lint.
Context `{Unicode} `{Regexp} `{Url} `{PublicSuffix} `{IpText} `{RangeOrder} `{Netip}.
Context `{Yaml} `{YamlTree} `{ErrorText}.

Definition withDraft (lib : Library) (id : string) (profile : Profile) : Library :=
  let draft := lib_add lib id (before_slash id) (Some profile) None in
  let l10n := match lib_Resolve draft id with Ok resolved => pr_L10n resolved | Err _ => pr_L10n profile end in
  {| draft with lb_entries := alter (λ entry, {| entry with le_info := {| (le_info entry) with pi_L10n := l10n |} |})
                                id (lb_entries draft) |}.

Definition mark_endpoint (lib : Library) (e : Endpoint) : MarkedEndpoint :=
  {| me_Endpoint := e; me_ThirdParty := negb (allows (lb_builtin lib) (lb_trust lib) (ep_Host e)) |}.

(** [lib.Info(id)], its error ignored. *)
Definition info_of (lib : Library) (id : string) : ProfileInfo := default (new_info "" "" "") (LibInfo lib id).

(** Compiling, once more with the hosts allowed when only consent is
    missing: the warning that asks for it, and the policy. *)
Definition compile_draft (lib : Library) (id : string) (binding : Binding) (text : string)
    : list Issue * result profileError LayeredPolicy :=
  match Compile lib id binding with
  | Ok policy => ([], Ok policy)
  | Err e =>
      match as_consent e with
      | None => ([], Err e)
      | Some (_, hosts) =>
          ([issueOf (Invalid e) text], Compile {| lib with lb_trust := allowAll (lb_trust lib) hosts |} id binding)
      end
  end.

Definition lintIn (library : Library) (id text : string) (binding : Binding) : LintResult * option LayeredPolicy :=
  match ParseProfile text with
  | Err e => ({| no_lint with lr_Errors := [issueOf e text] |}, None)
  | Ok profile =>
      let lib := withDraft library id profile in
      let '(warnings, compiled) := compile_draft lib id binding text in
      let out := {| no_lint with lr_Profile := Some profile; lr_Info := Some (info_of lib id);
                                 lr_Endpoints := mark_endpoint lib <$> endpoints profile; lr_Warnings := warnings |} in
      match compiled with
      | Err e => ({| out with lr_Errors := [issueOf (Invalid e) text] |}, None)
      | Ok policy => ({| out with lr_Warnings := warnings ++ unusedWarnings profile policy text |}, Some policy)
      end
  end.

(** [LintProfile]: beside the built-ins and the profiles of a subscription. *)
Definition LintProfile `{Embedded} (sub : SubscriptionLayer) (id text : string) : LintResult :=
  (lintIn (fl_profiles (NewLibrary sub empty_user)) (CanonicalID id) text no_binding).1.

(** ** Linting a scenario *)

Definition withScenarioDraft (lib : FullLibrary) (id text : string) : FullLibrary :=
  addScenario lib id (before_slash id) text.

(** The conditions of a program, as texts. *)
Definition program_texts (p : Program) : list string :=
  [po_Include (pg_Pool p); po_Exclude (pg_Pool p)] ++ (ts_When <$> pg_Prefer p).

(** The closure [use]: the tags whose call is found in a condition. *)
Definition tags_found (tags : gset string) (programs : list Program) : gset string :=
  filter (λ name, existsb (λ cond, Contains cond ("tag(" +:+ name +:+ ")")) (programs ≫= program_texts) = true) tags.

(** The map [routes]: whether the last route of a name has a group of its
    own. *)
Definition own_routes (routes : list Route) : gmap string bool :=
  foldl (λ own route, <[rt_Name route := empty (pg_To (rt_Program route))]> own) ∅ routes.

Definition missing_group (text : string) (path : list PathItem) (target : string) : Issue :=
  issueAt text "group.missing" [("group"%string, IssueText target)] ("this config has no group " +:+ target)
    (path ++ [key target]).

Definition known_target (groups : list string) (own : gmap string bool) (target : string) : bool :=
  default false (own !! target) || mem_string target [MainTarget; AllTarget; GlobalTarget] || mem_string target groups.

(** The closure [missing] over one map of programs. *)
Definition missing_groups (text : string) (groups : option (list string)) (own : gmap string bool)
    (programs : gmap string Program) (path : list PathItem) : list Issue :=
  match groups with
  | None => []
  | Some groups =>
      missing_group text path <$> filter (λ target, known_target groups own target = false) (sorted_keys programs)
  end.

(** Every program of a scenario, and those of its network kinds. *)
Definition scenario_programs (s : Scenario) : list Program :=
  (rt_Program <$> sc_Routes s) ++ (map_to_list (sc_Groups s)).*2 ++
  ((map_to_list (sc_On s)).*2 ≫= λ l, (map_to_list (sl_Groups l)).*2).

Definition lint_kind_groups (text : string) (groups : option (list string)) (own : gmap string bool) (s : Scenario)
    (kind : string) : list Issue :=
  match sc_On s !! kind with
  | Some l => missing_groups text groups own (sl_Groups l) [key "on"; key kind; key "groups"]
  | None => []
  end.

Definition scenario_warnings (s : Scenario) (groups : option (list string)) (text : string) : list Issue :=
  let own := own_routes (sc_Routes s) in
  missing_groups text groups own (sc_Groups s) [key "groups"] ++
  (sorted_keys (sc_On s) ≫= lint_kind_groups text groups own s) ++
  (unused_tag text <$> filter (λ name, name ∉ tags_found (dom (sc_Tags s)) (scenario_programs s)) (sorted_keys (sc_Tags s))).

(** [Scenario.endpoints]. *)
Definition scenario_endpoints (s : Scenario) : list Endpoint := endpoints {| no_profile with pr_Network := sc_Network s |}.

Definition scenario_info (lib : FullLibrary) (id : string) : ProfileInfo :=
  default (new_info "" "" "") (se_info <$> fl_scenarios lib !! CanonicalID id).

Definition lintScenarioIn (library : FullLibrary) (id text : string) (groups : option (list string)) : LintResult :=
  match ParseScenario text with
  | Err e => {| no_lint with lr_Errors := [issueOf e text] |}
  | Ok s =>
      let lib := withScenarioDraft library id text in
      let out := {| no_lint with lr_Scenario := Some s; lr_Info := Some (scenario_info lib id);
                                 lr_Endpoints := mark_endpoint (fl_profiles lib) <$> scenario_endpoints s |} in
      match compileScenario (fl_profiles lib) id s with
      | Err e => {| out with lr_Errors := [issueOf (Invalid e) text] |}
      | Ok _ => {| out with lr_Warnings := scenario_warnings s groups text |}
      end
  end.

Definition LintScenario `{Embedded} (sub : SubscriptionLayer) (id text : string) : LintResult :=
  lintScenarioIn (NewLibrary sub empty_user) (CanonicalID id) text None.

(** ** Linting a bundle: [lintBundleIn] of core/rcx/bundle.go *)

(** The parts of a printed path: a number is an index, of which a path has
    none below zero. *)
Definition path_part (part : string) : option PathItem :=
  if empty part then None
  else Some (match Atoi part with Some n => PathIndex (Z.to_nat n) | None => PathKey part end).

(** The closure [place]: the issue in the text of the bundle. *)
Definition place (text section doc : string) (issue : Issue) : Issue :=
  let prefix := section +:+ "." +:+ doc in
  {| issue with
     is_Path := if empty (is_Path issue) then prefix else prefix +:+ "." +:+ is_Path issue;
     is_Line := locate text ([key section; key doc] ++ omap path_part (Split (is_Path issue) ".")) |}.

Definition document_text `{YamlNodes} (d : bundleDoc) : string :=
  match nodeText (bd_node d) with Ok text => text | Err _ => EmptyString end.

Definition plain_issue (message : string) : Issue :=
  {| is_Line := 0; is_Path := ""; is_Code := ""; is_Args := []; is_Message := message |}.

Definition encode_issues `{YamlNodes} (d : bundleDoc) : list Issue :=
  match nodeText (bd_node d) with Ok _ => [] | Err e => [plain_issue e] end.

(** The library with every profile of the bundle under its own name. *)
Definition bundle_library `{YamlNodes} (library : FullLibrary) (docs : list bundleDoc) : FullLibrary :=
  {| library with fl_profiles := foldl (λ lib d,
       if eqs (bd_kind d) "profile"
       then add_parsed lib (named UserSource (bd_key d)) UserSource (ParseProfile (document_text d)) else lib)
     (fl_profiles library) docs |}.

Definition lint_document `{YamlNodes} (draft : FullLibrary) (groups : option (list string)) (text : string) (d : bundleDoc)
    : LintResult :=
  let id := named UserSource (bd_key d) in
  let '(section, result) :=
    if is_scenario d then ("scenarios"%string, lintScenarioIn draft id (document_text d) groups)
    else ("profiles"%string, (lintIn (fl_profiles draft) id (document_text d) no_binding).1) in
  {| no_lint with lr_Errors := place text section (bd_key d) <$> lr_Errors result;
                  lr_Warnings := place text section (bd_key d) <$> lr_Warnings result;
                  lr_Endpoints := lr_Endpoints result |}.

Definition lintBundleIn `{YamlNodes} (library : FullLibrary) (groups : option (list string)) (text : string)
    (docs : list bundleDoc) : LintResult :=
  let results := lint_document (bundle_library library docs) groups text <$> docs in
  {| no_lint with lr_Errors := (docs ≫= encode_issues) ++ (results ≫= lr_Errors);
                  lr_Warnings := results ≫= lr_Warnings;
                  lr_Endpoints := results ≫= lr_Endpoints |}.

(** [LintBundle]: [None] when the text is no bundle. *)
Definition LintBundle `{YamlNodes} `{Embedded} (text : string) : option LintResult :=
  match readBundle text with
  | Ok (Some docs) => Some (lintBundleIn (NewLibrary empty_subscription empty_user) None text docs)
  | _ => None
  end.
End lint.
