(* ===== verification/StudioHost.v ===== *)
(** * The operations of the editor: core/rcx/studio.go and core/rcx/country.go

    The canonical layout of a document, the country picker, linting against
    the servers of a group, and the dispatch of the editor's requests. *)

From S2P Require Import Prelude GoText Cond CondSyntax Profile Policy Library Route Scenario Layers.
From S2P Require Import Evidence Journal Identity Country Decide Merge Bundle Builder Machine Studio.

(** ** The canonical layout *)

Definition flowWidth : Z := 72.

Definition with_style (n : ynode) (style : nodeStyle) (content : list ynode) : ynode :=
  let 'YNode k v l _ _ := n in YNode k v l style content.

Definition one_line (v : string) : bool := negb (has_byte (Zbyte 10) v).

(** The loop of [flowWidthOf] over the content, given the widths of the
    children: the width so far, and 0 with false when a child needs lines of
    its own. *)
Definition width_of (child_width : ynode → Z) : Z → list ynode → Z * bool :=
  fix width_of width content :=
    match content with
    | [] => (width, true)
    | child :: content =>
        if of_kind ScalarNode child && one_line (yd_Value child) then width_of (width + (slen (yd_Value child) + 4)) content
        else if is_flow child then width_of (width + (child_width child + 4)) content
        else (0, false)
    end.

Fixpoint flowWidthOf (n : ynode) : Z * bool :=
  let 'YNode _ _ _ _ content := n in width_of (λ child, (flowWidthOf child).1) 0 content.

(** Whether [compact] writes the node on one line. *)
Definition fits (n : ynode) : bool :=
  let '(width, ok) := flowWidthOf n in ok && (width <=? flowWidth).

Fixpoint compact (depth : nat) (n : ynode) : ynode :=
  let 'YNode k v l style content := n in
  let n := YNode k v l style (compact (S depth) <$> content) in
  if (depth =? 0)%nat || negb (of_kind MappingNode n || of_kind SequenceNode n) then n
  else if fits n then with_style n FlowStyle (yd_Content n) else n.

Section format.
Context `{YamlTree}.

Definition formatNode (encoded : result string ynode) : result string string :=
  n ← encoded; yaml_write (compact 0 n).
Definition FormatProfile (profile : Profile) : result string string := formatNode (yaml_of_profile profile).
Definition FormatScenario (s : Scenario) : result string string := formatNode (yaml_of_scenario s).
End format.

(** ** The country picker *)

Record CountryCount := { cc_Code : string; cc_Count : Z; cc_Verified : bool }.

(** The closure [note]. *)
Definition note_country (counts : gmap string CountryCount) (noted : string * bool) : gmap string CountryCount :=
  let '(code, verified) := noted in
  if empty code then counts
  else
    let c := default {| cc_Code := code; cc_Count := 0; cc_Verified := false |} (counts !! code) in
    <[code := {| c with cc_Count := cc_Count c + 1; cc_Verified := cc_Verified c || verified |}]> counts.

Definition count_order (a b : CountryCount) : Z := compareZ (cc_Count b) (cc_Count a).

(** The countries noted, most servers first. *)
Definition country_counts (noted : list (string * bool)) : list CountryCount :=
  let counts := foldl note_country ∅ noted in
  sort_stable count_order (omap (λ code, counts !! code) (sorted_keys counts)).

Section countries.
Context `{Unicode} `{RangeOrder} `{Yaml}.

Definition note_member (m : machine) (now : time) (member : Member) : string * bool :=
  let exit := exit_country (ed_Exits (mc_evidence m) !! mb_Key member) now in
  (or_string exit (nd_NameCountry (mb_Node member)), negb (empty exit)).

(** The map [known]: the member the last group in the order of the range
    has under the name. *)
Definition known_members (m : machine) : gmap string Member :=
  foldl (λ known g, foldl (λ known member, <[mb_Name member := member]> known) known (gs_members g))
    ∅ (range_map (mc_groups m)).*2.

Definition note_leaf (m : machine) (now : time) (name : string) : string * bool :=
  match known_members m !! name with
  | Some member => note_member m now member
  | None => (CountryOfName name, false)
  end.

Definition countries (m : machine) (group : string) (now : time) : list CountryCount :=
  country_counts
    match mc_groups m !! group with
    | Some g => if empty group then note_leaf m now <$> tp_Leaves (mc_topology m) else note_member m now <$> gs_members g
    | None => note_leaf m now <$> tp_Leaves (mc_topology m)
    end.
End countries.

(** ** Requests *)

Record StudioRequest := {
  rq_Op : string;
  rq_Kind : string;
  rq_Scenario : option Scenario;
  rq_Text : string;
  rq_ID : string;
  rq_Group : string;
  rq_Profile : option Profile;
  rq_Network : bool;
  rq_Form : option CondForm;
  rq_Base : string;
  rq_Theirs : string;
  rq_Taken : list string;
}.

(** [StudioResult]: the fields each operation fills. *)
Inductive StudioResult :=
  | LintOf (lint : LintResult) (decisions : option (Decision * Decision))  (** [Current] and [Candidate] *)
  | TextOf (text : string)
  | CondOf (cond : CondResult)
  | MergeOf (text : string) (conflicts : list string)
  | CountriesOf (countries : list CountryCount)
  | ItemsOf (items : list BundleItem).

Inductive studioError :=
  | StudioText (text : string)
  | MergeFailed (err : mergeError) (conflicts : list string)
  | NeedsDocument (kind : string)
  | UnknownOperation (kind op : string).

Definition text_result (r : result string string) : result studioError StudioResult :=
  match r with Ok text => Ok (TextOf text) | Err e => Err (StudioText e) end.

Definition merge_result (r : (string + mergeError) * list string) : result studioError StudioResult :=
  match r with
  | (inl text, conflicts) => Ok (MergeOf text conflicts)
  | (inr err, conflicts) => Err (MergeFailed err conflicts)
  end.

Section studio.
Context `{Unicode} `{Regexp} `{Url} `{PublicSuffix} `{IpText} `{RangeOrder} `{Netip}.
Context `{Yaml} `{YamlTree} `{YamlNodes} `{ErrorText} `{CondErrorText} `{Meaning} `{Documents}.

(** Forks merge three ways, and the result must parse. *)
Definition MergeProfiles (base theirs mine : string) : (string + mergeError) * list string :=
  mergeDocument base theirs mine "profile" (λ text, is_ok (ParseProfile text)).
Definition MergeScenarios (base theirs mine : string) : (string + mergeError) * list string :=
  mergeDocument base theirs mine "scenario" (λ text, is_ok (ParseScenario text)).

Definition lint_id (req : StudioRequest) : string := CanonicalID (or_string (rq_ID req) (UserSource +:+ "/" +:+ draftName)).

(** [machine.lint]: [None] is a panic. *)
Definition lint (m : machine) (req : StudioRequest) (now : time) : option (StudioResult * machine) :=
  let group := mc_groups m !! rq_Group req in
  let binding := default no_binding (gs_binding <$> group) in
  let '(out, policy) := lintIn (fl_profiles (mc_library m)) (lint_id req) (rq_Text req) binding in
  match policy, group with
  | Some policy, Some g =>
      match gs_members g with
      | [] => Some (LintOf out None, m)
      | _ =>
          lp ← gs_policy g;
          let draft := forKind policy (kd_kind (gs_kind g)) in
          let '(current, m) := decideWith m g (lp_Base lp) (active g lp) now in
          let '(candidate, m) := decideWith m g (lp_Base lp) draft now in
          let out := {| out with lr_Warnings := lr_Warnings out ++ matchWarnings draft candidate (gs_name g) (rq_Text req) |} in
          Some (LintOf out (Some (current, candidate)), m)
      end
  | _, _ => Some (LintOf out None, m)
  end.

Definition cond_request (req : StudioRequest) : CondRequest :=
  {| cr_Profile := rq_Profile req; cr_Scenario := rq_Scenario req; cr_Network := rq_Network req;
     cr_Text := rq_Text req; cr_Form := rq_Form req |}.

Definition topology_groups (m : machine) : list string := gt_Name <$> tp_Groups (mc_topology m).

Definition lintBundle (m : machine) (text : string) (docs : list bundleDoc) : LintResult :=
  lintBundleIn (mc_library m) (Some (topology_groups m)) text docs.

Definition studioScenario (m : machine) (src : Sources) (req : StudioRequest) : result studioError StudioResult :=
  let op := rq_Op req in
  if eqs op "cond" then Ok (CondOf (studioCond (cond_request req)))
  else if eqs op "lint" then
    Ok (LintOf (lintScenarioIn (mc_library m) (lint_id req) (rq_Text req) (Some (topology_groups m))) None)
  else if eqs op "format" then
    match rq_Scenario req with
    | None => Err (NeedsDocument "scenario")
    | Some s => text_result (FormatScenario s)
    end
  else if eqs op "source" then text_result (ScenarioSource src (rq_ID req))
  else if eqs op "merge" then
    merge_result (MergeScenarios (rq_Base req) (rq_Theirs req) (rq_Text req))
  else Err (UnknownOperation "scenario" op).

(** [machine.studio]. [None] is a panic, or an export out of fuel. *)
Definition studio (m : machine) (src : Sources) (req : StudioRequest) (now : time)
    : option (result studioError StudioResult * machine) :=
  let op := rq_Op req in
  if eqs op "countries" then Some (Ok (CountriesOf (countries m (rq_Group req) now)), m)
  else if eqs op "export" then
    r ← Export src (rq_ID req) (rq_Kind req); Some (text_result r, m)
  else if eqs op "unpack" then
    r ← Unpack (rq_Text req) (rq_Taken req);
    Some (match r with Ok items => Ok (ItemsOf items) | Err e => Err (StudioText e) end, m)
  else
    match (if eqs op "lint" then readBundle (rq_Text req) else Ok None) with
    | Ok (Some docs) =>
        Some (Ok (LintOf (lintBundle m (rq_Text req) docs) None), m)
    | _ =>
        if eqs (rq_Kind req) "scenario" then Some (studioScenario m src req, m)
        else if eqs op "lint" then '(out, m) ← lint m req now; Some (Ok out, m)
        else if eqs op "format" then
          Some (match rq_Profile req with
                | None => Err (NeedsDocument "profile")
                | Some profile => text_result (FormatProfile profile)
                end, m)
        else if eqs op "cond" then Some (Ok (CondOf (studioCond (cond_request req))), m)
        else if eqs op "source" then Some (text_result (so_Source src (rq_ID req)), m)
        else if eqs op "merge" then
          Some (merge_result (MergeProfiles (rq_Base req) (rq_Theirs req) (rq_Text req)), m)
        else Some (Err (UnknownOperation "studio" op), m)
    end.
End studio.
