(* ===== verification/LintFacts.v ===== *)
(** * Linting tells what saving will do

    A lint compiles the document in a draft of the library, and once more
    with the hosts allowed that only need the user's leave. Its verdict is the
    one the saved document gets. *)

From S2P Require Import Prelude GoText TextFacts Cond CondSyntax Profile Policy Library LibraryFacts Route Scenario Layers.
From S2P Require Import Evidence Journal Identity Decide Merge Bundle Machine Studio.

(** ** Libraries of the same documents *)

(** What compiling reads of an entry: its source, its fault, its profile. *)
Definition doc_of (e : libraryEntry) : string * string * option Profile :=
  (pi_Source (le_info e), pi_Error (le_info e), le_profile e).

Definition same_docs (lib lib' : Library) : Prop :=
  doc_of <$> lb_entries lib = doc_of <$> lb_entries lib' ∧ lb_builtin lib = lb_builtin lib'.

#[export] Instance same_docs_equivalence : Equivalence same_docs.
Proof. split; [by split | by intros ?? []; split | by intros ??? [??] [??]; split; etrans]. Qed.

Lemma same_docs_trust lib t : same_docs {| lib with lb_trust := t |} lib.
Proof. by split. Qed.

Lemma same_docs_lookup lib lib' id : same_docs lib lib' →
  doc_of <$> lb_entries lib !! id = doc_of <$> lb_entries lib' !! id.
Proof. intros [He _]. by rewrite <- !lookup_fmap, He. Qed.

Definition view (chain : list (libraryEntry * Profile)) : list ((string * string * option Profile) * Profile) :=
  (λ p, (doc_of p.1, p.2)) <$> chain.

Definition viewed (r : result profileError (list (libraryEntry * Profile))) :
    result profileError (list ((string * string * option Profile) * Profile)) := view <$> r.

Section compile.
Context `{Unicode} `{Regexp} `{Url} `{PublicSuffix} `{IpText} `{RangeOrder}.

Lemma chain_from_same lib lib' id fuel : same_docs lib lib' → ∀ chain chain' seen current, view chain = view chain' →
  viewed <$> chain_from fuel lib id chain seen current = viewed <$> chain_from fuel lib' id chain' seen current.
Proof.
  intros Hs. induction fuel as [|fuel IH]; intros chain chain' seen current Hv; [done|]. cbn [chain_from].
  assert (length chain = length chain') as -> by (pose proof (f_equal length Hv) as E; unfold view in E; by rewrite !length_fmap in E).
  case_if; [change (Some (Ok (E := profileError) (view chain)) = Some (Ok (view chain'))); by rewrite Hv|]. case_bool_decide; [done|]. case_if; [done|].
  pose proof (same_docs_lookup lib lib' current Hs) as He.
  destruct (lb_entries lib !! current) as [e|], (lb_entries lib' !! current) as [e'|]; try done. cbn in He. injection He as E1 E2 E3.
  rewrite E3, E2. destruct (le_profile e') as [p|] eqn:Ep; [|done]. apply IH. unfold view. rewrite !fmap_app.
  unfold view in Hv. rewrite Hv. cbn. unfold doc_of. by rewrite E1, E2, E3, Ep.
Qed.

Lemma lib_chain_same lib lib' id : same_docs lib lib' → viewed (lib_chain lib id) = viewed (lib_chain lib' id).
Proof.
  intros Hs. unfold lib_chain. pose proof (chain_from_same lib lib' (CanonicalID id) chain_fuel Hs [] [] ∅ (CanonicalID id) eq_refl) as Hc.
  destruct (chain_from _ lib _ _ _ _) as [r|], (chain_from _ lib' _ _ _ _) as [r'|]; try done. by injection Hc.
Qed.

Lemma merge_chain_view chain chain' : view chain = view chain' → merge_chain chain = merge_chain chain'.
Proof.
  intros Hv. unfold merge_chain. f_equal. rewrite !(map_rev snd : ∀ l, (rev l).*2 = rev (l.*2)). f_equal.
  pose proof (f_equal (fmap snd) Hv) as E. unfold view in E. by rewrite <- !list_fmap_compose in E.
Qed.

Lemma lib_Resolve_same lib lib' id : same_docs lib lib' → lib_Resolve lib id = lib_Resolve lib' id.
Proof.
  intros Hs. unfold lib_Resolve. pose proof (lib_chain_same lib lib' id Hs) as Hc.
  destruct (lib_chain lib id) as [c|e], (lib_chain lib' id) as [c'|e']; cbn in *; try discriminate Hc; [|congruence].
  injection Hc as Hc. by rewrite (merge_chain_view c c').
Qed.

(** ** Compiling in two steps around consent *)

(** Before consent is asked: the resolved profile, with the binding's order. *)
Definition to_compile (lib : Library) (id : string) (binding : Binding) : result profileError Profile :=
  profile ← lib_Resolve lib id;
  refuse (maxTiers <? length (binding_order binding))%nat
    (atPath (Errorf "more than %d preference tiers" []) [key "prefer"]) ;;
  Ok match binding_order binding with
     | [] => profile
     | _ => mergeProfile profile {| no_profile with pr_Prefer := binding_order binding |}
     end.

(** After it. *)
Definition compile_resolved (id : string) (binding : Binding) (profile : Profile) : result profileError LayeredPolicy :=
  let overlay := binding_overlay binding in
  validate overlay ;;
  policy ← compileProfile (CanonicalID id) (mergeProfile profile overlay);
  let policy := {| policy with pl_Fixed := bi_fixed binding |} in
  on ← collect (λ _ kind, compileOn id binding profile overlay policy kind) 0 (sorted_keys (pr_On profile));
  Ok {| lp_Base := policy; lp_On := list_to_map on |}.

Lemma Compile_steps lib id binding :
  Compile lib id binding = (profile ← to_compile lib id binding; consent lib id ;; compile_resolved id binding profile).
Proof.
  unfold Compile, to_compile. destruct (lib_Resolve lib id) as [p|e]; [|done]. cbn [mbind result_bind].
  by destruct (refuse _ _).
Qed.

(** The hosts a library would have to be allowed. *)
Definition hosts_needed (lib : Library) (id : string) : gset string :=
  match lib_chain lib id with Ok chain => consent_hosts lib chain | Err _ => ∅ end.

Lemma to_compile_same lib lib' id binding : same_docs lib lib' → to_compile lib id binding = to_compile lib' id binding.
Proof. intros Hs. unfold to_compile. by rewrite (lib_Resolve_same lib lib'). Qed.

Lemma to_compile_chain lib id binding p : to_compile lib id binding = Ok p → is_ok (lib_chain lib id) = true.
Proof. unfold to_compile, lib_Resolve. by destruct (lib_chain lib id). Qed.

Lemma consent_hosts_view lib lib' c c' : lb_builtin lib = lb_builtin lib' → lb_trust lib = lb_trust lib' → view c = view c' →
  consent_hosts lib c = consent_hosts lib' c'.
Proof.
  intros Hb Ht. unfold consent_hosts. rewrite Hb, Ht. intros Hv. do 3 f_equal.
  revert c' Hv. induction c as [|[e p] c IH]; intros [|[e' p'] c'] Hv; try done. unfold view in Hv. rewrite !fmap_cons in Hv.
  injection Hv as E1 E2 E3 E4 Hv. rewrite !filter_cons. cbn [fst] in *. rewrite E1.
  case_decide; [rewrite !bind_cons; cbn [snd] in *; rewrite E4; f_equal|]; by apply IH.
Qed.

Lemma consent_same lib lib' id : same_docs lib lib' → lb_trust lib = lb_trust lib' → consent lib id = consent lib' id.
Proof.
  intros Hs Ht. unfold consent. pose proof (lib_chain_same lib lib' id Hs) as Hc. unfold viewed in Hc.
  destruct (lib_chain lib id) as [c|], (lib_chain lib' id) as [c'|]; cbn in Hc |- *; try discriminate Hc; [|congruence].
  injection Hc as Hc. by rewrite (consent_hosts_view lib lib' c c') by (done || apply Hs).
Qed.

(** Libraries of the same documents and the same trust compile alike. *)
Lemma Compile_same lib lib' id binding : same_docs lib lib' → lb_trust lib = lb_trust lib' →
  Compile lib id binding = Compile lib' id binding.
Proof. intros Hs Ht. by rewrite !Compile_steps, (to_compile_same lib lib'), (consent_same lib lib'). Qed.
End compile.

(** ** The verdict *)

#[local] Arguments Compile : simpl never.
#[local] Arguments unusedWarnings : simpl never.

Section verdict.
Context `{Unicode} `{Regexp} `{Url} `{PublicSuffix} `{IpText} `{RangeOrder} `{Netip}.
Context `{Yaml} `{YamlTree} `{ErrorText}.

Definition with_trust (lib : Library) (hosts : list string) : Library := {| lib with lb_trust := allowAll (lb_trust lib) hosts |}.

Lemma consent_hosts_allowed lib c hosts host :
  host ∈ consent_hosts (with_trust lib hosts) c ↔ host ∈ consent_hosts lib c ∧ host ∉ hosts.
Proof.
  unfold consent_hosts. rewrite !elem_of_list_to_set, !list_elem_of_filter. unfold allows. cbn.
  rewrite !negb_True, !orb_True, !bool_decide_spec, elem_of_union, elem_of_list_to_set. tauto.
Qed.

(** Leave for some hosts is all the trust of a library changes. *)
Lemma Compile_allowed lib id binding hosts p :
  Compile (with_trust lib hosts) id binding = Ok p ↔
  (profile ← to_compile lib id binding; compile_resolved id binding profile) = Ok p ∧
  (∀ host, host ∈ hosts_needed lib id → host ∈ hosts).
Proof.
  rewrite Compile_steps. rewrite (to_compile_same (with_trust lib hosts) lib) by apply same_docs_trust.
  destruct (to_compile lib id binding) as [profile|e] eqn:Et; cbn [mbind result_bind]; [|naive_solver].
  apply to_compile_chain in Et. unfold consent, hosts_needed.
  pose proof (lib_chain_same (with_trust lib hosts) lib id (same_docs_trust _ _)) as Hc. unfold viewed in Hc.
  destruct (lib_chain lib id) as [c|]; [|done]. destruct (lib_chain (with_trust lib hosts) id) as [c'|]; [|done].
  cbn [fmap result_fmap] in Hc. injection Hc as Hc. cbn [mbind result_bind].
  rewrite (consent_hosts_view _ (with_trust lib hosts) c' c) by done. case_decide as Ee; cbn [mbind result_bind].
  - split; [|by intros []]. intros Hp. split; [done|]. intros host Hh.
    destruct (decide (host ∈ hosts)); [done|]. assert (host ∈ consent_hosts (with_trust lib hosts) c) by by apply consent_hosts_allowed.
    set_solver.
  - split; [done|]. intros [_ Hh]. destruct Ee. apply set_eq. intros host. rewrite consent_hosts_allowed. set_solver.
Qed.

Lemma with_trust_nil lib : with_trust lib [] = lib.
Proof. destruct lib as [es [sites allowed] b]. unfold with_trust, allowAll. cbn. do 2 f_equal. set_solver. Qed.

Lemma Compile_plain lib id binding p :
  Compile lib id binding = Ok p ↔
  (profile ← to_compile lib id binding; compile_resolved id binding profile) = Ok p ∧ hosts_needed lib id = ∅.
Proof. rewrite <- (with_trust_nil lib) at 1. rewrite Compile_allowed. set_solver. Qed.

(** The warning that asks for leave. *)
Definition consent_warning (id : string) (hosts : list string) (text : string) : list Issue :=
  match hosts with [] => [] | _ => [issueOf (Invalid (ConsentError (CanonicalID id) hosts)) text] end.

Definition needed (lib : Library) (id : string) : list string := sorted_strings (elements (hosts_needed lib id)).

Lemma elem_of_needed lib id host : host ∈ needed lib id ↔ host ∈ hosts_needed lib id.
Proof. unfold needed, sorted_strings. by rewrite elem_of_sort_stable, elem_of_elements. Qed.

Lemma compile_draft_Ok lib id binding text p :
  (profile ← to_compile lib id binding; compile_resolved id binding profile) = Ok p →
  compile_draft lib id binding text = (consent_warning id (needed lib id) text, Ok p).
Proof.
  intros Hp. unfold compile_draft. destruct (decide (hosts_needed lib id = ∅)) as [He|He].
  - rewrite (proj2 (Compile_plain lib id binding p)) by done. unfold needed. by rewrite He.
  - assert (Hc : Compile lib id binding = Err (ConsentError (CanonicalID id) (needed lib id))).
    { rewrite Compile_steps. destruct (to_compile lib id binding) as [profile|] eqn:Et; [|done]. cbn [mbind result_bind].
      apply to_compile_chain in Et. unfold consent, needed, hosts_needed in *. destruct (lib_chain lib id) as [c|]; [|done].
      cbn [mbind result_bind]. by rewrite decide_False. }
    rewrite Hc. cbn [as_consent]. f_equal.
    + unfold consent_warning. destruct (needed lib id) eqn:En; [|done]. destruct He. apply set_eq. intros h.
      by rewrite <- elem_of_needed, En, elem_of_nil, elem_of_empty.
    + apply (Compile_allowed lib id binding (needed lib id)). split; [done|]. intros h. by rewrite elem_of_needed.
Qed.

Lemma compile_draft_Err lib id binding text e :
  (profile ← to_compile lib id binding; compile_resolved id binding profile) = Err e →
  ∃ e', (compile_draft lib id binding text).2 = Err e'.
Proof.
  intros He. unfold compile_draft. destruct (Compile lib id binding) as [p|e1] eqn:E1.
  - apply Compile_plain in E1 as [E1 _]. congruence.
  - destruct (as_consent e1) as [[? hosts]|]; [|by exists e1].
    fold (with_trust lib hosts). cbn [snd]. destruct (Compile (with_trust lib hosts) id binding) as [p|e2] eqn:E2; [|by exists e2].
    apply Compile_allowed in E2 as [E2 _]. congruence.
Qed.

Lemma unused_codes profile policy text :
  filter (λ i, is_Code i = "profile.consent"%string) (unusedWarnings profile policy text) = [].
Proof.
  apply list_filter_none. intros i Hi. unfold unusedWarnings in Hi. rewrite !elem_of_app, !list_elem_of_fmap in Hi.
  destruct Hi as [(? & -> & _)|[(? & -> & _)|Hi]]; try done. revert Hi.
  generalize (∅ : gmap string string), 0%nat. induction (pr_Prefer profile) as [|t ts IH]; intros seen n; cbn; [by intros ?%elem_of_nil|].
  case_match; [|by apply IH]. intros [->|Hi]%elem_of_cons; [done | by eapply IH].
Qed.

(** The library with the text saved under the id. *)
Definition saved (lib : Library) (id text : string) : Library := add_parsed lib id (before_slash id) (ParseProfile text).

Lemma withDraft_same lib id profile :
  same_docs (withDraft lib id profile) (lib_add lib id (before_slash id) (Some profile) None) ∧
  lb_trust (withDraft lib id profile) = lb_trust lib.
Proof.
  split; [|done]. split; [|done]. unfold withDraft. cbn zeta. generalize (lib_add lib id (before_slash id) (Some profile) None) as d.
  intros d. cbn [lb_entries]. apply map_eq. intros k. rewrite !lookup_fmap. destruct (decide (k = id)) as [->|Hk].
  - rewrite lookup_alter_eq. by destruct (lb_entries d !! id).
  - by rewrite lookup_alter_ne.
Qed.

(** A text that does not parse compiles under no trust. *)
Lemma saved_broken lib id text e hosts binding : CanonicalID id = id → id ≠ ""%string → ParseProfile text = Err e →
  is_ok (Compile (with_trust (saved lib id text) hosts) id binding) = false.
Proof.
  intros Hid Hne He. rewrite Compile_steps. unfold to_compile, lib_Resolve.
  assert (∃ err, lib_chain (with_trust (saved lib id text) hosts) id = Err err) as [err ->]; [|done].
  unfold lib_chain, chain_fuel. rewrite Hid. change (maxExtendsDepth + 2)%nat with (S (S maxExtendsDepth)). cbn [chain_from].
  destruct (empty id) eqn:Ei; [by destruct id|]. rewrite bool_decide_eq_false_2 by set_solver.
  case_if; [by eexists|]. unfold saved. rewrite He. cbn. rewrite lookup_insert_eq. by eexists.
Qed.

(** *** Saving a profile of the user *)

Definition add_text (src : string) (lib : Library) (doc : string * string) : Library :=
  let '(name, text) := doc in add_parsed lib (named src name) src (ParseProfile text).

Lemma add_parsed_entries id src r : ∃ e, ∀ lib, lb_entries (add_parsed lib id src r) = <[id := e]> (lb_entries lib).
Proof. destruct r; eexists; intros lib; reflexivity. Qed.

Lemma add_text_other src lib d d' : d.1 ≠ d'.1 →
  lb_entries (add_text src (add_text src lib d) d') = lb_entries (add_text src (add_text src lib d') d).
Proof.
  destruct d as [n t], d' as [n' t']. cbn [fst]. intros Hne. unfold add_text. destruct (add_parsed_entries (named src n) src (ParseProfile t)) as [e He].
  destruct (add_parsed_entries (named src n') src (ParseProfile t')) as [e' He']. rewrite !He, !He', !He. apply insert_insert_ne.
  unfold named. intros E. apply Hne. by apply (inj (String.append src)), (inj (String.append (String (ascii_of_nat 47) EmptyString))) in E.
Qed.

Lemma add_text_same src lib d d' : d.1 = d'.1 →
  lb_entries (add_text src (add_text src lib d) d') = lb_entries (add_text src lib d').
Proof.
  destruct d as [n t], d' as [n' t']. cbn [fst]. intros He. unfold add_text. destruct (add_parsed_entries (named src n) src (ParseProfile t)) as [e Hd].
  destruct (add_parsed_entries (named src n') src (ParseProfile t')) as [e' Hd']. rewrite !Hd', !Hd, He. apply insert_insert_eq.
Qed.

Lemma add_text_entries src lib lib' d : lb_entries lib = lb_entries lib' → lb_entries (add_text src lib d) = lb_entries (add_text src lib' d).
Proof. destruct d as [n t]. intros Hl. unfold add_text. destruct (add_parsed_entries (named src n) src (ParseProfile t)) as [e He]. by rewrite !He, Hl. Qed.

Lemma add_texts_entries src docs lib lib' : lb_entries lib = lb_entries lib' →
  lb_entries (foldl (add_text src) lib docs) = lb_entries (foldl (add_text src) lib' docs).
Proof. revert lib lib'. induction docs as [|d docs IH]; intros lib lib' Hl; [done|]. cbn [foldl]. by apply IH, add_text_entries. Qed.

(** Documents of distinct names are added in any order. *)
Lemma add_texts_perm src docs docs' : docs ≡ₚ docs' → NoDup docs.*1 → ∀ lib,
  lb_entries (foldl (add_text src) lib docs) = lb_entries (foldl (add_text src) lib docs').
Proof.
  induction 1 as [|d docs docs' Hp IH|d d' docs|l1 l2 l3 H12 IH12 H23 IH23]; intros Hnd lib; [done|..].
  - cbn [foldl]. apply IH. by apply NoDup_cons in Hnd as [_ Hnd].
  - cbn [foldl]. apply add_texts_entries, add_text_other. rewrite !fmap_cons in Hnd. apply NoDup_cons in Hnd as [Hnd _]. set_solver.
  - rewrite IH12 by done. apply IH23. by rewrite <- H12.
Qed.

Lemma NoDup_range (m : gmap string string) : NoDup (range_map m).*1.
Proof. rewrite range_map_perm. apply NoDup_fst_map_to_list. Qed.

(** One more document of the user, or another text of one. *)
Lemma add_texts_insert src lib (m : gmap string string) name text :
  lb_entries (foldl (add_text src) lib (range_map (<[name := text]> m))) =
  lb_entries (add_text src (foldl (add_text src) lib (range_map m)) (name, text)).
Proof.
  assert (Hl : range_map (<[name := text]> m) ≡ₚ map_to_list (delete name m) ++ [(name, text)]).
  { rewrite range_map_perm, <- insert_delete_eq, map_to_list_insert by apply lookup_delete_eq. by rewrite (Permutation_app_comm _ [_]). }
  rewrite (add_texts_perm src _ _ Hl) by apply NoDup_range. rewrite foldl_app. cbn [foldl].
  destruct (m !! name) as [old|] eqn:Em.
  - assert (Hm : range_map m ≡ₚ map_to_list (delete name m) ++ [(name, old)]).
    { rewrite range_map_perm. rewrite <- (insert_delete_id m name old Em) at 1.
      rewrite map_to_list_insert by apply lookup_delete_eq. by rewrite (Permutation_app_comm _ [_]). }
    rewrite (add_text_entries _ (foldl _ _ (range_map m)) _ _ (add_texts_perm src _ _ Hm (NoDup_range m) lib)).
    rewrite foldl_app. cbn [foldl]. by rewrite add_text_same.
  - rewrite delete_id by done. apply add_text_entries, add_texts_perm; [by rewrite range_map_perm|]. apply NoDup_fst_map_to_list.
Qed.
Context `{Embedded}.

(** The user with one more profile, or another text of one. *)
Definition save_profile (user : UserLayer) (name text : string) : UserLayer :=
  {| user with ul_Profiles := <[name := text]> (ul_Profiles user) |}.

Lemma addScenario_profiles lib id src data : fl_profiles (addScenario lib id src data) = fl_profiles lib.
Proof. done. Qed.

Lemma foldl_profiles {A} (f : FullLibrary → A → FullLibrary) l lib : (∀ lib a, fl_profiles (f lib a) = fl_profiles lib) →
  fl_profiles (foldl f lib l) = fl_profiles lib.
Proof. intros Hf. revert lib. induction l as [|a l IH]; intros lib; [done|]. cbn [foldl]. by rewrite IH. Qed.

Lemma loadScenarios_profiles lib sub user : fl_profiles (loadScenarios lib sub user) = fl_profiles lib.
Proof.
  unfold loadScenarios. rewrite !foldl_profiles; [done|..].
  - by intros lib' [].
  - intros lib' []. by case_match.
  - by intros lib' [].
Qed.

Lemma add_parsed_rest lib id src r : lb_trust (add_parsed lib id src r) = lb_trust lib ∧ lb_builtin (add_parsed lib id src r) = lb_builtin lib.
Proof. by destruct r. Qed.

Lemma foldl_rest {A} (f : Library → A → Library) l lib :
  (∀ lib a, lb_trust (f lib a) = lb_trust lib ∧ lb_builtin (f lib a) = lb_builtin lib) →
  lb_trust (foldl f lib l) = lb_trust lib ∧ lb_builtin (foldl f lib l) = lb_builtin lib.
Proof.
  intros Hf. revert lib. induction l as [|a l IH]; intros lib; [done|]. cbn [foldl]. destruct (IH (f lib a)), (Hf lib a). split; congruence.
Qed.

Lemma load_profiles_rest lib sub user :
  lb_trust (load_profiles lib sub user) = lb_trust lib ∧ lb_builtin (load_profiles lib sub user) = lb_builtin lib.
Proof.
  unfold load_profiles. cbn zeta.
  assert (Hf : ∀ {A} (id src : string → string) (r : A → result loadError Profile) l lib0,
    let lib1 := foldl (λ lib '(name, a), add_parsed lib (id name) (src name) (r a)) lib0 l in
    lb_trust lib1 = lb_trust lib0 ∧ lb_builtin lib1 = lb_builtin lib0).
  { intros A id src r l lib0. apply foldl_rest. intros ? []. apply add_parsed_rest. }
  split; (etrans; [apply (Hf _ (named UserSource) (λ _, UserSource))|]);
    (etrans; [apply (Hf _ (named SubscriptionSource) (λ _, SubscriptionSource))|]);
    apply (Hf _ (named BuiltinSource) (λ _, BuiltinSource)).
Qed.

Lemma finish_entry_doc lib id e : doc_of (finish_entry lib id e) = doc_of e.
Proof. unfold finish_entry. destruct (le_profile e) eqn:E; [|done]. cbn. unfold doc_of. by repeat case_match; cbn; rewrite E. Qed.

(** The library the engine builds after the user saves a profile is, for
    compiling, the one it has with that text added. *)
Lemma saved_library sub user name text :
  let lib' := fl_profiles (NewLibrary sub (save_profile user name text)) in
  let lib := saved (fl_profiles (NewLibrary sub user)) (named UserSource name) text in
  same_docs lib' lib ∧ lb_trust lib' = lb_trust lib.
Proof.
  cbn zeta. unfold NewLibrary at 1. rewrite loadScenarios_profiles. cbn [fl_profiles].
  unfold saved, NewLibrary. rewrite loadScenarios_profiles. cbn [fl_profiles].
  set (lib0 := {| lb_entries := ∅; lb_trust := _; lb_builtin := _ |}).
  change {| lb_entries := ∅; lb_trust := newTrust (ul_ProviderHosts (save_profile user name text)) (ul_Trusted (save_profile user name text));
            lb_builtin := builtin_parsed |} with lib0.
  change (before_slash (named UserSource name)) with UserSource.
  set (l' := load_profiles lib0 sub (save_profile user name text)). set (l := load_profiles lib0 sub user).
  destruct (load_profiles_rest lib0 sub user) as [Ht Hb], (load_profiles_rest lib0 sub (save_profile user name text)) as [Ht' Hb'].
  fold l in Ht, Hb. fold l' in Ht', Hb'.
  assert (He : lb_entries l' = lb_entries (add_text UserSource l (name, text))).
  { unfold l', l, load_profiles. exact (add_texts_insert UserSource _ (ul_Profiles user) name text). }
  destruct (add_parsed_entries (named UserSource name) UserSource (ParseProfile text)) as [e Hadd].
  split; [split|].
  - rewrite Hadd. cbn [lb_entries]. rewrite He. unfold add_text. cbn [fst snd]. rewrite Hadd. apply map_eq. intros k.
    rewrite !lookup_fmap, map_lookup_imap. destruct (decide (k = named UserSource name)) as [->|Hk].
    + rewrite !lookup_insert_eq. cbn. by rewrite finish_entry_doc.
    + rewrite !lookup_insert_ne by done. rewrite map_lookup_imap. destruct (lb_entries l !! k); cbn; by rewrite ?finish_entry_doc.
  - cbn [lb_builtin]. rewrite (proj2 (add_parsed_rest _ _ _ _)). cbn [lb_builtin]. congruence.
  - unfold NewLibrary. rewrite loadScenarios_profiles, (proj1 (add_parsed_rest _ _ _ _)). exact (eq_trans Ht' (eq_sym Ht)).
Qed.
(** What a lint finds of a text to be saved under an id. *)
Lemma lintIn_verdict lib id text binding : CanonicalID id = id → id ≠ ""%string →
  let out := (lintIn lib id text binding).1 in
  let policy := (lintIn lib id text binding).2 in
  let compiled hosts := Compile (with_trust (saved lib id text) hosts) id binding in
  (lr_Errors out = [] ↔ is_Some policy) ∧
  (∀ p, policy = Some p ↔ ∃ hosts, compiled hosts = Ok p) ∧
  (is_Some policy → ∃ hosts,
     filter (λ i, is_Code i = "profile.consent"%string) (lr_Warnings out) = consent_warning id hosts text ∧
     ∀ allowed, is_ok (compiled allowed) = true ↔ ∀ host, host ∈ hosts → host ∈ allowed).
Proof.
  intros Hid Hne. cbn zeta. unfold lintIn. destruct (ParseProfile text) as [profile|e] eqn:Ep.
  2: { cbn. split_and!; [by split; [|intros []]| |by intros []]. intros p. split; [done|]. intros [hosts Hc].
       pose proof (saved_broken lib id text e hosts binding Hid Hne Ep) as Hb. by rewrite Hc in Hb. }
  destruct (withDraft_same lib id profile) as [Hs Ht]. set (draft := withDraft lib id profile) in *.
  assert (Hsaved : ∀ hosts, Compile (with_trust (saved lib id text) hosts) id binding = Compile (with_trust draft hosts) id binding).
  { intros hosts. apply Compile_same; [|cbn; unfold saved; rewrite Ep; done].
    etrans; [apply same_docs_trust|]. unfold saved. rewrite Ep. cbn. etrans; [|symmetry; apply same_docs_trust]. by symmetry. }
  destruct (profile ← to_compile draft id binding; compile_resolved id binding profile) as [p|e] eqn:Er.
  - rewrite (compile_draft_Ok draft id binding text p Er). cbn. split_and!; [done| |].
    + intros p'. split; [intros [= <-]|intros [hosts Hc]].
      * exists (needed draft id). rewrite Hsaved, Compile_allowed. split; [done|]. intros h. by rewrite elem_of_needed.
      * rewrite Hsaved, Compile_allowed in Hc. destruct Hc as [Hc _]. congruence.
    + intros _. exists (needed draft id). split.
      * rewrite filter_app, unused_codes, app_nil_r. unfold consent_warning. by destruct (needed draft id).
      * intros allowed. rewrite Hsaved. setoid_rewrite elem_of_needed. split.
        -- destruct (Compile _ _ _) as [p'|] eqn:Ec; [|done]. by apply Compile_allowed in Ec as [_ Ec].
        -- intros Hh. assert (Compile (with_trust draft allowed) id binding = Ok p) as ->; [|done]. by apply Compile_allowed.
  - destruct (compile_draft_Err draft id binding text e Er) as [e' He']. destruct (compile_draft draft id binding text) as [ws r]. cbn in He'. subst r.
    cbn. split_and!; [by split; [|intros []]| |by intros []]. intros p'. split; [done|]. intros [hosts Hc].
    rewrite Hsaved, Compile_allowed in Hc. destruct Hc as [Hc _]. congruence.
Qed.

(** C15: linting a profile tells what saving it will do. The lint of a text
    for a profile of the user finds no error exactly when the library the
    engine builds once the text is saved compiles it, given leave for some
    hosts; and it returns the very policy the group will run. It asks for
    leave exactly when leave is missing, and names exactly the hosts that are
    needed: the saved profile compiles when all of those are allowed and not
    otherwise. *)
Theorem lint_verdict sub user name text binding :
  let id := named UserSource name in
  CanonicalID id = id →
  let lint := lintIn (fl_profiles (NewLibrary sub user)) id text binding in
  let after := fl_profiles (NewLibrary sub (save_profile user name text)) in
  let compiled hosts := Compile (with_trust after hosts) id binding in
  (lr_Errors lint.1 = [] ↔ is_Some lint.2) ∧
  (∀ p, lint.2 = Some p ↔ ∃ hosts, compiled hosts = Ok p) ∧
  (is_Some lint.2 → ∃ hosts,
     filter (λ i, is_Code i = "profile.consent"%string) (lr_Warnings lint.1) = consent_warning id hosts text ∧
     ∀ allowed, is_ok (compiled allowed) = true ↔ ∀ host, host ∈ hosts → host ∈ allowed).
Proof.
  cbn zeta. intros Hid. destruct (saved_library sub user name text) as [Hs Ht].
  assert (Hc : ∀ hosts, Compile (with_trust (fl_profiles (NewLibrary sub (save_profile user name text))) hosts) (named UserSource name) binding =
    Compile (with_trust (saved (fl_profiles (NewLibrary sub user)) (named UserSource name) text) hosts) (named UserSource name) binding).
  { intros hosts. apply Compile_same; [|unfold with_trust; cbn [lb_trust]; by rewrite Ht]. etrans; [apply same_docs_trust|].
    etrans; [exact Hs|]. symmetry. apply same_docs_trust. }
  setoid_rewrite Hc. by apply lintIn_verdict.
Qed.
End verdict.
