(* ===== verification/StudioFacts.v ===== *)
(** * What the editor's warnings mean *)

From S2P Require Import Prelude GoText TextFacts Cond CondSyntax Profile Policy Library LibraryFacts PolicyFacts Route Scenario Layers.
From S2P Require Import Evidence Journal Identity Decide Merge Bundle Machine Studio.

(** ** Conditions that do not read a tag or a check *)

Section reads.
Context `{Unicode} `{Regexp}.

Lemma walk_items (P : condNode → Prop) items : (∀ m, m ∈ concat (List.map walk_node items) → P m) →
  Forall (λ n, ∀ m, m ∈ walk_node n → P m) items.
Proof.
  intros Hm. apply Forall_forall. intros n Hn m Hin. apply Hm. apply list_elem_of_In, in_concat. exists (walk_node n).
  split; apply list_elem_of_In; [|done]. by apply (list_elem_of_fmap_2 walk_node).
Qed.

(** Two subjects every leaf of a condition reads alike. *)
Lemma eval_leaves s s' n : (∀ m, m ∈ walk_node n → match m with andNode _ | orNode _ | notNode _ => True | _ => eval s m = eval s' m end) →
  eval s n = eval s' n.
Proof.
  induction n as [items IH|items IH|item IH| | | | | |] using condNode_nested_ind; intros Hm;
    try (exact (Hm _ (list_elem_of_here _ _))).
  1,2: cbn; f_equal; assert (Hi := walk_items _ items (λ m Hin, Hm m (list_elem_of_further _ _ _ Hin))); clear Hm;
    induction IH as [|n items Hn _ IHl]; [done|]; apply Forall_cons in Hi as [Hi His]; cbn; f_equal; auto.
  cbn. f_equal. apply IH. intros m Hin. apply Hm. by right.
Qed.

Lemma elem_of_tags_read conds t : t ∈ tags_read conds ↔ ∃ c, c ∈ conds ∧ tagNode t ∈ walk c.
Proof.
  unfold tags_read. rewrite elem_of_list_to_set, list_elem_of_omap. split.
  - intros (n & Hn & Ht). destruct n; try done. injection Ht as ->. apply list_elem_of_bind in Hn as (c & Hn & Hc). by exists c.
  - intros (c & Hc & Ht). exists (tagNode t). split; [|done]. apply list_elem_of_bind. by exists c.
Qed.

Lemma elem_of_used_checks conds id : id ∈ used_checks conds ↔ ∃ c pass, c ∈ conds ∧ checkNode id pass ∈ walk c.
Proof.
  unfold used_checks. rewrite elem_of_list_to_set, list_elem_of_omap. split.
  - intros (n & Hn & Ht). destruct n as [| | | | |check pass| | |]; try done. injection Ht as ->. apply list_elem_of_bind in Hn as (c & Hn & Hc). by exists c, pass.
  - intros (c & pass & Hc & Ht). exists (checkNode id pass). split; [|done]. apply list_elem_of_bind. by exists c.
Qed.

Lemma Test_tag c t s tags : tagNode t ∉ walk c → (∀ t', t' ≠ t → t' ∈ tags ↔ t' ∈ sj_Tags s) →
  Test c {| s with sj_Tags := tags |} = Test c s.
Proof.
  destruct c as [c|]; [|done]. cbn. intros Ht Hs. apply eval_leaves. intros m Hm. destruct m as [| | | |t'| | | |]; try done.
  cbn. f_equal. apply bool_decide_ext, Hs. intros ->. done.
Qed.

Lemma Test_check c id s checks : (∀ pass, checkNode id pass ∉ walk c) → (∀ id', id' ≠ id → checks !! id' = sj_Checks s !! id') →
  Test c {| s with sj_Checks := checks |} = Test c s.
Proof.
  destruct c as [c|]; [|done]. cbn. intros Ht Hs. apply eval_leaves. intros m Hm. destruct m as [| | | | |id' pass| | |]; try done.
  cbn. unfold checkNode_eval. cbn. rewrite Hs; [done|]. intros ->. by eapply Ht.
Qed.
End reads.

(** ** Unused tags and checks *)

Section unused.
Context `{Unicode} `{Regexp} `{Url} `{PublicSuffix} `{IpText} `{RangeOrder} `{Netip}.
Context `{Yaml} `{YamlTree} `{ErrorText}.

Definition has_code (code : string) (i : Issue) : Prop := is_Code i = code.

Lemma tier_issues text tiers : ∀ seen n i, i ∈ repeated_tiers text seen n tiers → has_code "tier.unreachable" i.
Proof.
  induction tiers as [|t ts IH]; intros seen n i; cbn; [by intros ?%elem_of_nil|].
  case_match; [|apply IH]. intros [->|Hi]%elem_of_cons; [done | by eapply IH].
Qed.

Lemma elem_of_unused profile policy text i : i ∈ unusedWarnings profile policy text ↔
  (∃ t, i = unused_tag text t ∧ is_Some (pr_Tags profile !! t) ∧ ∀ c, c ∈ all_conds policy → tagNode t ∉ walk c) ∨
  (∃ id, i = unused_check text id ∧ is_Some (pr_Checks profile !! id) ∧ ∀ c pass, c ∈ all_conds policy → checkNode id pass ∉ walk c) ∨
  i ∈ repeated_tiers text ∅ 0 (pr_Prefer profile).
Proof.
  unfold unusedWarnings. rewrite !elem_of_app, !list_elem_of_fmap.
  setoid_rewrite list_elem_of_filter. setoid_rewrite elem_of_sorted_keys. setoid_rewrite elem_of_tags_read. setoid_rewrite elem_of_used_checks.
  split; (intros [Hi|[Hi|Hi]]; [left|right; left|by right; right]); naive_solver.
Qed.

(** The warnings of a lint beside the one that asks for leave. *)
Lemma lintIn_warnings lib id text binding out p : lintIn lib id text binding = (out, Some p) →
  ∃ profile lib', lr_Profile out = Some profile ∧ Compile lib' id binding = Ok p ∧
    ∀ i, i ∈ lr_Warnings out ↔ has_code "profile.consent" i ∧ i ∈ lr_Warnings out ∨ i ∈ unusedWarnings profile p text.
Proof.
  unfold lintIn. destruct (ParseProfile text) as [profile|]; [|done]. set (draft := withDraft lib id profile).
  destruct (compile_draft draft id binding text) as [ws r] eqn:Ec. destruct r as [q|]; [|done]. intros [= <- ->].
  assert (Forall (has_code "profile.consent") ws ∧ ∃ lib', Compile lib' id binding = Ok p) as [Hw [lib' Hl]].
  { unfold compile_draft in Ec. destruct (Compile draft id binding) as [q|e] eqn:E1; [(injection Ec as <- <-; split; [done | by eexists])|].
    destruct (as_consent e) as [[pid hosts]|] eqn:Ea; [|done]. injection Ec as <- Ec. split; [|by eexists].
    constructor; [|done]. unfold has_code, issueOf. cbn. rewrite Ea. by destruct (as_path e). }
  exists profile, lib'. split_and!; [done..|]. intros i. cbn [lr_Warnings]. rewrite Forall_forall in Hw. rewrite elem_of_app. naive_solver.
Qed.

Lemma unused_tag_inj text t t' : unused_tag text t = unused_tag text t' → t = t'.
Proof. intros E. pose proof (f_equal is_Args E) as Ha. by injection Ha. Qed.
Lemma unused_check_inj text t t' : unused_check text t = unused_check text t' → t = t'.
Proof. intros E. pose proof (f_equal is_Args E) as Ha. by injection Ha. Qed.

Lemma not_tier text tiers i code : code ≠ "tier.unreachable"%string → has_code code i → i ∉ repeated_tiers text ∅ 0 tiers.
Proof. intros Hne Hc Hi%tier_issues. unfold has_code in *. congruence. Qed.

Lemma in_policies c p q : q ∈ policies p → c ∈ policy_conds q → c ∈ all_conds p.
Proof. intros Hq Hc. unfold all_conds. apply elem_of_app. right. apply list_elem_of_bind. by exists q. Qed.

Lemma unread_check_ids lib id binding p check : Compile lib id binding = Ok p →
  (∀ c pass, c ∈ all_conds p → checkNode check pass ∉ walk c) → Forall (λ q, check ∉ pl_CheckIDs q) (policies p).
Proof.
  intros Hc Hno. apply Compile_parts in Hc as (chain & _ & _ & _ & Hm). apply Forall_forall. intros q Hq.
  rewrite Forall_forall in Hm. destruct (Hm q Hq) as (profile & q' & Hcp & -> & _).
  assert (Hin : ∀ c, c ∈ policy_conds q' → c ∈ all_conds p).
  { intros c Hin. apply (in_policies c p _ Hq). exact Hin. }
  unfold compileProfile in Hcp. cbn zeta in Hcp.
  apply result_bind_Ok in Hcp as (tags & _ & Hcp). apply result_bind_Ok in Hcp as (inc & _ & Hcp).
  apply result_bind_Ok in Hcp as (exc & _ & Hcp). apply result_bind_Ok in Hcp as (tiers & _ & Hcp).
  apply result_bind_Ok in Hcp as (net & _ & Hcp). injection Hcp as <-. cbn [pl_CheckIDs]. unfold sorted_strings.
  rewrite elem_of_sort_stable, elem_of_elements, elem_of_used_checks. intros (c & pass & Hc & Hw).
  apply (Hno c pass); [|done]. apply Hin. unfold policy_conds. cbn. set_solver.
Qed.

(** What the lint calls unused is not used. It reports a tag, or a check,
    exactly when the document declares it and no condition of the policy reads
    it, on any network kind. Then giving or taking the tag changes the value
    of no condition, whatever the server; no outcome of the check does; and
    no policy runs the check. *)
Theorem unused_means_unused lib id text binding out p : lintIn lib id text binding = (out, Some p) →
  ∃ profile, lr_Profile out = Some profile ∧
  (∀ t, unused_tag text t ∈ lr_Warnings out ↔ is_Some (pr_Tags profile !! t) ∧ ∀ c, c ∈ all_conds p → tagNode t ∉ walk c) ∧
  (∀ check, unused_check text check ∈ lr_Warnings out ↔
     is_Some (pr_Checks profile !! check) ∧ ∀ c pass, c ∈ all_conds p → checkNode check pass ∉ walk c) ∧
  (∀ t, unused_tag text t ∈ lr_Warnings out → ∀ c s tags, c ∈ all_conds p → (∀ t', t' ≠ t → t' ∈ tags ↔ t' ∈ sj_Tags s) →
     Test c {| s with sj_Tags := tags |} = Test c s) ∧
  (∀ check, unused_check text check ∈ lr_Warnings out → Forall (λ q, check ∉ pl_CheckIDs q) (policies p) ∧
     ∀ c s checks, c ∈ all_conds p → (∀ id', id' ≠ check → checks !! id' = sj_Checks s !! id') →
     Test c {| s with sj_Checks := checks |} = Test c s).
Proof.
  intros Hl. destruct (lintIn_warnings lib id text binding out p Hl) as (profile & lib' & Hp & Hc & Hw). exists profile. split; [done|].
  assert (Htag : ∀ t, unused_tag text t ∈ lr_Warnings out ↔ is_Some (pr_Tags profile !! t) ∧ ∀ c, c ∈ all_conds p → tagNode t ∉ walk c).
  { intros t. rewrite Hw, elem_of_unused. split.
    - intros [[E _]|[(t' & E & Ht)|[(? & E & _)|E]]]; [done | by apply unused_tag_inj in E as -> | done|].
      by apply (not_tier _ _ _ "tag.unused") in E.
    - intros Ht. right. left. by exists t. }
  assert (Hcheck : ∀ check, unused_check text check ∈ lr_Warnings out ↔
     is_Some (pr_Checks profile !! check) ∧ ∀ c pass, c ∈ all_conds p → checkNode check pass ∉ walk c).
  { intros check. rewrite Hw, elem_of_unused. split.
    - intros [[E _]|[(? & E & _)|[(t' & E & Ht)|E]]]; [done | done | by apply unused_check_inj in E as ->|].
      by apply (not_tier _ _ _ "check.unused") in E.
    - intros Ht. right. right. left. by exists check. }
  split_and!; [done..| |].
  - intros t [_ Ht]%Htag c s tags Hin. apply Test_tag, Ht, Hin.
  - intros check [_ Ht]%Hcheck. split; [by apply (unread_check_ids lib' id binding)|].
    intros c s checks Hin. apply Test_check. intros pass. by apply Ht.
Qed.
End unused.
