(* ===== verification/StudioHostFacts.v ===== *)
(** * The layout of documents, the country picker and linting a group *)

From S2P Require Import Prelude GoText TextFacts Cond CondSyntax Profile Policy Library Route Scenario Layers.
From S2P Require Import Evidence Journal Identity Country Decide Merge Bundle Builder Machine Studio StudioHost.

(** ** Trees of nodes *)

Section ynode_rect.
Context (P : ynode → Prop) (HP : ∀ k v l s content, Forall P content → P (YNode k v l s content)).

Fixpoint ynode_nested_ind (n : ynode) : P n.
Proof using HP.
  refine (match n with YNode k v l s content => HP k v l s content _ end). induction content; constructor; auto.
Qed.
End ynode_rect.

(** A tree without its styles: what decoding the text gives back. *)
Fixpoint unstyled (n : ynode) : ynode := let 'YNode k v l _ content := n in YNode k v l (OtherStyle 0) (unstyled <$> content).

Fixpoint subnodes (n : ynode) : list ynode := n :: concat (subnodes <$> yd_Content n).
Definition below (n : ynode) : list ynode := concat (subnodes <$> yd_Content n).

(** As the encoder gives it: nothing is in flow style yet. *)
Definition plain (n : ynode) : Prop := Forall (λ m, is_flow m = false) (subnodes n).

Definition collection (n : ynode) : bool := of_kind MappingNode n || of_kind SequenceNode n.

Lemma elem_of_below n m : m ∈ below n ↔ ∃ child, child ∈ yd_Content n ∧ m ∈ subnodes child.
Proof.
  unfold below. rewrite list_elem_of_In, in_concat. split.
  - intros (l & Hl & Hm). apply list_elem_of_In, list_elem_of_fmap in Hl as (c & -> & Hc). exists c. split; [done | by apply list_elem_of_In].
  - intros (c & Hc & Hm). exists (subnodes c). split; [|by rewrite <- list_elem_of_In]. by apply list_elem_of_In, list_elem_of_fmap_2.
Qed.

Lemma subnodes_below n m : m ∈ subnodes n ↔ m = n ∨ m ∈ below n.
Proof. destruct n. cbn. rewrite elem_of_cons. done. Qed.

Lemma unstyled_compact n : ∀ d, unstyled (compact d n) = unstyled n.
Proof.
  induction n as [k v l s content IH] using ynode_nested_ind. intros d.
  assert (Hc : unstyled <$> (compact (S d) <$> content) = unstyled <$> content).
  { induction IH as [|n ns Hn _ IHn]; [done|]. cbn. by rewrite Hn, <- IHn. }
  cbn [compact]. repeat case_match; cbn; by rewrite Hc.
Qed.

(** The style of a node is no part of its width. *)
Lemma fits_style n style : fits (with_style n style (yd_Content n)) = fits n.
Proof. by destruct n. Qed.

Lemma compact_flow d n : is_flow n = false →
  is_flow (compact (S d) n) = collection (compact (S d) n) && fits (compact (S d) n).
Proof.
  destruct n as [k v l s content]. intros Hs. cbn [compact Nat.eqb orb]. set (n := YNode k v l s (compact (S (S d)) <$> content)).
  fold (collection n). destruct (collection n) eqn:Ec; cbn [negb].
  - destruct (fits n) eqn:Ef; cbn [andb]; [|rewrite Ec, Ef; exact Hs]. rewrite fits_style, Ef, andb_true_r. symmetry. exact Ec.
  - rewrite Ec. exact Hs.
Qed.

Lemma compact_content d n : yd_Content (compact d n) = compact (S d) <$> yd_Content n.
Proof. destruct n as [k v l s content]. cbn [compact]. by repeat case_match. Qed.

Lemma compact_below n : plain n → ∀ d m, m ∈ below (compact d n) → is_flow m = collection m && fits m.
Proof.
  induction n as [k v l s content IH] using ynode_nested_ind. intros Hp d m Hm.
  apply elem_of_below in Hm as (c' & Hc & Hm). rewrite compact_content in Hc. apply list_elem_of_fmap in Hc as (c & -> & Hc).
  cbn [yd_Content] in Hc. rewrite Forall_forall in IH.
  assert (Hpc : plain c).
  { apply Forall_forall. intros x Hx. unfold plain in Hp. rewrite Forall_forall in Hp. apply Hp, subnodes_below. right.
    apply elem_of_below. by exists c. }
  apply subnodes_below in Hm as [->|Hm]; [|by apply (IH c Hc Hpc (S d))].
  apply compact_flow. unfold plain in Hpc. rewrite Forall_forall in Hpc. apply Hpc, subnodes_below. by left.
Qed.

Definition one_lined (n : ynode) : Prop := is_flow n = true ∨ of_kind ScalarNode n = true ∧ one_line (yd_Value n) = true.

Lemma width_of_ok f content : ∀ width, (width_of f width content).2 = true → Forall one_lined content.
Proof.
  induction content as [|c content IH]; intros width Hw; [done|]. cbn in Hw. unfold one_lined at 1.
  destruct (of_kind ScalarNode c && one_line (yd_Value c)) eqn:E; [|destruct (is_flow c) eqn:Ef; [|done]]; apply Forall_cons.
  - apply andb_true_iff in E as []. split; [by right | by eapply IH].
  - split; [by left | by eapply IH].
Qed.

Lemma fits_content n : fits n = true → (flowWidthOf n).1 <= flowWidth ∧ Forall one_lined (yd_Content n).
Proof.
  unfold fits. destruct (flowWidthOf n) as [w ok] eqn:E. intros [Hok Hw]%andb_true_iff. split; [by apply Z.leb_le|].
  destruct n as [k v l s content]. cbn [flowWidthOf] in E. eapply (width_of_ok _ content 0). etrans; [exact (f_equal snd E) | exact Hok].
Qed.

(** The canonical layout says the same on fewer lines. Whatever document
    it is given, it keeps every kind, value and order; below the root it puts
    a mapping or a list on one line exactly when that fits, which it does only
    when the parts are all on one line themselves and the width is at most
    72; and the root keeps its lines. *)
Theorem layout_canonical n : plain n →
  unstyled (compact 0 n) = unstyled n ∧ is_flow (compact 0 n) = false ∧
  ∀ m, m ∈ below (compact 0 n) →
    (is_flow m = true ↔ collection m = true ∧ fits m = true) ∧
    (is_flow m = true → (flowWidthOf m).1 <= flowWidth ∧ Forall one_lined (yd_Content m)).
Proof.
  intros Hp. split_and!; [apply unstyled_compact| |].
  - unfold plain in Hp. rewrite Forall_forall in Hp. destruct n as [k v l s content]. cbn.
    apply (Hp (YNode k v l s content)), subnodes_below. by left.
  - intros m Hm. rewrite (compact_below n Hp 0 m Hm), andb_true_iff. split; [done|]. intros [_ Hf]. by apply fits_content.
Qed.

(** ** The country picker *)

(** The entry of a country among what was noted. *)
Definition counted (noted : list (string * bool)) (code : string) : option CountryCount :=
  let mine := filter (λ n, n.1 = code) noted in
  if empty code || bool_decide (mine = []) then None
  else Some {| cc_Code := code; cc_Count := Z.of_nat (length mine); cc_Verified := existsb snd mine |}.

Lemma note_country_counts noted code : foldl note_country ∅ noted !! code = counted noted code.
Proof.
  induction noted as [|[code0 verified] noted IH] using rev_ind; [unfold counted; cbn; by rewrite orb_true_r|].
  rewrite foldl_app. cbn [foldl]. unfold note_country at 1. unfold counted in *. rewrite filter_app. cbn zeta.
  destruct (decide (code0 = code)) as [->|Hne].
  - rewrite (filter_cons_True _ (code, verified)) by done. rewrite filter_nil. destruct (empty code) eqn:E; [exact IH|].
    rewrite lookup_insert_eq, IH. cbn [orb]. rewrite (bool_decide_eq_false_2 (_ ++ _ = [])) by (intros [_ ?]%app_eq_nil; done).
    case_bool_decide as El; [rewrite El; cbn; by rewrite orb_false_r|]. cbn. f_equal. rewrite length_app, existsb_app. cbn. rewrite orb_false_r. f_equal. lia.
  - rewrite (filter_cons_False _ (code0, verified)) by done. rewrite filter_nil, app_nil_r. destruct (empty code0); [exact IH|].
    by rewrite lookup_insert_ne.
Qed.

Lemma count_order_total : total_preorder count_order.
Proof.
  unfold count_order. split; intros.
  - rewrite !compareZ_le. lia.
  - apply compareZ_opp.
  - rewrite !compareZ_le in *. lia.
Qed.

(** The picker lists each country noted once, with the number of servers that
    have it and whether one of them was verified, most servers first. *)
Lemma country_counts_spec noted :
  (∀ c, c ∈ country_counts noted ↔ counted noted (cc_Code c) = Some c) ∧ sorted_by count_order (country_counts noted).
Proof.
  unfold country_counts. split; [|apply sort_stable_sorted, count_order_total].
  intros c. rewrite elem_of_sort_stable, list_elem_of_omap. split.
  - intros (code & _ & Hc). rewrite note_country_counts in Hc. enough (cc_Code c = code) as -> by done.
    unfold counted in Hc. case_match; [done|]. by injection Hc as <-.
  - intros Hc. exists (cc_Code c). rewrite elem_of_sorted_keys, note_country_counts. by rewrite Hc.
Qed.

Module Sample.
Definition text (v : string) : ynode := YNode ScalarNode v 0 (OtherStyle 0) [].
Definition entries (kind : nodeKind) (l : list ynode) : ynode := YNode kind "" 0 (OtherStyle 0) l.

(** A document of one list that fits on a line. *)
Definition document : ynode := entries MappingNode [text "expect"; entries SequenceNode [text "200"; text "204"]].

Lemma layout_canonical_witness : unstyled (compact 0 document) = unstyled document ∧
  (is_flow <$> yd_Content (compact 0 document)) = [false; true].
Proof.
  split; [|vm_compute; reflexivity]. apply layout_canonical. unfold plain. repeat (apply Forall_cons; split; [reflexivity|]). apply Forall_nil. exact I.
Defined.
End Sample.
