(* ===== verification/FlattenFacts.v ===== *)
(** * Facts about the reported topology

    Walking a group and the selectors flattened into it: every node reported
    is reached by the path it is reported with, and every member of a walked
    selector is reported or flattened. *)

From S2P Require Import Prelude GoText Identity Route Machine ProviderPolicy ProviderPolicyFacts Flatten.

Section facts.
Context `{Sel : Selectors}.
Context (candidate : Proxy → bool) (smart : gset string) (refs : gmap string Z) (name : string).

(** A way from a selector to one nested in it, by the names on the way. *)
Inductive path (sl : Selector) : list string → Selector → Prop :=
  | path_here : path sl [] sl
  | path_into via sl' p inner : path sl via sl' → p ∈ sl_Proxies sl' → px_selector p = Some inner →
      path sl (via ++ [px_Name p]) inner.

(** The members the group reports, if they can be told at all. *)
Definition reported (p : Proxy) : Prop := name = globalProxyName → candidate p = true.

(** A node of the group: a member of a selector reached through flattened
    ones, with the way to it. *)
Definition reached (sl : Selector) (flat : gmap string string) (node : Node) : Prop :=
  ∃ via sl' p, path sl via sl' ∧ p ∈ sl_Proxies sl' ∧ node = {| (rcxNode p) with nd_Via := via |} ∧
    (length via <= maxFlattenDepth)%nat ∧ (∀ s, s ∈ via → flat !! s = Some name) ∧ reported p.

(** A member met [k] selectors deep is flattened, or reported with a path no
    longer. *)
Definition covered (st : walk_state) (k : nat) (p : Proxy) : Prop :=
  fl_flat st !! px_Name p = Some name ∨
  ∃ node, node ∈ fl_members st ∧ nd_Name node = px_Name p ∧ (length (nd_Via node) <= k)%nat.

(** A selector flattened into the group, all of its members covered. *)
Definition flattened (sl : Selector) (st : walk_state) (s : string) : Prop :=
  s ∉ smart ∧ refs !! s = Some 1 ∧ name ∈ smart ∧ name ≠ globalProxyName ∧
  ∃ via sl' p inner, path sl via sl' ∧ p ∈ sl_Proxies sl' ∧ px_Name p = s ∧ px_selector p = Some inner ∧
    ∀ q, q ∈ sl_Proxies inner → covered st (S (length via)) q.

Definition places_ok (st : walk_state) : Prop :=
  ∀ n i, fl_seen st !! n = Some i ↔ ∃ node, fl_members st !! i = Some node ∧ nd_Name node = n.

Lemma places_distinct st : places_ok st → NoDup (nd_Name <$> fl_members st).
Proof.
  intros Hok. apply NoDup_alt. intros i j n Hi Hj. rewrite list_lookup_fmap, fmap_Some in Hi, Hj.
  destruct Hi as (x & Hx & ->), Hj as (y & Hy & Hn).
  assert (fl_seen st !! nd_Name x = Some i) as H1 by (apply Hok; by exists x).
  assert (fl_seen st !! nd_Name x = Some j) as H2 by (apply Hok; by exists y). congruence.
Qed.

(** What visiting the members [l], [length via] selectors deep, does. *)
Record visits (sl : Selector) (via : list string) (l : list Proxy) (st st' : walk_state) : Prop := {
  vi_places : places_ok st';
  vi_flat : fl_flat st ⊆ fl_flat st';
  vi_kept : ∀ k p, covered st k p → covered st' k p;
  vi_reached : ∀ node, node ∈ fl_members st' → node ∈ fl_members st ∨ reached sl (fl_flat st') node;
  vi_new : ∀ s g, fl_flat st' !! s = Some g → fl_flat st !! s = Some g ∨ g = name ∧ flattened sl st' s;
  vi_covered : ∀ p, p ∈ l → reported p → covered st' (length via) p;
}.

Lemma reached_mono sl flat flat' node : flat ⊆ flat' → reached sl flat node → reached sl flat' node.
Proof.
  intros Hsub (via & sl' & p & Hp & Hin & -> & Hl & Hf & Hr). exists via, sl', p. split_and!; try done.
  intros s Hs. eapply lookup_weaken; [by apply Hf | done].
Qed.

Lemma flattened_mono sl st st' s : (∀ k p, covered st k p → covered st' k p) → flattened sl st s → flattened sl st' s.
Proof.
  intros Hk (? & ? & ? & ? & via & sl' & p & inner & ? & ? & ? & ? & Hc). do 4 (split; [done|]).
  exists via, sl', p, inner. split_and!; auto.
Qed.

Lemma visits_nothing sl via st : places_ok st → visits sl via [] st st.
Proof. split; auto. by intros p ?%elem_of_nil. Qed.

Lemma visits_app sl via l l' st st1 st2 :
  visits sl via l st st1 → visits sl via l' st1 st2 → visits sl via (l ++ l') st st2.
Proof.
  intros [P1 F1 K1 R1 N1 C1] [P2 F2 K2 R2 N2 C2]. split; [done | by etrans | auto | | |].
  - intros node [[Ho|Hr]%R1|Hr]%R2; [by left | right; by eapply reached_mono | by right].
  - intros s g [[Ho|[-> Hf]]%N1|Hf]%N2; [by left | right; split; [done | by eapply flattened_mono] | by right].
  - intros p [Hp|Hp]%elem_of_app Hr; [apply K2; by apply C1 | by apply C2].
Qed.

(** ** The steps *)

Lemma visits_providers sl via l st st' s : visits sl via l st st' → visits sl via l st (add_providers s st').
Proof. by intros [? ? ? ? ? ?]. Qed.

Lemma add_node_flat st node : fl_flat (add_node st node) = fl_flat st.
Proof. unfold add_node. repeat case_match; done. Qed.

(** Adding a node leaves one of its name and keeps every other, each at the
    end of a path that did not grow. *)
Lemma add_node_spec st node : places_ok st →
  places_ok (add_node st node) ∧
  (∀ x, x ∈ fl_members (add_node st node) → x ∈ fl_members st ∨ x = node) ∧
  (∀ x, x ∈ fl_members st ∨ x = node → ∃ y, y ∈ fl_members (add_node st node) ∧ nd_Name y = nd_Name x ∧
     (length (nd_Via y) <= length (nd_Via x))%nat).
Proof.
  intros Hok. unfold add_node. destruct (fl_seen st !! nd_Name node) as [i|] eqn:Es.
  - pose proof Es as (old & Hold & Hname)%Hok. rewrite Hold. case_if; cbn.
    + apply Nat.ltb_lt in E. pose proof (lookup_lt_Some _ _ _ Hold) as Hi. split_and!.
      * intros n j. cbn. rewrite (Hok n j). destruct (decide (i = j)) as [<-|Hne].
        -- rewrite list_lookup_insert_eq, Hold by done. split; intros (x & [= <-] & <-); eexists; by split.
        -- by rewrite list_lookup_insert_ne.
      * intros x (j & Hj)%list_elem_of_lookup. apply list_lookup_insert_Some in Hj as [(_ & -> & _)|[_ Hj]]; [by right|].
        left. by eapply list_elem_of_lookup_2.
      * intros x [(j & Hj)%list_elem_of_lookup| ->]; [|exists node; by split; [apply list_elem_of_insert|]].
        destruct (decide (i = j)) as [<-|Hne].
        -- exists node. split; [by apply list_elem_of_insert|]. rewrite Hold in Hj. simplify_eq. split; [done | lia].
        -- exists x. split; [|done]. apply (list_elem_of_lookup_2 _ j). by rewrite list_lookup_insert_ne.
    + apply Nat.ltb_ge in E. split_and!; [done | by left|]. intros x [Hx| ->]; [by exists x|].
      exists old. split; [by eapply list_elem_of_lookup_2 | done].
  - assert (Hfresh : ∀ x, x ∈ fl_members st → nd_Name x ≠ nd_Name node).
    { intros x (j & Hj)%list_elem_of_lookup Hn. assert (fl_seen st !! nd_Name node = Some j) by (apply Hok; by exists x). congruence. }
    cbn. split_and!.
    + intros n j. cbn. rewrite lookup_insert_Some, (Hok n j). split.
      * intros [[<- <-]|[Hne (x & Hx & <-)]]; [exists node; by rewrite lookup_app_r, Nat.sub_diag by done|].
        exists x. split; [by apply lookup_app_l_Some | done].
      * intros (x & [Hx|[Hle Hx]]%lookup_app_Some & <-).
        -- right. split; [|by exists x]. intros Heq. by eapply Hfresh; [eapply list_elem_of_lookup_2|].
        -- left. apply list_lookup_singleton_Some in Hx as [Hj <-]. split; [done | lia].
    + intros x [Hx|Hx]%elem_of_app; [by left | right; set_solver].
    + intros x Hx. exists x. split; [set_solver | done].
Qed.

Lemma visits_node sl via l st p : path sl via l → p ∈ sl_Proxies l → (length via <= maxFlattenDepth)%nat →
  (∀ s, s ∈ via → fl_flat st !! s = Some name) → reported p → places_ok st →
  visits sl via [p] st (add_node st {| (rcxNode p) with nd_Via := via |}).
Proof.
  intros Hpath Hp Hl Hflat Hr Hok. set (node := {| (rcxNode p) with nd_Via := via |}).
  assert (nd_Name node = px_Name p) as Hname by (unfold node, rcxNode; by destruct (Cut _ _) as [[]]).
  destruct (add_node_spec st node Hok) as (Hok' & Hold & Hnew). split; rewrite ?add_node_flat; [done..| | | |].
  - intros k q [Hq|(x & Hx & Hn & Hk)]; [left; by rewrite add_node_flat|]. right.
    destruct (Hnew x) as (y & Hy & Hyn & Hyk); [by left|]. exists y. split_and!; [done | congruence | lia].
  - intros x [Hx| ->]%Hold; [by left | right]. by exists via, l, p.
  - intros s g Hs. by left.
  - intros q ->%list_elem_of_singleton _. right. destruct (Hnew node) as (y & Hy & Hyn & Hyk); [by right|].
    exists y. split_and!; [done | congruence | done].
Qed.

(** Going into a flattened selector: its visits, seen from the member. *)
Lemma visits_into sl via l p inner st st' : path sl via l → p ∈ sl_Proxies l → px_selector p = Some inner →
  px_Name p ∉ smart → refs !! px_Name p = Some 1 → name ∈ smart → name ≠ globalProxyName → fl_flat st !! px_Name p = None →
  visits sl (via ++ [px_Name p]) (sl_Proxies inner) (set_flat st (px_Name p) name) st' → visits sl via [p] st st'.
Proof.
  intros Hpath Hp Hinner Hs Hrefs Hsmart Hglobal Hfresh [Hok Hsub Hkept Hreach Hnew Hcov].
  assert (fl_flat st ⊆ fl_flat (set_flat st (px_Name p) name)) as Hsub0 by (by apply insert_subseteq).
  assert (Hp' : fl_flat st' !! px_Name p = Some name) by (eapply lookup_weaken; [apply lookup_insert_eq | exact Hsub]).
  split; [done | by etrans | | done | |].
  - intros k q [Hq|Hq]; apply Hkept; [left; by eapply lookup_weaken | by right].
  - intros s g Hg. destruct (Hnew s g Hg) as [Hset|]; [|by right]. cbn in Hset.
    apply lookup_insert_Some in Hset as [[<- <-]|[_ Hset]]; [|by left]. right. split; [done|].
    split_and!; [done..|]. exists via, l, p, inner. split_and!; [done..|]. intros q Hq.
    pose proof (Hcov q Hq) as Hc. rewrite length_app, Nat.add_1_r in Hc. apply Hc. intros ?. done.
  - intros q ->%list_elem_of_singleton _. by left.
Qed.

(** ** The walk *)

Lemma flattens_spec via st p inner : flattens smart refs name via st p = Some inner →
  px_selector p = Some inner ∧ name ∈ smart ∧ name ≠ globalProxyName ∧ (length via < maxFlattenDepth)%nat ∧
  refs !! px_Name p = Some 1 ∧ px_Name p ∉ smart ∧ fl_flat st !! px_Name p = None.
Proof.
  unfold flattens, rcxFlattens. destruct (px_selector p) as [i|]; [|done]. case_if; [|done]. intros [= ->].
  rewrite !andb_true_iff, !negb_true_iff, !bool_decide_eq_false, bool_decide_eq_true, eqs_false, Nat.ltb_lt, Z.eqb_eq in E.
  destruct E as [[[? ?] ?] [[Hrefs ?] Hflat]]. split_and!; try done.
  - by destruct (refs !! px_Name p); cbn in Hrefs; [f_equal | lia].
  - by apply eq_None_not_Some.
Qed.

Lemma walk_visits sl fuel : ∀ l via st, (length via + S fuel = S maxFlattenDepth)%nat → path sl via l →
  (∀ s, s ∈ via → fl_flat st !! s = Some name) → places_ok st →
  visits sl via (sl_Proxies l) st (walk candidate smart refs name (S fuel) l via st).
Proof.
  induction fuel as [fuel IH] using lt_wf_ind. intros l via st Hf Hpath Hflat Hok. cbn [walk]. apply visits_providers.
  assert (Hsub : ∀ p, p ∈ sl_Proxies l → p ∈ sl_Proxies l) by done. revert Hsub. revert st Hflat Hok.
  generalize (sl_Proxies l) at 1 3 4. intros ms. induction ms as [|p ms IHms]; intros st Hflat Hok Hsub; [by apply visits_nothing|].
  cbn [foldl]. set (st1 := if _ : bool then st else _).
  assert (Hp : p ∈ sl_Proxies l) by (apply Hsub; by left).
  assert (Hstep : visits sl via [p] st st1).
  { subst st1. destruct (eqs name globalProxyName && negb (candidate p)) eqn:Eg.
    { apply andb_true_iff in Eg as [Eg%eqs_true Ec%negb_true_iff]. destruct (visits_nothing sl via st Hok). split; try done.
      intros q ->%list_elem_of_singleton Hr. specialize (Hr Eg). congruence. }
    assert (Hr : reported p).
    { intros ->. rewrite eqs_refl in Eg. by apply negb_false_iff in Eg. }
    destruct (flattens smart refs name via st p) as [inner|] eqn:Ef; [|apply (visits_node sl via l); first [done | lia]].
    apply flattens_spec in Ef as (Hinner & Hsmart & Hng & Hlen & Hrefs & Hns & Hfresh).
    apply (visits_into sl via l p inner); [done..|]. destruct fuel as [|fuel]; [lia|].
    apply (IH fuel); [lia | rewrite length_app; cbn; lia | by eapply path_into | |].
    - intros s [Hs| ->%list_elem_of_singleton]%elem_of_app; cbn; [|apply lookup_insert_eq].
      rewrite lookup_insert_ne; [by apply Hflat|]. intros <-. rewrite (Hflat _ Hs) in Hfresh. done.
    - done. }
  change (p :: ms) with ([p] ++ ms). eapply visits_app; [exact Hstep|]. apply IHms.
  - intros s Hs. eapply lookup_weaken; [by apply Hflat | apply (vi_flat _ _ _ _ _ Hstep)].
  - apply (vi_places _ _ _ _ _ Hstep).
  - intros q Hq. apply Hsub. by right.
Qed.
End facts.

(** ** All the groups *)

Section topology.
Context `{Sel : Selectors}.
Context (policy : option providerPolicy) (proxies : gmap string Proxy) (smart : gset string) (refs : gmap string Z).

(** A reported group, beside the owners of the flattened selectors. *)
Definition view (flat : gmap string string) (g : GroupTopology) : walk_state :=
  {| fl_flat := flat; fl_seen := ∅; fl_members := gt_Members g; fl_providers := ∅ |}.

Record group_ok (flat : gmap string string) (g : GroupTopology) (sl : Selector) : Prop := {
  go_selector : selector_of proxies (gt_Name g) = Some sl;
  go_distinct : NoDup (nd_Name <$> gt_Members g);
  go_reached : ∀ node, node ∈ gt_Members g →
    reached (global_candidate policy proxies) (gt_Name g) sl flat node;
  go_covered : ∀ p, p ∈ sl_Proxies sl → reported (global_candidate policy proxies) (gt_Name g) p →
    covered (gt_Name g) (view flat g) 0 p;
  go_flattened : ∀ s, flat !! s = Some (gt_Name g) → flattened smart refs (gt_Name g) sl (view flat g) s;
}.

Definition listed (name : string) : bool :=
  bool_decide (is_Some (selector_of proxies name)) && negb (eqs name globalProxyName && negb (bool_decide (name ∈ smart))).

Record topology_ok (names : list string) (t : topology_state) : Prop := {
  to_groups : ∀ g, g ∈ ts_groups t → ∃ sl, group_ok (ts_flat t) g sl;
  to_names : gt_Name <$> ts_groups t = filter (λ name, listed name = true) names;
  to_owner : ∀ s g, ts_flat t !! s = Some g → g ∈ (gt_Name <$> ts_groups t);
}.

Lemma group_ok_mono flat flat' g sl : flat ⊆ flat' →
  (∀ s, flat' !! s = Some (gt_Name g) → flat !! s = Some (gt_Name g)) → group_ok flat g sl → group_ok flat' g sl.
Proof.
  intros Hsub Hnew [Hsl Hnd Hreach Hcov Hflat].
  assert (Hc : ∀ k p, covered (gt_Name g) (view flat g) k p → covered (gt_Name g) (view flat' g) k p)
    by (intros k p [Hp|Hp]; [left; by eapply lookup_weaken | by right]).
  split; [done | done | | |].
  - intros node Hn. eapply reached_mono; [done | by apply Hreach].
  - intros p Hp Hr. by apply Hc, Hcov.
  - intros s Hs%Hnew%Hflat. by eapply flattened_mono.
Qed.

Lemma add_group_ok names t name : topology_ok names t → name ∉ names →
  topology_ok (names ++ [name]) (add_group policy proxies smart refs t name).
Proof.
  intros [Hgroups Hnames Howner] Hfresh. unfold add_group.
  assert (Hskip : listed name = false → topology_ok (names ++ [name]) t).
  { intros Hl. split; [done | | done]. rewrite filter_app, (filter_singleton_False (λ n, listed n = true) name) by congruence. by rewrite app_nil_r. }
  unfold listed in Hskip. destruct (selector_of proxies name) as [sl|] eqn:Esl; [|apply Hskip, andb_false_l].
  destruct (eqs name globalProxyName && negb (bool_decide (name ∈ smart))) eqn:Eg; [by apply Hskip|]. clear Hskip.
  set (st := {| fl_flat := ts_flat t; fl_seen := ∅; fl_members := []; fl_providers := ts_providers t |}).
  assert (Hok : places_ok st) by (intros n i; cbn; split; [done | by intros (x & [=] & _)]).
  pose proof (walk_visits (global_candidate policy proxies) smart refs name sl maxFlattenDepth sl [] st
    eq_refl (path_here sl) ltac:(by intros s ?%elem_of_nil) Hok) as Hv.
  unfold walk_fuel. set (w := walk _ _ _ _ _ _ _ _) in *. destruct Hv as [Hplaces Hsub _ Hreach Hnew Hcov].
  assert (Hnone : ∀ s, ts_flat t !! s ≠ Some name).
  { intros s Hs%Howner. rewrite Hnames in Hs. apply Hfresh. by apply list_elem_of_filter in Hs as [_ Hs]. }
  split; cbn.
  - intros g [Hg|Hg]%elem_of_app.
    + destruct (Hgroups g Hg) as [sl' Hsl']. exists sl'. eapply group_ok_mono; [exact Hsub | | exact Hsl'].
      intros s Hs. destruct (Hnew _ _ Hs) as [|[Hn _]]; [done|]. exfalso. apply Hfresh. rewrite <- Hn.
      assert (gt_Name g ∈ (gt_Name <$> ts_groups t)) as Hin by (by apply list_elem_of_fmap_2).
      rewrite Hnames in Hin. by apply list_elem_of_filter in Hin as [_ Hin].
    + apply list_elem_of_singleton in Hg as ->. exists sl. split; cbn; [done | by apply places_distinct | | |].
      * intros node [Hn|Hn]%Hreach; [by apply elem_of_nil in Hn | done].
      * intros p Hp Hr. destruct (Hcov p Hp Hr) as [Hc|Hc]; [by left | by right].
      * intros s Hs. destruct (Hnew _ _ Hs) as [Hold|[_ Hf]]; [by apply Hnone in Hold|].
        eapply (flattened_mono smart refs name sl w); [|exact Hf]. intros k p [Hc|Hc]; [by left | by right].
  - rewrite fmap_app, Hnames, filter_app. f_equal.
    symmetry. assert (listed name = true) as Hl by (unfold listed; by rewrite Esl, Eg).
    rewrite filter_singleton_True by done. reflexivity.
  - intros s g Hs. rewrite fmap_app, elem_of_app. destruct (Hnew _ _ Hs) as [Hold|[-> _]]; [left; by eapply Howner | right; set_solver].
Qed.

(** C12: the groups the engine is told of are the groups the core routes
    through. Every select group of the config is reported once, in order, GLOBAL
    only when it is smart. No name appears twice in a group. Every node of it
    is a member of the group's selector or of one nested in it, with the
    selectors on the way, at most four, all flattened into this group; a node
    of GLOBAL is one the provider's limits allow. Nothing is lost: each member
    of the group and of every selector flattened into it is reported, by a way
    no longer than the one it was met on, or flattened itself. And only
    selectors used once, that are not smart themselves, are flattened, each
    into one reported smart group that is not GLOBAL. *)
Theorem topology_faithful names : NoDup names →
  topology_ok names (rcxTopologyOf policy proxies smart refs names).
Proof.
  unfold rcxTopologyOf. set (t0 := {| ts_groups := []; ts_flat := ∅; ts_providers := ∅ |}).
  assert (Ht0 : topology_ok [] t0) by (split; [by intros g ?%elem_of_nil | done | done]).
  intros Hnd. rewrite <- (app_nil_l names) in Hnd |- * at 1. revert Ht0 Hnd. generalize (@nil string) as before. generalize t0. clear t0.
  induction names as [|name names IH]; intros t before Ht Hnd; cbn [foldl]; [by rewrite app_nil_r|].
  replace (before ++ name :: names) with ((before ++ [name]) ++ names) in * by (by rewrite <- app_assoc).
  apply IH; [|done]. apply add_group_ok; [done|]. apply NoDup_app in Hnd as [Hnd _]. apply NoDup_app in Hnd as (_ & Hd & _).
  intros Hin. by eapply Hd, list_elem_of_singleton.
Qed.
End topology.

(** ** A selector nested in a smart group *)

Module Sample.

Inductive sample_proxy := Server (name : string) | Main | Nested.

#[local] Instance sample_mihomo : Mihomo := {|
  Proxy := sample_proxy;
  px_Name p := match p with Server name => name | Main => "Main" | Nested => "Nested" end%string;
  px_Type p := match p with Server _ => 20 | _ => 7 end;
  px_outbound _ := true;
  px_members p := match p with
                  | Server _ => None
                  | Main => Some [Server "a"; Nested]
                  | Nested => Some [Server "b"; Server "a"]
                  end;
  px_RouteFingerprint p := match p with Server name => name | _ => EmptyString end;
  px_DialerProxy _ := EmptyString;
  ty_Selector := 7; ty_URLTest := 8; ty_Fallback := 9; ty_LoadBalance := 10; ty_Relay := 6;
  ty_Direct := 0; ty_Reject := 1; ty_RejectDrop := 2; ty_Pass := 4; ty_Compatible := 3; ty_Dns := 5;
  ty_Shadowsocks := 11;
|}.

#[local] Instance sample_selectors : Selectors := {|
  Selector := sample_proxy;
  px_selector p := match p with Server _ => None | _ => Some p end;
  sl_Name p := px_Name (p : Proxy);
  sl_Now p := match p with Main => "Nested" | _ => "b" end%string;
  sl_Proxies p := default [] (px_members (p : Proxy));
  sl_Providers _ := [];
  px_all_members p := px_members p;
  px_TypeName _ := "Vless"%string;
  px_UDP _ := false;
  px_Addr _ := "example.com:443"%string;
  px_ProviderName _ := EmptyString;
  px_EndpointFingerprint _ := EmptyString;
|}.

Definition sample_proxies : gmap string Proxy :=
  list_to_map [("Main", Main : Proxy); ("Nested", Nested : Proxy); ("a", Server "a" : Proxy); ("b", Server "b" : Proxy)]%string.
Definition sample_refs : gmap string Z := rcxReferences sample_proxies ["Main"; "Nested"]%string [{| ru_match := true; ru_Adapter := "Main" |}].
Definition sample_topology : topology_state := rcxTopologyOf None sample_proxies {["Main"%string]} sample_refs ["Main"%string].

(** The picked server is inside the nested selector; the server reached twice
    keeps the short way. *)
Example sample_members :
  (λ g, (gt_Now g, (λ n, (nd_Name n, nd_Via n)) <$> gt_Members g)) <$> ts_groups sample_topology =
  [("b", [("a", []); ("b", ["Nested"])])]%string.
Proof. vm_compute. reflexivity. Qed.

Lemma topology_faithful_witness : topology_ok None sample_proxies {["Main"%string]} sample_refs ["Main"%string] sample_topology.
Proof. apply (topology_faithful None sample_proxies {["Main"%string]} sample_refs). apply NoDup_singleton. Defined.

End Sample.
