(* ===== verification/Rebuild.v ===== *)
(** * Rebuilding the groups: [rebuild] of core/rcx/machine.go

    The bindings of both layers and of the scenario are merged, every node
    gets its key, and every bound group is compiled again; a group whose
    profile changed starts on what its network is remembered as. *)

From S2P Require Import Prelude GoText Cond Evidence Journal Identity Country Profile Policy Library.
From S2P Require Import Decide Budget Route Scenario Layers Machine.

Section rebuild.
Context `{Unicode} `{Regexp} `{Url} `{PublicSuffix} `{IpText} `{RangeOrder} `{Netip}.
Context `{Yaml} `{Embedded} `{ErrorText} `{Hmac} `{Random}.

Definition ensureSalt (m : machine) : machine :=
  if empty (mc_salt m) then {| m with mc_salt := random_salt; mc_dirty := true |} else m.

Definition empty_topology : Topology :=
  {| tp_Groups := []; tp_Subscription := empty_subscription; tp_Main := ""; tp_Providers := ∅; tp_Leaves := [];
     tp_Routes := {| ar_Applied := false; ar_Key := ""; ar_Groups := []; ar_Problems := ∅ |} |}.

Definition newMachine : machine :=
  {| mc_libraryGen := 0; mc_salt := ""; mc_ids := []; mc_evidence := {| ed_Envs := ∅; ed_Exits := ∅ |};
     mc_controls := ∅; mc_journal := no_journal; mc_budget := no_budget; mc_topology := empty_topology;
     mc_user := empty_user; mc_library := NewLibrary empty_subscription empty_user; mc_scn := no_scenario;
     mc_userMode := ""; mc_modeWish := ""; mc_groups := ∅; mc_order := []; mc_keyNames := ∅;
     mc_nameCountries := ∅; mc_running := false;
     mc_power := {| pw_Screen := true; pw_Foreground := false; pw_Doze := false; pw_PowerSave := false;
                    pw_Metered := false; pw_BatteryLow := false; pw_OnBattery := false |};
     mc_envKey := "default"; mc_envLabel := "default"; mc_windowUntil := zero_time; mc_wakeAt := zero_time;
     mc_transport := ""; mc_portal := false; mc_netSeq := 0; mc_diagNext := zero_time; mc_diagStep := 0;
     mc_diagBusy := false; mc_diagForced := false; mc_split := ""; mc_inflight := ∅; mc_lastProbe := ∅;
     mc_linkOKAt := zero_time; mc_dirty := false; mc_statusDirty := false; mc_calls := [] |}.

(** ** The scenario *)

Definition consent_reason (profile : string) (hosts : list string) : Reason :=
  reason "profile.consent" [AS "profile" profile; ("hosts"%string, ArgStrings hosts)].

Definition invalid_reason (profile error : string) : Reason :=
  reason "profile.invalid" [AS "profile" profile; AS "error" error].

Definition scenario_problem (id : string) (err : scenarioError) : Reason :=
  match err with
  | ScenarioInvalid e =>
      match as_consent e with
      | Some (_, hosts) => consent_reason id hosts
      | None => invalid_reason id (error_text (Invalid e))
      end
  | ScenarioMissing missing => invalid_reason id ("scenario " +:+ missing +:+ " not found")
  | ScenarioBroken text => invalid_reason id text
  end.

Definition loadScenario (m : machine) (now : time) : machine :=
  let id := activeScenario (tp_Subscription (mc_topology m)) (mc_user m) in
  let previous := ss_id (mc_scn m) in
  let m := {| m with mc_scn := {| (mc_scn m) with ss_id := id; ss_c := None; ss_problem := None |} |} in
  let m := if eqs id previous then m
           else let '(ks, m) := recall m (scenarioKey id) now in
                {| m with mc_scn := {| (mc_scn m) with ss_kind := ks |} |} in
  if empty id then m
  else match CompileScenario (mc_library m) id with
       | inl err => {| m with mc_scn := {| (mc_scn m) with ss_problem := Some (scenario_problem id err) |} |}
       | inr c => {| m with mc_scn := {| (mc_scn m) with ss_c := Some c |} |}
       end.

(** ** The bindings *)

(** A group's binding and where it comes from. *)
Record Bound := { bd_binding : Binding; bd_source : string }.

Definition subscription_bound (groups : gmap string Binding) : gmap string Bound :=
  (λ b, {| bd_binding := {| b with bi_DirectSplit := false |}; bd_source := SubscriptionSource |}) <$> groups.

(** What the user set for a group over what the subscription did. *)
Definition user_binding (base b : Binding) : Binding :=
  {| base with bi_Profile := bi_Profile b; bi_Pool := bi_Pool b; bi_Feel := bi_Feel b;
               bi_Energy := bi_Energy b; bi_DirectSplit := bi_DirectSplit b;
               bi_Prefer := over_list (bi_Prefer base) (bi_Prefer b);
               bi_Chips := bi_Chips base ++ bi_Chips b |}.

Definition user_bound (bound : gmap string Bound) (groups : gmap string Binding) : gmap string Bound :=
  map_imap (λ name b, Some
    match bound !! name with
    | Some base => {| bd_binding := user_binding (bd_binding base) b; bd_source := bd_source base |}
    | None => {| bd_binding := user_binding no_binding b; bd_source := UserSource |}
    end) groups ∪ bound.

(** A program laid over a binding. *)
Definition program_binding (tags : gmap string string) (p : Program) (b : Binding) : Binding :=
  {| b with bi_Profile := if empty (pg_Profile p) then bi_Profile b else pg_Profile p;
            bi_fixed := pg_To p; bi_extra := pg_Pool p; bi_tags := tags; bi_prefer := pg_Prefer p |}.

Definition scenario_bound (tags : gmap string string) (targets : gmap string assignment)
    (bound : gmap string Bound) : gmap string Bound :=
  map_imap (λ name a, Some
    match bound !! name with
    | Some b => {| b with bd_binding := program_binding tags (as_Program a) (bd_binding b) |}
    | None => {| bd_binding := program_binding tags (as_Program a) no_binding; bd_source := "scenario" |}
    end) targets ∪ bound.

Definition scenario_targets (m : machine) (c : compiledScenario) : gmap string assignment :=
  sc_targets c (kd_kind (ss_kind (mc_scn m))) (gt_Name <$> tp_Groups (mc_topology m))
    (tp_Main (mc_topology m)) (ar_Groups (tp_Routes (mc_topology m))).

(** The bindings with the scenario's programs, and the machine knowing which
    groups it named. *)
Definition applyScenario (m : machine) (bound : gmap string Bound) : gmap string Bound * machine :=
  let kind := kd_kind (ss_kind (mc_scn m)) in
  match ss_c (mc_scn m) with
  | None => (bound, {| m with mc_scn := {| (mc_scn m) with ss_groups := ∅; ss_appliedKind := kind |} |})
  | Some c =>
      let targets := scenario_targets m c in
      (scenario_bound (cs_stags c) targets bound,
       {| m with mc_scn := {| (mc_scn m) with ss_groups := as_Key <$> targets; ss_appliedKind := kind |} |})
  end.

(** ** One group *)

(** The profile a group runs: the binding's own, else its default, else the
    built-in one. *)
Definition pick_profile (lib : Library) (b : Binding) : string * option Reason :=
  let known id := negb (empty id) && Has lib id in
  let own := CanonicalID (bi_Profile b) in
  if known own then (own, None)
  else
    let fallback := CanonicalID (bi_Default b) in
    (if known fallback then fallback else DefaultProfile,
     if empty (bi_Profile b) then None else Some (reason "profile.missing" [AS "profile" (bi_Profile b)])).

(** The policy a group runs and what is wrong with it. Until the user
    answers a consent, the group works on the profile that contacts nobody. *)
Definition compile_group (lib : Library) (profileID : string) (b : Binding) (problem : option Reason)
    : option LayeredPolicy * option Reason :=
  let invalid e := Some (invalid_reason profileID (error_text (Invalid e))) in
  match Compile lib profileID b with
  | Ok policy => (Some policy, problem)
  | Err e =>
      match as_consent e with
      | None => (None, invalid e)
      | Some (_, hosts) =>
          match Compile lib DefaultProfile b with
          | Ok policy => (Some policy, Some (consent_reason profileID hosts))
          | Err e => (None, invalid e)
          end
      end
  end.

Definition policy_id (p : option LayeredPolicy) : string :=
  match p with Some lp => pl_ID (lp_Base lp) | None => EmptyString end.

(** The members of a group: each node with the key [Resolve] gave it. *)
Definition add_member (m : machine) (g : groupState) (nk : Node * string) : groupState * machine :=
  let '(node, key) := nk in
  let '(country, cache) := countryOf (mc_nameCountries m) (nd_Name node) in
  let node := {| node with nd_NameCountry := country |} in
  ({| g with gs_byName := <[nd_Name node := length (gs_members g)]> (gs_byName g);
             gs_members := gs_members g ++ [{| mb_Node := node; mb_Key := key; mb_Facts := None; mb_Exit := None |}] |},
   {| m with mc_nameCountries := cache;
             mc_keyNames := <[key := default [] (mc_keyNames m !! key) ++ [nd_Name node]]> (mc_keyNames m) |}).

Definition add_members (m : machine) (g : groupState) (nks : list (Node * string)) : groupState * machine :=
  foldl (λ '(g, m) nk, add_member m g nk) (g, m) nks.

(** The group with its binding, its profile and what is wrong with it. *)
Definition configure_group (m : machine) (g : groupState) (bd : Bound) : groupState :=
  let b := bd_binding bd in
  let lib := fl_profiles (mc_library m) in
  let '(profileID, problem) := pick_profile lib b in
  let '(policy, problem) := compile_group lib profileID b problem in
  {| g with gs_source := bd_source bd; gs_offered := bi_Profiles b; gs_policy := policy;
            gs_program := default EmptyString (ss_groups (mc_scn m) !! gs_name g);
            gs_profileID := profileID; gs_problem := problem;
            gs_binding := {| b with bi_Chips := usableChips (bi_Chips b) (lp_Base <$> policy) |} |}.

(** A group whose profile is another one, or none, starts on what its
    network is remembered as. *)
Definition recall_changed (m : machine) (g : groupState) (previousID : string) (now : time) : groupState * machine :=
  if is_none (gs_policy g) || negb (eqs (policy_id (gs_policy g)) previousID) then recallKind m g now else (g, m).

(** Hand the group its members, with the nodes and keys left after it. *)
Definition fill_group (m : machine) (g : groupState) (topo : option GroupTopology) (nks : list (Node * string))
    : list (Node * string) * groupState * machine :=
  let g := {| g with gs_members := []; gs_byName := ∅ |} in
  match topo with
  | None => (nks, {| g with gs_problem := Some (reason "group.unavailable" [AS "group" (gs_name g)]);
                            gs_now := EmptyString |}, m)
  | Some t =>
      let n := length (gt_Members t) in
      let '(g, m) := add_members m {| g with gs_now := gt_Now t |} (take n nks) in
      (drop n nks, if (n =? 0)%nat then {| g with gs_problem := Some (reason "group.empty" []) |} else g, m)
  end.

(** One turn of the loop over the bound names; [nks] are the nodes still to
    hand out, with their keys. *)
Definition rebuild_group (previous : gmap string groupState) (topo : gmap string GroupTopology) (now : time)
    (name : string) (bd : Bound) (nks : list (Node * string)) (m : machine)
    : list (Node * string) * machine :=
  let g := default (new_group name) (previous !! name) in
  let previousID := policy_id (gs_policy g) in
  let '(g, m) := recall_changed m (configure_group m g bd) previousID now in
  let '(nks, g, m) := fill_group m g (topo !! name) nks in
  let m := match mc_controls m !! name with Some _ => m | None => put_control m name new_control end in
  (nks, {| (put_group m name g) with mc_order := mc_order m ++ [name] |}).

Fixpoint rebuild_groups (previous : gmap string groupState) (topo : gmap string GroupTopology) (now : time)
    (bound : gmap string Bound) (names : list string) (nks : list (Node * string)) (m : machine) : machine :=
  match names with
  | [] => m
  | name :: names =>
      match bound !! name with
      | None => rebuild_groups previous topo now bound names nks m
      | Some bd =>
          let '(nks, m) := rebuild_group previous topo now name bd nks m in
          rebuild_groups previous topo now bound names nks m
      end
  end.

(** ** The whole of it *)

Definition topology_groups (groups : list GroupTopology) : gmap string GroupTopology :=
  foldl (λ topo g, <[gt_Name g := g]> topo) ∅ groups.

Definition bound_nodes (topo : gmap string GroupTopology) (names : list string) : list Node :=
  names ≫= λ name, match topo !! name with Some t => gt_Members t | None => [] end.

(** [m.ids.Resolve]: it always ends (Identity.v), so the other branch is
    never taken. *)
Definition resolve_ids (m : machine) (nodes : list Node) (now : time) : list string * machine :=
  match Resolve (mc_salt m) (mc_ids m) nodes now with
  | Some (entries, kms) => (kms.*1, {| m with mc_ids := entries |})
  | None => ([], m)
  end.

Definition layer_bound (m : machine) : gmap string Bound :=
  user_bound (subscription_bound (su_Groups (tp_Subscription (mc_topology m)))) (ul_Groups (mc_user m)).

(** The library of both layers; [libraryGen] is a [uint64]. *)
Definition load_library (m : machine) : machine :=
  {| m with mc_library := NewLibrary (tp_Subscription (mc_topology m)) (mc_user m);
            mc_libraryGen := (mc_libraryGen m + 1) mod 2 ^ 64 |}.

Definition rebuild (m : machine) (now : time) : machine :=
  let m := loadScenario (load_library (ensureSalt m)) now in
  let topo := topology_groups (tp_Groups (mc_topology m)) in
  let '(bound, m) := applyScenario m (layer_bound m) in
  let names := sorted_keys bound in
  let all := bound_nodes topo names in
  let '(keys, m) := resolve_ids m all now in
  let m := {| m with mc_evidence := prune (mc_evidence m) (Known (mc_ids m)); mc_keyNames := ∅ |} in
  let previous := mc_groups m in
  let m := {| m with mc_groups := ∅; mc_order := [] |} in
  let m := rebuild_groups previous topo now bound names (zip all keys) m in
  mark_dirty (suppressProviders m).
End rebuild.
