(* ===== verification/Settle.v ===== *)
(** * Settling: [settle] and [updateSplit] of core/rcx/machine.go

    Every group is decided and switched; the scenario's programs follow the
    network, the tunnel mode follows the scenario, and the direct split picks
    its group. *)

From S2P Require Import Prelude GoText Cond Evidence Journal Identity Profile Policy Library.
From S2P Require Import Decide Budget Route Scenario Layers Machine Rebuild.

Section settle.
Context `{Unicode} `{Regexp} `{Url} `{PublicSuffix} `{IpText} `{RangeOrder} `{Netip}.
Context `{Yaml} `{Embedded} `{ErrorText} `{Hmac} `{Random} `{Runtime}.

(** ** The tunnel mode *)

Definition mode_wish (m : machine) : string :=
  match ss_c (mc_scn m) with
  | Some c => if ul_ManualMode (mc_user m) then EmptyString else modeFor c (kd_kind (ss_kind (mc_scn m)))
  | None => EmptyString
  end.

Definition applyMode (m : machine) (now : time) : machine :=
  let wish := mode_wish m in
  if eqs wish (mc_modeWish m) then m
  else
    let from := tunnelMode m in
    let m := call {| m with mc_modeWish := wish |} (CallMode wish) in
    let to := tunnelMode m in
    mark_dirty (if eqs to from then m
                else suppressProviders (note m now EmptyString "mode" from to (reason "mode.scenario" []))).

(** ** One group *)

Definition idle_decision (m : machine) (g : groupState) : Decision :=
  {| no_decision with dc_Action := HoldAction; dc_Target := gs_now g;
     dc_Reason := reason "hold.idle" [AS "mode" (tunnelMode m)] |}.

(** The ranking as seen from the node now in use. *)
Definition rank_current (now : string) (d : Decision) : Decision :=
  {| d with dc_Ranking := (λ r, {| r with rw_Current := eqs (rw_Name r) now |}) <$> dc_Ranking d |}.

Definition record_switch (c : controlRecord) (now : time) : controlRecord :=
  {| c with cr_LastSwitch := now; cr_Switches := trimTimes (cr_Switches c) (time_add now (- Hour)) ++ [now] |}.

(** Carry a switch out, while the core routes. A selection the core refuses
    strands the group. *)
Definition apply_switch (m : machine) (name : string) (g : groupState) (d : Decision) (now : time)
    : groupState * Decision * machine :=
  if bool_decide (dc_Action d = SwitchAction) && mc_running m && negb (eqs (dc_Target d) (gs_now g)) then
    let from := gs_now g in
    let route := via g (dc_Target d) in
    let failed := select_error (mc_calls m) (gs_name g) route (dc_Target d) in
    let m := call m (CallSelect (gs_name g) route (dc_Target d)) in
    match failed with
    | Some error =>
        (g, {| d with dc_Action := StrandedAction; dc_Reason := reason "select.failed" [AS "error" error] |}, m)
    | None =>
        let g := {| g with gs_now := dc_Target d; gs_suspect := false |} in
        let d := rank_current (gs_now g) d in
        let m := put_control m name (record_switch (control_of m name) now) in
        let m := if eqs (rs_Code (dc_Reason d)) "switch.failover" && negb (empty from)
                 then call m (CallClose (gs_name g) from) else m in
        let m := note m now name "switch" from (dc_Target d) (dc_Reason d) in
        (g, d, {| m with mc_dirty := true |})
    end
  else (g, d, m).

(** Keep the decision, telling the journal when the group is newly stranded. *)
Definition keep_decision (m : machine) (name : string) (g : groupState) (d : Decision) (now : time) : machine :=
  let m :=
    if sameDecision (gs_decision g) d then m
    else
      let stranded a := bool_decide (dc_Action a = StrandedAction) in
      mark_status (if stranded d && negb (stranded (gs_decision g))
                   then note m now name "stranded" (gs_now g) EmptyString (dc_Reason d) else m) in
  put_group m name {| g with gs_decision := d |}.

Definition settle_group (now : time) (m : machine) (name : string) : machine :=
  let g := group_of m name in
  match gs_policy g with
  | None => m
  | Some lp =>
      if bool_decide (gs_members g = []) then m
      else if idle m (gs_name g) then
        let d := idle_decision m g in
        let m := if sameDecision (gs_decision g) d then m else mark_status m in
        put_group m name {| g with gs_decision := d |}
      else
        let '(g, m) := classify m g now in
        let '(d, m) := decideGroup m g lp now in
        let '(g, d, m) := apply_switch m name {| g with gs_force := false |} d now in
        keep_decision m name g d now
  end.

(** ** The direct split *)

Definition splitState (m : machine) (g : groupState) (now : time) : string * machine :=
  match gs_policy g with
  | None => (EmptyString, m)
  | Some lp =>
      match pl_DirectSplit (lp_Base lp) with
      | None => (EmptyString, m)
      | Some cond =>
          if negb (bi_DirectSplit (gs_binding g)) then ("off"%string, m)
          else if negb (mc_running m) || bool_decide (gs_members g = []) || is_manual m (gs_name g) || paused g
            then ("standby"%string, m)
          else
            let '(n, m) := netSubject m (kd_kind (gs_kind g)) (lp_Base lp) now in
            (if is_tri (Test (Some cond) (net_only n)) triYes then "active"%string else "standby"%string, m)
      end
  end.

(** The first group of the order the split can use now. *)
Fixpoint split_target (m : machine) (now : time) (names : list string) : string * machine :=
  match names with
  | [] => (EmptyString, m)
  | name :: names =>
      let '(state, m) := splitState m (group_of m name) now in
      if eqs state "active" then (name, m) else split_target m now names
  end.

Definition updateSplit (m : machine) (now : time) : machine :=
  let '(target, m) := split_target m now (mc_order m) in
  if eqs target (mc_split m) then m
  else
    let m := if empty target then note m now (mc_split m) "split" EmptyString EmptyString (reason "split.off" [])
             else note m now target "split" EmptyString EmptyString (reason "split.on" []) in
    mark_status {| m with mc_split := target |}.

(** ** The whole of it *)

Definition settle_scenario (m : machine) (now : time) : machine :=
  let m := match ss_c (mc_scn m) with
           | None => m
           | Some c =>
               let '(_, ks, m) := classifyKind m (ss_kind (mc_scn m)) (cs_net c) (scenarioKey (ss_id (mc_scn m)))
                                    EmptyString now in
               {| m with mc_scn := {| (mc_scn m) with ss_kind := ks |} |}
           end in
  if eqs (kd_kind (ss_kind (mc_scn m))) (ss_appliedKind (mc_scn m)) then m else rebuild m now.

Definition settle_groups (m : machine) (now : time) : machine :=
  foldl (settle_group now) m (mc_order m).

Definition settle (m : machine) (now : time) : machine :=
  let m := settle_scenario m now in
  let m := applyMode m now in
  let m := settle_groups m now in
  updateSplit m now.
End settle.
