(* ===== verification/Events.v ===== *)
(** * What reaches the machine: the handlers of core/rcx/machine.go

    Results of checks and diagnostics, URL tests, traffic, failed dials,
    hints of the host and manual picks. A failed check condemns a node only
    once the link is known to work. *)

From S2P Require Import Prelude GoText Cond Evidence Journal Identity Profile Policy Library.
From S2P Require Import Decide Budget Route Scenario Layers Machine.

Section events.
Context `{Unicode} `{RangeOrder} `{Yaml}.

(** Something got through: the link works. *)
Definition prove_link (m : machine) (now : time) : machine := {| m with mc_linkOKAt := now |}.

(** ** Results of checks *)

(** Apply to every group the key is in, in order. *)
Definition on_groups (f : groupState → groupState) (m : machine) (names : list string) : machine :=
  foldl (λ m name, put_group m name (f (group_of m name))) m names.

Definition reset_recover_group (g : groupState) : groupState :=
  {| g with gs_recoverPass := 0; gs_recoverAt := zero_time |}.

Definition resetRecover (m : machine) (key : string) : machine :=
  on_groups reset_recover_group m (groupOf m key).

Definition record_confirm (c : confirmation) (job : probeJob) (failed : bool) : confirmation :=
  let c := {| c with cf_pending := cf_pending c -i 1 |} in
  if eqs (jb_Kind job) "confirm" then {| c with cf_failed := failed |} else {| c with cf_standbyDown := failed |}.

Definition confirm_done (c : confirmation) : bool := cf_pending c <=? 0.

(** The name of the last member with the key. *)
Definition member_name (g : groupState) (key : string) : string :=
  foldl (λ name mb, if eqs (mb_Key mb) key then mb_Name mb else name) EmptyString (gs_members g).

(** What a pair of checks says: the link is down rather than the node. *)
Definition link_suspect (m : machine) (c : confirmation) (now : time) : bool :=
  (negb (empty (cf_standby c)) && cf_standbyDown c) || (empty (cf_standby c) && negb (linkProven m now)).

Definition next_recover (g : groupState) (now : time) : groupState :=
  let pass := gs_recoverPass g +i 1 in
  {| g with gs_recoverPass := pass; gs_recoverAt := time_add now (backoff recoverBackoff pass) |}.

Definition resolveConfirm (m : machine) (name : string) (c : confirmation) (now : time) : machine :=
  let g := {| (group_of m name) with gs_confirm := None; gs_suspect := false; gs_recoverArmed := false |} in
  if negb (cf_failed c) then put_group m name g
  else if link_suspect m c now then
    put_group (note m now (gs_name g) "network" EmptyString EmptyString (reason "network.suspect" []))
      name (next_recover g now)
  else
    let '(f, m) := facts_at m (cf_key c) now in
    let m := put_facts m (cf_key c) (markDead f now) in
    put_group (note m now (gs_name g) "failure" (member_name g (cf_key c)) EmptyString (reason "failure.confirmed" []))
      name g.

(** The outcomes of the checks a probe carried. *)
Definition note_checks (f : Facts) (job : probeJob) (outcomes : gmap string bool) (now : time) : Facts :=
  foldl (λ f '(id, ok), noteCheck f id now ok (match jb_Checks job !! id with Some c => cx_Optional c | None => false end))
    f (range_map outcomes).

Definition note_exit (m : machine) (job : probeJob) (res : probeResult) (now : time) : machine :=
  match jb_Exit job with
  | None => m
  | Some egress =>
      let '(country, sources) := exitVerdict (pb_Votes res) (eg_Agree egress) in
      {| m with mc_evidence := {| (mc_evidence m) with ed_Exits :=
           <[jb_Key job := {| ex_Country := country; ex_At := now; ex_Sources := sources |}]> (ed_Exits (mc_evidence m)) |} |}
  end.

Definition is_confirm_kind (kind : string) : bool := eqs kind "confirm" || eqs kind "confirm-standby".

(** The confirmation a result belongs to. *)
Definition awaited (m : machine) (job : probeJob) : option confirmation :=
  if is_confirm_kind (jb_Kind job) then g ← mc_groups m !! jb_Group job; gs_confirm g else None.

Definition onDiagnosis (m : machine) (job : probeJob) (res : probeResult) (now : time) : machine :=
  let m := {| m with mc_diagBusy := false |} in
  if negb (eqs (jb_Env job) (mc_envKey m)) then m
  else
    let '(env, m) := env_at m now in
    let m := put_env_at m {| env with env_Diag :=
               ((λ ok, {| df_At := now; df_OK := ok |}) <$> pb_Diag res) ∪ env_Diag env |} in
    mark_dirty {| m with mc_diagNext := time_add now (backoff diagBackoff (mc_diagStep m));
                         mc_diagStep := mc_diagStep m +i 1; mc_diagForced := false;
                         mc_netSeq := mc_netSeq m +i 1 |}.

Definition probe_failed (res : probeResult) : bool := pb_Failed res || (pb_Ms res <=? 0).

(** The part of [onProbeResult] up to the verdict on the node: what the
    result says of it. *)
Definition note_result (m : machine) (job : probeJob) (res : probeResult) (now : time) : Facts * machine :=
  let '(f, m) := facts_at m (jb_Key job) now in
  if probe_failed res then
    let f := noteProbeFail f now in
    (f, put_facts m (jb_Key job) f)
  else
    let f := note_checks (noteSample f now (pb_Ms res) ProbeSource) job (pb_Checks res) now in
    (f, note_exit (resetRecover (prove_link (put_facts m (jb_Key job) f) now) (jb_Key job)) job res now).

Definition onProbeResult (m : machine) (job : probeJob) (res : probeResult) (now : time) : machine :=
  let m := {| m with mc_budget := charge (mc_budget m) (jb_Bucket job) (pb_Requests res) |} in
  if negb (bool_decide (jb_Targets job = [])) then onDiagnosis m job res now
  else
    let m := {| m with mc_inflight := delete (jb_Key job) (mc_inflight m) |} in
    let '(f, m) := note_result m job res now in
    let failed := probe_failed res in
    let m :=
      match awaited m job with
      | Some c =>
          let c := record_confirm c job failed in
          if confirm_done c then resolveConfirm m (jb_Group job) c now
          else put_group m (jb_Group job) {| (group_of m (jb_Group job)) with gs_confirm := Some c |}
      | None =>
          if failed && linkProven m now && (2 <=? fa_FailRun f)
          then put_facts m (jb_Key job) (markDead f now) else m
      end in
    mark_dirty m.

(** ** What mihomo reports *)

Definition url_test_key (ms : Z) (now : time) (m : machine) (key : string) : machine :=
  match mc_inflight m !! key with
  | Some _ => m
  | None =>
      let '(f, m) := facts_at m key now in
      mark_dirty
        (if 0 <? ms then prove_link (put_facts m key (noteSample f now ms TestSource)) now
         else put_facts m key (noteProbeFail f now))
  end.

Definition onURLTest (m : machine) (node : string) (ms : Z) (now : time) : machine :=
  foldl (url_test_key ms now) m (keysOf m node).

Definition traffic_key (now : time) (m : machine) (key : string) : machine :=
  let '(f, m) := facts_at m key now in
  let m := prove_link (put_facts m key (noteOK f now TrafficSource)) now in
  if Dead f then mark_status m else m.

Definition onTraffic (m : machine) (nodes : gmap string Z) (now : time) : machine :=
  foldl (λ m '(node, _), foldl (traffic_key now) m (keysOf m node))
    (openWindow m now trafficWindow) (range_map nodes).

(** [count] failed dials in a row: whether any of them was suspicious. *)
Fixpoint note_dial_fails (count : nat) (now : time) (suspect : bool) (f : Facts) : bool * Facts :=
  match count with
  | O => (suspect, f)
  | S count => let '(s, f) := noteDialFail f now in note_dial_fails count now (s || suspect) f
  end.

Definition suspect_group (key : string) (m : machine) (name : string) : machine :=
  let g := group_of m name in
  if current_has g key && negb (gs_suspect g)
  then mark_status (put_group m name {| g with gs_suspect := true; gs_recoverArmed := true |})
  else m.

Definition dial_fail_key (count : Z) (now : time) (m : machine) (key : string) : machine :=
  let '(f, m) := facts_at m key now in
  let '(suspect, f) := note_dial_fails (Z.to_nat count) now false f in
  let m := put_facts m key f in
  if suspect then foldl (suspect_group key) m (groupOf m key) else m.

Definition onDialFailures (m : machine) (nodes : gmap string Z) (now : time) : machine :=
  foldl (λ m '(node, count), foldl (dial_fail_key count now) m (keysOf m node)) m (range_map nodes).

(** ** What the host reports *)

Section hints.
Context `{Hmac}.

Definition network_key (salt : string) (n : NetworkHint) : string :=
  if negb (empty (nh_Transport n)) || negb (empty (nh_ID n))
  then nh_Transport n +:+ ":" +:+ digest salt ["net"%string; nh_ID n] else "default".

(** Every group starts on what the new network is remembered as. *)
Definition move_group (now : time) (m : machine) (name : string) : machine :=
  let g := group_of m name in
  let g := {| g with gs_maintainAt := now; gs_recoverPass := 0; gs_recoverAt := zero_time |} in
  let '(g, m) := recallKind m g now in
  put_group m name g.

Definition change_network (m : machine) (envKey transport : string) (now : time) : machine :=
  let m := {| m with mc_envKey := envKey; mc_envLabel := or_string transport "default"; mc_linkOKAt := zero_time |} in
  let m := openWindow m now networkWindow in
  let m := foldl (move_group now) m (range_map (mc_groups m)).*1 in
  let '(ks, m) := recall m (scenarioKey (ss_id (mc_scn m))) now in
  let m := {| m with mc_scn := {| (mc_scn m) with ss_kind := ks |};
                     mc_diagNext := now; mc_diagStep := 0; mc_diagForced := true;
                     mc_netSeq := mc_netSeq m +i 1 |} in
  {| (note m now EmptyString "network" EmptyString EmptyString
        (reason "network.changed" [AS "transport" (mc_envLabel m)])) with mc_dirty := true |}.

Definition network_hint (m : machine) (n : NetworkHint) (now : time) : machine :=
  let m := if negb (eqs (nh_Transport n) (mc_transport m)) || negb (Bool.eqb (nh_Portal n) (mc_portal m))
           then openWindow {| m with mc_transport := nh_Transport n; mc_portal := nh_Portal n;
                                     mc_netSeq := mc_netSeq m +i 1;
                                     mc_diagNext := now; mc_diagForced := true |} now networkWindow
           else m in
  let envKey := network_key (mc_salt m) n in
  if eqs envKey (mc_envKey m) then m else change_network m envKey (nh_Transport n) now.

(** The power the host reports, and the network hint that follows it. *)
Definition hint_power (m : machine) (power : Power) (h : Hints) (now : time) : machine :=
  let m' := {| m with mc_power := power;
                      mc_netSeq := if Bool.eqb (pw_Metered power) (pw_Metered (mc_power m)) then mc_netSeq m
                                   else mc_netSeq m +i 1 |} in
  match hn_Network h with Some n => network_hint m' n now | None => m' end.

(** A lit screen, the end of a doze and a resume all wake the engine. *)
Definition hint_wakes (was power : Power) (h : Hints) : bool :=
  (negb (pw_Screen was) && pw_Screen power) || (pw_Doze was && negb (pw_Doze power)) || hn_Resumed h.

Definition onHints (m : machine) (h : Hints) (now : time) : machine :=
  let power := power_apply (mc_power m) h in
  let wakes := hint_wakes (mc_power m) power h in
  let m := hint_power m power h now in
  let m := {| m with mc_wakeAt := if wakes then time_add now wakeDebounce else mc_wakeAt m;
                     mc_linkOKAt := if hn_Resumed h then zero_time else mc_linkOKAt m |} in
  mark_status m.
End hints.

Definition onManualPick (m : machine) (group node : string) (now : time) : machine :=
  match mc_groups m !! group with
  | None => m
  | Some g =>
      let m := put_group m group {| g with gs_now := node |} in
      let c := control_of m group in
      if is_manual m group then m
      else
        let key := default (ct_Pin (cr_Control c)) (keyOf m group node) in
        let m := put_control m group {| c with cr_Control :=
                   {| ct_Mode := PinnedMode; ct_Pin := key; ct_PinName := node; ct_PinEnv := EmptyString |} |} in
        mark_dirty (note m now group "pin" EmptyString node (reason "pin.manual" []))
  end.

Definition expireCooldowns (m : machine) (now : time) : machine :=
  let expired := existsb (λ '(_, c), existsb (λ '(_, until), negb (after until now)) (map_to_list (cr_Excluded c)))
                   (map_to_list (mc_controls m)) in
  let m := {| m with mc_controls :=
                (λ c, {| c with cr_Excluded := filter (λ '(_, until), after until now) (cr_Excluded c) |}) <$> mc_controls m |} in
  if expired then mark_status m else m.
End events.
