(* ===== verification/Planner.v ===== *)
(** * The planner: [plan] and [nextDue] of core/rcx/machine.go

    Which checks are worth buying now, and the one moment the engine must
    wake on its own. [None] is a run-time panic of the code: [plan] indexes
    the members of a group by a row of its last ranking, and [nextDue] reads
    the dwell time of a policy. *)

From S2P Require Import Prelude GoText Cond Evidence Journal Identity Profile Policy Library.
From S2P Require Import Decide Budget Route Scenario Layers Machine Events.

(** ** Choosing rows *)

Definition needsRecovery (g : groupState) : bool :=
  let d := gs_decision g in
  if bool_decide (dc_Action d = StrandedAction) then true
  else if existsb (λ row, eligible row && negb (is_dead (rw_Health row)) &&
                          (bool_decide (rw_Health row = AliveHealth) || rw_Current row)) (dc_Ranking d)
       then false
       else negb (bool_decide (dc_Ranking d = [])).

Definition recoverOrder (rows : list Ranked) : list Ranked :=
  filter (λ row, eligible row || excluded_as row "dead" || excluded_as row "pending") rows.

Definition rowOf (rows : list Ranked) (name : string) : option Ranked :=
  List.find (λ row, eqs (rw_Name row) name) rows.

Definition stale (row : Ranked) (now : time) (freshness : duration) : bool :=
  is_zero (rw_CheckedAt row) || (freshness <? time_sub now (rw_CheckedAt row)).

Definition checksNode (p : Policy) : bool := negb (bool_decide (pl_CheckIDs p = [])) || pl_UsesExit p.

(** [Check{}]. *)
Definition zero_check : Check :=
  {| cx_HTTP := ""; cx_TCP := ""; cx_TLS := ""; cx_SNI := ""; cx_Expect := []; cx_Optional := false |}.

Section planner.
Context `{Unicode} `{Regexp} `{RangeOrder} `{Yaml} `{Calendar}.

(** ** What rides on a probe *)

Definition check_due (env : Environment) (key : string) (now : time) (id : string) : bool :=
  match f ← env_Nodes env !! key; fa_Checks f !! id with
  | None => true
  | Some c => (Freshness env now <? time_sub now (ck_At c)) || is_tri (verdict (Some c) now) triUnknown
  end.

(** The checks that are due and whether the exit is. *)
Definition extras (m : machine) (p : Policy) (key : string) (now : time) : list string * bool * machine :=
  let '(env, m) := env_at m now in
  (filter (check_due env key now) (pl_CheckIDs p),
   pl_UsesExit p && exit_due (ed_Exits (mc_evidence m) !! key) now, m).

Definition extrasDue (m : machine) (p : Policy) (key : string) (now : time) : bool * machine :=
  let '(checks, exit, m) := extras m p key now in
  (negb (bool_decide (checks = [])) || exit, m).

Definition spend_at (m : machine) (bucket : Bucket) (level : energyLevel) (now : time) : bool * machine :=
  let '(ok, b) := spend (mc_budget m) bucket level now in
  (ok, {| m with mc_budget := b |}).

(** Pay for the checks one by one: whether the bucket paid for all. *)
Fixpoint attach_checks (m : machine) (job : probeJob) (p : Policy) (level : energyLevel) (now : time)
    (ids : list string) : bool * probeJob * machine :=
  match ids with
  | [] => (true, job, m)
  | id :: ids =>
      let '(ok, m) := spend_at m (jb_Bucket job) level now in
      if (ok : bool)
      then attach_checks m {| job with jb_Checks := <[id := default zero_check (pl_Checks p !! id)]> (jb_Checks job) |}
             p level now ids
      else (false, job, m)
  end.

Definition attachExtras (m : machine) (job : probeJob) (p : Policy) (level : energyLevel) (now : time)
    : probeJob * machine :=
  let '(checks, exit, m) := extras m p (jb_Key job) now in
  let '(checks, exit) := if is_bucket (jb_Bucket job) UserBucket then (pl_CheckIDs p, pl_UsesExit p) else (checks, exit) in
  let '(paid, job, m) := attach_checks m job p level now checks in
  if (paid : bool) && exit then
    let '(ok, m) := spend_at m (jb_Bucket job) level now in
    (if (ok : bool) then {| job with jb_Exit := Some (pl_Egress p) |} else job, m)
  else (job, m).

(** ** Network diagnostics *)

Definition diagAllowed (m : machine) (mode : Mode) : bool :=
  in_mode mode ActiveMode || (in_mode mode EcoMode && mc_diagForced m).

Definition add_targets (out : list Target) (diagnostics : gmap string (list Target)) : list Target :=
  foldl (λ out target, if mem_string (target_string target) (target_string <$> out) then out else out ++ [target])
    out (sorted_keys diagnostics ≫= λ diag, default [] (diagnostics !! diag)).

Definition diagTargets (m : machine) : list Target :=
  let out := match ss_c (mc_scn m) with
             | Some c => add_targets [] (pl_Diagnostics (cs_net c))
             | None => []
             end in
  foldl (λ out name,
    let g := group_of m name in
    match gs_policy g with
    | Some lp => if is_manual m name || idle m (gs_name g) then out
                 else add_targets out (pl_Diagnostics (lp_Base lp))
    | None => out
    end) out (mc_order m).

(** The targets the network bucket pays for. *)
Fixpoint pay_targets (m : machine) (level : energyLevel) (now : time) (targets : list Target)
    : list Target * machine :=
  match targets with
  | [] => ([], m)
  | target :: targets =>
      let '(ok, m) := spend_at m NetworkBucket level now in
      if (ok : bool) then let '(paid, m) := pay_targets m level now targets in (target :: paid, m)
      else ([], m)
  end.

Definition new_job (group node key : string) (bucket : Bucket) (kind : string) : probeJob :=
  {| jb_Group := group; jb_Node := node; jb_Key := key; jb_Bucket := bucket; jb_Kind := kind;
     jb_Checks := ∅; jb_Exit := None; jb_Targets := []; jb_Env := EmptyString |}.

Definition planDiagnosis (m : machine) (mode : Mode) (level : energyLevel) (now : time)
    : option probeJob * machine :=
  if mc_diagBusy m || before now (mc_diagNext m) || negb (before now (mc_windowUntil m)) || negb (diagAllowed m mode)
  then (None, m)
  else
    let '(targets, m) := pay_targets m level now (diagTargets m) in
    if bool_decide (targets = []) then (None, m)
    else (Some {| (new_job EmptyString EmptyString EmptyString NetworkBucket "diagnose") with
                  jb_Targets := targets; jb_Env := mc_envKey m |},
          mark_dirty {| m with mc_diagBusy := true |}).

(** ** Buying a check *)

(** The machine while it plans, the jobs bought so far and the probes that
    may still start. *)
Record planning := { pn_m : machine; pn_jobs : list probeJob; pn_free : Z }.

(** The last check of a key is too recent to repeat. *)
Definition probed_lately (m : machine) (key : string) (now : time) : bool :=
  match mc_lastProbe m !! key with Some last => time_sub now last <? probeRepeatGap | None => false end.

(** The closure [add]: the key bought, if any. *)
Definition add_job (level : energyLevel) (now : time) (g : groupState) (lp : LayeredPolicy) (row : Ranked)
    (bucket : Bucket) (kind : string) (st : planning) : option string * planning :=
  let m := pn_m st in
  if pn_free st <=? 0 then (None, st)
  else match keyOf m (gs_name g) (rw_Name row) with
  | None => (None, st)
  | Some key =>
      if bool_decide (is_Some (mc_inflight m !! key)) then (None, st)
      else if probed_lately m key now && negb (eqs kind "confirm") then (None, st)
      else
        let '(ok, m) := spend_at m bucket level now in
        if negb ok then (None, {| st with pn_m := m |})
        else
          let job := new_job (gs_name g) (rw_Name row) key bucket kind in
          let '(job, m) := if is_confirm_kind kind then (job, m) else attachExtras m job (active g lp) level now in
          (Some key,
           {| pn_m := mark_dirty {| m with mc_inflight := <[key := job]> (mc_inflight m);
                                           mc_lastProbe := <[key := now]> (mc_lastProbe m) |};
              pn_jobs := pn_jobs st ++ [job]; pn_free := pn_free st -i 1 |})
  end.

Definition plan_put (st : planning) (name : string) (g : groupState) : planning :=
  {| st with pn_m := put_group (pn_m st) name g |}.

Section group.
Context (md : Mode) (lv : energyLevel) (now : time) (name : string) (lp : LayeredPolicy).

(** A suspect current node is checked together with the best standby. *)
Definition plan_confirm (g : groupState) (st : planning) : planning :=
  if negb (is_none (gs_confirm g)) || before now (gs_recoverAt g) then st
  else match rowOf (dc_Ranking (gs_decision g)) (gs_now g) with
  | None => st
  | Some row =>
      let '(bought, st) := add_job lv now g lp row RecoverBucket "confirm" st in
      match bought with
      | None => st
      | Some key =>
          let c := {| cf_key := key; cf_standby := EmptyString; cf_pending := 1; cf_failed := false;
                      cf_standbyDown := false |} in
          let '(c, st) :=
            match standbyOrder (gs_decision g) with
            | [] => (c, st)
            | standby :: _ =>
                let '(second, st) := add_job lv now g lp standby RecoverBucket "confirm-standby" st in
                (match second with
                 | Some key => {| c with cf_standby := key; cf_pending := 2 |}
                 | None => c
                 end, st)
            end in
          plan_put st name {| g with gs_confirm := Some c |}
      end
  end.

(** Buy checks for the rows until [limit] are sent; [sent] counts them. *)
Fixpoint buy_rows (limit : nat) (bucket : Bucket) (kind : string) (g : groupState) (sent : nat)
    (rows : list Ranked) (st : planning) : nat * planning :=
  match rows with
  | [] => (sent, st)
  | row :: rows =>
      if (sent <? limit)%nat then
        let '(bought, st) := add_job lv now g lp row bucket kind st in
        buy_rows limit bucket kind g (if is_none bought then sent else S sent) rows st
      else buy_rows limit bucket kind g sent rows st
  end.

Definition plan_recover (g : groupState) (st : planning) : planning :=
  let '(sent, st) := buy_rows recoverPassSize RecoverBucket "recover" g 0 (recoverOrder (dc_Ranking (gs_decision g))) st in
  if (0 <? sent)%nat then plan_put st name {| (next_recover g now) with gs_recoverArmed := false |} else st.

(** The checks a decision waits for. *)
Definition plan_needs (g : groupState) (st : planning) : planning :=
  foldl (λ st need, match rowOf (dc_Ranking (gs_decision g)) need with
                    | Some row => snd (add_job lv now g lp row DiscoverBucket "confirm-better" st)
                    | None => st
                    end) st (dc_Needs (gs_decision g)).

(** Whether a row's latency is too old, on the current network. *)
Definition stale_at (row : Ranked) (st : planning) : bool * planning :=
  let '(env, m) := env_at (pn_m st) now in
  (stale row now (Freshness env now), {| st with pn_m := m |}).

Definition maintain_current (g : groupState) (st : planning) : planning :=
  if pl_Improve (lp_Base lp) || checksNode (active g lp) then
    match rowOf (dc_Ranking (gs_decision g)) (gs_now g) with
    | None => st
    | Some row =>
        let '(old, st) := stale_at row st in
        let '(due, st) :=
          if (old : bool) then (true, st)
          else let '(due, m) := extrasDue (pn_m st) (active g lp) (keyFor (pn_m st) (gs_name g) (rw_Name row)) now in
               (due, {| st with pn_m := m |}) in
        if due then snd (add_job lv now g lp row MaintainBucket "maintain" st) else st
    end
  else st.

Fixpoint maintain_standbys (g : groupState) (sent : nat) (rows : list Ranked) (st : planning) : planning :=
  match rows with
  | [] => st
  | row :: rows =>
      if (maintainStandbys <=? sent)%nat then st
      else
        let '(old, st) := stale_at row st in
        if negb old then maintain_standbys g (S sent) rows st
        else
          let '(bought, st) := add_job lv now g lp row MaintainBucket "maintain" st in
          maintain_standbys g (if is_none bought then sent else S sent) rows st
  end.

Definition plan_maintain (g : groupState) (st : planning) : groupState * planning :=
  if after now (gs_maintainAt g) then
    let st := maintain_current g st in
    let st := maintain_standbys g 0 (standbyOrder (gs_decision g)) st in
    let g := {| g with gs_maintainAt := time_add now (el_standbyEvery lv) |} in
    (g, plan_put st name g)
  else (g, st).

(** [g.members[g.byName[row.Name]].Server]: a name [byName] lacks reads the
    first member, and a group without members panics. *)
Definition server_of (g : groupState) (row : Ranked) : option string :=
  (λ mb, nd_Server (mb_Node mb)) <$> gs_members g !! default 0%nat (gs_byName g !! rw_Name row).

Fixpoint discover_rows (g : groupState) (sent : nat) (servers : gset string) (rows : list Ranked)
    (st : planning) : option planning :=
  match rows with
  | [] => Some st
  | row :: rows =>
      if (discoverPerWindow <=? sent)%nat then Some st
      else
        server ← server_of g row;
        if bool_decide (server ∈ servers) then discover_rows g sent servers rows st
        else
          let '(old, st) := stale_at row st in
          if negb old then discover_rows g sent servers rows st
          else
            let '(bought, st) := add_job lv now g lp row DiscoverBucket "discover" st in
            match bought with
            | None => discover_rows g sent servers rows st
            | Some _ => discover_rows g (S sent) ({[server]} ∪ servers) rows st
            end
  end.

Definition plan_discover (g : groupState) (st : planning) : option planning :=
  if pl_Improve (lp_Base lp) && in_mode md ActiveMode
  then discover_rows g 0 ∅ (discoverOrder (gs_decision g)) st else Some st.

(** The checks of one group. *)
Definition plan_driven (g : groupState) (st : planning) : option planning :=
  if gs_suspect g then Some (plan_confirm g st)
  else if needsRecovery g && after now (gs_recoverAt g) && (negb (in_mode md BackgroundMode) || gs_recoverArmed g)
    then Some (plan_recover g st)
  else if in_mode md BackgroundMode || in_mode md IdleMode || negb (before now (mc_windowUntil (pn_m st))) ||
          before now (mc_wakeAt (pn_m st))
    then Some st
  else
    let st := plan_needs g st in
    let '(g, st) := plan_maintain g st in
    plan_discover g st.
End group.

(** The groups the planner looks after. *)
Definition driven (m : machine) (name : string) (g : groupState) : option LayeredPolicy :=
  match gs_policy g with
  | None => None
  | Some lp =>
      if is_manual m name || paused g || idle m (gs_name g) || negb (empty (pl_Fixed (active g lp)))
      then None else Some lp
  end.

Definition plan_group (md : Mode) (lv : energyLevel) (now : time) (st : planning) (name : string) : option planning :=
  let g := group_of (pn_m st) name in
  match driven (pn_m st) name g with
  | None => Some st
  | Some lp => plan_driven md lv now name lp g st
  end.

Fixpoint plan_groups (md : Mode) (lv : energyLevel) (now : time) (names : list string) (st : planning)
    : option planning :=
  match names with
  | [] => Some st
  | name :: names => st ← plan_group md lv now st name; plan_groups md lv now names st
  end.

(** [len] is an [int], so the difference with it cannot overflow. *)
Definition plan_start (m : machine) (md : Mode) (lv : energyLevel) (now : time) : planning :=
  let '(job, m) := planDiagnosis m md lv now in
  {| pn_m := m; pn_jobs := match job with Some job => [job] | None => [] end;
     pn_free := probeConcurrency - Z.of_nat (size (mc_inflight m)) |}.

Definition plan (m : machine) (now : time) : option (list probeJob * machine) :=
  let md := mode m now in
  if in_mode md StoppedMode || in_mode md SleepMode then Some ([], m)
  else
    let lv := level m in
    st ← plan_groups md lv now (mc_order m) (plan_start m md lv now);
    Some (pn_jobs st, pn_m st).

(** ** The next moment *)

(** [consider]: keep the earliest moment after now. *)
Definition consider (now : time) (due t : time) : time :=
  if after t now && (is_zero due || before t due) then t else due.

(** The moments of one group; [None] when the dwell of a missing policy is
    read. *)
Definition group_due (m : machine) (md : Mode) (now : time) (due : time) (name : string) : option time :=
  let g := group_of m name in
  let ctl := control_of m name in
  let due := foldl (consider now) due (range_map (cr_Excluded ctl)).*2 in
  let due := if gs_suspect g && is_none (gs_confirm g)
             then consider now due (latest (time_add now probeRepeatGap) (gs_recoverAt g)) else due in
  let due := if needsRecovery g && (negb (in_mode md BackgroundMode) || gs_recoverArmed g)
             then consider now due (gs_recoverAt g) else due in
  due ← match dc_Until (gs_decision g) with
        | Some until =>
            if eqs (rs_Code until) "until.dwell"
            then lp ← gs_policy g;
                 Some (consider now due (time_add (cr_LastSwitch ctl) (pl_Dwell (lp_Base lp))))
            else Some due
        | None => Some due
        end;
  Some (if (in_mode md ActiveMode || in_mode md EcoMode) && before now (mc_windowUntil m)
        then consider now due (gs_maintainAt g) else due).

Fixpoint groups_due (m : machine) (md : Mode) (now : time) (due : time) (names : list string) : option time :=
  match names with
  | [] => Some due
  | name :: names => due ← group_due m md now due name; groups_due m md now due names
  end.

Definition nextDue (m : machine) (now : time) : option time :=
  let md := mode m now in
  if in_mode md StoppedMode || in_mode md SleepMode then Some zero_time
  else
    due ← groups_due m md now zero_time (mc_order m);
    Some (if before now (mc_windowUntil m)
          then let due := consider now due (mc_wakeAt m) in
               if diagAllowed m md && negb (mc_diagBusy m) && negb (bool_decide (diagTargets m = []))
               then consider now due (mc_diagNext m) else due
          else due).
End planner.
