(* ===== verification/Samples.v ===== *)
(** * A machine to compute with

    Concrete interfaces, and a machine with one group of two servers: what
    the witnesses of the machine's theorems evaluate. *)

From S2P Require Import Prelude GoText Cond Evidence Journal Identity Profile Policy Library.
From S2P Require Import Decide DecideFacts Budget Route Scenario Layers Machine Rebuild Settle Events Planner.

Module World.

#[export] Existing Instance ascii_tables.
#[export] Existing Instance natural_order.
#[export] Existing Instance DecideFacts.Sample.no_regexp.
#[export] Instance no_urls : Url := {| url_parse _ := None |}.
#[export] Instance no_suffixes : PublicSuffix := {| effective_tld_plus_one _ := None |}.
#[export] Instance no_ips : IpText := {| parse_ip _ := false |}.
#[export] Instance no_prefixes : Netip := {| parse_prefix _ := false |}.
(** Every document is a profile that only asks to improve. *)
Definition improving : Profile := {| no_profile with pr_Switch := {| no_switch with sw_Improve := Some true |} |}.

#[export] Instance empty_documents : Yaml :=
  {| yaml_any := unit; yaml_marshal _ := Ok EmptyString; yaml_profile _ := Ok improving;
     yaml_scenario _ := Err EmptyString; yaml_format _ := Err EmptyString |}.
#[export] Instance simple_only : Embedded :=
  {| builtin_profiles := [("simple"%string, EmptyString)]; builtin_scenarios := [] |}.
#[export] Instance plain_errors : ErrorText := {| error_text _ := "error"%string |}.
#[export] Existing Instance tail_hmac.
#[export] Instance fixed_salt : Random := {| random_salt := "salt"%string |}.
#[export] Instance obedient : Runtime := {| select_error _ _ _ _ := None |}.
#[export] Instance one_day : Calendar := {| date_only _ := "2026-01-01"%string |}.

Definition noon : time := 1000 * 24 * Hour.

Definition server (name : string) : Node :=
  {| nd_Name := name; nd_Provider := ""; nd_Type := "Vless"; nd_UDP := true; nd_Server := name;
     nd_Strong := name; nd_Endpoint := ""; nd_Entry := ""; nd_NameCountry := ""; nd_Via := [] |}.

Definition two_servers : GroupTopology :=
  {| gt_Name := "Proxy"; gt_Now := "slow"; gt_Members := [server "slow"; server "fast"] |}.

(** The user drives the group Proxy with the built-in profile. *)
Definition with_binding (b : Binding) : UserLayer := {| empty_user with ul_Groups := {["Proxy"%string := b]} |}.

Definition loaded (b : Binding) (groups : list GroupTopology) (m : machine) : machine :=
  rebuild {| m with mc_topology := {| empty_topology with tp_Groups := groups |}; mc_user := with_binding b |} noon.

Definition idle_machine : machine := loaded no_binding [two_servers] newMachine.

(** Routing, with the screen on and traffic just seen. *)
Definition routing (m : machine) : machine :=
  {| m with mc_running := true; mc_windowUntil := noon + Minute; mc_linkOKAt := noon - Second |}.

Definition key_of (node : string) : string := keyFor idle_machine "Proxy" node.

(** Evidence about a node on the current network. *)
Definition learn (node : string) (f : Facts) (m : machine) : machine :=
  put_facts (facts_at m (key_of node) noon).2 (key_of node) f.

Definition good (ms : Z) : Facts :=
  noteSample (noteSample no_facts (noon - 10 * Minute) ms ProbeSource) (noon - 5 * Minute) ms ProbeSource.
Definition failed_once : Facts := noteProbeFail (good 300) (noon - Minute).
Definition dead_facts : Facts := markDead (good 300) (noon - Minute).

(** The current node is dead, the other one works. *)
Definition slow_down : machine := routing (learn "fast" (good 50) (learn "slow" dead_facts idle_machine)).

(** Both work, and the group was decided. *)
Definition both_work : machine :=
  settle (routing (learn "fast" (good 50) (learn "slow" (good 60) idle_machine))) noon.

(** The config now in force gives the group no members. *)
Definition emptied : machine :=
  settle (loaded no_binding [{| two_servers with gt_Members := [] |}] both_work) noon.

(** The user gave the group a pool that does not parse. *)
Definition broken_binding : Binding := {| no_binding with bi_Pool := {| po_Include := "((("; po_Exclude := "" |} |}.

End World.
