(* ===== verification/MachineFacts.v ===== *)
(** * Facts about the machine's state

    What the machine's small operations leave alone, the confirmation of the
    network kind, and the deadline helpers. *)

From S2P Require Import Prelude GoText Cond Evidence Journal Identity Profile Policy Library.
From S2P Require Import Decide Budget Route Scenario Layers Machine.

(** ** Confirming a network kind *)

(** What one network input does to the confirmed kind, [None] an undecided
    one: the core of [classifyKind]. *)
Definition count_kind (ks : kindState) (input : option string) : kindState :=
  match input with
  | None => {| ks with kd_next := EmptyString; kd_votes := 0 |}
  | Some kind => if eqs kind (kd_kind ks) then {| ks with kd_next := EmptyString; kd_votes := 0 |}
                 else (vote ks kind).2
  end.

(** The kind after the inputs, read from the inputs alone: [prev] is the one
    before. A first kind is taken at once; another one, or none, only when
    two inputs in a row say so. *)
Fixpoint confirmed_kind (kind : string) (prev : option string) (inputs : list (option string)) : string :=
  match inputs with
  | [] => kind
  | input :: inputs =>
      let kind := match input with
                  | Some k => if (empty kind && negb (empty k)) || bool_decide (prev = Some k) then k else kind
                  | None => kind
                  end in
      confirmed_kind kind input inputs
  end.

(** What the pending vote of a state says of the input before. *)
Definition pending_ok (ks : kindState) (prev : option string) : Prop :=
  match prev with
  | Some k => if decide (k = kd_kind ks) then kd_next ks = EmptyString ∧ kd_votes ks = 0
              else kd_next ks = k ∧ kd_votes ks = 1
  | None => kd_next ks = EmptyString ∧ kd_votes ks = 0
  end.

Lemma count_kind_step ks prev input : pending_ok ks prev →
  kd_kind (count_kind ks input) = confirmed_kind (kd_kind ks) prev [input] ∧
  pending_ok (count_kind ks input) input.
Proof.
  intros Hp. destruct input as [k|]; cbn [confirmed_kind count_kind]; [|by cbn].
  destruct (decide (k = kd_kind ks)) as [->|Hk].
  { rewrite eqs_refl. cbn. rewrite decide_True by done. split; [|done].
    destruct (empty (kd_kind ks)); cbn; [|by case_bool_decide]. by case_bool_decide. }
  rewrite (proj2 (eqs_false _ _) Hk). unfold vote.
  assert (Hv : (if eqs k (kd_next ks) then kd_votes ks +i 1 else 1) =
               if bool_decide (prev = Some k) then 2 else 1).
  { destruct prev as [p|]; cbn [pending_ok] in Hp; [destruct (decide (p = kd_kind ks)) as [->|Hpk]|].
    - destruct Hp as [-> ->]. rewrite bool_decide_eq_false_2 by congruence. by destruct (eqs k "").
    - destruct Hp as [-> ->]. destruct (decide (k = p)) as [->|Hkp].
      + by rewrite eqs_refl, bool_decide_eq_true_2.
      + rewrite (proj2 (eqs_false _ _) Hkp), bool_decide_eq_false_2; [done|congruence].
    - destruct Hp as [-> ->]. rewrite bool_decide_eq_false_2 by congruence. by destruct (eqs k ""). }
  assert (Hst : (if eqs k (kd_next ks) then {| ks with kd_votes := kd_votes ks +i 1 |}
                 else {| ks with kd_next := k; kd_votes := 1 |}) =
                {| ks with kd_next := k; kd_votes := if bool_decide (prev = Some k) then 2 else 1 |}).
  { rewrite <- Hv. destruct ks as [a b c d]; cbn. destruct (eqs k b) eqn:E; [|done].
    apply eqs_true in E. by subst. }
  rewrite Hst. cbn [kd_kind kd_votes].
  destruct (empty (kd_kind ks)) eqn:Ec, (empty k) eqn:Ek; cbn [negb andb orb].
  - apply empty_true in Ec, Ek. congruence.
  - cbn. by rewrite decide_True.
  - destruct (bool_decide (prev = Some k)) eqn:Eb; cbn; [by rewrite decide_True|].
    by rewrite decide_False.
  - destruct (bool_decide (prev = Some k)) eqn:Eb; cbn; [by rewrite decide_True|].
    by rewrite decide_False.
Qed.

Lemma count_kinds ks prev inputs : pending_ok ks prev →
  kd_kind (foldl count_kind ks inputs) = confirmed_kind (kd_kind ks) prev inputs.
Proof.
  revert ks prev. induction inputs as [|input inputs IH]; intros ks prev Hp; [done|].
  destruct (count_kind_step ks prev input Hp) as [Hk Hp']. cbn [foldl]. rewrite (IH _ _ Hp'), Hk. done.
Qed.

Section classify.
Context `{Unicode} `{Regexp} `{RangeOrder} `{Yaml}.

(** Inputs of the network, each on the machine that saw it: the state after
    them and what each was classified as. *)
Fixpoint classify_run (policy : Policy) (memory group : string) (ks : kindState) (views : list (machine * time))
    : kindState * list (option string) :=
  match views with
  | [] => (ks, [])
  | (m, now) :: views =>
      let input := policy_classify policy (netSubject m (kd_kind ks) policy now).1 in
      let '(_, ks, _) := classifyKind m ks policy memory group now in
      let '(ks, inputs) := classify_run policy memory group ks views in
      (ks, input :: inputs)
  end.

(** Every view has a network input the state has not counted yet. *)
Fixpoint fresh_inputs (last : Z) (views : list (machine * time)) : Prop :=
  match views with
  | [] => True
  | (m, _) :: views => last ≠ mc_netSeq m ∧ fresh_inputs (mc_netSeq m) views
  end.

Lemma netSubject_netSeq m kind policy now : mc_netSeq (netSubject m kind policy now).2 = mc_netSeq m.
Proof.
  unfold netSubject. case_if; [done|]. destruct (env_at m now) as [env m'] eqn:Ev.
  unfold env_at in Ev. destruct (evidence_env _ _ _). by injection Ev as <- <-.
Qed.

Lemma vote_seq ks kind n :
  (vote {| ks with kd_netSeq := n |} kind).2 = {| (vote ks kind).2 with kd_netSeq := n |}.
Proof. unfold vote. cbn [kd_next kd_votes kd_kind]. destruct (eqs kind (kd_next ks)); cbn; by case_if. Qed.

(** One fresh input is one step of [count_kind]. *)
Lemma classifyKind_step m ks policy memory group now :
  pl_Kinds policy ≠ [] → kd_netSeq ks ≠ mc_netSeq m →
  (classifyKind m ks policy memory group now).1.2 =
    {| (count_kind ks (policy_classify policy (netSubject m (kd_kind ks) policy now).1)) with
       kd_netSeq := mc_netSeq m |}.
Proof.
  intros Hk Hs. unfold classifyKind. rewrite (bool_decide_eq_false_2 (pl_Kinds policy = [])) by done.
  rewrite (proj2 (Z.eqb_neq _ _) Hs).
  cbn [orb kd_kind]. destruct (netSubject m (kd_kind ks) policy now) as [n m'] eqn:En. cbn [fst].
  destruct (policy_classify policy n) as [k|]; cbn [count_kind]; [|done].
  case_if; [done|].
  destruct (vote {| ks with kd_netSeq := mc_netSeq m |} k) as [ch ks'] eqn:Ev.
  assert (Hv : ks' = {| (vote ks k).2 with kd_netSeq := mc_netSeq m |}).
  { apply (f_equal snd) in Ev. cbn [snd] in Ev. rewrite <- Ev. apply vote_seq. }
  destruct ch; by rewrite <- Hv.
Qed.

(** The network kind a group runs on. Over any fresh network inputs the
    confirmed kind is a function of what each was classified as: an
    undecided input changes nothing, a first kind is taken at once, and a
    known kind is replaced or dropped only when two inputs in a row agree on
    it; a stray classification between them cancels the count. *)
Theorem kind_confirmation policy memory group ks views :
  pl_Kinds policy ≠ [] → kd_next ks = EmptyString → kd_votes ks = 0 →
  fresh_inputs (kd_netSeq ks) views →
  kd_kind (classify_run policy memory group ks views).1 =
    confirmed_kind (kd_kind ks) None (classify_run policy memory group ks views).2.
Proof.
  intros Hk Hn Hv. assert (Hp : pending_ok ks None) by done. revert Hp. clear Hn Hv.
  generalize (@None string). revert ks. induction views as [|[m now] views IH]; intros ks prev Hp Hf; [done|].
  destruct Hf as [Hs Hf]. cbn [classify_run].
  pose proof (classifyKind_step m ks policy memory group now Hk Hs) as Hstep.
  destruct (classifyKind m ks policy memory group now) as [[b ks'] m']. cbn [fst snd] in Hstep.
  set (input := policy_classify _ _) in *.
  destruct (count_kind_step ks prev input Hp) as [Hc Hp'].
  specialize (IH ks' input). destruct (classify_run policy memory group ks' views) as [ks'' inputs].
  cbn [fst snd]. cbn [fst snd] in IH. subst ks'. cbn in *. rewrite IH; [by rewrite Hc | |done].
  destruct input as [k|]; done.
Qed.
End classify.

(** ** What the small operations leave alone *)

Section quiet.
Context `{Unicode} `{Regexp} `{RangeOrder} `{Yaml}.

(** [m'] is [m] but for what it learned, paid and noted. *)
Definition quiet (m m' : machine) : Prop :=
  m' = {| m with mc_evidence := mc_evidence m'; mc_journal := mc_journal m'; mc_budget := mc_budget m';
                 mc_diagNext := mc_diagNext m'; mc_diagForced := mc_diagForced m'; mc_diagBusy := mc_diagBusy m';
                 mc_dirty := mc_dirty m'; mc_statusDirty := mc_statusDirty m' |}.

#[export] Instance quiet_preorder : PreOrder quiet.
Proof.
  split.
  - by intros [].
  - intros a b c Hab Hbc. unfold quiet in *. rewrite Hbc, Hab. done.
Qed.

Lemma env_at_quiet m now : quiet m (env_at m now).2.
Proof. unfold env_at. by destruct (evidence_env _ _ _). Qed.
Lemma put_env_at_quiet m env : quiet m (put_env_at m env).
Proof. done. Qed.
Lemma put_facts_quiet m key f : quiet m (put_facts m key f).
Proof. done. Qed.
Lemma note_quiet m now g k a b r : quiet m (note m now g k a b r).
Proof. done. Qed.
Lemma mark_status_quiet m : quiet m (mark_status m).
Proof. done. Qed.
Lemma mark_dirty_quiet m : quiet m (mark_dirty m).
Proof. done. Qed.

Lemma facts_at_quiet m key now : quiet m (facts_at m key now).2.
Proof.
  unfold facts_at. pose proof (env_at_quiet m now) as Hq. destruct (env_at m now) as [env m1].
  destruct (env_facts env key) as [f env']. by etrans; [exact Hq|].
Qed.

Lemma netSubject_quiet m kind policy now : quiet m (netSubject m kind policy now).2.
Proof.
  unfold netSubject. case_if; [done|]. pose proof (env_at_quiet m now) as Hq. by destruct (env_at m now).
Qed.

Lemma recall_quiet m memory now : quiet m (recall m memory now).2.
Proof.
  unfold recall. case_if; [done|]. pose proof (env_at_quiet m now) as Hq. by destruct (env_at m now).
Qed.

Lemma recallKind_quiet m g now : quiet m (recallKind m g now).2.
Proof.
  unfold recallKind. pose proof (recall_quiet m match gs_policy g with Some lp => pl_ID (lp_Base lp) | None => "" end now).
  by destruct (recall _ _ _).
Qed.

Lemma remember_kind_quiet m memory kind now : quiet m (remember_kind m memory kind now).
Proof.
  unfold remember_kind. pose proof (env_at_quiet m now) as Hq. destruct (env_at m now) as [env m1].
  etrans; [exact Hq | apply put_env_at_quiet].
Qed.

Lemma classifyKind_quiet m ks policy memory group now : quiet m (classifyKind m ks policy memory group now).2.
Proof.
  unfold classifyKind. case_if; [done|].
  pose proof (netSubject_quiet m (kd_kind {| ks with kd_netSeq := mc_netSeq m |}) policy now) as Hq.
  destruct (netSubject _ _ _ _) as [n m1]. cbn [snd] in Hq.
  destruct (policy_classify policy n); [|done]. case_if; [done|].
  destruct (vote _ _) as [changed ks']. destruct changed; cbn [snd].
  - etrans; [exact Hq|]. etrans; [apply remember_kind_quiet|]. etrans; [apply note_quiet | apply mark_dirty_quiet].
  - etrans; [exact Hq|]. by unfold quiet; destruct m1.
Qed.

Lemma classify_quiet m g now : quiet m (classify m g now).2.
Proof.
  unfold classify. destruct (gs_policy g) as [lp|]; [|done].
  pose proof (classifyKind_quiet m (gs_kind g) (lp_Base lp) (pl_ID (lp_Base lp)) (gs_name g) now).
  by destruct (classifyKind _ _ _ _ _ _) as [[changed ks] m1].
Qed.

(** Classifying a group changes nothing of it but the kind and the time of
    its next maintenance. *)
Lemma classify_group m g now :
  (classify m g now).1 = {| g with gs_kind := gs_kind (classify m g now).1;
                                   gs_maintainAt := gs_maintainAt (classify m g now).1 |}.
Proof.
  unfold classify. destruct g as [? ? ? ? ? policy]; cbn. destruct policy as [lp|]; [|done].
  destruct (classifyKind _ _ _ _ _ _) as [[changed ks] m1]. by destruct changed.
Qed.

Lemma decideWith_quiet m g base policy now : quiet m (decideWith m g base policy now).2.
Proof.
  unfold decideWith. pose proof (env_at_quiet m now) as Hq. destruct (env_at m now) as [env m1].
  pose proof (netSubject_quiet m1 (kd_kind (gs_kind g)) base now) as Hn.
  destruct (netSubject _ _ _ _) as [net m2]. by etrans; [exact Hq | exact Hn].
Qed.

End quiet.

#[export] Hint Resolve env_at_quiet put_env_at_quiet put_facts_quiet note_quiet mark_status_quiet mark_dirty_quiet
  facts_at_quiet netSubject_quiet recall_quiet recallKind_quiet remember_kind_quiet classifyKind_quiet
  classify_quiet decideWith_quiet : rcx.

(** ** Well-formed machines *)

Section shape.
Context `{Unicode} `{Regexp} `{RangeOrder} `{Yaml}.

(** A group's index of names: an entry points at a member of that name, and
    every member has an entry. *)
Record group_ok (name : string) (g : groupState) : Prop := {
  go_name : gs_name g = name;
  go_index : ∀ node i, gs_byName g !! node = Some i → ∃ mb, gs_members g !! i = Some mb ∧ mb_Name mb = node;
  go_all : ∀ mb, mb ∈ gs_members g → is_Some (gs_byName g !! mb_Name mb);
}.

(** The order lists every group once, and every group has its control. *)
Record wf (m : machine) : Prop := {
  wf_nodup : NoDup (mc_order m);
  wf_dom : ∀ name, name ∈ mc_order m ↔ is_Some (mc_groups m !! name);
  wf_group : ∀ name g, mc_groups m !! name = Some g → group_ok name g;
  wf_control : ∀ name, name ∈ mc_order m → is_Some (mc_controls m !! name);
}.

(** The parts of a group that only [rebuild] writes. *)
Record same_group (g g' : groupState) : Prop := {
  sg_name : gs_name g' = gs_name g;
  sg_members : gs_members g' = gs_members g;
  sg_byName : gs_byName g' = gs_byName g;
  sg_policy : gs_policy g' = gs_policy g;
  sg_binding : gs_binding g' = gs_binding g;
}.

#[export] Instance same_group_preorder : PreOrder same_group.
Proof. split; [done|]. intros a b c [] []. split; congruence. Qed.

(** Nothing [rebuild] decides has changed. *)
Record shape (m m' : machine) : Prop := {
  sh_order : mc_order m' = mc_order m;
  sh_groups : ∀ name, option_relation same_group (λ _, False) (λ _, False) (mc_groups m !! name) (mc_groups m' !! name);
  sh_controls : ∀ name, is_Some (mc_controls m !! name) → is_Some (mc_controls m' !! name);
}.

#[export] Instance shape_preorder : PreOrder shape.
Proof.
  split.
  - intros m. split; [done| |auto]. intros name. by destruct (mc_groups m !! name).
  - intros a b c [Ho Hg Hc] [Ho' Hg' Hc']. split; [congruence| |auto]. intros name.
    specialize (Hg name). specialize (Hg' name).
    destruct (mc_groups a !! name), (mc_groups b !! name), (mc_groups c !! name); cbn in *; try done.
    by etrans.
Qed.

Lemma group_ok_same name g g' : same_group g g' → group_ok name g → group_ok name g'.
Proof. intros [En Em Eb _ _] [? ? ?]. by split; rewrite ?En, ?Em, ?Eb. Qed.

Lemma shape_wf m m' : shape m m' → wf m → wf m'.
Proof.
  intros [Ho Hg Hc] [Hn Hd Hk Hl]. split.
  - by rewrite Ho.
  - intros name. rewrite Ho, Hd. specialize (Hg name).
    destruct (mc_groups m !! name), (mc_groups m' !! name); cbn in Hg; rewrite <- ?not_eq_None_Some; naive_solver.
  - intros name g' E. specialize (Hg name). rewrite E in Hg.
    destruct (mc_groups m !! name) as [g|] eqn:Eg; cbn in Hg; [|done].
    by eapply group_ok_same, Hk.
  - intros name. rewrite Ho. auto.
Qed.

(** Fields [shape] does not speak of may change at will. *)
Lemma shape_eq m m' : mc_order m' = mc_order m → mc_groups m' = mc_groups m → mc_controls m' = mc_controls m →
  shape m m'.
Proof. intros Ho Hg Hc. split; rewrite ?Ho, ?Hg, ?Hc; [done| |auto]. intros name. by destruct (mc_groups m !! name). Qed.

Lemma quiet_shape m m' : quiet m m' → shape m m'.
Proof. intros Hq. apply shape_eq; by rewrite Hq. Qed.

Lemma put_group_shape m name g g' : mc_groups m !! name = Some g → same_group g g' → shape m (put_group m name g').
Proof.
  intros E Hs. split; [done| |auto]. intros n. cbn. destruct (decide (n = name)) as [->|Hn].
  - by rewrite lookup_insert_eq, E.
  - rewrite lookup_insert_ne by done. by destruct (mc_groups m !! n).
Qed.

Lemma put_control_shape m name c : shape m (put_control m name c).
Proof.
  split; [done| |].
  - intros n. by destruct (mc_groups m !! n) eqn:E; cbn; rewrite E.
  - intros n. cbn. intros. destruct (decide (n = name)) as [->|]; [by rewrite lookup_insert_eq | by rewrite lookup_insert_ne].
Qed.

Lemma shape_group m m' name g : shape m m' → mc_groups m !! name = Some g →
  ∃ g', mc_groups m' !! name = Some g' ∧ same_group g g'.
Proof.
  intros Hs E. pose proof (sh_groups _ _ Hs name) as Hg. rewrite E in Hg.
  destruct (mc_groups m' !! name) as [g'|]; cbn in Hg; [eauto | done].
Qed.

Lemma group_of_Some m name g : mc_groups m !! name = Some g → group_of m name = g.
Proof. intros E. unfold group_of. by rewrite E. Qed.

Lemma wf_lookup m name : wf m → name ∈ mc_order m → ∃ g, mc_groups m !! name = Some g ∧ group_ok name g.
Proof. intros Hw Hin. apply (wf_dom _ Hw) in Hin as [g E]. eauto using wf_group. Qed.

Lemma policy_group m name lp : gs_policy (group_of m name) = Some lp → mc_groups m !! name = Some (group_of m name).
Proof. unfold group_of. by destruct (mc_groups m !! name). Qed.

(** Every group is stored under its own name. *)
Definition names_ok (m : machine) : Prop := ∀ name g, mc_groups m !! name = Some g → gs_name g = name.

Lemma group_of_name m name : names_ok m → gs_name (group_of m name) = name.
Proof. intros Hn. unfold group_of. destruct (mc_groups m !! name) as [g|] eqn:E; [by apply Hn | done]. Qed.

Lemma wf_names m : wf m → names_ok m.
Proof. intros Hw name g E. apply (wf_group _ Hw _ _ E). Qed.
End shape.
