(* ===== verification/SettleFacts.v ===== *)
(** * Facts about settling

    What one pass over the groups may ask of the core, and that it keeps the
    machine well formed. *)

From S2P Require Import Prelude GoText Cond Evidence Journal Identity Profile Policy Library.
From S2P Require Import Decide DecideFacts Budget Route Scenario Layers Machine MachineFacts Rebuild Settle.

Section facts.
Context `{Unicode} `{Regexp} `{Url} `{PublicSuffix} `{IpText} `{RangeOrder} `{Netip}.
Context `{Yaml} `{Embedded} `{ErrorText} `{Hmac} `{Random} `{Runtime}.

(** What settling one group asked of the core: nothing, the selection of
    another member, or that and the end of the connections of the old one. *)
Inductive group_calls (g : groupState) : list Call → Prop :=
  | calls_none : group_calls g []
  | calls_select node :
      node ∈ mb_Name <$> gs_members g → node ≠ gs_now g →
      group_calls g [CallSelect (gs_name g) (via g node) node]
  | calls_failover node :
      node ∈ mb_Name <$> gs_members g → node ≠ gs_now g → gs_now g ≠ EmptyString →
      group_calls g [CallSelect (gs_name g) (via g node) node; CallClose (gs_name g) (gs_now g)].

(** The member a list of calls selects. *)
Definition selects (cs : list Call) (name node : string) : Prop := ∃ route, CallSelect name route node ∈ cs.

(** One group settled, with the calls [cs]. *)
Record settled (name : string) (m m' : machine) (cs : list Call) : Prop := {
  st_calls : mc_calls m' = mc_calls m ++ cs;
  st_kind : group_calls (group_of m name) cs;
  st_running : cs ≠ [] → mc_running m = true ∧ idle m name = false ∧ is_manual m name = false;
  st_now : gs_now (group_of m' name) ≠ gs_now (group_of m name) → selects cs name (gs_now (group_of m' name));
  st_others : ∀ n, n ≠ name → mc_groups m' !! n = mc_groups m !! n;
  st_manual : ∀ n, is_manual m' n = is_manual m n;
  st_shape : shape m m';
  st_rest : mc_running m' = mc_running m ∧ mc_modeWish m' = mc_modeWish m ∧ mc_userMode m' = mc_userMode m ∧
    mc_inflight m' = mc_inflight m;
}.

Lemma settled_none name m : settled name m m [].
Proof. split; try done; [by rewrite app_nil_r | constructor]. Qed.

(** A quiet change and a new decision keep the group where it is. *)
Lemma settled_quiet name m m' g g' :
  mc_groups m !! name = Some g → quiet m m' → same_group g g' → gs_now g' = gs_now g →
  settled name m (put_group m' name g') [].
Proof.
  intros E Hq Hs Hn. assert (Hg : mc_groups m' = mc_groups m) by (by rewrite Hq).
  split; try done.
  - rewrite app_nil_r. cbn. by rewrite Hq.
  - constructor.
  - unfold group_of. cbn. by rewrite lookup_insert_eq, E.
  - intros n ?. cbn. by rewrite lookup_insert_ne, Hg.
  - intros n. unfold is_manual, control_of. cbn. by rewrite Hq.
  - etrans; [by apply quiet_shape | by eapply put_group_shape; [rewrite Hg|]].
  - cbn. by rewrite Hq.
Qed.

Lemma idle_eq m m' name : mc_modeWish m' = mc_modeWish m → mc_userMode m' = mc_userMode m → idle m' name = idle m name.
Proof. unfold idle, tunnelMode. by intros -> ->. Qed.

Lemma same_group_classify m g now : same_group g (classify m g now).1.
Proof. rewrite classify_group. by split. Qed.

Lemma keep_decision_quiet m name g d now :
  ∃ m1, quiet m m1 ∧ keep_decision m name g d now = put_group m1 name {| g with gs_decision := d |}.
Proof.
  unfold keep_decision. case_if; [by exists m|]. cbn zeta. case_if.
  - eexists. split; [|done]. etrans; [apply note_quiet | apply mark_status_quiet].
  - eexists. split; [|done]. apply mark_status_quiet.
Qed.

(** Marking and noting after a call. *)
Lemma is_manual_record m m' name now : mc_controls m' = mc_controls m →
  ∀ n, is_manual (put_control m' name (record_switch (control_of m' name) now)) n = is_manual m n.
Proof.
  intros E n. unfold is_manual, control_of. cbn. rewrite E. destruct (decide (n = name)) as [->|Hn].
  - rewrite lookup_insert_eq. by destruct (mc_controls m !! name).
  - by rewrite lookup_insert_ne.
Qed.

(** What carrying a switch out leaves of the machine. *)
Record switched (name : string) (m m' : machine) (cs : list Call) : Prop := {
  sw_calls : mc_calls m' = mc_calls m ++ cs;
  sw_groups : mc_groups m' = mc_groups m;
  sw_manual : ∀ n, is_manual m' n = is_manual m n;
  sw_shape : shape m m';
  sw_rest : mc_running m' = mc_running m ∧ mc_modeWish m' = mc_modeWish m ∧ mc_userMode m' = mc_userMode m ∧
    mc_inflight m' = mc_inflight m;
}.

Lemma switched_then name a b c cs : switched name a b cs → quiet b c → switched name a c cs.
Proof.
  intros [Hc Hg Hm Hs Hr] Hq. split.
  - rewrite Hq. exact Hc.
  - rewrite Hq. exact Hg.
  - intros n. rewrite <- Hm. unfold is_manual, control_of. by rewrite Hq.
  - etrans; [exact Hs | by apply quiet_shape].
  - rewrite Hq. exact Hr.
Qed.

Lemma switched_call name m c : switched name m (call m c) [c].
Proof. split; try done. by apply shape_eq. Qed.

Lemma switched_app name a b c cs cs' : switched name a b cs → switched name b c cs' → switched name a c (cs ++ cs').
Proof.
  intros [A1 A2 A3 A4 (A5 & A6 & A7 & A8)] [B1 B2 B3 B4 (B5 & B6 & B7 & B8)]. split; try congruence.
  - by rewrite B1, A1, app_assoc.
  - by etrans.
  - split_and!; congruence.
Qed.

Lemma switched_record name m now : switched name m (put_control m name (record_switch (control_of m name) now)) [].
Proof.
  split; try done; [by rewrite app_nil_r | by apply is_manual_record | apply put_control_shape].
Qed.

Inductive switch_outcome (m : machine) (name : string) (g : groupState) (d : Decision)
    : groupState * Decision * machine → Prop :=
  | switch_not : switch_outcome m name g d (g, d, m)
  | switch_refused d' m' :
      dc_Action d = SwitchAction → mc_running m = true → dc_Target d ≠ gs_now g →
      switched name m m' [CallSelect (gs_name g) (via g (dc_Target d)) (dc_Target d)] →
      switch_outcome m name g d (g, d', m')
  | switch_done g' d' m' rest :
      dc_Action d = SwitchAction → mc_running m = true → dc_Target d ≠ gs_now g →
      same_group g g' → gs_now g' = dc_Target d →
      rest = [] ∨ gs_now g ≠ EmptyString ∧ rest = [CallClose (gs_name g) (gs_now g)] →
      switched name m m' (CallSelect (gs_name g) (via g (dc_Target d)) (dc_Target d) :: rest) →
      switch_outcome m name g d (g', d', m').

Lemma apply_switch_outcome m name g d now : switch_outcome m name g d (apply_switch m name g d now).
Proof.
  unfold apply_switch. case_if; [|constructor].
  apply andb_true_iff in E as [[Ha%bool_decide_eq_true Hr]%andb_true_iff Ht%negb_true_iff%eqs_false].
  cbn zeta. set (route := via g (dc_Target d)).
  pose proof (switched_call name m (CallSelect (gs_name g) route (dc_Target d))) as Hc.
  destruct (select_error _ _ _ _) as [error|]; [by eapply switch_refused|].
  pose proof (switched_app _ _ _ _ _ _ Hc (switched_record name _ now)) as Hs. cbn [app] in Hs.
  destruct (eqs (rs_Code (dc_Reason (rank_current _ d))) "switch.failover" && negb (empty (gs_now g))) eqn:Ef.
  - apply andb_true_iff in Ef as [_ Hf%negb_true_iff%empty_false].
    eapply (switch_done _ _ _ _ _ _ _ [CallClose (gs_name g) (gs_now g)]); try done; [by right|].
    eapply switched_then; [exact (switched_app _ _ _ _ _ _ Hs (switched_call name _ _)) | done].
  - eapply (switch_done _ _ _ _ _ _ _ []); try done; [by left|]. eapply switched_then; [exact Hs | done].
Qed.

(** A carried-out switch of a group of the order, and its new record. *)
Lemma switched_settled name m m' cs g g' :
  mc_groups m !! name = Some g → switched name m m' cs → same_group g g' →
  group_calls g cs → (cs ≠ [] → mc_running m = true ∧ idle m name = false ∧ is_manual m name = false) →
  (gs_now g' ≠ gs_now g → selects cs name (gs_now g')) →
  settled name m (put_group m' name g') cs.
Proof.
  intros E [Hc Hg Hm Hs Hr] Hsame Hk Hrun Hnow. pose proof (group_of_Some _ _ _ E) as Eg. split; try done.
  - by rewrite Eg.
  - unfold group_of at 1 3. cbn. rewrite lookup_insert_eq, Eg. exact Hnow.
  - intros n ?. cbn. by rewrite lookup_insert_ne, Hg.
  - etrans; [exact Hs|]. eapply put_group_shape; [by rewrite Hg | exact Hsame].
Qed.

Lemma decideGroup_target m g lp now :
  is_switch (decideGroup m g lp now).1 → dc_Target (decideGroup m g lp now).1 ∈ mb_Name <$> gs_members g.
Proof.
  unfold decideGroup, decideWith. destruct (env_at m now) as [env m1]. destruct (netSubject _ _ _ _) as [net m2].
  cbn [fst]. intros Hs. apply Decide_target in Hs as (mb & Hin & <-). cbn [di_Members] in Hin.
  apply list_elem_of_fmap in Hin as (mb0 & -> & Hin). apply list_elem_of_fmap. exists mb0. done.
Qed.

(** A group under manual control is never switched. *)
Lemma decideGroup_manual m g lp now :
  is_switch (decideGroup m g lp now).1 → is_manual m (gs_name g) = false.
Proof.
  unfold decideGroup, decideWith. destruct (env_at m now) as [env m1]. destruct (netSubject _ _ _ _) as [net m2].
  cbn [fst]. unfold is_manual, is_mode. intros Hs. apply bool_decide_eq_false_2. intros Hm. revert Hs.
  unfold Decide, control_here, is_mode. cbn [di_Control]. rewrite Hm.
  rewrite (bool_decide_eq_false_2 (ManualMode = PinnedMode)) by done. cbn [andb].
  by rewrite Hm, bool_decide_eq_true_2.
Qed.

(** Settling one group: the groups around it and every mode stay, and it
    moves only by a selection the core took. *)
Lemma settle_group_settled m name now : (∀ g, mc_groups m !! name = Some g → gs_name g = name) →
  ∃ cs, settled name m (settle_group now m name) cs.
Proof.
  intros Hname. unfold settle_group. destruct (gs_policy (group_of m name)) as [lp|] eqn:Ep.
  2: { exists []. apply settled_none. }
  pose proof (policy_group _ _ _ Ep) as E. pose proof (Hname _ E) as Hn. set (g := group_of m name) in *. cbn zeta.
  case_if; [exists []; apply settled_none|]. case_if.
  { exists []. case_if; (eapply settled_quiet; [exact E | | by split | done]); [done | apply mark_status_quiet]. }
  pose proof (classify_quiet m g now) as Hq1. pose proof (same_group_classify m g now) as Hs1.
  assert (Hnow1 : gs_now (classify m g now).1 = gs_now g) by (by rewrite classify_group).
  destruct (classify m g now) as [g1 m1]. cbn [fst snd] in *.
  pose proof (decideWith_quiet m1 g1 (lp_Base lp) (active g1 lp) now) as Hq2.
  pose proof (decideGroup_target m1 g1 lp now) as Htarget.
  pose proof (decideGroup_manual m1 g1 lp now) as Hman. unfold decideGroup in *.
  destruct (decideWith m1 g1 _ _ now) as [d m2]. cbn [fst snd] in *.
  set (g2 := {| g1 with gs_force := false |}).
  assert (Hs2 : same_group g g2) by (etrans; [exact Hs1 | by split]).
  assert (Hq : quiet m m2) by (by etrans).
  pose proof (apply_switch_outcome m2 name g2 d now) as Hout.
  destruct (apply_switch m2 name g2 d now) as [[g3 d3] m3].
  destruct (keep_decision_quiet m3 name g3 d3 now) as (m4 & Hq4 & ->).
  assert (Hvia : via g2 (dc_Target d) = via g (dc_Target d)).
  { unfold via. by rewrite (sg_byName _ _ Hs2), (sg_members _ _ Hs2). }
  assert (Hnow2 : gs_now g2 = gs_now g) by done.
  assert (Hmanual : dc_Action d = SwitchAction → is_manual m name = false).
  { intros Ha. rewrite <- Hn, <- (sg_name _ _ Hs1), <- (Hman Ha). unfold is_manual, control_of. by rewrite Hq1. }
  assert (Hname2 : gs_name g2 = gs_name g) by apply Hs2.
  assert (Hpass : ∀ cs, switched name m2 m3 cs → switched name m m4 cs).
  { intros cs Hsw. eapply switched_then; [|exact Hq4].
    apply (switched_app name m m2 m3 [] cs); [|exact Hsw].
    eapply switched_then; [|exact Hq]. by split; rewrite ?app_nil_r. }
  remember (g3, d3, m3) as out eqn:Eo. destruct Hout as [|d' m' Ha Hr Ht Hsw|g' d' m' rest Ha Hr Ht Hsg Hg' Hrest Hsw];
    injection Eo as -> -> ->.
  - exists []. eapply settled_quiet; [exact E | by etrans | etrans; [exact Hs2 | by split] | done].
  - exists [CallSelect (gs_name g) (via g (dc_Target d)) (dc_Target d)].
    eapply switched_settled; [exact E | apply Hpass; by rewrite <- Hname2, <- Hvia
      | etrans; [exact Hs2 | by split] | | | done].
    + constructor; [|by rewrite <- Hnow2]. rewrite <- (sg_members _ _ Hs1). by apply Htarget.
    + intros _. split_and!; [rewrite Hq in Hr; exact Hr | by rewrite <- Hn | by apply Hmanual].
  - exists (CallSelect (gs_name g) (via g (dc_Target d)) (dc_Target d) :: rest).
    eapply switched_settled; [exact E | apply Hpass; by rewrite <- Hname2, <- Hvia
      | etrans; [exact Hs2|]; etrans; [exact Hsg | by split] | | |].
    + assert (Hin : dc_Target d ∈ mb_Name <$> gs_members g).
      { rewrite <- (sg_members _ _ Hs1). by apply Htarget. }
      rewrite Hnow2 in *. destruct Hrest as [->|[He ->]]; [by constructor|]. rewrite Hname2. by constructor.
    + intros _. split_and!; [rewrite Hq in Hr; exact Hr | by rewrite <- Hn | by apply Hmanual].
    + intros _. exists (via g (dc_Target d)). cbn. rewrite Hg', Hn. left.
Qed.

(** What one group of a pass did: its calls, and where it went. *)
Definition group_done (m m' : machine) (name : string) (cs : list Call) : Prop :=
  group_calls (group_of m name) cs ∧
  (cs ≠ [] → mc_running m = true ∧ idle m name = false ∧ is_manual m name = false) ∧
  (gs_now (group_of m' name) ≠ gs_now (group_of m name) → selects cs name (gs_now (group_of m' name))).

Lemma names_ok_shape m m' : shape m m' → names_ok m → names_ok m'.
Proof.
  intros Hs Hn name g E. pose proof (sh_groups _ _ Hs name) as Hg. rewrite E in Hg.
  destruct (mc_groups m !! name) as [g0|] eqn:E0; cbn in Hg; [|done]. rewrite (sg_name _ _ Hg). by apply Hn.
Qed.

Lemma settle_list names m now : NoDup names → names_ok m →
  let m' := foldl (settle_group now) m names in
  ∃ css, mc_calls m' = mc_calls m ++ concat css ∧ Forall2 (group_done m m') names css ∧ shape m m' ∧
    mc_inflight m' = mc_inflight m ∧ ∀ n, n ∉ names → mc_groups m' !! n = mc_groups m !! n.
Proof.
  cbn zeta. revert m. induction names as [|name names IH]; intros m Hnd Hn.
  { exists []. split_and!; [by rewrite app_nil_r | constructor | done..]. }
  apply NoDup_cons in Hnd as [Hname Hnd]. cbn [foldl].
  destruct (settle_group_settled m name now (Hn name)) as [cs Hst].
  set (m1 := settle_group now m name) in *.
  destruct Hst as [Hcalls Hkind Hrun Hnow Hothers Hman Hshape (Hr1 & Hr2 & Hr3 & Hr4)].
  destruct (IH m1 Hnd) as (css & Hc & Hf & Hsh & Hi & Ho).
  { eapply names_ok_shape; [exact Hshape | exact Hn]. }
  set (m' := foldl (settle_group now) m1 names) in *. exists (cs :: css).
  assert (Hlast : group_of m' name = group_of m1 name) by (unfold group_of; by rewrite Ho).
  split_and!.
  - rewrite Hc, Hcalls. cbn. by rewrite app_assoc.
  - constructor; [split_and!; [exact Hkind | exact Hrun | by rewrite Hlast]|].
    eapply Forall2_impl_in; [exact Hf|]. intros n cs' Hin (A & B & C).
    assert (Hne : group_of m1 n = group_of m n).
    { unfold group_of. rewrite Hothers; [done|]. intros ->. done. }
    unfold group_done. rewrite Hne in *. rewrite Hr1, Hman, (idle_eq _ _ n Hr2 Hr3) in B. done.
  - by etrans.
  - by rewrite Hi.
  - intros n [Hn1 Hn2]%not_elem_of_cons. by rewrite Ho, Hothers.
Qed.

Lemma elem_of_concat {A} (x : A) css cs i : css !! i = Some cs → x ∈ cs → x ∈ concat css.
Proof.
  intros Hi Hx. rewrite list_elem_of_In, in_concat. exists cs. rewrite <- !list_elem_of_In.
  split; [by eapply list_elem_of_lookup_2 | done].
Qed.

Lemma elem_of_calls {A B} (P : A → list B → Prop) names css c : Forall2 P names css → c ∈ concat css →
  ∃ i name cs, names !! i = Some name ∧ css !! i = Some cs ∧ c ∈ cs ∧ P name cs.
Proof.
  induction 1 as [|name cs names css Hp Hf IH]; cbn; [by intros ?%not_elem_of_nil|].
  intros [Hc|Hc]%elem_of_app; [by exists 0%nat, name, cs|].
  destruct (IH Hc) as (i & n & l & ? & ? & ? & ?). by exists (S i), n, l.
Qed.

(** The calls of one group are about it alone. *)
Lemma group_calls_select m name cs g route node : names_ok m → group_calls (group_of m name) cs →
  CallSelect g route node ∈ cs →
  g = name ∧ route = via (group_of m name) node ∧ node ∈ mb_Name <$> gs_members (group_of m name) ∧
  node ≠ gs_now (group_of m name).
Proof.
  intros Hn Hc Hin. pose proof (group_of_name m name Hn) as Hname.
  destruct Hc; rewrite ?elem_of_cons, elem_of_nil in Hin; naive_solver.
Qed.

Lemma group_calls_close m name cs g node : names_ok m → group_calls (group_of m name) cs →
  CallClose g node ∈ cs → g = name ∧ node = gs_now (group_of m name) ∧ ∃ other, selects cs name other.
Proof.
  intros Hn Hc Hin. pose proof (group_of_name m name Hn) as Hname.
  destruct Hc as [|n ? ?|n ? ? ?]; rewrite ?elem_of_cons, elem_of_nil in Hin; [done | naive_solver|].
  rewrite Hname in *. destruct Hin as [?|[[= -> ->]|[]]]; [done|].
  split_and!; [done..|]. eexists _, _. left.
Qed.

Lemma group_calls_one m name cs a b : names_ok m → group_calls (group_of m name) cs →
  selects cs name a → selects cs name b → a = b.
Proof.
  intros Hn Hc [ra Ha] [rb Hb].
  destruct Hc; rewrite ?elem_of_cons, elem_of_nil in Ha, Hb; naive_solver.
Qed.

(** C5: what one pass of [settle] over the groups may do. The machine stays
    well formed; the core is asked only to select, in a group that is neither
    under manual control nor idle and only while the core routes, a member of
    the group other than the current one along that member's own path, at
    most one per group, and to close connections of the node the group left;
    and a group's current node changes only by such a selection. *)
Theorem settle_safe m now : wf m →
  let m' := settle_groups m now in
  wf m' ∧ ∃ new, mc_calls m' = mc_calls m ++ new ∧
    (∀ g route node, CallSelect g route node ∈ new →
       mc_running m = true ∧ is_manual m g = false ∧ idle m g = false ∧
       node ∈ mb_Name <$> gs_members (group_of m g) ∧ node ≠ gs_now (group_of m g) ∧
       route = via (group_of m g) node) ∧
    (∀ g node, CallClose g node ∈ new → node = gs_now (group_of m g) ∧ ∃ other, selects new g other) ∧
    (∀ g a b, selects new g a → selects new g b → a = b) ∧
    (∀ g, gs_now (group_of m' g) ≠ gs_now (group_of m g) → selects new g (gs_now (group_of m' g))).
Proof.
  intros Hw. cbn zeta. unfold settle_groups.
  pose proof (wf_names _ Hw) as Hn.
  destruct (settle_list (mc_order m) m now (wf_nodup _ Hw) Hn) as (css & Hc & Hf & Hs & _ & Ho).
  set (m' := foldl _ m _) in *. split; [by eapply shape_wf|]. exists (concat css). split; [done|].
  assert (Hsel : ∀ g node, selects (concat css) g node → ∃ i cs,
    mc_order m !! i = Some g ∧ css !! i = Some cs ∧ group_done m m' g cs ∧ selects cs g node).
  { intros g node [route Hin]. destruct (elem_of_calls _ _ _ _ Hf Hin) as (i & name & cs & Hi & Hj & Hcs & Hd).
    pose proof Hd as (Hk & _). destruct (group_calls_select _ _ _ _ _ _ Hn Hk Hcs) as (-> & _).
    exists i, cs. split_and!; [done..|]. by exists route. }
  split_and!.
  - intros g route node Hin. destruct (elem_of_calls _ _ _ _ Hf Hin) as (i & name & cs & _ & _ & Hcs & Hk & Hr & _).
    destruct (group_calls_select _ _ _ _ _ _ Hn Hk Hcs) as (-> & -> & ? & ?).
    destruct Hr as (? & ? & ?); [by intros ->; apply not_elem_of_nil in Hcs|]. done.
  - intros g node Hin. destruct (elem_of_calls _ _ _ _ Hf Hin) as (i & name & cs & Hi & Hj & Hcs & Hk & _).
    destruct (group_calls_close _ _ _ _ _ Hn Hk Hcs) as (-> & -> & other & route & Hsel').
    split; [done|]. exists other, route. by eapply elem_of_concat.
  - intros g a b (i & cs & Hi & Hci & (Hk & _) & Ha)%Hsel (j & cs' & Hj & Hcj & _ & Hb)%Hsel.
    assert (i = j) as <- by (eapply NoDup_lookup; [exact (wf_nodup _ Hw) | done..]).
    rewrite Hci in Hcj. injection Hcj as <-. by eapply group_calls_one.
  - intros g Hne. destruct (decide (g ∈ mc_order m)) as [[i Hi]%list_elem_of_lookup_1|Hout].
    + destruct (Forall2_lookup_l _ _ _ _ _ Hf Hi) as (cs & Hj & _ & _ & Hnow).
      destruct (Hnow Hne) as [route Hin]. exists route. by eapply elem_of_concat.
    + destruct Hne. unfold group_of. by rewrite Ho.
Qed.
End facts.
