(* ===== verification/EventFacts.v ===== *)
(** * Facts about the handlers

    Which events may condemn a node, and what a change of network does. *)

From S2P Require Import Prelude GoText Cond Evidence Journal Identity Profile Policy Library.
From S2P Require Import Decide Budget Route Scenario Layers Machine MachineFacts Events.

(** ** What the store remembers of a node *)

Definition facts_of (envs : gmap string Environment) (env key : string) : Facts :=
  default no_facts (x ← envs !! env; env_Nodes x !! key).
Definition facts_in (e : Evidence) : string → string → Facts := facts_of (ed_Envs e).

(** A node is condemned when it is dead after and was not before. *)
Definition condemned (e e' : Evidence) (env key : string) : Prop :=
  Dead (facts_in e' env key) = true ∧ Dead (facts_in e env key) = false.

(** Nobody is. *)
Definition spares (e e' : Evidence) : Prop :=
  ∀ env key, Dead (facts_in e' env key) = true → Dead (facts_in e env key) = true.

#[export] Instance spares_preorder : PreOrder spares.
Proof. split; [by intros e env key | intros a b c Hab Hbc env key Hd; by apply Hab, Hbc]. Qed.

Lemma Dead_no_facts : Dead no_facts = false.
Proof. done. Qed.

Lemma Dead_noteProbeFail f now : Dead (noteProbeFail f now) = Dead f.
Proof. done. Qed.

Lemma Dead_noteOK f now src : Dead (noteOK f now src) = true → Dead f = true.
Proof.
  unfold Dead, noteOK, after. case_if; cbn; [|done]. intros Hd. bools. destruct Hd as [Hz Hle]. split; [done|]. lia.
Qed.

Lemma Dead_noteSample f now ms src : Dead (noteSample f now ms src) = true → Dead f = true.
Proof. apply Dead_noteOK. Qed.

Lemma Dead_note_checks `{RangeOrder} f job outcomes now : Dead (note_checks f job outcomes now) = Dead f.
Proof.
  unfold note_checks. generalize (range_map outcomes). intros l. revert f.
  induction l as [|[id ok] l IH]; intros f; [done|]. cbn [foldl]. by rewrite IH.
Qed.

Lemma Dead_note_dial_fails n now s f : Dead (note_dial_fails n now s f).2 = Dead f.
Proof. revert s f. induction n as [|n IH]; intros s f; [done|]. cbn. by rewrite IH. Qed.

Section store.
Context `{RangeOrder}.

Lemma evict_loop_subseteq fuel envs : evict_loop fuel envs ⊆ envs.
Proof.
  revert envs. induction fuel as [|fuel IH]; intros envs; cbn; [done|]. case_if; [|done].
  etrans; [apply IH | apply delete_subseteq].
Qed.

Lemma facts_of_alter envs k f env key :
  facts_of (alter f k envs) env key =
    if decide (env = k) then default no_facts (x ← envs !! k; env_Nodes (f x) !! key) else facts_of envs env key.
Proof.
  unfold facts_of. case_decide as Hk; [subst; rewrite lookup_alter_eq | by rewrite lookup_alter_ne].
  by destruct (envs !! k).
Qed.

(** Asking for a network: its nodes are those remembered, and nobody else's
    facts change but by forgetting. *)
Lemma evidence_env_facts e key now env e' : evidence_env e key now = (env, e') →
  (∀ k, default no_facts (env_Nodes env !! k) = facts_in e key k) ∧
  (∀ n k, facts_in e' n k = facts_in e n k ∨ facts_in e' n k = no_facts).
Proof.
  unfold evidence_env, facts_in. destruct (ed_Envs e !! key) as [old|] eqn:E; intros [= <- <-]; cbn [ed_Envs evict].
  - split; [intros k; unfold facts_of; by rewrite E|]. intros n k. left. rewrite facts_of_alter.
    case_decide; subst; [|done]. unfold facts_of. by rewrite E.
  - split; [intros k; unfold facts_of; by rewrite E|]. intros n k. rewrite facts_of_alter.
    set (envs := evict_loop _ _).
    assert (Hsub : envs ⊆ <[key := new_env now]> (ed_Envs e)) by apply evict_loop_subseteq.
    case_decide as Hn; subst.
    + right. by destruct (envs !! key).
    + unfold facts_of. destruct (envs !! n) as [x|] eqn:Ex; [|by right].
      left. eapply lookup_weaken in Ex; [|exact Hsub]. rewrite lookup_insert_ne in Ex by done. by rewrite Ex.
Qed.

Lemma evidence_env_spares e key now env e' : evidence_env e key now = (env, e') → spares e e'.
Proof. intros Hq n k. destruct (evidence_env_facts _ _ _ _ _ Hq) as [_ Hf]. by destruct (Hf n k) as [-> | ->]. Qed.

Context `{Yaml}.

Lemma facts_at_spec m key now f m' : facts_at m key now = (f, m') →
  f = facts_in (mc_evidence m) (mc_envKey m) key ∧ spares (mc_evidence m) (mc_evidence m').
Proof.
  unfold facts_at, env_at. destruct (evidence_env _ _ _) as [env e] eqn:E.
  destruct (evidence_env_facts _ _ _ _ _ E) as [Hnodes Hf].
  assert (Hs : spares (mc_evidence m) e) by (by eapply evidence_env_spares).
  unfold env_facts. destruct (env_Nodes env !! key) as [f0|] eqn:Ek; intros [= <- <-];
    (split; [rewrite <- (Hnodes key), Ek; done|]); cbn.
  all: intros n k; unfold put_env, facts_in; cbn [ed_Envs]; rewrite facts_of_alter; case_decide as Hn; [subst|apply Hs].
  all: destruct (ed_Envs e !! mc_envKey m); cbn; [|done].
  - intros Hd. rewrite Hnodes in Hd. exact Hd.
  - destruct (decide (k = key)) as [->|]; [by rewrite lookup_insert_eq|].
    rewrite lookup_insert_ne by done. intros Hd. rewrite Hnodes in Hd. exact Hd.
Qed.

Lemma put_facts_at m key f env k :
  facts_in (mc_evidence (put_facts m key f)) env k = facts_in (mc_evidence m) env k ∨
  (env = mc_envKey m ∧ k = key ∧ facts_in (mc_evidence (put_facts m key f)) env k = f).
Proof.
  unfold put_facts, facts_in. cbn [mc_evidence ed_Envs]. rewrite facts_of_alter. case_decide as Hn; [|by left]. subst.
  unfold facts_of. destruct (ed_Envs (mc_evidence m) !! mc_envKey m) as [x|]; cbn; [|by left].
  destruct (decide (k = key)) as [->|]; [right; by rewrite lookup_insert_eq | left; by rewrite lookup_insert_ne].
Qed.

(** Putting back facts that are no deader than those read spares. *)
Lemma put_facts_spares m m1 m2 key now f f' : facts_at m key now = (f, m1) → m2 = m1 →
  (Dead f' = true → Dead f = true) → spares (mc_evidence m) (mc_evidence (put_facts m2 key f')).
Proof.
  intros Hf -> Hd env k. destruct (facts_at_spec _ _ _ _ _ Hf) as [-> Hs].
  assert (Hk : mc_envKey m1 = mc_envKey m).
  { pose proof (facts_at_quiet m key now) as Hq. rewrite Hf in Hq. cbn [snd] in Hq. by rewrite Hq. }
  destruct (put_facts_at m1 key f' env k) as [->|(-> & -> & ->)]; [apply Hs|]. rewrite Hk. apply Hd.
Qed.
End store.

(** ** Which results condemn a node *)

Lemma put_env_at_spares `{RangeOrder} `{Yaml} m now env m1 env' : env_at m now = (env, m1) →
  env_Nodes env' = env_Nodes env → spares (mc_evidence m) (mc_evidence (put_env_at m1 env')).
Proof.
  unfold env_at. destruct (evidence_env _ _ _) as [env0 e] eqn:E. intros [= <- <-] Hn n k.
  destruct (evidence_env_facts _ _ _ _ _ E) as [Hnodes Hf].
  unfold put_env_at, put_env, facts_in. cbn [mc_evidence mc_envKey ed_Envs]. rewrite facts_of_alter.
  case_decide as Hk; [subst | by apply (evidence_env_spares _ _ _ _ _ E)].
  destruct (ed_Envs e !! _); cbn [mbind option_bind default]; [|done].
  rewrite Hn. intros Hd. rewrite Hnodes in Hd. exact Hd.
Qed.

Lemma onDiagnosis_spares `{RangeOrder} `{Yaml} m job res now :
  spares (mc_evidence m) (mc_evidence (onDiagnosis m job res now)).
Proof.
  unfold onDiagnosis. set (m0 := {| m with mc_diagBusy := false |}). case_if; [done|].
  destruct (env_at m0 now) as [env m1] eqn:Ee. by apply (put_env_at_spares _ _ _ _ _ Ee).
Qed.

Section condemn.
Context `{Unicode} `{RangeOrder} `{Yaml}.

Lemma spares_envs (e e' : Evidence) : ed_Envs e' = ed_Envs e → spares e e'.
Proof. intros E n k. unfold facts_in. by rewrite E. Qed.

Lemma on_groups_evidence f m names : mc_evidence (on_groups f m names) = mc_evidence m ∧
  mc_envKey (on_groups f m names) = mc_envKey m ∧ mc_linkOKAt (on_groups f m names) = mc_linkOKAt m.
Proof. unfold on_groups. revert m. induction names as [|name names IH]; intros m; [done|]. cbn [foldl]. apply (IH (put_group m name _)). Qed.

Lemma note_exit_frame m job res now :
  ed_Envs (mc_evidence (note_exit m job res now)) = ed_Envs (mc_evidence m) ∧
  mc_envKey (note_exit m job res now) = mc_envKey m ∧ mc_linkOKAt (note_exit m job res now) = mc_linkOKAt m.
Proof. unfold note_exit. destruct (jb_Exit job); [|done]. by destruct (exitVerdict _ _). Qed.

Lemma note_result_spec m job res now f m' : note_result m job res now = (f, m') →
  spares (mc_evidence m) (mc_evidence m') ∧ mc_envKey m' = mc_envKey m ∧
  (probe_failed res = true →
     f = noteProbeFail (facts_in (mc_evidence m) (mc_envKey m) (jb_Key job)) now ∧
     mc_groups m' = mc_groups m ∧ mc_linkOKAt m' = mc_linkOKAt m).
Proof.
  unfold note_result. destruct (facts_at m (jb_Key job) now) as [f0 m0] eqn:Ef.
  pose proof (facts_at_quiet m (jb_Key job) now) as Hq. rewrite Ef in Hq. cbn [snd] in Hq.
  pose proof (facts_at_spec _ _ _ _ _ Ef) as [Hf0 _]. case_if; intros [= <- <-].
  - split_and!; [eapply put_facts_spares; [exact Ef | done | done] | cbn; by rewrite Hq|].
    intros _. rewrite Hf0. split_and!; [done | cbn; by rewrite Hq | cbn; by rewrite Hq].
  - unfold resetRecover. set (f1 := note_checks _ _ _ _). set (m1 := prove_link (put_facts m0 (jb_Key job) f1) now).
    destruct (note_exit_frame (on_groups reset_recover_group m1 (groupOf m1 (jb_Key job))) job res now) as (He & Hk & _).
    destruct (on_groups_evidence reset_recover_group m1 (groupOf m1 (jb_Key job))) as (He' & Hk' & _).
    split_and!; [|rewrite Hk, Hk'; cbn; by rewrite Hq | done].
    etrans; [|apply spares_envs, He]. rewrite He'.
    eapply put_facts_spares; [exact Ef | done|]. unfold f1. rewrite Dead_note_checks. apply Dead_noteSample.
Qed.

(** Marking one node dead condemns no other. *)
Lemma markDead_condemns e0 m key f now env k : spares e0 (mc_evidence m) →
  condemned e0 (mc_evidence (put_facts m key (markDead f now))) env k → env = mc_envKey m ∧ k = key.
Proof.
  intros Hs [Hd Ha]. destruct (put_facts_at m key (markDead f now) env k) as [E|(? & ? & _)]; [|done].
  rewrite E in Hd. apply Hs in Hd. congruence.
Qed.

(** When a pair of confirming checks condemns the suspect: it failed, and
    the standby sent with it answered, or without a standby the link is known
    to work. *)
Definition confirm_condemns (m : machine) (c : confirmation) (now : time) : Prop :=
  confirm_done c = true ∧ cf_failed c = true ∧
  if empty (cf_standby c) then linkProven m now = true else cf_standbyDown c = false.

Lemma resolveConfirm_condemns e0 m name c now env k : spares e0 (mc_evidence m) → confirm_done c = true →
  condemned e0 (mc_evidence (resolveConfirm m name c now)) env k →
  env = mc_envKey m ∧ k = cf_key c ∧ confirm_condemns m c now.
Proof.
  intros Hs Hdone. unfold resolveConfirm. case_if.
  { intros [Hd Ha]. apply Hs in Hd. congruence. }
  case_if.
  { intros [Hd Ha]. apply Hs in Hd. congruence. }
  destruct (facts_at m (cf_key c) now) as [f m1] eqn:Ef.
  pose proof (facts_at_quiet m (cf_key c) now) as Hq. rewrite Ef in Hq. cbn [snd] in Hq.
  destruct (facts_at_spec _ _ _ _ _ Ef) as [_ Hs1]. intros Hc.
  destruct (markDead_condemns e0 m1 (cf_key c) f now env k) as [-> ->]; [by etrans | exact Hc|].
  split_and!; [by rewrite Hq | done|]. split_and!; [done | by apply negb_false_iff|].
  unfold link_suspect in E0. apply orb_false_iff in E0 as [E1 E2]. destruct (empty (cf_standby c)); cbn in *.
  - by apply negb_false_iff.
  - done.
Qed.

(** The confirmation of a group after its recovery was reset. *)
Lemma on_groups_confirm m names name :
  (λ g, gs_confirm g) <$> mc_groups (on_groups reset_recover_group m names) !! name =
  match mc_groups m !! name with
  | Some g => Some (gs_confirm g)
  | None => if decide (name ∈ names) then Some None else None
  end.
Proof.
  unfold on_groups. revert m. induction names as [|n names IH]; intros m; cbn [foldl].
  { rewrite decide_False by apply not_elem_of_nil. by destruct (mc_groups m !! name). }
  rewrite IH. cbn. destruct (decide (n = name)) as [->|Hn].
  - rewrite lookup_insert_eq. unfold group_of. destruct (mc_groups m !! name); cbn; [done|].
    by rewrite decide_True by left.
  - rewrite lookup_insert_ne by done. destruct (mc_groups m !! name); [done|].
    destruct (decide (name ∈ names)), (decide (name ∈ n :: names)); set_solver.
Qed.

Definition awaits (m m' : machine) : Prop := ∀ job, awaited m' job = awaited m job.

Lemma on_groups_awaits m names : awaits m (on_groups reset_recover_group m names).
Proof.
  intros job. unfold awaited. case_if; [|done]. pose proof (on_groups_confirm m names (jb_Group job)) as Hc.
  destruct (mc_groups (on_groups _ m names) !! _), (mc_groups m !! _); cbn in *; try congruence.
  case_decide; congruence.
Qed.

Lemma note_result_awaits m job res now : awaits m (note_result m job res now).2.
Proof.
  intros j. unfold note_result. pose proof (facts_at_quiet m (jb_Key job) now) as Hq.
  destruct (facts_at m (jb_Key job) now) as [f m1]. cbn [snd] in Hq. case_if; cbn [snd].
  - unfold awaited. cbn. by rewrite Hq.
  - unfold note_exit. set (m2 := resetRecover _ _).
    assert (Ha : awaited m2 j = awaited m j).
    { unfold m2, resetRecover. rewrite on_groups_awaits. unfold awaited. cbn. by rewrite Hq. }
    destruct (jb_Exit job); [|done]. by destruct (exitVerdict _ _).
Qed.

(** C6: a failed check condemns a node only with evidence that the network
    itself is up. Whatever result comes in, the only node it can turn from
    living to dead, and only on the current network, is the checked node of
    an ordinary check that failed at least twice in a row while something got
    through within the last minute; or the suspect of a confirming pair that
    is complete, when the suspect failed and the standby sent along with it
    answered, or without a standby the link is known to work. *)
Theorem probe_condemns m job res now env k :
  condemned (mc_evidence m) (mc_evidence (onProbeResult m job res now)) env k →
  env = mc_envKey m ∧ jb_Targets job = [] ∧
  match awaited m job with
  | None =>
      k = jb_Key job ∧ probe_failed res = true ∧ linkProven m now = true ∧
      2 <= fa_FailRun (noteProbeFail (facts_in (mc_evidence m) env k) now)
  | Some c =>
      let c := record_confirm c job (probe_failed res) in
      k = cf_key c ∧ confirm_done c = true ∧ cf_failed c = true ∧
      if empty (cf_standby c) then probe_failed res = true → linkProven m now = true
      else cf_standbyDown c = false
  end.
Proof.
  unfold onProbeResult. set (m0 := {| m with mc_budget := _ |}). case_if.
  { intros [Hd Ha]. apply onDiagnosis_spares in Hd. unfold m0 in Hd. cbn in Hd. congruence. }
  apply negb_false_iff, bool_decide_eq_true in E. set (m1 := {| m0 with mc_inflight := _ |}).
  destruct (note_result m1 job res now) as [f m2] eqn:En.
  destruct (note_result_spec _ _ _ _ _ _ En) as (Hs & Hk & Hfail).
  pose proof (note_result_awaits m1 job res now job) as Haw. rewrite En in Haw. cbn [snd] in Haw.
  change (awaited m1 job) with (awaited m job) in Haw. change (mc_envKey m1) with (mc_envKey m) in *.
  change (mc_evidence m1) with (mc_evidence m) in *. rewrite Haw.
  change (mc_evidence (mark_dirty ?x)) with (mc_evidence x).
  destruct (awaited m job) as [c|]; cbn zeta.
  - case_if; [|by intros [Hd Ha]; apply Hs in Hd; congruence].
    intros Hc. destruct (resolveConfirm_condemns _ _ _ _ _ _ _ Hs E0 Hc) as (-> & -> & _ & Hcf & Hlink).
    split_and!; [done..|]. destruct (empty (cf_standby _)); [|done]. intros Hpf.
    destruct (Hfail Hpf) as (_ & _ & Hl). unfold linkProven in *. by rewrite Hl in Hlink.
  - case_if; [|by intros [Hd Ha]; apply Hs in Hd; congruence].
    apply andb_true_iff in E0 as [[Hpf Hlink]%andb_true_iff Hrun%Z.leb_le].
    destruct (Hfail Hpf) as (-> & _ & Hl). unfold linkProven in *. rewrite Hl in Hlink.
    intros Hc. destruct (markDead_condemns _ _ _ _ _ _ _ Hs Hc) as [-> ->]. rewrite Hk.
    split_and!; done.
Qed.
End condemn.
