(* ===== verification/PlannerFacts.v ===== *)
(** * Facts about the planner

    The checks a plan buys, when planning can fail, and the next wake-up. *)

From S2P Require Import Prelude GoText Cond Evidence Journal Identity Profile Policy Library.
From S2P Require Import Decide Budget Route Scenario Layers Machine MachineFacts Events Planner.

Section facts.
Context `{Unicode} `{Regexp} `{RangeOrder} `{Yaml} `{Calendar}.

(** The parts of a group the planner writes. *)
Definition plan_same (g g' : groupState) : Prop :=
  g' = {| g with gs_confirm := gs_confirm g'; gs_recoverPass := gs_recoverPass g';
                 gs_recoverAt := gs_recoverAt g'; gs_recoverArmed := gs_recoverArmed g';
                 gs_maintainAt := gs_maintainAt g' |}.

#[export] Instance plan_same_preorder : PreOrder plan_same.
Proof.
  split; [by intros [] | intros a b c Hab Hbc]. unfold plan_same in *. rewrite Hbc, Hab. done.
Qed.

#[export] Instance plan_same_symmetric : Symmetric plan_same.
Proof. intros a b Hab. unfold plan_same in *. rewrite Hab. by destruct a. Qed.

Lemma same_groups_refl (o : option groupState) : option_relation plan_same (λ _, False) (λ _, False) o o.
Proof. destruct o as [[]|]; done. Qed.

(** The machine while it is planned for: only what was learned, paid and
    planned changes, and the groups' own plans. *)
Record planned (m m' : machine) : Prop := {
  pl_quiet : m' = {| m with mc_evidence := mc_evidence m'; mc_budget := mc_budget m'; mc_journal := mc_journal m';
                            mc_diagNext := mc_diagNext m'; mc_diagForced := mc_diagForced m'; mc_diagBusy := mc_diagBusy m';
                            mc_dirty := mc_dirty m'; mc_statusDirty := mc_statusDirty m';
                            mc_inflight := mc_inflight m'; mc_lastProbe := mc_lastProbe m'; mc_groups := mc_groups m' |};
  pl_groups : ∀ name, option_relation plan_same (λ _, False) (λ _, False) (mc_groups m !! name) (mc_groups m' !! name);
}.

#[export] Instance planned_preorder : PreOrder planned.
Proof.
  split.
  - intros m. split; [by destruct m|]. intros name. apply same_groups_refl.
  - intros a b c [Hab Ga] [Hbc Gb]. split; [rewrite Hbc, Hab; done|]. intros name.
    specialize (Ga name). specialize (Gb name).
    destruct (mc_groups a !! name), (mc_groups b !! name), (mc_groups c !! name); cbn in *; try done. by etrans.
Qed.

Lemma quiet_planned m m' : quiet m m' → planned m m'.
Proof. intros Hq. split; [by rewrite Hq|]. intros name. rewrite Hq. apply same_groups_refl. Qed.

Lemma put_planned m name g g' : mc_groups m !! name = Some g → plan_same g g' → planned m (put_group m name g').
Proof.
  intros E Hs. split; [done|]. intros n. cbn. destruct (decide (n = name)) as [->|Hn].
  - by rewrite lookup_insert_eq, E.
  - rewrite lookup_insert_ne by done. apply same_groups_refl.
Qed.

Lemma planned_group m m' name : planned m m' → plan_same (group_of m name) (group_of m' name).
Proof.
  intros [_ Hg]. specialize (Hg name). unfold group_of.
  destruct (mc_groups m !! name), (mc_groups m' !! name); cbn in *; done.
Qed.

Lemma planned_key m m' group node : planned m m' → keyOf m' group node = keyOf m group node.
Proof.
  intros [_ Hg]. specialize (Hg group). unfold keyOf.
  destruct (mc_groups m !! group) as [g|], (mc_groups m' !! group) as [g'|]; cbn in *; try done.
  unfold group_key. by rewrite Hg.
Qed.

Lemma planned_driven m m' name : planned m m' →
  driven m' name (group_of m' name) = driven m name (group_of m name).
Proof.
  intros Hp. pose proof (planned_group _ _ name Hp) as Hg. destruct Hp as [Hq _].
  unfold driven, active, paused, is_manual, control_of, idle, tunnelMode. rewrite Hg, Hq. done.
Qed.

(** ** Buying *)

Lemma spend_at_quiet m b l now : quiet m (spend_at m b l now).2.
Proof. unfold spend_at. by destruct (spend _ _ _ _). Qed.

Lemma extras_quiet m p key now : quiet m (extras m p key now).2.
Proof. unfold extras. pose proof (env_at_quiet m now) as Hq. by destruct (env_at m now). Qed.

Lemma extrasDue_quiet m p key now : quiet m (extrasDue m p key now).2.
Proof. unfold extrasDue. pose proof (extras_quiet m p key now) as Hq. by destruct (extras m p key now) as [[? ?] ?]. Qed.

(** A job keeps everything but what rides on it. *)
Definition same_job (j j' : probeJob) : Prop :=
  j' = {| j with jb_Checks := jb_Checks j'; jb_Exit := jb_Exit j' |}.

Lemma attach_checks_frame m job p l now ids :
  quiet m (attach_checks m job p l now ids).2 ∧ same_job job (attach_checks m job p l now ids).1.2.
Proof.
  revert m job. induction ids as [|id ids IH]; intros m job; [by destruct job|]. cbn [attach_checks].
  pose proof (spend_at_quiet m (jb_Bucket job) l now) as Hq. destruct (spend_at _ _ _ _) as [ok m1]. cbn [snd] in Hq.
  destruct ok; [|by destruct job].
  specialize (IH m1 {| job with jb_Checks := <[id := default zero_check (pl_Checks p !! id)]> (jb_Checks job) |}).
  destruct IH as [Hq2 Hj]. split; [by etrans|]. unfold same_job in *. by rewrite Hj.
Qed.

Lemma attachExtras_frame m job p l now :
  quiet m (attachExtras m job p l now).2 ∧ same_job job (attachExtras m job p l now).1.
Proof.
  unfold attachExtras. pose proof (extras_quiet m p (jb_Key job) now) as Hq.
  destruct (extras m p (jb_Key job) now) as [[checks exit] m1]. cbn [snd] in Hq.
  destruct (if is_bucket _ _ then _ else _) as [checks' exit'].
  destruct (attach_checks_frame m1 job p l now checks') as [Hq2 Hj].
  destruct (attach_checks m1 job p l now checks') as [[paid job'] m2]. cbn [fst snd] in *.
  destruct (paid && exit'); [|by split; [etrans|]].
  pose proof (spend_at_quiet m2 (jb_Bucket job') l now) as Hq3. destruct (spend_at _ _ _ _) as [ok m3]. cbn [snd] in Hq3.
  split; [by etrans; [|etrans]|]. destruct ok; [|done]. unfold same_job in *. by rewrite Hj.
Qed.

(** ** What a plan has bought so far *)

(** A check the planner may buy: of a member of a group the engine drives,
    not in flight, and not just checked unless it confirms a suspicion. *)
Record job_ok (m : machine) (now : time) (j : probeJob) : Prop := {
  jo_node : jb_Targets j = [];
  jo_driven : is_Some (driven m (jb_Group j) (group_of m (jb_Group j)));
  jo_key : keyOf m (jb_Group j) (jb_Node j) = Some (jb_Key j);
  jo_free : mc_inflight m !! jb_Key j = None;
  jo_gap : jb_Kind j ≠ "confirm"%string → probed_lately m (jb_Key j) now = false;
}.

Section inv.
Context (m0 : machine) (now : time) (d : list probeJob) (free0 : Z).

(** The jobs are those of the diagnostics and one per key; they are in
    flight, and as many as were free. *)
Record plan_inv (st : planning) : Prop := {
  pi_planned : planned m0 (pn_m st);
  pi_jobs : ∃ js, pn_jobs st = d ++ js ∧ NoDup (jb_Key <$> js) ∧ Forall (job_ok m0 now) js ∧
    pn_free st = free0 - Z.of_nat (length js) ∧ Z.of_nat (length js) <= Z.max 0 free0 ∧
    mc_inflight (pn_m st) = list_to_map ((λ j, (jb_Key j, j)) <$> js) ∪ mc_inflight m0 ∧
    ∀ key, key ∉ jb_Key <$> js → mc_lastProbe (pn_m st) !! key = mc_lastProbe m0 !! key;
}.

(** A change that buys nothing. *)
Lemma plan_inv_planned st m' : plan_inv st → planned (pn_m st) m' →
  mc_inflight m' = mc_inflight (pn_m st) → mc_lastProbe m' = mc_lastProbe (pn_m st) →
  plan_inv {| st with pn_m := m' |}.
Proof.
  intros [Hp (js & ? & ? & ? & ? & ? & Hi & Hl)] Hp' Ei El. split; [by etrans|].
  exists js. cbn [pn_m pn_jobs pn_free]. rewrite Ei, El. done.
Qed.

Lemma inflight_fresh (js : list probeJob) key :
  (list_to_map ((λ j, (jb_Key j, j)) <$> js) ∪ mc_inflight m0) !! key = None →
  key ∉ jb_Key <$> js ∧ mc_inflight m0 !! key = None.
Proof.
  intros [Hm ?]%lookup_union_None. split; [|done]. apply not_elem_of_list_to_map_2 in Hm.
  rewrite <- list_fmap_compose in Hm. exact Hm.
Qed.

Lemma add_job_inv lv g lp row bucket kind st name :
  free0 <= max64 → plan_inv st → gs_name g = name → driven m0 name (group_of m0 name) = Some lp →
  plan_inv (add_job lv now g lp row bucket kind st).2.
Proof.
  intros Hfree Hinv Hname Hd. pose proof Hinv as [Hp (js & Hj & Hnd & Hok & Hf & Hb & Hi & Hl)].
  unfold add_job. case_if; [done|]. apply Z.leb_gt in E.
  destruct (keyOf (pn_m st) (gs_name g) (rw_Name row)) as [key|] eqn:Ek; [|done].
  case_if; [done|]. apply bool_decide_eq_false, eq_None_not_Some in E0. case_if; [done|].
  pose proof (spend_at_quiet (pn_m st) bucket lv now) as Hq.
  destruct (spend_at (pn_m st) bucket lv now) as [ok m1]. cbn [snd] in *.
  assert (Hi1 : mc_inflight m1 = mc_inflight (pn_m st)) by (by rewrite Hq).
  assert (Hl1 : mc_lastProbe m1 = mc_lastProbe (pn_m st)) by (by rewrite Hq). case_if; cbn [snd].
  { apply plan_inv_planned; [done | by apply quiet_planned | done..]. }
  set (job0 := new_job (gs_name g) (rw_Name row) key bucket kind).
  assert (Hx : ∃ job m2, (if is_confirm_kind kind then (job0, m1) else attachExtras m1 job0 (active g lp) lv now) = (job, m2)
    ∧ quiet m1 m2 ∧ same_job job0 job).
  { case_if; [by exists job0, m1|]. destruct (attachExtras_frame m1 job0 (active g lp) lv now).
    by destruct (attachExtras m1 job0 (active g lp) lv now) as [job m2]; exists job, m2. }
  destruct Hx as (job & m2 & -> & Hq2 & Hjob). cbn [snd].
  rewrite Hi in E0. apply inflight_fresh in E0 as [Hnew Hfree0].
  assert (Hkey : jb_Key job = key) by (by rewrite Hjob).
  assert (Hok' : job_ok m0 now job).
  { rewrite (planned_key _ _ _ _ Hp) in Ek. split; rewrite Hjob; cbn.
    - done.
    - rewrite Hname. by exists lp.
    - done.
    - done.
    - intros Hkind. apply andb_false_iff in E1 as [E1|E1%negb_false_iff%eqs_true]; [|done].
      unfold probed_lately in *. by rewrite Hl in E1. }
  split.
  - cbn. etrans; [exact Hp|]. etrans; [apply quiet_planned; by etrans; [exact Hq | exact Hq2]|].
    split; [done|]. intros n. apply same_groups_refl.
  - exists (js ++ [job]). cbn [pn_jobs pn_free pn_m mark_dirty mc_inflight mc_lastProbe].
    rewrite fmap_app, length_app, Hj, app_assoc. cbn [fmap list_fmap length].
    assert (Hi2 : mc_inflight m2 = mc_inflight m1) by (by rewrite Hq2).
    assert (Hl2 : mc_lastProbe m2 = mc_lastProbe m1) by (by rewrite Hq2).
    rewrite Hi2, Hi1, Hi, Hl2, Hl1, Hkey. split_and!.
    + done.
    + apply NoDup_app. split_and!; [done | | by apply NoDup_singleton].
      intros k Hk ->%list_elem_of_singleton. done.
    + by apply Forall_app_2, Forall_singleton.
    + rewrite wrap64_small; unfold in64, min64, max64 in *; lia.
    + lia.
    + rewrite fmap_app, list_to_map_app. cbn [fmap list_fmap list_to_map foldr]. rewrite Hkey.
      rewrite insert_empty, <- (assoc_L (∪)), <- insert_union_singleton_l. apply insert_union_r.
      apply not_elem_of_list_to_map_1. by rewrite <- list_fmap_compose.
    + intros k [Hk1 Hk2]%not_elem_of_app. rewrite lookup_insert_ne; [by apply Hl | set_solver].
Qed.

(** ** The checks of one group *)

Section group.
Context (md : Mode) (lv : energyLevel) (name : string) (lp : LayeredPolicy).
Context (Hfree : free0 <= max64) (Hname : gs_name (group_of m0 name) = name).
Context (Hdriven : driven m0 name (group_of m0 name) = Some lp).

(** The group as the planner holds it. *)
Definition held (g : groupState) : Prop := plan_same (group_of m0 name) g.

Lemma held_name g : held g → gs_name g = name.
Proof. intros Hg. rewrite Hg. exact Hname. Qed.

Lemma buy_inv g row bucket kind st : held g → plan_inv st → plan_inv (add_job lv now g lp row bucket kind st).2.
Proof. intros Hg Hinv. eapply add_job_inv; [done | done | by apply held_name | exact Hdriven]. Qed.

Lemma put_inv st g : held g → plan_inv st → plan_inv (plan_put st name g).
Proof.
  intros Hg Hinv. apply plan_inv_planned; [done | | done | done].
  pose proof (planned_group _ _ name (pi_planned _ Hinv)) as Hs. pose proof (pi_planned _ Hinv) as [_ Hgs].
  specialize (Hgs name). destruct (mc_groups (pn_m st) !! name) as [g1|] eqn:E1.
  - eapply put_planned; [exact E1|]. rewrite (group_of_Some _ _ _ E1) in Hs.
    etrans; [symmetry; exact Hs | exact Hg].
  - exfalso. unfold driven, group_of in Hdriven. by destruct (mc_groups m0 !! name).
Qed.

Lemma held_update g g' : held g → plan_same g g' → held g'.
Proof. intros Hg Hs. unfold held in *. by etrans. Qed.

Lemma stale_inv row st : plan_inv st → plan_inv (stale_at now row st).2.
Proof.
  intros Hinv. unfold stale_at. pose proof (env_at_quiet (pn_m st) now) as Hq.
  destruct (env_at (pn_m st) now) as [env m1]. cbn [snd] in *.
  apply plan_inv_planned; [done | by apply quiet_planned | by rewrite Hq | by rewrite Hq].
Qed.

Lemma plan_confirm_inv g st : held g → plan_inv st → plan_inv (plan_confirm lv now name lp g st).
Proof.
  intros Hg Hinv. unfold plan_confirm. case_if; [done|].
  destruct (rowOf _ _) as [row|]; [|done].
  pose proof (buy_inv g row RecoverBucket "confirm" st Hg Hinv) as Hst1.
  destruct (add_job _ _ _ _ _ _ _ _) as [[key|] st1]; [|done]. cbn [snd] in Hst1.
  assert (Hput : ∀ c st, plan_inv st → plan_inv (plan_put st name {| g with gs_confirm := Some c |})).
  { intros c st' Hst. apply put_inv; [|done]. by eapply held_update; [exact Hg|]. }
  destruct (standbyOrder _) as [|standby rest]; [by apply Hput|].
  pose proof (buy_inv g standby RecoverBucket "confirm-standby" st1 Hg Hst1) as Hst2.
  destruct (add_job _ _ _ _ standby _ _ _) as [second st2]. by apply Hput.
Qed.

Lemma buy_rows_inv limit bucket kind g sent rows st : held g → plan_inv st →
  plan_inv (buy_rows lv now lp limit bucket kind g sent rows st).2.
Proof.
  intros Hg. revert sent st. induction rows as [|row rows IH]; intros sent st Hinv; [done|]. cbn [buy_rows].
  case_if; [|by apply IH]. pose proof (buy_inv g row bucket kind st Hg Hinv) as Hst1.
  destruct (add_job _ _ _ _ _ _ _ _) as [bought st1]. by apply IH.
Qed.

Lemma plan_recover_inv g st : held g → plan_inv st → plan_inv (plan_recover lv now name lp g st).
Proof.
  intros Hg Hinv. unfold plan_recover.
  pose proof (buy_rows_inv recoverPassSize RecoverBucket "recover" g 0 (recoverOrder (dc_Ranking (gs_decision g))) st Hg Hinv) as Hst1.
  destruct (buy_rows _ _ _ _ _ _ _ _ _ _) as [sent st1]. case_if; [|done].
  apply put_inv; [|done]. by eapply held_update; [exact Hg|].
Qed.

Lemma plan_needs_inv g st : held g → plan_inv st → plan_inv (plan_needs lv now lp g st).
Proof.
  intros Hg. unfold plan_needs. generalize (dc_Needs (gs_decision g)). intros needs. revert st.
  induction needs as [|need needs IH]; intros st Hinv; [done|]. cbn [foldl]. apply IH.
  destruct (rowOf _ _); [by apply buy_inv | done].
Qed.

Lemma maintain_current_inv g st : held g → plan_inv st → plan_inv (maintain_current lv now lp g st).
Proof.
  intros Hg Hinv. unfold maintain_current. case_if; [|done]. destruct (rowOf _ _) as [row|]; [|done].
  pose proof (stale_inv row st Hinv) as Hst1. destruct (stale_at now row st) as [[] st1]; cbn [snd] in Hst1.
  { by apply buy_inv. }
  pose proof (extrasDue_quiet (pn_m st1) (active g lp) (keyFor (pn_m st1) (gs_name g) (rw_Name row)) now) as Hq.
  destruct (extrasDue _ _ _ _) as [due m1]. cbn [snd] in Hq.
  assert (Hst2 : plan_inv {| st1 with pn_m := m1 |}).
  { apply plan_inv_planned; [done | by apply quiet_planned | by rewrite Hq | by rewrite Hq]. }
  case_if; [by apply buy_inv | done].
Qed.

Lemma maintain_standbys_inv g sent rows st : held g → plan_inv st → plan_inv (maintain_standbys lv now lp g sent rows st).
Proof.
  intros Hg. revert sent st. induction rows as [|row rows IH]; intros sent st Hinv; [done|]. cbn [maintain_standbys].
  case_if; [done|]. pose proof (stale_inv row st Hinv) as Hst1. destruct (stale_at now row st) as [old st1].
  cbn [snd] in Hst1. case_if; [by apply IH|]. pose proof (buy_inv g row MaintainBucket "maintain" st1 Hg Hst1) as Hst2.
  destruct (add_job _ _ _ _ _ _ _ _) as [bought st2]. by apply IH.
Qed.

Lemma plan_maintain_inv g st : held g → plan_inv st →
  held (plan_maintain lv now name lp g st).1 ∧ plan_inv (plan_maintain lv now name lp g st).2.
Proof.
  intros Hg Hinv. unfold plan_maintain. case_if; [|done]. cbn [fst snd].
  assert (Hg' : held {| g with gs_maintainAt := time_add now (el_standbyEvery lv) |}) by (by eapply held_update; [exact Hg|]).
  split; [done|]. apply put_inv; [done|]. apply maintain_standbys_inv; [done|]. by apply maintain_current_inv.
Qed.

Lemma discover_rows_inv g sent servers rows st st' : held g → plan_inv st →
  discover_rows lv now lp g sent servers rows st = Some st' → plan_inv st'.
Proof.
  intros Hg. revert sent servers st. induction rows as [|row rows IH]; intros sent servers st Hinv; cbn [discover_rows].
  { by intros [= <-]. }
  case_if; [by intros [= <-]|]. destruct (server_of g row) as [server|]; cbn [mbind option_bind]; [|done].
  case_if; [by apply IH|]. pose proof (stale_inv row st Hinv) as Hst1. destruct (stale_at now row st) as [old st1].
  cbn [snd] in Hst1. case_if; [by apply IH|]. pose proof (buy_inv g row DiscoverBucket "discover" st1 Hg Hst1) as Hst2.
  destruct (add_job _ _ _ _ _ _ _ _) as [[?|] st2]; by apply IH.
Qed.

Lemma plan_driven_inv g st st' : held g → plan_inv st → plan_driven md lv now name lp g st = Some st' → plan_inv st'.
Proof.
  intros Hg Hinv. unfold plan_driven. case_if; [intros [= <-]; by apply plan_confirm_inv|].
  case_if; [intros [= <-]; by apply plan_recover_inv|]. case_if; [by intros [= <-]|].
  pose proof (plan_maintain_inv g _ Hg (plan_needs_inv g st Hg Hinv)) as [Hg1 Hst1].
  destruct (plan_maintain _ _ _ _ _ _) as [g1 st1]. cbn [fst snd] in *.
  unfold plan_discover. case_if; [by apply discover_rows_inv | by intros [= <-]].
Qed.
End group.

Lemma plan_groups_inv md lv names st st' : free0 <= max64 → names_ok m0 → plan_inv st →
  plan_groups md lv now names st = Some st' → plan_inv st'.
Proof.
  intros Hfree Hn. revert st. induction names as [|name names IH]; intros st Hinv; cbn [plan_groups].
  { by intros [= <-]. }
  destruct (plan_group md lv now st name) as [st1|] eqn:E1; cbn [mbind option_bind]; [|done].
  apply IH. unfold plan_group in E1. pose proof (planned_driven _ _ name (pi_planned _ Hinv)) as Hd.
  rewrite Hd in E1. destruct (driven m0 name _) as [lp|] eqn:Ed; [|by injection E1 as <-].
  eapply plan_driven_inv; [exact Hfree | by apply group_of_name | exact Ed | | exact Hinv | exact E1].
  apply planned_group. apply Hinv.
Qed.
End inv.

Lemma pay_targets_quiet m lv now targets : quiet m (pay_targets m lv now targets).2.
Proof.
  revert m. induction targets as [|t targets IH]; intros m; [done|]. cbn [pay_targets].
  pose proof (spend_at_quiet m NetworkBucket lv now) as Hq. destruct (spend_at _ _ _ _) as [ok m1]. cbn [snd] in Hq.
  destruct ok; [|done]. specialize (IH m1). destruct (pay_targets m1 lv now targets) as [ts m2]. by etrans.
Qed.

Lemma planDiagnosis_frame m md lv now :
  quiet m (planDiagnosis m md lv now).2 ∧
  ∀ job, (planDiagnosis m md lv now).1 = Some job → jb_Targets job ≠ [].
Proof.
  unfold planDiagnosis. case_if; [done|].
  pose proof (pay_targets_quiet m lv now (diagTargets m)) as Hq. destruct (pay_targets _ _ _ _) as [ts m1].
  cbn [snd] in Hq. case_bool_decide; [done|]. cbn [fst snd]. split; [|by intros ? [= <-]].
  etrans; [exact Hq|]. done.
Qed.

Lemma planned_shape m m' : planned m m' → shape m m'.
Proof.
  intros [Hq Hg]. split; [by rewrite Hq | | by rewrite Hq]. intros name. specialize (Hg name).
  destruct (mc_groups m !! name), (mc_groups m' !! name); cbn in *; try done. rewrite Hg. by split.
Qed.

(** Planning ends in a state the invariant holds of. *)
Lemma plan_bought m now jobs m' : names_ok m → plan m now = Some (jobs, m') →
  ∃ d free, plan_inv m now d (probeConcurrency - Z.of_nat (size (mc_inflight m)))
              {| pn_m := m'; pn_jobs := jobs; pn_free := free |} ∧
    (length d <= 1)%nat ∧ Forall (λ j, jb_Targets j ≠ []) d ∧
    (in_mode (mode m now) StoppedMode || in_mode (mode m now) SleepMode = true → jobs = []).
Proof.
  intros Hn. unfold plan. set (free0 := probeConcurrency - _).
  assert (Hfree : free0 <= max64) by (unfold free0, max64, probeConcurrency; lia).
  assert (Hstart : ∀ m1 d, quiet m m1 → plan_inv m now d free0 {| pn_m := m1; pn_jobs := d; pn_free := free0 |}).
  { intros m1 d Hq. split; [by apply quiet_planned|]. exists []. cbn. rewrite app_nil_r, (left_id_L ∅ (∪)), Hq.
    split_and!; try done; [constructor | lia | lia]. }
  case_if.
  { intros [= <- <-]. exists [], free0. split_and!; [by apply Hstart | cbn; lia | constructor | done]. }
  set (lv := level m). destruct (planDiagnosis_frame m (mode m now) lv now) as [Hq Hdiag].
  unfold plan_start. destruct (planDiagnosis m (mode m now) lv now) as [job m1]. cbn [fst snd] in *.
  assert (Hs : mc_inflight m1 = mc_inflight m) by (by rewrite Hq). rewrite Hs. fold free0.
  destruct (plan_groups _ _ _ _ _) as [st|] eqn:Eg; cbn [mbind option_bind]; [|done]. intros [= <- <-].
  exists (match job with Some job => [job] | None => [] end), (pn_free st). split_and!.
  - destruct st. cbn. eapply plan_groups_inv; [exact Hfree | exact Hn | apply (Hstart m1 _ Hq) | exact Eg].
  - destruct job; cbn; lia.
  - destruct job; [|constructor]. apply Forall_singleton. by apply Hdiag.
  - done.
Qed.

(** C8: the checks a plan buys. Nothing is bought while the engine is stopped
    or the device dozes. Otherwise, besides at most one round of network
    diagnostics, every check is of a member of a group the engine drives (not
    under manual control, paused, idle or fixed), of a key that is not in
    flight, at most one per key, and not of a key checked less than a minute
    ago unless it confirms a suspicion; the probes in flight stay within the
    concurrency limit and are exactly those before and those bought. Planning
    asks nothing of the core, moves no group, and keeps the machine well
    formed. *)
Theorem plan_checks m now jobs m' :
  wf m → plan m now = Some (jobs, m') →
  wf m' ∧ planned m m' ∧
  (mode m now = StoppedMode ∨ mode m now = SleepMode → jobs = []) ∧
  ∃ diag js, jobs = diag ++ js ∧ (length diag <= 1)%nat ∧ Forall (λ j, jb_Targets j ≠ []) diag ∧
    Forall (job_ok m now) js ∧ NoDup (jb_Key <$> js) ∧
    Z.of_nat (size (mc_inflight m) + length js) <= Z.max probeConcurrency (Z.of_nat (size (mc_inflight m))) ∧
    mc_inflight m' = list_to_map ((λ j, (jb_Key j, j)) <$> js) ∪ mc_inflight m.
Proof.
  intros Hw Hplan. destruct (plan_bought _ _ _ _ (wf_names _ Hw) Hplan) as (d & free & [Hp Hjs] & Hd & Hdt & Hmode).
  destruct Hjs as (js & Hj & Hnd & Hok & _ & Hlen & Hi & _). cbn [pn_m pn_jobs] in *.
  split_and!; [by eapply shape_wf; [apply planned_shape|] | done | |].
  - intros Hm. apply Hmode. unfold in_mode. destruct Hm as [-> | ->]; done.
  - exists d, js. split_and!; try done. lia.
Qed.

(** ** When planning fails *)

Lemma server_of_None name g row : group_ok name g → server_of g row = None → gs_members g = [].
Proof.
  intros Hok. unfold server_of. destruct (gs_byName g !! rw_Name row) as [i|] eqn:Ei; cbn.
  - destruct (go_index _ _ Hok _ _ Ei) as (mb & -> & _). done.
  - by destruct (gs_members g).
Qed.

Lemma discover_rows_None lv now lp name g sent servers rows st : group_ok name g →
  discover_rows lv now lp g sent servers rows st = None → gs_members g = [] ∧ rows ≠ [].
Proof.
  intros Hok. revert sent servers st. induction rows as [|row rows IH]; intros sent servers st; cbn [discover_rows]; [done|].
  case_if; [done|]. destruct (server_of g row) as [server|] eqn:Es; cbn [mbind option_bind].
  2: { intros _. split; [by eapply server_of_None | done]. }
  intros Hd. split; [|done]. revert Hd. case_if; [by intros [? _]%IH|].
  destruct (stale_at now row st) as [old st1]. case_if; [by intros [? _]%IH|].
  destruct (add_job _ _ _ _ _ _ _ _) as [[?|] st2]; by intros [? _]%IH.
Qed.

Lemma plan_groups_None m0 now d free0 md lv names st : free0 <= max64 → names_ok m0 →
  plan_inv m0 now d free0 st → plan_groups md lv now names st = None →
  ∃ name st1, name ∈ names ∧ plan_inv m0 now d free0 st1 ∧ plan_group md lv now st1 name = None.
Proof.
  intros Hfree Hn. revert st. induction names as [|name names IH]; intros st Hinv; cbn [plan_groups]; [done|].
  destruct (plan_group md lv now st name) as [st1|] eqn:E1; cbn [mbind option_bind].
  - intros Hnone. assert (Hinv1 : plan_inv m0 now d free0 st1).
    { apply (plan_groups_inv m0 now d free0 md lv [name] st st1 Hfree Hn Hinv). cbn [plan_groups]. by rewrite E1. }
    destruct (IH st1 Hinv1 Hnone) as (n & st2 & Hin & ? & ?). exists n, st2. split_and!; [by right | done | done].
  - intros _. exists name, st. split_and!; [left | done | done].
Qed.

(** C17: when planning panics. On a well-formed machine [plan] always returns,
    except where it looks for the server of a row of a group that has no
    members: the planner discovers in an improving group, while the user is
    active, from the ranking of an earlier decision that the loss of all
    members left behind. *)
Theorem plan_failure m now : wf m → plan m now = None →
  ∃ name lp, name ∈ mc_order m ∧ driven m name (group_of m name) = Some lp ∧
    gs_members (group_of m name) = [] ∧ discoverOrder (gs_decision (group_of m name)) ≠ [] ∧
    pl_Improve (lp_Base lp) = true ∧ mode m now = ActiveMode.
Proof.
  intros Hw. unfold plan. case_if; [done|]. set (lv := level m). unfold plan_start.
  destruct (planDiagnosis_frame m (mode m now) lv now) as [Hq _].
  destruct (planDiagnosis m (mode m now) lv now) as [job m1]. cbn [fst snd] in *.
  set (d := match job with Some job => [job] | None => [] end). set (free0 := probeConcurrency - _).
  destruct (plan_groups _ _ _ _ _) as [st|] eqn:Eg; cbn [mbind option_bind]; [done|]. intros _.
  assert (Hfree : free0 <= max64) by (unfold free0, max64, probeConcurrency; lia).
  assert (Hinv : plan_inv m now d free0 {| pn_m := m1; pn_jobs := d; pn_free := free0 |}).
  { split; [by apply quiet_planned|]. exists []. cbn.
    assert (Hi : mc_inflight m1 = mc_inflight m) by (by rewrite Hq). rewrite app_nil_r, (left_id_L ∅ (∪)), Hi.
    split_and!; try done; [constructor | lia | lia |]. intros. by rewrite Hq. }
  destruct (plan_groups_None _ _ _ _ _ _ _ _ Hfree (wf_names _ Hw) Hinv Eg) as (name & st1 & Hin & Hinv1 & Hg).
  unfold plan_group in Hg. rewrite (planned_driven _ _ name (pi_planned _ _ _ _ _ Hinv1)) in Hg.
  destruct (driven m name (group_of m name)) as [lp|] eqn:Ed; [|done]. exists name, lp.
  pose proof (planned_group _ _ name (pi_planned _ _ _ _ _ Hinv1)) as Hs.
  set (g := group_of (pn_m st1) name) in *. revert Hg. unfold plan_driven. do 3 (case_if; [done|]).
  assert (Hx : ∃ g1 st2, plan_maintain lv now name lp g (plan_needs lv now lp g st1) = (g1, st2) ∧
    gs_members g1 = gs_members g ∧ gs_byName g1 = gs_byName g ∧ gs_name g1 = gs_name g ∧ gs_decision g1 = gs_decision g).
  { unfold plan_maintain. case_if; do 2 eexists; done. }
  destruct Hx as (g1 & st2 & -> & Hm1 & Hb1 & Hn1 & Hd1). unfold plan_discover. case_if; [|done].
  apply andb_true_iff in E3 as [Himp Hact]. unfold in_mode in Hact. apply bool_decide_eq_true in Hact.
  destruct (wf_lookup _ _ Hw Hin) as (g0 & E0' & Hok). pose proof (group_of_Some _ _ _ E0') as Eg0.
  intros Hdisc. rewrite Eg0 in *. clearbody g. unfold plan_same in Hs.
  assert (Hmg : gs_members g = gs_members g0) by (by rewrite Hs).
  assert (Hdg : gs_decision g = gs_decision g0) by (by rewrite Hs).
  assert (Hok1 : group_ok name g1).
  { destruct Hok as [A B C]. split; rewrite ?Hm1, ?Hb1, ?Hn1, Hs; done. }
  destruct (discover_rows_None _ _ _ _ _ _ _ _ _ Hok1 Hdisc) as [Hmem Hrows].
  rewrite Hm1, Hmg in Hmem. rewrite Hd1, Hdg in Hrows. done.
Qed.

(** ** The next wake-up *)

(** Considering moments only brings the wake-up forward, to one of them. *)
Definition sooner (now due due' : time) : Prop :=
  (now < due → now < due' ∧ due' <= due) ∧ (due = 0 ∨ now < due → due' = 0 ∨ now < due').

#[export] Instance sooner_preorder now : PreOrder (sooner now).
Proof. split; [intros a; split; lia | intros a b c [A1 A2] [B1 B2]; split; lia]. Qed.

Lemma consider_sooner now due t : 0 <= now → sooner now due (consider now due t).
Proof. unfold sooner, consider, after, before, is_zero. intros. case_if; bools; lia. Qed.

Lemma consider_covers now due t : 0 <= now → due = 0 ∨ now < due → now < t →
  now < consider now due t ∧ consider now due t <= t.
Proof. unfold consider, after, before, is_zero. intros. case_if; bools; lia. Qed.

Lemma consider_list now ts due : 0 <= now → sooner now due (foldl (consider now) due ts).
Proof.
  intros Hn. revert due. induction ts as [|t ts IH]; intros due; [done|]. cbn [foldl].
  etrans; [by apply (consider_sooner now due t) | apply IH].
Qed.

Lemma consider_list_covers now ts due t : 0 <= now → due = 0 ∨ now < due → now < t → t ∈ ts →
  now < foldl (consider now) due ts ∧ foldl (consider now) due ts <= t.
Proof.
  intros Hn. revert due. induction ts as [|u ts IH]; intros due Hd Ht Hin; [by apply not_elem_of_nil in Hin|].
  cbn [foldl]. pose proof (consider_sooner now due u Hn) as [_ Hz]. apply elem_of_cons in Hin as [->|Hin].
  - destruct (consider_covers now due u Hn Hd Ht) as [Hc1 Hc2].
    pose proof (consider_list now ts (consider now due u) Hn) as [Hs _]. lia.
  - by apply IH; [apply Hz | |].
Qed.

(** What a group waits for, and on what condition; a dwell is the one of the
    policy the decision was taken by, that of the network the group is on. *)
Inductive group_wants (m : machine) (md : Mode) (now : time) (name : string) : time → Prop :=
  | wants_cooldown key t : cr_Excluded (control_of m name) !! key = Some t → group_wants m md now name t
  | wants_confirm : gs_suspect (group_of m name) = true → gs_confirm (group_of m name) = None →
      group_wants m md now name (latest (time_add now probeRepeatGap) (gs_recoverAt (group_of m name)))
  | wants_recover : needsRecovery (group_of m name) = true →
      md ≠ BackgroundMode ∨ gs_recoverArmed (group_of m name) = true →
      group_wants m md now name (gs_recoverAt (group_of m name))
  | wants_dwell until lp : dc_Until (gs_decision (group_of m name)) = Some until → rs_Code until = "until.dwell"%string →
      gs_policy (group_of m name) = Some lp →
      group_wants m md now name (time_add (cr_LastSwitch (control_of m name)) (pl_Dwell (active (group_of m name) lp)))
  | wants_maintain : md = ActiveMode ∨ md = EcoMode → now < mc_windowUntil m →
      group_wants m md now name (gs_maintainAt (group_of m name)).

(** Everything the engine waits for. *)
Inductive wants (m : machine) (now : time) : time → Prop :=
  | wants_group name t : name ∈ mc_order m → group_wants m (mode m now) now name t → wants m now t
  | wants_wake : now < mc_windowUntil m → wants m now (mc_wakeAt m)
  | wants_diag : now < mc_windowUntil m → diagAllowed m (mode m now) = true → mc_diagBusy m = false →
      diagTargets m ≠ [] → wants m now (mc_diagNext m).

(** The one wait [nextDue] gets wrong: the end of a dwell that the network's
    policy makes longer or shorter than the profile's own. *)
Definition dwell_missed (m : machine) (name : string) (t : time) : Prop :=
  ∃ until lp, dc_Until (gs_decision (group_of m name)) = Some until ∧ rs_Code until = "until.dwell"%string ∧
    gs_policy (group_of m name) = Some lp ∧ pl_Dwell (active (group_of m name) lp) ≠ pl_Dwell (lp_Base lp) ∧
    t = time_add (cr_LastSwitch (control_of m name)) (pl_Dwell (active (group_of m name) lp)).

Lemma in_mode_true a b : in_mode a b = true ↔ a = b.
Proof. apply bool_decide_eq_true. Qed.
Lemma in_mode_false a b : in_mode a b = false ↔ a ≠ b.
Proof. apply bool_decide_eq_false. Qed.

Lemma sooner_covers now a b t : sooner now a b → now < a ∧ a <= t → now < b ∧ b <= t.
Proof. intros [Hs _]. lia. Qed.

(** One of the steps of [group_due] that may look at a moment. *)
Lemma step_covers now (b : bool) due t : 0 <= now → due = 0 ∨ now < due →
  let due' := if b then consider now due t else due in
  sooner now due due' ∧ (due' = 0 ∨ now < due') ∧ (b = true → now < t → now < due' ∧ due' <= t).
Proof.
  intros Hn Hd. cbn zeta. destruct b.
  - pose proof (consider_sooner now due t Hn) as Hs. split_and!; [done | by apply Hs|].
    intros _ Ht. by apply consider_covers.
  - split_and!; [done | done | done].
Qed.

Lemma group_due_covers m md now due name due' : 0 <= now → due = 0 ∨ now < due →
  group_due m md now due name = Some due' →
  sooner now due due' ∧ (due' = 0 ∨ now < due') ∧
  ∀ t, group_wants m md now name t → now < t → (now < due' ∧ due' <= t) ∨ dwell_missed m name t.
Proof.
  intros Hn Hd. unfold group_due. set (g := group_of m name). set (ctl := control_of m name).
  set (l := (range_map (cr_Excluded ctl)).*2). set (d1 := foldl (consider now) due l).
  pose proof (consider_list now l due Hn) as Hso1. fold d1 in Hso1. assert (Hd1 : d1 = 0 ∨ now < d1) by (by apply Hso1).
  destruct (step_covers now (gs_suspect g && is_none (gs_confirm g)) d1 (latest (time_add now probeRepeatGap) (gs_recoverAt g)) Hn Hd1)
    as (Hso2 & Hd2 & Hc2). cbn zeta in *. set (d2 := if gs_suspect g && _ then _ else d1) in *.
  destruct (step_covers now (needsRecovery g && (negb (in_mode md BackgroundMode) || gs_recoverArmed g)) d2 (gs_recoverAt g) Hn Hd2)
    as (Hso3 & Hd3 & Hc3). cbn zeta in *. set (d3 := if needsRecovery g && _ then _ else d2) in *.
  set (o4 := match dc_Until (gs_decision g) with Some _ => _ | None => _ end).
  destruct o4 as [d4|] eqn:E4; cbn [mbind option_bind]; [|done]. intros [= <-].
  assert (Hso4 : sooner now d3 d4 ∧ (d4 = 0 ∨ now < d4) ∧ ∀ until lp, dc_Until (gs_decision g) = Some until →
    rs_Code until = "until.dwell"%string → gs_policy g = Some lp →
    now < time_add (cr_LastSwitch ctl) (pl_Dwell (lp_Base lp)) →
    now < d4 ∧ d4 <= time_add (cr_LastSwitch ctl) (pl_Dwell (lp_Base lp))).
  { unfold o4 in E4. destruct (dc_Until (gs_decision g)) as [until|]; [|injection E4 as <-; done].
    case_if_in E4.
    - destruct (gs_policy g) as [lp|]; [|done]. injection E4 as <-.
      destruct (step_covers now true d3 (time_add (cr_LastSwitch ctl) (pl_Dwell (lp_Base lp))) Hn Hd3) as (A & B & C).
      split_and!; [done | done|]. intros u lp' [= <-] _ [= <-]. by apply C.
    - injection E4 as <-. split_and!; [done | done|]. intros u lp' [= <-] Hu. by rewrite Hu, eqs_refl in E. }
  destruct Hso4 as (Hso4 & Hd4 & Hc4).
  destruct (step_covers now ((in_mode md ActiveMode || in_mode md EcoMode) && before now (mc_windowUntil m)) d4 (gs_maintainAt g) Hn Hd4)
    as (Hso5 & Hd5 & Hc5). cbn zeta in *. set (d5 := if _ && before now (mc_windowUntil m) then _ else d4) in *.
  split_and!; [by etrans; [|etrans; [|etrans; [|etrans]]] | done|].
  intros t Hw Ht. destruct Hw as [key t Hk|Hs Hcf|Hr Ha|until lp Hu Hcode Hp|Hmd Hwin].
  - left. assert (Hc : now < d1 ∧ d1 <= t).
    { apply consider_list_covers; [done..|]. apply list_elem_of_fmap. exists (key, t). split; [done|].
      by apply elem_of_range_map. }
    apply (sooner_covers now d4 d5 t Hso5), (sooner_covers now d3 d4 t Hso4), (sooner_covers now d2 d3 t Hso3),
      (sooner_covers now d1 d2 t Hso2), Hc.
  - left. apply (sooner_covers now d4 d5 _ Hso5), (sooner_covers now d3 d4 _ Hso4), (sooner_covers now d2 d3 _ Hso3), Hc2; [|done].
    fold g in Hs, Hcf. by rewrite Hs, Hcf.
  - left. apply (sooner_covers now d4 d5 _ Hso5), (sooner_covers now d3 d4 _ Hso4), Hc3; [|done].
    fold g in Hr, Ha. rewrite Hr. cbn [andb]. destruct Ha as [Ha| ->]; [|apply orb_true_r].
    by rewrite (proj2 (in_mode_false _ _) Ha).
  - fold g in Hu, Hp. destruct (decide (pl_Dwell (active g lp) = pl_Dwell (lp_Base lp))) as [He|He]; [left | by right; exists until, lp].
    fold g in Ht |- *. rewrite He in Ht |- *. apply (sooner_covers now d4 d5 _ Hso5). by eapply Hc4.
  - left. apply Hc5; [|done]. unfold before. rewrite (proj2 (Z.ltb_lt _ _) Hwin), andb_true_r.
    destruct Hmd as [-> | ->]; done.
Qed.

Lemma groups_due_covers m md now due names due' : 0 <= now → due = 0 ∨ now < due →
  groups_due m md now due names = Some due' →
  sooner now due due' ∧ (due' = 0 ∨ now < due') ∧
  ∀ name t, name ∈ names → group_wants m md now name t → now < t → (now < due' ∧ due' <= t) ∨ dwell_missed m name t.
Proof.
  intros Hn. revert due. induction names as [|name names IH]; intros due Hd; cbn [groups_due].
  { intros [= <-]. split_and!; [done | done|]. by intros ? ? ?%not_elem_of_nil. }
  destruct (group_due m md now due name) as [d1|] eqn:E1; cbn [mbind option_bind]; [|done]. intros E.
  destruct (group_due_covers _ _ _ _ _ _ Hn Hd E1) as (Ha & Hd1 & Hc1).
  destruct (IH d1 Hd1 E) as (Hb & Hd2 & Hc2). split_and!; [by etrans | done|].
  intros n t [->|Hin]%elem_of_cons Hw Ht; [|by eapply Hc2].
  destruct (Hc1 t Hw Ht) as [Hc|]; [left | by right]. by apply (sooner_covers now d1 due' t Hb).
Qed.

(** C10: the engine wakes in time. The moment [nextDue] gives is in the
    future, and no later than any future moment the engine waits for: the end
    of a cooldown, the repeat of a suspicion's check, the next recovery pass,
    the end of a dwell, the next maintenance, the wake window, the next
    diagnostics. One wait is missed, and only in one way: the decision of a
    group waits out the dwell of the policy of its network, [nextDue] looks at
    the dwell of the profile itself, so when the two differ it may wake too
    late. A stopped or dozing engine is never woken. *)
Theorem next_due_covers m now due : 0 <= now → nextDue m now = Some due →
  (due = 0 ∨ now < due) ∧
  (mode m now = StoppedMode ∨ mode m now = SleepMode → due = 0) ∧
  (mode m now ≠ StoppedMode → mode m now ≠ SleepMode →
   ∀ t, wants m now t → now < t → (due ≠ 0 ∧ due <= t) ∨ ∃ name, name ∈ mc_order m ∧ dwell_missed m name t).
Proof.
  intros Hn. unfold nextDue, zero_time. set (md := mode m now). case_if.
  { intros [= <-]. split_and!; [by left | done|]. intros Ha Hb.
    apply orb_true_iff in E as [E%in_mode_true|E%in_mode_true]; done. }
  apply orb_false_iff in E as [Ha%in_mode_false Hb%in_mode_false].
  destruct (groups_due m md now 0 (mc_order m)) as [d1|] eqn:E1; cbn [mbind option_bind]; [|done]. intros [= <-].
  destruct (groups_due_covers _ _ _ _ _ _ Hn (or_introl eq_refl) E1) as (_ & Hd1 & Hc1).
  destruct (step_covers now (before now (mc_windowUntil m)) d1 (mc_wakeAt m) Hn Hd1) as (Hs2 & Hd2 & Hc2). cbn zeta in *.
  set (b := diagAllowed m md && negb (mc_diagBusy m) && negb (bool_decide (diagTargets m = []))).
  set (d2 := if before now (mc_windowUntil m) then consider now d1 (mc_wakeAt m) else d1) in *.
  destruct (step_covers now (before now (mc_windowUntil m) && b) d2 (mc_diagNext m) Hn Hd2) as (Hs3 & Hd3 & Hc3). cbn zeta in *.
  assert (Hfinal : (if before now (mc_windowUntil m)
    then if b then consider now (consider now d1 (mc_wakeAt m)) (mc_diagNext m) else consider now d1 (mc_wakeAt m)
    else d1) = if before now (mc_windowUntil m) && b then consider now d2 (mc_diagNext m) else d2).
  { unfold d2. by destruct (before now (mc_windowUntil m)), b. }
  rewrite Hfinal. set (d3 := if before now _ && b then _ else d2) in *.
  split_and!; [done | naive_solver|]. intros _ _ t Hw Ht.
  enough ((now < d3 ∧ d3 <= t) ∨ ∃ name, name ∈ mc_order m ∧ dwell_missed m name t) as [|] by (by right) || (left; lia).
  destruct Hw as [name t Hin Hg|Hwin|Hwin Hal Hbusy Htg]; [|left..].
  - destruct (Hc1 name t Hin Hg Ht) as [Hc|]; [left | by right; exists name].
    by apply (sooner_covers now d2 d3 t Hs3), (sooner_covers now d1 d2 t Hs2).
  - apply (sooner_covers now d2 d3 _ Hs3), Hc2; [|done]. unfold before. by apply Z.ltb_lt.
  - apply Hc3; [|done]. unfold before, b. fold md in Hal. rewrite (proj2 (Z.ltb_lt _ _) Hwin), Hal, Hbusy.
    by rewrite bool_decide_eq_false_2.
Qed.

Lemma group_due_None m md now due name : group_due m md now due name = None ↔
  gs_policy (group_of m name) = None ∧
  ∃ until, dc_Until (gs_decision (group_of m name)) = Some until ∧ rs_Code until = "until.dwell"%string.
Proof.
  unfold group_due. destruct (dc_Until (gs_decision (group_of m name))) as [until|]; cbn; [|naive_solver].
  destruct (eqs (rs_Code until) "until.dwell") eqn:Ec; cbn.
  - apply eqs_true in Ec. destruct (gs_policy (group_of m name)); cbn; naive_solver.
  - apply eqs_false in Ec. naive_solver.
Qed.

Lemma groups_due_None m md now due names : groups_due m md now due names = None ↔
  ∃ name, name ∈ names ∧ gs_policy (group_of m name) = None ∧
    ∃ until, dc_Until (gs_decision (group_of m name)) = Some until ∧ rs_Code until = "until.dwell"%string.
Proof.
  revert due. induction names as [|name names IH]; intros due; cbn [groups_due].
  { split; [done | by intros (? & ?%not_elem_of_nil & _)]. }
  destruct (group_due m md now due name) as [d1|] eqn:E1; cbn [mbind option_bind].
  - rewrite IH. split; intros (n & Hin & Hp & Hu); exists n; (split_and!; [|done..]); [by right|].
    apply elem_of_cons in Hin as [->|?]; [|done].
    assert (group_due m md now due name = None) by (by apply group_due_None). congruence.
  - apply group_due_None in E1 as [Hp Hu]. split; [|done]. intros _. exists name. split_and!; [left | done..].
Qed.

(** When the wake-up panics: exactly when, in a running engine, a group
    whose profile no longer compiles still holds a decision that waits for
    its dwell time, which [nextDue] reads from the missing policy. *)
Theorem next_due_failure m now :
  nextDue m now = None ↔
  mode m now ≠ StoppedMode ∧ mode m now ≠ SleepMode ∧
  ∃ name, name ∈ mc_order m ∧ gs_policy (group_of m name) = None ∧
    ∃ until, dc_Until (gs_decision (group_of m name)) = Some until ∧ rs_Code until = "until.dwell"%string.
Proof.
  unfold nextDue. case_if.
  { split; [done|]. intros (Ha & Hb & _). apply orb_true_iff in E as [E%in_mode_true|E%in_mode_true]; done. }
  apply orb_false_iff in E as [Ha%in_mode_false Hb%in_mode_false].
  pose proof (groups_due_None m (mode m now) now zero_time (mc_order m)) as Hg.
  destruct (groups_due m (mode m now) now zero_time (mc_order m)) as [d|]; cbn [mbind option_bind].
  - split; [done|]. intros (_ & _ & Hx). apply Hg in Hx. done.
  - split; [|done]. intros _. split_and!; [done | done | by apply Hg].
Qed.
End facts.
