(* ===== verification/RebuildFacts.v ===== *)
(** * Facts about rebuilding

    A rebuild leaves a well-formed machine, whatever the configuration. *)

From S2P Require Import Prelude GoText Cond Evidence Journal Identity Country Profile Policy Library.
From S2P Require Import Decide Budget Route Scenario Layers Machine Rebuild MachineFacts.

Section facts.
Context `{Unicode} `{Regexp} `{Url} `{PublicSuffix} `{IpText} `{RangeOrder} `{Netip}.
Context `{Yaml} `{Embedded} `{ErrorText} `{Hmac} `{Random}.

(** The machine's fields [wf] reads. *)
Definition same_core (m m' : machine) : Prop :=
  mc_order m' = mc_order m ∧ mc_groups m' = mc_groups m ∧ mc_controls m' = mc_controls m.

#[export] Instance same_core_preorder : PreOrder same_core.
Proof. split; [done | intros a b c (A1 & A2 & A3) (B1 & B2 & B3); split_and!; congruence]. Qed.

Lemma quiet_core m m' : quiet m m' → same_core m m'.
Proof. intros Hq. by rewrite Hq. Qed.

Lemma core_wf m m' : same_core m m' → wf m → wf m'.
Proof. intros (Ho & Hg & Hc). apply shape_wf. by apply shape_eq. Qed.

Lemma add_member_frame m g nk : same_core m (add_member m g nk).2 ∧
  ∀ name, group_ok name g → group_ok name (add_member m g nk).1.
Proof.
  destruct nk as [node key]. unfold add_member. destruct (countryOf _ _) as [country cache].
  split; [done|]. intros name [Hn Hi Ha]. split; cbn; [done| |].
  - intros n i. destruct (decide (n = nd_Name node)) as [->|Hne].
    + rewrite lookup_insert_eq. intros [= <-]. rewrite lookup_app_r, Nat.sub_diag by done. cbn. eauto.
    + rewrite lookup_insert_ne by done. intros (mb & Hm & Hnm)%Hi. exists mb. split; [|done].
      by apply lookup_app_l_Some.
  - intros mb [Hin|Hin]%elem_of_app.
    + destruct (decide (nd_Name node = mb_Name mb)) as [->|]; [by rewrite lookup_insert_eq|].
      rewrite lookup_insert_ne by done. by apply Ha.
    + apply list_elem_of_singleton in Hin as ->. cbn. by rewrite lookup_insert_eq.
Qed.

Lemma add_members_frame m g nks : same_core m (add_members m g nks).2 ∧
  ∀ name, group_ok name g → group_ok name (add_members m g nks).1.
Proof.
  unfold add_members. revert m g. induction nks as [|nk nks IH]; intros m g; [done|]. cbn [foldl].
  destruct (add_member_frame m g nk) as [Hc Hok]. destruct (add_member m g nk) as [g1 m1]. cbn [fst snd] in *.
  destruct (IH m1 g1) as [Hc1 Hok1]. split; [by etrans|]. auto.
Qed.

(** A group with no members and no index. *)
Lemma group_ok_blank name g : gs_name g = name → gs_members g = [] → gs_byName g = ∅ → group_ok name g.
Proof.
  intros Hn Hm Hb. split; rewrite ?Hm, ?Hb; [done| |].
  - intros n i. by rewrite lookup_empty.
  - by intros mb ?%not_elem_of_nil.
Qed.

Lemma configure_group_name m g bd : gs_name (configure_group m g bd) = gs_name g.
Proof. unfold configure_group. destruct (pick_profile _ _). by destruct (compile_group _ _ _ _). Qed.

Lemma recall_changed_frame m g id now :
  same_core m (recall_changed m g id now).2 ∧ gs_name (recall_changed m g id now).1 = gs_name g.
Proof.
  unfold recall_changed. case_if; [|done]. pose proof (recallKind_quiet m g now) as Hq.
  unfold recallKind in *. destruct (recall _ _ _) as [ks m2]. cbn [fst snd] in *. split; [by apply quiet_core | done].
Qed.

Lemma fill_group_frame m g topo nks name : gs_name g = name →
  same_core m (fill_group m g topo nks).2 ∧ group_ok name (fill_group m g topo nks).1.2.
Proof.
  intros Hn. unfold fill_group. destruct topo as [t|]; [|split; [done | by apply group_ok_blank]].
  set (g0 := {| g with gs_members := []; gs_byName := ∅; gs_now := gt_Now t |}).
  destruct (add_members_frame m g0 (take (length (gt_Members t)) nks)) as [Hc Hok].
  specialize (Hok name ltac:(by apply group_ok_blank)).
  change {| g with gs_members := []; gs_byName := ∅; gs_now := gt_Now t |} with g0.
  destruct (add_members m g0 (take (length (gt_Members t)) nks)) as [g1 m1] eqn:E. cbn [fst snd] in *.
  unfold g0 in E. cbn in *. rewrite E. split; [done|]. case_if; [by destruct Hok | done].
Qed.

Lemma rebuild_group_frame previous topo now name bd nks m :
  (∀ g, previous !! name = Some g → gs_name g = name) →
  let m' := (rebuild_group previous topo now name bd nks m).2 in
  mc_order m' = mc_order m ++ [name] ∧
  (∃ g, mc_groups m' = <[name := g]> (mc_groups m) ∧ group_ok name g) ∧
  (∀ n, is_Some (mc_controls m !! n) → is_Some (mc_controls m' !! n)) ∧ is_Some (mc_controls m' !! name).
Proof.
  intros Hprev. cbn zeta. unfold rebuild_group.
  set (g0 := default (new_group name) (previous !! name)).
  assert (Hn0 : gs_name g0 = name) by (unfold g0; destruct (previous !! name) as [g|] eqn:E; [by apply Hprev | done]).
  destruct (recall_changed_frame m (configure_group m g0 bd) (policy_id (gs_policy g0)) now) as [Hc1 Hn1].
  rewrite configure_group_name, Hn0 in Hn1. destruct (recall_changed _ _ _ _) as [g1 m1]. cbn [fst snd] in *.
  destruct (fill_group_frame m1 g1 (topo !! name) nks name Hn1) as [Hc2 Hok].
  destruct (fill_group m1 g1 (topo !! name) nks) as [[nks' g2] m2]. cbn [fst snd] in *.
  assert (Hc : same_core m m2) by (by etrans). destruct Hc as (Ho & Hg & Hctl).
  assert (Hk : let m3 := match mc_controls m2 !! name with Some _ => m2 | None => put_control m2 name new_control end in
    mc_order m3 = mc_order m ∧ mc_groups m3 = mc_groups m ∧
    (∀ n, is_Some (mc_controls m !! n) → is_Some (mc_controls m3 !! n)) ∧ is_Some (mc_controls m3 !! name)).
  { destruct (mc_controls m2 !! name) as [c|] eqn:Ec; cbn zeta.
    - rewrite Ec, Hctl. done.
    - split_and!; [done..| |]; cbn [put_control mc_controls].
      + intros n Hs. apply lookup_insert_is_Some'. right. by rewrite Hctl.
      + apply lookup_insert_is_Some'. by left. }
  cbn zeta in Hk. destruct Hk as (Ho3 & Hg3 & Hc3 & Hn3). cbn [snd mc_order mc_groups mc_controls put_group].
  split_and!; [by rewrite Ho3 | by exists g2; rewrite Hg3 | done | done].
Qed.

Lemma rebuild_group_wf previous topo now name bd nks m :
  (∀ g, previous !! name = Some g → gs_name g = name) → name ∉ mc_order m → wf m →
  wf (rebuild_group previous topo now name bd nks m).2.
Proof.
  intros Hprev Hnew [Hnd Hdom Hgr Hctl].
  destruct (rebuild_group_frame previous topo now name bd nks m Hprev) as (Ho & (g & Hg & Hok) & Hc & Hcn).
  split.
  - rewrite Ho. apply NoDup_app. split_and!; [done | | by apply NoDup_singleton].
    by intros n Hn ->%list_elem_of_singleton.
  - intros n. rewrite Ho, Hg, elem_of_app, list_elem_of_singleton, Hdom.
    rewrite lookup_insert_is_Some'. split; (intros [?|?]; auto).
  - intros n gn. rewrite Hg. destruct (decide (n = name)) as [->|].
    + rewrite lookup_insert_eq. by intros [= <-].
    + rewrite lookup_insert_ne by done. apply Hgr.
  - intros n. rewrite Ho. intros [Hn| ->%list_elem_of_singleton]%elem_of_app; [by apply Hc, Hctl | done].
Qed.

Lemma rebuild_groups_wf previous topo now bound names nks m :
  (∀ name g, previous !! name = Some g → gs_name g = name) → NoDup names →
  (∀ name, name ∈ names → name ∉ mc_order m) → wf m →
  wf (rebuild_groups previous topo now bound names nks m).
Proof.
  intros Hprev. revert nks m. induction names as [|name names IH]; intros nks m Hnd Hnew Hw; [done|].
  apply NoDup_cons in Hnd as [Hn Hnd]. cbn [rebuild_groups]. destruct (bound !! name) as [bd|].
  2: { apply IH; [done | | done]. intros n Hin. apply Hnew. by right. }
  pose proof (rebuild_group_wf previous topo now name bd nks m (Hprev name) (Hnew name ltac:(left)) Hw) as Hw1.
  destruct (rebuild_group_frame previous topo now name bd nks m (Hprev name)) as (Ho & _).
  destruct (rebuild_group _ _ _ _ _ _ _) as [nks' m1]. cbn [snd] in *. apply IH; [done | | done].
  intros n Hin. rewrite Ho, not_elem_of_app, list_elem_of_singleton. split; [apply Hnew; by right | by intros ->].
Qed.

(** Setting the stage: everything before the groups are rebuilt. *)
Lemma ensureSalt_core m : same_core m (ensureSalt m).
Proof. unfold ensureSalt. by case_if. Qed.

Lemma loadScenario_core m now : same_core m (loadScenario m now).
Proof.
  unfold loadScenario. set (id := activeScenario _ _). set (m1 := {| m with mc_scn := _ |}).
  assert (Hc : same_core m (if eqs id (ss_id (mc_scn m)) then m1
    else let '(ks, m) := recall m1 (scenarioKey id) now in {| m with mc_scn := {| (mc_scn m) with ss_kind := ks |} |})).
  { case_if; [done|]. pose proof (recall_quiet m1 (scenarioKey id) now) as Hq. destruct (recall _ _ _) as [ks m2].
    cbn [snd] in Hq. by apply quiet_core in Hq. }
  case_if; [done|]. by destruct (CompileScenario _ _).
Qed.

Lemma applyScenario_core m bound : same_core m (applyScenario m bound).2.
Proof. unfold applyScenario. by destruct (ss_c (mc_scn m)). Qed.

Lemma resolve_ids_core m nodes now : same_core m (resolve_ids m nodes now).2.
Proof. unfold resolve_ids. by destruct (Resolve _ _ _ _) as [[? ?]|]. Qed.

Lemma rebuild_wf_from m now : names_ok m → wf (rebuild m now).
Proof.
  intros Hn. unfold rebuild. set (m1 := load_library (ensureSalt m)).
  assert (Hc1 : same_core m m1) by apply ensureSalt_core.
  pose proof (loadScenario_core m1 now) as Hc2. set (m2 := loadScenario m1 now) in *.
  pose proof (applyScenario_core m2 (layer_bound m2)) as Hc3. destruct (applyScenario m2 (layer_bound m2)) as [bound m3].
  cbn [snd] in Hc3. set (topo := topology_groups _).
  pose proof (resolve_ids_core m3 (bound_nodes topo (sorted_keys bound)) now) as Hc4.
  destruct (resolve_ids m3 _ now) as [keys m4]. cbn [snd] in Hc4.
  assert (Hc : same_core m m4) by (etrans; [exact Hc1|]; etrans; [exact Hc2|]; by etrans).
  destruct Hc as (_ & Hg & _).
  eapply core_wf; [|apply rebuild_groups_wf with (previous := mc_groups m4)].
  - done.
  - rewrite Hg. exact Hn.
  - apply NoDup_sorted_keys.
  - intros name _. apply not_elem_of_nil.
  - split; cbn.
    + constructor.
    + intros name. rewrite lookup_empty, elem_of_nil. split; [done | by intros []].
    + intros name g. by rewrite lookup_empty.
    + by intros name ?%elem_of_nil.
Qed.
End facts.
