(* ===== verification/StudioEffects.v ===== *)
(** * The editor beside a running engine

    Whatever the editor is asked, the machine goes on as it was; the one way
    an operation fails to answer; and the warnings of concrete documents. *)

From S2P Require Import Prelude GoText TextFacts Cond CondSyntax Profile Policy Library Route Scenario Layers.
From S2P Require Import Evidence Journal Identity Country Decide Merge Bundle BundleFacts BundleExchange Builder Budget Machine Studio StudioHost.
From S2P Require Import PolicyFacts LintFacts StudioFacts MachineFacts Rebuild Settle Events EventFacts Planner Samples.

Section effects.
Context `{UA : UnicodeAscii} `{Regexp} `{Url} `{PublicSuffix} `{IpText} `{RangeOrder} `{Netip}.
Context `{Yaml} `{YamlTree} `{YamlNodes} `{ErrorText} `{CondErrorText} `{Meaning} `{Documents}.













End effects.

(** ** On concrete documents *)

Module Sample.
Import World.

Definition tier (label when : string) (last_resort : bool) : TierSpec :=
  {| ts_Label := label; ts_When := when; ts_LastResort := last_resort |}.

Definition asks (addr : string) : Check :=
  {| cx_HTTP := ""; cx_TCP := addr; cx_TLS := ""; cx_SNI := ""; cx_Expect := []; cx_Optional := false |}.

(** A profile with a tag and a check nothing reads, and two steps with one
    condition, the first a last resort. *)
Definition spare : Profile :=
  {| no_profile with pr_Tags := {["spare" := "alive"; "home" := "dead"]}; pr_Checks := {["video" := asks "video.example:443"]};
     pr_Prefer := [tier "Old" "measured and not tag(home)" true; tier "New" "measured  and not tag(home)" false] |}.

(** A profile of the provider, and one of the user that extends it. *)
Definition watching : Profile := {| no_profile with pr_Checks := {["video" := asks "video.example:443"]} |}.
Definition child : Profile := {| no_profile with pr_Extends := "provider/watching"; pr_Pool := {| po_Include := "passes(video)"; po_Exclude := "" |} |}.

(** A scenario whose one program reads its tag, with a space in the call. *)
Definition trip : Scenario :=
  {| sc_RCX := 1; sc_Title := ""; sc_Description := ""; sc_Tags := {["vpn" := "alive"]};
     sc_Network := pr_Network no_profile; sc_Mode := "";
     sc_Groups := {["Proxy" := {| pg_Profile := ""; pg_Pool := {| po_Include := "tag( vpn )"; po_Exclude := "" |};
                                  pg_Prefer := []; pg_To := "" |}]};
     sc_Routes := []; sc_On := ∅; sc_L10n := ∅ |}.

#[local] Instance documents : Yaml :=
  {| yaml_any := string; yaml_marshal text := Ok text;
     yaml_profile text :=
       if eqs text "spare" then Ok spare else if eqs text "watching" then Ok watching else if eqs text "child" then Ok child
       else if eqs text "simple" then Ok improving else Err "line 7: bad"%string;
     yaml_scenario text := if eqs text "trip" then Ok trip else Err "line 7: bad"%string; yaml_format _ := Err EmptyString |}.
#[local] Instance yaml_errors : ErrorText := {| error_text e := match e with YamlError text => text | _ => "error"%string end |}.
#[local] Instance simple_file : Embedded := {| builtin_profiles := [("simple"%string, "simple"%string)]; builtin_scenarios := [] |}.
#[local] Instance no_tree : YamlTree :=
  {| yaml_tree _ := None; yaml_of_profile _ := Err EmptyString; yaml_of_scenario _ := Err EmptyString; yaml_write _ := Err EmptyString |}.

Definition provider : SubscriptionLayer := {| empty_subscription with su_Profiles := {["watching" := "watching"]} |}.
Definition library (user : UserLayer) : Library := fl_profiles (NewLibrary provider user).

(** A profile of the user that no longer parses, and the text that would
    mend it. *)
Definition broken_user : UserLayer :=
  {| empty_user with ul_Profiles := {["mine" := "broken"]}; ul_Groups := {["Proxy" := {| no_binding with bi_Profile := "user/mine" |}]} |}.
Definition broken_machine : machine :=
  rebuild {| newMachine with mc_topology := {| empty_topology with tp_Groups := [two_servers] |}; mc_user := broken_user |} noon.

Definition lint_request (group id text : string) : StudioRequest :=
  {| rq_Op := "lint"; rq_Kind := ""; rq_Scenario := None; rq_Text := text; rq_ID := id; rq_Group := group; rq_Profile := None;
     rq_Network := false; rq_Form := None; rq_Base := ""; rq_Theirs := ""; rq_Taken := [] |}.

Example lint_panics : lint broken_machine (lint_request "Proxy" "user/mine" "simple") noon = None.
Proof. vm_compute. reflexivity. Qed.

#[local] Existing Instance ascii_tables_ok.
#[local] Instance no_nodes : YamlNodes := {| yaml_content _ := Err EmptyString; Bundle.yaml_encode _ := Err EmptyString |}.
#[local] Instance no_texts : CondErrorText := {| cond_error_text _ := EmptyString; form_error_text _ := EmptyString |}.
#[local] Instance no_meaning : Meaning := {| meaning _ := None |}.
#[local] Instance no_documents : Documents := {| yaml_document _ := None; Merge.yaml_encode _ := None |}.


(** The document's fault is at the line its error names. *)
Example broken_text : is_Line <$> lr_Errors (lintIn (library empty_user) "user/mine" "broken" no_binding).1 = [7].
Proof. vm_compute. reflexivity. Qed.

Definition spare_lint : LintResult * option LayeredPolicy := lintIn (library empty_user) "user/mine" "spare" no_binding.

(** The tag spare and the check video are unused; the tag home is not. *)
Lemma unused_means_unused_witness : ∃ p, spare_lint.2 = Some p ∧
  unused_tag "spare" "spare" ∈ lr_Warnings spare_lint.1 ∧ unused_tag "spare" "home" ∉ lr_Warnings spare_lint.1 ∧
  Forall (λ q, "video"%string ∉ pl_CheckIDs q) (policies p).
Proof.
  assert (Hw : unused_tag "spare" "spare" ∈ lr_Warnings spare_lint.1 ∧ unused_tag "spare" "home" ∉ lr_Warnings spare_lint.1 ∧
    unused_check "spare" "video" ∈ lr_Warnings spare_lint.1) by (apply (bool_decide_unpack _); vm_compute; exact I).
  assert (Hs : is_Some spare_lint.2) by (vm_compute; eexists; reflexivity). destruct Hs as [p Hp].
  assert (E : lintIn (library empty_user) "user/mine" "spare" no_binding = (spare_lint.1, Some p)) by (rewrite <- Hp; by destruct spare_lint eqn:El).
  destruct (unused_means_unused (library empty_user) "user/mine" "spare" no_binding spare_lint.1 p E) as (profile & _ & _ & _ & _ & Hc).
  destruct Hw as (H1 & H2 & H3). exists p. split_and!; [exact Hp | exact H1 | exact H2 | exact (proj1 (Hc "video"%string H3))].
Defined.

(** A step is said to be out of reach behind one with the same condition,
    although that one is a last resort and comes after it: what is measured
    lands in it. *)
Example last_resort_reached :
  (is_Path <$> filter (λ i, is_Code i = "tier.unreachable"%string) (lr_Warnings spare_lint.1)) = ["prefer.1.when"%string] ∧
  (fmap ti_Label ∘ pl_Tiers ∘ lp_Base <$> spare_lint.2) = Some ["New"; "Old"]%string.
Proof. vm_compute. split; reflexivity. Qed.

(** The lint of a scenario looks for the call as a text: one with a space is
    not found, and a tag that is read is called unused. *)
Example spaced_tag :
  (is_Message <$> lr_Warnings (lintScenarioIn (NewLibrary provider empty_user) "user/trip" "trip" (Some ["Proxy"%string]))) =
    ["tag vpn is never used"%string] ∧
  parseCond {| cs_tags := Some {["vpn"%string]}; cs_checks := ∅; cs_diags := None |} "tag( vpn )" =
    Ok (Some {| cd_Text := "tag( vpn )"; cd_root := tagNode "vpn" |}).
Proof. vm_compute. split; reflexivity. Qed.

(** A profile that extends one of the provider needs leave for the host it
    checks, and for no other. *)
Lemma lint_verdict_witness : ∃ p, (lintIn (library empty_user) "user/mine" "child" no_binding).2 = Some p ∧
  let after := library (save_profile empty_user "mine" "child") in
  ∃ hosts, Compile (with_trust after hosts) "user/mine" no_binding = Ok p.
Proof.
  assert (Hid : CanonicalID (named UserSource "mine") = named UserSource "mine") by (vm_compute; reflexivity).
  destruct (lint_verdict provider empty_user "mine" "child" no_binding Hid) as (_ & Hv & _).
  assert (Hs : is_Some (lintIn (library empty_user) "user/mine" "child" no_binding).2) by (vm_compute; eexists; reflexivity).
  destruct Hs as [p Hp]. exists p. split; [exact Hp|]. exact (proj1 (Hv p) Hp).
Defined.

Example leave_asked : let warnings := lr_Warnings (lintIn (library empty_user) "user/mine" "child" no_binding).1 in
  (is_Args <$> warnings) = [[("hosts"%string, IssueHosts ["video.example"%string])]].
Proof. vm_compute. reflexivity. Qed.
End Sample.
