(* ===== verification/Engine.v ===== *)
(** * The engine: core/rcx/engine.go

    The engine holds the machine under one lock. Every input changes the
    machine and then runs one step: decide, buy checks, publish, persist and
    arm the one timer. Each operation here is one critical section. The
    goroutines a step starts are recorded, and so is what is published and
    saved; [None] is a run-time panic while the lock is held. *)

From S2P Require Import Prelude GoText Cond Evidence Journal Identity Profile Policy Library.
From S2P Require Import Decide Budget Route Scenario Layers Machine Rebuild Settle Events Planner.

Definition failureDrainDelay : duration := 250 * Millisecond.
Definition trafficDrainDelay : duration := 2 * Second.
Definition publishInterval : duration := 500 * Millisecond.
Definition saveInterval : duration := 5 * Minute.
Definition maxSnapshotBytes : Z := 2 ^ 20.
Definition snapshotVersion : Z := 1.

(** What is persisted. *)
Record snapshot := {
  sn_Version : Z;
  sn_Salt : string;
  sn_Identities : list Identity;
  sn_Evidence : Evidence;
  sn_Controls : gmap string controlRecord;
  sn_Journal : journal;
  sn_Energy : EnergyDay;
  sn_Buckets : gmap string tokenBucket;
}.

(** encoding/json on a snapshot: the size of its text, or why it has none;
    and the [Store], after the snapshots saved so far. *)
Class Store := {
  snapshot_bytes : snapshot → result string Z;
  store_save : list snapshot → snapshot → option string;
}.

Definition too_big : string := "state is over the limit".

Record engine `{Yaml} := {
  en_m : machine;
  en_closed : bool;
  en_dueAt : time;
  en_storeOK : option string;
  en_lastPublish : time;
  en_lastSave : time;
  en_split : option string;
  en_probes : list probeJob;
  en_published : list time;
  en_saved : list snapshot;
}.

Section engine.
Context `{Unicode} `{Regexp} `{Url} `{PublicSuffix} `{IpText} `{RangeOrder} `{Netip}.
Context `{Yaml} `{Embedded} `{ErrorText} `{Hmac} `{Random} `{Runtime} `{Calendar} `{Store}.

(** ** Persistence *)

Definition take_snapshot (m : machine) : snapshot :=
  {| sn_Version := snapshotVersion; sn_Salt := mc_salt m; sn_Identities := mc_ids m;
     sn_Evidence := mc_evidence m; sn_Controls := mc_controls m; sn_Journal := mc_journal m;
     sn_Energy := bg_day (mc_budget m); sn_Buckets := bg_buckets (mc_budget m) |}.

(** [load], from the snapshot the store's bytes decode to. *)
Definition load_snapshot (m : machine) (snap : option snapshot) : machine :=
  match snap with
  | None => m
  | Some s =>
      if negb (sn_Version s =? snapshotVersion) then m
      else {| m with mc_salt := sn_Salt s; mc_ids := sn_Identities s; mc_evidence := sn_Evidence s;
                     mc_journal := sn_Journal s; mc_controls := sn_Controls s;
                     mc_budget := {| bg_day := sn_Energy s; bg_buckets := sn_Buckets s |} |}
  end.

(** The error of one attempt to save. *)
Definition save_error (saved : list snapshot) (s : snapshot) : option string :=
  match snapshot_bytes s with
  | Err e => Some e
  | Ok size => if maxSnapshotBytes <? size then Some too_big else store_save saved s
  end.

Definition saveLocked (e : engine) (now : time) : engine :=
  let m := en_m e in
  if negb (mc_dirty m) then e
  else
    let s := take_snapshot m in
    let err := save_error (en_saved e) s in
    let m := if Bool.eqb (is_none err) (is_none (en_storeOK e)) then m else mark_status m in
    {| e with en_m := if is_none err then {| m with mc_dirty := false |} else m;
              en_storeOK := err; en_lastSave := now;
              en_saved := if is_none err then en_saved e ++ [s] else en_saved e |}.

(** [NewEngine] and [load], from the snapshot the store's bytes decode to. *)
Definition NewEngine (snap : option snapshot) : engine :=
  {| en_m := load_snapshot newMachine snap; en_closed := false; en_dueAt := zero_time; en_storeOK := None;
     en_lastPublish := zero_time; en_lastSave := zero_time; en_split := None; en_probes := [];
     en_published := []; en_saved := [] |}.

(** ** The step *)

Definition arm (e : engine) (due : time) : engine := {| e with en_dueAt := due |}.

(** What computing the status reads through the machine: the direct split
    of every group looks at the current network. *)
Definition status_reads (m : machine) (now : time) : machine :=
  foldl (λ m name, let g := group_of m name in
                   if is_none (gs_policy g) then m else (splitState m g now).2) m (mc_order m).

Definition publish (e : engine) (now : time) : engine :=
  let m := en_m e in
  if mc_statusDirty m && (publishInterval <=? time_sub now (en_lastPublish e))
  then {| e with en_m := status_reads {| m with mc_statusDirty := false |} now; en_lastPublish := now;
                 en_published := en_published e ++ [now] |}
  else e.

Definition save_due (e : engine) (now : time) : engine :=
  if mc_dirty (en_m e) && (saveInterval <=? time_sub now (en_lastSave e)) then saveLocked e now else e.

(** The moment the timer is armed for. *)
Definition wake_at (e : engine) (due : time) : time :=
  let m := en_m e in
  let due := if mc_statusDirty m then earliest due (time_add (en_lastPublish e) publishInterval) else due in
  if mc_dirty m && mc_running m then earliest due (time_add (en_lastSave e) saveInterval) else due.

(** Rule matching reads the direct split without the lock. *)
Definition store_split (e : engine) : engine := {| e with en_split := Some (mc_split (en_m e)) |}.

Definition stepLocked (e : engine) (now : time) : option engine :=
  if en_closed e then Some e
  else
    let m := settle (expireCooldowns (en_m e) now) now in
    '(jobs, m) ← plan m now;
    let e := {| e with en_m := m; en_probes := en_probes e ++ jobs |} in
    let e := publish e now in
    let e := save_due e now in
    let e := store_split e in
    due ← nextDue (en_m e) now;
    Some (arm e (wake_at e due)).

(** [with]: change the machine, then step. *)
Definition with_machine (e : engine) (run : machine → machine) (now : time) : option engine :=
  if en_closed e then Some e else stepLocked {| e with en_m := run (en_m e) |} now.

(** ** Inputs of the core *)

(** [Topology] with the user layer it may carry. *)
Definition SetTopology (e : engine) (topology : Topology) (user : option UserLayer) (now : time) : option engine :=
  with_machine e (λ m, rebuild {| m with mc_user := default (mc_user m) user; mc_topology := topology |} now) now.

Definition SetUserLayer (e : engine) (user : UserLayer) (now : time) : option engine :=
  with_machine e (λ m, rebuild {| m with mc_user := user |} now) now.

Definition set_user_mode (mode : string) (m : machine) : machine :=
  if eqs (mc_userMode m) mode then m else mark_status (suppressProviders {| m with mc_userMode := mode |}).

Definition SetUserMode (e : engine) (mode : string) (now : time) : option engine :=
  with_machine e (set_user_mode mode) now.

(** Going to the background is the moment to persist. *)
Definition SetHints (e : engine) (h : Hints) (now : time) : option engine :=
  if en_closed e then Some e
  else
    let e := {| e with en_m := onHints (ensureSalt (en_m e)) h now |} in
    let e := match hn_Screen h with Some false => saveLocked e now | _ => e end in
    stepLocked e now.

Definition SetRunning (e : engine) (running : bool) (now : time) : option engine :=
  if en_closed e then Some e
  else if Bool.eqb (mc_running (en_m e)) running then stepLocked e now
  else
    let e := {| e with en_m := mark_status {| (en_m e) with mc_running := running |} |} in
    stepLocked (if running then e else saveLocked e now) now.

Definition NoteManualPick (e : engine) (group node : string) (now : time) : option engine :=
  with_machine e (λ m, onManualPick m group node now) now.

(** A probe's goroutine, once its result is in; [run] is what it measured. *)
Definition probe_done (e : engine) (job : probeJob) (res : probeResult) (now : time) : option engine :=
  stepLocked {| e with en_m := onProbeResult (en_m e) job res now |} now.

Definition Flush (e : engine) (now : time) : engine := saveLocked e now.

Definition Close (e : engine) (now : time) : engine :=
  if en_closed e then e else saveLocked {| e with en_closed := true |} now.

(** What one drain hands to the machine. *)
Definition drain_machine (traffic fails : gmap string Z) (tests : list (string * Z)) (now : time) (m : machine) : machine :=
  let m := if (size traffic =? 0)%nat then m else onTraffic m traffic now in
  let m := if (size fails =? 0)%nat then m else onDialFailures m fails now in
  foldl (λ m '(node, ms), onURLTest m node ms now) m tests.

Definition drain (e : engine) (traffic fails : gmap string Z) (tests : list (string * Z)) (now : time) : option engine :=
  with_machine e (drain_machine traffic fails tests now) now.

(** The timer drains what is pending before it steps. *)
Definition onTimer (e : engine) (traffic fails : gmap string Z) (tests : list (string * Z)) (now : time) : option engine :=
  if en_closed e then Some e else drain {| e with en_dueAt := zero_time |} traffic fails tests now.

(** [SplitTarget]: what the last step stored. *)
Definition SplitTarget (e : engine) : string := default EmptyString (en_split e).

(** ** Actions of the user *)

Inductive ActionRequest :=
  | ActChange | ActPin (node : string) (here : bool) | ActAuto | ActManual | ActCheck | ActUnknown (action : string).

Inductive actError := ErrUnknownGroup | ErrNotMember (node group : string) | ErrUnknownAction (action : string).

Definition release (c : controlRecord) (mode : ControlMode) : controlRecord :=
  {| c with cr_Control := {| ct_Mode := mode; ct_Pin := ""; ct_PinName := ""; ct_PinEnv := "" |} |}.

Definition act_change (m : machine) (group : string) (g : groupState) (now : time) : machine :=
  let c := control_of m group in
  let c := match keyOf m group (gs_now g) with
           | Some key => {| c with cr_Excluded := <[key := time_add now ChangeCooldown]> (cr_Excluded c) |}
           | None => c
           end in
  let c := if is_mode (ct_Mode (cr_Control c)) PinnedMode then release c AutoMode else c in
  let m := put_group (put_control m group c) group {| g with gs_force := true |} in
  note m now group "change" (gs_now g) EmptyString (reason "change.requested" []).

Definition act_pin (m : machine) (group node key : string) (here : bool) (now : time) : machine :=
  let c := control_of m group in
  let c := {| c with cr_Control := {| ct_Mode := PinnedMode; ct_Pin := key; ct_PinName := node;
                                      ct_PinEnv := if here then mc_envKey m else EmptyString |} |} in
  note (put_control m group c) now group "pin" EmptyString node (reason "pin.requested" []).

(** [checkAllLocked] over the members left: [None] when a group that has a
    member to check has no policy. *)
Fixpoint check_members (m : machine) (g : groupState) (now : time) (members : list Member)
    : option (list probeJob * machine) :=
  match members with
  | [] => Some ([], m)
  | member :: members =>
      let key := mb_Key member in
      if isUnroutable (nd_Type (mb_Node member)) || bool_decide (is_Some (mc_inflight m !! key))
      then check_members m g now members
      else
        let '(ok, m) := spend_at m UserBucket (level m) now in
        if negb ok then Some ([], m)
        else
          lp ← gs_policy g;
          let job := new_job (gs_name g) (mb_Name member) key UserBucket "user" in
          let '(job, m) := attachExtras m job (active g lp) (level m) now in
          let m := {| m with mc_inflight := <[key := job]> (mc_inflight m);
                             mc_lastProbe := <[key := now]> (mc_lastProbe m) |} in
          '(jobs, m) ← check_members m g now members;
          Some (job :: jobs, m)
  end.

(** The change an action makes, with the checks it starts. *)
Definition act_machine (m : machine) (group : string) (g : groupState) (action : ActionRequest) (now : time)
    : option (result actError (list probeJob * machine)) :=
  match action with
  | ActChange => Some (Ok ([], act_change m group g now))
  | ActPin node here =>
      match keyOf m group node with
      | None => Some (Err (ErrNotMember node group))
      | Some key => Some (Ok ([], act_pin m group node key here now))
      end
  | ActAuto => Some (Ok ([], note (put_control m group (release (control_of m group) AutoMode)) now group "auto"
                               EmptyString EmptyString (reason "auto.requested" [])))
  | ActManual => Some (Ok ([], note (put_control m group (release (control_of m group) ManualMode)) now group "manual"
                                 EmptyString EmptyString (reason "manual.requested" [])))
  | ActCheck => r ← check_members m g now (gs_members g); Some (Ok r)
  | ActUnknown action => Some (Err (ErrUnknownAction action))
  end.

Definition Act (e : engine) (group : string) (action : ActionRequest) (now : time)
    : option (engine * result actError (Decision * string)) :=
  match mc_groups (en_m e) !! group with
  | None => Some (e, Err ErrUnknownGroup)
  | Some g =>
      r ← act_machine (en_m e) group g action now;
      match r with
      | Err err => Some (e, Err err)
      | Ok (jobs, m) =>
          let e := {| e with en_m := mark_dirty (suppressProviders m); en_probes := en_probes e ++ jobs |} in
          e ← stepLocked e now;
          let g := default g (mc_groups (en_m e) !! group) in
          Some (e, Ok (gs_decision g, gs_now g))
      end
  end.

(** ** Everything that happens to an engine *)

Inductive input :=
  | InTopology (topology : Topology) (user : option UserLayer)
  | InUserLayer (user : UserLayer)
  | InUserMode (mode : string)
  | InHints (h : Hints)
  | InRunning (running : bool)
  | InPick (group node : string)
  | InProbe (job : probeJob) (res : probeResult)
  | InDrain (traffic fails : gmap string Z) (tests : list (string * Z))
  | InTimer (traffic fails : gmap string Z) (tests : list (string * Z))
  | InAct (group : string) (action : ActionRequest)
  | InFlush
  | InClose.

Definition feed (e : engine) (i : input) (now : time) : option engine :=
  match i with
  | InTopology topology user => SetTopology e topology user now
  | InUserLayer user => SetUserLayer e user now
  | InUserMode mode => SetUserMode e mode now
  | InHints h => SetHints e h now
  | InRunning running => SetRunning e running now
  | InPick group node => NoteManualPick e group node now
  | InProbe job res => probe_done e job res now
  | InDrain traffic fails tests => drain e traffic fails tests now
  | InTimer traffic fails tests => onTimer e traffic fails tests now
  | InAct group action => r ← Act e group action now; Some r.1
  | InFlush => Some (Flush e now)
  | InClose => Some (Close e now)
  end.

(** The engines of a run: from a snapshot, by inputs at any times, a result
    only of a check that was started. A run ends at a panic. *)
Inductive reachable : engine → Prop :=
  | reach_new snap : reachable (NewEngine snap)
  | reach_step e i now e' :
      reachable e → (∀ job res, i = InProbe job res → job ∈ en_probes e) →
      feed e i now = Some e' → reachable e'.
End engine.
