(* ===== verification/Drain.v ===== *)
(** * Hot-path notes and their drain: core/rcx/engine.go

    A dial or a first byte only bumps an atomic counter and makes sure a
    drain is scheduled; the drain swaps the counters to zero and hands what
    they held to the machine. Here the goroutines interleave: every step is
    one atomic operation, or one section under [drainMu], whose only effect
    other goroutines can see is its single operation on [drainPending]. A
    drain runs under the engine's lock, one at a time. *)

From S2P Require Import Prelude GoText Identity Profile Policy Library Decide Budget Route Scenario Layers Machine Engine.

(** ** What the goroutines share *)

(** [counter]: two [atomic.Int32]s. *)
Record cell := { cl_traffic : Z; cl_fails : Z }.

Definition wrap32 (z : Z) : Z := (z + 2 ^ 31) mod 2 ^ 32 - 2 ^ 31.
Definition no_cell : cell := {| cl_traffic := 0; cl_fails := 0 |}.

Definition maxURLTests : nat := 256.

(** [sh_cells] is the heap the counters live in: a goroutine may still hold a
    counter that the table has dropped. [sh_table] is [None] once the engine
    is closed; [sh_at] zero means no drain is due, and [sh_timer] holds the
    revision the armed timer will drain. *)
Record shared := {
  sh_cells : gmap nat cell;
  sh_next : nat;
  sh_table : option (gmap string nat);
  sh_tests : list (string * Z);
  sh_pending : Z;
  sh_closed : bool;
  sh_at : time;
  sh_revision : Z;
  sh_timer : option Z;
  sh_now : time;
}.

Definition cell_of (s : shared) (c : nat) : cell := default no_cell (sh_cells s !! c).
Definition set_cell (s : shared) (c : nat) (x : cell) : shared := {| s with sh_cells := <[c := x]> (sh_cells s) |}.

(** [e.counter(node)]. *)
Definition counter (s : shared) (node : string) : option nat := t ← sh_table s; t !! node.

(** ** The table of counters *)

(** Every name that may be dialled through. *)
Definition counted `{Yaml} (t : Topology) : list string :=
  (tp_Groups t ≫= λ g, gt_Name g :: (nd_Name <$> gt_Members g)) ++ tp_Leaves t.

(** The closure [add]. *)
Definition add_counter (previous : gmap string nat) (s : shared) (next : gmap string nat) (node : string)
    : shared * gmap string nat :=
  match next !! node with
  | Some _ => (s, next)
  | None =>
      match previous !! node with
      | Some c => (s, <[node := c]> next)
      | None => ({| s with sh_cells := <[sh_next s := no_cell]> (sh_cells s); sh_next := S (sh_next s) |},
                 <[node := sh_next s]> next)
      end
  end.

Definition add_counters (previous : gmap string nat) (s : shared) (next : gmap string nat) (nodes : list string)
    : shared * gmap string nat :=
  foldl (λ sn node, add_counter previous sn.1 sn.2 node) (s, next) nodes.

Definition refreshCounters (s : shared) (nodes : list string) : shared :=
  let '(s, next) := add_counters (default ∅ (sh_table s)) s ∅ nodes in
  {| s with sh_table := Some next |}.

(** ** Noting and scheduling *)

Inductive event := FailEvent | TrafficEvent | TestEvent (ms : Z).

Definition urgency (ev : event) : Z := match ev with FailEvent => 2 | _ => 1 end.

(** Where the goroutine of [NoteDial], [NoteTraffic] or [NoteURLTest] is. *)
Inductive note_pc :=
  | AtLoad (ev : event) (node : string)
  | AtNote (ev : event) (node : string) (c : nat)
  | AtPending (priority : Z)
  | AtSwap (priority pending : Z)
  | AtLock
  | AtEnd.

(** A dial that succeeds has not yet carried any data. *)
Definition NoteDial (node : string) (failed : bool) : note_pc := if failed then AtLoad FailEvent node else AtEnd.
Definition NoteTraffic (node : string) : note_pc := AtLoad TrafficEvent node.
Definition NoteURLTest (node : string) (ms : Z) : note_pc := AtLoad (TestEvent ms) node.

(** [c.fails.Add(1)], [c.traffic.Add(1)], or the send that never blocks. *)
Definition note_event (s : shared) (ev : event) (node : string) (c : nat) : shared * note_pc :=
  let x := cell_of s c in
  match ev with
  | FailEvent => (set_cell s c {| x with cl_fails := wrap32 (cl_fails x + 1) |}, AtPending (urgency ev))
  | TrafficEvent => (set_cell s c {| x with cl_traffic := wrap32 (cl_traffic x + 1) |}, AtPending (urgency ev))
  | TestEvent ms =>
      if (length (sh_tests s) <? maxURLTests)%nat
      then ({| s with sh_tests := sh_tests s ++ [(node, ms)] |}, AtPending (urgency ev))
      else (s, AtEnd)
  end.

Definition drain_delay (pending : Z) : duration := if pending =? 2 then failureDrainDelay else trafficDrainDelay.

(** The section of [scheduleDrain] under [drainMu]. *)
Definition schedule_locked (s : shared) : shared :=
  if sh_closed s then {| s with sh_pending := 0 |}
  else if sh_pending s =? 0 then s
  else
    let due := time_add (sh_now s) (drain_delay (sh_pending s)) in
    if negb (is_zero (sh_at s)) && negb (before due (sh_at s)) then s
    else
      let revision := (sh_revision s + 1) mod 2 ^ 64 in
      {| s with sh_revision := revision; sh_at := due; sh_timer := Some revision |}.

(** One step of a noting goroutine; [scheduleDrain] begins at [AtPending]. *)
Definition note_step (s : shared) (pc : note_pc) : shared * note_pc :=
  match pc with
  | AtLoad ev node => match counter s node with Some c => (s, AtNote ev node c) | None => (s, AtEnd) end
  | AtNote ev node c => note_event s ev node c
  | AtPending priority => if priority <=? sh_pending s then (s, AtEnd) else (s, AtSwap priority (sh_pending s))
  | AtSwap priority pending => if sh_pending s =? pending then ({| s with sh_pending := priority |}, AtLock)
                               else (s, AtPending priority)
  | AtLock => (schedule_locked s, AtEnd)
  | AtEnd => (s, AtEnd)
  end.

(** ** Draining *)

Definition cancelDrainLocked (s : shared) : shared :=
  {| s with sh_timer := None; sh_at := zero_time; sh_revision := (sh_revision s + 1) mod 2 ^ 64; sh_pending := 0 |}.

(** The first section of [drainLocked]: [None] when it returns false. *)
Definition drain_begin (s : shared) (revision : Z) : option shared :=
  if sh_closed s || (negb (revision =? 0) && negb (revision =? sh_revision s)) then None
  else Some (cancelDrainLocked s).

(** What a drain hands to the machine. *)
Record batch := { ba_traffic : gmap string Z; ba_fails : gmap string Z; ba_tests : list (string * Z) }.
Definition no_batch : batch := {| ba_traffic := ∅; ba_fails := ∅; ba_tests := [] |}.

(** Where a drain is: before the swaps of the counters left, between the two
    swaps of one, or receiving the tests. *)
Inductive drain_pc :=
  | Swapping (todo : list (string * nat)) (b : batch)
  | SwappingFails (node : string) (c : nat) (todo : list (string * nat)) (b : batch)
  | Receiving (b : batch).

Definition take_count (counts : gmap string Z) (node : string) (n : Z) : gmap string Z :=
  if 0 <? n then <[node := n]> counts else counts.

(** One step of a drain; it ends with what it hands over. *)
Definition drain_step (s : shared) (d : drain_pc) : shared * (drain_pc + batch) :=
  match d with
  | Swapping [] b => (s, inl (Receiving b))
  | Swapping ((node, c) :: todo) b =>
      let x := cell_of s c in
      (set_cell s c {| x with cl_traffic := 0 |},
       inl (SwappingFails node c todo {| b with ba_traffic := take_count (ba_traffic b) node (cl_traffic x) |}))
  | SwappingFails node c todo b =>
      let x := cell_of s c in
      (set_cell s c {| x with cl_fails := 0 |},
       inl (Swapping todo {| b with ba_fails := take_count (ba_fails b) node (cl_fails x) |}))
  | Receiving b =>
      match sh_tests s with
      | [] => (s, inr b)
      | t :: tests => ({| s with sh_tests := tests |}, inl (Receiving {| b with ba_tests := ba_tests b ++ [t] |}))
      end
  end.

(** [Close] stores the nil table, then ends draining under [drainMu]. *)
Definition close_table (s : shared) : shared := {| s with sh_table := None |}.
Definition close_drain (s : shared) : shared := cancelDrainLocked {| s with sh_closed := true |}.

(** ** The goroutines together *)

(** Who holds the engine's lock. *)
Inductive holder := Free | Draining (d : drain_pc) | Closing.

(** [sy_noted] and [sy_taken] count, for each counter, what was added to it
    and what drains took from it; [sy_named] counts, for each name, what was
    reported of it, and [sy_dropped] holds the names whose counter a new
    topology left out or the end of the engine gave up. No step reads them. *)
Record system := {
  sy_shared : shared;
  sy_notes : gmap nat note_pc;
  sy_holder : holder;
  sy_noted : gmap nat cell;
  sy_taken : gmap nat cell;
  sy_named : gmap string cell;
  sy_dropped : gset string;
  sy_batches : list batch;
}.

Definition tally `{Countable K} (t : gmap K cell) (c : K) : cell := default no_cell (t !! c).
Definition tally_add `{Countable K} (t : gmap K cell) (c : K) (traffic fails : Z) : gmap K cell :=
  let x := tally t c in
  <[c := {| cl_traffic := cl_traffic x + traffic; cl_fails := cl_fails x + fails |}]> t.

Definition noted_by (t : gmap nat cell) (pc : note_pc) : gmap nat cell :=
  match pc with
  | AtNote FailEvent _ c => tally_add t c 0 1
  | AtNote TrafficEvent _ c => tally_add t c 1 0
  | _ => t
  end.

(** The same, booked on the name. *)
Definition named_by (t : gmap string cell) (pc : note_pc) : gmap string cell :=
  match pc with
  | AtNote FailEvent node _ => tally_add t node 0 1
  | AtNote TrafficEvent node _ => tally_add t node 1 0
  | _ => t
  end.

(** The names of the table that are not among [nodes]. *)
Definition left_out (s : shared) (nodes : list string) : gset string := dom (default ∅ (sh_table s)) ∖ list_to_set nodes.

Definition count_of (counts : gmap string Z) (node : string) : Z := default 0 (counts !! node).

(** What a swap added to the batch, booked on the counter it came from. *)
Definition taken_by (t : gmap nat cell) (d d' : drain_pc) : gmap nat cell :=
  match d, d' with
  | Swapping ((node, c) :: _) b, SwappingFails _ _ _ b' =>
      tally_add t c (count_of (ba_traffic b') node - count_of (ba_traffic b) node) 0
  | SwappingFails node c _ b, Swapping _ b' =>
      tally_add t c 0 (count_of (ba_fails b') node - count_of (ba_fails b) node)
  | _, _ => t
  end.

Definition is_call (pc : note_pc) : Prop :=
  (∃ node failed, pc = NoteDial node failed) ∨ (∃ node, pc = NoteTraffic node) ∨ (∃ node ms, pc = NoteURLTest node ms).

Definition new_system (now : time) : system :=
  {| sy_shared := {| sh_cells := ∅; sh_next := 0; sh_table := None; sh_tests := []; sh_pending := 0;
                     sh_closed := false; sh_at := zero_time; sh_revision := 0; sh_timer := None; sh_now := now |};
     sy_notes := ∅; sy_holder := Free; sy_noted := ∅; sy_taken := ∅; sy_named := ∅; sy_dropped := ∅; sy_batches := [] |}.

Inductive step (y : system) : system → Prop :=
  (** A dial, a byte or a test is reported. *)
  | step_call t pc : is_call pc → sy_notes y !! t = None →
      step y {| y with sy_notes := <[t := pc]> (sy_notes y) |}
  (** A reporting goroutine takes a step, or has returned. *)
  | step_note t pc : sy_notes y !! t = Some pc →
      step y {| y with sy_shared := (note_step (sy_shared y) pc).1;
                       sy_notes := <[t := (note_step (sy_shared y) pc).2]> (sy_notes y);
                       sy_noted := noted_by (sy_noted y) pc; sy_named := named_by (sy_named y) pc |}
  | step_return t : sy_notes y !! t = Some AtEnd →
      step y {| y with sy_notes := delete t (sy_notes y) |}
  (** Some timer fires; only the last one armed drains. Revision zero is the
      engine's own timer. The order of the counters is that of a map. *)
  | step_drain revision s table todo : sy_holder y = Free →
      drain_begin (sy_shared y) revision = Some s →
      default ∅ (sh_table s) = table → todo ≡ₚ map_to_list table →
      step y {| y with sy_shared := s; sy_holder := Draining (Swapping todo no_batch) |}
  | step_draining d s d' : sy_holder y = Draining d → drain_step (sy_shared y) d = (s, inl d') →
      step y {| y with sy_shared := s; sy_holder := Draining d'; sy_taken := taken_by (sy_taken y) d d' |}
  | step_drained d s b : sy_holder y = Draining d → drain_step (sy_shared y) d = (s, inr b) →
      step y {| y with sy_shared := s; sy_holder := Free; sy_batches := sy_batches y ++ [b] |}
  (** The core reports a topology. *)
  | step_refresh nodes : sy_holder y = Free → sh_closed (sy_shared y) = false →
      step y {| y with sy_shared := refreshCounters (sy_shared y) nodes; sy_dropped := sy_dropped y ∪ left_out (sy_shared y) nodes |}
  | step_close_table : sy_holder y = Free → sh_closed (sy_shared y) = false →
      step y {| y with sy_shared := close_table (sy_shared y); sy_holder := Closing; sy_dropped := sy_dropped y ∪ left_out (sy_shared y) [] |}
  | step_close : sy_holder y = Closing →
      step y {| y with sy_shared := close_drain (sy_shared y); sy_holder := Free |}
  | step_time d : 0 <= d →
      step y {| y with sy_shared := {| (sy_shared y) with sh_now := sh_now (sy_shared y) + d |} |}.

(** The systems of every run, from an engine created after the epoch. *)
Inductive running : system → Prop :=
  | run_new now : 0 < now → running (new_system now)
  | run_step y y' : running y → step y y' → running y'.
