(* ===== verification/DrainFacts.v ===== *)
(** * Facts about draining

    However the reporting goroutines, the timers, the topology and the end of
    the engine interleave, what was noted is drained, once. *)

From S2P Require Import Prelude GoText Profile Policy Machine Engine Drain.

(** ** Who still has to schedule *)

(** The goroutine has noted something and not yet seen it scheduled. *)
Definition scheduling (p : Z) (pc : note_pc) : Prop :=
  match pc with AtPending q | AtSwap q _ => p <= q | _ => False end.

Definition active (notes : gmap nat note_pc) (p : Z) : Prop := ∃ t pc, notes !! t = Some pc ∧ scheduling p pc.
Definition locking (notes : gmap nat note_pc) : Prop := ∃ t, notes !! t = Some AtLock.

(** A drain is armed, no later than the delay of what is pending. *)
Definition armed (s : shared) : Prop :=
  sh_timer s = Some (sh_revision s) ∧ sh_at s ≠ 0 ∧ sh_at s <= sh_now s + drain_delay (sh_pending s).

Definition covered (s : shared) (notes : gmap nat note_pc) (p : Z) (taking : Prop) : Prop :=
  p <= sh_pending s ∨ active notes p ∨ taking.

(** The drain in progress has yet to swap the counter. *)
Definition takes_traffic (h : holder) (c : nat) : Prop :=
  match h with
  | Draining (Swapping todo _) | Draining (SwappingFails _ _ todo _) => c ∈ todo.*2
  | _ => False
  end.
Definition takes_fails (h : holder) (c : nat) : Prop :=
  match h with
  | Draining (Swapping todo _) => c ∈ todo.*2
  | Draining (SwappingFails _ c0 todo _) => c = c0 ∨ c ∈ todo.*2
  | _ => False
  end.
Definition takes_tests (h : holder) : Prop := match h with Draining _ => True | _ => False end.

(** What a reporting goroutine knows. *)
Definition pc_ok (next : nat) (pc : note_pc) : Prop :=
  match pc with
  | AtNote _ _ c => (c < next)%nat
  | AtPending q => 1 <= q <= 2
  | AtSwap q p => 1 <= q <= 2 ∧ p < q
  | _ => True
  end.

(** The counters of the table still to swap, each name once and none in the
    batch yet. *)
Definition todo_ok (next : nat) (todo : list (string * nat)) (counts : gmap string Z) : Prop :=
  NoDup todo.*1 ∧ (∀ node c, (node, c) ∈ todo → (c < next)%nat ∧ counts !! node = None).

Definition holder_ok (next : nat) (h : holder) : Prop :=
  match h with
  | Draining (Swapping todo b) => todo_ok next todo (ba_traffic b) ∧ todo_ok next todo (ba_fails b)
  | Draining (SwappingFails node c todo b) =>
      todo_ok next todo (ba_traffic b) ∧ todo_ok next ((node, c) :: todo) (ba_fails b)
  | _ => True
  end.

(** One counter's books: what was noted is what was taken and what is left,
    while fewer than 2^31 were ever noted. *)
Definition balanced (noted taken left : Z) : Prop := noted < 2 ^ 31 → 0 <= left ∧ noted = taken + left.

Record drain_inv (y : system) : Prop := {
  di_now : 0 < sh_now (sy_shared y);
  di_pending : 0 <= sh_pending (sy_shared y) <= 2;
  di_timer : sh_at (sy_shared y) ≠ 0 → sh_timer (sy_shared y) = Some (sh_revision (sy_shared y));
  di_armed : sh_closed (sy_shared y) = false → sh_pending (sy_shared y) ≠ 0 → locking (sy_notes y) ∨ armed (sy_shared y);
  di_table : ∀ table node c, sh_table (sy_shared y) = Some table → table !! node = Some c → (c < sh_next (sy_shared y))%nat;
  di_notes : map_Forall (λ _ pc, pc_ok (sh_next (sy_shared y)) pc) (sy_notes y);
  di_holder : holder_ok (sh_next (sy_shared y)) (sy_holder y);
  di_traffic : sh_closed (sy_shared y) = false → ∀ table node c,
    sh_table (sy_shared y) = Some table → table !! node = Some c → cl_traffic (cell_of (sy_shared y) c) ≠ 0 →
    covered (sy_shared y) (sy_notes y) 1 (takes_traffic (sy_holder y) c);
  di_fails : sh_closed (sy_shared y) = false → ∀ table node c,
    sh_table (sy_shared y) = Some table → table !! node = Some c → cl_fails (cell_of (sy_shared y) c) ≠ 0 →
    covered (sy_shared y) (sy_notes y) 2 (takes_fails (sy_holder y) c);
  di_tests : sh_closed (sy_shared y) = false → sh_tests (sy_shared y) ≠ [] →
    covered (sy_shared y) (sy_notes y) 1 (takes_tests (sy_holder y));
  di_fresh : ∀ c, (sh_next (sy_shared y) <= c)%nat →
    cell_of (sy_shared y) c = no_cell ∧ tally (sy_noted y) c = no_cell ∧ tally (sy_taken y) c = no_cell;
  di_books : ∀ c,
    (0 <= cl_traffic (tally (sy_noted y) c) ∧ 0 <= cl_fails (tally (sy_noted y) c)) ∧
    balanced (cl_traffic (tally (sy_noted y) c)) (cl_traffic (tally (sy_taken y) c)) (cl_traffic (cell_of (sy_shared y) c)) ∧
    balanced (cl_fails (tally (sy_noted y) c)) (cl_fails (tally (sy_taken y) c)) (cl_fails (cell_of (sy_shared y) c)) ∧
    0 <= cl_traffic (tally (sy_taken y) c) ∧ 0 <= cl_fails (tally (sy_taken y) c);
}.

(** ** Lemmas on the pieces *)

Lemma active_insert notes t pc pc' p : notes !! t = Some pc → active notes p →
  (scheduling p pc → scheduling p pc') → active (<[t := pc']> notes) p.
Proof.
  intros Ht (t' & q & Ht' & Hq) Hkeep. destruct (decide (t = t')) as [->|Hne].
  - rewrite Ht in Ht'. injection Ht' as ->. exists t', pc'. rewrite lookup_insert_eq. auto.
  - exists t', q. by rewrite lookup_insert_ne.
Qed.

Lemma active_new notes t pc p : scheduling p pc → active (<[t := pc]> notes) p.
Proof. intros Hp. exists t, pc. by rewrite lookup_insert_eq. Qed.

Lemma locking_insert notes t pc pc' : notes !! t = Some pc → pc ≠ AtLock → locking notes → locking (<[t := pc']> notes).
Proof.
  intros Ht Hne (t' & Ht'). exists t'. rewrite lookup_insert_ne; [done|]. intros ->. congruence.
Qed.

Lemma set_cell_same s c x : cell_of (set_cell s c x) c = x.
Proof. unfold cell_of. cbn. by rewrite lookup_insert_eq. Qed.
Lemma set_cell_other s c c' x : c ≠ c' → cell_of (set_cell s c x) c' = cell_of s c'.
Proof. intros Hne. unfold cell_of. cbn. by rewrite lookup_insert_ne. Qed.

Lemma tally_same `{Countable K} t (c : K) a b : tally (tally_add t c a b) c =
  {| cl_traffic := cl_traffic (tally t c) + a; cl_fails := cl_fails (tally t c) + b |}.
Proof. unfold tally, tally_add. by rewrite lookup_insert_eq. Qed.
Lemma tally_other `{Countable K} t (c c' : K) a b : c ≠ c' → tally (tally_add t c a b) c' = tally t c'.
Proof. intros Hne. unfold tally, tally_add. by rewrite lookup_insert_ne. Qed.

(** A step of a goroutine loses no coverage. *)
Lemma note_step_covers s notes t pc p taking : notes !! t = Some pc → sh_closed s = false → pc_ok (sh_next s) pc →
  covered s notes p taking → covered (note_step s pc).1 (<[t := (note_step s pc).2]> notes) p taking.
Proof.
  intros Ht Hopen Hok [Hp|[Ha|Hx]]; [| |by right; right].
  - left. destruct pc as [ev node|ev node c|q|q seen| |]; cbn [note_step].
    + by destruct (counter s node).
    + destruct ev; cbn [note_event]; [done | done|]. by case_if.
    + by case_if.
    + case_if; [|done]. cbn. cbn in Hok. bools. lia.
    + unfold schedule_locked. rewrite Hopen. case_if; [done|]. by case_if.
    + done.
  - destruct pc as [ev node|ev node c|q|q seen| |]; cbn [note_step].
    + right; left. eapply active_insert; [done..|]. by intros [].
    + right; left. eapply active_insert; [done..|]. by intros [].
    + case_if; cbn [fst snd].
      * destruct (decide (p <= q)) as [Hpq|Hpq]; [left; bools; lia|].
        right; left. eapply active_insert; [done..|]. cbn. lia.
      * right; left. by eapply active_insert.
    + case_if; cbn [fst snd].
      * destruct (decide (p <= q)) as [Hpq|Hpq]; [left; cbn; lia|].
        right; left. eapply active_insert; [done..|]. cbn. lia.
      * right; left. by eapply active_insert.
    + right; left. eapply active_insert; [done..|]. by intros [].
    + right; left. by eapply active_insert.
Qed.

(** What a step of a goroutine leaves alone. *)
Lemma note_step_frame s pc : let s' := (note_step s pc).1 in
  sh_table s' = sh_table s ∧ sh_next s' = sh_next s ∧ sh_now s' = sh_now s ∧ sh_closed s' = sh_closed s.
Proof.
  destruct pc as [ev node|ev node c|q|q seen| |]; cbn [note_step].
  - by destruct (counter s node).
  - destruct ev; cbn [note_event]; [done | done|]. by case_if.
  - by case_if.
  - by case_if.
  - unfold schedule_locked. case_if; [done|]. case_if; [done|]. by case_if.
  - done.
Qed.

(** The counter a step bumps. *)
Definition bump (pc : note_pc) (c : nat) (x : cell) : cell :=
  match pc with
  | AtNote FailEvent _ c' => if decide (c = c') then {| x with cl_fails := wrap32 (cl_fails x + 1) |} else x
  | AtNote TrafficEvent _ c' => if decide (c = c') then {| x with cl_traffic := wrap32 (cl_traffic x + 1) |} else x
  | _ => x
  end.

Lemma note_step_cell s pc c : cell_of (note_step s pc).1 c = bump pc c (cell_of s c).
Proof.
  destruct pc as [ev node|ev node c'|q|q seen| |]; cbn [note_step bump].
  - by destruct (counter s node).
  - destruct ev; cbn [note_event fst]; [| |by case_if].
    + destruct (decide (c = c')) as [->|Hne]; [apply set_cell_same | by apply set_cell_other].
    + destruct (decide (c = c')) as [->|Hne]; [apply set_cell_same | by apply set_cell_other].
  - by case_if.
  - by case_if.
  - unfold schedule_locked. case_if; [done|]. case_if; [done|]. by case_if.
  - done.
Qed.

Lemma note_step_ok s pc : (∀ table node c, sh_table s = Some table → table !! node = Some c → (c < sh_next s)%nat) →
  pc_ok (sh_next s) pc → pc_ok (sh_next s) (note_step s pc).2.
Proof.
  intros Htab Hok. destruct pc as [ev node|ev node c|q|q seen| |]; cbn [note_step]; try done.
  - unfold counter. destruct (sh_table s) as [table|] eqn:Et; [|done]. cbn.
    destruct (table !! node) as [c|] eqn:Ec; [|done]. cbn. by eapply Htab.
  - destruct ev; cbn [note_event]; cbn; [lia | lia|]. case_if; cbn; [lia | done].
  - case_if; [done|]. cbn in *. bools. lia.
  - case_if; [done|]. cbn in *. lia.
Qed.

Lemma wrap32_small z : - 2 ^ 31 <= z < 2 ^ 31 → wrap32 z = z.
Proof. intros Hz. unfold wrap32. rewrite Z.mod_small; lia. Qed.

(** The books of a bumped counter. *)
Lemma balanced_bump noted taken left : 0 <= noted → 0 <= taken → balanced noted taken left →
  balanced (noted + 1) taken (wrap32 (left + 1)).
Proof.
  intros Hn Ht Hb Hlt. destruct (Hb ltac:(lia)) as [Hl He]. rewrite wrap32_small by lia. lia.
Qed.

(** The section under the lock arms a drain for what is pending. *)
Lemma schedule_locked_armed s : 0 < sh_now s → sh_closed s = false →
  (sh_at s ≠ 0 → sh_timer s = Some (sh_revision s)) → sh_pending s ≠ 0 → armed (schedule_locked s).
Proof.
  intros Hnow Hopen Htimer Hp. unfold schedule_locked, armed. rewrite Hopen, (proj2 (Z.eqb_neq _ _) Hp).
  assert (Hd : 0 < drain_delay (sh_pending s)) by (unfold drain_delay; case_if; done).
  case_if.
  - apply andb_true_iff in E as [Ez Eb]. unfold is_zero, before, time_add in *. bools. split_and!; [by apply Htimer | done | lia].
  - cbn. unfold time_add. split_and!; [done | lia | lia].
Qed.

Lemma schedule_locked_timer s : 0 < sh_now s → sh_at (schedule_locked s) ≠ 0 →
  (sh_at s ≠ 0 → sh_timer s = Some (sh_revision s)) →
  sh_timer (schedule_locked s) = Some (sh_revision (schedule_locked s)).
Proof. intros Hnow. unfold schedule_locked. case_if; [auto|]. case_if; [auto|]. case_if; auto. Qed.

(** ** Every step keeps the invariant *)

Lemma step_note_inv y t pc : drain_inv y → sy_notes y !! t = Some pc →
  drain_inv {| y with sy_shared := (note_step (sy_shared y) pc).1;
                      sy_notes := <[t := (note_step (sy_shared y) pc).2]> (sy_notes y);
                      sy_noted := noted_by (sy_noted y) pc |}.
Proof.
  intros [Hnow Hpend Htimer Harm Htab Hnotes Hhold Htr Hfl Hts Hfresh Hbooks] Ht.
  pose proof (Hnotes _ _ Ht) as Hok. destruct (note_step_frame (sy_shared y) pc) as (Etab & Enext & Enow & Eclosed).
  split; cbn [sy_shared sy_notes sy_holder sy_noted sy_taken sy_batches]; rewrite ?Etab, ?Enext, ?Enow, ?Eclosed.
  - done.
  - destruct pc as [ev node|ev node c|q|q seen| |]; cbn [note_step].
    + by destruct (counter (sy_shared y) node).
    + destruct ev; cbn [note_event]; [done | done|]. by case_if.
    + by case_if.
    + case_if; [|done]. cbn in *. lia.
    + unfold schedule_locked. case_if; [done|]. case_if; [done|]. by case_if.
    + done.
  - destruct pc as [ev node|ev node c|q|q seen| |]; cbn [note_step].
    + by destruct (counter (sy_shared y) node).
    + destruct ev; cbn [note_event]; [done | done|]. by case_if.
    + by case_if.
    + by case_if.
    + intros Hat. by apply schedule_locked_timer.
    + done.
  - intros Hopen. destruct pc as [ev node|ev node c|q|q seen| |]; cbn [note_step].
    + intros Hp. assert (Hp' : sh_pending (sy_shared y) ≠ 0) by (by destruct (counter (sy_shared y) node)).
      destruct (Harm Hopen Hp') as [Hl|Ha]; [left; by eapply locking_insert | right; by destruct (counter (sy_shared y) node)].
    + assert (Hs : sh_pending (note_event (sy_shared y) ev node c).1 = sh_pending (sy_shared y) ∧
        (armed (sy_shared y) → armed (note_event (sy_shared y) ev node c).1)).
      { destruct ev; cbn [note_event]; [done | done|]. by case_if. }
      destruct Hs as [-> Hs]. intros Hp. destruct (Harm Hopen Hp) as [Hl|Ha]; [left; by eapply locking_insert | right; auto].
    + intros Hp. assert (Hp' : sh_pending (sy_shared y) ≠ 0) by (by case_if_in Hp).
      destruct (Harm Hopen Hp') as [Hl|Ha]; [left; by eapply locking_insert | right; by case_if].
    + case_if; [intros _; left; exists t; cbn; by rewrite lookup_insert_eq|]. intros Hp.
      destruct (Harm Hopen Hp) as [Hl|Ha]; [left; by eapply locking_insert | by right].
    + intros Hp. right. apply schedule_locked_armed; [done..|]. intros Hz. apply Hp. cbn. unfold schedule_locked.
      by rewrite Hopen, Hz.
    + intros Hp. destruct (Harm Hopen Hp) as [Hl|Ha]; [left; by eapply locking_insert | by right].
  - done.
  - apply map_Forall_insert_2; [by apply note_step_ok | done].
  - done.
  - intros Hopen table node c E1 E2. rewrite note_step_cell. intros Hne.
    destruct (decide (cl_traffic (cell_of (sy_shared y) c) = 0)) as [Hz|Hz].
    + right; left. destruct pc as [|[] node' c'| | | |]; cbn [bump] in Hne; try done; case_decide; try done.
      apply active_new. cbn. lia.
    + apply note_step_covers; [done..|]. by eapply Htr.
  - intros Hopen table node c E1 E2. rewrite note_step_cell. intros Hne.
    destruct (decide (cl_fails (cell_of (sy_shared y) c) = 0)) as [Hz|Hz].
    + right; left. destruct pc as [|[] node' c'| | | |]; cbn [bump] in Hne; try done; case_decide; try done.
      apply active_new. cbn. lia.
    + apply note_step_covers; [done..|]. by eapply Hfl.
  - intros Hopen Hne. destruct (decide (sh_tests (sy_shared y) = [])) as [Hz|Hz].
    + right; left. destruct pc as [ev node|ev node c|q|q seen| |]; cbn [note_step] in *.
      * by destruct (counter (sy_shared y) node).
      * destruct ev; cbn [note_event] in *; [done | done|]. rewrite Hz in *. apply active_new. cbn. lia.
      * by case_if_in Hne.
      * by case_if_in Hne.
      * exfalso. apply Hne. unfold schedule_locked. case_if; [done|]. case_if; [done|]. by case_if.
      * done.
    + apply note_step_covers; [done..|]. by apply Hts.
  - intros c Hc. destruct (Hfresh c Hc) as (E1 & E2 & E3). rewrite note_step_cell, E1, E3. split_and!; [| |done].
    + destruct pc as [|[] node' c'| | | |]; cbn [bump]; try done; case_decide; try done; cbn in Hok; lia.
    + destruct pc as [|[] node' c'| | | |]; cbn [noted_by]; try done; rewrite tally_other; try done; intros ->; cbn in Hok; lia.
  - intros c. destruct (Hbooks c) as ([Hn1 Hn2] & Hb1 & Hb2 & Ht1 & Ht2). rewrite note_step_cell.
    destruct pc as [|[] node' c'| | | |]; cbn [bump noted_by]; try done; case_decide as Hc; subst;
      rewrite ?tally_same, ?tally_other by done; cbn [cl_traffic cl_fails]; rewrite ?Z.add_0_r; try done.
    + split_and!; [done | lia | done | by apply balanced_bump | done | done].
    + split_and!; [lia | done | by apply balanced_bump | done | done | done].
Qed.

(** A goroutine that has nothing to schedule comes or goes. *)
Lemma covered_notes s notes notes' p taking : (active notes p → active notes' p) →
  covered s notes p taking → covered s notes' p taking.
Proof. intros Ha [Hp|[Hx|Hx]]; [by left | right; left; auto | by right; right]. Qed.

Lemma step_notes_inv y notes' :
  (∀ p, active (sy_notes y) p → active notes' p) → (locking (sy_notes y) → locking notes') →
  map_Forall (λ _ pc, pc_ok (sh_next (sy_shared y)) pc) notes' →
  drain_inv y → drain_inv {| y with sy_notes := notes' |}.
Proof.
  intros Ha Hl Hok [Hnow Hpend Htimer Harm Htab Hnotes Hhold Htr Hfl Hts Hfresh Hbooks].
  split; cbn [sy_shared sy_notes sy_holder sy_noted sy_taken sy_batches]; try done.
  - intros Hopen Hp. destruct (Harm Hopen Hp) as [|]; [left; auto | by right].
  - intros Hopen table node c E1 E2 Hne. eapply covered_notes; [apply Ha | by eapply Htr].
  - intros Hopen table node c E1 E2 Hne. eapply covered_notes; [apply Ha | by eapply Hfl].
  - intros Hopen Hne. eapply covered_notes; [apply Ha | by apply Hts].
Qed.

Lemma step_call_inv y t pc : is_call pc → sy_notes y !! t = None → drain_inv y →
  drain_inv {| y with sy_notes := <[t := pc]> (sy_notes y) |}.
Proof.
  intros Hc Ht Hy. apply step_notes_inv; [| | |done].
  - intros p (t' & q & Ht' & Hq). exists t', q. split; [|done]. rewrite lookup_insert_ne; [done | congruence].
  - intros (t' & Ht'). exists t'. rewrite lookup_insert_ne; [done | congruence].
  - apply map_Forall_insert_2; [|apply Hy]. by destruct Hc as [(node & [] & ->)|[(node & ->)|(node & ms & ->)]].
Qed.

Lemma step_return_inv y t : sy_notes y !! t = Some AtEnd → drain_inv y →
  drain_inv {| y with sy_notes := delete t (sy_notes y) |}.
Proof.
  intros Ht Hy. apply step_notes_inv; [| | |done].
  - intros p (t' & q & Ht' & Hq). exists t', q. split; [|done]. rewrite lookup_delete_ne; [done|]. intros ->.
    rewrite Ht in Ht'. by injection Ht' as <-.
  - intros (t' & Ht'). exists t'. rewrite lookup_delete_ne; [done | congruence].
  - apply map_Forall_delete, Hy.
Qed.

Lemma step_time_inv y d : 0 <= d → drain_inv y →
  drain_inv {| y with sy_shared := {| (sy_shared y) with sh_now := sh_now (sy_shared y) + d |} |}.
Proof.
  intros Hd [Hnow Hpend Htimer Harm Htab Hnotes Hhold Htr Hfl Hts Hfresh Hbooks].
  split; cbn [sy_shared sy_notes sy_holder sy_noted sy_taken sy_batches sh_now sh_pending sh_at sh_timer sh_closed sh_table sh_tests sh_next]; try done.
  - lia.
  - intros Hopen Hp. destruct (Harm Hopen Hp) as [Hl|(H1 & H2 & H3)]; [by left|]. right. split_and!; [done..|]. cbn. lia.
Qed.

(** A drain begins: everything in the table is to be swapped. *)
Lemma step_drain_inv y revision s todo : drain_inv y → sy_holder y = Free →
  drain_begin (sy_shared y) revision = Some s → todo ≡ₚ map_to_list (default ∅ (sh_table s)) →
  drain_inv {| y with sy_shared := s; sy_holder := Draining (Swapping todo no_batch) |}.
Proof.
  intros [Hnow Hpend Htimer Harm Htab Hnotes Hhold Htr Hfl Hts Hfresh Hbooks] Hfree Hb Htodo.
  unfold drain_begin in Hb. case_if_in Hb; [done|]. injection Hb as <-. cbn in Htodo.
  assert (Hin : ∀ table node c, sh_table (sy_shared y) = Some table → table !! node = Some c → c ∈ todo.*2).
  { intros table node c E1 E2. apply list_elem_of_fmap. exists (node, c). split; [done|]. rewrite Htodo, E1.
    by apply elem_of_map_to_list. }
  assert (Hok : ∀ counts, counts = ∅ → todo_ok (sh_next (sy_shared y)) todo counts).
  { intros counts ->. split; [rewrite Htodo; apply NoDup_fst_map_to_list|]. intros node c Hnc. rewrite Htodo in Hnc.
    apply elem_of_map_to_list in Hnc. split; [|apply lookup_empty]. destruct (sh_table (sy_shared y)) as [table|] eqn:Et.
    - by eapply Htab.
    - cbn in Hnc. by rewrite lookup_empty in Hnc. }
  split; cbn [sy_shared sy_notes sy_holder sy_noted sy_taken sy_batches cancelDrainLocked sh_now sh_pending sh_at sh_timer sh_closed
    sh_table sh_tests sh_next zero_time]; try done.
  - split; by apply Hok.
  - intros _ table node c E1 E2 _. right; right. cbn. by eapply Hin.
  - intros _ table node c E1 E2 _. right; right. cbn. by eapply Hin.
  - intros _ _. by right; right.
Qed.

Lemma covered_taking s notes p (taking taking' : Prop) : (taking → taking') →
  covered s notes p taking → covered s notes p taking'.
Proof. intros Ht [Hp|[Hx|Hx]]; [by left | by right; left | right; right; auto]. Qed.

Lemma take_count_None counts node n : counts !! node = None → count_of (take_count counts node n) node - count_of counts node = Z.max 0 n.
Proof.
  intros Hn. unfold count_of, take_count. rewrite Hn. case_if; cbn; rewrite ?lookup_insert_eq, ?Hn; cbn; bools; lia.
Qed.

Lemma take_count_other counts node n node' : node ≠ node' → take_count counts node n !! node' = counts !! node'.
Proof. intros Hne. unfold take_count. case_if; [by rewrite lookup_insert_ne | done]. Qed.

(** The rest of the table, after one counter. *)
Lemma todo_ok_tail next node c todo counts n : todo_ok next ((node, c) :: todo) counts → todo_ok next todo (take_count counts node n).
Proof.
  intros [[Hn Hnd]%NoDup_cons Hok]. split; [done|]. intros node' c' Hin. destruct (Hok node' c' ltac:(by right)) as [Hc Hl].
  split; [done|]. rewrite take_count_other; [done|]. intros ->. apply Hn. apply list_elem_of_fmap. by exists (node', c').
Qed.

(** The books of a swapped counter. *)
Lemma balanced_swap noted taken left : balanced noted taken left → balanced noted (taken + Z.max 0 left) 0.
Proof. intros Hb Hlt. destruct (Hb Hlt). lia. Qed.

Lemma step_draining_inv y d s d' : drain_inv y → sy_holder y = Draining d → drain_step (sy_shared y) d = (s, inl d') →
  drain_inv {| y with sy_shared := s; sy_holder := Draining d'; sy_taken := taken_by (sy_taken y) d d' |}.
Proof.
  intros [Hnow Hpend Htimer Harm Htab Hnotes Hhold Htr Hfl Hts Hfresh Hbooks] Hd. rewrite Hd in *.
  destruct d as [[|[node c] todo] b|node c todo b|b]; cbn [drain_step].
  - intros [= <- <-]. split; cbn [sy_shared sy_notes sy_holder sy_noted sy_taken sy_batches taken_by]; try done.
    + intros Hopen table node c E1 E2 Hne. eapply covered_taking; [|by eapply Htr]. by intros ?%elem_of_nil.
    + intros Hopen table node c E1 E2 Hne. eapply covered_taking; [|by eapply Hfl]. by intros ?%elem_of_nil.
  - intros [= <- <-]. destruct Hhold as [Ht Hf]. destruct Ht as [Htn Hto]. destruct (Hto node c ltac:(left)) as [Hc Hnone].
    split; cbn [sy_shared sy_notes sy_holder sy_noted sy_taken sy_batches taken_by set_cell sh_now sh_pending sh_at sh_timer sh_closed
      sh_table sh_tests sh_next]; try done.
    + split; [|done]. by eapply todo_ok_tail.
    + intros Hopen table node' c' E1 E2. destruct (decide (c = c')) as [<-|Hne]; [by rewrite set_cell_same|].
      rewrite set_cell_other by done. intros Hn. eapply covered_taking; [|by eapply Htr]. cbn.
      intros [->|]%elem_of_cons; done.
    + intros Hopen table node' c' E1 E2. intros Hn. eapply covered_taking; [|eapply Hfl; [done..|]].
      * cbn. intros [->|]%elem_of_cons; auto.
      * destruct (decide (c = c')) as [<-|Hne]; [by rewrite set_cell_same in Hn | by rewrite set_cell_other in Hn].
    + intros c' Hc'. destruct (Hfresh c' Hc') as (E1 & E2 & E3). rewrite set_cell_other, tally_other by lia. done.
    + intros c'. destruct (Hbooks c') as (Hn & Hb1 & Hb2 & Ht1 & Ht2). cbn [ba_traffic]. rewrite take_count_None by done.
      destruct (decide (c = c')) as [<-|Hne]; [|by rewrite set_cell_other, tally_other by done].
      rewrite set_cell_same, tally_same. cbn [cl_traffic cl_fails]. rewrite Z.add_0_r.
      split_and!; [apply Hn | apply Hn | by apply balanced_swap | done | lia | done].
  - intros [= <- <-]. destruct Hhold as [Ht Hf]. destruct Hf as [Hfn Hfo]. destruct (Hfo node c ltac:(left)) as [Hc Hnone].
    split; cbn [sy_shared sy_notes sy_holder sy_noted sy_taken sy_batches taken_by set_cell sh_now sh_pending sh_at sh_timer sh_closed
      sh_table sh_tests sh_next]; try done.
    + split; [done|]. by eapply todo_ok_tail.
    + intros Hopen table node' c' E1 E2. intros Hn. eapply covered_taking; [|eapply Htr; [done..|]]; [done|].
      destruct (decide (c = c')) as [<-|Hne]; [by rewrite set_cell_same in Hn | by rewrite set_cell_other in Hn].
    + intros Hopen table node' c' E1 E2. destruct (decide (c = c')) as [<-|Hne]; [by rewrite set_cell_same|].
      rewrite set_cell_other by done. intros Hn. eapply covered_taking; [|by eapply Hfl]. cbn.
      intros [->|]; done.
    + intros c' Hc'. destruct (Hfresh c' Hc') as (E1 & E2 & E3). rewrite set_cell_other, tally_other by lia. done.
    + intros c'. destruct (Hbooks c') as (Hn & Hb1 & Hb2 & Ht1 & Ht2). cbn [ba_fails]. rewrite take_count_None by done.
      destruct (decide (c = c')) as [<-|Hne]; [|by rewrite set_cell_other, tally_other by done].
      rewrite set_cell_same, tally_same. cbn [cl_traffic cl_fails]. rewrite Z.add_0_r.
      split_and!; [apply Hn | apply Hn | done | by apply balanced_swap | done | lia].
  - destruct (sh_tests (sy_shared y)) as [|test tests] eqn:Et; [done|]. intros [= <- <-].
    split; cbn [sy_shared sy_notes sy_holder sy_noted sy_taken sy_batches taken_by sh_now sh_pending sh_at sh_timer sh_closed
      sh_table sh_tests sh_next]; try done.
    intros Hopen _. by right; right.
Qed.

Lemma step_drained_inv y d s b : drain_inv y → sy_holder y = Draining d → drain_step (sy_shared y) d = (s, inr b) →
  drain_inv {| y with sy_shared := s; sy_holder := Free; sy_batches := sy_batches y ++ [b] |}.
Proof.
  intros [Hnow Hpend Htimer Harm Htab Hnotes Hhold Htr Hfl Hts Hfresh Hbooks] Hd. rewrite Hd in *.
  destruct d as [[|[node c] todo] b'|node c todo b'|b']; cbn [drain_step]; try done.
  destruct (sh_tests (sy_shared y)) as [|test tests] eqn:Et; [|done]. intros [= <- <-].
  split; cbn [sy_shared sy_notes sy_holder sy_noted sy_taken sy_batches]; try done; by rewrite ?Et.
Qed.

(** Building the next table: counters of names already known are kept, new
    ones are zero, and nothing else changes. *)
Record refreshed (previous : gmap string nat) (s s' : shared) (next : gmap string nat) : Prop := {
  rf_frame : s' = {| s with sh_cells := sh_cells s'; sh_next := sh_next s' |};
  rf_next : (sh_next s <= sh_next s')%nat;
  rf_cells : ∀ c, (c < sh_next s)%nat ∨ (sh_next s' <= c)%nat → cell_of s' c = cell_of s c;
  rf_new : ∀ c, (sh_next s <= c < sh_next s')%nat → cell_of s' c = no_cell;
  rf_table : ∀ node c, next !! node = Some c → previous !! node = Some c ∨ (sh_next s <= c < sh_next s')%nat ∧ previous !! node = None;
  rf_once : ∀ n1 n2 c, (sh_next s <= c)%nat → next !! n1 = Some c → next !! n2 = Some c → n1 = n2;
}.

Lemma add_counters_refreshed previous nodes s s' next : refreshed previous s s' next →
  (∀ node c, previous !! node = Some c → (c < sh_next s)%nat) →
  refreshed previous s (add_counters previous s' next nodes).1 (add_counters previous s' next nodes).2.
Proof.
  intros Hr Hprev. revert s' next Hr. unfold add_counters. induction nodes as [|node nodes IH]; intros s' next Hr; [done|].
  cbn [foldl fst snd]. rewrite (surjective_pairing (add_counter previous s' next node)). apply IH. clear IH.
  unfold add_counter. destruct (next !! node) as [c|]; [done|]. destruct (previous !! node) as [c|] eqn:Ep; cbn [fst snd].
  - destruct Hr as [Hf Hn Hc Hnew Ht Ho]. split; try done; [intros node' c'; destruct (decide (node = node')) as [->|Hne]|].
    + rewrite lookup_insert_eq. intros [= <-]. by left.
    + rewrite lookup_insert_ne by done. apply Ht.
    + intros n1 n2 c' Hc'. pose proof (Hprev _ _ Ep). rewrite !lookup_insert_Some. intros [[_ <-]|[_ H1]] [[_ H2]|[_ H2]]; [lia..|by eapply Ho].
  - destruct Hr as [Hf Hn Hc Hnew Ht Ho]. split; cbn [sh_cells sh_next].
    + rewrite Hf. done.
    + lia.
    + intros c Hcc. unfold cell_of. cbn. rewrite lookup_insert_ne by lia. apply Hc. lia.
    + intros c Hcc. unfold cell_of. cbn. destruct (decide (c = sh_next s')) as [->|Hne]; [by rewrite lookup_insert_eq|].
      rewrite lookup_insert_ne by done. apply Hnew. lia.
    + intros node' c'. destruct (decide (node = node')) as [->|Hne].
      * rewrite lookup_insert_eq. intros [= <-]. right. split; [lia | done].
      * rewrite lookup_insert_ne by done. intros [|[? ?]]%Ht; [by left | right; split; [lia | done]].
    + assert (Hlt : ∀ n c, next !! n = Some c → (c < sh_next s')%nat).
      { intros n c [Hp%Hprev|[? _]]%Ht; lia. }
      intros n1 n2 c Hcc. rewrite !lookup_insert_Some. intros [[<- <-]|[_ H1]] [[<- H2]|[_ H2]]; [done | | | by eapply Ho].
      * apply Hlt in H2. lia.
      * subst c. apply Hlt in H1. lia.
Qed.

(** The names of the new table are those reported. *)
Lemma add_counters_dom previous nodes : ∀ s next, dom (add_counters previous s next nodes).2 = dom next ∪ list_to_set nodes.
Proof.
  unfold add_counters. induction nodes as [|node nodes IH]; intros s next; cbn [foldl list_to_set fst snd]; [set_solver|].
  rewrite (surjective_pairing (add_counter previous s next node)), IH. cbn [fst snd].
  enough (dom (add_counter previous s next node).2 = dom next ∪ {[node]}) as -> by set_solver. unfold add_counter.
  destruct (next !! node) as [c|] eqn:E; cbn [snd]; [|destruct (previous !! node); cbn [snd]; set_solver].
  assert (node ∈ dom next) by (by eapply elem_of_dom_2). set_solver.
Qed.

Lemma refreshCounters_spec s nodes : (∀ table node c, sh_table s = Some table → table !! node = Some c → (c < sh_next s)%nat) →
  ∃ s' next, refreshed (default ∅ (sh_table s)) s s' next ∧ refreshCounters s nodes = {| s' with sh_table := Some next |} ∧
    dom next = list_to_set nodes.
Proof.
  intros Htab. unfold refreshCounters.
  assert (Hprev : ∀ node c, default ∅ (sh_table s) !! node = Some c → (c < sh_next s)%nat).
  { intros node c. destruct (sh_table s) as [table|] eqn:Et; cbn; [by eapply Htab | by rewrite lookup_empty]. }
  pose proof (add_counters_refreshed (default ∅ (sh_table s)) nodes s s ∅) as Hr.
  pose proof (add_counters_dom (default ∅ (sh_table s)) nodes s ∅) as Hd.
  destruct (add_counters _ s ∅ nodes) as [s' next]. cbn [fst snd] in Hr, Hd. exists s', next. split_and!; [|done|set_solver].
  apply Hr; [|done]. split; [by destruct s | done | done | intros c Hc; lia | intros node c; by rewrite lookup_empty | done].
Qed.

Lemma pc_ok_mono next next' pc : (next <= next')%nat → pc_ok next pc → pc_ok next' pc.
Proof. intros Hn. destruct pc; cbn; [done | lia | done | done | done | done]. Qed.

Lemma step_refresh_inv y nodes : drain_inv y → sy_holder y = Free →
  drain_inv {| y with sy_shared := refreshCounters (sy_shared y) nodes |}.
Proof.
  intros [Hnow Hpend Htimer Harm Htab Hnotes Hhold Htr Hfl Hts Hfresh Hbooks] Hfree. rewrite Hfree in *.
  destruct (refreshCounters_spec (sy_shared y) nodes Htab) as (s' & next & [Hf Hn Hc Hnew Ht _] & -> & _).
  set (s2 := {| s' with sh_table := Some next |}).
  assert (Hs2 : sh_now s2 = sh_now (sy_shared y) ∧ sh_pending s2 = sh_pending (sy_shared y) ∧
    sh_at s2 = sh_at (sy_shared y) ∧ sh_timer s2 = sh_timer (sy_shared y) ∧ sh_revision s2 = sh_revision (sy_shared y) ∧
    sh_closed s2 = sh_closed (sy_shared y) ∧ sh_tests s2 = sh_tests (sy_shared y) ∧ sh_table s2 = Some next ∧
    sh_next s2 = sh_next s' ∧ ∀ c, cell_of s2 c = cell_of s' c) by (unfold s2; by rewrite Hf).
  clearbody s2. destruct Hs2 as (E1 & E2 & E3 & E4 & E5 & E6 & E7 & E8 & E9 & Hcell). clear Hf.
  assert (Hcov : ∀ p taking, covered (sy_shared y) (sy_notes y) p taking → covered s2 (sy_notes y) p taking).
  { unfold covered. by rewrite E2. }
  assert (Hold : ∀ node c, next !! node = Some c → cell_of s' c ≠ no_cell → ∃ table,
    sh_table (sy_shared y) = Some table ∧ table !! node = Some c ∧ cell_of s' c = cell_of (sy_shared y) c).
  { intros node c Hl Hz. destruct (Ht node c Hl) as [Hp|[Hx _]]; [|by apply Hnew in Hx].
    destruct (sh_table (sy_shared y)) as [table|] eqn:Et; cbn in Hp; [|by rewrite lookup_empty in Hp].
    exists table. split_and!; [done..|]. apply Hc. left. by eapply Htab. }
  split; cbn [sy_shared sy_notes sy_holder sy_noted sy_taken sy_batches].
  - by rewrite E1.
  - by rewrite E2.
  - by rewrite E3, E4, E5.
  - unfold armed. rewrite E1, E2, E3, E4, E5, E6. exact Harm.
  - rewrite E8, E9. intros table node c [= <-] Hl. destruct (Ht node c Hl) as [Hp|[? _]]; [|lia].
    destruct (sh_table (sy_shared y)) as [table|] eqn:Et; cbn in Hp; [|by rewrite lookup_empty in Hp].
    specialize (Htab table node c eq_refl Hp). lia.
  - rewrite E9. intros t pc Hpc. eapply pc_ok_mono; [exact Hn | by eapply Hnotes].
  - done.
  - rewrite E6, E8. intros Hopen table node c [= <-] Hl. rewrite Hcell. intros Hne.
    destruct (Hold node c Hl) as (table & Et & Hl' & Hcc); [intros E; by rewrite E in Hne|]. rewrite Hcc in Hne. apply Hcov. by eapply Htr.
  - rewrite E6, E8. intros Hopen table node c [= <-] Hl. rewrite Hcell. intros Hne.
    destruct (Hold node c Hl) as (table & Et & Hl' & Hcc); [intros E; by rewrite E in Hne|]. rewrite Hcc in Hne. apply Hcov. by eapply Hfl.
  - rewrite E6, E7. intros Hopen Hne. apply Hcov. by apply Hts.
  - rewrite E9. intros c Hcc. rewrite Hcell, Hc by lia. apply Hfresh. lia.
  - intros c. destruct (Hbooks c) as (Hn1 & Hb1 & Hb2 & Ht1 & Ht2). rewrite Hcell.
    destruct (decide ((c < sh_next (sy_shared y))%nat ∨ (sh_next s' <= c)%nat)) as [Hx|Hx]; [by rewrite Hc|].
    destruct (Hfresh c ltac:(lia)) as (F1 & _). rewrite Hnew by lia. by rewrite F1 in Hb1, Hb2.
Qed.

Lemma step_close_table_inv y : drain_inv y → sy_holder y = Free →
  drain_inv {| y with sy_shared := close_table (sy_shared y); sy_holder := Closing |}.
Proof.
  intros [Hnow Hpend Htimer Harm Htab Hnotes Hhold Htr Hfl Hts Hfresh Hbooks] Hfree. rewrite Hfree in *.
  split; cbn [sy_shared sy_notes sy_holder sy_noted sy_taken sy_batches close_table sh_now sh_pending sh_at sh_timer sh_closed
      sh_table sh_tests sh_next sh_revision]; try done.
Qed.

Lemma step_close_inv y : drain_inv y → drain_inv {| y with sy_shared := close_drain (sy_shared y); sy_holder := Free |}.
Proof.
  intros [Hnow Hpend Htimer Harm Htab Hnotes Hhold Htr Hfl Hts Hfresh Hbooks].
  split; cbn [sy_shared sy_notes sy_holder sy_noted sy_taken sy_batches close_drain cancelDrainLocked sh_now sh_pending sh_at sh_timer sh_closed
      sh_table sh_tests sh_next sh_revision zero_time]; try done.
Qed.

(** The books by name are read by no step. *)
Lemma named_aside y named dropped : drain_inv y → drain_inv {| y with sy_named := named; sy_dropped := dropped |}.
Proof. by intros []; split. Qed.

Lemma step_inv y y' : step y y' → drain_inv y → drain_inv y'.
Proof.
  intros Hs Hy. destruct Hs.
  - by apply step_call_inv.
  - exact (named_aside _ _ _ (step_note_inv y t pc Hy ltac:(done))).
  - by apply step_return_inv.
  - subst. by eapply step_drain_inv.
  - by eapply step_draining_inv.
  - by eapply step_drained_inv.
  - exact (named_aside _ _ _ (step_refresh_inv y nodes Hy ltac:(done))).
  - exact (named_aside _ _ _ (step_close_table_inv y Hy ltac:(done))).
  - by apply step_close_inv.
  - by apply step_time_inv.
Qed.

Lemma running_inv y : running y → drain_inv y.
Proof.
  induction 1 as [now Hn|y y' _ IH Hs]; [|by eapply step_inv].
  split; cbn [sy_shared sy_notes sy_holder sy_noted sy_taken sy_batches new_system sh_now sh_pending sh_at sh_timer sh_closed
      sh_table sh_tests sh_next sh_revision zero_time]; done.
Qed.

(** ** The books by name *)

Definition in_hand (h : holder) : list batch :=
  match h with Draining (Swapping _ b) | Draining (SwappingFails _ _ _ b) | Draining (Receiving b) => [b] | _ => [] end.

(** What the batches hold of a name, that of the drain in progress included. *)
Definition handed (counts : batch → gmap string Z) (bs : list batch) (node : string) : Z :=
  foldr (λ b n, count_of (counts b) node + n) 0 bs.
Definition batches (y : system) : list batch := sy_batches y ++ in_hand (sy_holder y).
Definition delivered (y : system) (node : string) : cell :=
  {| cl_traffic := handed ba_traffic (batches y) node; cl_fails := handed ba_fails (batches y) node |}.

Lemma handed_snoc counts bs b node : handed counts (bs ++ [b]) node = handed counts bs node + count_of (counts b) node.
Proof. unfold handed. induction bs as [|b' bs IH]; cbn; [lia|]. rewrite IH. lia. Qed.

(** The counters the drain in progress has yet to finish. *)
Definition todo_of (h : holder) : list (string * nat) :=
  match h with Draining (Swapping todo _) => todo | Draining (SwappingFails node c todo _) => (node, c) :: todo | _ => [] end.

(** A name has one counter, and while it keeps it, it is noted and drained
    under that name only. *)
Record names_inv (y : system) : Prop := {
  ni_table : ∀ n1 n2 c, counter (sy_shared y) n1 = Some c → counter (sy_shared y) n2 = Some c → n1 = n2;
  ni_note : ∀ t ev node c, sy_notes y !! t = Some (AtNote ev node c) →
    (node ∈ sy_dropped y ∨ counter (sy_shared y) node = Some c) ∧ ∀ other, counter (sy_shared y) other = Some c → other = node;
  ni_todo : ∀ node c, (node, c) ∈ todo_of (sy_holder y) → counter (sy_shared y) node = Some c;
  ni_books : ∀ node c, counter (sy_shared y) node = Some c → node ∉ sy_dropped y →
    tally (sy_named y) node = tally (sy_noted y) c ∧ delivered y node = tally (sy_taken y) c;
  ni_none : ∀ node, counter (sy_shared y) node = None → node ∉ sy_dropped y →
    tally (sy_named y) node = no_cell ∧ delivered y node = no_cell;
}.

Lemma counter_bound y node c : drain_inv y → counter (sy_shared y) node = Some c → (c < sh_next (sy_shared y))%nat.
Proof. intros Hy. unfold counter. destruct (sh_table _) as [table|] eqn:E; [|done]. cbn. by eapply di_table. Qed.

(** Steps that leave the table, the books and the batches alone. *)
Lemma names_same y y' : names_inv y → counter (sy_shared y') = counter (sy_shared y) → sy_dropped y' = sy_dropped y →
  (∀ t ev node c, sy_notes y' !! t = Some (AtNote ev node c) → ∃ t', sy_notes y !! t' = Some (AtNote ev node c)) →
  (∀ node c, (node, c) ∈ todo_of (sy_holder y') → (node, c) ∈ todo_of (sy_holder y) ∨ counter (sy_shared y) node = Some c) →
  sy_named y' = sy_named y → sy_noted y' = sy_noted y → sy_taken y' = sy_taken y →
  (∀ node, delivered y' node = delivered y node) → names_inv y'.
Proof.
  intros [T N To B No] Hc Hd Hn Ht E1 E2 E3 E4. split; rewrite ?Hc, ?Hd, ?E1, ?E2, ?E3; try done.
  - intros t ev node c (t' & Ht')%Hn. by eapply N.
  - intros node c [Hin|]%Ht; [by apply To | done].
  - intros node c. rewrite E4. apply B.
  - intros node. rewrite E4. apply No.
Qed.

Lemma names_call y t pc : is_call pc → names_inv y → names_inv {| y with sy_notes := <[t := pc]> (sy_notes y) |}.
Proof.
  intros Hpc Hy. apply (names_same y); cbn; try done; [|by left]. intros t' ev node c [[_ ->]|[_ ?]]%lookup_insert_Some; [|eauto].
  by destruct Hpc as [(n & [] & E)|[(n & E)|(n & ms & E)]].
Qed.

Lemma note_step_counter s pc : counter (note_step s pc).1 = counter s.
Proof. unfold counter. by destruct (note_step_frame s pc) as (-> & _). Qed.

(** A goroutine looks its counter up, or notes. *)
Lemma names_note y t pc : sy_notes y !! t = Some pc → names_inv y →
  names_inv {| y with sy_shared := (note_step (sy_shared y) pc).1; sy_notes := <[t := (note_step (sy_shared y) pc).2]> (sy_notes y);
                      sy_noted := noted_by (sy_noted y) pc; sy_named := named_by (sy_named y) pc |}.
Proof.
  intros Ht [T N To B No]. assert (Hd : ∀ node, delivered {| y with sy_shared := (note_step (sy_shared y) pc).1;
    sy_notes := <[t := (note_step (sy_shared y) pc).2]> (sy_notes y); sy_noted := noted_by (sy_noted y) pc;
    sy_named := named_by (sy_named y) pc |} node = delivered y node) by done.
  split; cbn [sy_shared sy_notes sy_holder sy_noted sy_taken sy_named sy_dropped]; rewrite ?note_step_counter; try done.
  - intros t' ev node c [[_ Hpc]|[_ ?]]%lookup_insert_Some; [|by eapply N]. destruct pc as [ev' node'|ev' node' c'|q|q seen| |]; cbn [note_step] in Hpc.
    + destruct (counter (sy_shared y) node') as [c'|] eqn:Ec; [|done]. injection Hpc as -> -> ->. split; [by right|]. intros other Ho. by eapply T.
    + destruct ev'; cbn [note_event] in Hpc; [done | done|]. by case_if_in Hpc.
    + by case_if_in Hpc.
    + by case_if_in Hpc.
    + done.
    + done.
  - intros node c Hc Hn. rewrite Hd. destruct (B node c Hc Hn) as [B1 B2]. split; [|done].
    destruct pc as [|[] node' c'| | | |]; cbn [named_by noted_by]; try done; destruct (N t _ _ _ Ht) as [[Hx|Hx] Hother];
      (destruct (decide (c' = c)) as [->|Hcc]; [pose proof (Hother _ Hc) as -> | assert (node ≠ node') by congruence]);
      rewrite ?tally_same, ?tally_other by congruence; by rewrite ?B1.
  - intros node Hc Hn. rewrite Hd. destruct (No node Hc Hn) as [B1 B2]. split; [|done].
    destruct pc as [|[] node' c'| | | |]; cbn [named_by]; try done; destruct (N t _ _ _ Ht) as [[Hx|Hx] _];
      rewrite tally_other by congruence; done.
Qed.

(** A drain takes what a counter holds, under its name. *)
Lemma delivered_more y y' node b b' traffic fails : in_hand (sy_holder y) = [b] → in_hand (sy_holder y') = [b'] → sy_batches y' = sy_batches y →
  count_of (ba_traffic b') node = count_of (ba_traffic b) node + traffic → count_of (ba_fails b') node = count_of (ba_fails b) node + fails →
  delivered y' node = {| cl_traffic := cl_traffic (delivered y node) + traffic; cl_fails := cl_fails (delivered y node) + fails |}.
Proof.
  intros Eb Eb' Ebs H1 H2. unfold delivered, batches. cbn [cl_traffic cl_fails]. rewrite Ebs, Eb, Eb', !handed_snoc, H1, H2. f_equal; lia.
Qed.

Lemma delivered_as_before y y' node b b' : in_hand (sy_holder y) = [b] → in_hand (sy_holder y') = [b'] → sy_batches y' = sy_batches y →
  count_of (ba_traffic b') node = count_of (ba_traffic b) node → count_of (ba_fails b') node = count_of (ba_fails b) node →
  delivered y' node = delivered y node.
Proof.
  intros Eb Eb' Ebs H1 H2. rewrite (delivered_more y y' node b b' 0 0); [|done..|lia|lia]. destruct (delivered y node). cbn. by rewrite !Z.add_0_r.
Qed.

Lemma count_other counts node n node' : node ≠ node' → count_of (take_count counts node n) node' = count_of counts node'.
Proof. intros Hne. unfold count_of. by rewrite take_count_other. Qed.

(** The books after one counter was swapped. *)
Lemma names_swap y y' node0 c0 : names_inv y → (node0, c0) ∈ todo_of (sy_holder y) →
  counter (sy_shared y') = counter (sy_shared y) → sy_named y' = sy_named y → sy_noted y' = sy_noted y → sy_dropped y' = sy_dropped y →
  sy_notes y' = sy_notes y → (∀ node c, (node, c) ∈ todo_of (sy_holder y') → (node, c) ∈ todo_of (sy_holder y)) →
  (∀ c, c0 ≠ c → tally (sy_taken y') c = tally (sy_taken y) c) → (∀ node, node0 ≠ node → delivered y' node = delivered y node) →
  (delivered y node0 = tally (sy_taken y) c0 → delivered y' node0 = tally (sy_taken y') c0) → names_inv y'.
Proof.
  intros [T N To B No] Hin Hc E1 E2 E3 E4 Ht Hother Hothers Hbooks. pose proof (To _ _ Hin) as Hc0.
  split; rewrite ?Hc, ?E1, ?E2, ?E3, ?E4; [done.. | | |].
  - intros node c Hx. apply To, Ht, Hx.
  - intros node c Hx Hn. destruct (B node c Hx Hn) as [B1 B2]. split; [done|].
    destruct (decide (c0 = c)) as [->|Hcc]; [pose proof (T _ _ _ Hx Hc0) as ->; auto|]. rewrite Hother by done.
    rewrite Hothers; [done | congruence].
  - intros node Hx Hn. rewrite Hothers by congruence. by apply No.
Qed.

Lemma names_draining y d s d' : names_inv y → sy_holder y = Draining d → drain_step (sy_shared y) d = (s, inl d') →
  names_inv {| y with sy_shared := s; sy_holder := Draining d'; sy_taken := taken_by (sy_taken y) d d' |}.
Proof.
  intros Hn Hd Hs. set (y' := {| y with sy_shared := s; sy_holder := Draining d'; sy_taken := taken_by (sy_taken y) d d' |}).
  assert (Hbs : sy_batches y' = sy_batches y) by done. assert (Hb' : in_hand (sy_holder y') = in_hand (Draining d')) by done.
  assert (Htk : sy_taken y' = taken_by (sy_taken y) d d') by done. assert (Hh : todo_of (sy_holder y') = todo_of (Draining d')) by done.
  assert (Hrest : sy_named y' = sy_named y ∧ sy_noted y' = sy_noted y ∧ sy_dropped y' = sy_dropped y ∧ sy_notes y' = sy_notes y) by done.
  assert (Hcn : counter (sy_shared y') = counter (sy_shared y)).
  { unfold counter. change (sy_shared y') with s. by destruct d as [[|[? ?] ?] ?| |[]]; cbn [drain_step] in Hs; try destruct (sh_tests (sy_shared y)); injection Hs as <- _ || done. }
  clearbody y'. destruct Hrest as (E1 & E2 & E3 & E4).
  destruct d as [[|[node0 c0] todo] b|node0 c0 todo b|b]; cbn [drain_step] in Hs.
  - injection Hs as <- <-. apply (names_same y); rewrite ?Htk, ?Hh, ?E4; try done; [by intros; eexists | by intros ? ? ?%elem_of_nil|].
    intros node. by apply (delivered_as_before y y' node b b ltac:(by rewrite Hd) Hb' Hbs).
  - injection Hs as <- <-.
    apply (names_swap y y' node0 c0); rewrite ?Hh, ?Hd; try done; cbn [todo_of]; [left | ..].
    + rewrite Htk. intros c Hcc. cbn [taken_by]. by rewrite tally_other.
    + intros node Hne. apply (delivered_as_before y y' node b _ ltac:(by rewrite Hd) Hb' Hbs); cbn; by rewrite ?count_other.
    + rewrite Htk. cbn [taken_by ba_traffic]. rewrite tally_same.
      rewrite (delivered_more y y' node0 b _ (count_of (take_count (ba_traffic b) node0 (cl_traffic (cell_of (sy_shared y) c0))) node0 - count_of (ba_traffic b) node0) 0 ltac:(by rewrite Hd) Hb' Hbs); [|cbn; lia..]. by intros ->.
  - injection Hs as <- <-. apply (names_swap y y' node0 c0); rewrite ?Hh, ?Hd; try done; cbn [todo_of]; [left | by intros; right | ..].
    + rewrite Htk. intros c Hcc. cbn [taken_by]. by rewrite tally_other.
    + intros node Hne. apply (delivered_as_before y y' node b _ ltac:(by rewrite Hd) Hb' Hbs); cbn; by rewrite ?count_other.
    + rewrite Htk. cbn [taken_by ba_fails]. rewrite tally_same.
      rewrite (delivered_more y y' node0 b _ 0 (count_of (take_count (ba_fails b) node0 (cl_fails (cell_of (sy_shared y) c0))) node0 - count_of (ba_fails b) node0) ltac:(by rewrite Hd) Hb' Hbs); [|cbn; lia..]. by intros ->.
  - destruct (sh_tests (sy_shared y)); [done|]. injection Hs as <- <-. apply (names_same y); rewrite ?Htk, ?Hh, ?E4; try done; [by intros; eexists | by intros ? ? ?%elem_of_nil|].
    intros node. by apply (delivered_as_before y y' node b _ ltac:(by rewrite Hd) Hb' Hbs).
Qed.

(** What a new topology does to the table: a name left out is dropped, one
    that stays keeps its counter, a new one gets a counter of its own. *)
Lemma refreshed_counter s nodes : (∀ table node c, sh_table s = Some table → table !! node = Some c → (c < sh_next s)%nat) →
  let s' := refreshCounters s nodes in
  (∀ node, node ∈ nodes ↔ is_Some (counter s' node)) ∧
  (∀ node c, counter s node = Some c → node ∈ nodes → counter s' node = Some c) ∧
  (∀ node c, counter s' node = Some c → counter s node = Some c ∨ counter s node = None ∧ (sh_next s <= c)%nat) ∧
  (∀ n1 n2 c, (sh_next s <= c)%nat → counter s' n1 = Some c → counter s' n2 = Some c → n1 = n2).
Proof.
  intros Htab s'. destruct (refreshCounters_spec s nodes Htab) as (s1 & next & [_ _ _ _ Ht Ho] & E & Hdom).
  assert (Hs' : ∀ node, counter s' node = next !! node) by (intros; unfold s'; by rewrite E).
  assert (Hs : ∀ node, counter s node = default ∅ (sh_table s) !! node) by (intros; unfold counter; by destruct (sh_table s)).
  assert (Hnew : ∀ node c, counter s' node = Some c → counter s node = Some c ∨ counter s node = None ∧ (sh_next s <= c)%nat).
  { intros node c. rewrite Hs', Hs. intros [|[? ?]]%Ht; [by left | right; split; [done | lia]]. }
  assert (Hin : ∀ node, node ∈ nodes ↔ is_Some (counter s' node)).
  { intros node. rewrite Hs', <- elem_of_dom, Hdom. by rewrite elem_of_list_to_set. }
  split_and!; [done | | done | intros n1 n2 c Hc; rewrite !Hs'; by apply Ho].
  intros node c Hc [c' Hc']%Hin. destruct (Hnew node c' Hc') as [|[]]; congruence.
Qed.

Lemma left_out_spec s nodes node : node ∈ left_out s nodes ↔ is_Some (counter s node) ∧ node ∉ nodes.
Proof.
  unfold left_out, counter. destruct (sh_table s) as [table|]; cbn; rewrite elem_of_difference, elem_of_list_to_set, ?elem_of_dom; [done|].
  set_solver.
Qed.

Lemma names_refresh y nodes : drain_inv y → names_inv y → sy_holder y = Free →
  names_inv {| y with sy_shared := refreshCounters (sy_shared y) nodes; sy_dropped := sy_dropped y ∪ left_out (sy_shared y) nodes |}.
Proof.
  intros Hy [T N To B No] Hfree. destruct (refreshed_counter (sy_shared y) nodes (di_table y Hy)) as (Hin & Hkeep & Hnew & Hone).
  assert (Hb := counter_bound y). set (s' := refreshCounters (sy_shared y) nodes) in *. clearbody s'.
  split; cbn [sy_shared sy_notes sy_holder sy_noted sy_taken sy_named sy_dropped].
  - intros n1 n2 c H1 H2. destruct (Hnew n1 c H1) as [E1|[_ E1]], (Hnew n2 c H2) as [E2|[_ E2]]; [by eapply T | | | by eapply Hone].
    + specialize (Hb n1 c Hy E1). lia.
    + specialize (Hb n2 c Hy E2). lia.
  - intros t ev node c Ht. destruct (N t ev node c Ht) as [H1 H2]. split.
    + destruct H1 as [H1|H1]; [left; set_solver|]. destruct (decide (node ∈ nodes)) as [Hn|Hn]; [right; by apply Hkeep|].
      left. apply elem_of_union_r, left_out_spec. eauto.
    + intros other Ho. destruct (Hnew other c Ho) as [E|[_ E]]; [auto|]. pose proof (di_notes y Hy _ _ Ht) as Hok. cbn in Hok. lia.
  - rewrite Hfree. by intros ? ? ?%elem_of_nil.
  - intros node c Hc [Hn Hl]%not_elem_of_union. destruct (Hnew node c Hc) as [E|[E Hf]]; [by apply B|].
    destruct (No node E Hn) as [-> E2]. destruct (di_fresh y Hy c Hf) as (_ & -> & ->). done.
  - intros node Hc [Hn Hl]%not_elem_of_union. apply No; [|done]. destruct (counter (sy_shared y) node) as [c|] eqn:E; [|done].
    destruct Hl. apply left_out_spec. split; [by rewrite E|]. intros Hx%Hin. rewrite Hc in Hx. by destruct Hx.
Qed.

Lemma names_close y : names_inv y → sy_holder y = Free →
  names_inv {| y with sy_shared := close_table (sy_shared y); sy_holder := Closing; sy_dropped := sy_dropped y ∪ left_out (sy_shared y) [] |}.
Proof.
  intros [T N To B No] Hfree. assert (Hnone : ∀ node, counter (close_table (sy_shared y)) node = None) by done.
  assert (Hdel : ∀ s dropped node, delivered {| y with sy_shared := s; sy_holder := Closing; sy_dropped := dropped |} node = delivered y node).
  { intros. unfold delivered, batches. cbn [sy_holder sy_batches]. by rewrite Hfree. }
  split; cbn [sy_shared sy_notes sy_holder sy_noted sy_taken sy_named sy_dropped todo_of]; try done; [..|by intros ? ? ?%elem_of_nil|].
  - intros t ev node c Ht. destruct (N t ev node c Ht) as [[H1|H1] _]; (split; [left | done]); [set_solver|].
    apply elem_of_union_r, left_out_spec. split; [eauto | apply not_elem_of_nil].
  - intros node _ [Hn Hl]%not_elem_of_union. rewrite Hdel. apply No; [|done]. destruct (counter (sy_shared y) node) eqn:E; [|done].
    destruct Hl. apply left_out_spec. split; [eauto | apply not_elem_of_nil].
Qed.

Lemma names_step y y' : drain_inv y → names_inv y → step y y' → names_inv y'.
Proof.
  intros Hy Hn Hs. destruct Hs as [t pc Hpc Ht|t pc Ht|t Ht|revision s table todo Hfree Hb Htab Hp|d s d' Hd Hst|d s b Hd Hst|nodes Hfree|Hfree|Hc|dt].
  - by apply names_call.
  - by apply names_note.
  - apply (names_same y); cbn; try done; [|by left]. intros t' ev node c Ht'. apply lookup_delete_Some in Ht' as [_ ?]. eauto.
  - unfold drain_begin in Hb. case_if_in Hb; [done|]. injection Hb as <-. apply (names_same y); try done; [by intros; eexists | |].
    + intros node c Hin. right. cbn in Hin, Htab. rewrite Hp, <- Htab in Hin. apply elem_of_map_to_list in Hin.
      unfold counter. destruct (sh_table (sy_shared y)); [done|]. cbn in Hin. by rewrite lookup_empty in Hin.
    + intros node. unfold delivered, batches. cbn [sy_holder sy_batches in_hand]. rewrite Hfree, !handed_snoc, app_nil_r. cbn. by rewrite !Z.add_0_r.
  - by apply names_draining.
  - destruct d as [[|[]]| |b0]; cbn [drain_step] in Hst; try done. destruct (sh_tests (sy_shared y)); [|done]. injection Hst as <- <-.
    apply (names_same y); try done; [by intros; eexists | by intros ? ? ?%elem_of_nil|].
    intros node. unfold delivered, batches. cbn [sy_holder sy_batches in_hand]. by rewrite Hd, app_nil_r.
  - by apply names_refresh.
  - by apply names_close.
  - apply (names_same y); try done; [by intros; eexists | by intros ? ? ?%elem_of_nil|].
    intros node. unfold delivered, batches. cbn [sy_holder sy_batches in_hand]. by rewrite Hc.
  - apply (names_same y); try done; [by intros; eexists | by left].
Qed.

Lemma running_names y : running y → names_inv y.
Proof.
  induction 1 as [now Hn|y y' Hr IH Hs]; [|by eapply names_step; [apply running_inv| |]].
  split; cbn; try done. by intros ? ? ?%elem_of_nil.
Qed.

(** The counter of a name that kept it holds what is not in a batch yet. *)
Lemma held_by_counter y node c : running y → counter (sy_shared y) node = Some c → node ∉ sy_dropped y →
  (cl_fails (tally (sy_named y) node) < 2 ^ 31 →
     cl_fails (tally (sy_named y) node) = cl_fails (delivered y node) + cl_fails (cell_of (sy_shared y) c)) ∧
  (cl_traffic (tally (sy_named y) node) < 2 ^ 31 →
     cl_traffic (tally (sy_named y) node) = cl_traffic (delivered y node) + cl_traffic (cell_of (sy_shared y) c)).
Proof.
  intros Hr Hc Hn. destruct (ni_books y (running_names y Hr) node c Hc Hn) as [-> ->].
  destruct (di_books y (running_inv y Hr) c) as (_ & Hb1 & Hb2 & _). split; [apply Hb2 | apply Hb1].
Qed.


(** ** What it means *)

(** Some goroutine has noted an event and is still making sure that a drain
    is scheduled. *)
Definition being_scheduled (y : system) : Prop :=
  ∃ t pc, sy_notes y !! t = Some pc ∧
    match pc with AtPending _ | AtSwap _ _ | AtLock => True | _ => False end.

(** The armed timer drains when it fires, within the delay. *)
Definition drain_armed (y : system) (delay : duration) : Prop :=
  ∃ revision, sh_timer (sy_shared y) = Some revision ∧ sh_at (sy_shared y) <= sh_now (sy_shared y) + delay ∧
    drain_begin (sy_shared y) revision ≠ None.

Lemma covered_means y p taking delay : drain_inv y → sh_closed (sy_shared y) = false → 1 <= p →
  (p = 2 → delay = failureDrainDelay) → (p = 1 → delay = trafficDrainDelay) → p <= 2 →
  covered (sy_shared y) (sy_notes y) p taking → being_scheduled y ∨ taking ∨ drain_armed y delay.
Proof.
  intros Hy Hopen Hp1 Hf Ht Hp2 [Hp|[(t & pc & Hpc & Hs)|Hx]]; [| |by right; left].
  - destruct (di_armed y Hy Hopen ltac:(lia)) as [(t & Hl)|(Htimer & Hat & Hdue)]; [left; by exists t, AtLock|].
    right; right. exists (sh_revision (sy_shared y)). split_and!; [done | |].
    + pose proof (di_pending y Hy). unfold drain_delay in Hdue. case_if_in Hdue.
      * assert (failureDrainDelay <= delay); [|lia]. destruct (decide (p = 2)) as [E2|]; [by rewrite Hf|].
        rewrite Ht by lia. done.
      * bools. rewrite Ht by lia. done.
    + unfold drain_begin. rewrite Hopen, Z.eqb_refl, andb_false_r. done.
  - left. exists t, pc. split; [done|]. by destruct pc.
Qed.

(** C18: no report is forgotten. However the goroutines that report dials and
    bytes, the drain timers, topology changes and time interleave, until the
    engine closes: a failure noted of a name that is not yet in a batch is
    about to be swapped by the drain in progress, or the goroutine that noted
    one is still scheduling, or the armed timer drains it within 250 ms; for
    traffic and for URL tests the same holds within two seconds. This is so
    of every name that no topology has left out since it got its counter, and
    a topology gives exactly the names it holds a counter. *)
Theorem no_note_lost y : running y → sh_closed (sy_shared y) = false →
  (∀ node c, counter (sy_shared y) node = Some c → node ∉ sy_dropped y →
     (cl_fails (tally (sy_named y) node) < 2 ^ 31 → cl_fails (tally (sy_named y) node) ≠ cl_fails (delivered y node) →
        being_scheduled y ∨ takes_fails (sy_holder y) c ∨ drain_armed y failureDrainDelay) ∧
     (cl_traffic (tally (sy_named y) node) < 2 ^ 31 → cl_traffic (tally (sy_named y) node) ≠ cl_traffic (delivered y node) →
        being_scheduled y ∨ takes_traffic (sy_holder y) c ∨ drain_armed y trafficDrainDelay)) ∧
  (∀ node c, counter (sy_shared y) node = Some c →
     (cl_fails (cell_of (sy_shared y) c) ≠ 0 →
        being_scheduled y ∨ takes_fails (sy_holder y) c ∨ drain_armed y failureDrainDelay) ∧
     (cl_traffic (cell_of (sy_shared y) c) ≠ 0 →
        being_scheduled y ∨ takes_traffic (sy_holder y) c ∨ drain_armed y trafficDrainDelay)) ∧
  (sh_tests (sy_shared y) ≠ [] → being_scheduled y ∨ takes_tests (sy_holder y) ∨ drain_armed y trafficDrainDelay) ∧
  (∀ nodes node, node ∈ nodes ↔ is_Some (counter (refreshCounters (sy_shared y) nodes) node)).
Proof.
  intros Hr Hopen. pose proof (running_inv y Hr) as Hy.
  assert (Hcells : ∀ node c, counter (sy_shared y) node = Some c →
     (cl_fails (cell_of (sy_shared y) c) ≠ 0 →
        being_scheduled y ∨ takes_fails (sy_holder y) c ∨ drain_armed y failureDrainDelay) ∧
     (cl_traffic (cell_of (sy_shared y) c) ≠ 0 →
        being_scheduled y ∨ takes_traffic (sy_holder y) c ∨ drain_armed y trafficDrainDelay)).
  { intros node c Hc. unfold counter in Hc. destruct (sh_table (sy_shared y)) as [table|] eqn:Et; [|done]. cbn in Hc. split; intros Hne.
    - eapply (covered_means y 2); [done..|]. by eapply di_fails.
    - eapply (covered_means y 1); [done..|]. by eapply di_traffic. }
  split_and!; [|done| |intros nodes; apply (refreshed_counter _ nodes (di_table y Hy))].
  - intros node c Hc Hn. destruct (held_by_counter y node c Hr Hc Hn) as [Hf Ht]. destruct (Hcells node c Hc) as [Cf Ct].
    split; intros Hlt Hne; [apply Cf; specialize (Hf Hlt) | apply Ct; specialize (Ht Hlt)]; lia.
  - intros Hne. eapply (covered_means y 1); [done..|]. by apply di_tests.
Qed.

(** C19: every report counts once, under its name. Of a name no topology has
    left out since it got its counter, and noted fewer than 2^31 times, the
    failures noted are exactly those that some drain put into its batch under
    that name and those the counter still holds, and so is the traffic; no
    interleaving of bumps, swaps and topology changes loses, repeats or
    misplaces one. A counter that a topology did leave out still balances: it
    holds what was noted on it and no drain took. *)
Theorem noted_once y : running y →
  (∀ node c, counter (sy_shared y) node = Some c → node ∉ sy_dropped y →
     (cl_fails (tally (sy_named y) node) < 2 ^ 31 →
        cl_fails (tally (sy_named y) node) = handed ba_fails (batches y) node + cl_fails (cell_of (sy_shared y) c)) ∧
     (cl_traffic (tally (sy_named y) node) < 2 ^ 31 →
        cl_traffic (tally (sy_named y) node) = handed ba_traffic (batches y) node + cl_traffic (cell_of (sy_shared y) c))) ∧
  (∀ c,
     (cl_fails (tally (sy_noted y) c) < 2 ^ 31 →
        cl_fails (tally (sy_noted y) c) = cl_fails (tally (sy_taken y) c) + cl_fails (cell_of (sy_shared y) c)) ∧
     (cl_traffic (tally (sy_noted y) c) < 2 ^ 31 →
        cl_traffic (tally (sy_noted y) c) = cl_traffic (tally (sy_taken y) c) + cl_traffic (cell_of (sy_shared y) c))).
Proof.
  intros Hr. split; [intros node c Hc Hn; by apply held_by_counter|].
  intros c. destruct (di_books y (running_inv y Hr) c) as (_ & Hb1 & Hb2 & _). split; [apply Hb2 | apply Hb1].
Qed.

(** ** A failed dial, from the report to the armed timer *)

Module Sample.

Definition started : system :=
  {| (new_system 1) with sy_shared := refreshCounters (sy_shared (new_system 1)) ["node"%string] |}.
Definition reported : system := {| started with sy_notes := <[0%nat := NoteDial "node" true]> (sy_notes started) |}.

(** The goroutine takes its next step. *)
Definition advance (y : system) : system :=
  match sy_notes y !! 0%nat with
  | Some pc => {| y with sy_shared := (note_step (sy_shared y) pc).1;
                         sy_notes := <[0%nat := (note_step (sy_shared y) pc).2]> (sy_notes y);
                         sy_noted := noted_by (sy_noted y) pc; sy_named := named_by (sy_named y) pc |}
  | None => y
  end.

Lemma advance_running y : running y → running (advance y).
Proof.
  intros Hy. unfold advance. destruct (sy_notes y !! 0%nat) as [pc|] eqn:E; [|done].
  eapply run_step; [exact Hy | by apply step_note].
Qed.

Lemma reported_running : running reported.
Proof.
  assert (Hs : running started).
  { eapply run_step; [apply (run_new 1); lia|]. by apply step_refresh. }
  eapply run_step; [exact Hs|]. apply step_call; [|done]. left. by exists "node"%string, true.
Qed.

Definition scheduled : system := advance (advance (advance (advance (advance reported)))).

Lemma scheduled_running : running scheduled.
Proof. repeat apply advance_running. apply reported_running. Qed.

(** A new topology comes, which still has the node. *)
Definition renewed : system :=
  {| scheduled with sy_shared := refreshCounters (sy_shared scheduled) ["other"; "node"]%string;
                    sy_dropped := sy_dropped scheduled ∪ left_out (sy_shared scheduled) ["other"; "node"]%string |}.

Lemma renewed_running : running renewed.
Proof. eapply run_step; [apply scheduled_running|]. by apply step_refresh; vm_compute. Qed.

Lemma renewed_kept : "node"%string ∉ sy_dropped renewed.
Proof. apply (bool_decide_unpack _). vm_compute. exact I. Qed.

Lemma no_note_lost_witness : tally (sy_named renewed) "node"%string = {| cl_traffic := 0; cl_fails := 1 |} ∧ drain_armed renewed failureDrainDelay.
Proof.
  split; [vm_compute; reflexivity|].
  destruct (no_note_lost renewed renewed_running) as [Hc _]; [vm_compute; reflexivity|].
  destruct (Hc "node"%string 0%nat) as [Hf _]; [vm_compute; reflexivity | exact renewed_kept|].
  destruct Hf as [(t & pc & Hpc & Hx)|[Hx|Hx]]; [vm_compute; reflexivity | vm_compute; discriminate | | |].
  - exfalso. revert Hpc Hx. replace (sy_notes renewed) with ({[0%nat := AtEnd]} : gmap nat note_pc) by (vm_compute; reflexivity).
    intros [<- <-]%lookup_singleton_Some. done.
  - exfalso. vm_compute in Hx. exact Hx.
  - exact Hx.
Defined.

Lemma noted_once_witness : 1 = handed ba_fails (batches renewed) "node" + cl_fails (cell_of (sy_shared renewed) 0).
Proof.
  destruct (noted_once renewed renewed_running) as [Hn _].
  destruct (Hn "node"%string 0%nat) as [Hf _]; [vm_compute; reflexivity | exact renewed_kept|].
  replace 1 with (cl_fails (tally (sy_named renewed) "node"%string)) by (vm_compute; reflexivity).
  apply Hf. vm_compute. reflexivity.
Defined.

End Sample.
