(* ===== verification/EngineFacts.v ===== *)
(** * Facts about the engine

    Whatever the core, the host and the user do, in any order, the machine
    stays well formed and the engine's own checks stay within the limit. *)

From S2P Require Import Prelude GoText Cond Evidence Journal Identity Country Profile Policy Library.
From S2P Require Import Decide Budget Route Scenario Layers Machine Rebuild Settle Events Planner Engine.
From S2P Require Import MachineFacts SettleFacts EventFacts PlannerFacts RebuildFacts.

Section facts.
Context `{Unicode} `{Regexp} `{Url} `{PublicSuffix} `{IpText} `{RangeOrder} `{Netip}.
Context `{Yaml} `{Embedded} `{ErrorText} `{Hmac} `{Random} `{Runtime} `{Calendar} `{Store}.

(** The engine's own checks in flight: those the user did not ask for. *)
Definition own_checks (inflight : gmap string probeJob) : gmap string probeJob :=
  filter (λ p, jb_Bucket p.2 ≠ UserBucket) inflight.

(** What every reachable machine satisfies. *)
Record sound (m : machine) : Prop := {
  so_wf : wf m;
  so_own : Z.of_nat (size (own_checks (mc_inflight m))) <= probeConcurrency;
  so_keys : map_Forall (λ key job, jb_Key job = key) (mc_inflight m);
}.

(** A change of the machine that keeps its shape and starts nothing. *)
Record steady (m m' : machine) : Prop := {
  sd_shape : shape m m';
  sd_inflight : mc_inflight m' ⊆ mc_inflight m;
}.

#[export] Instance steady_preorder : PreOrder steady.
Proof. split; [intros m; by split | intros a b c [] []; split; by etrans]. Qed.

Lemma own_checks_mono a b : a ⊆ b → (size (own_checks a) <= size (own_checks b))%nat.
Proof. intros Hs. apply map_subseteq_size. by apply map_filter_subseteq_mono. Qed.

Lemma steady_sound m m' : steady m m' → sound m → sound m'.
Proof.
  intros [Hs Hi] [Hw Ho Hk]. split; [by eapply shape_wf | | intros k j Hj; apply Hk; by eapply lookup_weaken].
  apply own_checks_mono in Hi. lia.
Qed.

Lemma quiet_steady m m' : quiet m m' → steady m m'.
Proof. intros Hq. split; [by apply quiet_shape | by rewrite Hq]. Qed.

Lemma core_steady m m' : same_core m m' → mc_inflight m' = mc_inflight m → steady m m'.
Proof. intros (Ho & Hg & Hc) Hi. split; [by apply shape_eq | by rewrite Hi]. Qed.

Lemma put_steady m name g g' : mc_groups m !! name = Some g → same_group g g' → steady m (put_group m name g').
Proof. intros E Hs. split; [by eapply put_group_shape | done]. Qed.

Lemma put_control_steady m name c : steady m (put_control m name c).
Proof. split; [apply put_control_shape | done]. Qed.

(** Apply a change to groups that exist. *)
Lemma fold_steady {A} (f : machine → A → machine) l m :
  (∀ m x, x ∈ l → wf m → steady m (f m x)) → wf m → steady m (foldl f m l).
Proof.
  revert m. induction l as [|x l IH]; intros m Hf Hw; [done|]. cbn [foldl].
  pose proof (Hf m x ltac:(left) Hw) as Hs. etrans; [exact Hs|]. apply IH.
  - intros m' y Hy. apply Hf. by right.
  - eapply shape_wf; [apply Hs | done].
Qed.

(** ** The handlers *)

Lemma steady_wf m m' : steady m m' → wf m → wf m'.
Proof. intros Hs. eapply shape_wf, Hs. Qed.

Lemma groupOf_lookup m key name : wf m → name ∈ groupOf m key → mc_groups m !! name = Some (group_of m name).
Proof.
  intros Hw [_ Hin]%list_elem_of_filter. destruct (wf_lookup _ _ Hw Hin) as (g & E & _).
  by rewrite (group_of_Some _ _ _ E).
Qed.

Lemma lookup_group_of m name : is_Some (mc_groups m !! name) → mc_groups m !! name = Some (group_of m name).
Proof. intros [g E]. by rewrite (group_of_Some _ _ _ E). Qed.

Lemma shape_is_Some m m' name : shape m m' → is_Some (mc_groups m !! name) → is_Some (mc_groups m' !! name).
Proof. intros Hs [g E]. destruct (shape_group _ _ _ _ Hs E) as (g' & E' & _). by exists g'. Qed.

Lemma on_groups_steady f m names : (∀ g, same_group g (f g)) →
  (∀ name, name ∈ names → is_Some (mc_groups m !! name)) → steady m (on_groups f m names).
Proof.
  intros Hf. unfold on_groups. revert m. induction names as [|name names IH]; intros m Hn; [done|]. cbn [foldl].
  assert (Hs : steady m (put_group m name (f (group_of m name)))).
  { eapply put_steady; [apply lookup_group_of, Hn; left | apply Hf]. }
  etrans; [exact Hs|]. apply IH. intros n Hin. eapply shape_is_Some; [apply Hs|]. apply Hn. by right.
Qed.

Lemma resetRecover_steady m key : wf m → steady m (resetRecover m key).
Proof.
  intros Hw. apply on_groups_steady; [by split|]. intros name Hin. rewrite (groupOf_lookup _ _ _ Hw Hin). done.
Qed.

(** Fields beside the shape and the checks in flight. *)
Lemma other_steady m m' : mc_order m' = mc_order m → mc_groups m' = mc_groups m →
  mc_controls m' = mc_controls m → mc_inflight m' = mc_inflight m → steady m m'.
Proof. intros Ho Hg Hc Hi. by apply core_steady. Qed.

Lemma facts_at_steady m key now : steady m (facts_at m key now).2.
Proof. apply quiet_steady, facts_at_quiet. Qed.

Lemma onDiagnosis_steady m job res now : steady m (onDiagnosis m job res now).
Proof.
  unfold onDiagnosis. set (m0 := {| m with mc_diagBusy := false |}).
  assert (Hs : steady m m0) by (by apply other_steady). case_if; [done|].
  pose proof (env_at_quiet m0 now) as Hq. destruct (env_at m0 now) as [env m1]. cbn [snd] in Hq.
  etrans; [exact Hs|]. etrans; [apply quiet_steady, Hq|]. by apply other_steady.
Qed.

Lemma note_exit_steady m job res now : steady m (note_exit m job res now).
Proof. unfold note_exit. destruct (jb_Exit job); [|done]. destruct (exitVerdict _ _). by apply other_steady. Qed.

Lemma note_result_steady m job res now : wf m → steady m (note_result m job res now).2.
Proof.
  intros Hw. unfold note_result. pose proof (facts_at_steady m (jb_Key job) now) as Hs.
  destruct (facts_at m (jb_Key job) now) as [f m1]. cbn [snd] in Hs. case_if; cbn [snd].
  { etrans; [exact Hs | by apply other_steady]. }
  set (m2 := prove_link _ _). assert (Hs2 : steady m m2) by (etrans; [exact Hs | by apply other_steady]).
  etrans; [exact Hs2|]. etrans; [apply resetRecover_steady; by eapply steady_wf|]. apply note_exit_steady.
Qed.

Lemma resolveConfirm_steady m name c now : is_Some (mc_groups m !! name) → steady m (resolveConfirm m name c now).
Proof.
  intros Hg. unfold resolveConfirm. pose proof (lookup_group_of _ _ Hg) as E. set (g := group_of m name) in *.
  case_if; [by eapply put_steady|]. case_if.
  { etrans; [apply quiet_steady, note_quiet|]. by eapply put_steady. }
  pose proof (facts_at_quiet m (cf_key c) now) as Hq. destruct (facts_at m (cf_key c) now) as [f m1]. cbn [snd] in Hq.
  assert (Hq2 : quiet m (put_facts m1 (cf_key c) (markDead f now))) by (etrans; [exact Hq | done]).
  etrans; [apply quiet_steady; etrans; [exact Hq2 | apply note_quiet]|].
  apply (put_steady _ _ g); [|by split]. cbn. by rewrite Hq.
Qed.

Lemma onProbeResult_steady m job res now : wf m → steady m (onProbeResult m job res now).
Proof.
  intros Hw. unfold onProbeResult. set (m0 := {| m with mc_budget := _ |}).
  assert (Hs0 : steady m m0) by (by apply other_steady). case_if.
  { etrans; [exact Hs0 | apply onDiagnosis_steady]. }
  set (m1 := {| m0 with mc_inflight := _ |}).
  assert (Hs1 : steady m m1) by (split; [by apply shape_eq | apply delete_subseteq]).
  pose proof (note_result_steady m1 job res now (steady_wf _ _ Hs1 Hw)) as Hs2.
  destruct (note_result m1 job res now) as [f m2]. cbn [snd] in Hs2.
  assert (Hs : steady m m2) by (by etrans). etrans; [exact Hs|]. etrans; [|apply quiet_steady, mark_dirty_quiet].
  destruct (awaited m2 job) as [c|] eqn:Ea; cbn zeta.
  - assert (Hg : is_Some (mc_groups m2 !! jb_Group job)).
    { unfold awaited in Ea. case_if_in Ea; [|done]. by destruct (mc_groups m2 !! jb_Group job). }
    case_if; [by apply resolveConfirm_steady|]. eapply put_steady; [by apply lookup_group_of | by split].
  - case_if; [by apply other_steady | done].
Qed.

Lemma onURLTest_steady m node ms now : wf m → steady m (onURLTest m node ms now).
Proof.
  intros Hw. unfold onURLTest. apply fold_steady; [|done]. intros m' key _ _. unfold url_test_key.
  destruct (mc_inflight m' !! key); [done|]. pose proof (facts_at_steady m' key now) as Hs.
  destruct (facts_at m' key now) as [f m1]. cbn [snd] in Hs. etrans; [exact Hs|]. case_if; by apply other_steady.
Qed.

Lemma openWindow_steady m now d : steady m (openWindow m now d).
Proof. unfold openWindow. case_if; [by apply other_steady | done]. Qed.

Lemma onTraffic_steady m nodes now : wf m → steady m (onTraffic m nodes now).
Proof.
  intros Hw. unfold onTraffic. etrans; [apply openWindow_steady|].
  apply fold_steady; [|by eapply steady_wf; [apply openWindow_steady|]]. intros m1 [node n] _ Hw1.
  apply fold_steady; [|done]. intros m2 key _ _. unfold traffic_key. pose proof (facts_at_steady m2 key now) as Hs.
  destruct (facts_at m2 key now) as [f m3]. cbn [snd] in Hs. etrans; [exact Hs|]. case_if; by apply other_steady.
Qed.

Lemma suspect_group_steady key m name : is_Some (mc_groups m !! name) → steady m (suspect_group key m name).
Proof.
  intros Hg. unfold suspect_group. case_if; [|done]. etrans; [|apply quiet_steady, mark_status_quiet].
  eapply put_steady; [by apply lookup_group_of | by split].
Qed.

Lemma onDialFailures_steady m nodes now : wf m → steady m (onDialFailures m nodes now).
Proof.
  intros Hw. unfold onDialFailures. apply fold_steady; [|done]. intros m1 [node n] _ Hw1.
  apply fold_steady; [|done]. intros m2 key _ Hw2. unfold dial_fail_key. pose proof (facts_at_steady m2 key now) as Hs.
  destruct (facts_at m2 key now) as [f m3]. cbn [snd] in Hs. destruct (note_dial_fails _ _ _ _) as [s f'].
  set (m4 := put_facts m3 key f'). assert (Hs4 : steady m2 m4) by (etrans; [exact Hs | by apply other_steady]).
  pose proof (steady_wf _ _ Hs4 Hw2) as Hw4. case_if; [|done]. etrans; [exact Hs4|].
  assert (Hin : ∀ name, name ∈ groupOf m4 key → is_Some (mc_groups m4 !! name)).
  { intros name Hname. by rewrite (groupOf_lookup _ _ _ Hw4 Hname). }
  revert Hin Hw4. generalize (groupOf m4 key). clearbody m4. clear. intros names. revert m4.
  induction names as [|name names IH]; intros m Hin Hw; [done|]. cbn [foldl].
  pose proof (suspect_group_steady key m name (Hin name ltac:(left))) as Hs. etrans; [exact Hs|].
  apply IH; [|by eapply steady_wf]. intros n Hn. eapply shape_is_Some; [apply Hs | apply Hin; by right].
Qed.

Lemma onManualPick_steady m group node now : steady m (onManualPick m group node now).
Proof.
  unfold onManualPick. destruct (mc_groups m !! group) as [g|] eqn:E; [|done].
  set (m1 := put_group m group _). assert (Hs : steady m m1) by (eapply put_steady; [exact E | by split]).
  case_if; [done|]. etrans; [exact Hs|]. etrans; [apply put_control_steady | by apply other_steady].
Qed.

Lemma expireCooldowns_steady m now : steady m (expireCooldowns m now).
Proof.
  unfold expireCooldowns. set (m1 := {| m with mc_controls := _ |}).
  assert (Hs : steady m m1).
  { split; [|done]. split; [done| |].
    - intros n. by destruct (mc_groups m !! n) eqn:E; cbn; rewrite E.
    - intros n Hc. cbn. rewrite lookup_fmap. by apply fmap_is_Some. }
  case_if; [|done]. etrans; [exact Hs | by apply other_steady].
Qed.

Lemma recall_steady m memory now : steady m (recall m memory now).2.
Proof. apply quiet_steady, recall_quiet. Qed.

Lemma move_group_steady now m name : is_Some (mc_groups m !! name) → steady m (move_group now m name).
Proof.
  intros Hg. unfold move_group. pose proof (lookup_group_of _ _ Hg) as E. set (g := group_of m name) in *.
  set (g1 := {| g with gs_maintainAt := now; gs_recoverPass := 0; gs_recoverAt := zero_time |}).
  pose proof (recallKind_quiet m g1 now) as Hq. unfold recallKind in *. destruct (recall _ _ _) as [ks m1]. cbn [snd] in Hq.
  etrans; [apply quiet_steady, Hq|]. apply (put_steady _ _ g); [by rewrite Hq | by split].
Qed.

Lemma change_network_steady m key transport now : wf m → steady m (change_network m key transport now).
Proof.
  intros Hw. unfold change_network. set (m1 := {| m with mc_envKey := key; mc_envLabel := _; mc_linkOKAt := _ |}).
  set (m2 := openWindow m1 now networkWindow).
  assert (Hs2 : steady m m2) by (etrans; [by apply (other_steady m m1) | apply openWindow_steady]).
  set (m3 := foldl (move_group now) m2 (range_map (mc_groups m2)).*1).
  assert (Hs3 : steady m2 m3).
  { unfold m3. assert (Hin : ∀ n, n ∈ (range_map (mc_groups m2)).*1 → is_Some (mc_groups m2 !! n)).
    { intros n ([n' g] & -> & Hin)%list_elem_of_fmap. apply elem_of_range_map in Hin. by exists g. }
    revert Hin. generalize (range_map (mc_groups m2)).*1. clearbody m2. clear. intros names. revert m2.
    induction names as [|n names IH]; intros m Hin; [done|]. cbn [foldl].
    pose proof (move_group_steady now m n (Hin n ltac:(left))) as Hs. etrans; [exact Hs|]. apply IH.
    intros n' Hn'. eapply shape_is_Some; [apply Hs | apply Hin; by right]. }
  pose proof (recall_steady m3 (scenarioKey (ss_id (mc_scn m3))) now) as Hs4.
  destruct (recall m3 _ now) as [ks m4]. cbn [snd] in Hs4.
  etrans; [exact Hs2|]. etrans; [exact Hs3|]. etrans; [exact Hs4|]. by apply other_steady.
Qed.

Lemma network_hint_steady m n now : wf m → steady m (network_hint m n now).
Proof.
  intros Hw. unfold network_hint. set (m1 := if negb _ || negb _ then _ else m).
  assert (Hs : steady m m1).
  { unfold m1. case_if; [|done]. etrans; [|apply openWindow_steady]. by apply other_steady. }
  clearbody m1. case_if; [done|]. etrans; [exact Hs|]. by apply change_network_steady, (steady_wf m).
Qed.

Lemma hint_power_steady m p h now : wf m → steady m (hint_power m p h now).
Proof.
  intros Hw. unfold hint_power. cbn zeta. set (m1 := {| m with mc_power := p; mc_netSeq := _ |}).
  assert (Hs : steady m m1) by (by apply other_steady). clearbody m1.
  destruct (hn_Network h) as [n|]; [|done]. etrans; [exact Hs|]. by apply network_hint_steady, (steady_wf m).
Qed.

Lemma onHints_steady m h now : wf m → steady m (onHints m h now).
Proof.
  intros Hw. unfold onHints. cbn zeta. pose proof (hint_power_steady m (power_apply (mc_power m) h) h now Hw) as Hs.
  generalize (hint_wakes (mc_power m) (power_apply (mc_power m) h) h). intros wakes. revert Hs.
  generalize (hint_power m (power_apply (mc_power m) h) h now). intros m1 Hs.
  etrans; [exact Hs|]. by apply other_steady.
Qed.

Lemma suppress_steady m : steady m (suppressProviders m).
Proof. by apply other_steady. Qed.

Lemma set_user_mode_steady mode m : steady m (set_user_mode mode m).
Proof. unfold set_user_mode. case_if; [done | by apply other_steady]. Qed.

Lemma ensureSalt_steady m : steady m (ensureSalt m).
Proof. apply core_steady; [apply ensureSalt_core|]. unfold ensureSalt. by case_if. Qed.

Lemma drain_steady traffic fails tests now m : wf m → steady m (drain_machine traffic fails tests now m).
Proof.
  intros Hw. unfold drain_machine.
  set (m1 := if (size traffic =? 0)%nat then m else _).
  assert (Hs1 : steady m m1) by (unfold m1; destruct (_ =? _)%nat; [done | by apply onTraffic_steady]).
  set (m2 := if (size fails =? 0)%nat then m1 else _).
  assert (Hs2 : steady m1 m2).
  { unfold m2. clearbody m1. destruct (size fails =? 0)%nat; [done | apply onDialFailures_steady; by eapply steady_wf]. }
  assert (Hs : steady m m2) by (by etrans). etrans; [exact Hs|].
  apply fold_steady; [|by eapply steady_wf]. intros m3 [node ms] _ Hw3. by apply onURLTest_steady.
Qed.

(** ** Rebuilding, settling and planning *)

Lemma resolve_ids_inflight m nodes now : mc_inflight (resolve_ids m nodes now).2 = mc_inflight m.
Proof. unfold resolve_ids. by destruct (Resolve _ _ _ _) as [[? ?]|]. Qed.

Lemma loadScenario_inflight m now : mc_inflight (loadScenario m now) = mc_inflight m.
Proof.
  unfold loadScenario. set (id := activeScenario _ _). set (m1 := {| m with mc_scn := _ |}).
  assert (Hi : mc_inflight (if eqs id (ss_id (mc_scn m)) then m1
    else let '(ks, m) := recall m1 (scenarioKey id) now in {| m with mc_scn := {| (mc_scn m) with ss_kind := ks |} |}) = mc_inflight m).
  { case_if; [done|]. pose proof (recall_quiet m1 (scenarioKey id) now) as Hq. destruct (recall _ _ _) as [ks m2].
    cbn [snd] in Hq. cbn. by rewrite Hq. }
  case_if; [done|]. by destruct (CompileScenario _ _).
Qed.

Lemma rebuild_group_inflight previous topo now name bd nks m :
  mc_inflight (rebuild_group previous topo now name bd nks m).2 = mc_inflight m.
Proof.
  unfold rebuild_group. set (g0 := default _ _).
  assert (Hr : ∀ g, mc_inflight (recall_changed m g (policy_id (gs_policy g0)) now).2 = mc_inflight m).
  { intros g. unfold recall_changed. case_if; [|done]. pose proof (recallKind_quiet m g now) as Hq.
    unfold recallKind in *. destruct (recall _ _ _) as [ks m1]. cbn [snd] in *. by rewrite Hq. }
  specialize (Hr (configure_group m g0 bd)). destruct (recall_changed _ _ _ _) as [g1 m1]. cbn [snd] in Hr.
  assert (Hm : ∀ nks g, mc_inflight (add_members m1 g nks).2 = mc_inflight m1).
  { clear. unfold add_members. intros nks. revert m1. induction nks as [|[node key] nks IH]; intros m g; [done|].
    cbn [foldl add_member]. destruct (countryOf _ _) as [country cache]. by rewrite IH. }
  assert (Hf : mc_inflight (fill_group m1 g1 (topo !! name) nks).2 = mc_inflight m1).
  { unfold fill_group. destruct (topo !! name) as [t|]; [|done].
    match goal with |- context [add_members m1 ?g ?l] => specialize (Hm l g); destruct (add_members m1 g l) end. done. }
  destruct (fill_group _ _ _ _) as [[nks' g2] m2]. cbn [snd] in *. cbn.
  by destruct (mc_controls m2 !! name); cbn; rewrite Hf, Hr.
Qed.

Lemma rebuild_inflight m now : mc_inflight (rebuild m now) = mc_inflight m.
Proof.
  unfold rebuild. set (m1 := load_library (ensureSalt m)).
  assert (Hi1 : mc_inflight m1 = mc_inflight m) by (unfold m1, ensureSalt; by case_if).
  pose proof (loadScenario_inflight m1 now) as Hi2. set (m2 := loadScenario m1 now) in *.
  assert (Hi3 : mc_inflight (applyScenario m2 (layer_bound m2)).2 = mc_inflight m2).
  { unfold applyScenario. by destruct (ss_c (mc_scn m2)). }
  destruct (applyScenario m2 (layer_bound m2)) as [bound m3]. cbn [snd] in Hi3.
  set (topo := topology_groups _). set (names := sorted_keys bound).
  pose proof (resolve_ids_inflight m3 (bound_nodes topo names) now) as Hi4.
  destruct (resolve_ids m3 _ now) as [keys m4]. cbn [snd] in Hi4. cbn.
  assert (Hr : ∀ previous nks m, mc_inflight (rebuild_groups previous topo now bound names nks m) = mc_inflight m).
  { intros previous. generalize names. intros l. induction l as [|n l IH]; intros nks m0; [done|]. cbn [rebuild_groups].
    destruct (bound !! n) as [bd|]; [|apply IH]. pose proof (rebuild_group_inflight previous topo now n bd nks m0) as Hg.
    destruct (rebuild_group _ _ _ _ _ _ _) as [nks' m5]. by rewrite IH. }
  rewrite Hr. cbn. by rewrite Hi4, Hi3, Hi2.
Qed.

(** A change that keeps a sound machine sound and starts nothing. *)
Definition kept (m m' : machine) : Prop := sound m → sound m' ∧ mc_inflight m' ⊆ mc_inflight m.

#[export] Instance kept_preorder : PreOrder kept.
Proof.
  split; [intros m Hs; done|]. intros a b c Hab Hbc Ha. destruct (Hab Ha) as [Hb Hi].
  destruct (Hbc Hb) as [Hc Hi']. split; [done | by etrans].
Qed.

Lemma steady_kept m m' : steady m m' → kept m m'.
Proof. intros Hs Hm. split; [by eapply steady_sound | apply Hs]. Qed.

Lemma steady_wf_kept m m' : (wf m → steady m m') → kept m m'.
Proof. intros Hs Hm. apply steady_kept; [apply Hs, Hm | done]. Qed.

Lemma rebuild_kept m now : kept m (rebuild m now).
Proof.
  intros [Hw Ho Hk]. rewrite rebuild_inflight. split; [|done].
  split; [by apply rebuild_wf_from, wf_names | by rewrite rebuild_inflight..].
Qed.

Lemma applyMode_steady m now : steady m (applyMode m now).
Proof. unfold applyMode. case_if; [done|]. case_if; by apply other_steady. Qed.

Lemma split_state_steady m g now : steady m (splitState m g now).2.
Proof.
  unfold splitState. destruct (gs_policy g) as [lp|]; [|done]. destruct (pl_DirectSplit (lp_Base lp)); [|done].
  repeat (case_if; [done|]). pose proof (netSubject_quiet m (kd_kind (gs_kind g)) (lp_Base lp) now) as Hq.
  destruct (netSubject _ _ _ _) as [n m1]. by apply quiet_steady.
Qed.

Lemma updateSplit_steady m now : steady m (updateSplit m now).
Proof.
  unfold updateSplit. assert (Hs : steady m (split_target m now (mc_order m)).2).
  { generalize (mc_order m). intros names. revert m. induction names as [|n names IH]; intros m; [done|]. cbn [split_target].
    pose proof (split_state_steady m (group_of m n) now) as Hs. destruct (splitState _ _ _) as [st m1]. cbn [snd] in Hs.
    case_if; [done|]. by etrans. }
  destruct (split_target m now (mc_order m)) as [target m1]. cbn [snd] in Hs. case_if; [done|].
  etrans; [exact Hs|]. case_if; by apply other_steady.
Qed.

Lemma settle_groups_steady m now : wf m → steady m (settle_groups m now).
Proof.
  intros Hw. unfold settle_groups.
  destruct (settle_list (mc_order m) m now (wf_nodup _ Hw) (wf_names _ Hw)) as (css & _ & _ & Hs & Hi & _).
  split; [exact Hs | by rewrite Hi].
Qed.

Lemma settle_scenario_kept m now : kept m (settle_scenario m now).
Proof.
  unfold settle_scenario. set (m1 := match ss_c (mc_scn m) with Some _ => _ | None => m end).
  assert (Hm1 : steady m m1).
  { unfold m1. destruct (ss_c (mc_scn m)) as [c|]; [|done].
    pose proof (classifyKind_quiet m (ss_kind (mc_scn m)) (cs_net c) (scenarioKey (ss_id (mc_scn m))) EmptyString now) as Hq.
    destruct (classifyKind _ _ _ _ _ _) as [[b ks] m2]. cbn [snd] in Hq.
    etrans; [apply quiet_steady, Hq | by apply other_steady]. }
  clearbody m1. apply steady_kept in Hm1. case_if; [done|]. etrans; [exact Hm1 | apply rebuild_kept].
Qed.

Lemma settle_kept m now : kept m (settle m now).
Proof.
  unfold settle. etrans; [apply settle_scenario_kept|]. etrans; [apply steady_kept, applyMode_steady|].
  etrans; [apply steady_wf_kept, settle_groups_steady | apply steady_kept, updateSplit_steady].
Qed.

(** ** Planning and checking *)

Lemma size_added {A} (l : list (string * A)) (m : gmap string A) :
  (size (list_to_map l ∪ m) <= length l + size m)%nat.
Proof.
  induction l as [|[k x] l IH]; cbn [list_to_map foldr length uncurry]; [by rewrite (left_id_L ∅ (∪))|].
  rewrite <- insert_union_l, map_size_insert. fold (list_to_map (M := gmap string A) l). case_match; cbn; lia.
Qed.

(** The checks of a machine have been started. *)
Definition started (jobs : list probeJob) (m : machine) : Prop := map_Forall (λ _ job, job ∈ jobs) (mc_inflight m).

Lemma started_mono jobs jobs' m m' : jobs ⊆ jobs' → mc_inflight m' ⊆ mc_inflight m → started jobs m → started jobs' m'.
Proof. intros Hj Hi Hs k j Ek. apply Hj, (Hs k). by eapply lookup_weaken. Qed.

Lemma plan_sound m now jobs m' : sound m → plan m now = Some (jobs, m') →
  sound m' ∧ ∀ before, started before m → started (before ++ jobs) m'.
Proof.
  intros [Hw Ho Hk] Hplan. destruct (plan_bought _ _ _ _ (wf_names _ Hw) Hplan) as (d & free & [Hp Hjs] & _).
  destruct Hjs as (js & Hj & Hnd & Hok & _ & Hlen & Hi & _). cbn [pn_m pn_jobs] in *.
  assert (Hcase : ∀ k j, mc_inflight m' !! k = Some j → (j ∈ js ∧ jb_Key j = k) ∨ mc_inflight m !! k = Some j).
  { intros k j. rewrite Hi. intros [Hl|[_ Hl]]%lookup_union_Some_raw; [left | by right].
    apply elem_of_list_to_map_2, list_elem_of_fmap in Hl as (j' & [= -> ->] & Hin). done. }
  split; [split|].
  - by eapply shape_wf; [apply planned_shape|].
  - destruct js as [|j js]; [by rewrite Hi; cbn; rewrite (left_id_L ∅ (∪))|].
    pose proof (map_size_filter (λ p : string * probeJob, jb_Bucket p.2 ≠ UserBucket) (mc_inflight m')) as Hf.
    pose proof (size_added ((λ j, (jb_Key j, j)) <$> j :: js) (mc_inflight m)) as Hsz.
    rewrite <- Hi, length_fmap in Hsz. unfold own_checks. cbn [length] in *. lia.
  - intros k j [[_ Hkey]|Hl]%Hcase; [done | by apply Hk].
  - intros before Hb k j [[Hin _]|Hl]%Hcase; apply elem_of_app; [right | left; by apply (Hb k)].
    rewrite Hj. apply elem_of_app. by right.
Qed.

(** The checks of the user are in flight but not the engine's own. *)
Lemma start_user_sound m job : sound m → jb_Bucket job = UserBucket → mc_inflight m !! jb_Key job = None →
  sound {| m with mc_inflight := <[jb_Key job := job]> (mc_inflight m);
                  mc_lastProbe := mc_lastProbe m |}.
Proof.
  intros [Hw Ho Hk] Hu Hf. split; cbn.
  - eapply shape_wf; [by apply (shape_eq m) | done].
  - unfold own_checks. rewrite map_filter_insert_False by (cbn; rewrite Hu; by intros []). by rewrite delete_id.
  - by apply map_Forall_insert_2.
Qed.

Lemma other_kept m m' : mc_order m' = mc_order m → mc_groups m' = mc_groups m →
  mc_controls m' = mc_controls m → mc_inflight m' = mc_inflight m → kept m m'.
Proof. intros. by apply steady_kept, other_steady. Qed.

Lemma check_members_sound m g now members jobs m' : sound m → check_members m g now members = Some (jobs, m') →
  sound m' ∧ ∀ before, started before m → started (before ++ jobs) m'.
Proof.
  revert m jobs. induction members as [|member members IH]; intros m jobs Hm; cbn [check_members].
  { intros [= <- <-]. split; [done|]. intros before. by rewrite app_nil_r. }
  case_if; [by apply IH|]. apply orb_false_iff in E as [_ Hb]. apply bool_decide_eq_false, eq_None_not_Some in Hb.
  pose proof (spend_at_quiet m UserBucket (level m) now) as Hq. destruct (spend_at m _ _ _) as [ok m1]. cbn [snd] in Hq.
  pose proof (steady_kept _ _ (quiet_steady _ _ Hq) Hm) as [Hm1 Hi1]. destruct ok; cbn [negb].
  2: { intros [= <- <-]. split; [done|]. intros before. rewrite app_nil_r. by apply started_mono. }
  destruct (gs_policy g) as [lp|]; cbn [mbind option_bind]; [|done]. set (job0 := new_job _ _ _ _ _).
  destruct (attachExtras_frame m1 job0 (active g lp) (level m1) now) as [Hq2 Hj].
  destruct (attachExtras m1 job0 _ _ _) as [job m2]. cbn [fst snd] in *.
  pose proof (steady_kept _ _ (quiet_steady _ _ Hq2) Hm1) as [Hm2 Hi2].
  assert (Hkey : jb_Key job = mb_Key member) by (by rewrite Hj). rewrite <- Hkey.
  assert (Hfree : mc_inflight m2 !! jb_Key job = None) by (rewrite Hq2, Hq, Hkey; exact Hb).
  set (m3 := {| m2 with mc_inflight := <[jb_Key job := job]> (mc_inflight m2); mc_lastProbe := _ |}).
  assert (Hm3 : sound m3).
  { apply (other_kept {| m2 with mc_inflight := <[jb_Key job := job]> (mc_inflight m2); mc_lastProbe := mc_lastProbe m2 |});
      [done..|]. apply start_user_sound; [done | by rewrite Hj | done]. }
  destruct (check_members m3 g now members) as [[js m4]|] eqn:Er; cbn [mbind option_bind]; [|done].
  intros [= <- <-]. destruct (IH m3 js Hm3 Er) as [Hm4 Hst]. split; [done|]. intros before Hbefore.
  rewrite (assoc_L (++) before [job] js : before ++ job :: js = (before ++ [job]) ++ js). apply Hst.
  apply map_Forall_insert_2; [set_solver|]. intros k j Ek. apply elem_of_app. left.
  apply (Hbefore k). rewrite Hq2, Hq in Ek. exact Ek.
Qed.

Lemma act_change_steady m group g now : mc_groups m !! group = Some g → steady m (act_change m group g now).
Proof.
  intros E. unfold act_change. set (c := if is_mode _ _ then _ else _).
  etrans; [apply (put_control_steady m group c)|]. etrans; [|apply quiet_steady, note_quiet].
  by apply (put_steady _ _ g).
Qed.

Lemma act_machine_sound m group g action now jobs m' : mc_groups m !! group = Some g → sound m →
  act_machine m group g action now = Some (Ok (jobs, m')) →
  sound m' ∧ ∀ before, started before m → started (before ++ jobs) m'.
Proof.
  intros E Hm. assert (Hkeep : ∀ m1, steady m m1 → sound m1 ∧ ∀ before, started before m → started (before ++ []) m1).
  { intros m1 Hs. destruct (steady_kept _ _ Hs Hm) as [Hm1 Hi]. split; [done|]. intros before. rewrite app_nil_r.
    by apply started_mono. }
  assert (Hctl : ∀ c kind node why, steady m (note (put_control m group c) now group kind EmptyString node why)).
  { intros c kind node why. etrans; [apply put_control_steady | apply quiet_steady, note_quiet]. }
  destruct action as [|node here| | | |action]; cbn [act_machine].
  - intros [= <- <-]. by apply Hkeep, act_change_steady.
  - destruct (keyOf m group node) as [key|]; [|done]. intros [= <- <-]. apply Hkeep, Hctl.
  - intros [= <- <-]. apply Hkeep, Hctl.
  - intros [= <- <-]. apply Hkeep, Hctl.
  - destruct (check_members m g now (gs_members g)) as [[js m1]|] eqn:Ec; cbn [mbind option_bind]; [|done].
    intros [= <- <-]. by eapply check_members_sound.
  - done.
Qed.

(** ** The engine *)

(** What every engine reached satisfies. *)
Record engine_ok (e : engine) : Prop := {
  ek_sound : sound (en_m e);
  ek_started : started (en_probes e) (en_m e);
}.

(** A change of the machine alone. *)
Lemma ok_kept e e' : kept (en_m e) (en_m e') → en_probes e ⊆ en_probes e' → engine_ok e → engine_ok e'.
Proof.
  intros Hk Hp [Hs Hst]. destruct (Hk Hs) as [Hs' Hi]. split; [done|]. by eapply started_mono.
Qed.

Lemma saveLocked_kept e now : kept (en_m e) (en_m (saveLocked e now)) ∧ en_probes (saveLocked e now) = en_probes e.
Proof.
  unfold saveLocked. destruct (negb _); [done|]. cbn [en_m en_probes]. split; [|done].
  set (m1 := if Bool.eqb _ _ then _ else _).
  assert (Hk1 : kept (en_m e) m1) by (unfold m1; case_if; [done | by apply other_kept]).
  destruct (is_none _); [|done]. etrans; [exact Hk1 | by apply other_kept].
Qed.

Lemma saveLocked_ok e now : engine_ok e → engine_ok (saveLocked e now).
Proof. destruct (saveLocked_kept e now) as [Hk Hp]. apply ok_kept; [done | by rewrite Hp]. Qed.

Lemma status_reads_steady m now : steady m (status_reads m now).
Proof.
  unfold status_reads. generalize (mc_order m). intros names. revert m.
  induction names as [|name names IH]; intros m; [done|]. cbn [foldl].
  destruct (is_none _); [apply IH|]. etrans; [apply split_state_steady | apply IH].
Qed.

Lemma publish_ok e now : engine_ok e → engine_ok (publish e now).
Proof.
  intros He. unfold publish. case_if; [|done]. revert He. apply ok_kept; [|done]. cbn [en_m].
  etrans; [|apply steady_kept, status_reads_steady]. by apply other_kept.
Qed.

Lemma arm_ok e due : engine_ok e → engine_ok (arm e due).
Proof. by apply ok_kept. Qed.

Lemma store_split_ok e : engine_ok e → engine_ok (store_split e).
Proof. by apply ok_kept. Qed.

Lemma stepLocked_ok e now e' : engine_ok e → stepLocked e now = Some e' → engine_ok e'.
Proof.
  intros He. unfold stepLocked. destruct (en_closed e); [by intros [= <-]|].
  assert (Hk : kept (en_m e) (settle (expireCooldowns (en_m e) now) now)).
  { etrans; [apply steady_kept, expireCooldowns_steady | apply settle_kept]. }
  destruct (plan _ now) as [[jobs m1]|] eqn:Ep; cbn [mbind option_bind]; [|done].
  set (e1 := {| e with en_m := m1; en_closed := false; en_probes := en_probes e ++ jobs |}).
  assert (He1 : engine_ok e1).
  { destruct (Hk (ek_sound _ He)) as [Hs Hi]. destruct (plan_sound _ _ _ _ Hs Ep) as [Hs1 Hst].
    split; [done|]. apply Hst. eapply started_mono; [reflexivity | exact Hi | apply He]. }
  assert (He2 : engine_ok (save_due (publish e1 now) now)).
  { unfold save_due. case_if; [apply saveLocked_ok|]; by apply publish_ok. }
  destruct (nextDue _ _) as [due|]; cbn [mbind option_bind]; [|done].
  intros [= <-]. by apply arm_ok, store_split_ok.
Qed.

Lemma with_machine_ok e run now e' : kept (en_m e) (run (en_m e)) → engine_ok e →
  with_machine e run now = Some e' → engine_ok e'.
Proof.
  intros Hk He. unfold with_machine. destruct (en_closed e); [by intros [= <-]|].
  apply stepLocked_ok. revert He. by apply ok_kept.
Qed.

Lemma Act_ok e group action now r : engine_ok e → Act e group action now = Some r → engine_ok r.1.
Proof.
  intros He. unfold Act. destruct (mc_groups (en_m e) !! group) as [g|] eqn:E; [|by intros [= <-]].
  destruct (act_machine _ _ _ _ _) as [[[jobs m]|err]|] eqn:Ea; cbn [mbind option_bind]; [ | by intros [= <-] | done].
  set (e1 := {| e with en_m := mark_dirty (suppressProviders m); en_probes := en_probes e ++ jobs |}).
  destruct (act_machine_sound _ _ _ _ _ _ _ E (ek_sound _ He) Ea) as [Hs Hst].
  assert (Hk : kept m (en_m e1)) by (by apply other_kept). destruct (Hk Hs) as [Hs1 Hi1].
  assert (He1 : engine_ok e1) by (split; [done|]; by apply Hst, He).
  destruct (stepLocked e1 now) as [e2|] eqn:Es; cbn [mbind option_bind]; [|done]. intros [= <-]. cbn [fst].
  by eapply stepLocked_ok.
Qed.

Lemma SetHints_ok e h now e' : engine_ok e → SetHints e h now = Some e' → engine_ok e'.
Proof.
  intros He. unfold SetHints. destruct (en_closed e); [by intros [= <-]|].
  set (e1 := {| e with en_m := onHints (ensureSalt (en_m e)) h now; en_closed := false |}).
  assert (He1 : engine_ok e1).
  { revert He. apply ok_kept; [|done]. cbn [en_m e1]. etrans; [apply steady_kept, ensureSalt_steady|].
    apply steady_wf_kept, onHints_steady. }
  destruct (hn_Screen h) as [[]|]; [by apply stepLocked_ok | by apply stepLocked_ok, saveLocked_ok | by apply stepLocked_ok].
Qed.

Lemma SetRunning_ok e running now e' : engine_ok e → SetRunning e running now = Some e' → engine_ok e'.
Proof.
  intros He. unfold SetRunning. destruct (en_closed e); [by intros [= <-]|]. case_if; [by apply stepLocked_ok|].
  set (e1 := {| e with en_m := mark_status {| (en_m e) with mc_running := running |}; en_closed := false |}).
  assert (He1 : engine_ok e1) by (revert He; apply ok_kept; [by apply other_kept | done]).
  destruct running; [by apply stepLocked_ok | by apply stepLocked_ok, saveLocked_ok].
Qed.

Lemma feed_ok e i now e' : engine_ok e → feed e i now = Some e' → engine_ok e'.
Proof.
  intros He. destruct i as [topo user|user|mode|h|running|group node|job res|tr fl ts|tr fl ts|group action| |]; cbn [feed].
  - apply with_machine_ok; [|done]. etrans; [|apply rebuild_kept]. by apply other_kept.
  - apply with_machine_ok; [|done]. etrans; [|apply rebuild_kept]. by apply other_kept.
  - apply with_machine_ok; [apply steady_kept, set_user_mode_steady | done].
  - by apply SetHints_ok.
  - by apply SetRunning_ok.
  - apply with_machine_ok; [apply steady_kept, onManualPick_steady | done].
  - apply stepLocked_ok. revert He. apply ok_kept; [apply steady_wf_kept, onProbeResult_steady | done].
  - apply with_machine_ok; [apply steady_wf_kept, drain_steady | done].
  - unfold onTimer. destruct (en_closed e) eqn:Ec; [by intros [= <-]|].
    apply with_machine_ok; [apply steady_wf_kept, drain_steady|]. revert He. by apply ok_kept.
  - destruct (Act e group action now) as [r|] eqn:Ea; cbn [mbind option_bind]; [|done]. intros [= <-]. by eapply Act_ok.
  - intros [= <-]. by apply saveLocked_ok.
  - intros [= <-]. unfold Close. case_if; [done|]. apply saveLocked_ok. revert He. by apply ok_kept.
Qed.

Lemma NewEngine_ok snap : engine_ok (NewEngine snap).
Proof.
  assert (Hg : mc_groups (en_m (NewEngine snap)) = ∅ ∧ mc_order (en_m (NewEngine snap)) = [] ∧
    mc_inflight (en_m (NewEngine snap)) = ∅).
  { cbn. unfold load_snapshot. destruct snap as [s|]; [|done]. by case_if. }
  destruct Hg as (Hg & Ho & Hi). split; [split; [split|..]|]; rewrite ?Ho, ?Hg, ?Hi.
  - constructor.
  - intros name. rewrite lookup_empty, elem_of_nil. split; [done | by intros []].
  - intros name g. by rewrite lookup_empty.
  - by intros name ?%elem_of_nil.
  - done.
  - apply map_Forall_empty.
  - unfold started. rewrite Hi. apply map_Forall_empty.
Qed.

(** C4: every engine a run reaches is sound, whatever the core, the host and
    the user fed it, at whatever times, from whatever snapshot: the order
    lists the groups once each, every group's index and members agree and it
    has a control; at most two checks the user did not ask for are in flight;
    every check in flight is filed under its own key and was started, so none
    waits for a result that no goroutine brings. *)
Theorem engine_invariant e : reachable e →
  wf (en_m e) ∧ Z.of_nat (size (own_checks (mc_inflight (en_m e)))) <= probeConcurrency ∧
  map_Forall (λ key job, jb_Key job = key ∧ job ∈ en_probes e) (mc_inflight (en_m e)).
Proof.
  intros Hr. assert (He : engine_ok e).
  { induction Hr as [snap|e i now e' _ IH _ Hf]; [apply NewEngine_ok | by eapply feed_ok]. }
  destruct He as [[Hw Ho Hk] Hst]. split_and!; [done..|]. intros key job E. split; [by apply Hk | by apply (Hst key)].
Qed.
End facts.
