(* ===== verification/Status.v ===== *)
(** * What the host reads of the engine: core/rcx/status.go and engine.go

    The status pushed to the interface, the explanation of a group's
    decision, the list of profiles, and the routes a config is built with. *)

From S2P Require Import Prelude GoText Cond CondSyntax Evidence Journal Identity Profile Policy Library.
From S2P Require Import Decide Budget Route Scenario Layers Machine Rebuild Settle Events Planner Engine.

(** ** The records *)

Record GroupNetwork := { gn_Kind : string; gn_Next : string; gn_Paused : bool; gn_Kinds : list string }.

Record RouteStatus := { rs_Name : string; rs_To : string; rs_Problem : option Reason }.

Record ScenarioStatus := {
  st_ID : string;
  st_Title : string;
  st_Source : string;
  st_Problem : option Reason;
  st_Network : option GroupNetwork;
  st_Mode : string;
  st_Manual : bool;
  st_HoldsMode : bool;
  st_Groups : gmap string string;
  st_Routes : list RouteStatus;
}.

Record CurrentNode := { cu_Name : string; cu_LatencyMs : Z; cu_Health : Health; cu_Since : time; cu_Exit : string }.
Record ExcludedNode := { xn_Name : string; xn_Until : time }.

Record GroupStatus := {
  gr_Name : string;
  gr_Source : string;
  gr_Profile : string;
  gr_ProfileTitle : string;
  gr_Level : string;
  gr_Offered : list string;
  gr_Binding : Binding;
  gr_Program : string;
  gr_Fixed : string;
  gr_Route : bool;
  gr_Idle : bool;
  gr_Control : Control;
  gr_Now : string;
  gr_Via : list string;
  gr_Decision : Decision;
  gr_Problem : option Reason;
  gr_Members : Z;
  gr_Candidates : Z;
  gr_Excluded : list ExcludedNode;
  gr_SwitchesHour : Z;
  gr_MaxPerHour : Z;
  gr_Improve : bool;
  gr_Health : list (Health * Z);  (** a map from health, in no order *)
  gr_Current : option CurrentNode;
  gr_Network : option GroupNetwork;
  gr_DirectSplit : string;
}.

Record EnergyStatus := {
  es_Level : string;
  es_Day : string;
  es_Requests : Z;
  es_Bytes : Z;
  es_CapBytes : Z;
  es_ByBucket : gmap string Z;
  es_HourlyLimits : gmap string Z;
}.

Record Status := {
  sta_Running : bool;
  sta_Mode : Mode;
  sta_Network : string;
  sta_Groups : list GroupStatus;
  sta_Energy : EnergyStatus;
  sta_Problems : list Reason;
  sta_Split : string;
  sta_Library : Z;
  sta_Scenario : option ScenarioStatus;
  sta_TunnelMode : string;
  sta_Reload : bool;
}.

Record Explanation := { xp_Group : string; xp_Profile : string; xp_Decision : Decision; xp_Freshness : Z; xp_At : time }.

(** ** Routes of the scenario *)

(** What of the routes goes into the config, as JSON and by SHA-256 to a key
    of sixteen hexadecimal digits. *)
Class RoutesDigest := { routes_digest : list (string * list string * string) → string }.

Section routes.
Context `{RoutesDigest}.

Definition route_shape (r : Route) : string * list string * string := (rt_Name r, rt_Match r, pg_To (rt_Program r)).

Definition routesKey (routes : list Route) : string :=
  match routes with [] => EmptyString | _ => routes_digest (route_shape <$> routes) end.

Definition scenario_key (c : option compiledScenario) : string :=
  match c with Some c => routesKey (cs_routes c) | None => EmptyString end.

Context `{Unicode} `{Regexp} `{RangeOrder} `{Yaml}.

Definition routeStatus (m : machine) (c : compiledScenario) : list RouteStatus :=
  let applied := tp_Routes (mc_topology m) in
  (λ route, {| rs_Name := rt_Name route; rs_To := pg_To (rt_Program route);
               rs_Problem := if eqs (ar_Key applied) (routesKey (cs_routes c)) then ar_Problems applied !! rt_Name route else None |})
  <$> cs_routes c.

Definition reloadWanted (m : machine) : bool :=
  let applied := tp_Routes (mc_topology m) in
  if negb (ar_Applied applied) then false else negb (eqs (scenario_key (ss_c (mc_scn m))) (ar_Key applied)).
End routes.

(** [ScenarioRoutes]: what the host builds a config with. *)
Definition ScenarioRoutes `{RoutesDigest} `{Unicode} `{Regexp} `{Url} `{PublicSuffix} `{IpText} `{RangeOrder} `{Netip} `{Yaml} `{Embedded}
    `{ErrorText} (sub : SubscriptionLayer) (user : UserLayer) : list Route * string :=
  let id := activeScenario sub user in
  if empty id then ([], EmptyString)
  else match CompileScenario (NewLibrary sub user) id with
       | inl _ => ([], EmptyString)
       | inr c => (cs_routes c, routesKey (cs_routes c))
       end.

(** ** The status *)

(** The name of the level's rank: no two levels share one. *)
Definition rank_name (rank : Z) : string :=
  default "balanced"%string (fst <$> List.find (λ l, el_rank l.2 =? rank) (map_to_list energyLevels)).

Definition healths : list Health := [AliveHealth; StaleHealth; UnknownHealth; DeadHealth].

Definition rows_of_health (rows : list Ranked) (h : Health) : list Ranked := filter (λ row, rw_Health row = h) rows.

(** The map [Health]: an entry for each health of a row. *)
Definition health_counts (rows : list Ranked) : list (Health * Z) :=
  omap (λ h, match rows_of_health rows h with [] => None | l => Some (h, Z.of_nat (length l)) end) healths.

(** The last row with the name of the current server. *)
Definition current_row (rows : list Ranked) (now : string) : option Ranked := last (filter (λ row, rw_Name row = now) rows).

Definition no_ranking (d : Decision) : Decision := {| d with dc_Ranking := [] |}.

Section status.
Context `{RoutesDigest} `{Unicode} `{Regexp} `{RangeOrder} `{Yaml} `{Calendar}.

Definition levelName (m : machine) : string := rank_name (el_rank (level m)).

Definition excluded_nodes (m : machine) (g : groupState) (ctl : controlRecord) : list ExcludedNode :=
  sorted_keys (cr_Excluded ctl) ≫= λ key,
    (λ name, {| xn_Name := name; xn_Until := default zero_time (cr_Excluded ctl !! key) |}) <$>
    filter (λ name, is_Some (gs_byName g !! name)) (default [] (mc_keyNames m !! key)).

(** What the status says of a group without a policy. *)
Definition bare_status (m : machine) (name : string) (now : time) : GroupStatus :=
  let g := group_of m name in
  let ctl := control_of m name in
  let rows := dc_Ranking (gs_decision g) in
  {| gr_Name := name; gr_Source := gs_source g; gr_Profile := gs_profileID g; gr_ProfileTitle := ""; gr_Level := "";
     gr_Offered := gs_offered g; gr_Binding := gs_binding g; gr_Program := gs_program g; gr_Fixed := "";
     gr_Route := mem_string name (ar_Groups (tp_Routes (mc_topology m))); gr_Idle := idle m (gs_name g);
     gr_Control := cr_Control ctl; gr_Now := gs_now g; gr_Via := via g (gs_now g); gr_Decision := no_ranking (gs_decision g);
     gr_Problem := gs_problem g; gr_Members := Z.of_nat (length (gs_members g));
     gr_Candidates := Z.of_nat (length (filter (λ row, is_none (rw_Excluded row) = true) rows));
     gr_Excluded := excluded_nodes m g ctl; gr_SwitchesHour := switchesSince ctl (time_add now (- Hour));
     gr_MaxPerHour := 0; gr_Improve := false; gr_Health := health_counts rows;
     gr_Current := (λ row, {| cu_Name := rw_Name row; cu_LatencyMs := rw_LatencyMs row; cu_Health := rw_Health row;
                              cu_Since := cr_LastSwitch ctl; cu_Exit := rw_Exit row |}) <$> current_row rows (gs_now g);
     gr_Network := None; gr_DirectSplit := "" |}.

Definition group_network (g : groupState) (lp : LayeredPolicy) : option GroupNetwork :=
  match pl_Kinds (lp_Base lp) with
  | [] => None
  | kinds => Some {| gn_Kind := kd_kind (gs_kind g); gn_Next := kd_next (gs_kind g); gn_Paused := paused g;
                     gn_Kinds := kr_Kind <$> kinds |}
  end.

(** A group's entry, and the machine after the direct split was read. *)
Definition group_status (m : machine) (name : string) (now : time) : GroupStatus * machine :=
  let g := group_of m name in
  let gs := bare_status m name now in
  match gs_policy g with
  | None => (gs, m)
  | Some lp =>
      let policy := active g lp in
      let '(title, lvl) := match LibInfo (fl_profiles (mc_library m)) (gs_profileID g) with
                           | Some info => (pi_Title info, or_string (pi_Level info) (pl_Level (lp_Base lp)))
                           | None => (EmptyString, pl_Level (lp_Base lp))
                           end in
      let '(split, m) := splitState m g now in
      ({| gs with gr_ProfileTitle := title; gr_Level := lvl; gr_MaxPerHour := pl_MaxPerHour policy; gr_Improve := pl_Improve policy;
                  gr_Fixed := pl_Fixed policy; gr_DirectSplit := split; gr_Network := group_network g lp |}, m)
  end.

Fixpoint group_statuses (m : machine) (names : list string) (now : time) : list GroupStatus * machine :=
  match names with
  | [] => ([], m)
  | name :: names =>
      let '(gs, m) := group_status m name now in
      let '(rest, m) := group_statuses m names now in
      (gs :: rest, m)
  end.

Definition energy_status (m : machine) (now : time) : EnergyStatus :=
  let lvl := level m in
  let today := date_only now in
  let day := bg_day (mc_budget m) in
  let day := if eqs (ey_Day day) today then day else {| ey_Day := today; ey_Requests := 0; ey_Bytes := 0; ey_ByBucket := ∅ |} in
  {| es_Level := levelName m; es_Day := ey_Day day; es_Requests := ey_Requests day; es_Bytes := ey_Bytes day;
     es_CapBytes := dailyCapBytes; es_ByBucket := ey_ByBucket day;
     es_HourlyLimits := list_to_map
       [(bucket_name MaintainBucket, el_maintain lvl); (bucket_name DiscoverBucket, el_discover lvl);
        (bucket_name RecoverBucket, el_recover lvl); (bucket_name NetworkBucket, el_network lvl)] |}.

(** The scenario's entry, and what is wrong with the mode it runs in. *)
Definition scenario_status (m : machine) : option ScenarioStatus * list Reason :=
  let scn := mc_scn m in
  if empty (ss_id scn) then (None, [])
  else
    let '(title, source) := match fl_scenarios (mc_library m) !! CanonicalID (ss_id scn) with
                            | Some entry => (pi_Title (se_info entry), pi_Source (se_info entry))
                            | None => (ss_id scn, EmptyString)
                            end in
    let st := {| st_ID := ss_id scn; st_Title := title; st_Source := source; st_Problem := ss_problem scn; st_Network := None;
                 st_Mode := ""; st_Manual := ul_ManualMode (mc_user m); st_HoldsMode := false; st_Groups := ss_groups scn;
                 st_Routes := [] |} in
    match ss_c scn with
    | None => (Some st, [])
    | Some c =>
        (Some {| st with
           st_Mode := modeFor c (kd_kind (ss_kind scn)); st_HoldsMode := holdsMode c; st_Routes := routeStatus m c;
           st_Network := match pl_Kinds (cs_net c) with
                         | [] => None
                         | kinds => Some {| gn_Kind := kd_kind (ss_kind scn); gn_Next := kd_next (ss_kind scn); gn_Paused := false;
                                            gn_Kinds := kr_Kind <$> kinds |}
                         end |},
         match cs_routes c with
         | [] => []
         | _ => if eqs (tunnelMode m) "rule" then [] else [reason "route.not-rule-mode" [AS "mode" (tunnelMode m)]]
         end)
    end.

(** [machine.status]. *)
Definition status (m : machine) (now : time) : Status * machine :=
  let md := mode m now in
  let '(scenario, problems) := scenario_status m in
  let '(groups, m') := group_statuses m (mc_order m) now in
  ({| sta_Running := mc_running m;
      sta_Mode := if bool_decide (md = ActiveMode) || bool_decide (md = IdleMode) then NormalMode else md;
      sta_Network := mc_envLabel m; sta_Groups := groups; sta_Energy := energy_status m now; sta_Problems := problems;
      sta_Split := mc_split m; sta_Library := mc_libraryGen m; sta_Scenario := scenario; sta_TunnelMode := tunnelMode m;
      sta_Reload := reloadWanted m |}, m').
End status.

(** ** The engine's answers *)

Inductive queryError := UnknownGroup.

Section queries.
Context `{RoutesDigest} `{Unicode} `{Regexp} `{RangeOrder} `{Yaml} `{Calendar} `{Store}.

(** [statusLocked]: a store that failed is a problem of its own. *)
Definition statusLocked (e : engine) (now : time) : Status * machine :=
  let '(s, m) := status (en_m e) now in
  ({| s with sta_Problems := sta_Problems s ++
       match en_storeOK e with Some err => [reason "store.failed" [AS "error" err]] | None => [] end |}, m).

Definition engine_Status (e : engine) (now : time) : Status * engine :=
  let '(s, m) := statusLocked e now in (s, {| e with en_m := m |}).

(** [Explain]: the decision afresh when the group can decide. *)
Definition Explain (e : engine) (group : string) (now : time) : result queryError Explanation * engine :=
  match mc_groups (en_m e) !! group with
  | None => (Err UnknownGroup, e)
  | Some g =>
      let '(d, m) := match gs_policy g, gs_members g with
                     | Some lp, _ :: _ => decideGroup (en_m e) g lp now
                     | _, _ => (gs_decision g, en_m e)
                     end in
      let '(env, m) := env_at m now in
      (Ok {| xp_Group := group; xp_Profile := gs_profileID g; xp_Decision := d;
             xp_Freshness := Z.quot (Freshness env now) Second; xp_At := now |}, {| e with en_m := m |})
  end.

(** [Targets]: what the scenario may name, and the members it holds groups
    on. *)
Definition Targets (e : engine) (groups : list string) (main : string) : list string * list string :=
  match ss_c (mc_scn (en_m e)) with
  | Some c => (allTargets c groups main, fixedMembers c)
  | None => ([], [])
  end.

(** [Library.Infos]: every profile and scenario, in the editor's order. *)
Definition Infos (lib : FullLibrary) : list ProfileInfo :=
  sort_stable info_order
    ((le_info <$> (map_to_list (lb_entries (fl_profiles lib))).*2) ++ (se_info <$> (map_to_list (fl_scenarios lib)).*2)).

Definition Profiles (e : engine) : list ProfileInfo := Infos (mc_library (en_m e)).
End queries.

(** ** Running a check: [Engine.run] and [diagnose] *)

(** The [Prober] of the core: what each request of a check comes to. *)
Class Prober := {
  Probe : string → Z * option string;
  CheckNode : string → Check → option string;
  Exit : string → Egress → list ExitVote * Z * option string;
  Diagnose : Target → option string;
}.

Section probes.
Context `{Prober}.

Definition succeeded (err : option string) : bool := is_none err.

Definition diagnose (targets : list Target) : probeResult :=
  {| pb_Ms := 0; pb_Failed := false; pb_Checks := ∅; pb_Votes := [];
     pb_Diag := list_to_map ((λ t, (target_string t, succeeded (Diagnose t))) <$> targets); pb_Requests := 0 |}.

Definition failed_probe (ms : Z) : probeResult :=
  {| pb_Ms := ms; pb_Failed := true; pb_Checks := ∅; pb_Votes := []; pb_Diag := ∅; pb_Requests := 0 |}.

(** [Engine.run]: the probe, then, over a working node, the checks and the
    vote on its exit. *)
Definition run (job : probeJob) : probeResult :=
  match jb_Targets job with
  | _ :: _ => diagnose (jb_Targets job)
  | [] =>
      let '(ms, err) := Probe (jb_Node job) in
      if negb (succeeded err) || (ms <=? 0) then failed_probe ms
      else
        let '(votes, requests) := match jb_Exit job with
                                  | Some egress => let '(votes, requests, _) := Exit (jb_Node job) egress in (votes, Z.max (requests - 1) 0)
                                  | None => ([], 0)
                                  end in
        {| pb_Ms := ms; pb_Failed := false;
           pb_Checks := (λ check, succeeded (CheckNode (jb_Node job) check)) <$> jb_Checks job;
           pb_Votes := votes; pb_Diag := ∅; pb_Requests := requests |}
  end.
End probes.

(** [Engine.probe]: the check run off the lock, its result handed in under
    it. *)
Definition probe `{Prober} `{Unicode} `{Regexp} `{Url} `{PublicSuffix} `{IpText} `{RangeOrder} `{Netip} `{Yaml} `{Embedded} `{ErrorText}
    `{Hmac} `{Random} `{Runtime} `{Calendar} `{Store} (e : engine) (job : probeJob) (now : time) : option engine :=
  probe_done e job (run job) now.
