(* ===== verification/StatusFacts.v ===== *)
(** * Reading the status, and the reload of a config for its routes *)

From S2P Require Import Prelude GoText Cond CondSyntax Evidence Journal Identity Country Profile Policy Library.
From S2P Require Import Decide Budget Route Scenario Layers Machine RouteInject Rebuild Settle Events Planner Engine Status.
From S2P Require Import MachineFacts RebuildFacts.

(** ** A rebuild keeps the scenario it loaded *)

Section keeps.
Context `{Unicode} `{Regexp} `{Url} `{PublicSuffix} `{IpText} `{RangeOrder} `{Netip}.
Context `{Yaml} `{Embedded} `{ErrorText} `{Hmac} `{Random} `{Runtime} `{Calendar} `{Store}.

(** The topology and the compiled scenario stay. *)
Definition keeps (m m' : machine) : Prop := mc_topology m' = mc_topology m ∧ ss_c (mc_scn m') = ss_c (mc_scn m).

#[export] Instance keeps_preorder : PreOrder keeps.
Proof. split; [by split | intros ??? [] []; split; by etrans]. Qed.

Lemma quiet_keeps m m' : quiet m m' → keeps m m'.
Proof. intros Hq. split; by rewrite Hq. Qed.

Lemma add_members_keeps nks : ∀ g m, keeps m (add_members m g nks).2.
Proof.
  unfold add_members. induction nks as [|nk nks IH]; intros g m; [done|]. cbn [foldl].
  assert (Hk : keeps m (add_member m g nk).2).
  { unfold add_member. destruct nk as [node k]. by destruct (countryOf _ _). }
  destruct (add_member m g nk) as [g' m']. etrans; [exact Hk | apply IH].
Qed.

Lemma fill_group_keeps m g topo nks : keeps m (fill_group m g topo nks).2.
Proof.
  unfold fill_group. destruct topo as [t|]; [|done]. cbn zeta.
  pose proof (add_members_keeps (take (length (gt_Members t)) nks)
    {| {| g with gs_members := []; gs_byName := ∅ |} with gs_now := gt_Now t |} m) as Hk.
  by destruct (add_members _ _ _).
Qed.

Lemma rebuild_group_keeps previous topo now name bd nks m : keeps m (rebuild_group previous topo now name bd nks m).2.
Proof.
  unfold rebuild_group. cbn zeta. set (g := configure_group _ _ _). set (id := policy_id _).
  assert (Hk1 : keeps m (recall_changed m g id now).2).
  { unfold recall_changed. case_if; [|done]. apply quiet_keeps, recallKind_quiet. }
  destruct (recall_changed m g id now) as [g1 m1]. pose proof (fill_group_keeps m1 g1 (topo !! name) nks) as Hk2.
  destruct (fill_group m1 g1 (topo !! name) nks) as [[nks' g2] m2]. cbn [fst snd] in *. etrans; [exact Hk1|]. etrans; [exact Hk2|].
  by destruct (mc_controls m2 !! name).
Qed.

Lemma rebuild_groups_keeps previous topo now bound names : ∀ nks m, keeps m (rebuild_groups previous topo now bound names nks m).
Proof.
  induction names as [|name names IH]; intros nks m; [done|]. cbn [rebuild_groups]. destruct (bound !! name) as [bd|]; [|apply IH].
  pose proof (rebuild_group_keeps previous topo now name bd nks m) as Hk. destruct (rebuild_group _ _ _ _ _ _ _) as [nks' m'].
  etrans; [exact Hk | apply IH].
Qed.

Lemma rebuild_keeps m now : keeps (loadScenario (load_library (ensureSalt m)) now) (rebuild m now).
Proof.
  unfold rebuild. set (m0 := loadScenario _ now).
  assert (Hk1 : keeps m0 (applyScenario m0 (layer_bound m0)).2) by (unfold applyScenario; destruct (ss_c (mc_scn m0)) eqn:E; split; by rewrite ?E).
  destruct (applyScenario m0 (layer_bound m0)) as [bound m1]. cbn [snd] in Hk1.
  set (names := sorted_keys bound). set (nodes := bound_nodes _ names).
  assert (Hk2 : keeps m1 (resolve_ids m1 nodes now).2) by (unfold resolve_ids; by destruct (Resolve _ _ _ _) as [[]|]).
  destruct (resolve_ids m1 nodes now) as [keys m2]. cbn [snd] in Hk2.
  match goal with |- context [rebuild_groups ?a ?b ?c ?d ?e ?f ?g] => destruct (rebuild_groups_keeps a b c d e f g) as [Ht Hc] end.
  destruct Hk1 as [Ht1 Hc1], Hk2 as [Ht2 Hc2]. split; [exact (eq_trans Ht (eq_trans Ht2 Ht1)) | exact (eq_trans Hc (eq_trans Hc2 Hc1))].
Qed.
End keeps.

(** ** Routes and the reload *)

Section reload.
Context `{RoutesDigest} `{Unicode} `{Regexp} `{Url} `{PublicSuffix} `{IpText} `{RangeOrder} `{Netip}.
Context `{Yaml} `{Embedded} `{ErrorText} `{Hmac} `{Random} `{Runtime} `{Calendar} `{Store}.

(** The engine wants the routes the host would build a config with. *)
Lemma loadScenario_routes m now :
  let m' := loadScenario (load_library m) now in
  mc_topology m' = mc_topology m ∧
  scenario_key (ss_c (mc_scn m')) = (ScenarioRoutes (tp_Subscription (mc_topology m)) (mc_user m)).2.
Proof.
  cbn zeta. unfold loadScenario, ScenarioRoutes. cbn [mc_topology mc_user mc_library load_library mc_scn].
  set (id := activeScenario _ _). set (lib := NewLibrary _ _).
  set (m1 := if eqs id _ then _ else _).
  assert (Hm : mc_topology m1 = mc_topology m ∧ mc_library m1 = lib ∧ ss_c (mc_scn m1) = None).
  { unfold m1. case_if; [done|]. match goal with |- context [recall ?x ?y ?z] => pose proof (recall_quiet x y z) as Hq; destruct (recall x y z) as [ks m2] end.
    cbn [snd] in Hq. cbn. rewrite Hq. done. }
  destruct Hm as (Ht & Hl & Hc). case_if; [by rewrite Hc|]. rewrite Hl. destruct (CompileScenario lib id); (split; [exact Ht|]); [by cbn; rewrite Hc | done].
Qed.

Lemma parseRouted_applied `{ConfigParser} raw routes key res applied : parseRouted raw routes key = Some (res, applied) →
  ar_Applied applied = true ∧ ar_Key applied = key.
Proof. unfold parseRouted. destruct (parse_loop _ _ _ _ _) as [[[cfg groups] problems]|]; [|done]. by intros [= <- <-]. Qed.

(** A config is reloaded for its routes only when they changed. After any
    rebuild the engine asks for a reload exactly when the running config was
    built with routes and their key is not the one of the routes the host
    would build it with now. So a config built with those routes asks for
    nothing, whichever of them mihomo refused: the reload does not repeat. *)
Theorem reload_settles `{ConfigParser} m now :
  let '(routes, key) := ScenarioRoutes (tp_Subscription (mc_topology m)) (mc_user m) in
  reloadWanted (rebuild m now) = ar_Applied (tp_Routes (mc_topology m)) && negb (eqs key (ar_Key (tp_Routes (mc_topology m)))) ∧
  ∀ raw res applied, parseRouted raw routes key = Some (res, applied) →
    reloadWanted (rebuild {| m with mc_topology := {| (mc_topology m) with tp_Routes := applied |} |} now) = false.
Proof.
  assert (Hw : ∀ m, reloadWanted (rebuild m now) = ar_Applied (tp_Routes (mc_topology m)) &&
    negb (eqs (ScenarioRoutes (tp_Subscription (mc_topology m)) (mc_user m)).2 (ar_Key (tp_Routes (mc_topology m))))).
  { intros m0. unfold reloadWanted. destruct (rebuild_keeps m0 now) as [-> ->]. destruct (loadScenario_routes (ensureSalt m0) now) as [-> ->].
    assert (mc_topology (ensureSalt m0) = mc_topology m0 ∧ mc_user (ensureSalt m0) = mc_user m0) as [-> ->] by (unfold ensureSalt; by case_match).
    by destruct (ar_Applied _). }
  destruct (ScenarioRoutes _ _) as [routes key] eqn:E. split; [by rewrite Hw, E|].
  intros raw res applied [Ha Hk]%parseRouted_applied. rewrite Hw. cbn. rewrite E, Ha, Hk. cbn. by rewrite (proj2 (eqs_true _ _)).
Qed.
End reload.

(** ** Reading the status *)

Section status.
Context `{RoutesDigest} `{Unicode} `{Regexp} `{RangeOrder} `{Yaml} `{Calendar}.

Lemma group_status_machine m name now :
  (group_status m name now).2 = if is_none (gs_policy (group_of m name)) then m else (splitState m (group_of m name) now).2.
Proof.
  unfold group_status. destruct (gs_policy (group_of m name)) as [lp|]; [|done]. cbn [is_none].
  destruct (match LibInfo _ _ with Some _ => _ | None => _ end) as [title lvl]. by destruct (splitState m (group_of m name) now).
Qed.

(** Making the status reads of the machine what the engine model says
    publishing it reads. *)
Lemma status_machine m now : (status m now).2 = status_reads m now.
Proof.
  unfold status, status_reads. destruct (scenario_status m) as [scenario problems].
  assert (Hg : ∀ names m0, (group_statuses m0 names now).2 = foldl (λ m name, let g := group_of m name in
    if is_none (gs_policy g) then m else (splitState m g now).2) m0 names).
  { induction names as [|name names IH]; intros m0; [done|]. cbn [group_statuses foldl]. rewrite <- group_status_machine.
    destruct (group_status m0 name now) as [gs m1]. etrans; [|exact (IH m1)]. by destruct (group_statuses m1 names now). }
  specialize (Hg (mc_order m) m). by destruct (group_statuses m (mc_order m) now).
Qed.

Lemma length_split_health (rows : list Ranked) :
  length rows = sum_list (length ∘ rows_of_health rows <$> healths).
Proof.
  unfold rows_of_health, healths. cbn. induction rows as [|row rows IH]; [done|]. rewrite !filter_cons. cbn [length]. rewrite IH.
  destruct (rw_Health row); cbn; repeat (case_decide; try done); cbn; lia.
Qed.

(** Every row of the ranking is counted under its health. *)
Lemma health_counts_total rows : foldr (λ p n, p.2 + n) 0 (health_counts rows) = Z.of_nat (length rows).
Proof.
  rewrite length_split_health. unfold health_counts, healths. cbn.
  repeat (destruct (rows_of_health rows _); cbn); lia.
Qed.

Lemma elem_of_excluded m g ctl x : x ∈ excluded_nodes m g ctl ↔
  ∃ key names, cr_Excluded ctl !! key = Some (xn_Until x) ∧ mc_keyNames m !! key = Some names ∧ xn_Name x ∈ names ∧
    is_Some (gs_byName g !! xn_Name x).
Proof.
  unfold excluded_nodes. rewrite list_elem_of_bind. split.
  - intros (key & Hx & [t Ht]%elem_of_sorted_keys). apply list_elem_of_fmap in Hx as (name & -> & [Hn Hin]%list_elem_of_filter).
    rewrite Ht. cbn. destruct (mc_keyNames m !! key) as [names|] eqn:E; [|by apply elem_of_nil in Hin]. by exists key, names.
  - intros (key & names & Ht & Hk & Hin & Hn). exists key. split; [|by apply elem_of_sorted_keys; eexists].
    apply list_elem_of_fmap. exists (xn_Name x). rewrite Ht, Hk. cbn. split; [by destruct x | by apply list_elem_of_filter].
Qed.
End status.

(** ** Running a check *)

Lemma run_sound `{Prober} job : jb_Targets job = [] →
  (pb_Failed (run job) = false → 0 < pb_Ms (run job) ∧ dom (pb_Checks (run job)) = dom (jb_Checks job)) ∧
  (pb_Failed (run job) = true → pb_Checks (run job) = ∅ ∧ pb_Votes (run job) = []) ∧ 0 <= pb_Requests (run job).
Proof.
  intros Ht. unfold run. rewrite Ht. destruct (Probe (jb_Node job)) as [ms err].
  destruct (negb (succeeded err) || (ms <=? 0)) eqn:E; [done|]. apply orb_false_iff in E as [_ E%Z.leb_gt].
  destruct (jb_Exit job) as [egress|]; [destruct (Exit (jb_Node job) egress) as [[votes requests] err']|]; cbn;
    (split_and!; [intros _; split; [done | apply dom_fmap_L] | done | lia]).
Qed.
