(* ===== verification/Witnesses.v ===== *)
(** * Runs of the machine and the engine on concrete inputs

    Each theorem of the machine, the planner and the engine, applied where
    its hypotheses hold. *)

From S2P Require Import Prelude GoText Cond Evidence Journal Identity Profile Policy Library.
From S2P Require Import Decide DecideFacts Budget Route Scenario Layers Machine Rebuild Settle Events Planner Samples Engine.
From S2P Require Import MachineFacts SettleFacts EventFacts PlannerFacts RebuildFacts EngineFacts.

Import World.

(** ** Sound machines *)

Lemma newMachine_sound : sound newMachine.
Proof. apply (NewEngine_ok None). Qed.

Lemma loaded_sound b groups m : sound m → sound (loaded b groups m).
Proof.
  intros Hm. unfold loaded. set (m1 := {| m with mc_topology := _; mc_user := _ |}).
  assert (Hs : sound m1) by (revert Hm; by apply (other_kept m m1)). exact (proj1 (rebuild_kept m1 noon Hs)).
Qed.

Lemma learn_kept node f m : kept m (learn node f m).
Proof. etrans; [apply steady_kept, facts_at_steady | by apply other_kept]. Qed.

Lemma routing_kept m : kept m (routing m).
Proof. by apply other_kept. Qed.

Lemma slow_down_sound : sound slow_down.
Proof.
  apply routing_kept, learn_kept, learn_kept, loaded_sound, newMachine_sound.
Qed.

Lemma both_work_sound : sound both_work.
Proof. apply settle_kept, routing_kept, learn_kept, learn_kept, loaded_sound, newMachine_sound. Qed.

Lemma emptied_sound : sound emptied.
Proof. apply settle_kept, loaded_sound, both_work_sound. Qed.

(** ** Kinds of networks *)

(** Metered networks are of kind mobile. *)
Definition mobile_policy : Policy :=
  {| DecideFacts.Sample.policy with
     pl_Kinds := [{| kr_Kind := "mobile"; kr_When := Some {| cd_Text := "metered"; cd_root := boolNode "metered" |};
                     kr_Pause := false |}] |}.

Definition seen (seq : Z) (metered : bool) : machine * time :=
  ({| idle_machine with mc_netSeq := seq;
      mc_power := {| (mc_power idle_machine) with pw_Metered := metered |} |}, noon).

Lemma kind_confirmation_witness :
  kd_kind (classify_run mobile_policy "" "Proxy" no_kind [seen 1 true; seen 2 false; seen 3 true]).1 = "mobile"%string.
Proof.
  rewrite (kind_confirmation mobile_policy "" "Proxy" no_kind [seen 1 true; seen 2 false; seen 3 true]).
  - vm_compute. reflexivity.
  - discriminate.
  - reflexivity.
  - reflexivity.
  - vm_compute. split_and!; discriminate || exact I.
Defined.

(** ** Settling, planning and waking *)

Lemma settle_safe_witness : wf (settle_groups slow_down noon) ∧
  mc_calls (settle_groups slow_down noon) = [CallSuppress []; CallSelect "Proxy" [] "fast"; CallClose "Proxy" "slow"].
Proof.
  destruct (settle_safe slow_down noon (so_wf _ slow_down_sound)) as [Hw _].
  split; [exact Hw | vm_compute; reflexivity].
Defined.

(** Nothing is known yet, so maintenance checks the current node and its
    standby, and the engine wakes for the next round. *)
Definition unknown : machine := settle (routing idle_machine) noon.

Lemma unknown_sound : sound unknown.
Proof. apply settle_kept, routing_kept, loaded_sound, newMachine_sound. Qed.

Definition maintained : list probeJob * machine := default ([], unknown) (plan unknown noon).

Lemma maintained_eq : plan unknown noon = Some maintained.
Proof. vm_compute. reflexivity. Qed.

Lemma plan_checks_witness : wf maintained.2 ∧ jb_Node <$> maintained.1 = ["slow"; "fast"]%string ∧
  size (mc_inflight maintained.2) = 2%nat.
Proof.
  destruct (plan_checks unknown noon maintained.1 maintained.2 (so_wf _ unknown_sound)) as [Hw _].
  - rewrite maintained_eq. by destruct maintained.
  - split_and!; [exact Hw | vm_compute; reflexivity | vm_compute; reflexivity].
Defined.

Lemma plan_failure_witness : plan emptied noon = None ∧ ∃ name, gs_members (group_of emptied name) = [] ∧
  name = "Proxy"%string.
Proof.
  assert (Hp : plan emptied noon = None) by (vm_compute; reflexivity). split; [exact Hp|].
  destruct (plan_failure emptied noon (so_wf _ emptied_sound) Hp) as (name & lp & Hin & _ & Hm & _).
  exists name. split; [exact Hm|]. replace (mc_order emptied) with ["Proxy"%string] in Hin by (vm_compute; reflexivity).
  by apply list_elem_of_singleton in Hin.
Defined.

Lemma next_due_covers_witness : ∃ due, nextDue maintained.2 noon = Some due ∧ noon < due ∧
  due <= gs_maintainAt (group_of maintained.2 "Proxy").
Proof.
  assert (He : ∃ due, nextDue maintained.2 noon = Some due) by (eexists; vm_compute; reflexivity).
  destruct He as [due He]. exists due. split; [exact He|].
  destruct (next_due_covers maintained.2 noon due ltac:(by vm_compute) He) as (Hd & _ & Hw).
  assert (Hm : mode maintained.2 noon = ActiveMode) by (vm_compute; reflexivity).
  rewrite Hm in Hw. destruct (Hw ltac:(done) ltac:(done) (gs_maintainAt (group_of maintained.2 "Proxy"))) as [[Hn Hle]|Hmissed].
  - apply wants_group with "Proxy"%string; [vm_compute; by left|]. rewrite Hm.
    apply wants_maintain; [by left | by vm_compute].
  - by vm_compute.
  - split; [lia | exact Hle].
  - exfalso. destruct Hmissed as (name & Hin & until & lp & Hu & _). revert Hu.
    replace (mc_order maintained.2) with ["Proxy"%string] in Hin by (vm_compute; reflexivity).
    apply list_elem_of_singleton in Hin as ->. vm_compute. discriminate.
Defined.

(** The profile dwells ten minutes, on mobile networks one; the group, on a
    mobile network, switched half a minute ago and its decision waits. The
    engine will not wake at the end of the dwell. *)
Definition dwelling : machine :=
  let lp := default {| lp_Base := DecideFacts.Sample.policy; lp_On := ∅ |} (gs_policy (group_of maintained.2 "Proxy")) in
  let base := {| (lp_Base lp) with pl_Dwell := 10 * Minute |} in
  let g := group_of maintained.2 "Proxy" in
  let decision := {| (gs_decision g) with dc_Until := Some {| rs_Code := "until.dwell"; rs_Args := ∅ |} |} in
  let g := {| g with gs_policy := Some {| lp_Base := base; lp_On := {["mobile"%string := {| base with pl_Dwell := Minute |}]} |};
                     gs_kind := {| (gs_kind g) with kd_kind := "mobile" |}; gs_decision := decision |} in
  let ctl := {| (control_of maintained.2 "Proxy") with cr_LastSwitch := noon - Minute + Second |} in
  put_control (put_group maintained.2 "Proxy" g) "Proxy" ctl.

Example overridden_dwell_missed : ∃ due, nextDue dwelling noon = Some due ∧
  group_wants dwelling (mode dwelling noon) noon "Proxy" (noon + Second) ∧ noon + Second < due.
Proof.
  eexists. split; [vm_compute; reflexivity|]. split; [|vm_compute; reflexivity].
  set (lp := default {| lp_Base := DecideFacts.Sample.policy; lp_On := ∅ |} (gs_policy (group_of dwelling "Proxy"))).
  assert (Hp : gs_policy (group_of dwelling "Proxy") = Some lp) by (vm_compute; reflexivity).
  assert (Hend : time_add (cr_LastSwitch (control_of dwelling "Proxy")) (pl_Dwell (active (group_of dwelling "Proxy") lp)) = noon + Second)
    by (vm_compute; reflexivity).
  rewrite <- Hend. apply (wants_dwell dwelling _ noon "Proxy" {| rs_Code := "until.dwell"; rs_Args := ∅ |} lp); [vm_compute; reflexivity | done | exact Hp].
Qed.

(** ** A failed check *)

(** A second failure in a row on a proven link. *)
Definition doubtful : machine := routing (learn "slow" failed_once idle_machine).
Definition failed : probeResult :=
  {| pb_Ms := 0; pb_Failed := true; pb_Checks := ∅; pb_Votes := []; pb_Diag := ∅; pb_Requests := 0 |}.
Definition slow_check : probeJob := new_job "Proxy" "slow" (key_of "slow") MaintainBucket "maintain".

Lemma probe_condemns_witness :
  condemned (mc_evidence doubtful) (mc_evidence (onProbeResult doubtful slow_check failed noon)) "default" (key_of "slow") ∧
  linkProven doubtful noon = true.
Proof.
  assert (Hc : condemned (mc_evidence doubtful) (mc_evidence (onProbeResult doubtful slow_check failed noon))
    "default" (key_of "slow")) by (split; vm_compute; reflexivity).
  split; [exact Hc|]. destruct (probe_condemns doubtful slow_check failed noon _ _ Hc) as (_ & _ & Hm).
  replace (awaited doubtful slow_check) with (@None confirmation) in Hm by (vm_compute; reflexivity). apply Hm.
Defined.

(** ** An engine's run *)

#[local] Instance kept_store : Store := {| snapshot_bytes _ := Ok 100; store_save _ _ := None |}.

(** Inputs that are no results, one after the other. *)
Fixpoint run (inputs : list (input * time)) (e : engine) : option engine :=
  match inputs with
  | [] => Some e
  | (i, now) :: inputs => e ← feed e i now; run inputs e
  end.

Definition no_result (i : input) : Prop := match i with InProbe _ _ => False | _ => True end.

Lemma run_reachable inputs e e' : Forall (λ p, no_result p.1) inputs → reachable e → run inputs e = Some e' → reachable e'.
Proof.
  intros Hn. revert e. induction Hn as [|[i now] inputs Hi _ IH]; intros e He; cbn [run]; [by intros [= <-]|].
  destruct (feed e i now) as [e1|] eqn:E; cbn [mbind option_bind]; [|discriminate]. apply IH.
  eapply reach_step; [exact He | | exact E]. intros job res ->. by cbn in Hi.
Qed.

(** The core reports the group, then the routing starts. *)
Definition story : list (input * time) :=
  [(InTopology {| empty_topology with tp_Groups := [two_servers] |} (Some (with_binding no_binding)), noon);
   (InRunning true, noon + Second)].

Definition fed : option engine := run story (NewEngine None).

Lemma fed_order : (λ e, mc_order (en_m e)) <$> fed = Some ["Proxy"%string].
Proof. vm_compute. reflexivity. Qed.

Lemma fed_reachable e : fed = Some e → reachable e.
Proof. apply run_reachable; [by repeat constructor | apply reach_new]. Qed.

Lemma engine_invariant_witness : ∃ e, fed = Some e ∧ mc_order (en_m e) = ["Proxy"%string] ∧ wf (en_m e).
Proof.
  pose proof fed_order as Ho. destruct fed as [e|] eqn:E; [|discriminate Ho]. exists e.
  injection Ho as Ho. split_and!; [reflexivity | exact Ho|].
  apply (engine_invariant e (fed_reachable e E)).
Defined.
